(* ===== verification/_CoqProject ===== *)
-Q . S2P
Prelude.v
RustStr.v
Wire.v
Model.v
At.v
Iri.v
SliceProof.v
Faults.v
Verdict.v
Finding.v
Eff.v
Agent.v
Ledger.v
Routing.v
Tiered.v
Escalate.v
MemTiers.v
EscalateWorld.v
Split.v
SplitWorld.v
GateEngine.v
WorkflowDef.v
WorkflowRun.v
PrPolicy.v
Governor.v
Failover.v
GovDispatch.v
Intent.v
FlsBytes.v
WireMsg.v
Delivery.v
DeliveryWorld.v
FlsCrc.v
FlsFloat.v
FlsModel.v
FlsColumns.v
FlsVector.v
FlsGraph.v
FlsIndex.v
FlsValid.v
FlsLayout.v
FlsRowGroup.v
FlsEncode.v
FlsScan.v
FlsRollup.v
FlsSnapshot.v
FlsState.v
FlsDisk.v
FlsCrash.v
FlsOpen.v
FlsGroup.v
FlsCache.v
FlsDemo.v
