(* ===== verification/Prelude.v ===== *)
(** * FerroLoop: a verification library for the domain core of the [fl] suite

    FerroLoop runs software work through gates: a gate examines a population
    of files and passes, fails or errs; a transition of a work record demands
    gates; a finding is a claim that something is wrong, closed only by a
    gate that used to fail; a workflow is a graph of steps run by agents; a
    pull request is merged under a policy of tiers; calls to the outside go
    through a gateway that admits, meters and fails over. The pure rules are
    the crate [crates/core]; [crates/exec] drives them against stores, git and
    child processes; [crates/gate] puts the governor and the failover engine
    around each dispatch. What they decide is kept in FerroStore, a container
    file with a log and snapshots ([crates/store/src/ferrostore]). This library
    models those parts, in Rust's own terms, and proves the properties that
    make them right.

    ** Files

    - [Prelude]: results, options, machine integers at their width, loops,
      sorting, sums over maps, the tactics and the hint database [rust].
    - [RustStr]: Rust's byte strings: ASCII case, Unicode [trim], splitting.
    - [Wire]: the class of enums with wire names ([wire.rs]); every enum of
      the model has an instance, and parsing is proved once for all of them.
    - [Model]: projects, gates, transitions, records ([model.rs], [ids.rs],
      [log.rs]).
    - [At], [Iri]: timestamps and identifiers, their one spelling ([at.rs],
      [iri.rs]). [Faults]: the tiers of a routed project and the refusals of
      shared, routed and escalated stores, with their messages ([fault.rs],
      parts of [routing.rs] and [escalation.rs]).
    - [SliceProof]: the reviewed bounds of a slice's tokens and cost
      ([slice_proof.rs]), with [semver] as a parameter.
    - [Verdict]: gate verdicts and staleness ([verdict.rs], [stale.rs]).
    - [Finding]: the life of a finding ([finding.rs]), as operations and as
      the automaton they refine.
    - [Eff]: programs that call the outside world, as trees of calls, with
      their traces; nothing is assumed of the answers.
    - [Ledger]: ledger entries, decisions and errors ([decision.rs],
      [log.rs], part of [store.rs], [population.rs]).
    - [Routing]: the map from areas to tiers ([routing.rs]). [Tiered]: the
      tracker over a local tier and GitHub ([tiered.rs]), which finds the tier
      of an id and places what is new, as programs of calls to the two.
      [Escalate]: moving a local item to an issue ([escalate.rs],
      [escalation.rs]). [MemTiers]: the in-memory tiers those calls reach, with
      their faults ([mem.rs], [mem_issues.rs]); [EscalateWorld]: escalations
      run, cut short and run again against them.
    - [Split]: the ledger kept half here and half in a repository: merging,
      disclosure and the flush that publishes ([split.rs], [disclose.rs]).
      [SplitWorld]: a machine and its remote ledger under faults and crashes
      ([mem.rs], [MemRemote] of [conformance.rs]).
    - [GateEngine]: the engine of [crates/exec] ([evaluate.rs],
      [command.rs], [record.rs], [finding.rs], [decision.rs]) as such
      programs: running a gate, evaluating a transition, moving a record,
      attaching a reproduction, verifying a repair.
    - [Agent]: slugs, areas, roles and agents ([agent.rs], [state.rs]).
    - [WorkflowDef], [WorkflowRun]: the workflow graph and its validator, the
      scheduler, agent selection and sign-off ([workflow.rs]).
    - [PrPolicy]: attribution, protected paths, tiers and approvals
      ([pr_policy.rs]).
    - [Governor]: the admission governor ([governor.rs]): endpoints, scopes,
      rate windows, the replay guard and the in-memory store with its
      operations, and arbitrary sequences of them.
    - [Failover]: endpoint sets, attempt journals, the parent envelope and the
      next-action rule ([core/src/failover.rs]); the journal interface as a
      class with its laws, its two instances, and the engine's loop as a
      program ([gate/src/failover.rs]).
    - [GovDispatch]: [governed_dispatch] of the gateway as a program
      ([gate/src/governor.rs]), run against any store, against the governor's
      store, and interleaved with another caller.
    - [Intent]: intents, allocation pools and committees ([intent.rs]).
    - [WireMsg]: messages between agents: addresses, recipients, the merge of
      receipts, and the canonical bytes that bind a message ([ferrowire.rs],
      [c14n.rs]). [Delivery]: the state machine that hands a message to a peer
      at most once ([wire_delivery.rs]). [DeliveryWorld]: the in-memory store
      that runs it ([mem.rs]), and histories of its commands.
    - [FlsBytes], [FlsCrc]: little-endian integers, length-prefixed fields, the
      decoding cursor, UTF-8, and the checksum ([layout.rs]).
    - [FlsModel]: documents, column tables, vector collections and their
      checks ([state.rs], [columnar.rs], [vector.rs]); the classes [Json] and
      [Engine], through which the container sees [serde_json] and the few
      functions it takes from elsewhere.
    - [FlsFloat], [FlsVector]: [f32], [f16] and [f64], and the vector index over
      them: distances, insertion, removal and repair, search, the order check
      ([vector.rs]). [FlsGraph], [FlsIndex], [FlsValid]: the graph invariant,
      that the operations keep it, that the checks decide it.
    - [FlsColumns]: row groups of column tables, the codecs, zone maps, the
      decoding budget, scans ([columnar.rs]). [FlsRowGroup]: what is written
      reads back; [FlsEncode]: what is within the limits is written;
      [FlsScan]: what a reader accepts, and what scans answer; [FlsRollup]: the
      totals of a ledger.
    - [FlsLayout], [FlsSnapshot]: the superblock slots, the log's frames, and
      the three snapshot versions ([layout.rs]).
    - [FlsState]: overlays, staging, commits and the replay of a log
      ([state.rs]).
    - [FlsDisk]: the file and the handle on it ([mod.rs], part of
      [compact.rs]) as programs over a simulated file ([crash_sim.rs]):
      publish, checkpoint, load, cache, first use and open.
    - [FlsCrash]: the invariant of the file between and during those programs,
      under faults and power cuts; [FlsOpen], [FlsGroup] ([group.rs]) and
      [FlsCache]: what it gives for opening, group commit and the cache.
    - [FlsDemo]: the parameters instantiated, and the theorems on a store that
      was just created.

    ** How the code is modelled

    A pure function is a Rocq function of the same name; [Result] and [?] are
    [Result] and [let?]; a [&mut] argument is returned. A fallible [expect]
    is a [Panic] value. A [u32] or [u64] is an [N], with saturating, checked
    and wrapping operations written out; an unchecked [+] wraps, as in a
    release build. A [BTreeMap] is a [gmap] when its order is not observed,
    and is read in key order where it is. The engine's calls (catalog, ledger,
    tracker, git, children, clock, ids, the record lock) are the operations
    of [EngineOp]; a theorem about every trace of a program holds whatever
    the stores answer and whoever writes between two calls. The same holds of
    the router, of an escalation and of a flush. What takes two sides to say
    (nothing is lost, a rerun finishes) is proved against the in-memory stores:
    [interp] runs a program against a state, and [worlds] is every state it
    can leave when the process dies between two calls; a relation of steps then
    mixes such runs with faults and with other work. [globset],
    [serde_json] and Unicode lowercasing are parameters, with what the code
    relies on as hypotheses of the sections that need it.

    The container's file is the model its own crash tests use: what readers see,
    what is durable, and the writes in between, of which a power cut keeps any
    part, down to a sector. A program of the handle meets a list of injected
    faults, one per call; a theorem about it holds for every such list and
    every way the pending writes can survive. [Arc]s are values, since nothing
    writes through a shared one. A [f32] is its bits and a [f64] a value of the
    Standard Library's [spec_float], computed with its IEEE 754 operations; no
    distance of finite vectors is a NaN, so the one NaN it has is enough.

    Two searches in the validator are loops over a queue; they run on fuel,
    one more than the number of edges, which [bfs_total] shows to be enough
    for every definition. The failover loop runs on fuel too: one more than
    the envelope's attempts, enough by [failover_terminates] whatever an attempt
    costs, because a begun attempt stays in the journal. The governor's
    theorems ask for fewer than 2^32 operations, since a slot count is a
    [u32], and for budgets below [u64::MAX], where the saturating check
    cannot tell a full budget from an overflow. The loop of a vector search
    runs on one more turn than there are vectors, enough by [search_layer_ok]. A
    scan in memory runs on as many turns as rows, and the run-length decoders
    on as many as values, since each turn takes one at least. The sizes of a
    cell and of a row, which a decoding budget counts, are the compiler's:
    parameters of [Engine], and no theorem asks anything of them.

    ** What the theorems show

    - Names: timestamps sort as the instants they spell and are read back
      exactly; an identifier is normal after one parse, and parsing does not
      panic.
    - Slices: whatever an admitted slice does within the limits of its one
      reviewed record, it stays within the bound, to the picodollar.
    - Verdicts: nothing passes without having examined something; staleness
      only worsens; a stored pass over zero does not load.
    - Engine: evidence is recorded and the decision flushed before any state
      is written, and state is written only on evidence that passed: for
      moves, reproductions and repairs, over every trace.
    - Findings: the operations implement the automaton and keep its invariant;
      no way from raised to assigned but through a reproduction, none out of a
      terminal state.
    - Workflows: the validator decides well-formedness; the scheduler keeps
      runs well-formed, never panics, charges every report, stops at every
      ceiling, and lets a
      human-signed step be done only from waiting; reviewers are independent
      and nobody signs off their own step.
    - Pull requests: attribution is exact, tiers below the owner's are clean,
      an approval is an unrevoked one of exactly this head by the owner or an
      authorised agent, outsiders change nothing, markers round-trip.
    - Governor: over any sequence of operations the books of a scope are
      exactly its permits and settlements, and budget and slots stay within
      their caps; a rate window is frozen; settlement is final; an executed
      operation is refused in its guard window.
    - Failover: at most one attempt may have executed, on every trace; the
      loop ends within its envelope; an attempt is saved before it is sent.
    - Dispatch: every admitted permit is settled once; a second dispatch of an
      executed operation does nothing, unless it is the Owner's fresh action.
    - Container: the checksum is the reference CRC-32; superblocks, frames and
      snapshots read back as written, a torn log as its whole frames; an
      overlay over a shared state reads and applies as a direct run; a cache
      that replays a tail answers as a full load. An acknowledged commit is in
      every file a crash can leave, whole; opening finds it, and writes to no
      file but one that an interrupted first use left; a checkpoint changes no
      state; a handle whose sync failed writes nothing more. The vector index
      stays the graph its checks ask for under upserts and deletes, so that no
      commit can lead to a state that a snapshot refuses for its graph; a
      search ends and answers stored vectors with their scores, best first.
      Row groups survive a write and a read exactly when they are typed rows
      within the limits; a group that is accepted, whoever wrote it, is typed;
      scans that skip groups by their zone maps, or that cut rows into chunks,
      answer exactly the rows that match; a rollup is the exact totals.
    - Tiers: a write through the router lands in one tier or in none; what is
      sensitive reaches GitHub only after the repository answered that it is
      private; a merged list is both tiers' answers less copies of what is
      being escalated. An escalation, cut short anywhere and run again, makes
      one issue and ends at its tombstone, against a GitHub whose create finds
      its own key; its search may miss an issue, and what an abandon then
      leaves behind is accounted for. A body is refused exactly when it is over
      the budget.
    - The split ledger: merging never panics and hides no difference but what a
      public copy withholds; no entry is lost between the halves, and the next
      flush that meets no fault leaves nothing waiting.
    - Committees and allocations: nothing is handed out twice or out of
      nothing, and an outcome is final and a function of the votes.

    - Messages: canonical bytes bind every field; receipts merge the same in any
      order; addresses are read back but for one. Deliveries: after any history
      at most one attempt of a message may have reached its recipient, at most
      one message to it awaits an answer, the shared slots are exactly the
      attempts that hold one; and once an outcome is unconfirmed, nothing more
      is prepared or armed for that recipient.

    Five theorems show what the code does not do: in [WireMsg], a persona whose
    stored address reads back as everyone; in [WorkflowRun], runs that
    strand (a pass with no edge to follow, an escalated step dropped by the
    final prune); in [Governor], a rate lowered to zero that still admits; in
    [GovDispatch], two interleaved callers that both dispatch one operation.

    ** What is not modelled

    The SQLite store and the GitHub adapter, child processes and git, the
    servers, transports, installer, command line and user interface: they are
    I/O around the rules, and the calls of the programs stand for them. Of the
    in-memory store, the catalog, handles, agent registry, message log and
    workflow storage. Of the core crate, the modules listed as not modelled in
    the manifest: routines, permissions, the state database, the indexes; of
    deliveries, enrolment and the log of receipts. Of the split ledger, the cache of read segments. Of
    the container: the check of the schema version when a store is opened,
    compaction and its rename, a second handle on the file,
    locks between threads and processes, the typed records over the documents,
    text search, rank fusion, the JSON forms of cells and filters, the message
    queues, the server and its protocols. *)

From Stdlib Require Export Bool NArith ZArith Lia String Ascii.
From stdpp Require Export base tactics strings list gmap sorting pretty numbers relations.

Declare Scope rust_scope.
Delimit Scope rust_scope with rust.
#[global] Open Scope rust_scope.

(** ** Results

    Rust's [Result<T, E>], with the [?] operator as a bind. *)

Inductive Result (A E : Type) : Type :=
| Ok (a : A)
| Err (e : E).
Arguments Ok {A E} a.
Arguments Err {A E} e.

Definition result_bind {A B E} (c : Result A E) (k : A → Result B E) : Result B E :=
  match c with
  | Ok a => k a
  | Err e => Err e
  end.

Notation "'let?' x := c 'in' k" := (result_bind c (fun x => k))
  (at level 10, x pattern, c at level 200, k at level 200) : rust_scope.

Definition ok_or {A E} (o : option A) (e : E) : Result A E :=
  match o with
  | Some a => Ok a
  | None => Err e
  end.

Definition map_err {A E F} (f : E → F) (c : Result A E) : Result A F :=
  match c with
  | Ok a => Ok a
  | Err e => Err (f e)
  end.

Definition is_ok {A E} (c : Result A E) : bool :=
  match c with
  | Ok _ => true
  | Err _ => false
  end.

#[global] Instance result_eq_dec {A E} `{EqDecision A, EqDecision E} : EqDecision (Result A E).
Proof. solve_decision. Defined.

(** Rust's [==] and [!=] on types with decidable equality. *)
Notation "x == y" := (bool_decide (x = y)) (at level 70, no associativity) : rust_scope.
Notation "x != y" := (negb (bool_decide (x = y))) (at level 70, no associativity) : rust_scope.

Definition is_some {A} (o : option A) : bool :=
  match o with Some _ => true | None => false end.

Definition is_none {A} (o : option A) : bool := negb (is_some o).

(** [Option::is_some_and] and [Option::is_none_or]. *)
Definition is_some_and {A} (o : option A) (p : A → bool) : bool :=
  match o with Some a => p a | None => false end.

Definition is_none_or {A} (o : option A) (p : A → bool) : bool :=
  match o with Some a => p a | None => true end.

Definition unwrap_or {A} (o : option A) (d : A) : A :=
  match o with Some a => a | None => d end.

Definition option_or {A} (a b : option A) : option A :=
  match a with Some _ => a | None => b end.

(** ** Machine integers

    A [u32], [u64] or [u128] is an [N]; the width is written out where the
    code saturates, checks or wraps. Unchecked [+] wraps, as in a release
    build (the workspace sets no [overflow-checks]). *)

Definition u8_max : N := 255.
Definition u32_max : N := 4294967295.
Definition u64_max : N := 18446744073709551615.
Definition u128_max : N := 340282366920938463463374607431768211455.

Definition sat_add64 (a b : N) : N := N.min (a + b) u64_max.
Definition sat_mul64 (a b : N) : N := N.min (a * b) u64_max.
Definition sat_sub (a b : N) : N := (a - b)%N.
Definition wrap_add32 (a b : N) : N := ((a + b) mod (u32_max + 1))%N.
Definition wrap_add64 (a b : N) : N := ((a + b) mod (u64_max + 1))%N.

Definition checked_add (max a b : N) : option N :=
  if (a + b <=? max)%N then Some (a + b)%N else None.
Definition checked_mul (max a b : N) : option N :=
  if (a * b <=? max)%N then Some (a * b)%N else None.
Definition checked_sub (a b : N) : option N :=
  if (b <=? a)%N then Some (a - b)%N else None.

Abbreviation checked_add64 := (checked_add u64_max).
Abbreviation checked_mul64 := (checked_mul u64_max).

Definition len {A} (l : list A) : N := N.of_nat (length l).

(** ** Lists *)

(** [slice::contains] and [Vec] membership as booleans. *)
Definition contains {A} `{EqDecision A} (l : list A) (x : A) : bool :=
  existsb (fun y => y == x) l.

(** [push] only what is not there yet ([pr_policy.rs]'s [push_unique]). *)
Definition push_unique {A} `{EqDecision A} (l : list A) (x : A) : list A :=
  if contains l x then l else l ++ [x].

(** A loop that pushes one value for each item. *)
Fixpoint map_result {A B E} (f : A → Result B E) (l : list A) : Result (list B) E :=
  match l with
  | [] => Ok []
  | a :: l' => let? b := f a in let? bs := map_result f l' in Ok (b :: bs)
  end.

(** First error wins: a [for] loop whose body may return early. *)
Fixpoint for_each {A E} (f : A → Result unit E) (l : list A) : Result unit E :=
  match l with
  | [] => Ok tt
  | a :: l' => let? _ := f a in for_each f l'
  end.

(** A [for] loop that threads a state and may return early. *)
Fixpoint for_fold {A S E} (f : S → A → Result S E) (s : S) (l : list A) : Result S E :=
  match l with
  | [] => Ok s
  | a :: l' => let? s' := f s a in for_fold f s' l'
  end.

(** [slice::sort_by]: the stable sort, by insertion. *)
Fixpoint insert_by {A} (leb : A → A → bool) (x : A) (l : list A) : list A :=
  match l with
  | [] => [x]
  | y :: l' => if leb x y then x :: l else y :: insert_by leb x l'
  end.

Definition sort_by {A} (leb : A → A → bool) (l : list A) : list A := foldr (insert_by leb) [] l.

(** Sum of a measure over the values of a finite map. *)
Definition map_sum {K A} `{Countable K} (f : A → N) (m : gmap K A) : N :=
  map_fold (fun _ v acc => (f v + acc)%N) 0%N m.

Definition sum_list_N (l : list N) : N := foldr N.add 0%N l.

(** ** Automation *)

Create HintDb rust discriminated.
Create Rewrite HintDb rust.
#[global] Hint Constants Transparent : rust.

(** Split hypotheses made of boolean tests into propositions. *)
Ltac bool_prop :=
  repeat match goal with
  | H : _ && _ = true |- _ => apply andb_true_iff in H as [? ?]
  | H : _ && _ = false |- _ => apply andb_false_iff in H
  | H : _ || _ = true |- _ => apply orb_true_iff in H
  | H : _ || _ = false |- _ => apply orb_false_iff in H as [? ?]
  | H : negb _ = true |- _ => apply negb_true_iff in H
  | H : negb _ = false |- _ => apply negb_false_iff in H
  | H : bool_decide _ = true |- _ => apply bool_decide_eq_true in H
  | H : bool_decide _ = false |- _ => apply bool_decide_eq_false in H
  | H : (_ <=? _)%N = true |- _ => apply N.leb_le in H
  | H : (_ <=? _)%N = false |- _ => apply N.leb_gt in H
  | H : (_ <? _)%N = true |- _ => apply N.ltb_lt in H
  | H : (_ <? _)%N = false |- _ => apply N.ltb_ge in H
  | H : (_ =? _)%N = true |- _ => apply N.eqb_eq in H
  | H : (_ =? _)%N = false |- _ => apply N.eqb_neq in H
  end.

(** Follow every branch a computation took, in a hypothesis. *)
Ltac step_in H :=
  repeat (simplify_eq/=;
          match type of H with
          | context [result_bind ?c _] => destruct c eqn:?; cbn [result_bind] in H
          | context [match ?c with _ => _ end] => destruct c eqn:?
          end); simplify_eq/=.

(** Case on every test left in the goal. *)
Ltac step_goal :=
  repeat (simplify_eq/=; case_match); simplify_eq/=.

(** Unfold the saturating and checked arithmetic for [lia]. *)
Ltac width := unfold sat_add64, sat_sub, wrap_add32, wrap_add64, checked_add, checked_mul,
  checked_sub, u8_max, u32_max, u64_max, u128_max in *.

(** ** Lemmas the components share *)

Lemma contains_spec {A} `{EqDecision A} (l : list A) x : contains l x = true ↔ x ∈ l.
Proof.
  unfold contains. rewrite existsb_exists, list_elem_of_In.
  split; [intros (y & ? & ->%bool_decide_eq_true); done | intros; exists x; split; [done|]].
  by apply bool_decide_eq_true.
Qed.

Lemma contains_false {A} `{EqDecision A} (l : list A) x : contains l x = false ↔ x ∉ l.
Proof. rewrite <- not_true_iff_false, contains_spec. done. Qed.

Lemma push_unique_elem {A} `{EqDecision A} (l : list A) x y :
  y ∈ push_unique l x ↔ y ∈ l ∨ y = x.
Proof.
  unfold push_unique. destruct (contains l x) eqn:E; [apply contains_spec in E; naive_solver|].
  set_solver.
Qed.

Lemma push_unique_NoDup {A} `{EqDecision A} (l : list A) x : NoDup l → NoDup (push_unique l x).
Proof.
  unfold push_unique. destruct (contains l x) eqn:E; [done|].
  apply contains_false in E. intros. apply NoDup_app. split_and!; [done|set_solver|].
  apply NoDup_singleton.
Qed.

Lemma find_elem {A} (p : A → bool) l a : List.find p l = Some a → a ∈ l ∧ p a = true.
Proof. intros [??]%List.find_some. by rewrite list_elem_of_In. Qed.

Lemma find_none {A} (p : A → bool) l a : List.find p l = None → a ∈ l → p a = false.
Proof. rewrite list_elem_of_In. intros Hf Hin. by eapply List.find_none. Qed.

Lemma filter_elem {A} (p : A → bool) l a : a ∈ List.filter p l ↔ a ∈ l ∧ p a = true.
Proof. by rewrite !list_elem_of_In, List.filter_In. Qed.

Lemma NoDup_filter_bool {A} (p : A → bool) (l : list A) : NoDup l → NoDup (List.filter p l).
Proof. rewrite !NoDup_ListNoDup. apply List.NoDup_filter. Qed.

Lemma existsb_elem {A} (p : A → bool) l : existsb p l = true ↔ ∃ a, a ∈ l ∧ p a = true.
Proof. rewrite existsb_exists. by setoid_rewrite list_elem_of_In. Qed.

Lemma existsb_elem_false {A} (p : A → bool) l : existsb p l = false ↔ ∀ a, a ∈ l → p a = false.
Proof.
  rewrite <- not_true_iff_false, existsb_elem. split.
  - intros Hn a Ha. apply not_true_is_false. naive_solver.
  - intros Ha (a & Hin & Hp). rewrite Ha in Hp; naive_solver.
Qed.

Lemma forallb_elem {A} (p : A → bool) l : forallb p l = true ↔ ∀ a, a ∈ l → p a = true.
Proof. rewrite forallb_forall. by setoid_rewrite list_elem_of_In. Qed.

Lemma for_each_ok {A E} (f : A → Result unit E) l :
  for_each f l = Ok tt ↔ ∀ a, a ∈ l → f a = Ok tt.
Proof.
  induction l as [|a l IH]; cbn; [set_solver|].
  destruct (f a) as [[]|e] eqn:Hfa; cbn.
  - rewrite IH. set_solver.
  - split; [done|]. intros H. specialize (H a ltac:(set_solver)). congruence.
Qed.

Lemma map_result_ok {A B E} (f : A → Result B E) (g : A → B) l :
  (∀ a, a ∈ l → f a = Ok (g a)) → map_result f l = Ok (map g l).
Proof.
  induction l as [|a l IH]; intros Hf; cbn; [done|]. rewrite Hf by set_solver. cbn [result_bind].
  rewrite IH by set_solver. done.
Qed.

Lemma map_result_inv {A B E} (f : A → Result B E) l :
  (∃ bs, map_result f l = Ok bs ∧ Forall2 (fun a b => f a = Ok b) l bs) ∨ ∃ a e, a ∈ l ∧ f a = Err e ∧ map_result f l = Err e.
Proof.
  induction l as [|a l IH]; cbn; [left; exists []; by split; [|constructor]|].
  destruct (f a) as [b|e] eqn:Ea; cbn [result_bind]; [|right; exists a, e; split_and!; [left|done|done]].
  destruct IH as [(bs&->&HF)|(a'&e&Hin&He&->)]; cbn [result_bind].
  - left. exists (b :: bs). by split; [|constructor].
  - right. exists a', e. split_and!; [by right|done|done].
Qed.

Lemma Forall2_with_r {A B} (R : A → B → Prop) (P : B → Prop) l k :
  Forall2 R l k → Forall P k → Forall2 (fun a b => R a b ∧ P b) l k.
Proof. induction 1; inversion 1; subst; constructor; auto. Qed.

Lemma insert_by_perm {A} (leb : A → A → bool) x l : insert_by leb x l ≡ₚ x :: l.
Proof.
  induction l as [|y l IH]; cbn; [done|]. destruct (leb x y); [done|]. rewrite IH. apply Permutation_swap.
Qed.

Lemma sort_by_perm {A} (leb : A → A → bool) l : sort_by leb l ≡ₚ l.
Proof. induction l as [|x l IH]; cbn; [done|]. by rewrite insert_by_perm, IH. Qed.

Lemma sort_by_elem {A} (leb : A → A → bool) l x : x ∈ sort_by leb l ↔ x ∈ l.
Proof. by rewrite sort_by_perm. Qed.

Lemma NoDup_fmap_elem {A B} (f : A → B) (l : list A) x y :
  NoDup (f <$> l) → x ∈ l → y ∈ l → f x = f y → x = y.
Proof.
  induction l as [|z l IH]; cbn; [set_solver|]. intros [Hz Hnd]%NoDup_cons Hx Hy Heq.
  apply elem_of_cons in Hx as [->|Hx], Hy as [->|Hy]; [done| | |auto].
  - destruct Hz. rewrite Heq. by apply list_elem_of_fmap_2.
  - destruct Hz. rewrite <- Heq. by apply list_elem_of_fmap_2.
Qed.

(** Sorting by a total preorder given as a boolean test. *)
Section SortBy.
Context {A : Type} (leb : A → A → bool).
Context (leb_total : ∀ x y, leb x y = true ∨ leb y x = true).
Context (leb_trans : ∀ x y z, leb x y = true → leb y z = true → leb x z = true).

Lemma insert_by_sorted x l : StronglySorted leb l → StronglySorted leb (insert_by leb x l).
Proof.
  induction l as [|y l IH]; cbn; [by repeat constructor|].
  intros [Hy Hl]%StronglySorted_cons. destruct (leb x y) eqn:E.
  - apply StronglySorted_cons. split; [|by apply StronglySorted_cons].
    constructor; [by apply Is_true_true|]. eapply Forall_impl; [exact Hy|]. intros z Hz.
    apply Is_true_true in Hz. apply Is_true_true. by eapply leb_trans.
  - apply StronglySorted_cons. split; [|auto]. rewrite insert_by_perm. constructor; [|done].
    apply Is_true_true. destruct (leb_total x y); congruence.
Qed.

Lemma sort_by_sorted l : StronglySorted leb (sort_by leb l).
Proof. induction l; cbn; [constructor|by apply insert_by_sorted]. Qed.

Lemma insert_by_front x l : Forall (fun y => leb x y = true) l → insert_by leb x l = x :: l.
Proof. destruct 1 as [|y l' E]; cbn; [done|]. by rewrite E. Qed.

Lemma filter_insert_by p x l :
  StronglySorted leb l →
  List.filter p (insert_by leb x l) = if p x then insert_by leb x (List.filter p l) else List.filter p l.
Proof.
  induction l as [|y l IH]; cbn; [by destruct (p x)|]. intros [Hy Hl]%StronglySorted_cons.
  destruct (leb x y) eqn:E; cbn; [|rewrite IH by done; destruct (p x), (p y); cbn; by rewrite ?E].
  destruct (p x) eqn:Hx, (p y) eqn:Hp; cbn; rewrite ?E; try done.
  rewrite insert_by_front; [done|]. apply Forall_forall. intros z [Hz _]%filter_elem.
  rewrite Forall_forall in Hy. specialize (Hy z Hz). apply Is_true_true in Hy. by eapply leb_trans.
Qed.

(** Filtering and sorting commute. *)
Lemma filter_sort_by p l : List.filter p (sort_by leb l) = sort_by leb (List.filter p l).
Proof.
  induction l as [|x l IH]; [done|]. cbn [List.filter].
  change (sort_by leb (x :: l)) with (insert_by leb x (sort_by leb l)).
  rewrite filter_insert_by, IH by apply sort_by_sorted. by destruct (p x).
Qed.

(** Without ties the order of the input does not matter. *)
Lemma sort_by_perm_eq l k :
  (∀ x y, x ∈ l → y ∈ l → leb x y = true → leb y x = true → x = y) →
  l ≡ₚ k → sort_by leb l = sort_by leb k.
Proof.
  intros Hanti Hp. apply (StronglySorted_unique_strong leb); [|apply sort_by_sorted..|].
  - intros x y. rewrite !sort_by_elem. intros Hx Hy H1 H2.
    apply Hanti; [done|by rewrite Hp|by apply Is_true_true..].
  - by rewrite !sort_by_perm.
Qed.

(** What follows a smaller element is not before it. *)
Lemma sorted_split l1 x l2 y :
  StronglySorted leb (l1 ++ x :: l2) → y ∈ l1 ++ x :: l2 → leb y x = false → y ∈ l2.
Proof.
  intros Hs Hy Hlt. induction l1 as [|z l1 IH]; cbn in *.
  - apply elem_of_cons in Hy as [->|]; [|done]. destruct (leb_total x x); congruence.
  - apply StronglySorted_cons in Hs as [Hz Hs]. apply elem_of_cons in Hy as [->|Hy]; [|auto].
    rewrite Forall_forall in Hz. specialize (Hz x ltac:(set_solver)). apply Is_true_true in Hz. congruence.
Qed.
End SortBy.

Section MapSum.
Context {K A : Type} `{Countable K} (f : A → N).

Lemma map_sum_empty : map_sum f (∅ : gmap K A) = 0%N.
Proof. apply map_fold_empty. Qed.

Lemma map_sum_insert_new (m : gmap K A) k v :
  m !! k = None → map_sum f (<[k:=v]> m) = (f v + map_sum f m)%N.
Proof. intros. unfold map_sum. rewrite map_fold_insert_L; [done| |done]. intros; lia. Qed.

Lemma map_sum_insert (m : gmap K A) k v w :
  m !! k = Some w → (map_sum f (<[k:=v]> m) + f w = f v + map_sum f m)%N.
Proof.
  intros Hk. rewrite <- (insert_delete_id m k w) at 2 by done.
  rewrite <- insert_delete_eq, !map_sum_insert_new by apply lookup_delete_eq. lia.
Qed.

Lemma map_sum_le_member (m : gmap K A) k v : m !! k = Some v → (f v ≤ map_sum f m)%N.
Proof.
  intros Hk. rewrite <- (insert_delete_id m k v), map_sum_insert_new by
    (done || apply lookup_delete_eq). lia.
Qed.
End MapSum.

Lemma is_ok_spec {A E} (c : Result A E) : is_ok c = true ↔ ∃ a, c = Ok a.
Proof. destruct c; naive_solver. Qed.

Lemma result_bind_ok {A B E} (c : Result A E) (k : A → Result B E) b :
  result_bind c k = Ok b ↔ ∃ a, c = Ok a ∧ k a = Ok b.
Proof. destruct c; naive_solver. Qed.

#[global] Hint Rewrite @contains_spec @contains_false @push_unique_elem @filter_elem
  @existsb_elem @forallb_elem : rust.
#[global] Hint Resolve push_unique_NoDup : rust.
