(* ===== verification/RustStr.v ===== *)
(** * Rust strings

    A [&str] or [String] is its UTF-8 byte sequence, a Rocq [string]. The
    file models the [str] methods the core crate calls: ASCII case folding,
    [trim] with Rust's Unicode whitespace (by its UTF-8 encodings, which a
    valid UTF-8 string only shows at character boundaries), [split_once],
    [strip_prefix], [join] and the byte-wise order. *)

From Stdlib Require Import OrderedTypeEx.
From S2P Require Import Prelude.

Notation "a +:+ b" := (String.append a b) (at level 60, right associativity) : rust_scope.

Definition is_empty_str (s : string) : bool :=
  match s with EmptyString => true | String _ _ => false end.

Definition str_len (s : string) : N := N.of_nat (String.length s).

(** ** Bytes *)

Definition code (c : ascii) : N := N_of_ascii c.

Definition in_range (lo hi : N) (c : ascii) : bool := ((lo <=? code c) && (code c <=? hi))%N.

Definition is_ascii_digit : ascii → bool := in_range 48 57.
Definition is_ascii_lowercase : ascii → bool := in_range 97 122.
Definition is_ascii_uppercase : ascii → bool := in_range 65 90.

(** [char::is_control] on the bytes of ASCII control characters; the C1
    controls are the two-byte sequences [C2 80] to [C2 9F]. *)
Definition is_control1 (c : ascii) : bool := in_range 0 31 c || (code c =? 127)%N.

Definition lower_byte (c : ascii) : ascii :=
  if is_ascii_uppercase c then ascii_of_N (code c + 32) else c.
Definition upper_byte (c : ascii) : ascii :=
  if is_ascii_lowercase c then ascii_of_N (code c - 32) else c.

Definition chars (s : string) : list ascii := list_ascii_of_string s.
Definition str (l : list ascii) : string := string_of_list_ascii l.

Fixpoint map_str (f : ascii → ascii) (s : string) : string :=
  match s with
  | EmptyString => EmptyString
  | String c s' => String (f c) (map_str f s')
  end.

Definition to_ascii_lowercase : string → string := map_str lower_byte.
Definition to_ascii_uppercase : string → string := map_str upper_byte.

Definition eq_ignore_ascii_case (a b : string) : bool :=
  to_ascii_lowercase a == to_ascii_lowercase b.

Definition all_bytes (p : ascii → bool) (s : string) : bool := forallb p (chars s).
Definition any_byte (p : ascii → bool) (s : string) : bool := existsb p (chars s).

(** [str::contains(char)] for an ASCII character. *)
Definition contains_char (c : ascii) : string → bool := any_byte (fun b => b == c).

(** ** Whitespace: the encodings of [char::is_whitespace] *)

Definition ws1 (c : ascii) : bool := in_range 9 13 c || (code c =? 32)%N.
Definition ws2 (c d : ascii) : bool :=
  ((code c =? 194) && ((code d =? 133) || (code d =? 160)))%N.
Definition ws3 (c d e : ascii) : bool :=
  (((code c =? 225) && (code d =? 154) && (code e =? 128))
   || ((code c =? 226) && (code d =? 128)
       && (((128 <=? code e) && (code e <=? 138)) || (code e =? 168) || (code e =? 169)
           || (code e =? 175)))
   || ((code c =? 226) && (code d =? 129) && (code e =? 159))
   || ((code c =? 227) && (code d =? 128) && (code e =? 128)))%N.

Fixpoint strip_ws (l : list ascii) : list ascii :=
  match l with
  | c :: t =>
      if ws1 c then strip_ws t else
      match t with
      | d :: t' =>
          if ws2 c d then strip_ws t' else
          match t' with
          | e :: t'' => if ws3 c d e then strip_ws t'' else l
          | [] => l
          end
      | [] => l
      end
  | [] => []
  end.

(** The same from the end: the list is reversed, and so is each encoding. *)
Fixpoint strip_ws_rev (l : list ascii) : list ascii :=
  match l with
  | c :: t =>
      if ws1 c then strip_ws_rev t else
      match t with
      | d :: t' =>
          if ws2 d c then strip_ws_rev t' else
          match t' with
          | e :: t'' => if ws3 e d c then strip_ws_rev t'' else l
          | [] => l
          end
      | [] => l
      end
  | [] => []
  end.

Definition trim (s : string) : string := str (rev (strip_ws_rev (rev (strip_ws (chars s))))).

Definition is_blank (s : string) : bool := is_empty_str (trim s).

(** [s.chars().any(char::is_whitespace)]: some suffix starts with an encoding. *)
Fixpoint any_whitespace (l : list ascii) : bool :=
  match l with
  | [] => false
  | c :: t =>
      ws1 c
      || (match t with
          | d :: t' => ws2 c d || (match t' with e :: _ => ws3 c d e | [] => false end)
          | [] => false
          end)
      || any_whitespace t
  end.

(** [str::parse] of an unsigned integer: digits, with at most one plus sign before them *)
Fixpoint parse_digits (l : list ascii) (acc : N) : option N :=
  match l with
  | [] => Some acc
  | c :: l' => if is_ascii_digit c then parse_digits l' (acc * 10 + (code c - 48))%N else None
  end.
Definition parse_uint (max : N) (s : string) : option N :=
  let l := match chars s with c :: l' => if c == "+"%char then l' else c :: l' | [] => [] end in
  match l with
  | [] => None
  | _ => match parse_digits l 0 with Some n => if (n <=? max)%N then Some n else None | None => None end
  end.

(** [s.chars().any(char::is_control)]: in valid UTF-8 the byte [C2] starts a
    character. *)
Fixpoint any_control (l : list ascii) : bool :=
  match l with
  | [] => false
  | c :: t => is_control1 c || (code c =? 194)%N && (match t with d :: _ => in_range 128 159 d | [] => false end) || any_control t
  end.

(** ** Splitting *)

Fixpoint strip_prefix (p s : string) : option string :=
  match p, s with
  | EmptyString, _ => Some s
  | String a p', String b s' => if a == b then strip_prefix p' s' else None
  | String _ _, EmptyString => None
  end.

Definition starts_with (p s : string) : bool := is_some (strip_prefix p s).

Definition rev_str (s : string) : string := str (rev (chars s)).

Definition strip_suffix (p s : string) : option string :=
  rev_str <$> strip_prefix (rev_str p) (rev_str s).

Definition ends_with (p s : string) : bool := is_some (strip_suffix p s).

(** [split_once(c)]: around the first occurrence. *)
Fixpoint split_once (c : ascii) (s : string) : option (string * string) :=
  match s with
  | EmptyString => None
  | String b s' =>
      if b == c then Some (EmptyString, s') else
      match split_once c s' with
      | Some (l, r) => Some (String b l, r)
      | None => None
      end
  end.

(** [rsplit_once(c)]: around the last occurrence. *)
Fixpoint rsplit_once (c : ascii) (s : string) : option (string * string) :=
  match s with
  | EmptyString => None
  | String b s' =>
      match rsplit_once c s' with
      | Some (l, r) => Some (String b l, r)
      | None => if b == c then Some (EmptyString, s') else None
      end
  end.

(** [split(p)] for a byte predicate: always at least one piece. *)
Fixpoint split_on (p : ascii → bool) (s : string) : list string :=
  match s with
  | EmptyString => [EmptyString]
  | String b s' =>
      if p b then EmptyString :: split_on p s' else
      match split_on p s' with
      | x :: xs => String b x :: xs
      | [] => [String b EmptyString]
      end
  end.

Fixpoint join (sep : string) (l : list string) : string :=
  match l with
  | [] => EmptyString
  | [x] => x
  | x :: l' => x +:+ sep +:+ join sep l'
  end.

(** [trim_end_matches(c)] for one ASCII character. *)
Definition trim_end_char (c : ascii) (s : string) : string :=
  str (rev ((fix go l := match l with
                         | b :: t => if b == c then go t else l
                         | [] => []
                         end) (rev (chars s)))).

(** [str::find] of a substring: what follows its first occurrence. *)
Fixpoint split_at_str (p s : string) : option (string * string) :=
  match strip_prefix p s with
  | Some r => Some (EmptyString, r)
  | None =>
      match s with
      | EmptyString => None
      | String b s' =>
          match split_at_str p s' with
          | Some (l, r) => Some (String b l, r)
          | None => None
          end
      end
  end.

(** [str::rfind] of a substring: what follows its last occurrence. *)
Fixpoint rsplit_at_str (p s : string) : option (string * string) :=
  let here := match strip_prefix p s with Some r => Some (EmptyString, r) | None => None end in
  match s with
  | EmptyString => here
  | String b s' =>
      match rsplit_at_str p s' with
      | Some (l, r) => Some (String b l, r)
      | None => here
      end
  end.

(** The newline byte, and [str::lines]: split at [\n], without a final empty
    line; a line that ended in [\n] also loses a [\r] before it. *)
Definition newline : ascii := ascii_of_N 10.
Definition drop_cr (l : string) : string :=
  unwrap_or (strip_suffix (String (ascii_of_N 13) EmptyString) l) l.
Definition lines (s : string) : list string :=
  match rev (split_on (fun b => b == newline) s) with
  | [] => []
  | last :: before =>
      (drop_cr <$> rev before) ++ (if is_empty_str last then [] else [last])
  end.

(** ** Order: [str]'s byte-wise comparison *)

Definition str_ltb (a b : string) : bool := String.ltb a b.
Definition str_leb (a b : string) : bool := negb (String.ltb b a).

(** ** Lemmas *)

Lemma ascii_all (P : ascii → Prop) : (∀ b0 b1 b2 b3 b4 b5 b6 b7,
  P (Ascii b0 b1 b2 b3 b4 b5 b6 b7)) → ∀ c, P c.
Proof. intros H []. apply H. Qed.

Lemma lower_byte_idem c : lower_byte (lower_byte c) = lower_byte c.
Proof. revert c. apply ascii_all. intros [] [] [] [] [] [] [] []; reflexivity. Qed.

Lemma to_ascii_lowercase_idem s : to_ascii_lowercase (to_ascii_lowercase s) = to_ascii_lowercase s.
Proof. unfold to_ascii_lowercase. induction s as [|c s IH]; cbn; by rewrite ?lower_byte_idem, ?IH. Qed.

Lemma eq_ignore_ascii_case_spec a b :
  eq_ignore_ascii_case a b = true ↔ to_ascii_lowercase a = to_ascii_lowercase b.
Proof. apply bool_decide_eq_true. Qed.

Lemma eq_ignore_ascii_case_refl a : eq_ignore_ascii_case a a = true.
Proof. by apply eq_ignore_ascii_case_spec. Qed.

Lemma eq_ignore_ascii_case_sym a b : eq_ignore_ascii_case a b = eq_ignore_ascii_case b a.
Proof. apply bool_decide_ext. by split; intros ->. Qed.

Lemma eq_ignore_lower_r a b :
  eq_ignore_ascii_case a (to_ascii_lowercase b) = eq_ignore_ascii_case a b.
Proof. unfold eq_ignore_ascii_case. by rewrite to_ascii_lowercase_idem. Qed.

Lemma str_app_cons c a b : String c a +:+ b = String c (a +:+ b).
Proof. reflexivity. Qed.

Lemma str_app_empty b : EmptyString +:+ b = b.
Proof. reflexivity. Qed.

Lemma str_app_nil_r s : s +:+ EmptyString = s.
Proof. induction s as [|c s IH]; [done|]. by rewrite str_app_cons, IH. Qed.

Lemma str_app_assoc a b c : (a +:+ b) +:+ c = a +:+ b +:+ c.
Proof. induction a as [|x a IH]; [done|]. by rewrite !str_app_cons, IH. Qed.

Lemma str_app_inj_l p a b : p +:+ a = p +:+ b → a = b.
Proof. induction p as [|c p IH]; [done|]. rewrite !str_app_cons. naive_solver. Qed.

Lemma strip_prefix_app p s : strip_prefix p (p +:+ s) = Some s.
Proof.
  induction p as [|c p IH]; [by destruct s|]. rewrite str_app_cons. cbn.
  by rewrite bool_decide_eq_true_2.
Qed.

Lemma strip_prefix_spec p s r : strip_prefix p s = Some r ↔ s = p +:+ r.
Proof.
  split; [|intros ->; apply strip_prefix_app].
  revert s. induction p as [|c p IH]; intros [|b s]; cbn; intros H; simplify_eq; try done.
  case_bool_decide; [subst|done]. rewrite str_app_cons. f_equal. by apply IH.
Qed.

Lemma starts_with_spec p s : starts_with p s = true ↔ ∃ r, s = p +:+ r.
Proof.
  unfold starts_with. split.
  - destruct (strip_prefix p s) as [r|] eqn:E; [|done]. apply strip_prefix_spec in E. eauto.
  - intros [r ->]. by rewrite strip_prefix_app.
Qed.

Lemma chars_str l : chars (str l) = l.
Proof. apply list_ascii_of_string_of_list_ascii. Qed.

Lemma str_chars s : str (chars s) = s.
Proof. apply string_of_list_ascii_of_string. Qed.

Lemma chars_app a b : chars (a +:+ b) = chars a ++ chars b.
Proof.
  induction a as [|c a IH]; [done|]. rewrite str_app_cons. unfold chars in *. cbn. by rewrite IH.
Qed.

Lemma chars_inj a b : chars a = chars b → a = b.
Proof. intros H. by rewrite <- (str_chars a), <- (str_chars b), H. Qed.

Lemma chars_length s : length (chars s) = String.length s.
Proof. unfold chars. induction s as [|c s IH]; cbn; [done|]. by rewrite IH. Qed.

(** ** The order of strings *)

Lemma str_ltb_lt a b : String.ltb a b = true ↔ String_as_OT.lt a b.
Proof. rewrite <-String_as_OT.cmp_lt. unfold String.ltb, String_as_OT.cmp. by destruct (String.compare a b). Qed.

Lemma str_leb_total a b : str_leb a b = true ∨ str_leb b a = true.
Proof.
  unfold str_leb, String.ltb. rewrite (String.compare_antisym b a).
  destruct (String.compare a b); cbn; auto.
Qed.

Lemma str_leb_antisym a b : str_leb a b = true → str_leb b a = true → a = b.
Proof.
  unfold str_leb, String.ltb. rewrite (String.compare_antisym b a).
  destruct (String.compare a b) eqn:E; cbn; [|done..]. intros _ _. by apply String.compare_eq_iff.
Qed.

Lemma str_leb_alt a b : str_leb a b = true ↔ a = b ∨ String_as_OT.lt a b.
Proof.
  rewrite <-str_ltb_lt. unfold str_leb, String.ltb. rewrite (String.compare_antisym b a).
  destruct (String.compare a b) eqn:E; cbn; [|naive_solver|].
  - split; [|done]. intros _. left. by apply String.compare_eq_iff.
  - split; [done|]. intros [->|?]; [|done].
    pose proof (String.compare_antisym b b) as Ha. rewrite E in Ha. discriminate.
Qed.

Lemma str_leb_trans a b c : str_leb a b = true → str_leb b c = true → str_leb a c = true.
Proof. rewrite !str_leb_alt. intros [->|Hab] [->|Hbc]; eauto using String_as_OT.lt_trans. Qed.

Lemma str_leb_empty a : str_leb EmptyString a = true.
Proof. by destruct a. Qed.

Lemma str_lt_irrefl a : ¬ String_as_OT.lt a a.
Proof. intros Hl. by apply String_as_OT.lt_not_eq in Hl. Qed.

Lemma str_leb_lt a b : str_leb a b = true → a ≠ b → String_as_OT.lt a b.
Proof. rewrite str_leb_alt. naive_solver. Qed.

Lemma str_leb_false a b : str_leb a b = false → String_as_OT.lt b a.
Proof. unfold str_leb. rewrite negb_false_iff. apply str_ltb_lt. Qed.
