(* ===== verification/Wire.v ===== *)
(** * Wire names ([crates/core/src/wire.rs])

    The macros [wire_names!] and [wire_parse!] give an enum its one spelling
    on the outside. The class below is what the macros generate: the list of
    variants in declaration order and the spelling of each. Its laws are the
    ones the macros' generated tests assert, so [from_wire] and
    [wire_values] are proved right once, for every enum that has an
    instance. *)

From S2P Require Import Prelude RustStr.

(** [c.is_ascii_lowercase() || c.is_ascii_digit() || c == '_'] *)
Definition snake_char (c : ascii) : bool :=
  is_ascii_lowercase c || is_ascii_digit c || (code c =? 95)%N.

Definition snake_case (w : string) : bool := negb (is_empty_str w) && all_bytes snake_char w.

Class WireNames (A : Type) `{EqDecision A} := {
  wire_all : list A;
  as_wire : A → string;
  wire_total : ∀ v, v ∈ wire_all;
  wire_unique : Inj (=) (=) as_wire;
  wire_snake : ∀ v, snake_case (as_wire v) = true;
}.

Section WireParse.
Context {A : Type} `{WireNames A}.

(** [Self::ALL.iter().copied().find(|v| v.as_wire() == s)] *)
Definition from_wire (s : string) : option A := List.find (fun v => as_wire v == s) wire_all.

(** The refusal text: every accepted value, joined with [", "]. *)
Definition wire_values : string := join ", " (as_wire <$> wire_all).

Lemma from_wire_as_wire v : from_wire (as_wire v) = Some v.
Proof.
  unfold from_wire. destruct (List.find _ _) as [w|] eqn:E.
  - apply find_elem in E as [_ E%bool_decide_eq_true]. apply wire_unique in E. congruence.
  - eapply find_none in E; [|apply (wire_total v)]. by rewrite bool_decide_eq_true_2 in E.
Qed.

Lemma from_wire_sound s v : from_wire s = Some v → as_wire v = s.
Proof. intros [_ E%bool_decide_eq_true]%find_elem. done. Qed.


(** The outside spelling of an enum is a bijection with its variants: parsing
    inverts printing, a parsed name prints back unchanged, and the accepted
    names are exactly those that the refusal text lists. *)
Theorem wire_names_roundtrip :
  (∀ v, from_wire (as_wire v) = Some v)
  ∧ (∀ s v, from_wire s = Some v ↔ as_wire v = s)
  ∧ (∀ s, is_Some (from_wire s) ↔ s ∈ as_wire <$> wire_all).
Proof.
  split_and!.
  - apply from_wire_as_wire.
  - intros s v. split; [apply from_wire_sound|]. intros <-. apply from_wire_as_wire.
  - intros s. rewrite list_elem_of_fmap. split.
    + intros [v Hv]. exists v. split; [by symmetry; apply from_wire_sound|apply wire_total].
    + intros (v & -> & _). rewrite from_wire_as_wire. eauto.
Qed.
End WireParse.

(** Discharge the laws of an enum's instance by listing its variants. *)
Ltac wire_instance :=
  first [ by intros []; rewrite ?list_elem_of_In; cbn; tauto
        | by intros [] []
        | by intros [] ].
