(* ===== verification/Model.v ===== *)
(** * The domain model ([crates/core/src/model.rs], [ids.rs], [log.rs])

    Identifiers, record states, regret levels, gates, transitions, projects,
    records and ledger entries, with the wire names of their enums. Every id
    is an IRI, kept as its normalised string. *)

From S2P Require Import Prelude RustStr Wire.

(** [Iri], and the id newtypes over it. *)
Abbreviation Iri := string (only parsing).
Abbreviation ProjectId := string (only parsing).
Abbreviation GateId := string (only parsing).
Abbreviation RecordId := string (only parsing).
Abbreviation FindingId := string (only parsing).
Abbreviation At := string (only parsing).

(** [ids.rs]: what kind of item an id names. *)
Inductive Kind :=
| KProject | KGate | KRecord | KFinding | KState | KAgent | KMessage | KWorkflow | KWorkflowRun.

#[global] Instance Kind_eq_dec : EqDecision Kind.
Proof. solve_decision. Defined.

Definition Kind_as_wire (k : Kind) : string :=
  match k with
  | KProject => "project" | KGate => "gate" | KRecord => "record" | KFinding => "finding"
  | KState => "state" | KAgent => "agent" | KMessage => "message" | KWorkflow => "workflow"
  | KWorkflowRun => "workflow_run"
  end.

#[global] Program Instance Kind_wire : WireNames Kind := {
  wire_all := [KProject; KGate; KRecord; KFinding; KState; KAgent; KMessage; KWorkflow; KWorkflowRun];
  as_wire := Kind_as_wire }.
Solve All Obligations with wire_instance.

(** [State]: where a record is. *)
Inductive State := Todo | Doing | Review | Done | NeedsHuman.

#[global] Instance State_eq_dec : EqDecision State.
Proof. solve_decision. Defined.

Definition State_as_wire (s : State) : string :=
  match s with
  | Todo => "todo" | Doing => "doing" | Review => "review" | Done => "done"
  | NeedsHuman => "needs_human"
  end.

#[global] Program Instance State_wire : WireNames State := {
  wire_all := [Todo; Doing; Review; Done; NeedsHuman]; as_wire := State_as_wire }.
Solve All Obligations with wire_instance.

(** [Regret]: how bad it is if a transition proceeds on a false pass. *)
Inductive Regret := Low | High.

#[global] Instance Regret_eq_dec : EqDecision Regret.
Proof. solve_decision. Defined.

Definition Regret_as_wire (r : Regret) : string :=
  match r with Low => "low" | High => "high" end.

#[global] Program Instance Regret_wire : WireNames Regret := {
  wire_all := [Low; High]; as_wire := Regret_as_wire }.
Solve All Obligations with wire_instance.

(** [Selector]: how a gate names what it must examine. *)
Inductive Selector :=
| SGlob (pattern : string)
| SChanged (base : string)
| SCommand (program : string) (args : list string).

#[global] Instance Selector_eq_dec : EqDecision Selector.
Proof. solve_decision. Defined.

(** [PopulationDelivery] *)
Inductive PopulationDelivery := DArgs | DStdin | DFileList.

#[global] Instance PopulationDelivery_eq_dec : EqDecision PopulationDelivery.
Proof. solve_decision. Defined.

(** [CommandSpec]; exit codes are [i32]. *)
Record CommandSpec := {
  cs_program : string;
  cs_args : list string;
  cs_delivery : PopulationDelivery;
  cs_timeout_secs : N;
  cs_pass_codes : list Z;
}.

#[global] Instance CommandSpec_eq_dec : EqDecision CommandSpec.
Proof. solve_decision. Defined.

(** [AgentSpec] *)
Record AgentSpec := {
  as_adapter : string;
  as_question : string;
  as_timeout_secs : N;
}.

#[global] Instance AgentSpec_eq_dec : EqDecision AgentSpec.
Proof. solve_decision. Defined.

(** [GateKind] *)
Inductive GateKind :=
| GCommand (spec : CommandSpec)
| GAgent (spec : AgentSpec).

#[global] Instance GateKind_eq_dec : EqDecision GateKind.
Proof. solve_decision. Defined.

(** [GateDef] *)
Record GateDef := {
  gd_id : GateId;
  gd_project : ProjectId;
  gd_name : string;
  gd_kind : GateKind;
  gd_selector : Selector;
  gd_min_population : N;
  gd_authored_at_commit : string;
  gd_authored_by : string;
  gd_last_pass_commit : option string;
}.

#[global] Instance GateDef_eq_dec : EqDecision GateDef.
Proof. solve_decision. Defined.

(** [Transition] *)
Record Transition := {
  tr_project : ProjectId;
  tr_name : string;
  tr_from : State;
  tr_to : State;
  tr_regret : Regret;
  tr_gates : list GateId;
}.

#[global] Instance Transition_eq_dec : EqDecision Transition.
Proof. solve_decision. Defined.

(** [Project] *)
Record Project := { pj_id : ProjectId; pj_root : string }.

(** [Record] (a unit of work). *)
Record WorkRecord := {
  rc_id : RecordId;
  rc_project : ProjectId;
  rc_title : string;
  rc_state : State;
  rc_also_known_as : list Iri;
  rc_area : option string;
}.

#[global] Instance WorkRecord_eq_dec : EqDecision WorkRecord.
Proof. solve_decision. Defined.

(** [AttemptStatus] ([log.rs]) *)
Inductive AttemptStatus := ACompleted | ATimeout | ACrashed | ARefused.

#[global] Instance AttemptStatus_eq_dec : EqDecision AttemptStatus.
Proof. solve_decision. Defined.

Definition AttemptStatus_as_wire (s : AttemptStatus) : string :=
  match s with
  | ACompleted => "completed" | ATimeout => "timeout" | ACrashed => "crashed"
  | ARefused => "refused"
  end.

#[global] Program Instance AttemptStatus_wire : WireNames AttemptStatus := {
  wire_all := [ACompleted; ATimeout; ACrashed; ARefused]; as_wire := AttemptStatus_as_wire }.
Solve All Obligations with wire_instance.
