(* ===== verification/At.v ===== *)
(** * When a ledger entry was made ([at.rs])

    RFC 3339 in UTC to the millisecond, in exactly one spelling. An [i64] is a
    [Z]: no operation of this file leaves its range. [/] on [i64] is [Z.quot],
    [div_euclid] and [rem_euclid] by a positive number are [Z.div] and
    [Z.modulo]. A timestamp is its text ([Model.At]). *)

From S2P Require Import Prelude RustStr Model.

Definition MAX_MILLIS : N := 253402300799999.

(** ** Dates *)

Definition days_from_civil (y m d : Z) : Z :=
  let y := if (m <=? 2)%Z then (y - 1)%Z else y in
  let era := (y / 400)%Z in
  let yoe := (y mod 400)%Z in
  let mp := if (2 <? m)%Z then (m - 3)%Z else (m + 9)%Z in
  let doy := (Z.quot (153 * mp + 2) 5 + d - 1)%Z in
  let doe := (yoe * 365 + Z.quot yoe 4 - Z.quot yoe 100 + doy)%Z in
  (era * 146097 + doe - 719468)%Z.

Definition civil_from_days (z : Z) : Z * Z * Z :=
  let z := (z + 719468)%Z in
  let era := (z / 146097)%Z in
  let doe := (z mod 146097)%Z in
  let yoe := Z.quot (doe - Z.quot doe 1460 + Z.quot doe 36524 - Z.quot doe 146096) 365 in
  let doy := (doe - (365 * yoe + Z.quot yoe 4 - Z.quot yoe 100))%Z in
  let mp := Z.quot (5 * doy + 2) 153 in
  let d := (doy - Z.quot (153 * mp + 2) 5 + 1)%Z in
  let m := if (mp <? 10)%Z then (mp + 3)%Z else (mp - 9)%Z in
  let y := (yoe + era * 400)%Z in
  let y := if (m <=? 2)%Z then (y + 1)%Z else y in
  (y, m, d).

(** ** Spelling *)

(** [{n:0width}] of a number that is not negative *)
Definition padded (width : nat) (n : N) : string :=
  let digits := pretty n in str (replicate (width - String.length digits) "0"%char) +:+ digits.

Definition from_unix_millis (ms : N) : At :=
  let ms := N.min ms MAX_MILLIS in
  let secs := (ms / 1000)%N in
  let '(y, m, d) := civil_from_days (Z.of_N (secs / 86400)) in
  let rem := (secs mod 86400)%N in
  padded 4 (Z.to_N y) +:+ "-" +:+ padded 2 (Z.to_N m) +:+ "-" +:+ padded 2 (Z.to_N d) +:+ "T"
  +:+ padded 2 (rem / 3600) +:+ ":" +:+ padded 2 (rem mod 3600 / 60) +:+ ":" +:+ padded 2 (rem mod 60)
  +:+ "." +:+ padded 3 (ms mod 1000) +:+ "Z".

(** [s[from..to].parse()] of digits *)
Definition digits_value (digits : list ascii) : Z :=
  foldl (fun n c => (n * 10 + (Z.of_N (code c) - 48))%Z) 0%Z digits.

Definition raw_millis (s : string) : Z :=
  let n (from to : nat) := digits_value (take (to - from) (drop from (chars s))) in
  let days := days_from_civil (n 0 4) (n 5 7) (n 8 10) in
  let '(hours, minutes, seconds, ms) := (n 11 13, n 14 16, n 17 19, n 20 23) in
  (days * 86400000 + hours * 3600000 + minutes * 60000 + seconds * 1000 + ms)%Z.

(** The byte at one place of the spelling *)
Definition fits_at (i : nat) (c : ascii) : bool :=
  match i with
  | 4 | 7 => c == "-"%char
  | 10 => c == "T"%char
  | 13 | 16 => c == ":"%char
  | 19 => c == "."%char
  | 23 => c == "Z"%char
  | _ => is_ascii_digit c
  end.

(** [AtError]: the text refused *)
Definition At_parse (s : string) : Result At string :=
  if negb (String.length s =? 24) then Err s
  else if negb (forallb (fun x => fits_at x.1 x.2) (imap pair (chars s))) then Err s
  else
    let ms := raw_millis s in
    let spelt := from_unix_millis (Z.to_N (ms mod 18446744073709551616)) in
    if negb (spelt == s) then Err s else Ok spelt.

(** [At::unix_millis]; [as u64] wraps. *)
Definition unix_millis (a : At) : N := Z.to_N (raw_millis a mod 18446744073709551616).

Example known_instants :
  from_unix_millis 0 = "1970-01-01T00:00:00.000Z" ∧ from_unix_millis 951782400001 = "2000-02-29T00:00:00.001Z"
  ∧ from_unix_millis MAX_MILLIS = "9999-12-31T23:59:59.999Z"
  ∧ unix_millis "2026-09-30T12:34:56.789Z" = 1790771696789%N
  ∧ At_parse "2025-02-29T00:00:00.000Z" = Err "2025-02-29T00:00:00.000Z".
Proof. by vm_compute. Qed.

(** A property of the numbers below a bound, by trying them all *)
Lemma all_below n (P : nat → bool) : forallb P (seq 0 n) = true → ∀ k, k < n → P k = true.
Proof. intros Hf k Hk. rewrite List.forallb_forall in Hf. apply Hf, in_seq. lia. Qed.

Lemma equal_below {A} `{EqDecision A} n (f g : nat → A) : forallb (fun k => f k == g k) (seq 0 n) = true →
  ∀ m, (m < N.of_nat n)%N → f (N.to_nat m) = g (N.to_nat m).
Proof. intros Hf m Hm. pose proof (all_below n _ Hf (N.to_nat m) ltac:(lia)) as He. by apply bool_decide_eq_true in He. Qed.

(** ** The calendar

    A day is a year that starts in March and a day of it. *)

(** Days before the March of a year of the era *)
Definition before (y : Z) : Z := (365 * y + y / 4 - y / 100)%Z.

(** The days of a year of the era, but the last, which has one more in a leap
    year: the whole era ends in one. *)
Definition year_days (y : Z) : Z := (before (y + 1) - before y + (if decide (y = 399) then 1 else 0))%Z.

(** [yoe] as a function of [doe] *)
Definition year_of (doe : Z) : Z := ((doe - doe / 1460 + doe / 36524 - doe / 146096) / 365)%Z.

Definition month_of (doy : Z) : Z * Z * Z :=
  let mp := ((5 * doy + 2) / 153)%Z in
  ((if mp <? 10 then 0 else 1)%Z, (if mp <? 10 then mp + 3 else mp - 9)%Z, (doy - (153 * mp + 2) / 5 + 1)%Z).

Lemma year_of_mono a b : (0 ≤ a ≤ b)%Z → (b ≤ 146096)%Z → (year_of a ≤ year_of b)%Z.
Proof. intros. apply Z.div_le_mono; [lia|]. Z.to_euclidean_division_equations. lia. Qed.

(** The first and the last day of each year of the era *)
Lemma year_ends y : (0 ≤ y < 400)%Z → year_of (before y) = y ∧ year_of (before y + year_days y - 1) = y
  ∧ (365 ≤ year_days y ≤ 366)%Z ∧ (0 ≤ before y)%Z ∧ (before y + year_days y ≤ 146097)%Z.
Proof.
  intros Hy. assert (∀ n, n < 400 → let y := Z.of_nat n in
    (year_of (before y) =? y)%Z && (year_of (before y + year_days y - 1) =? y)%Z && (365 <=? year_days y)%Z && (year_days y <=? 366)%Z
    && (0 <=? before y)%Z && (before y + year_days y <=? 146097)%Z = true) as Hall.
  { apply (all_below 400). vm_compute. reflexivity. }
  specialize (Hall (Z.to_nat y) ltac:(lia)). rewrite Z2Nat.id in Hall by lia. cbn zeta in Hall.
  rewrite !andb_true_iff, !Z.eqb_eq, !Z.leb_le in Hall. tauto.
Qed.

Lemma year_of_day y doy : (0 ≤ y < 400)%Z → (0 ≤ doy < year_days y)%Z → year_of (before y + doy) = y.
Proof.
  intros Hy Hd. destruct (year_ends y Hy) as (H1&H2&_&H4&H5).
  pose proof (year_of_mono (before y) (before y + doy)). pose proof (year_of_mono (before y + doy) (before y + year_days y - 1)).
  lia.
Qed.

(** Every day of the era is in a year. *)
Lemma era_day doe : (0 ≤ doe < 146097)%Z → ∃ y doy, (0 ≤ y < 400)%Z ∧ (0 ≤ doy < year_days y)%Z ∧ doe = (before y + doy)%Z.
Proof.
  intros Hd. assert (∀ n : nat, n <= 400 → (doe < before (Z.of_nat n) + (if decide (n = 400%nat) then 1 else 0))%Z →
    ∃ y doy, (0 ≤ y < 400)%Z ∧ (0 ≤ doy < year_days y)%Z ∧ doe = (before y + doy)%Z) as Hn.
  { induction n as [|n IH]; intros Hle Hlt; [rewrite decide_False in Hlt by lia; change (before _) with 0%Z in Hlt; lia|].
    destruct (Z.lt_ge_cases doe (before (Z.of_nat n))) as [Hb|Hb].
    - apply IH; [lia|]. rewrite decide_False by lia. lia.
    - exists (Z.of_nat n), (doe - before (Z.of_nat n))%Z. split; [lia|]. split; [|lia]. unfold year_days.
      replace (Z.of_nat n + 1)%Z with (Z.of_nat (S n)) by lia. repeat case_decide; lia. }
  apply (Hn 400); [done|]. rewrite decide_True by done. change (before _) with 146096%Z. lia.
Qed.

Lemma leap_days y : (0 ≤ y < 400)%Z → (before (y + 1) = before y + year_days y - (if decide (y = 399) then 1 else 0))%Z.
Proof. unfold year_days. lia. Qed.

(** The months: a day of the year that starts in March *)
Lemma month_days doy : (0 ≤ doy ≤ 365)%Z → let '(c, m, d) := month_of doy in
  (1 ≤ m ≤ 12)%Z ∧ (1 ≤ d ≤ 31)%Z ∧ (c = if m <=? 2 then 1 else 0)%Z
  ∧ ((153 * (if 2 <? m then m - 3 else m + 9) + 2) / 5 + d - 1 = doy)%Z.
Proof.
  intros Hd. assert (∀ n, n < 366 → (let '(c, m, d) := month_of (Z.of_nat n) in
    (1 <=? m) && (m <=? 12) && (1 <=? d) && (d <=? 31) && (c =? if m <=? 2 then 1 else 0)
    && ((153 * (if 2 <? m then m - 3 else m + 9) + 2) / 5 + d - 1 =? Z.of_nat n))%Z = true) as Hall.
  { apply (all_below 366). vm_compute. reflexivity. }
  specialize (Hall (Z.to_nat doy) ltac:(lia)). rewrite Z2Nat.id in Hall by lia. destruct (month_of doy) as [[c m] d].
  rewrite !andb_true_iff, !Z.eqb_eq, !Z.leb_le in Hall. tauto.
Qed.

(** The order of two dates *)
Definition date_lt (a b : Z * Z * Z) : Prop :=
  (a.1.1 < b.1.1 ∨ a.1.1 = b.1.1 ∧ (a.1.2 < b.1.2 ∨ a.1.2 = b.1.2 ∧ a.2 < b.2))%Z.

Lemma month_next doy : (0 ≤ doy < 365)%Z → date_lt (month_of doy) (month_of (doy + 1)).
Proof.
  intros Hd. assert (∀ n, n < 365 → (let '(c, m, d) := month_of (Z.of_nat n) in let '(c', m', d') := month_of (Z.of_nat (S n)) in
    (c <? c') || (c =? c') && ((m <? m') || (m =? m') && (d <? d')))%Z = true) as Hall.
  { apply (all_below 365). vm_compute. reflexivity. }
  specialize (Hall (Z.to_nat doy) ltac:(lia)). replace (Z.of_nat (S (Z.to_nat doy))) with (doy + 1)%Z in Hall by lia.
  rewrite Z2Nat.id in Hall by lia. unfold date_lt. destruct (month_of doy) as [[c m] d], (month_of (doy + 1)) as [[c' m'] d'].
  cbn [fst snd]. rewrite orb_true_iff, andb_true_iff, orb_true_iff, andb_true_iff, !Z.ltb_lt, !Z.eqb_eq in Hall. tauto.
Qed.

(** A date of the era *)
Definition date_of (era y doy : Z) : Z * Z * Z := let '(c, m, d) := month_of doy in (y + era * 400 + c, m, d)%Z.

Lemma year_quot doe : (0 ≤ doe < 146097)%Z →
  Z.quot (doe - Z.quot doe 1460 + Z.quot doe 36524 - Z.quot doe 146096) 365 = year_of doe.
Proof.
  intros Hd. rewrite !(Z.quot_div_nonneg doe) by lia. apply Z.quot_div_nonneg; [|lia]. Z.to_euclidean_division_equations. lia.
Qed.

Lemma civil_date era y doy : (0 ≤ y < 400)%Z → (0 ≤ doy < year_days y)%Z →
  civil_from_days (era * 146097 + before y + doy - 719468) = date_of era y doy.
Proof.
  intros Hy Hd. destruct (year_ends y Hy) as (_&_&Hyd&Hb0&Hb). unfold civil_from_days.
  replace (era * 146097 + before y + doy - 719468 + 719468)%Z with ((before y + doy) + era * 146097)%Z by lia.
  rewrite Z.div_add, Z.mod_add, (Z.div_small (before y + doy)), (Z.mod_small (before y + doy)) by lia.
  rewrite year_quot, (year_of_day y doy Hy Hd) by lia. rewrite !(Z.quot_div_nonneg y) by lia.
  replace (before y + doy - (365 * y + y / 4 - y / 100))%Z with doy by (unfold before; lia).
  rewrite (Z.quot_div_nonneg (5 * doy + 2)) by lia. unfold date_of, month_of. cbn zeta.
  assert (0 ≤ (5 * doy + 2) / 153 < 12)%Z as Hmp by (split; [apply Z.div_pos; lia|apply Z.div_lt_upper_bound; lia]).
  generalize dependent ((5 * doy + 2) / 153)%Z. intros mp Hmp. rewrite Z.quot_div_nonneg by lia.
  destruct (Z.ltb_spec mp 10).
  - rewrite (proj2 (Z.leb_gt _ _)) by lia. do 2 f_equal. lia.
  - rewrite (proj2 (Z.leb_le _ _)) by lia. f_equal; f_equal; lia.
Qed.

(** Every day has a date, and the date tells the day. *)
Lemma day_date z : ∃ era y doy, (0 ≤ y < 400)%Z ∧ (0 ≤ doy < year_days y)%Z
  ∧ (z = era * 146097 + before y + doy - 719468)%Z ∧ civil_from_days z = date_of era y doy.
Proof.
  destruct (era_day ((z + 719468) mod 146097)) as (y&doy&Hy&Hd&He); [apply Z.mod_pos_bound; lia|].
  assert (z = (z + 719468) / 146097 * 146097 + before y + doy - 719468)%Z as Hz.
  { pose proof (Z.div_mod (z + 719468) 146097). lia. }
  exists ((z + 719468) / 146097)%Z, y, doy. do 3 (split; [done|]). rewrite <-civil_date by done. by f_equal.
Qed.

Lemma civil_roundtrip z : let '(y, m, d) := civil_from_days z in
  days_from_civil y m d = z ∧ (1 ≤ m ≤ 12)%Z ∧ (1 ≤ d ≤ 31)%Z.
Proof.
  destruct (day_date z) as (era&y&doy&Hy&Hd&Hz&->). destruct (year_ends y Hy) as (_&_&Hyd&Hb0&Hb). unfold date_of.
  pose proof (month_days doy ltac:(lia)) as Hm. destruct (month_of doy) as [[c m] d]. destruct Hm as (Hm&Hd'&Hc&He).
  split_and!; try lia. unfold days_from_civil.
  replace (if (m <=? 2)%Z then (y + era * 400 + c - 1)%Z else (y + era * 400 + c)%Z) with (y + era * 400)%Z
    by (destruct (m <=? 2)%Z; lia).
  rewrite Z.div_add, Z.mod_add, Z.div_small, Z.mod_small by lia.
  rewrite (Z.quot_div_nonneg (153 * _ + 2)) by (destruct (2 <? m)%Z eqn:E; lia). rewrite He.
  rewrite !(Z.quot_div_nonneg y) by lia. unfold before in Hz. lia.
Qed.

(** The next day has the next date. *)
Lemma civil_next z : date_lt (civil_from_days z) (civil_from_days (z + 1)).
Proof.
  destruct (day_date z) as (era&y&doy&Hy&Hd&Hz&->). destruct (year_ends y Hy) as (_&_&Hyd&_&_).
  destruct (Z.lt_ge_cases (doy + 1) (year_days y)) as [Hin|Hend].
  - replace (z + 1)%Z with (era * 146097 + before y + (doy + 1) - 719468)%Z by lia. rewrite civil_date by lia.
    pose proof (month_next doy ltac:(lia)) as Hm. unfold date_of, date_lt in *.
    destruct (month_of doy) as [[c m] d], (month_of (doy + 1)) as [[c' m'] d']. cbn [fst snd] in *. lia.
  - assert (∃ era' y', (0 ≤ y' < 400)%Z ∧ (y' + era' * 400 = y + era * 400 + 1)%Z
      ∧ (z + 1 = era' * 146097 + before y' + 0 - 719468)%Z) as (era'&y'&Hy'&He'&Hz').
    { pose proof (leap_days y Hy) as Hl. case_decide as Hlast.
      - subst y. exists (era + 1)%Z, 0%Z. change (before 0) with 0%Z. change (before (399 + 1)) with 146096%Z in Hl. lia.
      - exists era, (y + 1)%Z. lia. }
    destruct (year_ends y' Hy') as (_&_&Hyd'&_&_). rewrite Hz', civil_date by lia. unfold date_of, date_lt.
    change (month_of 0) with (0, 3, 1)%Z. assert (doy = 364 ∨ doy = 365)%Z as [-> | ->] by lia.
    + change (month_of 364) with (1, 2, 28)%Z. cbn [fst snd]. lia.
    + change (month_of 365) with (1, 2, 29)%Z. cbn [fst snd]. lia.
Qed.

Lemma date_lt_trans a b c : date_lt a b → date_lt b c → date_lt a c.
Proof. unfold date_lt. lia. Qed.

Lemma civil_mono z z' : (z < z')%Z → date_lt (civil_from_days z) (civil_from_days z').
Proof.
  intros Hlt. replace z' with (z + 1 + Z.of_nat (Z.to_nat (z' - z - 1)))%Z by lia. generalize (Z.to_nat (z' - z - 1)). intros n.
  induction n as [|n IH]; [rewrite Z.add_0_r; apply civil_next|]. eapply date_lt_trans; [exact IH|].
  replace (z + 1 + Z.of_nat (S n))%Z with (z + 1 + Z.of_nat n + 1)%Z by lia. apply civil_next.
Qed.

(** ** Digits *)

Definition digit (n : N) : ascii := ascii_of_N (48 + n mod 10).

(** The last [w] decimal digits *)
Fixpoint dec (w : nat) (n : N) : list ascii :=
  match w with O => [] | S w => dec w (n / 10) ++ [digit n] end.

Lemma dec_length w n : length (dec w n) = w.
Proof. revert n. induction w as [|w IH]; intros n; cbn; [done|]. rewrite length_app, IH. cbn. lia. Qed.

Lemma digit_cases (P : ascii → Prop) n : (∀ k, k < 10 → P (ascii_of_N (48 + N.of_nat k))) → P (digit n).
Proof.
  intros HP. unfold digit. pose proof (N.mod_lt n 10 ltac:(done)) as Hn. rewrite <-(N2Nat.id (n mod 10)). apply HP. lia.
Qed.

Lemma digit_is n : is_ascii_digit (digit n) = true.
Proof. apply digit_cases. apply (all_below 10). by vm_compute. Qed.

Lemma digit_code n : code (digit n) = (48 + n mod 10)%N.
Proof.
  pose proof (N.mod_lt n 10 ltac:(done)) as Hn. unfold digit, code. apply N_ascii_embedding. lia.
Qed.

(** The numbers of a field are below this. *)
Definition bound (w : nat) : N := 10 ^ N.of_nat w.

Lemma bound_S w : bound (S w) = (10 * bound w)%N.
Proof. unfold bound. rewrite Nat2N.inj_succ, N.pow_succ_r'. done. Qed.

Lemma div10_bound w n : (n < bound (S w))%N → (n / 10 < bound w)%N.
Proof. rewrite bound_S. intros Hn. by apply N.Div0.div_lt_upper_bound. Qed.

Lemma digits_value_app l c : digits_value (l ++ [c]) = (digits_value l * 10 + (Z.of_N (code c) - 48))%Z.
Proof. unfold digits_value. by rewrite foldl_app. Qed.

Lemma digits_value_dec w : ∀ n, (n < bound w)%N → digits_value (dec w n) = Z.of_N n.
Proof.
  induction w as [|w IH]; intros n Hn.
  { change (bound 0) with 1%N in Hn. assert (n = 0)%N as -> by lia. done. }
  cbn [dec]. rewrite digits_value_app, IH by by apply div10_bound. rewrite digit_code.
  pose proof (N.div_mod n 10 ltac:(done)). lia.
Qed.

(** [padded] writes the digits: of two or three places, and of a year. *)
Lemma padded_few w n : w = 2 ∨ w = 3 → (n < bound w)%N → padded w n = str (dec w n).
Proof.
  intros Hw Hn. rewrite <-(N2Nat.id n). destruct Hw as [-> | ->].
  - apply (equal_below 100 (fun k => padded 2 (N.of_nat k)) (fun k => str (dec 2 (N.of_nat k)))); [by vm_compute|exact Hn].
  - apply (equal_below 1000 (fun k => padded 3 (N.of_nat k)) (fun k => str (dec 3 (N.of_nat k)))); [by vm_compute|exact Hn].
Qed.

Lemma pretty_digit n s : (0 < n)%N → pretty_N_go n s = pretty_N_go (n / 10) (String (digit n) s).
Proof.
  intros Hn. rewrite pretty_N_go_step by done. f_equal. f_equal. unfold digit.
  pose proof (N.mod_lt n 10 ltac:(done)) as Hm. rewrite <-(N2Nat.id (n mod 10)).
  apply (equal_below 10 (fun k => pretty_N_char (N.of_nat k)) (fun k => ascii_of_N (48 + N.of_nat k))); [by vm_compute|exact Hm].
Qed.

Lemma padded_year n : (1000 ≤ n < 10000)%N → padded 4 n = str (dec 4 n).
Proof.
  intros Hn. assert (pretty n = str (dec 4 n)) as Hp.
  { unfold pretty, pretty_N. rewrite decide_False by lia.
    assert (0 < n / 10 ∧ 0 < n / 10 / 10 ∧ 0 < n / 10 / 10 / 10 ∧ n / 10 / 10 / 10 / 10 = 0)%N as (H1&H2&H3&H4).
    { rewrite !N.Div0.div_div. split_and!; [apply N.div_str_pos; lia..|apply N.div_small; lia]. }
    rewrite !pretty_digit by first [done|lia]. by rewrite H4, pretty_N_go_0. }
  unfold padded. by rewrite Hp.
Qed.

(** ** The order of texts *)

Lemma compare_app a b c d : String.length a = String.length c →
  String.compare (a +:+ b) (c +:+ d) = match String.compare a c with Eq => String.compare b d | o => o end.
Proof.
  revert c. induction a as [|x a IH]; intros [|y c]; try done. cbn [String.length]. intros [= Hl].
  rewrite !str_app_cons. cbn [String.compare]. destruct (Ascii.compare x y); [by apply IH|done..].
Qed.

Lemma str_app a b : str (a ++ b) = str a +:+ str b.
Proof. apply chars_inj. by rewrite chars_app, !chars_str. Qed.

Lemma str_length l : String.length (str l) = length l.
Proof. by rewrite <-chars_length, chars_str. Qed.

Lemma compare_digit a b : String.compare (str [digit a]) (str [digit b]) = (a mod 10 ?= b mod 10)%N.
Proof.
  cbn. unfold digit. pose proof (N.mod_lt a 10 ltac:(done)) as Ha. pose proof (N.mod_lt b 10 ltac:(done)) as Hb.
  unfold Ascii.compare. rewrite !N_ascii_embedding by lia.
  replace (48 + a mod 10 ?= 48 + b mod 10)%N with (a mod 10 ?= b mod 10)%N; [by destruct (_ ?= _)%N|].
  destruct (N.compare_spec (a mod 10) (b mod 10)); symmetry; [apply N.compare_eq_iff|apply N.compare_lt_iff|apply N.compare_gt_iff]; lia.
Qed.

(** A comparison of numbers, place by place *)
Lemma compare_split k n m : (0 < k)%N →
  (n ?= m)%N = match (n / k ?= m / k)%N with Eq => (n mod k ?= m mod k)%N | o => o end.
Proof.
  intros Hk. pose proof (N.div_mod n k ltac:(lia)) as Hn. pose proof (N.div_mod m k ltac:(lia)) as Hm.
  pose proof (N.mod_lt n k ltac:(lia)). pose proof (N.mod_lt m k ltac:(lia)).
  generalize dependent (n / k)%N. generalize dependent (m / k)%N. generalize dependent (n mod k)%N. generalize dependent (m mod k)%N.
  intros r' Hr' r Hr q' Hm q Hn. subst n m.
  assert (∀ q q', q < q' → k * q + k ≤ k * q')%N as Hq.
  { clear. intros q q' Hl. transitivity (k * (q + 1))%N; [lia|]. apply N.mul_le_mono_l. lia. }
  destruct (N.compare_spec q q') as [E|E|E]; [subst q'; destruct (N.compare_spec r r') as [F|F|F]|..];
    [apply N.compare_eq_iff|apply N.compare_lt_iff|apply N.compare_gt_iff|apply N.compare_lt_iff|apply N.compare_gt_iff];
    try apply Hq in E; lia.
Qed.

Lemma compare_dec w : ∀ n m, (n < bound w)%N → (m < bound w)%N → String.compare (str (dec w n)) (str (dec w m)) = (n ?= m)%N.
Proof.
  induction w as [|w IH]; intros n m Hn Hm.
  { change (bound 0) with 1%N in *. assert (n = 0)%N as -> by lia. assert (m = 0)%N as -> by lia. done. }
  cbn [dec]. rewrite !str_app, compare_app by by rewrite !str_length, !dec_length.
  rewrite IH by by apply div10_bound. by rewrite compare_digit, (compare_split 10 n m) by done.
Qed.

(** ** The spelling of an instant *)

Definition spelled (y m d h mi s ms : N) : string :=
  str (dec 4 y) +:+ "-" +:+ str (dec 2 m) +:+ "-" +:+ str (dec 2 d) +:+ "T" +:+ str (dec 2 h) +:+ ":" +:+ str (dec 2 mi)
  +:+ ":" +:+ str (dec 2 s) +:+ "." +:+ str (dec 3 ms) +:+ "Z".

Lemma last_date : civil_from_days 2932896 = (9999, 12, 31)%Z.
Proof. by vm_compute. Qed.

Lemma days_bound ms : (ms ≤ MAX_MILLIS)%N → (ms / 1000 / 86400 ≤ 2932896)%N.
Proof.
  intros Hms. rewrite N.Div0.div_div. transitivity (MAX_MILLIS / (1000 * 86400))%N; [by apply N.Div0.div_le_mono|by vm_compute].
Qed.

Lemma day_fields ms : (ms ≤ MAX_MILLIS)%N → let '(y, m, d) := civil_from_days (Z.of_N (ms / 1000 / 86400)) in
  (1970 ≤ y ≤ 9999)%Z ∧ (1 ≤ m ≤ 12)%Z ∧ (1 ≤ d ≤ 31)%Z.
Proof.
  intros Hms. pose proof (days_bound ms Hms) as Hb. revert Hb. generalize (ms / 1000 / 86400)%N. clear. intros k Hk.
  assert (0 ≤ Z.of_N k ≤ 2932896)%Z as Hn by lia. revert Hn. generalize (Z.of_N k). clear. intros n Hn.
  pose proof (civil_roundtrip n) as Hr. assert (n = 0 ∨ 0 < n)%Z as Hlo by lia. assert (n = 2932896 ∨ n < 2932896)%Z as Hhi by lia.
  assert (∀ z, (0 < z)%Z → date_lt (civil_from_days 0) (civil_from_days z)) as H1 by (intros; by apply civil_mono).
  assert (∀ z, (z < 2932896)%Z → date_lt (civil_from_days z) (civil_from_days 2932896)) as H2 by (intros; by apply civil_mono).
  specialize (H1 n). specialize (H2 n). rewrite last_date in H2. change (civil_from_days 0) with (1970, 1, 1)%Z in H1.
  destruct Hlo as [->|Hlo]; [change (civil_from_days 0) with (1970, 1, 1)%Z; cbv beta iota; lia|].
  destruct Hhi as [->|Hhi]; [rewrite last_date; cbv beta iota; lia|]. specialize (H1 Hlo). specialize (H2 Hhi). unfold date_lt in *.
  destruct (civil_from_days n) as [[y m] d]. cbn [fst snd] in *. lia.
Qed.

(** The fields of an instant *)
Definition hour_of (ms : N) : N := ms / 1000 mod 86400 / 3600.
Definition minute_of (ms : N) : N := ms / 1000 mod 86400 mod 3600 / 60.
Definition second_of (ms : N) : N := ms / 1000 mod 86400 mod 60.

Lemma time_fields ms : (hour_of ms < 24 ∧ minute_of ms < 60 ∧ second_of ms < 60 ∧ ms mod 1000 < 1000)%N.
Proof.
  unfold hour_of, minute_of, second_of. pose proof (N.mod_lt (ms / 1000) 86400 ltac:(done)) as Hd.
  pose proof (N.mod_lt (ms / 1000 mod 86400) 3600 ltac:(done)) as Hh.
  split_and!; [by apply N.Div0.div_lt_upper_bound|by apply N.Div0.div_lt_upper_bound|by apply N.mod_lt..].
Qed.

(** The instant spelled *)
Definition date_fields (ms : N) : Z * Z * Z := civil_from_days (Z.of_N (ms / 1000 / 86400)).

Definition spelling (ms : N) : string :=
  let '(y, m, d) := date_fields ms in
  spelled (Z.to_N y) (Z.to_N m) (Z.to_N d) (hour_of ms) (minute_of ms) (second_of ms) (ms mod 1000).

Lemma from_spelling ms : (ms ≤ MAX_MILLIS)%N → from_unix_millis ms = spelling ms.
Proof.
  intros Hms. unfold from_unix_millis, spelling. rewrite N.min_l by done. pose proof (day_fields ms Hms) as Hd.
  destruct (time_fields ms) as (Hh&Hmi&Hs&Hml). unfold date_fields. destruct (civil_from_days _) as [[y m] d]. unfold spelled.
  fold (hour_of ms) (minute_of ms) (second_of ms).
  rewrite padded_year by lia. rewrite (padded_few 3) by (try change (bound 3) with 1000%N; auto; lia).
  rewrite !(padded_few 2) by (try change (bound 2) with 100%N; auto; lia). done.
Qed.

Lemma spelled_raw y m d h mi s ms : (y < 10000)%N → (m < 100)%N → (d < 100)%N → (h < 100)%N → (mi < 100)%N → (s < 100)%N →
  (ms < 1000)%N → raw_millis (spelled y m d h mi s ms)
  = (days_from_civil (Z.of_N y) (Z.of_N m) (Z.of_N d) * 86400000 + Z.of_N h * 3600000 + Z.of_N mi * 60000 + Z.of_N s * 1000 + Z.of_N ms)%Z.
Proof.
  intros. unfold raw_millis.
  change (take (4 - 0) (drop 0 (chars (spelled y m d h mi s ms)))) with (dec 4 y).
  change (take (7 - 5) (drop 5 (chars (spelled y m d h mi s ms)))) with (dec 2 m).
  change (take (10 - 8) (drop 8 (chars (spelled y m d h mi s ms)))) with (dec 2 d).
  change (take (13 - 11) (drop 11 (chars (spelled y m d h mi s ms)))) with (dec 2 h).
  change (take (16 - 14) (drop 14 (chars (spelled y m d h mi s ms)))) with (dec 2 mi).
  change (take (19 - 17) (drop 17 (chars (spelled y m d h mi s ms)))) with (dec 2 s).
  change (take (23 - 20) (drop 20 (chars (spelled y m d h mi s ms)))) with (dec 3 ms).
  rewrite !digits_value_dec by done. done.
Qed.

Lemma spelled_fits y m d h mi s ms : String.length (spelled y m d h mi s ms) = 24
  ∧ forallb (fun x => fits_at x.1 x.2) (imap pair (chars (spelled y m d h mi s ms))) = true.
Proof.
  split; [reflexivity|].
  change (chars (spelled y m d h mi s ms)) with (dec 4 y ++ ["-"%char] ++ dec 2 m ++ ["-"%char] ++ dec 2 d ++ ["T"%char] ++ dec 2 h
    ++ [":"%char] ++ dec 2 mi ++ [":"%char] ++ dec 2 s ++ ["."%char] ++ dec 3 ms ++ ["Z"%char]).
  cbn -[digit is_ascii_digit bool_decide]. by rewrite !digit_is, !bool_decide_eq_true_2.
Qed.

Lemma raw_spelling ms : (ms ≤ MAX_MILLIS)%N → raw_millis (spelling ms) = Z.of_N ms.
Proof.
  intros Hms. unfold spelling. pose proof (day_fields ms Hms) as Hd. pose proof (civil_roundtrip (Z.of_N (ms / 1000 / 86400))) as Hr.
  destruct (time_fields ms) as (Hh&Hmi&Hs&Hml). unfold date_fields. destruct (civil_from_days _) as [[y m] d].
  destruct Hr as [Hr _]. rewrite spelled_raw by lia. rewrite !Z2N.id by lia. rewrite Hr. clear.
  unfold hour_of, minute_of, second_of. pose proof (N.div_mod ms 1000 ltac:(done)) as H1.
  pose proof (N.div_mod (ms / 1000) 86400 ltac:(done)) as H2. set (r := (ms / 1000 mod 86400)%N) in *.
  pose proof (N.div_mod r 3600 ltac:(done)) as H3. pose proof (N.div_mod (r mod 3600) 60 ltac:(done)) as H4.
  assert (r mod 60 = (r mod 3600) mod 60)%N as ->.
  { rewrite H3 at 1. replace (3600 * (r / 3600) + r mod 3600)%N with (r mod 3600 + (60 * (r / 3600)) * 60)%N by lia.
    by rewrite N.Div0.mod_add. }
  clearbody r. generalize dependent (ms / 1000 / 86400)%N. generalize dependent (ms / 1000)%N. generalize dependent (ms mod 1000)%N.
  generalize dependent (r mod 3600 mod 60)%N. generalize dependent (r mod 3600 / 60)%N. generalize dependent (r mod 3600)%N.
  generalize dependent (r / 3600)%N. intros. lia.
Qed.

Lemma compare_field (p : string) (a b : string) : String.compare (p +:+ a) (p +:+ b) = String.compare a b.
Proof. induction p as [|c p IH]; [done|]. rewrite !str_app_cons. cbn [String.compare]. unfold Ascii.compare. by rewrite N.compare_refl. Qed.

Definition chain (a b : comparison) : comparison := match a with Eq => b | o => o end.

Lemma compare_fields w n m a b : (n < bound w)%N → (m < bound w)%N →
  String.compare (str (dec w n) +:+ a) (str (dec w m) +:+ b) = chain (n ?= m)%N (String.compare a b).
Proof. intros Hn Hm. rewrite compare_app by by rewrite !str_length, !dec_length. rewrite compare_dec by assumption. by destruct (n ?= m)%N. Qed.

Lemma compare_spelled y m d h mi s ms y' m' d' h' mi' s' ms' :
  (y < bound 4)%N → (m < bound 2)%N → (d < bound 2)%N → (h < bound 2)%N → (mi < bound 2)%N → (s < bound 2)%N → (ms < bound 3)%N →
  (y' < bound 4)%N → (m' < bound 2)%N → (d' < bound 2)%N → (h' < bound 2)%N → (mi' < bound 2)%N → (s' < bound 2)%N → (ms' < bound 3)%N →
  String.compare (spelled y m d h mi s ms) (spelled y' m' d' h' mi' s' ms')
  = chain (chain (y ?= y') (chain (m ?= m') (d ?= d')))%N
      (chain (h ?= h') (chain (mi ?= mi') (chain (s ?= s') (ms ?= ms'))))%N.
Proof.
  intros. unfold spelled. do 6 (rewrite compare_fields by assumption; rewrite compare_field).
  rewrite compare_fields by assumption. change (String.compare "Z" "Z") with Eq.
  by destruct (y ?= y')%N, (m ?= m')%N, (d ?= d')%N, (h ?= h')%N, (mi ?= mi')%N, (s ?= s')%N, (ms ?= ms')%N.
Qed.

Lemma chain_lex a b c d n m : chain a b = chain c d → n = m → chain (chain a b) n = chain (chain c d) m.
Proof. by intros -> ->. Qed.

(** The order of the fields is the order of days and of times of the day. *)
Lemma date_compare a b : let '(y, m, d) := civil_from_days (Z.of_N a) in let '(y', m', d') := civil_from_days (Z.of_N b) in
  (0 ≤ y)%Z → (0 ≤ y')%Z →
  chain (Z.to_N y ?= Z.to_N y')%N (chain (Z.to_N m ?= Z.to_N m') (Z.to_N d ?= Z.to_N d'))%N = (a ?= b)%N.
Proof.
  pose proof (civil_mono (Z.of_N a) (Z.of_N b)) as H1. pose proof (civil_mono (Z.of_N b) (Z.of_N a)) as H2.
  pose proof (civil_roundtrip (Z.of_N a)) as R1. pose proof (civil_roundtrip (Z.of_N b)) as R2. unfold date_lt in *.
  destruct (N.compare_spec a b) as [->|Hl|Hl].
  - destruct (civil_from_days (Z.of_N b)) as [[y m] d]. intros _ _. by rewrite !N.compare_refl.
  - specialize (H1 ltac:(lia)). clear H2. destruct (civil_from_days (Z.of_N a)) as [[y m] d], (civil_from_days (Z.of_N b)) as [[y' m'] d'].
    cbn [fst snd] in *. intros Hy Hy'.
    destruct (N.compare_spec (Z.to_N y) (Z.to_N y')); cbn [chain]; [|done|lia].
    destruct (N.compare_spec (Z.to_N m) (Z.to_N m')); cbn [chain]; [|done|lia].
    apply N.compare_lt_iff. lia.
  - specialize (H2 ltac:(lia)). clear H1. destruct (civil_from_days (Z.of_N a)) as [[y m] d], (civil_from_days (Z.of_N b)) as [[y' m'] d'].
    cbn [fst snd] in *. intros Hy Hy'.
    destruct (N.compare_spec (Z.to_N y) (Z.to_N y')); cbn [chain]; [|lia|done].
    destruct (N.compare_spec (Z.to_N m) (Z.to_N m')); cbn [chain]; [|lia|done].
    apply N.compare_gt_iff. lia.
Qed.

Lemma clock_compare n m : (n ?= m)%N = chain (n / 86400 ?= m / 86400)%N
  (chain (n mod 86400 / 3600 ?= m mod 86400 / 3600)
    (chain (n mod 86400 mod 3600 / 60 ?= m mod 86400 mod 3600 / 60) (n mod 86400 mod 60 ?= m mod 86400 mod 60)))%N.
Proof.
  assert (∀ r, r mod 60 = (r mod 3600) mod 60)%N as Hr.
  { intros r. rewrite (N.div_mod r 3600) at 1 by done.
    replace (3600 * (r / 3600) + r mod 3600)%N with (r mod 3600 + (60 * (r / 3600)) * 60)%N by lia. by rewrite N.Div0.mod_add. }
  rewrite (compare_split 86400 n m), (compare_split 3600 (n mod 86400) (m mod 86400)),
    (compare_split 60 (n mod 86400 mod 3600)), <-!Hr by done.
  by destruct (n / 86400 ?= m / 86400)%N, (_ / 3600 ?= _)%N, (_ / 60 ?= _)%N.
Qed.

Lemma spelling_order a b : (a ≤ MAX_MILLIS)%N → (b ≤ MAX_MILLIS)%N → String.compare (spelling a) (spelling b) = (a ?= b)%N.
Proof.
  intros Ha Hb. unfold spelling, date_fields. pose proof (day_fields a Ha) as Da. pose proof (day_fields b Hb) as Db.
  destruct (time_fields a) as (?&?&?&?), (time_fields b) as (?&?&?&?).
  pose proof (date_compare (a / 1000 / 86400) (b / 1000 / 86400)) as Hd.
  destruct (civil_from_days (Z.of_N (a / 1000 / 86400))) as [[y m] d], (civil_from_days (Z.of_N (b / 1000 / 86400))) as [[y' m'] d'].
  rewrite compare_spelled by (try change (bound 4) with 10000%N; try change (bound 3) with 1000%N; try change (bound 2) with 100%N; lia).
  rewrite Hd by lia. rewrite (compare_split 1000 a b), (clock_compare (a / 1000)) by done. unfold hour_of, minute_of, second_of.
  by destruct (_ / 86400 ?= _)%N, (_ / 3600 ?= _)%N, (_ / 60 ?= _)%N, (_ mod 60 ?= _)%N.
Qed.

(** ** Theorems *)

(** Timestamps are ordered as texts as the instants they spell, up to the
    last one four digits can; beyond it they are held at that one. *)
Theorem at_order_is_time_order a b :
  String.compare (from_unix_millis a) (from_unix_millis b) = (N.min a MAX_MILLIS ?= N.min b MAX_MILLIS)%N.
Proof.
  assert (∀ ms, from_unix_millis ms = spelling (N.min ms MAX_MILLIS)) as Hs.
  { intros ms. rewrite <-from_spelling by lia. unfold from_unix_millis. by rewrite <-N.min_assoc, N.min_id. }
  rewrite !Hs. apply spelling_order; lia.
Qed.

(** (C34) [parse] accepts exactly what [from_unix_millis] writes, and gives it
    back; [unix_millis] tells the instant, held at the last one. *)
Theorem at_parse_exact s :
  (∀ ms, At_parse (from_unix_millis ms) = Ok (from_unix_millis ms) ∧ unix_millis (from_unix_millis ms) = N.min ms MAX_MILLIS)
  ∧ (At_parse s = Ok s ∨ At_parse s = Err s)
  ∧ (At_parse s = Ok s ↔ ∃ ms, s = from_unix_millis ms).
Proof.
  assert (∀ ms, from_unix_millis ms = spelling (N.min ms MAX_MILLIS)) as Hs.
  { intros ms. rewrite <-from_spelling by lia. unfold from_unix_millis. by rewrite <-N.min_assoc, N.min_id. }
  assert (∀ ms, At_parse (from_unix_millis ms) = Ok (from_unix_millis ms)
    ∧ unix_millis (from_unix_millis ms) = N.min ms MAX_MILLIS) as Hback.
  { intros ms. rewrite Hs. set (n := N.min ms MAX_MILLIS). assert (n ≤ MAX_MILLIS)%N as Hn by lia. clearbody n.
    assert (Z.to_N (Z.of_N n mod 18446744073709551616) = n) as Hw.
    { rewrite Z.mod_small; [lia|]. unfold MAX_MILLIS in Hn. lia. }
    unfold At_parse, unix_millis. rewrite (raw_spelling n Hn), Hw. split; [|done].
    assert (String.length (spelling n) = 24 ∧ forallb (fun x => fits_at x.1 x.2) (imap pair (chars (spelling n))) = true) as [-> ->]
      by (unfold spelling; destruct (date_fields n) as [[y m] d]; apply spelled_fits).
    cbn [negb Nat.eqb]. rewrite (from_spelling n Hn). by rewrite bool_decide_eq_true_2. }
  split; [exact Hback|]. split.
  - unfold At_parse. destruct (negb (_ =? 24)); [by right|]. destruct (negb (forallb _ _)); [by right|].
    case_bool_decide as E; [left|by right]. cbn [negb]. by rewrite E.
  - split; [|intros (ms&->); apply Hback]. unfold At_parse.
    destruct (negb (_ =? 24)); [done|]. destruct (negb (forallb _ _)); [done|]. case_bool_decide as E; [|done].
    intros _. by eexists.
Qed.
