(* ===== verification/Iri.v ===== *)
(** * Identifiers ([iri.rs])

    Every identifier is an absolute IRI, normalized on the way in, so that
    later comparisons are of exact texts ([Model.Iri]). [expect] is a [Panic]
    outcome, shown unreachable. *)

From S2P Require Import Prelude RustStr Model.

Inductive IriError := IriEmpty | IriWhitespace (s : string) | NotAbsolute (s : string).

(** A refusal, or an [expect] that failed *)
Inductive IriFault := Refused (e : IriError) | IriPanic.

Definition is_ascii_alphabetic (c : ascii) : bool := is_ascii_lowercase c || is_ascii_uppercase c.
Definition is_ascii_alphanumeric (c : ascii) : bool := is_ascii_alphabetic c || is_ascii_digit c.

Definition scheme_char (c : ascii) : bool :=
  is_ascii_alphanumeric c || (c == "+"%char) || (c == "-"%char) || (c == "."%char).

Definition scheme_ok (scheme : string) : bool :=
  match scheme with
  | EmptyString => false
  | String c rest => is_ascii_alphabetic c && all_bytes scheme_char rest
  end.

(** [after.find(['/', '?', '#'])], and [split_at] there *)
Definition ends_authority (c : ascii) : bool := (c == "/"%char) || (c == "?"%char) || (c == "#"%char).

Fixpoint split_authority (s : string) : string * string :=
  match s with
  | EmptyString => (EmptyString, EmptyString)
  | String c s' =>
      if ends_authority c then (EmptyString, s)
      else let '(authority, tail) := split_authority s' in (String c authority, tail)
  end.

Definition normalize (scheme rest : string) : Result string IriFault :=
  let scheme := to_ascii_lowercase scheme in
  if scheme == "urn" then
    match split_once ":" rest with
    | None => Err IriPanic
    | Some (nid, nss) =>
        let nid := to_ascii_lowercase nid in
        let nss := if nid == "uuid" then to_ascii_lowercase nss else nss in
        Ok ("urn:" +:+ nid +:+ ":" +:+ nss)
    end
  else if (scheme == "http") || (scheme == "https") then
    match strip_prefix "//" rest with
    | Some after =>
        let '(authority, tail) := split_authority after in
        Ok (scheme +:+ "://" +:+ to_ascii_lowercase authority +:+ tail)
    | None => Ok (scheme +:+ ":" +:+ rest)
    end
  else Ok (scheme +:+ ":" +:+ rest).

Definition urn_parts (rest : string) : bool :=
  match split_once ":" rest with
  | Some (nid, nss) => negb (is_empty_str nid) && negb (is_empty_str nss)
  | None => false
  end.

(** [Iri::parse] *)
Definition Iri_parse (input : string) : Result Iri IriFault :=
  if is_empty_str input then Err (Refused IriEmpty)
  else if any_whitespace (chars input) then Err (Refused (IriWhitespace input))
  else
    match split_once ":" input with
    | None => Err (Refused (NotAbsolute input))
    | Some (scheme, rest) =>
        if negb (scheme_ok scheme) || is_empty_str rest then Err (Refused (NotAbsolute input))
        else if eq_ignore_ascii_case scheme "urn" && negb (urn_parts rest) then Err (Refused (NotAbsolute input))
        else normalize scheme rest
    end.

(** [Iri::scheme] *)
Definition iri_scheme (i : Iri) : string := match split_once ":" i with Some (s, _) => s | None => EmptyString end.

Example normal_forms :
  Iri_parse "URN:UUID:00AB" = Ok "urn:uuid:00ab" ∧ Iri_parse "urn:Ex:Ab" = Ok "urn:ex:Ab"
  ∧ Iri_parse "HTTPS://GitHub.COM/Org/Repo" = Ok "https://github.com/Org/Repo"
  ∧ Iri_parse "fl:Thing" = Ok "fl:Thing" ∧ Iri_parse "urn:x:" = Err (Refused (NotAbsolute "urn:x:")).
Proof. by vm_compute. Qed.

(** ** Splitting *)

Lemma split_once_spec c s l r : split_once c s = Some (l, r) ↔ s = l +:+ String c r ∧ contains_char c l = false.
Proof.
  revert l r. induction s as [|b s IH]; intros l r; cbn; [split; [done|intros [He _]; by destruct l]|].
  case_bool_decide as E.
  - subst b. split; [intros [= <- <-]; by split|]. intros [He Hc]. destruct l as [|b l]; rewrite ?str_app_cons in He.
    + by injection He as ->.
    + injection He as <- ->. unfold contains_char, any_byte in Hc. cbn in Hc. by rewrite bool_decide_eq_true_2 in Hc.
  - destruct (split_once c s) as [[l' r']|] eqn:Es.
    + destruct (proj1 (IH l' r') eq_refl) as [-> Hc]. split.
      * intros [= <- <-]. split; [done|]. unfold contains_char, any_byte in *. cbn. by rewrite bool_decide_eq_false_2.
      * intros [He Hl]. destruct l as [|b' l]; rewrite ?str_app_cons in He; [by injection He as ->|]. injection He as <- He.
        unfold contains_char, any_byte in Hl. cbn in Hl. apply orb_false_iff in Hl as [_ Hl].
        assert (Some (l', r') = Some (l, r)) as [= <- <-]; [|done]. apply IH. by split.
    + split; [done|]. intros [He Hl]. destruct l as [|b' l]; rewrite ?str_app_cons in He; [by injection He as ->|]. injection He as <- He.
      unfold contains_char, any_byte in Hl. cbn in Hl. apply orb_false_iff in Hl as [_ Hl].
      assert (None = Some (l, r)) as Hn by (apply IH; by split). discriminate.
Qed.

(** ** Lowering some bytes *)

Definition lowered : list ascii → list ascii → Prop := Forall2 (fun c d => d = c ∨ d = lower_byte c).

Lemma lowered_refl l : lowered l l.
Proof. unfold lowered. induction l; constructor; auto. Qed.

Lemma lowered_all s : lowered (chars s) (chars (to_ascii_lowercase s)).
Proof. unfold to_ascii_lowercase. induction s as [|c s IH]; cbn; constructor; auto. Qed.

Lemma lowered_app a b c d : lowered a b → lowered c d → lowered (a ++ c) (b ++ d).
Proof. apply Forall2_app. Qed.

Lemma lower_ws c : ws1 (lower_byte c) = ws1 c ∧ (∀ k, (k < 65 ∨ 122 < k)%N → (code (lower_byte c) =? k)%N = (code c =? k)%N)
  ∧ (∀ k, (122 < k)%N → (code (lower_byte c) <=? k)%N = (code c <=? k)%N ∧ (k <=? code (lower_byte c))%N = (k <=? code c)%N).
Proof.
  unfold ws1, lower_byte, is_ascii_uppercase, in_range. destruct ((65 <=? code c) && (code c <=? 90))%N eqn:E; [|done].
  apply andb_true_iff in E as [H1%N.leb_le H2%N.leb_le].
  assert (code (ascii_of_N (code c + 32)) = code c + 32)%N as -> by (apply N_ascii_embedding; lia).
  assert (∀ a b : N, (a =? b)%N = bool_decide (a = b)) as He.
  { intros. case_bool_decide; [by apply N.eqb_eq|by apply N.eqb_neq]. }
  split_and!; [|intros k Hk..].
  - rewrite !He. repeat case_bool_decide; destruct (N.leb_spec 9 (code c + 32)), (N.leb_spec (code c + 32) 13), (N.leb_spec 9 (code c)), (N.leb_spec (code c) 13); cbn; lia.
  - rewrite !He. repeat case_bool_decide; lia.
  - destruct (N.leb_spec (code c + 32) k), (N.leb_spec (code c) k), (N.leb_spec k (code c + 32)), (N.leb_spec k (code c)); split; done || lia.
Qed.

Lemma ws_lowered c d : d = c ∨ d = lower_byte c → ws1 d = ws1 c
  ∧ (∀ k, (122 < k)%N → (code d =? k)%N = (code c =? k)%N)
  ∧ (∀ k, (122 < k)%N → (code d <=? k)%N = (code c <=? k)%N) ∧ (∀ k, (122 < k)%N → (k <=? code d)%N = (k <=? code c)%N).
Proof.
  intros [->| ->]; [done|]. destruct (lower_ws c) as (H1&H2&H3). split; [done|].
  split_and!; intros k Hk; [apply H2; lia|by apply H3..].
Qed.

Lemma lowered_whitespace l k : lowered l k → any_whitespace k = any_whitespace l.
Proof.
  intros Hl. induction Hl as [|c d l k Hc Hl IH]; [done|]. cbn [any_whitespace]. rewrite IH.
  destruct (ws_lowered c d Hc) as (->&He&_). f_equal. f_equal.
  destruct Hl as [|c2 d2 l k Hc2 Hl]; [done|]. destruct (ws_lowered c2 d2 Hc2) as (_&He2&_). unfold ws2.
  f_equal; [by rewrite !He, !He2 by done|].
  destruct Hl as [|c3 d3 l k Hc3 Hl]; [done|]. destruct (ws_lowered c3 d3 Hc3) as (_&He3&Hle3&Hge3). unfold ws3.
  by rewrite !He, !He2, !He3, Hle3, Hge3 by done.
Qed.

(** Bytes other than capitals stay, and the others become small. *)
Lemma lower_scheme c : is_ascii_alphabetic (lower_byte c) = is_ascii_alphabetic c ∧ scheme_char (lower_byte c) = scheme_char c
  ∧ ends_authority (lower_byte c) = ends_authority c ∧ (lower_byte c == ":"%char) = (c == ":"%char).
Proof. revert c. apply ascii_all. intros [] [] [] [] [] [] [] []; split_and!; by vm_compute. Qed.

Lemma scheme_char_colon c : scheme_char c = true → (c == ":"%char) = false.
Proof. intros Hc. apply bool_decide_eq_false. by intros ->. Qed.

Lemma alphabetic_colon c : is_ascii_alphabetic c = true → (c == ":"%char) = false.
Proof. intros Hc. apply bool_decide_eq_false. by intros ->. Qed.

Lemma all_lower (p : ascii → bool) s : (∀ c, p (lower_byte c) = p c) → all_bytes p (to_ascii_lowercase s) = all_bytes p s.
Proof.
  intros Hp. unfold all_bytes, to_ascii_lowercase, chars. induction s as [|c s IH]; [done|]. cbn. by rewrite Hp, IH.
Qed.

Lemma colon_lower s : contains_char ":" (to_ascii_lowercase s) = contains_char ":" s.
Proof.
  unfold contains_char, any_byte, to_ascii_lowercase, chars. induction s as [|c s IH]; [done|]. cbn.
  rewrite IH. f_equal. apply lower_scheme.
Qed.

Lemma scheme_lower s : scheme_ok (to_ascii_lowercase s) = scheme_ok s.
Proof.
  destruct s as [|c s]; [done|]. unfold to_ascii_lowercase. cbn [map_str scheme_ok]. fold (to_ascii_lowercase s).
  rewrite (proj1 (lower_scheme c)), all_lower by apply lower_scheme. done.
Qed.

Lemma scheme_colon s : scheme_ok s = true → contains_char ":" s = false.
Proof.
  destruct s as [|c s]; [done|]. cbn [scheme_ok]. intros [Hc Hs]%andb_true_iff. unfold contains_char, any_byte, all_bytes, chars in *.
  cbn [list_ascii_of_string existsb]. rewrite (alphabetic_colon _ Hc). cbn [orb].
  induction (list_ascii_of_string s) as [|d l IH]; [done|]. cbn in *.
  apply andb_true_iff in Hs as [Hd Hs]. by rewrite (scheme_char_colon _ Hd), IH.
Qed.

Lemma empty_lower s : is_empty_str (to_ascii_lowercase s) = is_empty_str s.
Proof. by destruct s. Qed.

Lemma authority_spec s : let '(a, t) := split_authority s in s = a +:+ t
  ∧ split_authority (to_ascii_lowercase a +:+ t) = (to_ascii_lowercase a, t).
Proof.
  induction s as [|c s IH]; cbn [split_authority]; [done|]. destruct (ends_authority c) eqn:E.
  - split; [done|]. change (to_ascii_lowercase "") with EmptyString. rewrite str_app_empty. cbn [split_authority]. by rewrite E.
  - destruct (split_authority s) as [a t]. destruct IH as [-> IH]. split; [done|].
    unfold to_ascii_lowercase in *. cbn [map_str]. rewrite str_app_cons. cbn [split_authority].
    rewrite (proj1 (proj2 (proj2 (lower_scheme c)))), E, IH. done.
Qed.

(** ** What a parse answers *)

Lemma chars_cons c s : chars (String c s) = c :: chars s.
Proof. reflexivity. Qed.

Lemma not_empty_app a c b : is_empty_str (a +:+ String c b) = false.
Proof. by destruct a. Qed.

(** What normalizing leaves of a text that parses. *)
Definition normal_of (scheme rest i : string) : Prop := ∃ rest',
  i = to_ascii_lowercase scheme +:+ String ":" rest' ∧ lowered (chars rest) (chars rest')
  ∧ is_empty_str rest' = is_empty_str rest ∧ (eq_ignore_ascii_case scheme "urn" && negb (urn_parts rest')) = false
  ∧ normalize (to_ascii_lowercase scheme) rest' = Ok i.

Lemma urn_scheme scheme : eq_ignore_ascii_case scheme "urn" = (to_ascii_lowercase scheme == "urn").
Proof. reflexivity. Qed.

Lemma normalize_plain scheme rest i : (to_ascii_lowercase scheme == "urn") = false →
  i = to_ascii_lowercase scheme +:+ ":" +:+ rest → normalize (to_ascii_lowercase scheme) rest = Ok i → normal_of scheme rest i.
Proof.
  intros Hu Hi Hn. exists rest. split; [exact Hi|]. split; [apply lowered_refl|]. split; [done|].
  rewrite urn_scheme, Hu. by split.
Qed.

Lemma normalize_urn scheme rest i : to_ascii_lowercase scheme = "urn" → urn_parts rest = true →
  normalize scheme rest = Ok i → normal_of scheme rest i.
Proof.
  intros Hu Hp. unfold normalize, urn_parts in *. rewrite Hu. rewrite bool_decide_eq_true_2 by done.
  destruct (split_once ":" rest) as [[nid nss]|] eqn:Es; [|done]. apply split_once_spec in Es as [-> Hc].
  apply andb_true_iff in Hp as [Hn%negb_true_iff Hs%negb_true_iff]. intros [= <-].
  set (nss' := if _ == "uuid" then _ else _). exists (to_ascii_lowercase nid +:+ String ":" nss').
  assert (split_once ":" (to_ascii_lowercase nid +:+ String ":" nss') = Some (to_ascii_lowercase nid, nss')) as Hsplit.
  { apply split_once_spec. split; [done|]. by rewrite colon_lower. }
  assert (is_empty_str nss' = is_empty_str nss) as He by (unfold nss'; case_bool_decide; [apply empty_lower|done]).
  rewrite Hu. split; [done|]. split_and!.
  - rewrite !chars_app, !chars_cons. apply lowered_app; [apply lowered_all|]. constructor; [by left|].
    unfold nss'. case_bool_decide; [apply lowered_all|apply lowered_refl].
  - by rewrite !not_empty_app.
  - unfold urn_parts. rewrite Hsplit, empty_lower, Hn, He, Hs. by rewrite andb_false_r.
  - unfold normalize. change (to_ascii_lowercase "urn") with "urn"%string. rewrite bool_decide_eq_true_2 by done. rewrite Hsplit.
    rewrite !to_ascii_lowercase_idem. do 2 f_equal. unfold nss'. case_bool_decide; by rewrite ?to_ascii_lowercase_idem.
Qed.

Lemma normalize_normal scheme rest : (eq_ignore_ascii_case scheme "urn" && negb (urn_parts rest)) = false →
  ∃ i, normalize scheme rest = Ok i ∧ normal_of scheme rest i.
Proof.
  rewrite urn_scheme. intros Hp. destruct (bool_decide (to_ascii_lowercase scheme = "urn")) eqn:Eu.
  - cbn in Hp. apply negb_false_iff in Hp. apply bool_decide_eq_true in Eu as Hu.
    destruct (normalize scheme rest) as [i|e] eqn:En.
    + exists i. split; [done|]. by apply normalize_urn.
    + exfalso. unfold normalize, urn_parts in *. rewrite Eu in En. by destruct (split_once ":" rest) as [[]|].
  - assert (∀ r, normalize (to_ascii_lowercase scheme) r = normalize scheme r) as Hidem.
    { intros r. unfold normalize. by rewrite to_ascii_lowercase_idem. }
    destruct (normalize scheme rest) as [i|e] eqn:En; unfold normalize in En; rewrite Eu in En.
    + exists i. split; [done|]. destruct ((to_ascii_lowercase scheme == "http") || (to_ascii_lowercase scheme == "https")) eqn:Eh.
      * destruct (strip_prefix "//" rest) as [after|] eqn:Ep.
        -- apply strip_prefix_spec in Ep as ->. pose proof (authority_spec after) as Ha.
           destruct (split_authority after) as [a t]. destruct Ha as [-> Ha]. injection En as <-.
           exists ("//" +:+ to_ascii_lowercase a +:+ t). split; [done|]. split_and!.
           ++ rewrite !chars_app. do 2 (apply lowered_app; [first [apply lowered_all|apply lowered_refl]|]). apply lowered_refl.
           ++ done.
           ++ by rewrite urn_scheme, Eu.
           ++ rewrite Hidem. unfold normalize. by rewrite Eu, Eh, strip_prefix_app, Ha, to_ascii_lowercase_idem.
        -- injection En as <-. apply normalize_plain; [done..|]. rewrite Hidem. unfold normalize. by rewrite Eu, Eh, Ep.
      * injection En as <-. apply normalize_plain; [done..|]. rewrite Hidem. unfold normalize. by rewrite Eu, Eh.
    + exfalso. destruct (_ || _); [|done]. destruct (strip_prefix _ _); [|done]. by destruct (split_authority _).
Qed.

(** (C35) A parse never panics, and what it accepts it answers in a normal form
    that parses to itself: two spellings of an identifier that normalize alike
    are one identifier wherever either is stored and read again. *)
Theorem iri_parse_normal s :
  match Iri_parse s with
  | Ok i => Iri_parse i = Ok i ∧ to_ascii_lowercase (iri_scheme i) = iri_scheme i
  | Err (Refused _) => True
  | Err IriPanic => False
  end.
Proof.
  unfold Iri_parse at 1. destruct (is_empty_str s) eqn:E0; [done|]. destruct (any_whitespace (chars s)) eqn:Ew; [done|].
  destruct (split_once ":" s) as [[scheme rest]|] eqn:Es; [|done].
  destruct (negb (scheme_ok scheme) || is_empty_str rest) eqn:E1; [done|]. destruct (_ && negb (urn_parts rest)) eqn:E2; [done|].
  destruct (normalize_normal scheme rest E2) as (i&->&rest'&->&Hl&He&Hu&Hn).
  apply orb_false_iff in E1 as [Hok Hr]. apply negb_false_iff in Hok. apply split_once_spec in Es as [-> Hc].
  assert (split_once ":" (to_ascii_lowercase scheme +:+ String ":" rest') = Some (to_ascii_lowercase scheme, rest')) as Hsplit.
  { apply split_once_spec. split; [done|]. by rewrite colon_lower. }
  split; [|unfold iri_scheme; by rewrite Hsplit, to_ascii_lowercase_idem].
  unfold Iri_parse. rewrite not_empty_app, Hsplit, scheme_lower, Hok, He, Hr. cbn [negb orb].
  rewrite (lowered_whitespace (chars (scheme +:+ String ":" rest))), Ew.
  - unfold eq_ignore_ascii_case in *. by rewrite to_ascii_lowercase_idem, Hu.
  - rewrite !chars_app, !chars_cons. apply lowered_app; [apply lowered_all|]. constructor; [by left|done].
Qed.
