(* ===== verification/SliceProof.v ===== *)
(** * Bounds of a whole slice ([slice_proof.rs])

    Before an unattended slice is dispatched, a reviewed record must bound its
    tokens and its cost. Money is an exact decimal, counted in picodollars as a
    [u128]; every sum and product is checked. [semver] is another crate:
    its two parsers and its match are parameters, and a parsed requirement shows the
    comparators the code looks at. *)

From S2P Require Import Prelude RustStr At Iri.

(** ** Money *)

Definition Usd := string.

Definition PICOS_PER_USD : N := 1000000000000.

Definition all_digits : string → bool := all_bytes is_ascii_digit.

Definition picos (u : Usd) : option N :=
  let '(whole, fraction) := unwrap_or (split_once "."%char u) (u, EmptyString) in
  if is_empty_str whole || (18 <? str_len whole)%N || (12 <? str_len fraction)%N || negb (all_digits whole) || negb (all_digits fraction)
     || (contains_char "."%char u && is_empty_str fraction)
  then None
  else
    w ← parse_uint u128_max whole;
    f ← (if is_empty_str fraction then Some 0%N else parse_uint u128_max fraction);
    whole_picos ← checked_mul u128_max w PICOS_PER_USD;
    (* [checked_pow] of ten to at most twelve *)
    part_picos ← checked_mul u128_max f (10 ^ (12 - str_len fraction));
    checked_add u128_max whole_picos part_picos.

Definition Usd_parse (s : string) : option Usd := _ ← picos s; Some s.

Definition from_micros (v : N) : Usd := pretty (v / 1000000)%N +:+ "." +:+ padded 6 (v mod 1000000)%N.

(** ** Reviewed records *)

Inductive AccountingUnit :=
| ActualUsd (billing_contract : string)
| SubscriptionIncrementalUsd (billing_contract : string) (zero_cost_proven : bool)
| VirtualApiEquivalent (billing_contract : string).

Record EpsilonStepBound := {
  es_input_knob : string; es_max_input_tokens : N; es_output_knob : string; es_max_output_tokens : N;
  es_price_per_input_token : Usd; es_price_per_output_token : Usd }.

Inductive SliceBoundKind :=
| VendorCap (knob : string) (cap_usd : Usd) (epsilon_tokens : N) (epsilon_usd : Usd) (token_bound_knob : string)
    (max_total_tokens : option N) (epsilon_step : option EpsilonStepBound)
| Arithmetic (steps_knob : string) (max_steps : N) (input_knob : string) (max_input_tokens_per_step : N) (max_out_knob : string)
    (max_output_tokens_per_step : N) (price_per_input_token price_per_output_token : Usd)
| PerRequest (max_requests max_tokens_per_request : N) (max_usd_per_request : Usd).

Record SliceBoundProof := {
  sp_proof_record_id : string; sp_adapter : string; sp_mode : string; sp_cli_version_range : string; sp_binary_hash : string;
  sp_model : string; sp_auth_billing_mode : string; sp_config_digest : string; sp_kind : SliceBoundKind;
  sp_accounting_unit : AccountingUnit; sp_transcript_ref : string }.

Record SliceProofInput := {
  si_adapter : string; si_mode : string; si_installed_cli_version : string; si_binary_hash : string; si_model : string;
  si_auth_billing_mode : string; si_config_digest : string }.

Record AdmittedSliceBound := { as_max_tokens : N; as_max_cost_usd : Usd; as_max_cost_micros : N; as_proof_record_id : string }.

Inductive SliceAdmissionRefusal := ManualOnly | Unproven.

Definition valid_text (s : string) : bool := negb (is_blank s) && (str_len s <=? 1024)%N && negb (any_control (chars s)).

Definition valid_sha256 (s : string) : bool :=
  is_some_and (strip_prefix "sha256:" s) (fun hex => (str_len hex =? 64)%N && all_bytes (fun b => is_ascii_digit b || in_range 97 102 b) hex).

(** ** The bound of a record *)

(** Whether the unit allows a cost of zero; [None]: it is not admissible. *)
Definition zero_allowed (p : SliceBoundProof) : option bool :=
  match sp_accounting_unit p with
  | ActualUsd contract => if valid_text contract then Some false else None
  | SubscriptionIncrementalUsd contract true =>
      if valid_text contract && (sp_auth_billing_mode p == "subscription") then Some true else None
  | _ => None
  end.

(** [n] tokens in and [m] out, at their prices *)
Definition step_cost (n : N) (price_in : Usd) (m : N) (price_out : Usd) : option N :=
  pi ← picos price_in;
  input ← checked_mul u128_max n pi;
  po ← picos price_out;
  output ← checked_mul u128_max m po;
  checked_add u128_max input output.

Definition kind_bound (zero : bool) (k : SliceBoundKind) : option (N * N) :=
  match k with
  | VendorCap knob cap_usd epsilon_tokens epsilon_usd token_bound_knob max_total_tokens epsilon_step =>
      t ← max_total_tokens;
      step ← epsilon_step;
      if negb (valid_text knob) || negb (valid_text token_bound_knob) || negb (valid_text (es_input_knob step))
         || negb (valid_text (es_output_knob step)) || (t =? 0)%N || (epsilon_tokens =? 0)%N
         || (es_max_input_tokens step =? 0)%N || (es_max_output_tokens step =? 0)%N
      then None
      else
        epsilon ← picos epsilon_usd;
        step_tokens ← checked_add64 (es_max_input_tokens step) (es_max_output_tokens step);
        step_picos ← step_cost (es_max_input_tokens step) (es_price_per_input_token step)
                       (es_max_output_tokens step) (es_price_per_output_token step);
        if (epsilon_tokens <? step_tokens)%N || (epsilon <? step_picos)%N || ((epsilon =? 0)%N && negb zero) then None
        else
          tokens ← checked_add64 t epsilon_tokens;
          cap ← picos cap_usd;
          total ← checked_add u128_max cap epsilon;
          Some (tokens, total)
  | Arithmetic steps_knob max_steps input_knob max_in max_out_knob max_out price_in price_out =>
      if negb (valid_text steps_knob) || negb (valid_text input_knob) || negb (valid_text max_out_knob)
         || (max_steps =? 0)%N || (max_in =? 0)%N || (max_out =? 0)%N
      then None
      else
        per_step ← checked_add64 max_in max_out;
        tokens ← checked_mul64 per_step max_steps;
        step ← step_cost max_in price_in max_out price_out;
        total ← checked_mul u128_max step max_steps;
        Some (tokens, total)
  | PerRequest max_requests max_tokens max_usd =>
      if (max_requests =? 0)%N || (max_tokens =? 0)%N then None
      else
        tokens ← checked_mul64 max_requests max_tokens;
        price ← picos max_usd;
        total ← checked_mul u128_max max_requests price;
        Some (tokens, total)
  end.

(** [SliceBoundProof::bound]: tokens and microdollars *)
Definition slice_bound (p : SliceBoundProof) : option (N * N) :=
  if existsb (fun s => negb (valid_text s))
       [sp_proof_record_id p; sp_adapter p; sp_mode p; sp_binary_hash p; sp_model p; sp_auth_billing_mode p; sp_config_digest p; sp_transcript_ref p]
  then None
  else if negb (valid_sha256 (sp_binary_hash p)) || negb (valid_sha256 (sp_config_digest p)) then None
  else
    zero ← zero_allowed p;
    x ← kind_bound zero (sp_kind p);
    let '(tokens, total) := (x : N * N) in
    if (total =? 0)%N && negb zero then None
    else
      up ← checked_add u128_max total 999999;
      let micros := (up / 1000000)%N in
      if (micros <=? u64_max)%N then Some (tokens, micros) else None.

(** ** Admission *)

(** What the code sees of [semver] *)
Inductive VersionCmp := OpExact | OpGreater | OpGreaterEq | OpLess | OpLessEq | OpTilde | OpCaret | OpWildcard.
#[global] Instance VersionCmp_eq_dec : EqDecision VersionCmp.
Proof. solve_decision. Defined.

Record Comparator := { cp_op : VersionCmp; cp_minor : option N; cp_patch : option N }.

Class Semver := {
  Version : Type;
  VersionReq : Type;
  version_parse : string → option Version;
  req_parse : string → option VersionReq;
  comparators : VersionReq → list Comparator;
  req_matches : VersionReq → Version → bool;
}.

Section Admission.
Context `{Semver}.

Definition valid_version_range (s : string) : option VersionReq :=
  range ← req_parse s;
  let cs := comparators range in
  if (match cs with [] => true | _ => false end) || existsb (fun c => is_none (cp_minor c) || is_none (cp_patch c)) cs then None
  else
    let exact := match cs with [c] => cp_op c == OpExact | _ => false end in
    let lower := existsb (fun c => (cp_op c == OpGreater) || (cp_op c == OpGreaterEq)) cs in
    let upper := existsb (fun c => (cp_op c == OpLess) || (cp_op c == OpLessEq)) cs in
    if exact || (lower && upper) then Some range else None.

Definition proof_matches (input : SliceProofInput) (version : Version) (p : SliceBoundProof) : bool :=
  (sp_adapter p == si_adapter input) && (sp_mode p == si_mode input) && (sp_binary_hash p == si_binary_hash input)
  && (sp_model p == si_model input) && (sp_auth_billing_mode p == si_auth_billing_mode input)
  && (sp_config_digest p == si_config_digest input)
  && is_some_and (valid_version_range (sp_cli_version_range p)) (fun req => req_matches req version).

Definition evaluate_slice_bounds (proofs : list SliceBoundProof) (input : SliceProofInput)
  : Result AdmittedSliceBound SliceAdmissionRefusal :=
  match proofs with
  | [] => Err ManualOnly
  | _ =>
      match version_parse (si_installed_cli_version input) with
      | None => Err Unproven
      | Some version =>
          if existsb (fun s => negb (valid_text s))
               [si_adapter input; si_mode input; si_binary_hash input; si_model input; si_auth_billing_mode input; si_config_digest input]
          then Err Unproven
          else if negb (valid_sha256 (si_binary_hash input)) || negb (valid_sha256 (si_config_digest input)) then Err Unproven
          else
            match List.filter (proof_matches input version) proofs with
            | [p] =>
                match slice_bound p with
                | None => Err Unproven
                | Some (tokens, micros) =>
                    Ok {| as_max_tokens := tokens; as_max_cost_usd := from_micros micros; as_max_cost_micros := micros;
                          as_proof_record_id := sp_proof_record_id p |}
                end
            | _ => Err Unproven
            end
      end
  end.
End Admission.

(** ** Numbers read back as they are written *)

Definition shift_digit (a : N) (c : ascii) : N := (a * 10 + (code c - 48))%N.

(** [l] spells [n] in decimal digits. *)
Definition spells (l : list ascii) (n : N) : Prop :=
  forallb is_ascii_digit l = true ∧ ∀ a, foldl shift_digit a l = (a * 10 ^ N.of_nat (length l) + n)%N.

Lemma spells_snoc l n : spells l (n / 10) → spells (l ++ [digit n]) n.
Proof.
  intros [Hd Hv]. split; [rewrite forallb_app, Hd; cbn; by rewrite digit_is|]. intros a.
  rewrite foldl_app, Hv, length_app, Nat2N.inj_add. cbn [foldl length]. unfold shift_digit. rewrite digit_code, N.pow_add_r.
  change (N.of_nat 1) with 1%N. rewrite N.pow_1_r. pose proof (N.div_mod n 10 ltac:(done)).
  rewrite (N.add_comm 48), N.add_sub. generalize dependent (n mod 10)%N. generalize dependent (n / 10)%N. intros. nia.
Qed.

Lemma spells_zeros k l n : spells l n → spells (replicate k "0"%char ++ l) n.
Proof.
  intros [Hd Hv]. induction k as [|k [IHd IHv]]; [by split|]. split; [done|]. intros a. cbn [replicate app foldl].
  rewrite IHv. unfold shift_digit. change (code "0" - 48)%N with 0%N. cbn [length]. rewrite Nat2N.inj_succ, N.pow_succ_r'. lia.
Qed.

Lemma go_spells n : ∀ s, ∃ l, pretty_N_go n s = str l +:+ s ∧ spells l n ∧ (∀ w, (n < 10 ^ N.of_nat w)%N → length l ≤ w) ∧ ((0 < n)%N → l ≠ []).
Proof.
  induction (N.lt_wf_0 n) as [n _ IH]. intros s. destruct (decide (n = 0)%N) as [->|Hn].
  - exists []. rewrite pretty_N_go_0. split_and!; [done| |cbn; lia|lia]. split; [done|]. intros a. cbn. lia.
  - rewrite pretty_digit by lia. destruct (IH (n / 10)%N ltac:(by apply N.div_lt; lia) (String (digit n) s)) as (l&->&Hl&Hw&_).
    exists (l ++ [digit n]). split_and!.
    + apply chars_inj. rewrite !chars_app, !chars_str, <- (assoc_L (++)). done.
    + by apply spells_snoc.
    + intros [|w] Hlt; [change (10 ^ N.of_nat 0)%N with 1%N in Hlt; lia|]. rewrite Nat2N.inj_succ, N.pow_succ_r' in Hlt.
      rewrite length_app. cbn [length]. enough (length l ≤ w) by lia. apply Hw. by apply N.Div0.div_lt_upper_bound.
    + intros _ ?. by destruct l.
Qed.

Lemma pretty_spells n : ∃ l, pretty n = str l ∧ spells l n ∧ l ≠ [] ∧ ∀ w, 0 < w → (n < 10 ^ N.of_nat w)%N → length l ≤ w.
Proof.
  unfold pretty, pretty_N. destruct (decide (n = 0)%N) as [->|Hn].
  - exists ["0"%char]. split_and!; [done| |done|cbn; lia]. split; [done|]. intros a. cbn. unfold shift_digit. change (code "0" - 48)%N with 0%N. lia.
  - destruct (go_spells n EmptyString) as (l&->&Hl&Hw&Hne). exists l. split_and!; [|done|apply Hne; lia|auto].
    apply chars_inj. by rewrite chars_app, app_nil_r.
Qed.

Lemma padded_spells w n : 0 < w → (n < 10 ^ N.of_nat w)%N → ∃ l, padded w n = str l ∧ spells l n ∧ length l = w.
Proof.
  intros Hw0 Hn. destruct (pretty_spells n) as (l&Hp&Hl&Hne&Hw). unfold padded. rewrite Hp, str_length.
  exists (replicate (w - length l) "0"%char ++ l). split_and!; [by rewrite str_app|by apply spells_zeros|].
  rewrite length_app, length_replicate. specialize (Hw w Hw0 Hn). lia.
Qed.

Lemma digits_parse l a : forallb is_ascii_digit l = true → parse_digits l a = Some (foldl shift_digit a l).
Proof. revert a. induction l as [|c l IH]; intros a; [done|]. cbn. destruct (is_ascii_digit c); [|done]. apply IH. Qed.

Lemma spelled_parse l n max : spells l n → l ≠ [] → (n ≤ max)%N → parse_uint max (str l) = Some n.
Proof.
  intros [Hd Hv] Hne Hn. unfold parse_uint. rewrite chars_str. destruct l as [|c l]; [done|].
  assert (c == "+"%char = false) as ->.
  { destruct (c == "+"%char) eqn:E; [|done]. apply bool_decide_eq_true in E as ->. done. }
  rewrite digits_parse by done. rewrite Hv, N.mul_0_l, N.add_0_l. by rewrite (proj2 (N.leb_le _ _) Hn).
Qed.

Lemma digits_plain l : forallb is_ascii_digit l = true → contains_char "."%char (str l) = false.
Proof.
  intros Hd. unfold contains_char, any_byte. rewrite chars_str. induction l as [|c l IH]; [done|]. cbn in *.
  apply andb_true_iff in Hd as [Hc Hd]. rewrite IH by done. rewrite orb_false_r. destruct (c == "."%char) eqn:E; [|done].
  apply bool_decide_eq_true in E as ->. done.
Qed.

(** The decimal that is answered is the number of microdollars, exactly. *)
Lemma picos_from_micros v : (v ≤ u64_max)%N → picos (from_micros v) = Some (v * 1000000)%N.
Proof.
  intros Hv. unfold from_micros. assert (v / 1000000 < 10 ^ 14)%N as Hq by (apply N.Div0.div_lt_upper_bound; unfold u64_max in Hv; lia).
  pose proof (N.mod_lt v 1000000 ltac:(done)) as Hm. pose proof (N.div_mod v 1000000 ltac:(done)) as Hdm.
  generalize dependent (v / 1000000)%N. generalize dependent (v mod 1000000)%N. intros m Hm q Hq Hdm.
  destruct (pretty_spells q) as (lq&->&Hlq&Hne&Hlen). destruct (padded_spells 6 m ltac:(lia) Hm) as (lm&->&Hlm&Hlm6).
  specialize (Hlen 14 ltac:(lia) Hq). unfold picos.
  assert (split_once "."%char (str lq +:+ "." +:+ str lm) = Some (str lq, str lm)) as ->.
  { apply split_once_spec. split; [done|]. apply digits_plain, Hlq. }
  cbn [unwrap_or]. unfold str_len, all_digits, all_bytes. rewrite !str_length, !chars_str, Hlm6, (proj1 Hlq), (proj1 Hlm).
  assert (is_empty_str (str lq) = false) as -> by (by destruct lq). assert (is_empty_str (str lm) = false) as -> by (by destruct lm).
  replace (18 <? N.of_nat (length lq))%N with false by (symmetry; apply N.ltb_ge; lia). rewrite andb_false_r. cbn [orb negb N.of_nat].
  rewrite (spelled_parse lq q u128_max), (spelled_parse lm m u128_max);
    [|done|by intros ->|unfold u128_max; lia|done|done|unfold u128_max; lia].
  unfold checked_mul, checked_add, u128_max, PICOS_PER_USD. change (10 ^ (12 - N.of_nat 6))%N with 1000000%N.
  change (12 <? N.of_nat 6)%N with false. cbn [orb mbind option_bind]. change (10 ^ 14)%N with 100000000000000%N in Hq.
  rewrite (proj2 (N.leb_le (q * _) _)) by lia. cbn [mbind option_bind]. rewrite (proj2 (N.leb_le (m * _) _)) by lia. cbn [mbind option_bind].
  rewrite (proj2 (N.leb_le _ _)) by lia. f_equal. lia.
Qed.

(** ** What a slice within its enforced limits can use *)

(** The tokens of steps, and their cost at two prices *)
Definition tokens_of (steps : list (N * N)) : N := sum_list_N (map (fun s => s.1 + s.2)%N steps).
Definition cost_of (price_in price_out : N) (steps : list (N * N)) : N := sum_list_N (map (fun s => s.1 * price_in + s.2 * price_out)%N steps).

(** A slice that keeps to the knobs of a record: its tokens and its picodollars.
    A vendor cap stops the slice once it is reached, with one step in flight. *)
Inductive within : SliceBoundKind → N → N → Prop :=
| within_cap knob cap_usd et eu tknob t step cap pi po used spent n m :
    picos cap_usd = Some cap → picos (es_price_per_input_token step) = Some pi → picos (es_price_per_output_token step) = Some po →
    (used ≤ t)%N → (spent ≤ cap)%N → (n ≤ es_max_input_tokens step)%N → (m ≤ es_max_output_tokens step)%N →
    within (VendorCap knob cap_usd et eu tknob (Some t) (Some step)) (used + tokens_of [(n, m)]) (spent + cost_of pi po [(n, m)])
| within_steps k1 max_steps k2 max_in k3 max_out price_in price_out pi po steps :
    picos price_in = Some pi → picos price_out = Some po → (N.of_nat (length steps) ≤ max_steps)%N →
    Forall (fun s => s.1 ≤ max_in ∧ s.2 ≤ max_out)%N steps →
    within (Arithmetic k1 max_steps k2 max_in k3 max_out price_in price_out) (tokens_of steps) (cost_of pi po steps)
| within_requests max_requests max_tokens max_usd price requests :
    picos max_usd = Some price → (N.of_nat (length requests) ≤ max_requests)%N →
    Forall (fun r => r.1 ≤ max_tokens ∧ r.2 ≤ price)%N requests →
    within (PerRequest max_requests max_tokens max_usd) (sum_list_N (map fst requests)) (sum_list_N (map snd requests)).

Lemma sum_at_most {A} (f : A → N) (l : list A) b : Forall (fun x => f x ≤ b)%N l → (sum_list_N (map f l) ≤ N.of_nat (length l) * b)%N.
Proof.
  induction 1 as [|x l Hx _ IH]; [done|]. cbn [map length]. change (sum_list_N (f x :: map f l)) with (f x + sum_list_N (map f l))%N. lia.
Qed.

Lemma sum_within {A} (f : A → N) (l : list A) b n : Forall (fun x => f x ≤ b)%N l → (N.of_nat (length l) ≤ n)%N → (sum_list_N (map f l) ≤ n * b)%N.
Proof. intros Hf Hn. etrans; [by apply sum_at_most|]. by apply N.mul_le_mono_r. Qed.

Lemma checked_add_Some max a b c : checked_add max a b = Some c ↔ c = (a + b)%N ∧ (c ≤ max)%N.
Proof. unfold checked_add. destruct (N.leb_spec (a + b) max); naive_solver lia. Qed.
Lemma checked_mul_Some max a b c : checked_mul max a b = Some c ↔ c = (a * b)%N ∧ (c ≤ max)%N.
Proof. unfold checked_mul. destruct (N.leb_spec (a * b) max); naive_solver lia. Qed.

Lemma step_cost_Some n price_in m price_out c : step_cost n price_in m price_out = Some c →
  ∃ pi po, picos price_in = Some pi ∧ picos price_out = Some po ∧ c = (n * pi + m * po)%N.
Proof.
  intros (pi&Hpi&(x&[-> _]%checked_mul_Some&(po&Hpo&(y&[-> _]%checked_mul_Some&[-> _]%checked_add_Some)%bind_Some)%bind_Some)%bind_Some)%bind_Some.
  by exists pi, po.
Qed.

(** The bound of a record holds whatever its slice does within the limits. *)
Lemma kind_bound_covers zero k tokens total : kind_bound zero k = Some (tokens, total) →
  (tokens ≤ u64_max)%N ∧ ∀ used spent, within k used spent → (used ≤ tokens ∧ spent ≤ total)%N.
Proof.
  destruct k as [knob cap_usd et eu tknob max_total eps|k1 max_steps k2 max_in k3 max_out price_in price_out|max_requests max_tokens max_usd];
    cbn [kind_bound].
  - intros (t&->&(step&->&H)%bind_Some)%bind_Some. destruct (_ || _); [done|].
    apply bind_Some in H as (epsilon&_&(st&[-> _]%checked_add_Some&(sp&(pi&po&Hpi&Hpo&->)%step_cost_Some&H)%bind_Some)%bind_Some).
    destruct (N.ltb_spec et (es_max_input_tokens step + es_max_output_tokens step)); [done|].
    destruct (N.ltb_spec epsilon (es_max_input_tokens step * pi + es_max_output_tokens step * po)); [done|].
    destruct (_ && _); [done|]. cbn [orb] in H.
    apply bind_Some in H as (tk&[-> Htk]%checked_add_Some&(cap&Hcap&(tot&[-> _]%checked_add_Some&[= <- <-])%bind_Some)%bind_Some).
    split; [done|]. intros used spent Hw. inversion Hw; simplify_eq. cbn. nia.
  - destruct (_ || _); [done|].
    intros (ps&[-> _]%checked_add_Some&(tk&[-> Htk]%checked_mul_Some&(sp&(pi&po&Hpi&Hpo&->)%step_cost_Some
      &(tot&[-> _]%checked_mul_Some&[= <- <-])%bind_Some)%bind_Some)%bind_Some)%bind_Some.
    split; [done|]. intros used spent Hw. inversion Hw as [|? ? ? ? ? ? ? ? pi' po' steps Hi Ho Hlen Hall|]; simplify_eq.
    rewrite (N.mul_comm _ max_steps), (N.mul_comm _ max_steps). split; (apply sum_within; [|done]); (eapply Forall_impl; [exact Hall|]);
      cbn; intros s [? ?]; nia.
  - destruct (_ || _); [done|].
    intros (tk&[-> Htk]%checked_mul_Some&(price&Hp&(tot&[-> _]%checked_mul_Some&[= <- <-])%bind_Some)%bind_Some)%bind_Some.
    split; [done|]. intros used spent Hw. inversion Hw; simplify_eq.
    split; (apply sum_within; [|done]); (eapply Forall_impl; [done|]); by intros s [? ?].
Qed.

Lemma slice_bound_Some p tokens micros : slice_bound p = Some (tokens, micros) → (micros ≤ u64_max)%N
  ∧ ∃ zero total, zero_allowed p = Some zero ∧ kind_bound zero (sp_kind p) = Some (tokens, total)
    ∧ (total ≤ micros * 1000000 < total + 1000000)%N ∧ (total = 0%N → zero = true).
Proof.
  unfold slice_bound. destruct (existsb _ _); [done|]. destruct (_ || _); [done|].
  intros (zero&Hz&([tk total]&Hk&H)%bind_Some)%bind_Some. destruct ((total =? 0)%N && negb zero) eqn:E; [done|].
  apply bind_Some in H as (up&[-> _]%checked_add_Some&H). cbv zeta in H.
  destruct (N.leb_spec ((total + 999999) / 1000000) u64_max) as [Hle|]; [|done]. injection H as <- <-. split; [done|].
  exists zero, total. split_and!; [done|done| | |].
  - pose proof (N.mul_succ_div_gt (total + 999999) 1000000 ltac:(done)). lia.
  - pose proof (N.Div0.mul_div_le (total + 999999) 1000000). lia.
  - intros ->. cbn in E. by destruct zero.
Qed.

(** (C27) A slice that is admitted keeps to what it was admitted for. Exactly
    one reviewed record matches the slice, its billing is actual money or a
    subscription proven free, and whatever the slice does within the limits the
    record names, it uses no more tokens and no more money than the bound. The
    bound is the record's total rounded up by less than a microdollar, fits its
    width without any wrapping, and its decimal text reads back as exactly that. *)
Theorem admitted_bound_covers `{Semver} proofs input a : evaluate_slice_bounds proofs input = Ok a →
  ∃ p version zero total,
    version_parse (si_installed_cli_version input) = Some version ∧ List.filter (proof_matches input version) proofs = [p]
    ∧ as_proof_record_id a = sp_proof_record_id p ∧ zero_allowed p = Some zero
    ∧ (∀ used spent, within (sp_kind p) used spent → used ≤ as_max_tokens a ∧ spent ≤ as_max_cost_micros a * 1000000)%N
    ∧ kind_bound zero (sp_kind p) = Some (as_max_tokens a, total)
    ∧ (total ≤ as_max_cost_micros a * 1000000 < total + 1000000)%N ∧ (total = 0%N → zero = true)
    ∧ (as_max_tokens a ≤ u64_max ∧ as_max_cost_micros a ≤ u64_max)%N
    ∧ picos (as_max_cost_usd a) = Some (as_max_cost_micros a * 1000000)%N.
Proof.
  unfold evaluate_slice_bounds. destruct proofs as [|p0 ps] eqn:Ep; [done|]. rewrite <- Ep.
  destruct (version_parse _) as [version|]; [|done]. destruct (existsb _ _); [done|]. destruct (_ || _); [done|].
  destruct (List.filter _ _) as [|p [|]] eqn:Ef; [done| |done]. destruct (slice_bound p) as [[tokens micros]|] eqn:Eb; [|done].
  intros [= <-]. cbn. apply slice_bound_Some in Eb as (Hm&zero&total&Hz&Hk&Hr&H0).
  destruct (kind_bound_covers _ _ _ _ Hk) as [Ht Hw]. exists p, version, zero, total.
  split_and!; try done; try lia; [|by apply picos_from_micros].
  intros used spent Hu. destruct (Hw _ _ Hu). split; [done|]. lia.
Qed.

(** ** A reviewed record and a slice of two steps *)

Module Demo.
(** Versions compared as texts, and exact requirements only *)
#[local] Instance exact_versions : Semver := {|
  Version := string; VersionReq := string; version_parse := Some; req_parse := Some;
  comparators := fun _ => [{| cp_op := OpExact; cp_minor := Some 4%N; cp_patch := Some 2%N |}];
  req_matches := String.eqb |}.

Definition hash : string := "sha256:" +:+ str (replicate 64 "a"%char).

Definition reviewed : SliceBoundProof := {|
  sp_proof_record_id := "proof-7"; sp_adapter := "cli"; sp_mode := "headless"; sp_cli_version_range := "1.4.2"; sp_binary_hash := hash;
  sp_model := "m-1"; sp_auth_billing_mode := "api"; sp_config_digest := hash;
  sp_kind := Arithmetic "--max-steps" 10 "--max-in" 1000 "--max-out" 500 "0.000003" "0.0000150001";
  sp_accounting_unit := ActualUsd "contract-1"; sp_transcript_ref := "run-12" |}.

Definition asked : SliceProofInput := {|
  si_adapter := "cli"; si_mode := "headless"; si_installed_cli_version := "1.4.2"; si_binary_hash := hash; si_model := "m-1";
  si_auth_billing_mode := "api"; si_config_digest := hash |}.

Definition bound : AdmittedSliceBound := {|
  as_max_tokens := 15000; as_max_cost_usd := "0.105001"; as_max_cost_micros := 105001; as_proof_record_id := "proof-7" |}.

Lemma admitted_bound_covers_witness :
  evaluate_slice_bounds [reviewed] asked = Ok bound
  ∧ (tokens_of [(1000, 500); (20, 1)] ≤ as_max_tokens bound ∧ cost_of 3000000 15000100 [(1000, 500); (20, 1)] ≤ as_max_cost_micros bound * 1000000)%N.
Proof.
  assert (evaluate_slice_bounds [reviewed] asked = Ok bound) as H by (by vm_compute). split; [done|].
  destruct (admitted_bound_covers [reviewed] asked bound H) as (p&version&zero&total&Hv&Hf&_&_&Hw&_).
  injection Hv as <-. assert (reviewed = p) as <- by (by injection Hf).
  apply (Hw (tokens_of [(1000, 500); (20, 1)])%N (cost_of 3000000 15000100 [(1000, 500); (20, 1)])%N). apply within_steps; [by vm_compute|by vm_compute|done|]. by repeat constructor.
Defined.
End Demo.
