(* ===== verification/Faults.v ===== *)
(** * Faults of the ledger, the router and an escalation ([fault.rs],
    [routing.rs], [escalation.rs])

    The refusals that [StoreError] wraps, with their messages, and the two
    tiers of a routed project. *)

From S2P Require Import Prelude RustStr Wire Model.

(** ** Tiers ([routing.rs]) *)

Inductive Tier := Local | Github.

#[global] Instance Tier_eq_dec : EqDecision Tier.
Proof. solve_decision. Defined.

Definition Tier_as_wire (t : Tier) : string := match t with Local => "local" | Github => "github" end.

#[global] Program Instance Tier_wire : WireNames Tier := { wire_all := [Local; Github]; as_wire := Tier_as_wire }.
Solve All Obligations with wire_instance.

(** ** Ledger faults *)

Inductive LedgerFault :=
| LFNotSetUp (repo : string)
| LFDeleted (repo root : string)
| LFNoAnchor (repo : string)
| LFRewritten (repo head against base how : string)
| LFAltered (repo file what commit : string)
| LFMisplaced (repo file : string) (line : N) (belongs commit : string)
| LFUnreadable (repo file : string) (line : N) (commit cause : string)
| LFUnknownFormat (repo found : string)
| LFUnidentified (detail : string).

Definition ledger_fault_display (f : LedgerFault) : string :=
  match f with
  | LFNotSetUp repo => "the repository " +:+ repo +:+
      " has no GitHub ledger yet: it has no `fl/ledger` branch, and this machine records no anchor for one. Run `fl github ledger init` to set it up"
  | LFDeleted repo root => "the GitHub ledger of " +:+ repo +:+
      " was deleted: its `fl/ledger` branch is gone, but this machine records its first commit, " +:+ root +:+
      ". fl will not start a new ledger, because a new one would hide the deletion. Restore the branch at a commit that descends from "
      +:+ root +:+ ", then retry"
  | LFNoAnchor repo => "this machine records no anchor for the GitHub ledger of " +:+ repo +:+
      ", so it cannot check that ledger's history. Import the manifest that `fl github ledger init` committed (`fl manifest import`), or run `fl github ledger init` again"
  | LFRewritten repo head against base how => "the GitHub ledger of " +:+ repo +:+ " was rewritten: its head " +:+ head +:+
      " does not descend from " +:+ against +:+ ", " +:+ base +:+ " (" +:+ how +:+
      "). Run `fl github ledger verify` to see where its history departs, and find out who rewrote it before trusting it"
  | LFAltered repo file what commit => "the GitHub ledger of " +:+ repo +:+ " was altered: `" +:+ file +:+ "` " +:+ what +:+
      " (seen at commit " +:+ commit +:+
      "). A ledger file only ever grows. Run `fl github ledger verify` to find the commit that changed it, and find out who made it before trusting the ledger"
  | LFMisplaced repo file line belongs commit => "the GitHub ledger of " +:+ repo +:+ " was altered: `" +:+ file +:+
      "` line " +:+ pretty line +:+ " is about " +:+ belongs +:+ ", which that directory does not hold (added by commit " +:+
      commit +:+
      "). fl writes every line into its own directory, so someone else wrote this one. Run `fl github ledger verify`, and find out who wrote it before trusting the ledger; then `fl github ledger quarantine "
      +:+ file +:+ " " +:+ pretty line +:+ " --by <name> --reason <text>` lets readers skip it. Nothing is ever removed"
  | LFUnreadable repo file line commit cause => "the GitHub ledger of " +:+ repo +:+ " holds an unreadable line: `" +:+ file +:+
      "` line " +:+ pretty line +:+ ", added by commit " +:+ commit +:+ ": " +:+ cause +:+
      ". A newer fl may have written it — then upgrade fl. Otherwise find out who wrote it, and run `fl github ledger quarantine "
      +:+ file +:+ " " +:+ pretty line +:+ " --by <name> --reason <text>` so readers skip it; nothing is ever removed"
  | LFUnknownFormat repo found => "the GitHub ledger of " +:+ repo +:+ " is format `" +:+ found +:+
      "`, and this version of fl reads format 1. Upgrade fl to read it"
  | LFUnidentified detail => "the shared ledger answered with an entry that has no id (" +:+ detail +:+
      "). Every published entry carries one, so the ledger was written by hand or is damaged. Run `fl github ledger verify`"
  end.

(** ** Routing faults *)

Inductive RoutingFault :=
| RFUnrouted (project : ProjectId)
| RFNoArea (declared : list string)
| RFNothingToInherit (record : RecordId) (declared : list string)
| RFUndeclared (area : string) (declared : list string)
| RFTierUnavailable (tier : Tier) (why : string)
| RFTierUnreadable (tier : Tier) (cause : string)
| RFElsewhere (id : Iri) (searched : list string)
| RFSensitiveToPublic (what repo visibility : string)
| RFSensitiveNamedPublic (what repo visibility : string).

(** [list] *)
Definition names_list (names : list string) : string := match names with [] => "none" | _ => join ", " names end.

Definition routing_fault_display (f : RoutingFault) : string :=
  match f with
  | RFUnrouted project => "project " +:+ project +:+
      " declares no areas, so fl cannot route its items. Run `fl routing set --project <project> <area> <tier>` to declare one"
  | RFNoArea declared =>
      "a routed project needs an area for every new item: name one with `--area`. The declared areas: " +:+ names_list declared
  | RFNothingToInherit record declared => "the finding's record " +:+ record +:+
      " has no area to inherit, so name the finding's area with `--area`. The declared areas: " +:+ names_list declared
  | RFUndeclared area declared => "`" +:+ area +:+ "` is not an area this project declares. The declared areas: " +:+
      names_list declared +:+ "; `fl routing set` declares a new one"
  | RFTierUnavailable tier why => "the `" +:+ as_wire tier +:+ "` tier is not available on this machine: " +:+ why +:+
      ". fl never puts an item in the other tier by itself"
  | RFTierUnreadable tier cause => "the `" +:+ as_wire tier +:+ "` tier could not be read (" +:+ cause +:+
      "), so fl refuses the whole list rather than show part of it. Read one tier with `--tier local`"
  | RFElsewhere id searched => id +:+ " is not held by any tier this machine can read (searched: " +:+ names_list searched +:+
      "). A local item lives in one store on one machine: it is held in another machine's local tier, or it does not exist"
  | RFSensitiveToPublic what repo visibility => "refused: " +:+ what +:+
      " is security-sensitive, and the routing map sends it to " +:+ repo +:+ ", whose visibility is `" +:+ visibility +:+
      "`. Raise it with `--tier local`, or bind a private repository; fl never moves it to the local tier by itself"
  | RFSensitiveNamedPublic what repo visibility => "refused: " +:+ what +:+ " is security-sensitive, and " +:+ repo +:+
      ", whose visibility is `" +:+ visibility +:+ "`, is not private. Use the local tier for it, or bind a private repository"
  end.

(** ** Escalation faults *)

(** [escalate_command] *)
Definition escalate_command (kind : Kind) (id : Iri) : string := "fl " +:+ as_wire kind +:+ " escalate " +:+ id.

Inductive EscalationFault :=
| EFNotLocal (id : Iri)
| EFAlreadyEscalated (id to : Iri)
| EFClosed (id : Iri) (state : string)
| EFTitle (id : Iri) (why : string)
| EFAliasTaken (alias issue : Iri)
| EFAlreadyMarked (id : Iri) (kind : Kind)
| EFNotMarked (id : Iri)
| EFIssueExists (id : Iri) (kind : Kind) (issue : Iri)
| EFTooLong (id : Iri) (what : string) (len max : N).

Definition escalation_fault_display (f : EscalationFault) : string :=
  match f with
  | EFNotLocal id => id +:+
      " is not a local item, so there is nothing to escalate: only an item in the local tier moves to GitHub"
  | EFAlreadyEscalated id to => id +:+ " was escalated already, to " +:+ to +:+ ". Read and change it there"
  | EFClosed id state => id +:+ " is in a closed state, `" +:+ state +:+
      "`, and GitHub takes open items only, so it cannot be escalated. Nothing was written; it stays in the local tier"
  | EFTitle id why => "the title of " +:+ id +:+ " cannot be an issue's title: " +:+ why +:+
      ". Nothing was written; it stays in the local tier"
  | EFAliasTaken alias issue => "the alias " +:+ alias +:+ " already names " +:+ issue +:+
      " on GitHub, and one id names one item across both tiers, so the escalation would give it two meanings. Nothing was written"
  | EFAlreadyMarked id kind => id +:+ " is marked escalating already. Run `" +:+ escalate_command kind id +:+
      "` to finish the escalation, or add `--abandon` to stop it"
  | EFNotMarked id => id +:+ " is not marked escalating, so there is no escalation to finish or abandon"
  | EFIssueExists id kind issue => "the escalation of " +:+ id +:+ " cannot be abandoned: its issue exists, " +:+ issue +:+
      ". Finish it with `" +:+ escalate_command kind id +:+ "` instead, which replaces the local item with a tombstone"
  | EFTooLong id what len max => what +:+ " is too long to escalate " +:+ id +:+ ": it is " +:+ pretty len +:+
      " bytes, and at most " +:+ pretty max +:+
      " fit beside the rest of the issue under GitHub's limit on an issue's body. Shorten it and run the command again. Nothing was written; it stays in the local tier"
  end.
