(* ===== verification/Verdict.v ===== *)
(** * Gate verdicts and staleness ([crates/core/src/verdict.rs], [stale.rs])

    A verdict is a pass over a population that was really examined, a
    failure with its reason, or an error of the instrument. [Population]
    carries the proof that it is not zero, as its private field does in the
    source. *)

From Stdlib Require Eqdep_dec.
From S2P Require Import Prelude RustStr Wire Model.
Local Open Scope N_scope.

(** [FailReason] *)
Inductive FailReason := Predicate | EmptyPopulation | Stale.

#[global] Instance FailReason_eq_dec : EqDecision FailReason.
Proof. solve_decision. Defined.

Definition FailReason_as_wire (r : FailReason) : string :=
  match r with
  | Predicate => "predicate" | EmptyPopulation => "empty_population" | Stale => "stale"
  end.

#[global] Program Instance FailReason_wire : WireNames FailReason := {
  wire_all := [Predicate; EmptyPopulation; Stale]; as_wire := FailReason_as_wire }.
Solve All Obligations with wire_instance.

(** [Population(u64)]: the field is private and [new] refuses zero, so a value
    of the type is a positive count. *)
Record Population := mk_population { population_get : N; population_pos : (population_get =? 0) = false }.

Definition Population_new (value : N) : option Population :=
  match value =? 0 as b return (value =? 0) = b → option Population with
  | true => fun _ => None
  | false => fun H => Some (mk_population value H)
  end eq_refl.

(** [Verdict] *)
Inductive Verdict :=
| VPass (population : Population)
| VFail (population : N) (reason : FailReason)
| VError (detail : string).

(** The raw mirror that serde reads into before validation. *)
Inductive VerdictRaw :=
| RPass (population : N)
| RFail (population : N) (reason : FailReason)
| RError (detail : string).

(** What [Serialize] writes: the same shape, the population as a number. *)
Definition to_raw (v : Verdict) : VerdictRaw :=
  match v with
  | VPass p => RPass (population_get p)
  | VFail n r => RFail n r
  | VError d => RError d
  end.

(** [Deserialize for Verdict]: a pass over zero is refused. *)
Definition Verdict_deserialize (raw : VerdictRaw) : Result Verdict string :=
  match raw with
  | RPass n =>
      match Population_new n with
      | Some p => Ok (VPass p)
      | None => Err "cannot deserialize Pass over zero population: no gate examined nothing can pass"%string
      end
  | RFail n r => Ok (VFail n r)
  | RError d => Ok (VError d)
  end.

(** [Verdict::from_predicate] *)
Definition from_predicate (passed : bool) (population : N) : Verdict :=
  match Population_new population with
  | None => VFail 0 EmptyPopulation
  | Some nonzero => if passed then VPass nonzero else VFail population Predicate
  end.

(** [Verdict::error], [Verdict::fail_for] *)
Definition verdict_error (detail : string) : Verdict := VError detail.
Definition fail_for (reason : FailReason) (population : N) : Verdict := VFail population reason.

Definition is_pass (v : Verdict) : bool :=
  match v with VPass _ => true | _ => false end.

(** [Verdict::population] *)
Definition verdict_population (v : Verdict) : option N :=
  match v with
  | VPass p => Some (population_get p)
  | VFail n _ => Some n
  | VError _ => None
  end.

(** [Verdict::describe]: a label and a detail line. *)
Definition describe (v : Verdict) : string * string :=
  match v with
  | VPass p => ("PASS"%string, pretty (population_get p) +:+ " examined")
  | VFail n r => ("FAIL"%string, FailReason_as_wire r +:+ ", " +:+ pretty n +:+ " examined")
  | VError d => ("ERROR"%string, d)
  end.

(** [Verdict::exit_code]: 0 pass, 1 fail, 2 broken instrument. *)
Definition exit_code (v : Verdict) : N :=
  match v with VPass _ => 0 | VFail _ _ => 1 | VError _ => 2 end.

(** ** Staleness *)

Inductive Staleness := Fresh | StaleWarn | StaleFail.

#[global] Instance Staleness_eq_dec : EqDecision Staleness.
Proof. solve_decision. Defined.

(** [Staleness::note] *)
Definition note (s : Staleness) : string :=
  match s with
  | Fresh => EmptyString
  | StaleWarn => "  (stale: the gate's population moved since it was stamped)"
  | StaleFail => "  (stale)"
  end.

(** [is_stale] *)
Definition is_stale (population_changed definition_changed : bool) : bool :=
  population_changed && negb definition_changed.

(** [apply_staleness] *)
Definition apply_staleness (verdict : Verdict) (stale : bool) (regret : Regret)
  : Verdict * Staleness :=
  if negb stale then (verdict, Fresh)
  else match regret with
       | Low => (verdict, StaleWarn)
       | High =>
           match verdict with
           | VPass p => (fail_for Stale (population_get p), StaleFail)
           | other => (other, StaleFail)
           end
       end.

(** ** Lemmas *)

Lemma Population_new_spec n :
  match Population_new n with
  | None => n = 0
  | Some p => population_get p = n ∧ 0 < n
  end.
Proof.
  unfold Population_new. generalize (eq_refl (n =? 0)).
  destruct (n =? 0) at 2 3; intros H; cbn; bool_prop; [done|split; [done|lia]].
Qed.

Lemma population_positive (p : Population) : 0 < population_get p.
Proof. destruct p as [n H]; cbn. bool_prop. lia. Qed.

Lemma population_ext (p q : Population) : population_get p = population_get q → p = q.
Proof.
  destruct p as [n Hn], q as [m Hm]; cbn. intros ->. f_equal. apply (Eqdep_dec.UIP_dec bool_dec).
Qed.

#[global] Instance Population_eq_dec : EqDecision Population.
Proof.
  intros p q. refine (cast_if (decide (population_get p = population_get q))); [by apply population_ext|congruence].
Defined.

#[global] Instance Verdict_eq_dec : EqDecision Verdict.
Proof. solve_decision. Defined.

Lemma Population_new_get p : Population_new (population_get p) = Some p.
Proof.
  pose proof (Population_new_spec (population_get p)) as H.
  pose proof (population_positive p). destruct (Population_new _) as [q|]; [|lia].
  destruct H as [H _]. f_equal. by apply population_ext.
Qed.

Lemma is_pass_population v : is_pass v = true → ∃ n, verdict_population v = Some n ∧ 0 < n.
Proof. destruct v as [p| |]; cbn; try done. intros _. eauto using population_positive. Qed.

Lemma from_predicate_pass b n : is_pass (from_predicate b n) = b && negb (n =? 0).
Proof.
  unfold from_predicate. pose proof (Population_new_spec n) as H.
  destruct (Population_new n) as [p|]; [|subst; by destruct b].
  destruct H as [_ H]. destruct (N.eqb_spec n 0); [lia|]. by destruct b.
Qed.

Lemma exit_code_pass v : exit_code v = 0 ↔ is_pass v = true.
Proof. by destruct v. Qed.

#[export] Hint Resolve population_positive : rust.
#[export] Hint Rewrite from_predicate_pass Population_new_get : rust.

(** Nothing passes without having examined something: [from_predicate] passes
    exactly when the predicate held over a non-empty population, an empty
    population always fails with its own reason, and a verdict that passes
    has exit code 0 and reports a positive count. *)
Theorem pass_examined_something (passed : bool) (n : N) :
  (is_pass (from_predicate passed n) = true ↔ passed = true ∧ 0 < n)
  ∧ from_predicate passed 0 = VFail 0 EmptyPopulation
  ∧ (∀ v, is_pass v = true →
       exit_code v = 0 ∧ ∃ k, verdict_population v = Some k ∧ 0 < k).
Proof.
  split_and!.
  - rewrite from_predicate_pass, andb_true_iff, negb_true_iff, N.eqb_neq. intuition lia.
  - done.
  - intros v Hv. split; [by apply exit_code_pass|by apply is_pass_population].
Qed.

(** Serialising a verdict and reading it back is the identity, and reading
    accepts a raw pass exactly when its population is not zero. *)
Theorem verdict_roundtrip :
  (∀ v, Verdict_deserialize (to_raw v) = Ok v)
  ∧ (∀ raw v, Verdict_deserialize raw = Ok v → to_raw v = raw)
  ∧ (∀ n, is_ok (Verdict_deserialize (RPass n)) = negb (n =? 0)).
Proof.
  split_and!.
  - intros [p| |]; cbn; [by rewrite Population_new_get|done..].
  - intros [n| |] v H; cbn in H; try by simplify_eq.
    pose proof (Population_new_spec n). destruct (Population_new n); naive_solver.
  - intros n. cbn. pose proof (Population_new_spec n) as H. destruct (Population_new n); cbn.
    + destruct H. destruct (N.eqb_spec n 0); [lia|done].
    + by subst.
Qed.

(** Staleness only ever makes a verdict worse: a verdict that passes after it
    passed before it, an error stays the same error, the exit code never
    drops, the population count is kept, and at high regret a stale gate
    never passes. *)
Theorem staleness_only_worsens (v : Verdict) (stale : bool) (regret : Regret) :
  let '(v', s) := apply_staleness v stale regret in
  (is_pass v' = true → v' = v ∧ (stale = false ∨ regret = Low))
  ∧ exit_code v <= exit_code v'
  ∧ verdict_population v' = verdict_population v
  ∧ (∀ d, v = VError d → v' = v)
  ∧ (s = Fresh ↔ stale = false).
Proof. destruct stale, regret, v; cbn; split_and!; intros; try done; try lia; eauto. Qed.
