(* ===== verification/Finding.v ===== *)
(** * Findings ([crates/core/src/finding.rs])

    A finding is a claim that something is wrong. Its life is a state
    machine: raised, reproduced, assigned, then fixed or withdrawn. The
    operations mutate the finding or refuse; the automaton of the states is
    stated apart, and the operations are proved to implement it. *)

From S2P Require Import Prelude RustStr Wire Model.

(** [FindingState] *)
Inductive FindingState := Raised | Reproduced | Assigned | Fixed | Withdrawn.

#[global] Instance FindingState_eq_dec : EqDecision FindingState.
Proof. solve_decision. Defined.

Definition FindingState_as_wire (s : FindingState) : string :=
  match s with
  | Raised => "raised" | Reproduced => "reproduced" | Assigned => "assigned"
  | Fixed => "fixed" | Withdrawn => "withdrawn"
  end.

#[global] Program Instance FindingState_wire : WireNames FindingState := {
  wire_all := [Raised; Reproduced; Assigned; Fixed; Withdrawn]; as_wire := FindingState_as_wire }.
Solve All Obligations with wire_instance.

(** [FindingState::is_terminal] *)
Definition finding_terminal (s : FindingState) : bool :=
  match s with Fixed | Withdrawn => true | _ => false end.

(** [FindingError] *)
Inductive FindingError :=
| NoReproduction
| AlreadyReproduced
| WrongState (s : FindingState).

#[global] Instance FindingError_eq_dec : EqDecision FindingError.
Proof. solve_decision. Defined.

(** [Finding] *)
Record Finding := {
  fd_id : FindingId;
  fd_project : ProjectId;
  fd_record : RecordId;
  fd_raised_by : string;
  fd_claim : string;
  fd_reproduction : option GateId;
  fd_state : FindingState;
  fd_assigned_to : option string;
  fd_withdrawn_reason : option string;
  fd_also_known_as : list Iri;
  fd_security : bool;
  fd_area : option string;
}.

#[global] Instance Finding_eq_dec : EqDecision Finding.
Proof. solve_decision. Defined.

(** The four fields the operations write. *)
Definition fd_update (f : Finding) (reproduction : option GateId) (state : FindingState)
  (assigned_to withdrawn_reason : option string) : Finding := {|
  fd_id := fd_id f; fd_project := fd_project f; fd_record := fd_record f;
  fd_raised_by := fd_raised_by f; fd_claim := fd_claim f;
  fd_reproduction := reproduction; fd_state := state; fd_assigned_to := assigned_to;
  fd_withdrawn_reason := withdrawn_reason; fd_also_known_as := fd_also_known_as f;
  fd_security := fd_security f; fd_area := fd_area f |}.

(** [seq_iri(0)], the placeholder the store replaces. *)
Definition placeholder_id : Iri := "urn:uuid:00000000-0000-7000-8000-000000000000".

(** [Finding::raise] *)
Definition raise (project : ProjectId) (record : RecordId) (raised_by claim : string) : Finding := {|
  fd_id := placeholder_id; fd_project := project; fd_record := record;
  fd_raised_by := raised_by; fd_claim := claim;
  fd_reproduction := None; fd_state := Raised; fd_assigned_to := None;
  fd_withdrawn_reason := None; fd_also_known_as := []; fd_security := false; fd_area := None |}.

(** [Finding::attach_reproduction] *)
Definition attach_reproduction (f : Finding) (gate : GateId) : Result Finding FindingError :=
  if finding_terminal (fd_state f) then Err (WrongState (fd_state f))
  else if is_some (fd_reproduction f) then Err AlreadyReproduced
  else Ok (fd_update f (Some gate) Reproduced (fd_assigned_to f) (fd_withdrawn_reason f)).

(** [Finding::assign] *)
Definition assign (f : Finding) (to : string) : Result Finding FindingError :=
  match fd_state f with
  | Raised => Err NoReproduction
  | Reproduced | Assigned =>
      Ok (fd_update f (fd_reproduction f) Assigned (Some to) (fd_withdrawn_reason f))
  | other => Err (WrongState other)
  end.

(** [Finding::mark_fixed] *)
Definition mark_fixed (f : Finding) : Result Finding FindingError :=
  if fd_state f != Assigned then Err (WrongState (fd_state f))
  else Ok (fd_update f (fd_reproduction f) Fixed (fd_assigned_to f) (fd_withdrawn_reason f)).

(** [Finding::withdraw] *)
Definition withdraw (f : Finding) (reason : string) : Result Finding FindingError :=
  if finding_terminal (fd_state f) then Err (WrongState (fd_state f))
  else Ok (fd_update f (fd_reproduction f) Withdrawn (fd_assigned_to f) (Some reason)).

(** ** The state machine *)

(** One accepted operation. *)
Inductive finding_step : Finding → Finding → Prop :=
| fs_attach f f' gate : attach_reproduction f gate = Ok f' → finding_step f f'
| fs_assign f f' to : assign f to = Ok f' → finding_step f f'
| fs_fixed f f' : mark_fixed f = Ok f' → finding_step f f'
| fs_withdraw f f' reason : withdraw f reason = Ok f' → finding_step f f'.

(** A finding some sequence of accepted operations makes from a raised one. *)
Definition finding_reachable (f : Finding) : Prop :=
  ∃ project record by_ claim, rtc finding_step (raise project record by_ claim) f.

(** The automaton the type is meant to be: no edge from [Raised] to
    [Assigned], and none out of a terminal state. *)
Inductive finding_edge : FindingState → FindingState → Prop :=
| fe_reproduce : finding_edge Raised Reproduced
| fe_assign : finding_edge Reproduced Assigned
| fe_reassign : finding_edge Assigned Assigned
| fe_fix : finding_edge Assigned Fixed
| fe_withdraw s : finding_terminal s = false → finding_edge s Withdrawn.

(** What a reachable finding's fields say of its state. *)
Definition finding_inv (f : Finding) : Prop :=
  (fd_state f = Raised → fd_reproduction f = None)
  ∧ (fd_state f = Reproduced ∨ fd_state f = Assigned ∨ fd_state f = Fixed → is_Some (fd_reproduction f))
  ∧ (fd_state f = Assigned ∨ fd_state f = Fixed → is_Some (fd_assigned_to f))
  ∧ (fd_state f = Withdrawn ↔ is_Some (fd_withdrawn_reason f)).

(** ** Lemmas *)

Lemma finding_step_cases f f' :
  finding_step f f' ↔
  ((∃ g, finding_terminal (fd_state f) = false ∧ fd_reproduction f = None
         ∧ f' = fd_update f (Some g) Reproduced (fd_assigned_to f) (fd_withdrawn_reason f))
   ∨ (∃ to, (fd_state f = Reproduced ∨ fd_state f = Assigned)
         ∧ f' = fd_update f (fd_reproduction f) Assigned (Some to) (fd_withdrawn_reason f))
   ∨ (fd_state f = Assigned
         ∧ f' = fd_update f (fd_reproduction f) Fixed (fd_assigned_to f) (fd_withdrawn_reason f))
   ∨ (∃ reason, finding_terminal (fd_state f) = false
         ∧ f' = fd_update f (fd_reproduction f) Withdrawn (fd_assigned_to f) (Some reason))).
Proof.
  split.
  - intros [? ? g H|? ? to H|? ? H|? ? re H].
    + unfold attach_reproduction in H. step_in H. destruct (fd_reproduction f0); naive_solver.
    + unfold assign in H. step_in H; eauto 10.
    + unfold mark_fixed in H. step_in H. bool_prop. eauto 10.
    + unfold withdraw in H. step_in H. eauto 10.
  - intros [(g & Ht & Hr & ->)|[(to & Ht & ->)|[[Ht ->]|(re & Ht & ->)]]].
    + apply (fs_attach _ _ g). unfold attach_reproduction. by rewrite Ht, Hr.
    + apply (fs_assign _ _ to). unfold assign. by destruct Ht as [-> | ->].
    + apply fs_fixed. unfold mark_fixed. by rewrite bool_decide_eq_true_2.
    + apply (fs_withdraw _ _ re). unfold withdraw. by rewrite Ht.
Qed.

(** Case on which operation was accepted. *)
Ltac finding_cases H :=
  apply finding_step_cases in H as [(? & ? & ? & ->)|[(? & [?|?] & ->)|[[? ->]|(? & ? & ->)]]];
  cbn in *.

Lemma finding_inv_raise p r b c : finding_inv (raise p r b c).
Proof. unfold finding_inv; cbn. split_and!; naive_solver. Qed.

Lemma finding_inv_step f f' : finding_step f f' → finding_inv f → finding_inv f'.
Proof.
  unfold finding_inv. intros Hs Hi. finding_cases Hs; destruct (fd_state f); naive_solver.
Qed.

Lemma finding_reachable_inv f : finding_reachable f → finding_inv f.
Proof.
  intros (p & r & b & c & Hs). revert Hs. apply rtc_ind_r; eauto using finding_inv_raise, finding_inv_step.
Qed.

Lemma finding_step_edge f f' : finding_inv f → finding_step f f' → finding_edge (fd_state f) (fd_state f').
Proof.
  intros (_ & Hr & _) Hs. finding_cases Hs; try (by constructor).
  all: destruct (fd_state f); try done; try (by constructor); destruct Hr; naive_solver.
Qed.

Lemma finding_edge_step f s :
  finding_inv f → finding_edge (fd_state f) s → ∃ f', finding_step f f' ∧ fd_state f' = s.
Proof.
  intros (Hraised & _) He. setoid_rewrite finding_step_cases.
  remember (fd_state f) as st eqn:Hst. destruct He as [| | | |st Ht].
  - eexists; split; [left; exists "g"; eauto|done].
  - eexists; split; [right; left; exists "a"; eauto|done].
  - eexists; split; [right; left; exists "a"; eauto|done].
  - eexists; split; [right; right; left; eauto|done].
  - eexists; split; [right; right; right; exists "r"; eauto|done].
Qed.

(** What no operation may change: the reproduction once attached, and the
    identity, area and security mark for the whole life. *)
Lemma finding_step_frame f f' :
  finding_step f f' →
  (∀ g, fd_reproduction f = Some g → fd_reproduction f' = Some g)
  ∧ fd_security f' = fd_security f ∧ fd_area f' = fd_area f
  ∧ fd_record f' = fd_record f ∧ fd_claim f' = fd_claim f.
Proof. intros Hs. finding_cases Hs; naive_solver. Qed.

Lemma finding_steps_frame f f' :
  rtc finding_step f f' →
  (∀ g, fd_reproduction f = Some g → fd_reproduction f' = Some g)
  ∧ fd_security f' = fd_security f ∧ fd_area f' = fd_area f
  ∧ fd_record f' = fd_record f ∧ fd_claim f' = fd_claim f.
Proof.
  induction 1 as [|f f1 f2 Hs _ IH]; [naive_solver|].
  apply finding_step_frame in Hs. destruct_and!. split_and!; try congruence. naive_solver.
Qed.

(** The operations of a finding implement the automaton exactly: a finding
    reachable from [raise] satisfies its invariant (a reproduction from
    [Reproduced] on, an assignee from [Assigned] on, a reason exactly when
    withdrawn); each accepted operation follows an edge, keeps the invariant
    and the attached reproduction, security mark, area, record and claim, and
    stores what it was given; every edge has an operation that takes it, and
    a terminal state accepts none. In particular a raised finding is never
    assigned without a reproduction. (C23) *)
Theorem finding_refines_automaton (f : Finding) (Hf : finding_reachable f) :
  finding_inv f
  ∧ (∀ f', finding_step f f' → finding_edge (fd_state f) (fd_state f') ∧ finding_inv f'
       ∧ (∀ g, fd_reproduction f = Some g → fd_reproduction f' = Some g)
       ∧ fd_security f' = fd_security f ∧ fd_area f' = fd_area f ∧ fd_record f' = fd_record f ∧ fd_claim f' = fd_claim f)
  ∧ (∀ f' gate, attach_reproduction f gate = Ok f' → fd_reproduction f' = Some gate)
  ∧ (∀ f' to, assign f to = Ok f' → fd_assigned_to f' = Some to)
  ∧ (∀ f' reason, withdraw f reason = Ok f' → fd_withdrawn_reason f' = Some reason)
  ∧ (∀ s, finding_edge (fd_state f) s → ∃ f', finding_step f f' ∧ fd_state f' = s)
  ∧ (finding_terminal (fd_state f) = true → ∀ f', ~ finding_step f f').
Proof.
  apply finding_reachable_inv in Hf. split_and!; [done| | | | | |].
  - intros f' Hs. split; [by apply finding_step_edge|]. split; [by eapply finding_inv_step|]. by apply finding_step_frame.
  - unfold attach_reproduction. intros f' gate H. step_in H. by destruct (fd_reproduction f); simplify_eq.
  - unfold assign. intros f' to H. by step_in H.
  - unfold withdraw. intros f' reason H. by step_in H.
  - intros s He. by apply finding_edge_step.
  - intros Ht f' He%finding_step_edge; [|done]. revert Ht. destruct He; cbn; congruence.
Qed.

(** The reproduced finding of a raised one, in its state and with its gate *)
Lemma finding_refines_automaton_witness :
  ∃ f', attach_reproduction (raise "p" "r" "rev" "c") "g" = Ok f' ∧ finding_inv f' ∧ fd_state f' = Reproduced ∧ fd_reproduction f' = Some "g".
Proof.
  eexists. split; [reflexivity|].
  destruct (finding_refines_automaton (raise "p" "r" "rev" "c")) as (_ & Hstep & Hattach & _); [exists "p", "r", "rev", "c"; apply rtc_refl|].
  split; [by eapply Hstep, fs_attach|]. split; [reflexivity|]. by eapply Hattach.
Defined.

(** A finding that was assigned or fixed had its reproduction observed first,
    that reproduction is the one it keeps for ever, an assignee is recorded,
    and the security mark and the area never change. *)
Theorem finding_life (f f' : Finding) (Hf : finding_reachable f) (Hs : rtc finding_step f f') :
  (fd_state f = Assigned ∨ fd_state f = Fixed →
     is_Some (fd_assigned_to f) ∧ ∃ g, fd_reproduction f = Some g ∧ fd_reproduction f' = Some g)
  ∧ (fd_state f' = Withdrawn ↔ is_Some (fd_withdrawn_reason f'))
  ∧ fd_security f' = fd_security f ∧ fd_area f' = fd_area f ∧ fd_record f' = fd_record f.
Proof.
  assert (finding_reachable f') as Hf'.
  { destruct Hf as (p & r & b & c & ?). exists p, r, b, c. by transitivity f. }
  apply finding_steps_frame in Hs as (Hrep & ? & ? & ? & _).
  apply finding_reachable_inv in Hf as (_ & Hr & Ha & _), Hf' as (_ & _ & _ & Hw).
  split_and!; try done. intros Hst. split; [by apply Ha|].
  destruct Hr as [g Hg]; [naive_solver|]. eauto.
Qed.

(** A finding reproduced by gate ["g"] and assigned, then fixed. *)
Definition assigned_example : Finding :=
  match attach_reproduction (raise "p" "r" "rev" "c") "g" with
  | Ok f => match assign f "fixer" with Ok f' => f' | Err _ => f end
  | Err _ => raise "p" "r" "rev" "c"
  end.

Lemma finding_life_witness :
  fd_state assigned_example = Assigned
  ∧ ∃ f', mark_fixed assigned_example = Ok f' ∧ fd_reproduction f' = Some "g".
Proof.
  split; [reflexivity|]. eexists; split; [reflexivity|].
  edestruct (finding_life assigned_example) as [Hl _].
  - exists "p", "r", "rev", "c".
    eapply rtc_l; [by eapply (fs_attach _ _ "g")|].
    eapply rtc_l; [by eapply (fs_assign _ _ "fixer")|]. apply rtc_refl.
  - eapply rtc_once, fs_fixed. reflexivity.
  - destruct (Hl (or_introl eq_refl)) as (_ & g & Hg & Hg').
    exact (eq_trans Hg' (eq_sym Hg)).
Defined.
