(* ===== verification/Eff.v ===== *)
(** * Programs that call the outside world

    The gate engine calls stores, git and child processes. A [Prog] is such
    a program as a tree of calls: each call is an operation, and what
    follows is a function of the answer. Nothing is assumed of the answers,
    so a property of all the traces of a program holds whatever the stores
    answer and whoever writes to them between two calls. *)

From S2P Require Import Prelude.

Section Prog.
Context {Op : Type} {Resp : Op → Type}.

Inductive Prog (A : Type) : Type :=
| Ret (a : A)
| Do (o : Op) (k : Resp o → Prog A).
#[global] Arguments Ret {A} a.
#[global] Arguments Do {A} o k.

Fixpoint pbind {A B} (p : Prog A) (f : A → Prog B) : Prog B :=
  match p with
  | Ret a => f a
  | Do o k => Do o (fun r => pbind (k r) f)
  end.

Definition call (o : Op) : Prog (Resp o) := Do o Ret.

(** One call and its answer. *)
Definition Event : Type := { o : Op & Resp o }.
Definition event (o : Op) (r : Resp o) : Event := existT o r.

(** [runs p tr a]: [p] makes the calls of [tr], gets its answers, returns [a]. *)
Fixpoint runs {A} (p : Prog A) (tr : list Event) (a : A) : Prop :=
  match p with
  | Ret a' => tr = [] ∧ a = a'
  | Do o k => ∃ r tr', tr = event o r :: tr' ∧ runs (k r) tr' a
  end.

(** Every answer from a handler with a state of its own. *)
Fixpoint interp {A W} (h : ∀ o, W → Resp o * W) (p : Prog A) (w : W) : A * list Event * W :=
  match p with
  | Ret a => (a, [], w)
  | Do o k =>
      let '(r, w') := h o w in
      let '(a, tr, w'') := interp h (k r) w' in
      (a, event o r :: tr, w'')
  end.

(** A program whose result may be an error, composed as with [?]. *)
Definition rbind {A B E} (p : Prog (Result A E)) (f : A → Prog (Result B E)) : Prog (Result B E) :=
  pbind p (fun r => match r with Ok a => f a | Err e => Ret (Err e) end).

(** A [for] loop that collects its results and stops at the first error. *)
Fixpoint for_collect {A B E} (f : A → Prog (Result B E)) (l : list A) : Prog (Result (list B) E) :=
  match l with
  | [] => Ret (Ok [])
  | a :: l' => rbind (f a) (fun b => rbind (for_collect f l') (fun bs => Ret (Ok (b :: bs))))
  end.

Lemma runs_bind {A B} (p : Prog A) (f : A → Prog B) tr b :
  runs (pbind p f) tr b ↔ ∃ tr1 tr2 a, tr = tr1 ++ tr2 ∧ runs p tr1 a ∧ runs (f a) tr2 b.
Proof.
  revert tr. induction p as [a'|o k IH]; intros tr; cbn.
  - split.
    + intros H. exists [], tr, a'. done.
    + by intros (tr1 & tr2 & a & -> & [-> ->] & H).
  - split.
    + intros (r & tr' & -> & (tr1 & tr2 & a & -> & ? & ?)%IH).
      exists (event o r :: tr1), tr2, a. split_and!; eauto.
    + intros (tr1 & tr2 & a & -> & (r & tr' & -> & ?) & ?).
      exists r, (tr' ++ tr2). split; [done|]. apply IH. eauto 10.
Qed.

Lemma runs_call o tr r : runs (call o) tr r ↔ tr = [event o r].
Proof. cbn. split; [naive_solver|]. intros ->. eauto. Qed.

Lemma interp_runs {A W} (h : ∀ o, W → Resp o * W) (p : Prog A) w :
  runs p (interp h p w).1.2 (interp h p w).1.1.
Proof.
  revert w. induction p as [a|o k IH]; intros w; cbn; [done|].
  destruct (h o w) as [r w']. specialize (IH r w').
  destruct (interp h (k r) w') as [[a tr] w'']. cbn in *. eauto.
Qed.

(** Every event of every trace satisfies [P]. *)
Definition all_events {A} (P : Event → Prop) (p : Prog A) : Prop :=
  ∀ tr a, runs p tr a → Forall P tr.

Lemma all_events_ret {A} (P : Event → Prop) (a : A) : all_events P (Ret a).
Proof. intros tr a' [-> _]. constructor. Qed.

Lemma all_events_call P o : (∀ r, P (event o r)) → all_events P (call o).
Proof. intros H tr r ->%runs_call. repeat constructor. apply H. Qed.

Lemma all_events_bind {A B} P (p : Prog A) (f : A → Prog B) :
  all_events P p → (∀ a, all_events P (f a)) → all_events P (pbind p f).
Proof.
  intros Hp Hf tr b (tr1 & tr2 & a & -> & H1 & H2)%runs_bind.
  apply Forall_app. split; [by eapply Hp|by eapply Hf].
Qed.

Lemma all_events_rbind {A B E} P (p : Prog (Result A E)) (f : A → Prog (Result B E)) :
  all_events P p → (∀ a, all_events P (f a)) → all_events P (rbind p f).
Proof.
  intros Hp Hf. apply all_events_bind; [done|].
  intros [a|e]; [apply Hf|apply all_events_ret].
Qed.

Lemma all_events_collect {A B E} P (f : A → Prog (Result B E)) l :
  (∀ a, all_events P (f a)) → all_events P (for_collect f l).
Proof.
  intros Hf. induction l as [|a l IH]; cbn; [apply all_events_ret|].
  apply all_events_rbind; [apply Hf|]. intros b.
  apply all_events_rbind; [apply IH|]. intros. apply all_events_ret.
Qed.

(** A run of [rbind] either stops at the first part's error or goes on. *)
Lemma runs_rbind {A B E} (p : Prog (Result A E)) (f : A → Prog (Result B E)) tr res :
  runs (rbind p f) tr res ↔
  (∃ e, runs p tr (Err e) ∧ res = Err e)
  ∨ (∃ tr1 tr2 a, tr = tr1 ++ tr2 ∧ runs p tr1 (Ok a) ∧ runs (f a) tr2 res).
Proof.
  unfold rbind. rewrite runs_bind. split.
  - intros (tr1 & tr2 & [a|e] & -> & H1 & H2); [right; eauto 10|left].
    destruct H2 as [-> ->]. rewrite app_nil_r. eauto.
  - intros [(e & H & ->)|(tr1 & tr2 & a & -> & H1 & H2)].
    + exists tr, [], (Err e). rewrite app_nil_r. done.
    + exists tr1, tr2, (Ok a). done.
Qed.

(** A successful collection ran its body once per element, in order. *)
Lemma runs_collect_ok {A B E} (f : A → Prog (Result B E)) l tr bs :
  runs (for_collect f l) tr (Ok bs) →
  ∃ trs, tr = concat trs ∧ Forall2 (fun a '(t, b) => runs (f a) t (Ok b)) l (zip trs bs)
         ∧ length trs = length bs.
Proof.
  revert tr bs. induction l as [|a l IH]; intros tr bs; cbn.
  - intros [-> ?]; simplify_eq. exists []. done.
  - intros [(e & _ & ?)|(tr1 & tr2 & b & -> & H1 & H2)]%runs_rbind; [done|].
    apply runs_rbind in H2 as [(e & _ & ?)|(tr3 & tr4 & bs' & -> & H3 & [-> ?])]; [done|].
    simplify_eq. apply IH in H3 as (trs & -> & HF & Hl).
    exists (tr1 :: trs). cbn. rewrite app_nil_r. split_and!; [done| |by rewrite Hl].
    by constructor.
Qed.

Lemma runs_collect_length {A B E} (f : A → Prog (Result B E)) l tr bs :
  runs (for_collect f l) tr (Ok bs) → length l = length bs.
Proof.
  intros (trs & -> & HF & Hl)%runs_collect_ok. apply Forall2_length in HF.
  rewrite HF, length_zip_with. lia.
Qed.

(** What each run of the body establishes, and later events keep, holds of
    every element against the whole trace. *)
Lemma runs_collect_forall {A B E} (R : list Event → A → B → Prop) (f : A → Prog (Result B E)) l tr bs :
  (∀ t t' a b, t ⊆ t' → R t a b → R t' a b) →
  (∀ a t b, runs (f a) t (Ok b) → R t a b) →
  runs (for_collect f l) tr (Ok bs) → Forall2 (R tr) l bs.
Proof.
  intros Hm Hf (trs & -> & HF & Hl)%runs_collect_ok.
  assert (∀ T, concat trs ⊆ T → Forall2 (R T) l bs) as Hgen; [|by apply Hgen].
  revert l bs HF Hl. induction trs as [|t trs IH]; intros l [|b bs] HF Hl T HT; try done.
  - apply Forall2_nil_inv_r in HF as ->. constructor.
  - cbn in HF, HT. apply Forall2_cons_inv_r in HF as (a & l' & Ha & HF & ->).
    constructor; [|apply IH; [done|naive_solver|set_solver]].
    eapply Hm; [|by apply Hf]. set_solver.
Qed.
End Prog.

Notation "x <- p ;; k" := (pbind p (fun x => k))
  (at level 62, p at level 59, right associativity) : rust_scope.
Notation "x <-? p ;; k" := (rbind p (fun x => k))
  (at level 62, p at level 59, right associativity) : rust_scope.

Arguments Prog {Op} Resp A.
Arguments Event {Op} Resp.
#[global] Arguments runs : simpl never.
#[global] Arguments pbind : simpl never.
#[global] Arguments rbind : simpl never.
#[global] Arguments for_collect : simpl never.

(** ** Programs against a handler *)

Section Handled.
Context {Op : Type} {Resp : Op → Type} {W : Type} (h : ∀ o, W → Resp o * W).

(** Every world a program leaves on its way, its start and its end included:
    where a process that dies between two calls leaves things. *)
Fixpoint worlds {A} (p : Prog Resp A) (w : W) : list W :=
  match p with
  | Ret _ => [w]
  | Do o k => let '(r, w') := h o w in w :: worlds (k r) w'
  end.

Lemma interp_bind {A B} (p : Prog Resp A) (f : A → Prog Resp B) w :
  interp h (pbind p f) w =
  (let '(a, tr, w') := interp h p w in let '(b, tr', w'') := interp h (f a) w' in (b, tr ++ tr', w'')).
Proof.
  revert w. induction p as [a|o k IH]; intros w; [change (pbind (Ret a) f) with (f a); cbn; by destruct (interp h (f a) w) as [[]]|].
  change (pbind (Do o k) f) with (Do o (fun r => pbind (k r) f)). cbn. destruct (h o w) as [r w'].
  rewrite IH. destruct (interp h (k r) w') as [[a tr] w1]. by destruct (interp h (f a) w1) as [[b tr'] w2].
Qed.

Lemma worlds_bind {A B} (p : Prog Resp A) (f : A → Prog Resp B) w w' : w' ∈ worlds (pbind p f) w →
  w' ∈ worlds p w ∨ w' ∈ worlds (f (interp h p w).1.1) (interp h p w).2.
Proof.
  revert w. induction p as [a|o k IH]; intros w; [by right|].
  change (pbind (Do o k) f) with (Do o (fun r => pbind (k r) f)). cbn. destruct (h o w) as [r w1].
  intros [->|Hw]%elem_of_cons; [left; by left|]. apply IH in Hw.
  destruct (interp h (k r) w1) as [[a tr] w2]. cbn in *. destruct Hw; [left; by right|by right].
Qed.

Lemma interp_rbind {A B E} (p : Prog Resp (Result A E)) (f : A → Prog Resp (Result B E)) w :
  (interp h (rbind p f) w).1.1 = match (interp h p w).1.1 with Ok a => (interp h (f a) (interp h p w).2).1.1 | Err e => Err e end
  ∧ (interp h (rbind p f) w).2 = match (interp h p w).1.1 with Ok a => (interp h (f a) (interp h p w).2).2 | Err _ => (interp h p w).2 end.
Proof.
  unfold rbind. rewrite interp_bind. destruct (interp h p w) as [[[a|e] tr] w']; [|done]. cbn.
  by destruct (interp h (f a) w') as [[b tr'] w''].
Qed.

Lemma worlds_rbind {A B E} (p : Prog Resp (Result A E)) (f : A → Prog Resp (Result B E)) w w' : w' ∈ worlds (rbind p f) w →
  w' ∈ worlds p w ∨ w' = (interp h p w).2 ∨ ∃ a, (interp h p w).1.1 = Ok a ∧ w' ∈ worlds (f a) (interp h p w).2.
Proof.
  intros [Hw|Hw]%worlds_bind; [by left|right]. destruct (interp h p w).1.1 as [a|e]; [right; eauto|left].
  cbn in Hw. by apply list_elem_of_singleton in Hw.
Qed.

Lemma interp_in_worlds {A} (p : Prog Resp A) w : (interp h p w).2 ∈ worlds p w.
Proof.
  revert w. induction p as [a|o k IH]; intros w; cbn; [by left|]. destruct (h o w) as [r w1]. specialize (IH r w1).
  destruct (interp h (k r) w1) as [[a tr] w2]. by right.
Qed.

(** A program that only asks leaves the world as it is, and is told about it. *)
Lemma asks_only {A} (P : Event Resp → Prop) (p : Prog Resp A) w :
  (∀ o w, P (event o (h o w).1) → (h o w).2 = w) → all_events P p →
  (interp h p w).2 = w ∧ Forall (fun ev => projT2 ev = (h (projT1 ev) w).1) (interp h p w).1.2
  ∧ ∀ w', w' ∈ worlds p w → w' = w.
Proof.
  intros Hh. induction p as [a|o k IH]; intros Hp; cbn.
  { split_and!; [done|constructor|]. intros w' Hw. by apply list_elem_of_singleton in Hw. }
  assert (P (event o (h o w).1) ∧ all_events P (k (h o w).1)) as [H1 H2].
  { split.
    - destruct (h o w) as [r w'] eqn:E. cbn.
      assert (Forall P (event o r :: (interp h (k r) w).1.2)) as Hf
        by (apply (Hp _ (interp h (k r) w).1.1); exists r, (interp h (k r) w).1.2; split; [done|apply interp_runs]).
      by apply Forall_cons in Hf as [? _].
    - intros tr a Hr. assert (Forall P (event o (h o w).1 :: tr)) as Hf by (apply (Hp _ a); by exists (h o w).1, tr). by apply Forall_cons in Hf as [_ ?]. }
  specialize (Hh o w H1). destruct (h o w) as [r w1] eqn:E. cbn in *. subst w1.
  destruct (IH r H2) as (Hi&Hf&Hw). destruct (interp h (k r) w) as [[a tr] w2]. cbn in *. subst w2.
  split_and!; [done|by constructor; [cbn; rewrite E|]|]. intros w' [->|?]%elem_of_cons; auto.
Qed.
End Handled.
