(* ===== verification/Agent.v ===== *)
(** * Agents, roles and areas ([crates/core/src/agent.rs], the slug and
    summary rules of [state.rs])

    The registry's records and their validation. A role is one of the
    built-in ones or [custom:<slug>]; parsing its wire form normalises the
    legacy spellings, and is shown to be a retraction onto what printing
    writes. *)

From S2P Require Import Prelude RustStr Wire Model.

(** ** Slugs and summaries ([state.rs]) *)

Inductive StateError :=
| InvalidSlug (raw : string)
| InvalidRole (raw : string)
| InvalidSummary
| InvalidAddress (raw : string)
| InvalidMessageSubject
| InvalidMessageBody (bytes : N)
| ReplyRequiresParent.

#[global] Instance StateError_eq_dec : EqDecision StateError.
Proof. solve_decision. Defined.

Definition slug_byte (b : ascii) : bool :=
  is_ascii_lowercase b || is_ascii_digit b || (b == "-"%char) || (b == "_"%char).

(** [validate_slug]: lowercase, then [^[a-z][a-z0-9_-]{0,63}$]. *)
Definition validate_slug (raw : string) : Result string StateError :=
  let lower := to_ascii_lowercase raw in
  let bytes := chars lower in
  if (len bytes =? 0)%N || (64 <? len bytes)%N then Err (InvalidSlug raw)
  else match bytes with
       | b :: _ =>
           if negb (is_ascii_lowercase b) then Err (InvalidSlug raw)
           else if negb (forallb slug_byte bytes) then Err (InvalidSlug raw)
           else Ok lower
       | [] => Err (InvalidSlug raw)
       end.

Definition MAX_SUMMARY_CHARS : N := 240.

(** [chars().count()]: the bytes that do not continue a character. *)
Definition char_count (s : string) : N :=
  len (List.filter (fun b => negb (in_range 128 191 b)) (chars s)).

Definition carriage_return : ascii := ascii_of_N 13.

(** [validate_summary] *)
Definition validate_summary (s : string) : Result string StateError :=
  if contains_char newline s || contains_char carriage_return s then Err InvalidSummary
  else
    let trimmed := trim s in
    if is_empty_str trimmed || (MAX_SUMMARY_CHARS <? char_count trimmed)%N then Err InvalidSummary
    else Ok trimmed.

(** ** Areas *)

(** [AreaRecord] *)
Record AreaRecord := {
  ar_area_key : string;
  ar_name : string;
  ar_path : option string;
  ar_purpose : string;
  ar_updated_at : At;
  ar_by : string;
}.

(** [AreaRecord::is_virtual] *)
Definition is_virtual (a : AreaRecord) : bool := is_none (ar_path a).

(** [AreaRecord::new] *)
Definition AreaRecord_new (name : string) (path : option string) (purpose : string) (updated_at : At)
  (by_ : string) : Result AreaRecord StateError :=
  let? area_key := validate_slug (trim name) in
  let? purpose := validate_summary purpose in
  Ok {| ar_area_key := area_key; ar_name := trim name; ar_path := path; ar_purpose := purpose;
        ar_updated_at := updated_at; ar_by := trim by_ |}.

(** [AreaRecord::normalized] *)
Definition AreaRecord_normalized (a : AreaRecord) : Result AreaRecord StateError :=
  let raw_key := if is_blank (ar_area_key a) then trim (ar_name a) else trim (ar_area_key a) in
  let? area_key := validate_slug raw_key in
  let name := if is_blank (ar_name a) then area_key else trim (ar_name a) in
  let? purpose := validate_summary (ar_purpose a) in
  Ok {| ar_area_key := area_key; ar_name := name; ar_path := ar_path a; ar_purpose := purpose;
        ar_updated_at := ar_updated_at a; ar_by := trim (ar_by a) |}.

(** ** Roles *)

(** [AgentRole] *)
Inductive AgentRole :=
| Lead | Assistant | LabManager | UiDeveloper | WebDeveloper | MobileDeveloper
| SystemDeveloper | DataEngineer | Tester | Strategist | Journalist
| Custom (s : string).

#[global] Instance AgentRole_eq_dec : EqDecision AgentRole.
Proof. solve_decision. Defined.

(** The table of defaults that are accepted bare or after [custom:]. *)
Definition default_role (name : string) : option AgentRole :=
  if (name == "ui-developer") || (name == "ui_developer") then Some UiDeveloper
  else if (name == "web-developer") || (name == "web_developer") then Some WebDeveloper
  else if (name == "mobile-developer") || (name == "mobile_developer") then Some MobileDeveloper
  else if (name == "system-developer") || (name == "system_developer") then Some SystemDeveloper
  else if (name == "data-engineer") || (name == "data_engineer") then Some DataEngineer
  else if name == "tester" then Some Tester
  else if name == "strategist" then Some Strategist
  else if (name == "journalist") || (name == "scribe") then Some Journalist
  else None.

(** [AgentRole::from_wire] *)
Definition AgentRole_from_wire (s : string) : Result AgentRole StateError :=
  let lower := to_ascii_lowercase (trim s) in
  if lower == "lead" then Ok Lead
  else if lower == "assistant" then Ok Assistant
  else if (lower == "lab_manager") || (lower == "lab-manager") then Ok LabManager
  else
    let name := unwrap_or (strip_prefix "custom:" lower) lower in
    match default_role name with
    | Some role => Ok role
    | None =>
        match strip_prefix "custom:" lower with
        | Some slug => let? slug := validate_slug slug in Ok (Custom slug)
        | None => Err (InvalidRole s)
        end
    end.

(** [AgentRole::as_wire] *)
Definition AgentRole_as_wire (r : AgentRole) : string :=
  match r with
  | Lead => "lead"
  | Assistant => "assistant"
  | LabManager => "lab_manager"
  | UiDeveloper => "ui-developer"
  | WebDeveloper => "web-developer"
  | MobileDeveloper => "mobile-developer"
  | SystemDeveloper => "system-developer"
  | DataEngineer => "data-engineer"
  | Tester => "tester"
  | Strategist => "strategist"
  | Journalist => "journalist"
  | Custom s => "custom:" +:+ s
  end.

(** [deserialize_stored_role]: a stored bare slug is a custom role. *)
Definition deserialize_stored_role (raw : string) : Result AgentRole StateError :=
  match AgentRole_from_wire raw with
  | Ok r => Ok r
  | Err _ => let? slug := validate_slug raw in Ok (Custom slug)
  end.

(** [AgentStatus] *)
Inductive AgentStatus := Active | Retired.

#[global] Instance AgentStatus_eq_dec : EqDecision AgentStatus.
Proof. solve_decision. Defined.

Definition AgentStatus_as_wire (s : AgentStatus) : string :=
  match s with Active => "active" | Retired => "retired" end.

#[global] Program Instance AgentStatus_wire : WireNames AgentStatus := {
  wire_all := [Active; Retired]; as_wire := AgentStatus_as_wire }.
Solve All Obligations with wire_instance.

(** [AgentRecord] *)
Record AgentRecord := {
  ag_id : Iri;
  ag_name_key : string;
  ag_display_name : string;
  ag_email : string;
  ag_project : string;
  ag_role : AgentRole;
  ag_extra_areas : list string;
  ag_status : AgentStatus;
  ag_updated_at : At;
  ag_by : string;
}.

#[global] Instance AgentRecord_eq_dec : EqDecision AgentRecord.
Proof. solve_decision. Defined.

(** [AgentRecord::co_author_trailer] *)
Definition co_author_trailer (a : AgentRecord) : string :=
  "Co-authored-by: " +:+ ag_display_name a +:+ " <" +:+ ag_email a +:+ ">".

(** [AgentRecord::covers_area] *)
Definition covers_area (a : AgentRecord) (slug : string) : bool :=
  (ag_project a == slug) || existsb (fun x => x == slug) (ag_extra_areas a).

(** [reports_to] *)
Definition reports_to (agent : AgentRecord) (all_agents : list AgentRecord) : string :=
  match ag_role agent with
  | Lead | LabManager => "Owner"
  | _ =>
      match List.find (fun a => (ag_status a == Active) && (ag_project a == ag_project agent)
                                && (ag_role a == Lead)) all_agents with
      | Some lead => ag_display_name lead
      | None => "Owner"
      end
  end.

(** [validate_agent_identity]; the error texts are not modelled apart. *)
Inductive IdentityError :=
| BadName (e : StateError)
| NameMismatch (display name_key : string)
| EmailWithoutAt (email : string)
| EmailBadLocal (email : string).

Definition validate_agent_identity (display_name : string) (email : option string)
  : Result (string * string * string) IdentityError :=
  let display := trim display_name in
  let? name_key := map_err BadName (validate_slug display) in
  if to_ascii_lowercase display != name_key then Err (NameMismatch display name_key)
  else
    let? resolved_email :=
      match email with
      | Some raw =>
          let trimmed := trim raw in
          match split_once "@"%char trimmed with
          | None => Err (EmailWithoutAt trimmed)
          | Some (local, domain) =>
              if is_empty_str local || is_empty_str domain || any_byte is_ascii_uppercase local
              then Err (EmailBadLocal trimmed)
              else Ok (local +:+ "@" +:+ to_ascii_lowercase domain)
          end
      | None => Ok (name_key +:+ "@artificialhumanity.io")
      end in
    Ok (name_key, display, resolved_email).

(** [pr_policy::DEFAULT_OWNER_LOGIN] *)
Definition DEFAULT_OWNER_LOGIN : string := "lmcfarlin".

(** ** Lemmas *)

Lemma chars_lower s : chars (to_ascii_lowercase s) = map lower_byte (chars s).
Proof. induction s as [|c s IH]; [done|]. unfold to_ascii_lowercase, chars in *. cbn. by rewrite IH. Qed.

Lemma validate_slug_ok raw slug :
  validate_slug raw = Ok slug →
  slug = to_ascii_lowercase raw ∧ Forall (fun b => slug_byte b = true) (chars slug)
  ∧ (1 ≤ length (chars slug) ≤ 64)%nat.
Proof.
  unfold validate_slug. destruct (_ || _) eqn:Hl; [done|].
  destruct (chars (to_ascii_lowercase raw)) as [|b l] eqn:Hc; [done|].
  destruct (negb (is_ascii_lowercase b)); [done|].
  destruct (forallb slug_byte (b :: l)) eqn:Hf; [|done]. intros [= <-]. bool_prop.
  split; [done|]. rewrite Hc. split; [by apply Forall_forall, forallb_elem|].
  unfold len in *. cbn [length] in *. lia.
Qed.

(** Validation is idempotent: an accepted slug is its own normal form. *)
Lemma validate_slug_idem raw slug : validate_slug raw = Ok slug → validate_slug slug = Ok slug.
Proof.
  intros H. pose proof (validate_slug_ok _ _ H) as (-> & _).
  unfold validate_slug in *. rewrite to_ascii_lowercase_idem.
  destruct (_ || _); [done|]. destruct (chars _) as [|b l]; [done|].
  repeat (case_match; [done|]). done.
Qed.

Definition plain_byte (c : ascii) : bool := (code c <? 128)%N && negb (ws1 c).

Lemma slug_byte_plain b : slug_byte b = true → plain_byte b = true.
Proof.
  unfold slug_byte, plain_byte, ws1, is_ascii_lowercase, is_ascii_digit, in_range. intros H.
  assert (45 ≤ code b < 128)%N as Hb.
  { repeat (apply orb_true_iff in H as [H|H]); bool_prop; try lia; subst; split; vm_compute; congruence. }
  apply andb_true_iff. split; [apply N.ltb_lt; lia|]. apply negb_true_iff, orb_false_iff.
  split; [apply andb_false_iff; right; apply N.leb_gt; lia|apply N.eqb_neq; lia].
Qed.

Lemma strip_ws_plain l : Forall (fun b => plain_byte b = true) l → strip_ws l = l ∧ strip_ws_rev l = l.
Proof.
  assert (∀ c d, plain_byte c = true → ws2 c d = false ∧ ws2 d c = false) as Hw2.
  { intros c d [Hc%N.ltb_lt _]%andb_true_iff. unfold ws2.
    destruct (N.eqb_spec (code c) 194); [lia|]. split; [done|].
    destruct (N.eqb_spec (code c) 133); [lia|]. destruct (N.eqb_spec (code c) 160); [lia|].
    apply andb_false_r. }
  intros HF. destruct HF as [|c l Hc HF]; [done|]. cbn.
  pose proof Hc as [Hc' Hw%negb_true_iff]%andb_true_iff. apply N.ltb_lt in Hc'.
  rewrite Hw. destruct HF as [|d l Hd HF]; [done|].
  destruct (Hw2 c d Hc) as [-> ->]. destruct HF as [|e l He HF]; [done|].
  pose proof He as [He' _]%andb_true_iff. apply N.ltb_lt in He'. unfold ws3.
  repeat match goal with |- context [(code ?x =? ?k)%N] =>
    destruct (N.eqb_spec (code x) k); try lia end; cbn; try done.
  all: rewrite ?andb_false_r; done.
Qed.

Lemma trim_plain s : Forall (fun b => plain_byte b = true) (chars s) → trim s = s.
Proof.
  intros H. unfold trim. rewrite (proj1 (strip_ws_plain _ H)).
  rewrite (proj2 (strip_ws_plain (rev (chars s)) (Forall_rev H))), rev_involutive. apply str_chars.
Qed.

Lemma lower_app a b : to_ascii_lowercase (a +:+ b) = to_ascii_lowercase a +:+ to_ascii_lowercase b.
Proof.
  unfold to_ascii_lowercase. induction a as [|c a IH]; [done|].
  rewrite !str_app_cons. cbn. by rewrite str_app_cons, IH.
Qed.

Lemma validate_slug_lower slug : validate_slug slug = Ok slug → to_ascii_lowercase slug = slug.
Proof. intros (-> & _)%validate_slug_ok. apply to_ascii_lowercase_idem. Qed.

(** Parsing a custom role that is no default gives it back. *)
Lemma from_wire_custom slug :
  validate_slug slug = Ok slug → default_role slug = None →
  AgentRole_from_wire ("custom:" +:+ slug) = Ok (Custom slug).
Proof.
  intros Hs Hd. pose proof (validate_slug_ok _ _ Hs) as (_ & HF & _).
  unfold AgentRole_from_wire. rewrite trim_plain.
  - rewrite lower_app, (validate_slug_lower _ Hs).
    change (to_ascii_lowercase "custom:") with "custom:".
    rewrite strip_prefix_app. cbn [unwrap_or]. rewrite Hd, Hs. cbn.
    by rewrite !bool_decide_eq_false_2 by done.
  - rewrite chars_app. apply Forall_app. split; [by repeat constructor|].
    eapply Forall_impl; [exact HF|]. apply slug_byte_plain.
Qed.

Lemma default_role_parses name r : default_role name = Some r →
  AgentRole_from_wire (AgentRole_as_wire r) = Ok r ∧ ∀ s, r ≠ Custom s.
Proof. unfold default_role. intros H. step_in H; split; (reflexivity || done). Qed.

(** What parsing returns prints to a form that parses to it again. *)
Lemma from_wire_canonical s r :
  AgentRole_from_wire s = Ok r → AgentRole_from_wire (AgentRole_as_wire r) = Ok r.
Proof.
  unfold AgentRole_from_wire at 1. intros H.
  do 3 (match type of H with (if ?b then _ else _) = _ => destruct b; [injection H as <-; reflexivity|] end).
  destruct (default_role _) as [r'|] eqn:Hd.
  { injection H as <-. by destruct (default_role_parses _ _ Hd). }
  destruct (strip_prefix _ _) as [slug|] eqn:Hp; [|done].
  apply strip_prefix_spec in Hp. destruct (validate_slug slug) as [slug'|] eqn:Hs; simplify_eq/=.
  apply from_wire_custom; [by eapply validate_slug_idem|].
  apply validate_slug_ok in Hs as (-> & _).
  assert (to_ascii_lowercase slug = slug) as ->; [|done].
  apply (str_app_inj_l "custom:").
  change "custom:" with (to_ascii_lowercase "custom:") at 1.
  by rewrite <- lower_app, <- Hp, to_ascii_lowercase_idem.
Qed.

#[export] Hint Resolve validate_slug_idem : rust.

(** Roles survive the wire: every built-in role, and every custom role with a
    valid slug that is no default's name, parses back from what it prints;
    and whatever spelling was parsed, printing the result and parsing it
    again gives the same role, so parsing only ever normalises. *)
Theorem agent_role_roundtrip :
  (∀ r, (∀ s, r = Custom s → validate_slug s = Ok s ∧ default_role s = None) →
        AgentRole_from_wire (AgentRole_as_wire r) = Ok r)
  ∧ (∀ raw r, AgentRole_from_wire raw = Ok r → AgentRole_from_wire (AgentRole_as_wire r) = Ok r)
  ∧ (∀ r, AgentRole_from_wire (AgentRole_as_wire r) = Ok r →
          deserialize_stored_role (AgentRole_as_wire r) = Ok r).
Proof.
  split_and!.
  - intros r Hr. destruct r as [| | | | | | | | | | |s]; try reflexivity.
    destruct (Hr s eq_refl). by apply from_wire_custom.
  - apply from_wire_canonical.
  - intros r Hr. unfold deserialize_stored_role. by rewrite Hr.
Qed.
