(* ===== verification/Ledger.v ===== *)
(** * Ledger entries, decisions and the engine's errors

    [crates/core/src/log.rs] (gate runs), [decision.rs] (decisions and what a
    flush reports), the variants of [store.rs]'s [StoreError] that the engine
    tells apart, and [crates/exec/src/population.rs]'s [ExecError]. *)

From S2P Require Import Prelude RustStr Wire Model Faults Verdict Finding Agent.

(** A path is its components, as Rust compares paths; the root is ["/"]. *)
Abbreviation Path := (list string) (only parsing).

(** [Path::new]: empty and inner ["."] components vanish. *)
Definition path_of (s : string) : Path :=
  let parts := split_on (fun b => b == "/"%char) s in
  let keep := List.filter (fun p => negb (is_empty_str p) && (p != ".")) in
  match parts with
  | EmptyString :: (_ :: _) as rest => "/" :: keep rest
  | first :: rest => if first == "." then "." :: keep rest else keep parts
  | [] => []
  end.

(** A path as the string the system sees. *)
Definition path_str (p : Path) : string :=
  match p with
  | "/" :: rest => "/" +:+ join "/" rest
  | _ => join "/" p
  end.

(** [Path::strip_prefix] *)
Fixpoint path_strip (root p : Path) : option Path :=
  match root, p with
  | [], _ => Some p
  | a :: root', b :: p' => if a == b then path_strip root' p' else None
  | _ :: _, [] => None
  end.

(** [fl_core::MANIFEST_PATH] *)
Definition MANIFEST_PATH : Path := [".fl"; "manifest.json"].

(** [GateRun]: one execution of one gate. *)
Record GateRun := {
  gr_id : option Iri;
  gr_at : option At;
  gr_gate : GateId;
  gr_record : option RecordId;
  gr_commit : string;
  gr_verdict : Verdict;
  gr_population : N;
  gr_output_excerpt : option string;
  gr_duration_ms : N;
  gr_cost_usd_micros : N;
}.

#[global] Instance GateRun_eq_dec : EqDecision GateRun.
Proof. solve_decision. Defined.

(** [PathsTouched] *)
Inductive PathsTouched := Listed (paths : list string) | Counted (n : N).

#[global] Instance PathsTouched_eq_dec : EqDecision PathsTouched.
Proof. solve_decision. Defined.

(** [PathsTouched::count] *)
Definition paths_count (p : PathsTouched) : N := match p with Listed paths => len paths | Counted n => n end.

(** [Attempt]: one run of an agent. *)
Record Attempt := {
  at_id : option Iri;
  at_at : option At;
  at_project : ProjectId;
  at_record : RecordId;
  at_adapter : string;
  at_status : AttemptStatus;
  at_duration_ms : N;
  at_tokens_in : N;
  at_tokens_out : N;
  at_cost_usd_micros : N;
  at_paths_touched : PathsTouched;
  at_output_excerpt : option string;
}.

#[global] Instance Attempt_eq_dec : EqDecision Attempt.
Proof. solve_decision. Defined.

(** The detail of an error, on a copy in a repository that is not private *)
Definition WITHHELD_ERROR_DETAIL : string :=
  "the gate errored; its detail is withheld because the repository is not private".

(** [TransitionOutcome] *)
Record TransitionOutcome := { to_transition : string; to_passed : bool }.

(** [Outcome] *)
Inductive Outcome :=
| OMove (from to : State) (transitions : list TransitionOutcome) (allowed : bool)
| OCheck (transition : TransitionOutcome)
| OReproduce (gate : GateId) (accepted : bool)
| OVerify (reproduction : GateId) (reproduction_passed : bool) (regressions : list GateId) (closed : bool)
| OAttempt (status : AttemptStatus).

(** [DecisionKind] *)
Inductive DecisionKind := DMove | DCheck | DReproduce | DVerify | DAttempt.

#[global] Instance DecisionKind_eq_dec : EqDecision DecisionKind.
Proof. solve_decision. Defined.

Definition DecisionKind_as_wire (k : DecisionKind) : string :=
  match k with
  | DMove => "move" | DCheck => "check" | DReproduce => "reproduce" | DVerify => "verify"
  | DAttempt => "attempt"
  end.

#[global] Program Instance DecisionKind_wire : WireNames DecisionKind := {
  wire_all := [DMove; DCheck; DReproduce; DVerify; DAttempt]; as_wire := DecisionKind_as_wire }.
Solve All Obligations with wire_instance.

(** [Decision] *)
Record Decision := {
  dc_id : Iri;
  dc_at : At;
  dc_record : RecordId;
  dc_finding : option FindingId;
  dc_outcome : Outcome;
  dc_rests_on : list Iri;
}.

(** [Decision::kind] *)
Definition decision_kind (d : Decision) : DecisionKind :=
  match dc_outcome d with
  | OMove _ _ _ _ => DMove
  | OCheck _ => DCheck
  | OReproduce _ _ => DReproduce
  | OVerify _ _ _ _ => DVerify
  | OAttempt _ => DAttempt
  end.

(** [LeftLocal] and [Flushed] *)
Inductive LeftLocal :=
| NoCutover
| OtherRepository (entry : Iri) (record : RecordId).

Record Flushed := { fl_commit : option string; fl_left_local : list LeftLocal }.

(** [Flushed::NOTHING] *)
Definition flushed_nothing : Flushed := {| fl_commit := None; fl_left_local := [] |}.

(** [StoreError]. The three [transparent] variants wrap a fault of its own
    module ([Faults]). *)
Inductive StoreError :=
| SNoSuchGate (id : GateId)
| SNoSuchRecord (id : RecordId)
| SNoSuchFinding (id : FindingId)
| SNotOwned (id : Iri) (searched : list string)
| SWrongKind (id : Iri) (expected found : Kind)
| SAlreadyExists (id : Iri)
| SImported (id : Iri) (action : string)
| SBackend (message : string)
| SProviderValidation (message : string)
| SUndelivered (seq : N) (cause : StoreError)
| SRelayed (message : string)
| SUnreachable (store cause : string)
| SFormatVersion (found : option N) (oldest newest : N)
| SContainerFormat (store : string) (found engine unknown_incompat newest : N)
| SDecode (message : string)
| SDangling (from : string) (to : Iri)
| SDeleted (id : Iri)
| SDiverged (id : Iri) (detail : string)
| SConflict (id : Iri) (detail : string)
| STampered (id : Iri) (detail : string)
| SLedgerRootChanged (node_id held found : string)
| SCutoverChanged (node_id : string) (held found : Iri)
| SNotAnFlItem (id : Iri) (what : string)
| SMoved (id : Iri) (to : string)
| SRateLimited (reset : string)
| SRepositoryReplaced (name bound found : string)
| SCredential (message : string)
| SSecurityNotPrivate (repo visibility : string)
| SLedger (fault : LedgerFault)
| SRouting (fault : RoutingFault)
| SEscalating (id : Iri) (to_finish : string)
| SEscalated (from to : Iri)
| SEscalation (fault : EscalationFault)
| SRestsOnLocalEntry (decision entry : Iri)
| SContended (store : string) (tries : N)
| SAgentCollision (name_key existing_id : string) (status : AgentStatus)
| SLeadTaken (project lead_name lead_id : string)
| SNoSuchArea (slug : string)
| SNoSuchAgent (name : string)
| SNoSuchState (id : string)
| SStateConflict (entry_id local_head remote_head : string)
| SSensitiveDisclosure (id : string)
| SInvalidState (message : string)
| SMessageNotFound (id : string)
| SWireMessageTampered (id detail : string)
| SNoSuchWorkflow (id : string)
| SNoSuchWorkflowRun (id : string)
| SInvalidWorkflow (message : string).

(** [format_version_message] *)
Definition format_version_message (found : option N) (oldest newest : N) : string :=
  match found with
  | Some v =>
      if (newest <? v)%N
      then "the store holds format " +:+ pretty v +:+
           ", which a newer fl wrote, and this version of fl reads formats " +:+ pretty oldest +:+ " to " +:+
           pretty newest +:+ ". Upgrade fl to open it: nothing is wrong with the store."
      else "the store holds format " +:+ pretty v +:+ ", and this version of fl reads formats " +:+ pretty oldest +:+
           " to " +:+ pretty newest +:+
           ". There is no migration: start a new store, or keep using the version of fl that wrote this one."
  | None =>
      "the store holds format none (written before format versioning), and this version of fl reads formats " +:+
      pretty oldest +:+ " to " +:+ pretty newest +:+
      ". There is no migration: start a new store, or keep using the version of fl that wrote this one."
  end.

(** [{:#x}] *)
Definition hex_digit (n : N) : ascii := ascii_of_N (if (n <? 10)%N then 48 + n else 87 + n)%N.
Fixpoint hex_digits (fuel : nat) (n : N) (acc : string) : string :=
  match fuel with
  | O => acc
  | S fuel' =>
      let acc' := String (hex_digit (n mod 16)%N) acc in
      if (n <? 16)%N then acc' else hex_digits fuel' (n / 16)%N acc'
  end.
Definition hex (n : N) : string := "0x" +:+ hex_digits (S (N.to_nat (N.size n))) n EmptyString.

(** [container_format_message] *)
Definition container_format_message (store : string) (found engine unknown_incompat newest : N) : string :=
  (if is_empty_str store then "this FerroStore file" else "the FerroStore file " +:+ store) +:+
  " uses container format " +:+ pretty found +:+
  (if (engine =? 0)%N then EmptyString else ", engine " +:+ pretty engine) +:+
  (if (unknown_incompat =? 0)%N then EmptyString else ", feature bits " +:+ hex unknown_incompat) +:+
  ", which a newer fl wrote; this version of fl reads container formats 1 to " +:+ pretty newest +:+
  " with engine 0 and no feature bits. Upgrade fl to open it: nothing is wrong with the store.".

(** [Display for StoreError] *)
Fixpoint store_display (e : StoreError) : string :=
  match e with
  | SNoSuchGate id => "no such gate: " +:+ id
  | SNoSuchRecord id => "no such record: " +:+ id
  | SNoSuchFinding id => "no such finding: " +:+ id
  | SNotOwned id searched =>
      "no store holds " +:+ id +:+ " (" +:+
      (if (len searched =? 0)%N
       then "no store exists yet, so there was nothing to search"
       else "searched: " +:+ join ", " searched) +:+ ")"
  | SWrongKind id expected found => id +:+ " is a " +:+ as_wire found +:+ " in this store, not a " +:+
      as_wire expected +:+ ", so it cannot be used where a " +:+ as_wire expected +:+ " is needed"
  | SAlreadyExists id => id +:+ " already exists; an insert never overwrites"
  | SImported id action => id +:+ "'s project was imported from a manifest, so this store cannot " +:+ action +:+
      " it. Change it in the store that authors the project, run `fl manifest export` there, commit, then run `fl manifest import` here."
  | SBackend m => "backend failure: " +:+ m
  | SProviderValidation m | SRelayed m => m
  | SLedger f => ledger_fault_display f
  | SRouting f => routing_fault_display f
  | SEscalation f => escalation_fault_display f
  | SUndelivered seq cause => "committed at seq " +:+ pretty seq +:+
      " (durable), not yet delivered to the sync adapter: " +:+ store_display cause
  | SUnreachable store cause => "the store at " +:+ store +:+ " could not be opened: " +:+ cause
  | SFormatVersion found oldest newest => format_version_message found oldest newest
  | SContainerFormat store found engine incompat newest => container_format_message store found engine incompat newest
  | SDecode m => "a stored record could not be read: " +:+ m +:+
      ". Two things produce this and the message cannot tell them apart. Either the store was written by a version of this tool whose wire format has since changed — there is no migration, so start a new store or keep using the version that wrote this one — or the stored bytes are damaged, in which case restore the file from a backup."
  | SDangling from to => from +:+ " refers to " +:+ to +:+
      ", which is dangling: the store holds that id, but not as this kind of item"
  | SDeleted id => id +:+
      " was deleted where it was held, so nothing can be read or written through it. If it should still exist, raise it again: fl keeps no copy of it."
  | SDiverged id detail => id +:+ " is diverged: " +:+ detail +:+ ". Run `fl github repair " +:+ id +:+
      " --by <name>` to rewrite its labels and status from fl's record — or, if the issue was never fl's, remove its fl labels."
  | SConflict id detail => id +:+ " was changed by another actor while fl wrote it: " +:+ detail +:+
      ". Read it again, check it, and retry."
  | STampered id detail => id +:+ " is recorded differently on this machine and in the shared ledger: " +:+ detail +:+
      ". An entry never changes once it is written, so one copy was altered afterwards, and fl uses neither. Find out who changed it before trusting either copy."
  | SLedgerRootChanged node_id held found => "the GitHub ledger of repository node " +:+ node_id +:+
      " is anchored at commit " +:+ held +:+ ", and this names " +:+ found +:+
      ". A ledger's first commit never changes: a different one means the ledger was deleted and created again, or the manifest was edited. Find out which before trusting either."
  | SCutoverChanged node_id held found => "the GitHub ledger of repository node " +:+ node_id +:+
      " was switched on at " +:+ held +:+ ", and this names " +:+ found +:+
      ". The cut-over never moves: entries between the two would never be published. Keep the recorded one."
  | SNotAnFlItem id what => id +:+ " is " +:+ what +:+
      ", not an item fl created, so fl neither reads nor changes it. Name an fl record or finding instead."
  | SMoved id to => id +:+ " was moved to " +:+ to +:+
      ", outside the repository this tracker binds. Bind that repository, or raise the item again here."
  | SRateLimited reset => "GitHub's rate limit is spent until " +:+ reset +:+ ". Retry after that time."
  | SRepositoryReplaced name bound found => "`" +:+ name +:+ "` now reaches a different repository (node " +:+ found +:+
      ") from the one this tracker is bound to (node " +:+ bound +:+
      "). Correct the `github` binding in config.toml; fl refuses every read and write until then."
  | SCredential m => "no usable GitHub credential: " +:+ m
  | SSecurityNotPrivate repo visibility => "refused: a security finding cannot be written to " +:+ repo +:+
      ", whose visibility is `" +:+ visibility +:+ "`. Use a local tracker for it, or bind a private repository."
  | SEscalating id to_finish => id +:+
      " is marked escalating, so this store refuses to change it. Run `" +:+ to_finish +:+
      "` to finish the escalation, or `" +:+ to_finish +:+ " --abandon` to stop it"
  | SEscalated from to => from +:+ " was escalated to GitHub and is now " +:+ to +:+
      ". Read and change it there: this store keeps only its tombstone"
  | SRestsOnLocalEntry decision entry => "decision " +:+ decision +:+ " rests on " +:+ entry +:+
      ", which is neither being published nor published. A run tied to no record, one recorded before the GitHub ledger was switched on, or one tied to another repository's record stays local, so a decision cannot rest on it. Nothing was published."
  | SContended store tries => store +:+
      " was appended to by someone else before each of fl's " +:+ pretty tries +:+
      " tries could land, so fl's own append did not. Nothing was lost; retry"
  | SAgentCollision name_key existing_id status => "agent `" +:+ name_key +:+ "` is already registered as " +:+
      existing_id +:+ " (status: " +:+ as_wire status +:+
      "); confirm with the owner whether you are resuming/replacing that agent before passing `--replace`"
  | SLeadTaken project lead_name lead_id => "project `" +:+ project +:+ "` already has an active lead (`" +:+
      lead_name +:+ "`, " +:+ lead_id +:+ "); confirm with the owner before passing `--replace`"
  | SNoSuchArea slug => "no such area `" +:+ slug +:+
      "` in registry (pass `--create-area` or run `fl agent area set` first)"
  | SNoSuchAgent name => "no such agent: " +:+ name
  | SNoSuchState id => "no such state entry: " +:+ id
  | SStateConflict entry_id local_head remote_head => "state entry " +:+ entry_id +:+
      " has an unresolved conflict between local revision " +:+ local_head +:+ " and remote revision " +:+
      remote_head +:+ "; run `fl state resolve " +:+ entry_id +:+ " --keep <revision-id> --by <author>` first"
  | SSensitiveDisclosure id => "refused: state entry " +:+ id +:+
      " carries sensitive history and cannot be synced to a non-private state target (`private = true` is required in config.toml)"
  | SInvalidState m => "invalid state operation: " +:+ m
  | SMessageNotFound id => "no such wire message: " +:+ id
  | SWireMessageTampered id detail => "wire message " +:+ id +:+
      " is recorded differently on this machine and in the incoming batch: " +:+ detail +:+
      ". A wire message never changes once sent."
  | SNoSuchWorkflow id => "no such workflow: " +:+ id
  | SNoSuchWorkflowRun id => "no such workflow run: " +:+ id
  | SInvalidWorkflow m => "invalid workflow operation: " +:+ m
  end.

(** [StoreError::is_transient] *)
Definition is_transient (e : StoreError) : bool :=
  match e with SUnreachable _ _ | SRateLimited _ | SContended _ _ => true | _ => false end.

(** [as_clause]: without one final period. *)
Definition as_clause (text : string) : string :=
  match strip_suffix "." text with Some clause => clause | None => text end.

(** [follow]: a stored reference that names nothing of its kind dangles. *)
Definition follow {T} (from : string) (to : Iri) (got : Result (option T) StoreError)
  : Result T StoreError :=
  match got with
  | Ok (Some t) => Ok t
  | Ok None => Err (SDangling from to)
  | Err e => Err e
  end.

(** [ExecError] *)
Inductive ExecError :=
| EBadSelector (m : string)
| EWalk (where_ m : string)
| EGit (m : string)
| EStore (m : string)
| EUnpublished (cause : string)
| EPublishRefused (cause : string)
| EEscalation (m : string)
| EStaleMove (m : string)
| ESpawn (program m : string)
| EPopulationCommand (program code_ stderr : string)
| ETimeout (program : string) (secs : N).

(** [Display for ExecError] *)
Definition exec_display (e : ExecError) : string :=
  match e with
  | EBadSelector m => "selector is not valid: " +:+ m
  | EWalk w m => "walking " +:+ w +:+ " failed: " +:+ m
  | EGit m => "git failed: " +:+ m
  | EStore m | EEscalation m | EStaleMove m => m
  | EUnpublished c =>
      "refused: the evidence for this decision could not be published to the shared ledger, so nothing changed: "
      +:+ c +:+
      ". The runs are kept in the local store, and the next decision that reaches the ledger publishes them"
  | EPublishRefused c =>
      "refused: the evidence for this decision could not be published to the shared ledger, so nothing changed: "
      +:+ c +:+
      ". The runs are kept in the local store; fix that cause first, then decide again"
  | ESpawn p m => "command `" +:+ p +:+ "` could not be run: " +:+ m
  | EPopulationCommand p c s => "population command `" +:+ p +:+ "` exited " +:+ c +:+
      ", so the population is unknown, not empty: " +:+ s
  | ETimeout p n => "command `" +:+ p +:+ "` exceeded its " +:+ pretty n +:+ "s timeout"
  end.

(** [refused_publish]: how a failed flush refuses its decision. *)
Definition refused_publish (e : StoreError) : ExecError :=
  let cause := as_clause (store_display e) in
  if is_transient e then EUnpublished cause else EPublishRefused cause.

(** [store_err] *)
Definition store_err (e : StoreError) : ExecError := EStore (store_display e).
