(* ===== verification/Routing.v ===== *)
(** * The routing map ([routing.rs])

    A project's areas, the tier each one routes a new item to, and whether it
    is sensitive. The map is a list in a fixed order, each area once. *)

From Stdlib Require Import OrderedTypeEx.
From S2P Require Import Prelude RustStr Model Faults Verdict Finding Agent Ledger.

Definition AREA_MAX : N := 32.

Definition area_name (name : string) : Result unit string :=
  let ok := all_bytes (fun b => is_ascii_lowercase b || is_ascii_digit b || (b == "-"%char)) name in
  if is_empty_str name || (AREA_MAX <? str_len name)%N || negb ok
  then Err ("`" +:+ name +:+ "` is not an area name: 1 to " +:+ pretty AREA_MAX +:+ " of lowercase letters, digits and `-`")
  else Ok tt.

Record AreaRoute := { ro_area : string; ro_tier : Tier; ro_sensitive : bool }.

#[global] Instance AreaRoute_eq_dec : EqDecision AreaRoute.
Proof. solve_decision. Defined.

Record RoutingMap := { rm_areas : list AreaRoute }.

(** [RoutingMap::starting] *)
Definition starting : RoutingMap := {| rm_areas :=
  [{| ro_area := "code"; ro_tier := Local; ro_sensitive := false |};
   {| ro_area := "design"; ro_tier := Github; ro_sensitive := false |};
   {| ro_area := "product"; ro_tier := Github; ro_sensitive := false |};
   {| ro_area := "security"; ro_tier := Github; ro_sensitive := true |};
   {| ro_area := "tests"; ro_tier := Local; ro_sensitive := false |}] |}.

(** [RoutingMap::route], [RoutingMap::declared] *)
Definition map_route (m : RoutingMap) (area : string) : option AreaRoute :=
  List.find (fun a => ro_area a == area) (rm_areas m).

Definition declared (m : RoutingMap) : list string := map ro_area (rm_areas m).

(** [RoutingMap::with], [RoutingMap::without] *)
Definition with_route (m : RoutingMap) (area : string) (tier : Tier) (sensitive : bool) : RoutingMap :=
  let areas := List.filter (fun a => ro_area a != area) (rm_areas m) in
  {| rm_areas := sort_by (fun a b => str_leb (ro_area a) (ro_area b))
       (areas ++ [{| ro_area := area; ro_tier := tier; ro_sensitive := sensitive |}]) |}.

Definition without (m : RoutingMap) (area : string) : RoutingMap :=
  {| rm_areas := List.filter (fun a => ro_area a != area) (rm_areas m) |}.

(** [windows(2)] *)
Fixpoint pairs {A} (l : list A) : list (A * A) :=
  match l with
  | a :: (b :: _) as rest => (a, b) :: pairs rest
  | _ => []
  end.

(** [RoutingMap::check] *)
Definition check_map (m : RoutingMap) : Result unit string :=
  let? _ := for_each (fun a => area_name (ro_area a)) (rm_areas m) in
  for_each (fun pair =>
    if str_leb (ro_area pair.2) (ro_area pair.1)
    then Err ("its areas are not each listed once in order: `" +:+ ro_area pair.1 +:+ "` then `" +:+ ro_area pair.2 +:+ "`")
    else Ok tt) (pairs (rm_areas m)).

Definition after_set (current : option RoutingMap) (area : string) (tier : Tier) (sensitive : option bool) : RoutingMap * bool :=
  let '(base, first) := match current with Some m => (m, false) | None => (starting, true) end in
  let sensitive := match sensitive with Some s => s | None => is_some_and (map_route base area) ro_sensitive end in
  (with_route base area tier sensitive, first).

(** [ForeignRecord] *)
Record ForeignRecord := { fr_id : RecordId; fr_title : string; fr_tier : Tier }.

Definition check_foreign_for_local (r : ForeignRecord) (held_here : bool) : Result unit StoreError :=
  if fr_tier r == Local then
    Err (SBackend (fr_id r +:+
      " is a record in the local tier, so a finding about it is raised with `add_finding`, which checks it there"))
  else if held_here then
    Err (SBackend (fr_id r +:+ " is held by this store, so a finding about it is raised with `add_finding`, which checks it here"))
  else Ok tt.

(** ** Maps in order *)

Definition before (a b : AreaRoute) : Prop := String_as_OT.lt (ro_area a) (ro_area b).

(** Every name an area name, in order, each once *)
Definition map_wf (m : RoutingMap) : Prop :=
  Forall (fun a => area_name (ro_area a) = Ok tt) (rm_areas m) ∧ StronglySorted before (rm_areas m).

Lemma str_leb_not_lt a b : str_leb a b = false ↔ String_as_OT.lt b a.
Proof.
  split; [apply str_leb_false|]. intros Hl. destruct (str_leb a b) eqn:E; [|done].
  apply str_leb_alt in E as [->|E]; [by apply str_lt_irrefl in Hl|]. by apply (String_as_OT.lt_trans _ _ _ Hl), str_lt_irrefl in E.
Qed.

Lemma before_trans : Transitive before.
Proof. intros a b c. apply String_as_OT.lt_trans. Qed.

Lemma pairs_sorted {A} (R : A → A → Prop) (l : list A) : Transitive R → StronglySorted R l ↔ Forall (fun p => R p.1 p.2) (pairs l).
Proof.
  intros HR. induction l as [|a [|b l] IH]; [split; constructor|split; repeat constructor|].
  split.
  - intros [Hs Ha]%StronglySorted_inv. constructor; [by apply Forall_inv in Ha|by apply IH].
  - intros [Hab Hl]%Forall_cons. apply IH in Hl. constructor; [done|]. constructor; [done|].
    apply StronglySorted_inv in Hl as [_ Hb]. eapply Forall_impl; [exact Hb|]. intros c. by apply HR.
Qed.

Lemma check_map_spec m : check_map m = Ok tt ↔ map_wf m.
Proof.
  unfold check_map, map_wf. rewrite (pairs_sorted before) by apply before_trans. split.
  - intros ([]&H1&H2)%result_bind_ok. rewrite for_each_ok in H1. rewrite for_each_ok in H2. rewrite !Forall_forall. split; [done|].
    intros p Hp. specialize (H2 p Hp). destruct (str_leb _ _) eqn:E; [done|]. by apply str_leb_not_lt.
  - intros [H1 H2]. rewrite Forall_forall in H1. rewrite Forall_forall in H2. rewrite (proj2 (for_each_ok _ _) H1). cbn. apply for_each_ok.
    intros p Hp. by rewrite (proj2 (str_leb_not_lt _ _) (H2 p Hp)).
Qed.

Lemma sorted_filter {A} (R : A → A → Prop) (p : A → bool) l : StronglySorted R l → StronglySorted R (List.filter p l).
Proof.
  induction 1 as [|a l Hl IH Ha]; cbn; [constructor|]. destruct (p a); [|done]. constructor; [done|].
  rewrite Forall_forall in *. intros x [Hx _]%filter_elem. by apply Ha.
Qed.

Lemma without_wf m area : map_wf m → map_wf (without m area).
Proof. intros [H1 H2]. split; [|by apply sorted_filter]. rewrite Forall_forall in *. intros a [Ha _]%filter_elem. by apply H1. Qed.

Lemma distinct_sorted (l : list AreaRoute) :
  StronglySorted (fun a b => str_leb (ro_area a) (ro_area b)) l → NoDup (map ro_area l) → StronglySorted before l.
Proof.
  induction 1 as [|a l Hl IH Ha]; cbn; [constructor|]. intros [Hn Hl']%NoDup_cons. constructor; [by apply IH|].
  rewrite Forall_forall in *. intros b Hb. apply str_leb_lt; [by apply Is_true_true, Ha|]. intros E. apply Hn. rewrite E. by apply list_elem_of_fmap_2.
Qed.

Lemma before_NoDup l : StronglySorted before l → NoDup (map ro_area l).
Proof.
  induction 1 as [|a l Hl IH Ha]; cbn; constructor; [|done]. intros (b&E&Hb)%list_elem_of_fmap. rewrite Forall_forall in Ha.
  apply Ha in Hb. unfold before in Hb. rewrite <- E in Hb. by apply str_lt_irrefl in Hb.
Qed.

Lemma with_wf m area tier sensitive : map_wf m → area_name area = Ok tt → map_wf (with_route m area tier sensitive).
Proof.
  intros [H1 H2] Ha. split.
  - rewrite Forall_forall in *. intros a Hin. apply sort_by_elem, elem_of_app in Hin as [[Hin _]%filter_elem|Hin%list_elem_of_singleton]; [by apply H1|by subst a].
  - apply distinct_sorted.
    + apply (sort_by_sorted (fun a b => str_leb (ro_area a) (ro_area b))); intros; [apply str_leb_total|by eapply str_leb_trans].
    + unfold with_route. cbn [rm_areas]. change (map ro_area ?l) with (ro_area <$> l). rewrite sort_by_perm, fmap_app. cbn.
      apply NoDup_app. split_and!; [|intros x (a&->&[_ Hx]%filter_elem)%list_elem_of_fmap Hin%list_elem_of_singleton|apply NoDup_singleton].
      * apply before_NoDup. by apply sorted_filter.
      * rewrite Hin in Hx. by rewrite bool_decide_eq_true_2 in Hx.
Qed.

Lemma map_route_in m area r : map_wf m → map_route m area = Some r ↔ r ∈ rm_areas m ∧ ro_area r = area.
Proof.
  intros [_ Hs%before_NoDup]. unfold map_route. split.
  - intros [Hin E]%find_elem. by apply bool_decide_eq_true in E.
  - intros [Hin <-]. destruct (List.find _ _) as [r'|] eqn:E.
    + apply find_elem in E as [Hin' E]. apply bool_decide_eq_true in E. f_equal. by eapply NoDup_fmap_elem.
    + apply (find_none _ _ r) in E; [|done]. cbn in E. by rewrite bool_decide_eq_true_2 in E.
Qed.

(** Setting an area keeps a map in order and changes that area only, to the
    tier given; the sensitivity is the one given or, when none is, what the area
    had: a set that only moves a tier never makes a sensitive area public. A
    check accepts exactly the maps in order, and removing an area keeps one. *)
Theorem after_set_exact current area tier sensitive :
  is_none_or current (fun m => is_ok (check_map m)) = true → area_name area = Ok tt →
  let base := unwrap_or current starting in
  let '(m, first) := after_set current area tier sensitive in
  check_map m = Ok tt ∧ first = is_none current
  ∧ map_route m area = Some {| ro_area := area; ro_tier := tier;
      ro_sensitive := unwrap_or sensitive (is_some_and (map_route base area) ro_sensitive) |}
  ∧ (∀ other, other ≠ area → map_route m other = map_route base other)
  ∧ check_map (without m area) = Ok tt ∧ map_route (without m area) area = None.
Proof.
  intros Hc Ha. set (base := unwrap_or current starting). cbn zeta.
  assert (map_wf base) as Hw.
  { destruct current as [m|]; cbn in Hc; [|by apply check_map_spec; vm_compute].
    apply is_ok_spec in Hc as [[] Hc]. by apply check_map_spec. }
  assert (after_set current area tier sensitive =
    (with_route base area tier (unwrap_or sensitive (is_some_and (map_route base area) ro_sensitive)), is_none current)) as ->.
  { unfold after_set, base. by destruct current, sensitive. }
  generalize (unwrap_or sensitive (is_some_and (map_route base area) ro_sensitive)). intros s.
  pose proof (with_wf base area tier s Hw Ha) as Hw'. split_and!.
  - by apply check_map_spec.
  - done.
  - apply map_route_in; [done|]. split; [|done]. apply sort_by_elem, elem_of_app. right. by left.
  - intros other Hne. apply option_eq. intros r. rewrite !map_route_in by done. cbn. rewrite sort_by_elem, elem_of_app, filter_elem, list_elem_of_singleton.
    split; [intros [[[? _]| ->] <-]; done|]. intros [Hr <-]. split; [left|done]. by rewrite bool_decide_eq_false_2.
  - by apply check_map_spec, without_wf.
  - destruct (map_route (without _ area) area) as [r|] eqn:E; [|done]. apply map_route_in in E as [[_ Hr]%filter_elem Er]; [|by apply without_wf].
    by rewrite bool_decide_eq_true_2 in Hr.
Qed.

Lemma after_set_exact_witness :
  let '(m, first) := after_set (Some starting) "security" Local None in
  check_map m = Ok tt ∧ first = false ∧ map_route m "security" = Some {| ro_area := "security"; ro_tier := Local; ro_sensitive := true |}.
Proof.
  pose proof (after_set_exact (Some starting) "security" Local None) as H.
  destruct (after_set (Some starting) "security" Local None) as [m first]. destruct H as (H1&H2&H3&_); [by vm_compute..|]. by split_and!.
Defined.
