(* ===== verification/Tiered.v ===== *)
(** * The routing tracker and escalation ([tiered.rs], [escalate.rs], [escalation.rs])

    One tracker over a project's two tiers, the local store and a GitHub
    repository: where a new item goes, who answers for an id, what a merged
    list shows, and how a local item becomes an issue. Each operation is a
    program of calls to the catalog, the routing maps, the two trackers, the
    local marks and tombstones, and GitHub. What the GitHub tier tells without
    a request ([available], [claims], [issue_form]) is [GithubForm]. *)

From S2P Require Import Prelude RustStr Wire Model Faults Verdict Finding Agent Ledger Eff Routing.

(** ** Data *)

Record Mark := { mk_by : string; mk_reason : string; mk_at_ms : N }.

Record Tombstone := { tb_from : Iri; tb_to : Iri; tb_by : string; tb_reason : string; tb_at_ms : N }.

Record Provenance := { pv_from : Iri; pv_by : string; pv_reason : string }.

Record RecordSeen := { rs_id : RecordId; rs_title : string; rs_tier : Tier }.

Inductive Outgoing :=
| OutRecord (record : WorkRecord) (findings : list Finding)
| OutFinding (finding : Finding) (record : RecordSeen).

(** [Outgoing::kind] *)
Definition outgoing_kind (o : Outgoing) : Kind := match o with OutRecord _ _ => KRecord | OutFinding _ _ => KFinding end.

Record Placement := { pl_tier : Tier; pl_area : string; pl_sensitive : bool }.

Record FindingPlacement := {
  fp_at : Placement; fp_inherited : bool; fp_record : RecordSeen; fp_about_sensitive : bool }.

(** [FindingPlacement::crosses] *)
Definition crosses (p : FindingPlacement) : bool := rs_tier (fp_record p) != pl_tier (fp_at p).

(** ** Calls *)

(** The trait [Tracker] *)
Inductive TrackerOp :=
| TAddRecord (project : ProjectId) (title : string) (area : option string)
| TGetRecord (id : RecordId)
| TListRecords (project : ProjectId)
| TSetRecordState (id : RecordId) (state : State)
| TAddFinding (f : Finding)
| TAddFindingChecked (f : Finding) (proof : ForeignRecord)
| TGetFinding (id : FindingId)
| TUpdateFinding (f : Finding)
| TListFindings (project : ProjectId)
| TWithdrawalsBy (actor : string)
| TAddAlias (primary alias : Iri).

Definition TrackerResp (o : TrackerOp) : Type :=
  match o with
  | TAddRecord _ _ _ | TAddFinding _ | TAddFindingChecked _ _ => Result Iri StoreError
  | TGetRecord _ => Result (option WorkRecord) StoreError
  | TListRecords _ => Result (list WorkRecord) StoreError
  | TSetRecordState _ _ | TUpdateFinding _ | TAddAlias _ _ => Result unit StoreError
  | TGetFinding _ => Result (option Finding) StoreError
  | TListFindings _ => Result (list Finding) StoreError
  | TWithdrawalsBy _ => Result N StoreError
  end.

Inductive TierOp :=
| KindOf (id : Iri)
| RoutesOf (project : ProjectId)
| OnTier (t : Tier) (op : TrackerOp)
| OpenGithub
| RequirePrivate
| ItemsInArea (project : ProjectId) (area : string)
| FindEscalated (key : Iri) (since_ms : N)
| AliasTaken (alias : Iri)
| CreateEscalated (item : Outgoing) (from : Provenance) (since_ms : N)
| MarkItem (id : Iri) (mark : Mark)
| MarkOf (id : Iri)
| Unmark (id : Iri)
| TombstoneItem (id to : Iri)
| TombstoneOf (id : Iri).

Definition TierResp (o : TierOp) : Type :=
  match o with
  | KindOf _ => Result Kind StoreError
  | RoutesOf _ => Result (option RoutingMap) StoreError
  | OnTier _ op => TrackerResp op
  | OpenGithub | RequirePrivate | MarkItem _ _ | Unmark _ => Result unit StoreError
  | ItemsInArea _ _ => Result (list (Kind * Iri)) StoreError
  | FindEscalated _ _ | AliasTaken _ => Result (option Iri) StoreError
  | CreateEscalated _ _ _ => Result Iri StoreError
  | MarkOf _ => Result (option Mark) StoreError
  | TombstoneItem _ _ => Result Tombstone StoreError
  | TombstoneOf _ => Result (option Tombstone) StoreError
  end.

Abbreviation Tiered A := (Prog TierResp (Result A StoreError)).

Record GithubForm := { gt_available : bool; gt_claims : Iri → bool; gt_issue_form : Iri → bool }.

Section Router.
Context (g : GithubForm).

(** ** Finding the tier of an id *)

Definition tier_of (id : Iri) : Tier := if gt_claims g id then Github else Local.

(** [tracker_in], up to the tracker it answers *)
Definition tracker_in (t : Tier) : Tiered unit := match t with Local => Ret (Ok tt) | Github => call OpenGithub end.

Definition map_of (project : ProjectId) : Tiered RoutingMap :=
  m <-? call (RoutesOf project) ;; Ret (ok_or m (SRouting (RFUnrouted project))).

(** The primary id of a local item, and whether GitHub reads an issue *)
Definition primary_of (kind : Kind) (id : Iri) : Tiered (option Iri) :=
  match kind with
  | KFinding => f <-? call (OnTier Local (TGetFinding id)) ;; Ret (Ok (option_map fd_id f))
  | _ => r <-? call (OnTier Local (TGetRecord id)) ;; Ret (Ok (option_map rc_id r))
  end.

Definition readable (kind : Kind) (issue : Iri) : Prog TierResp bool :=
  match kind with
  | KFinding => f <- call (OnTier Github (TGetFinding issue)) ;; Ret (match f with Ok f => is_some f | Err _ => false end)
  | _ => r <- call (OnTier Github (TGetRecord issue)) ;; Ret (match r with Ok r => is_some r | Err _ => false end)
  end.

Definition issue_of_marked (id : Iri) : Tiered (option Iri) :=
  marked <-? call (MarkOf id) ;;
  match marked with
  | None => Ret (Ok None)
  | Some mark =>
      opened <- call OpenGithub ;;
      match opened with
      | Err _ => Ret (Ok None)
      | Ok _ =>
          kind <-? call (KindOf id) ;;
          primary <-? primary_of kind id ;;
          match primary with
          | None => Ret (Ok None)
          | Some primary =>
              found <- call (FindEscalated primary (mk_at_ms mark)) ;;
              match found with
              | Ok (Some issue) => can_read <- readable kind issue ;; Ret (Ok (if can_read : bool then Some issue else None))
              | _ => Ret (Ok None)
              end
          end
      end
  end.

(** [act] in the GitHub tier, opened first *)
Definition in_github {T} (act : Tier → Iri → Tiered T) (id : Iri) : Tiered (Tier * T) :=
  _ <-? call OpenGithub ;; t <-? act Github id ;; Ret (Ok (Github, t)).

Definition elsewhere {A} (id : Iri) (searched : list string) : Result A StoreError := Err (SRouting (RFElsewhere id searched)).

Definition route {T} (act : Tier → Iri → Tiered T) (id : Iri) : Tiered (Tier * T) :=
  if gt_claims g id then in_github act id
  else
    marked <-? issue_of_marked id ;;
    match marked with
    | Some issue => in_github act issue
    | None =>
        here <- act Local id ;;
        match here with
        | Err (SNotOwned _ searched) =>
            if negb (gt_available g) then
              if gt_issue_form g id then _ <-? call OpenGithub ;; Ret (elsewhere id searched)
              else Ret (elsewhere id searched)
            else
              _ <-? call OpenGithub ;;
              there <- act Github id ;;
              match there with
              | Err (SNotOwned _ theirs) => Ret (elsewhere id (searched ++ theirs))
              | Ok t => Ret (Ok (Github, t))
              | Err e => Ret (Err e)
              end
        | Err (SEscalated _ to) => in_github act to
        | Ok t => Ret (Ok (Local, t))
        | Err e => Ret (Err e)
        end
    end.

Definition record_of (id : RecordId) : Tiered (Tier * WorkRecord) :=
  found <-? route (fun t id => call (OnTier t (TGetRecord id))) id ;;
  match found.2 with
  | Some r => Ret (Ok (found.1, r))
  | None => Ret (Err (SNoSuchRecord id))
  end.

Definition escalating (id : Iri) : Tiered (option Mark) :=
  match tier_of id with Github => Ret (Ok None) | Local => call (MarkOf id) end.

(** [as_now] *)
Definition fd_with_record (f : Finding) (record : RecordId) : Finding := {|
  fd_id := fd_id f; fd_project := fd_project f; fd_record := record; fd_raised_by := fd_raised_by f; fd_claim := fd_claim f;
  fd_reproduction := fd_reproduction f; fd_state := fd_state f; fd_assigned_to := fd_assigned_to f;
  fd_withdrawn_reason := fd_withdrawn_reason f; fd_also_known_as := fd_also_known_as f;
  fd_security := fd_security f; fd_area := fd_area f |}.

Definition as_now (f : Finding) : Tiered Finding :=
  match tier_of (fd_record f) with
  | Github => Ret (Ok f)
  | Local =>
      t <-? call (TombstoneOf (fd_record f)) ;;
      Ret (Ok (match t with Some t => fd_with_record f (tb_to t) | None => f end))
  end.

(** ** Placing new items *)

Definition check_project (project : ProjectId) : Tiered unit :=
  found <-? call (KindOf project) ;;
  Ret (if found == KProject then Ok tt else Err (SWrongKind project KProject found)).

Definition private_or_refuse (by_map : bool) (what : string) : Tiered unit :=
  answer <- call RequirePrivate ;;
  Ret match answer with
      | Err (SSecurityNotPrivate repo visibility) =>
          Err (SRouting (if by_map then RFSensitiveToPublic what repo visibility else RFSensitiveNamedPublic what repo visibility))
      | other => other
      end.

Definition place (m : RoutingMap) (area : string) (tier : option Tier) (security : bool) (what : string) : Tiered Placement :=
  match map_route m area with
  | None => Ret (Err (SRouting (RFUndeclared area (declared m))))
  | Some r =>
      let '(tier, by_map) := match tier with Some t => (t, false) | None => (ro_tier r, true) end in
      let placed := {| pl_tier := tier; pl_area := area; pl_sensitive := ro_sensitive r |} in
      match tier with
      | Local => Ret (Ok placed)
      | Github =>
          _ <-? call OpenGithub ;;
          if security || ro_sensitive r then _ <-? private_or_refuse by_map what ;; Ret (Ok placed) else Ret (Ok placed)
      end
  end.

Definition place_record (project : ProjectId) (area : option string) (tier : option Tier) : Tiered Placement :=
  m <-? map_of project ;;
  match area with
  | None => Ret (Err (SRouting (RFNoArea (declared m))))
  | Some area => place m area tier false "this record"
  end.

(** [sensitive] of [escalate.rs], and [record_sensitive] of [place_finding] *)
Definition sensitive (m : RoutingMap) (area : option string) : bool :=
  is_some_and area (fun a => is_none_or (map_route m a) ro_sensitive).

(** [place_finding] once the map and the record are read *)
Definition place_about (m : RoutingMap) (f : Finding) (tier : option Tier) (seen : Tier * WorkRecord) : Tiered FindingPlacement :=
  let '(record_tier, record) := seen in
  match (match fd_area f, rc_area record with
         | Some a, _ => Some (a, false)
         | None, Some a => Some (a, true)
         | None, None => None
         end) with
  | None => Ret (Err (SRouting (RFNothingToInherit (rc_id record) (declared m))))
  | Some (area, inherited) =>
      let about := sensitive m (rc_area record) in
      let what := if about && negb (fd_security f) then "this finding, about a record in a sensitive area," else "this finding" in
      at_ <-? place m area tier (fd_security f || about) what ;;
      Ret (Ok {| fp_at := at_; fp_inherited := inherited;
                 fp_record := {| rs_id := rc_id record; rs_title := rc_title record; rs_tier := record_tier |};
                 fp_about_sensitive := about |})
  end.

Definition place_finding (f : Finding) (tier : option Tier) : Tiered FindingPlacement :=
  m <-? map_of (fd_project f) ;;
  seen <-? record_of (fd_record f) ;;
  place_about m f tier seen.

Definition add_record_at (project : ProjectId) (title : string) (p : Placement) : Tiered RecordId :=
  _ <-? (match pl_tier p with Github => check_project project | Local => Ret (Ok tt) end) ;;
  _ <-? tracker_in (pl_tier p) ;;
  call (OnTier (pl_tier p) (TAddRecord project title (Some (pl_area p)))).

(** The finding as [add_finding_at] writes it *)
Definition fd_placed (f : Finding) (p : FindingPlacement) : Finding := {|
  fd_id := fd_id f; fd_project := fd_project f; fd_record := rs_id (fp_record p); fd_raised_by := fd_raised_by f;
  fd_claim := fd_claim f; fd_reproduction := fd_reproduction f; fd_state := fd_state f; fd_assigned_to := fd_assigned_to f;
  fd_withdrawn_reason := fd_withdrawn_reason f; fd_also_known_as := fd_also_known_as f;
  fd_security := fd_security f || pl_sensitive (fp_at p) || fp_about_sensitive p; fd_area := Some (pl_area (fp_at p)) |}.

Definition add_finding_at (f : Finding) (p : FindingPlacement) : Tiered FindingId :=
  let f := fd_placed f p in
  let tier := pl_tier (fp_at p) in
  _ <-? (match tier with Github => check_project (fd_project f) | Local => Ret (Ok tt) end) ;;
  _ <-? tracker_in tier ;;
  if crosses p
  then call (OnTier tier (TAddFindingChecked f
         {| fr_id := rs_id (fp_record p); fr_title := rs_title (fp_record p); fr_tier := rs_tier (fp_record p) |}))
  else call (OnTier tier (TAddFinding f)).

(** ** Merged reads *)

Definition tiers (only : option Tier) : list Tier := match only with Some t => [t] | None => [Local; Github] end.

Definition read {T} (tier : Tier) (only : option Tier) (act : Tiered T) : Tiered T :=
  r <- (_ <-? tracker_in tier ;; act) ;;
  Ret match r with
      | Err e =>
          if is_none only && (tier == Github)
          then Err (SRouting (RFTierUnreadable tier
                 (match e with SRouting (RFTierUnavailable _ why) => as_clause why | other => as_clause (store_display other) end)))
          else Err e
      | ok => ok
      end.

(** [one_copy] *)
Fixpoint drop_copies {T} (names : T → Iri * list Iri) (issued : list Iri) (items : list (Tier * T)) : Tiered (list (Tier * T)) :=
  match items with
  | [] => Ret (Ok [])
  | (tier, item) :: items' =>
      let id := (names item).1 in
      dropped <-? (if (tier == Local) && contains issued id
                   then m <-? call (MarkOf id) ;; Ret (Ok (is_some m)) else Ret (Ok false)) ;;
      rest <-? drop_copies names issued items' ;;
      Ret (Ok (if dropped : bool then rest else (tier, item) :: rest))
  end.

Definition one_copy {T} (names : T → Iri * list Iri) (items : list (Tier * T)) : Tiered (list (Tier * T)) :=
  let issued := flat_map (fun x : Tier * T => (names x.2).2) (List.filter (fun x => x.1 == Github) items) in
  drop_copies names issued items.

Definition record_names (r : WorkRecord) : Iri * list Iri := (rc_id r, rc_also_known_as r).
Definition finding_names (f : Finding) : Iri * list Iri := (fd_id f, fd_also_known_as f).

Definition records (project : ProjectId) (only : option Tier) : Tiered (list (Tier * WorkRecord)) :=
  got <-? for_collect (fun tier =>
    l <-? read tier only (call (OnTier tier (TListRecords project))) ;; Ret (Ok (map (pair tier) l))) (tiers only) ;;
  one_copy record_names (concat got).

Definition findings (project : ProjectId) (only : option Tier) : Tiered (list (Tier * Finding)) :=
  got <-? for_collect (fun tier =>
    l <-? read tier only (call (OnTier tier (TListFindings project))) ;;
    for_collect (fun f => f <-? as_now f ;; Ret (Ok (tier, f))) l) (tiers only) ;;
  one_copy finding_names (concat got).

Definition withdrawals_in (actor : string) (only : option Tier) : Tiered N :=
  got <-? for_collect (fun tier => read tier only (call (OnTier tier (TWithdrawalsBy actor)))) (tiers only) ;;
  Ret (Ok (foldl wrap_add64 0%N got)).

Definition items_naming_area (project : ProjectId) (area : string) : Tiered (list (Tier * Kind * Iri)) :=
  rs <-? call (OnTier Local (TListRecords project)) ;;
  fs <-? call (OnTier Local (TListFindings project)) ;;
  _ <-? call OpenGithub ;;
  gs <-? call (ItemsInArea project area) ;;
  Ret (Ok (map (fun r => (Local, KRecord, rc_id r)) (List.filter (fun r => rc_area r == Some area) rs)
        ++ map (fun f => (Local, KFinding, fd_id f)) (List.filter (fun f => fd_area f == Some area) fs)
        ++ map (fun x => (Github, x.1, x.2)) gs)).

(** ** [impl Tracker for TieredTracker] *)

Definition tiered_add_record (project : ProjectId) (title : string) (area : option string) : Tiered RecordId :=
  p <-? place_record project area None ;; add_record_at project title p.

Definition tiered_get_record (id : RecordId) : Tiered (option WorkRecord) :=
  r <-? route (fun t id => call (OnTier t (TGetRecord id))) id ;; Ret (Ok r.2).

Definition tiered_list_records (project : ProjectId) : Tiered (list WorkRecord) :=
  l <-? records project None ;; Ret (Ok (map snd l)).

Definition tiered_set_record_state (id : RecordId) (state : State) : Tiered unit :=
  r <-? route (fun t id => call (OnTier t (TSetRecordState id state))) id ;; Ret (Ok r.2).

Definition tiered_add_finding (f : Finding) : Tiered FindingId :=
  p <-? place_finding f None ;; add_finding_at f p.

Definition tiered_get_finding (id : FindingId) : Tiered (option Finding) :=
  r <-? route (fun t id => call (OnTier t (TGetFinding id))) id ;;
  match r.2 with
  | Some f => f <-? as_now f ;; Ret (Ok (Some f))
  | None => Ret (Ok None)
  end.

Definition fd_with_id (f : Finding) (id : FindingId) : Finding := {|
  fd_id := id; fd_project := fd_project f; fd_record := fd_record f; fd_raised_by := fd_raised_by f; fd_claim := fd_claim f;
  fd_reproduction := fd_reproduction f; fd_state := fd_state f; fd_assigned_to := fd_assigned_to f;
  fd_withdrawn_reason := fd_withdrawn_reason f; fd_also_known_as := fd_also_known_as f;
  fd_security := fd_security f; fd_area := fd_area f |}.

Definition tiered_update_finding (f : Finding) : Tiered unit :=
  r <-? route (fun t id => call (OnTier t (TUpdateFinding (fd_with_id f id)))) (fd_id f) ;; Ret (Ok r.2).

Definition tiered_list_findings (project : ProjectId) : Tiered (list Finding) :=
  l <-? findings project None ;; Ret (Ok (map snd l)).

Definition tiered_add_alias (primary alias : Iri) : Tiered unit :=
  r <-? route (fun t id => call (OnTier t (TAddAlias id alias))) primary ;; Ret (Ok r.2).
End Router.

(** ** Asking and writing *)

(** The calls that change a tier *)
Definition writes (o : TierOp) : bool :=
  match o with
  | OnTier _ (TAddRecord _ _ _ | TSetRecordState _ _ | TAddFinding _ | TAddFindingChecked _ _ | TUpdateFinding _ | TAddAlias _ _)
  | CreateEscalated _ _ _ | MarkItem _ _ | Unmark _ | TombstoneItem _ _ => true
  | _ => false
  end.

Definition asks (ev : Event TierResp) : Prop := writes (projT1 ev) = false.

(** Every call of a program that only asks, branch by branch *)
Ltac asking :=
  lazymatch goal with
  | |- all_events _ (Ret _) => apply all_events_ret
  | |- all_events ?P (call ?o) => by apply (all_events_call (Resp := TierResp) P o)
  | |- all_events _ (rbind _ _) => apply all_events_rbind; [asking|intros; asking]
  | |- all_events _ (pbind _ _) => apply all_events_bind; [asking|intros; asking]
  | |- all_events _ (for_collect _ _) => apply all_events_collect; intros; asking
  | |- all_events _ (match ?x with _ => _ end) => destruct x; asking
  | |- all_events _ (let '(_, _) := ?x in _) => destruct x; asking
  | |- all_events _ _ => first [by auto with tiered|idtac]
  end.

Create HintDb tiered discriminated.
#[export] Hint Constants Opaque : tiered.

Section Asking.
Context (g : GithubForm).

Lemma map_of_asks p : all_events asks (map_of p). Proof. unfold map_of. asking. Qed.
Lemma tracker_in_asks t : all_events asks (tracker_in t). Proof. unfold tracker_in. asking. Qed.
Lemma primary_asks k id : all_events asks (primary_of k id). Proof. unfold primary_of. asking. Qed.
Lemma readable_asks k id : all_events asks (readable k id). Proof. unfold readable. asking. Qed.
#[local] Hint Resolve map_of_asks tracker_in_asks primary_asks readable_asks : tiered.

Lemma issue_of_marked_asks id : all_events asks (issue_of_marked id). Proof. unfold issue_of_marked. asking. Qed.
#[local] Hint Resolve issue_of_marked_asks : tiered.

Lemma route_asks {T} (act : Tier → Iri → Tiered T) id : (∀ t i, all_events asks (act t i)) → all_events asks (route g act id).
Proof. intros Ha. unfold route, in_github. asking. Qed.

Lemma record_of_asks id : all_events asks (record_of g id).
Proof. unfold record_of. apply all_events_rbind; [apply route_asks; intros; asking|]. intros. asking. Qed.

Lemma as_now_asks f : all_events asks (as_now g f). Proof. unfold as_now. asking. Qed.
Lemma check_project_asks p : all_events asks (check_project p). Proof. unfold check_project. asking. Qed.
Lemma private_asks b w : all_events asks (private_or_refuse b w). Proof. unfold private_or_refuse. asking. Qed.
#[local] Hint Resolve record_of_asks as_now_asks check_project_asks private_asks : tiered.

Lemma place_asks m a t s w : all_events asks (place m a t s w). Proof. unfold place. asking. Qed.
#[local] Hint Resolve place_asks : tiered.
Lemma place_about_asks m f t seen : all_events asks (place_about m f t seen). Proof. unfold place_about. asking. Qed.
#[local] Hint Resolve place_about_asks : tiered.
Lemma place_finding_asks f t : all_events asks (place_finding g f t). Proof. unfold place_finding. asking. Qed.
Lemma place_record_asks p a t : all_events asks (place_record p a t). Proof. unfold place_record. asking. Qed.

Lemma read_asks {T} t o (act : Tiered T) : all_events asks act → all_events asks (read t o act).
Proof. intros Ha. unfold read. asking. Qed.

Lemma one_copy_asks {T} (names : T → Iri * list Iri) items : all_events asks (one_copy names items).
Proof.
  unfold one_copy. generalize (flat_map (fun x : Tier * T => (names x.2).2) (List.filter (fun x => x.1 == Github) items)). intros issued.
  induction items as [|[t i] items IH]; cbn [drop_copies]; asking.
Qed.
End Asking.
#[export] Hint Resolve map_of_asks tracker_in_asks primary_asks readable_asks issue_of_marked_asks record_of_asks as_now_asks check_project_asks
  private_asks place_asks place_about_asks place_finding_asks place_record_asks one_copy_asks : tiered.

(** ** One write, in one tier *)

(** A write to a tracker that it answered *)
Definition landed (ev : Event TierResp) : bool :=
  match ev with
  | existT o r =>
      match o return TierResp o → bool with
      | OnTier _ op =>
          match op return TrackerResp op → bool with
          | TAddRecord _ _ _ | TAddFinding _ | TAddFindingChecked _ _ => fun r => is_ok r
          | TSetRecordState _ _ | TUpdateFinding _ | TAddAlias _ _ => fun r => is_ok r
          | _ => fun _ => false
          end
      | _ => fun _ => false
      end r
  end.

Definition lands (tr : list (Event TierResp)) : nat := length (List.filter landed tr).

Lemma lands_app tr tr' : lands (tr ++ tr') = lands tr + lands tr'.
Proof. unfold lands. by rewrite List.filter_app, length_app. Qed.

Lemma asks_land_none tr : Forall asks tr → lands tr = 0.
Proof.
  induction 1 as [|ev tr Hev _ IH]; [done|]. unfold lands in *. cbn [List.filter].
  assert (landed ev = false) as ->; [|done]. destruct ev as [o r]. unfold asks in Hev. cbn in Hev |- *. by destruct o as [| |t []| | | | | | | | | | |].
Qed.

(** An operation that lands one write when it is answered, and none when it is refused *)
Definition once {A} (p : Tiered A) : Prop := ∀ tr res, runs p tr res → lands tr = if is_ok res then 1 else 0.

Lemma once_err {A} e : once (A := A) (Ret (Err e)).
Proof. intros tr res [-> ->]. done. Qed.

Lemma once_after {A B} (p : Tiered A) (f : A → Tiered B) : all_events asks p → (∀ a, once (f a)) → once (rbind p f).
Proof.
  intros Hp Hf tr res [(e&H1&->)|(tr1&tr2&a&->&H1&H2)]%runs_rbind; rewrite ?lands_app, (asks_land_none _ (Hp _ _ H1)); [done|].
  by apply (Hf a).
Qed.

Lemma once_then {A B} (p : Tiered A) (f : A → Tiered B) (h : A → B) : once p → (∀ a, f a = Ret (Ok (h a))) → once (rbind p f).
Proof.
  intros Hp Hf tr res [(e&H1&->)|(tr1&tr2&a&->&H1&H2)]%runs_rbind; [by apply Hp in H1|].
  rewrite Hf in H2. destruct H2 as [-> ->]. rewrite lands_app, (Hp _ _ H1). done.
Qed.

Lemma once_or {A B} (p : Tiered A) (f : Result A StoreError → Tiered B) (h : A → B) :
  once p → (∀ a, f (Ok a) = Ret (Ok (h a))) → (∀ e, once (f (Err e))) → once (pbind p f).
Proof.
  intros Hp Hok Herr tr res (tr1&tr2&[a|e]&->&H1&H2)%runs_bind; rewrite lands_app, (Hp _ _ H1); cbn.
  - rewrite Hok in H2. destruct H2 as [-> ->]. done.
  - by apply (Herr e tr2 res).
Qed.

(** One call of a tracker that writes *)
Ltac once_call :=
  let tr := fresh "tr" in let res := fresh "res" in let Hr := fresh "Hr" in
  intros tr res Hr; lazymatch type of Hr with runs (call ?o) _ _ => apply (runs_call (Resp := TierResp) o) in Hr end;
  subst tr; unfold lands; cbn; by destruct (is_ok res).

Section Once.
Context (g : GithubForm).

Lemma in_github_once {T} (act : Tier → Iri → Tiered T) id : (∀ t i, once (act t i)) → once (in_github act id).
Proof. intros Ha. unfold in_github. apply once_after; [asking|]. intros. by apply (once_then _ _ (pair Github)). Qed.

Lemma route_once {T} (act : Tier → Iri → Tiered T) id : (∀ t i, once (act t i)) → once (route g act id).
Proof.
  intros Ha. unfold route. destruct (gt_claims g id); [by apply in_github_once|].
  apply once_after; [asking|]. intros [issue|]; [by apply in_github_once|].
  apply (once_or _ _ (pair Local)); [apply Ha|done|]. intros e. destruct e; try apply once_err; [|by apply in_github_once].
  destruct (negb _); [destruct (gt_issue_form g id); [|apply once_err]; apply once_after; [asking|intros; apply once_err]|].
  apply once_after; [asking|]. intros. apply (once_or _ _ (pair Github)); [apply Ha|done|]. intros e. destruct e; apply once_err.
Qed.

(** (C28) Every write through the router lands in one tier: when the router
    answers, exactly one tracker took the write; when it refuses, none did.
    Which tier holds an id is searched for, but never written twice. *)
Theorem one_write_one_tier :
  (∀ id state, once (tiered_set_record_state g id state)) ∧ (∀ f, once (tiered_update_finding g f))
  ∧ (∀ primary alias, once (tiered_add_alias g primary alias))
  ∧ (∀ project title area, once (tiered_add_record project title area)) ∧ (∀ f, once (tiered_add_finding g f)).
Proof.
  split_and!; intros.
  - apply (once_then _ _ snd); [|done]. apply route_once. intros t i. once_call.
  - apply (once_then _ _ snd); [|done]. apply route_once. intros t i. once_call.
  - apply (once_then _ _ snd); [|done]. apply route_once. intros t i. once_call.
  - apply once_after; [asking|]. intros p. apply once_after; [asking|]. intros. apply once_after; [asking|]. intros. once_call.
  - apply once_after; [asking|]. intros p. apply once_after; [asking|]. intros. apply once_after; [asking|]. intros.
    destruct (crosses p); once_call.
Qed.
End Once.

(** ** Sensitive items *)

Abbreviation told o r := (event (Resp := TierResp) o r) (only parsing).

Section Sensitive.
Context (g : GithubForm).

Lemma route_answers {T} (act : Tier → Iri → Tiered T) id tr t x : runs (route g act id) tr (Ok (t, x)) →
  ∃ i pre mid post, tr = pre ++ mid ++ post ∧ runs (act t i) mid (Ok x).
Proof.
  assert (∀ i tr, runs (in_github act i) tr (Ok (t, x)) → ∃ i pre mid post, tr = pre ++ mid ++ post ∧ runs (act t i) mid (Ok x)) as Hin.
  { intros i tr' [(?&_&?)|(tr1&tr2&?&->&_&H2)]%runs_rbind; [done|].
    apply runs_rbind in H2 as [(?&_&?)|(tr3&tr4&y&->&H3&[-> [= -> ->]])]; [done|]. eauto 10. }
  unfold route. destruct (gt_claims g id); [apply Hin|].
  intros [(?&_&?)|(tr1&tr2&[issue|]&->&_&H2)]%runs_rbind; [done|..].
  { apply Hin in H2 as (i&pre&mid&post&->&H3). exists i, (tr1 ++ pre), mid, post. by rewrite app_assoc. }
  apply runs_bind in H2 as (tr3&tr4&[y|e]&->&H3&H4).
  { destruct H4 as [-> [= -> ->]]. by exists id, tr1, tr3, []. }
  destruct e; try by destruct H4.
  - destruct (negb _).
    { destruct (gt_issue_form g id); [|by destruct H4]. apply runs_rbind in H4 as [(?&_&?)|(?&?&?&_&_&H5)]; [done|]. by destruct H5. }
    apply runs_rbind in H4 as [(?&_&?)|(tr5&tr6&?&->&_&H5)]; [done|].
    apply runs_bind in H5 as (tr7&tr8&[y|e]&->&H6&H7).
    + destruct H7 as [-> [= -> ->]]. exists id, (tr1 ++ tr3 ++ tr5), tr7, []. by rewrite <- !app_assoc.
    + destruct e; by destruct H7.
  - apply Hin in H4 as (i&pre&mid&post&->&H5). exists i, (tr1 ++ tr3 ++ pre), mid, post. by rewrite <- !app_assoc.
Qed.

Lemma record_of_answers id tr t r : runs (record_of g id) tr (Ok (t, r)) → ∃ i, told (OnTier t (TGetRecord i)) (Ok (Some r)) ∈ tr.
Proof.
  intros [(?&_&?)|(tr1&tr2&[t' [r'|]]&->&H1&H2)]%runs_rbind; [done| |by destruct H2]. destruct H2 as [-> [= -> ->]].
  apply route_answers in H1 as (i&pre&mid&post&->&H3). apply (runs_call (Resp := TierResp) (OnTier t' (TGetRecord i))) in H3 as ->.
  exists i. rewrite !elem_of_app. left. right. left. by left.
Qed.

Lemma private_told b what tr : runs (private_or_refuse b what) tr (Ok tt) → told RequirePrivate (Ok tt) ∈ tr.
Proof.
  intros (tr1&tr2&a&->&->%(runs_call (Resp := TierResp) RequirePrivate)&[-> Ha])%runs_bind.
  destruct a as [[]|e]; [by left|]. by destruct e.
Qed.

Lemma place_told m area tier security what tr p : runs (place m area tier security what) tr (Ok p) →
  pl_area p = area ∧ pl_sensitive p = sensitive m (Some area)
  ∧ (pl_tier p = Github → security || pl_sensitive p = true → told RequirePrivate (Ok tt) ∈ tr).
Proof.
  unfold place, sensitive. cbn [is_some_and]. destruct (map_route m area) as [r|]; [|by intros [_ ?]]. cbn [is_none_or].
  destruct (match tier with Some t => (t, false) | None => (ro_tier r, true) end) as [[] by_map].
  { intros [-> [= ->]]. done. }
  intros [(?&_&?)|(tr1&tr2&?&->&_&H2)]%runs_rbind; [done|]. destruct (security || ro_sensitive r) eqn:E.
  - apply runs_rbind in H2 as [(?&_&?)|(tr3&tr4&[]&->&H3%private_told&[-> [= ->]])]; [done|].
    split_and!; [done..|]. intros _ _. rewrite !elem_of_app. tauto.
  - destruct H2 as [-> [= ->]]. split_and!; [done..|]. cbn. by rewrite E.
Qed.

(** The call that writes the finding [f] as placed by [p] *)
Definition adds (f : Finding) (p : FindingPlacement) (o : TierOp) : Prop :=
  o = OnTier (pl_tier (fp_at p)) (TAddFinding (fd_placed f p))
  ∨ ∃ proof, o = OnTier (pl_tier (fp_at p)) (TAddFindingChecked (fd_placed f p) proof) ∧ fr_id proof = fd_record (fd_placed f p).

Lemma place_finding_told f tier tr p : runs (place_finding g f tier) tr (Ok p) →
  ∃ m t record i, told (RoutesOf (fd_project f)) (Ok (Some m)) ∈ tr ∧ told (OnTier t (TGetRecord i)) (Ok (Some record)) ∈ tr
  ∧ fp_record p = {| rs_id := rc_id record; rs_title := rc_title record; rs_tier := t |}
  ∧ Some (pl_area (fp_at p)) = option_or (fd_area f) (rc_area record)
  ∧ fd_security (fd_placed f p) = fd_security f || sensitive m (Some (pl_area (fp_at p))) || sensitive m (rc_area record)
  ∧ (pl_tier (fp_at p) = Github → fd_security (fd_placed f p) = true → told RequirePrivate (Ok tt) ∈ tr).
Proof.
  intros [(?&_&?)|(tr1&tr2&m&->&H1&H2)]%runs_rbind; [done|].
  apply runs_rbind in H1 as [(?&_&?)|(tr3&tr4&om&->&->%(runs_call (Resp := TierResp) (RoutesOf (fd_project f)))&[-> Hm])]; [done|].
  destruct om as [m'|]; [|done]. injection Hm as <-.
  apply runs_rbind in H2 as [(?&_&?)|(tr5&tr6&[t record]&->&[i Hi]%record_of_answers&H4)]; [done|].
  exists m, t, record, i. unfold place_about in H4.
  destruct (match fd_area f, rc_area record with Some a, _ => Some (a, false) | None, Some a => Some (a, true) | None, None => None end)
    as [[area inherited]|] eqn:Ea; [|by destruct H4].
  apply runs_rbind in H4 as [(?&_&?)|(tr7&tr8&q&->&(Harea&Hs&Hp)%place_told&[-> [= ->]])]; [done|]. cbn [fp_at fp_record fp_about_sensitive fd_placed fd_security].
  rewrite Harea, Hs in *. split_and!.
  - rewrite !elem_of_app. left. left. by left.
  - rewrite !elem_of_app. tauto.
  - done.
  - destruct (fd_area f), (rc_area record); naive_solver.
  - done.
  - intros Ht He. rewrite !elem_of_app. right. right. left. apply Hp; [done|]. revert He.
    destruct (fd_security f), (sensitive m (Some area)), (sensitive m (rc_area record)); done.
Qed.

Lemma place_record_told project area tr p : runs (place_record project area None) tr (Ok p) →
  ∃ m, told (RoutesOf project) (Ok (Some m)) ∈ tr ∧ area = Some (pl_area p)
  ∧ (pl_tier p = Github → sensitive m area = true → told RequirePrivate (Ok tt) ∈ tr).
Proof.
  intros [(?&_&?)|(tr3&tr4&m&->&H1&H3)]%runs_rbind; [done|].
  apply runs_rbind in H1 as [(?&_&?)|(tr5&tr6&om&->&->%(runs_call (Resp := TierResp) (RoutesOf project))&[-> Hm])]; [done|].
  destruct om as [m'|]; [|done]. injection Hm as <-. destruct area as [area|]; [|by destruct H3].
  apply place_told in H3 as (Harea&Hs&Hp). exists m. rewrite !elem_of_app. split_and!; [left; left; by left|by rewrite Harea|].
  intros Ht He. right. apply Hp; [done|]. by rewrite Hs.
Qed.
End Sensitive.

(** (C29) What is sensitive reaches GitHub only after the repository answered
    that it is private. A finding is written last and once, with the area it
    names or else its record's; it is a security finding when it says so, when
    its area is sensitive, or when its record's area is sensitive or no longer
    declared, as the routing map and the record just read say. If it then goes
    to GitHub, the repository was asked before anything was written. The same
    holds of a record in a sensitive area. *)
Theorem sensitive_goes_private g :
  (∀ f tr res, runs (tiered_add_finding g f) tr res →
     Forall asks tr ∨ ∃ before after o r m t record i p,
       tr = before ++ after ++ [told o r] ∧ Forall asks before ∧ Forall asks after ∧ adds f p o
       ∧ told (RoutesOf (fd_project f)) (Ok (Some m)) ∈ before ∧ told (OnTier t (TGetRecord i)) (Ok (Some record)) ∈ before
       ∧ fd_record (fd_placed f p) = rc_id record ∧ fd_area (fd_placed f p) = option_or (fd_area f) (rc_area record)
       ∧ fd_security (fd_placed f p) = fd_security f || sensitive m (fd_area (fd_placed f p)) || sensitive m (rc_area record)
       ∧ (pl_tier (fp_at p) = Github → fd_security (fd_placed f p) = true → told RequirePrivate (Ok tt) ∈ before))
  ∧ (∀ project title area tr res, runs (tiered_add_record project title area) tr res →
     Forall asks tr ∨ ∃ before after t r m,
       tr = before ++ after ++ [told (OnTier t (TAddRecord project title area)) r] ∧ Forall asks before ∧ Forall asks after
       ∧ told (RoutesOf project) (Ok (Some m)) ∈ before
       ∧ (t = Github → sensitive m area = true → told RequirePrivate (Ok tt) ∈ before)).
Proof.
  split.
  - intros f tr res [(e&H1&->)|(before&tr2&p&->&H1&H2)]%runs_rbind; [left; by eapply place_finding_asks|].
    pose proof (place_finding_asks g f None _ _ H1) as Ha. apply place_finding_told in H1 as (m&t&record&i&Hm&Hr&Hrec&Harea&Hsec&Hp).
    apply runs_rbind in H2 as [(e&H3&->)|(tr3&tr4&[]&->&H3&H4)].
    { left. apply Forall_app. split; [done|]. destruct (pl_tier (fp_at p)); [by destruct H3 as [-> _]|by eapply check_project_asks]. }
    assert (Forall asks tr3) as Ha3 by (destruct (pl_tier (fp_at p)); [by destruct H3 as [-> _]|by eapply check_project_asks]).
    apply runs_rbind in H4 as [(e&H5&->)|(tr5&tr6&[]&->&H5&H6)]; pose proof (tracker_in_asks _ _ _ H5) as Ha5.
    { left. rewrite !Forall_app. done. }
    right. exists before, (tr3 ++ tr5).
    assert (∃ o r, tr6 = [told o r] ∧ adds f p o) as (o&r&->&Ho).
    { destruct (crosses p).
      - lazymatch type of H6 with runs (call ?o) _ _ => apply (runs_call (Resp := TierResp) o) in H6 as ->; exists o, res end.
        split; [done|]. right. by eexists.
      - lazymatch type of H6 with runs (call ?o) _ _ => apply (runs_call (Resp := TierResp) o) in H6 as ->; exists o, res end. split; [done|by left]. }
    exists o, r, m, t, record, i, p. rewrite Forall_app, <- app_assoc. cbn [fd_placed fd_record fd_area] in *. rewrite Hrec. done.
  - intros project title area tr res [(e&H1&->)|(before&tr2&p&->&H1&H2)]%runs_rbind; [left; by eapply place_record_asks|].
    pose proof (place_record_asks _ _ _ _ _ H1) as Ha.
    apply place_record_told in H1 as (m&Hm&->&Hp).
    apply runs_rbind in H2 as [(e&H3&->)|(tr7&tr8&[]&->&H3&H4)].
    { left. apply Forall_app. split; [done|]. destruct (pl_tier p); [by destruct H3 as [-> _]|by eapply check_project_asks]. }
    assert (Forall asks tr7) as Ha3 by (destruct (pl_tier p); [by destruct H3 as [-> _]|by eapply check_project_asks]).
    apply runs_rbind in H4 as [(e&H5&->)|(tr9&tr10&[]&->&H5&H6)]; pose proof (tracker_in_asks _ _ _ H5) as Ha5.
    { left. by rewrite !Forall_app. }
    right. lazymatch type of H6 with runs (call ?o) _ _ => apply (runs_call (Resp := TierResp) o) in H6 as -> end.
    exists before, (tr7 ++ tr9), (pl_tier p), res, m. rewrite Forall_app, <- app_assoc. done.
Qed.

(** ** Merged lists *)


(** A local item whose issue is in the list, and that is marked *)
Definition a_copy {T} (names : T → Iri * list Iri) (issued : list Iri) (tr : list (Event TierResp)) (x : Tier * T) : Prop :=
  x.1 = Local ∧ (names x.2).1 ∈ issued ∧ ∃ mark, told (MarkOf (names x.2).1) (Ok (Some mark)) ∈ tr.

Definition no_copy {T} (names : T → Iri * list Iri) (issued : list Iri) (tr : list (Event TierResp)) (x : Tier * T) : Prop :=
  x.1 = Local → (names x.2).1 ∈ issued → told (MarkOf (names x.2).1) (Ok None) ∈ tr.

Lemma drop_copies_told {T} (names : T → Iri * list Iri) issued items : ∀ tr out, runs (drop_copies names issued items) tr (Ok out) →
  ∃ dropped, out `sublist_of` items ∧ items ≡ₚ out ++ dropped
  ∧ Forall (a_copy names issued tr) dropped ∧ Forall (no_copy names issued tr) out.
Proof.
  assert (∀ tr tr' (l : list (Tier * T)), tr ⊆ tr' → Forall (a_copy names issued tr) l → Forall (a_copy names issued tr') l) as Mc.
  { intros tr tr' l Hs Hf. eapply Forall_impl; [exact Hf|]. intros x (?&?&mark&?). split_and!; [done..|]. exists mark. by apply Hs. }
  assert (∀ tr tr' (l : list (Tier * T)), tr ⊆ tr' → Forall (no_copy names issued tr) l → Forall (no_copy names issued tr') l) as Mn.
  { intros tr tr' l Hs Hf. eapply Forall_impl; [exact Hf|]. intros x Hx H1 H2. by apply Hs, Hx. }
  induction items as [|[t x] items IH]; intros tr out; cbn [drop_copies].
  { intros [-> [= ->]]. by exists []. }
  intros [(?&_&?)|(tr1&tr2&b&->&H1&H2)]%runs_rbind; [done|].
  apply runs_rbind in H2 as [(?&_&?)|(tr3&tr4&rest&->&(dropped&Hsub&Hp&Hd&Hk)%IH&[-> [= ->]])]; [done|]. rewrite app_nil_r in *.
  assert (tr3 ⊆ tr1 ++ tr3) as Hs3 by (intros ev; rewrite elem_of_app; tauto).
  destruct ((t == Local) && contains issued (names x).1) eqn:E.
  - apply andb_true_iff in E as [->%bool_decide_eq_true E%contains_spec].
    apply runs_rbind in H1 as [(?&_&?)|(tr5&tr6&m&->&->%(runs_call (Resp := TierResp) (MarkOf (names x).1))&[-> [= ->]])]; [done|].
    destruct m as [mark|]; cbn [is_some].
    + exists ((Local, x) :: dropped). split_and!; [by apply sublist_cons|by rewrite Hp, <- Permutation_middle| |by eapply Mn].
      constructor; [|by eapply Mc]. split_and!; [done..|]. exists mark. by left.
    + exists dropped. split_and!; [by apply sublist_skip|by rewrite Hp|by eapply Mc|]. constructor; [|by eapply Mn]. intros _ _. by left.
  - destruct H1 as [-> [= ->]]. exists dropped. split_and!; [by apply sublist_skip|by rewrite Hp|by eapply Mc|]. constructor; [|by eapply Mn].
    intros Ht Hin. cbn in Ht, Hin. subst t. apply andb_false_iff in E as [E|E]; [by rewrite bool_decide_eq_true_2 in E|]. by apply contains_false in E.
Qed.

Lemma read_told {T} tier only (act : Tiered T) tr x : runs (read tier only act) tr (Ok x) → ∃ pre post, tr = pre ++ post ∧ runs act post (Ok x).
Proof.
  intros (tr1&tr2&res&->&H1&[-> Hx])%runs_bind. destruct res as [y|e].
  - injection Hx as <-. apply runs_rbind in H1 as [(?&_&?)|(tr3&tr4&?&->&_&H2)]; [done|]. exists tr3, tr4. by rewrite app_nil_r.
  - by destruct (is_none only && (tier == Github)).
Qed.

Lemma drop_copies_app {T} (names : T → Iri * list Iri) issued a b : ∀ tr out, runs (drop_copies names issued (a ++ b)) tr (Ok out) →
  ∃ tr1 tr2 out1 out2, tr = tr1 ++ tr2 ∧ out = out1 ++ out2
  ∧ runs (drop_copies names issued a) tr1 (Ok out1) ∧ runs (drop_copies names issued b) tr2 (Ok out2).
Proof.
  induction a as [|[t x] a IH]; intros tr out; cbn [drop_copies app]; [by exists [], tr, [], out|].
  intros [(?&_&?)|(tr1&tr2&d&->&H1&H2)]%runs_rbind; [done|].
  apply runs_rbind in H2 as [(?&_&?)|(tr3&tr4&rest&->&H3&[-> [= ->]])]; [done|]. apply IH in H3 as (tra&trb&o1&o2&->&->&Ha&Hb).
  exists (tr1 ++ tra), trb, (if d then o1 else (t, x) :: o1), o2. rewrite app_nil_r, app_assoc. split_and!; [done|by destruct d| |done].
  apply runs_rbind. right. exists tr1, tra, d. split_and!; [done..|]. apply runs_rbind. right. exists tra, [], o1. by rewrite app_nil_r.
Qed.

Lemma map_snd_pair {A B} (a : A) (l : list (A * B)) : (∀ x, x ∈ l → x.1 = a) → l = map (pair a) (map snd l).
Proof.
  induction l as [|[x y] l IH]; intros Hl; [done|]. cbn. rewrite <- IH by (intros z Hz; apply Hl; by right).
  by rewrite <- (Hl (x, y)) by by left.
Qed.

Lemma sublist_full {A} (l k : list A) : l `sublist_of` k → length k ≤ length l → l = k.
Proof.
  induction 1 as [|x l k Hs IH|x l k Hs IH]; cbn; intros Hl; [done|rewrite IH by lia; done|].
  apply sublist_length in Hs. lia.
Qed.

Lemma sublist_map {A B} (f : A → B) l k : l `sublist_of` k → map f l `sublist_of` map f k.
Proof. induction 1; cbn; by constructor. Qed.

(** What [one_copy] makes of the two tiers' lists *)
Lemma one_copy_told {T} (names : T → Iri * list Iri) (local github : list T) tr out :
  runs (one_copy names (map (pair Local) local ++ map (pair Github) github)) tr (Ok out) →
  ∃ kept dropped, out = map (pair Local) kept ++ map (pair Github) github ∧ kept `sublist_of` local ∧ local ≡ₚ kept ++ dropped
  ∧ (∀ x, x ∈ dropped → (∃ issue, issue ∈ github ∧ (names x).1 ∈ (names issue).2) ∧ ∃ mark, told (MarkOf (names x).1) (Ok (Some mark)) ∈ tr)
  ∧ (∀ x issue, x ∈ kept → issue ∈ github → (names x).1 ∈ (names issue).2 → told (MarkOf (names x).1) (Ok None) ∈ tr).
Proof.
  unfold one_copy. set (issued := flat_map _ _).
  assert (∀ id, id ∈ issued ↔ ∃ issue, issue ∈ github ∧ id ∈ (names issue).2) as Hi.
  { intros id. unfold issued. rewrite list_elem_of_In, in_flat_map. split.
    - intros ([t y]&Hy&Hid). apply List.filter_In in Hy as [Hy E%bool_decide_eq_true]. cbn in E, Hid. subst t.
      apply List.in_app_iff in Hy as [Hy|Hy]; apply List.in_map_iff in Hy as (z&[=]&Hz). subst z. exists y. by rewrite !list_elem_of_In.
    - intros (issue&Hin&Hid). exists (Github, issue). rewrite !list_elem_of_In in *. split; [|done]. apply List.filter_In. split; [|done].
      apply List.in_app_iff. right. by apply List.in_map. }
  clearbody issued. intros (tr1&tr2&o1&o2&->&->&H1&H2)%drop_copies_app.
  apply drop_copies_told in H1 as (d1&S1&P1&D1&K1). apply drop_copies_told in H2 as (d2&S2&P2&D2&_).
  assert (∀ x : Tier * T, x ∈ map (pair Local) local → x.1 = Local) as Hl by (intros x (y&->&_)%list_elem_of_fmap; done).
  assert (∀ x : Tier * T, x ∈ map (pair Github) github → x.1 = Github) as Hg by (intros x (y&->&_)%list_elem_of_fmap; done).
  assert (d2 = []) as ->.
  { destruct d2 as [|x d2]; [done|]. exfalso. apply Forall_inv in D2 as (E&_). specialize (Hg x). rewrite P2, E in Hg.
    assert (Local = Github); [|done]. apply Hg. rewrite elem_of_app. right. by left. }
  assert (o2 = map (pair Github) github) as ->.
  { rewrite app_nil_r in P2. apply sublist_full; [done|]. by rewrite P2. }
  assert (∀ x, x ∈ o1 → x.1 = Local) as Ho1 by (intros x Hx; apply Hl; rewrite P1, elem_of_app; by left).
  assert (∀ x, x ∈ d1 → x.1 = Local) as Hd1 by (intros x Hx; apply Hl; rewrite P1, elem_of_app; by right).
  exists (map snd o1), (map snd d1). split_and!.
  - by rewrite <- map_snd_pair.
  - assert (local = map snd (map (pair Local) local)) as -> by (rewrite map_map; cbn; by rewrite map_id).
    by apply sublist_map.
  - assert (local = map snd (map (pair Local) local)) as -> by (rewrite map_map; cbn; by rewrite map_id).
    change (map snd ?l) with (snd <$> l). rewrite <- fmap_app. by apply fmap_Permutation.
  - intros x ([t y]&->&Hy)%list_elem_of_fmap. rewrite Forall_forall in D1. destruct (D1 _ Hy) as (_&Hin&mark&Hm). cbn in *.
    split; [by apply Hi|]. exists mark. apply elem_of_app. by left.
  - intros x issue ([t y]&->&Hy)%list_elem_of_fmap Hin Hid. rewrite Forall_forall in K1. apply elem_of_app. left. cbn in *.
    apply (K1 _ Hy); [by apply (Ho1 (t, y))|]. cbn. apply Hi. eauto.
Qed.

(** (C30) A merged list is the whole population or an error. When both tiers'
    records are listed, both trackers answered; the list is the local records in
    their order and then GitHub's, less local ones that are marked escalating
    and whose issue is in the same list under that name; a local record with
    its issue in the list and no mark stays. *)
Theorem merged_records_exact project tr out : runs (records project None) tr (Ok out) →
  ∃ local github kept dropped,
    told (OnTier Local (TListRecords project)) (Ok local) ∈ tr ∧ told (OnTier Github (TListRecords project)) (Ok github) ∈ tr
    ∧ out = map (pair Local) kept ++ map (pair Github) github
    ∧ kept `sublist_of` local ∧ local ≡ₚ kept ++ dropped
    ∧ (∀ r, r ∈ dropped → (∃ issue, issue ∈ github ∧ rc_id r ∈ rc_also_known_as issue) ∧ ∃ mark, told (MarkOf (rc_id r)) (Ok (Some mark)) ∈ tr)
    ∧ (∀ r issue, r ∈ kept → issue ∈ github → rc_id r ∈ rc_also_known_as issue → told (MarkOf (rc_id r)) (Ok None) ∈ tr).
Proof.
  intros [(?&_&?)|(tr1&tr2&got&->&H1&H2)]%runs_rbind; [done|]. cbn [tiers] in H1.
  assert (∀ t tr l, runs (l <-? read t None (call (OnTier t (TListRecords project))) ;; Ret (Ok (map (pair t) l))) tr (Ok l) →
    ∃ l', l = map (pair t) l' ∧ told (OnTier t (TListRecords project)) (Ok l') ∈ tr) as Hread.
  { intros t tr l [(?&_&?)|(tr3&tr4&l'&->&(pre&post&->&H3)%read_told&[-> [= ->]])]%runs_rbind; [done|].
    apply (runs_call (Resp := TierResp) (OnTier t (TListRecords project))) in H3 as ->. exists l'. split; [done|].
    rewrite !elem_of_app. left. right. by left. }
  apply runs_rbind in H1 as [(?&_&?)|(tr3&tr4&l1&->&(local&->&Hl)%Hread&H3)]; [done|].
  apply runs_rbind in H3 as [(?&_&?)|(tr5&tr6&bs&->&H4&[-> [= ->]])]; [done|].
  apply runs_rbind in H4 as [(?&_&?)|(tr7&tr8&l2&->&(github&->&Hg)%Hread&H5)]; [done|].
  apply runs_rbind in H5 as [(?&_&?)|(tr9&tr10&bs'&->&[-> [= ->]]&[-> [= ->]])]; [done|].
  cbn [concat] in H2. rewrite app_nil_r in H2. apply one_copy_told in H2 as (kept&dropped&->&Hs&Hp&Hd&Hk).
  exists local, github, kept, dropped. split_and!; [rewrite !elem_of_app; tauto..|done|done|done| |].
  - intros r Hr. destruct (Hd r Hr) as [Hi [mark Hm]]. split; [done|]. exists mark. apply elem_of_app. by right.
  - intros r issue Hr Hin Hid. apply elem_of_app. right. by apply (Hk r issue).
Qed.

