(* ===== verification/Escalate.v ===== *)
(** * Escalation ([escalate.rs])

    A local item becomes an issue in three steps, each of which a rerun
    resumes: mark it, find or create its issue, replace it with a tombstone.
    Every check that GitHub's create would make comes before the first write. *)

From S2P Require Import Prelude RustStr Wire Model Faults Verdict Finding Agent Ledger Eff Routing Tiered.

Definition ISSUE_TITLE_MAX : N := 256.
Definition ESCALATION_BODY_BUDGET : N := 50000.
Definition SHOWN : N := 8.
Definition KEPT : N := 6.

(** [Prepared] *)
Record Prepared := {
  pr_id : Iri; pr_kind : Kind; pr_outgoing : Outgoing; pr_resumes : option Mark; pr_found : option Iri }.

(** [Local] *)
Inductive LocalItem := LRecord (r : WorkRecord) | LFinding (f : Finding).

Definition li_id (i : LocalItem) : Iri := match i with LRecord r => rc_id r | LFinding f => fd_id f end.
Definition li_kind (i : LocalItem) : Kind := match i with LRecord _ => KRecord | LFinding _ => KFinding end.
Definition li_project (i : LocalItem) : ProjectId := match i with LRecord r => rc_project r | LFinding f => fd_project f end.

(** [Local::closed] *)
Definition li_closed (i : LocalItem) : option string :=
  match i with
  | LRecord r => if rc_state r == Done then Some (as_wire (rc_state r)) else None
  | LFinding f =>
      match fd_state f with Fixed | Withdrawn => Some (as_wire (fd_state f)) | _ => None end
  end.

(** ** The size of the issue's body *)

Record Part := { pt_what : string; pt_len : N; pt_per : N }.

Definition part (what : string) (len per : N) : Part := {| pt_what := what; pt_len := len; pt_per := per |}.

Definition body_parts (out : Outgoing) (by_ reason : string) : list Part :=
  let '(parts, aliases) :=
    match out with
    | OutRecord record _ => ([], rc_also_known_as record)
    | OutFinding f record =>
        ([part "the finding's claim" (str_len (fd_claim f)) 1]
         ++ (if rs_tier record == Local
             then [part "the title of the record it is about" (str_len (rs_title record)) (SHOWN + KEPT)] else [])
         ++ [part "the name of who raised it" (str_len (fd_raised_by f)) KEPT;
             part "the name of who it is assigned to"
               (match fd_assigned_to f with Some a => str_len a | None => 0%N end) KEPT],
         fd_also_known_as f)
    end in
  parts ++
  [part "the name of who escalates it" (str_len by_) (SHOWN + KEPT); part "the reason" (str_len reason) (SHOWN + KEPT);
   part "the list of its aliases" (sum_list_N (map str_len aliases)) KEPT].

Definition weight (p : Part) : N := sat_mul64 (pt_len p) (pt_per p).

(** [Iterator::max_by_key]: the last of the heaviest *)
Definition heavier (best : option Part) (p : Part) : option Part :=
  match best with
  | Some b => if (weight b <=? weight p)%N then Some p else Some b
  | None => Some p
  end.

Definition body_refused (id : Iri) (out : Outgoing) (by_ reason : string) : option EscalationFault :=
  let parts := body_parts out by_ reason in
  let total := foldl sat_add64 0%N (map weight parts) in
  if (total <=? ESCALATION_BODY_BUDGET)%N then None
  else
    match foldl heavier None parts with
    | None => None
    | Some p =>
        let others := (total - weight p)%N in
        Some (EFTooLong id (pt_what p) (pt_len p) (sat_sub ESCALATION_BODY_BUDGET others / pt_per p)%N)
    end.

Definition title_refused (title : string) : option string :=
  if is_empty_str title then Some "it is empty, and an issue needs a title"
  else if (ISSUE_TITLE_MAX <? char_count title)%N
  then Some ("it is " +:+ pretty (char_count title) +:+ " characters, and GitHub's limit is " +:+ pretty ISSUE_TITLE_MAX)
  else if trim title != title then Some "it starts or ends with whitespace, which GitHub may trim"
  else None.

Section Escalation.
Context (g : GithubForm).

Definition escalation_err {A} (e : EscalationFault) : Result A StoreError := Err (SEscalation e).

Definition local_item (id : Iri) (kind : Kind) : Tiered LocalItem :=
  if gt_claims g id then Ret (escalation_err (EFNotLocal id))
  else
    t <-? call (TombstoneOf id) ;;
    match t with
    | Some t => Ret (escalation_err (EFAlreadyEscalated (tb_from t) (tb_to t)))
    | None =>
        found <- call (KindOf id) ;;
        match found with
        | Err (SNotOwned _ _) => Ret (escalation_err (EFNotLocal id))
        | Err e => Ret (Err e)
        | Ok found =>
            let expected := match kind with KFinding => KFinding | _ => KRecord end in
            if found != expected then Ret (Err (SWrongKind id expected found))
            else if expected == KRecord
            then r <-? call (OnTier Local (TGetRecord id)) ;;
                 Ret (match r with Some r => Ok (LRecord r) | None => Err (SNoSuchRecord id) end)
            else f <-? call (OnTier Local (TGetFinding id)) ;;
                 Ret (match f with Some f => Ok (LFinding f) | None => Err (SNoSuchFinding id) end)
        end
    end.

(** The loop of [names_free] *)
Fixpoint names_free_in (id : Iri) (aliases : list Iri) : Tiered (option Iri) :=
  match aliases with
  | [] => Ret (Ok None)
  | alias :: aliases' =>
      taken <-? call (AliasTaken alias) ;;
      match taken with
      | None => names_free_in id aliases'
      | Some issue =>
          own <-? (if alias == id then found <-? call (FindEscalated id 0) ;; Ret (Ok (found == Some issue)) else Ret (Ok false)) ;;
          Ret (if own : bool then Ok (Some issue) else escalation_err (EFAliasTaken alias issue))
      end
  end.

Definition names_free (id : Iri) (aliases : list Iri) : Tiered (option Iri) := names_free_in id (id :: aliases).

Definition listed_open (m : RoutingMap) (record : WorkRecord) (f : Finding) : bool :=
  negb (finding_terminal (fd_state f)) && negb (fd_security f) && negb (sensitive m (fd_area f))
  && ((fd_record f == rc_id record) || contains (rc_also_known_as record) (fd_record f)).

Definition open_findings (record : WorkRecord) (m : RoutingMap) : Tiered (list Finding) :=
  l <-? findings g (rc_project record) None ;; Ret (Ok (List.filter (listed_open m record) (map snd l))).

(** What goes out for a record, and the issue that has its names already *)
Definition prepare_record (m : RoutingMap) (check : bool) (found : option Iri) (r : WorkRecord) : Tiered (Outgoing * option Iri) :=
  found <-? (if check then
      match title_refused (rc_title r) with
      | Some why => Ret (escalation_err (EFTitle (rc_id r) why))
      | None =>
          _ <-? (if sensitive m (rc_area r) then private_or_refuse false "this record" else Ret (Ok tt)) ;;
          names_free (rc_id r) (rc_also_known_as r)
      end
    else Ret (Ok found)) ;;
  fs <-? open_findings r m ;;
  Ret (Ok (OutRecord r fs, found)).

Definition prepare_finding (m : RoutingMap) (check : bool) (found : option Iri) (f : Finding) : Tiered (Outgoing * option Iri) :=
  seen <-? record_of g (fd_record f) ;;
  let '(tier, record) := seen in
  found <-? (if check : bool then
      let own := fd_security f || sensitive m (fd_area f) in
      let about := (tier == Local) && sensitive m (rc_area record) in
      _ <-? (if own || about
             then private_or_refuse false
                    (if own then "this finding" else "this finding, about a record in a sensitive area,")
             else Ret (Ok tt)) ;;
      names_free (fd_id f) (fd_also_known_as f)
    else Ret (Ok found)) ;;
  Ret (Ok (OutFinding f {| rs_id := rc_id record; rs_title := rc_title record; rs_tier := tier |}, found)).

Definition prepare_escalation (id : Iri) (kind : Kind) : Tiered Prepared :=
  item <-? local_item id kind ;;
  let primary := li_id item in
  m <-? map_of (li_project item) ;;
  _ <-? call OpenGithub ;;
  resumes <-? call (MarkOf primary) ;;
  found <-? (match resumes with Some mark => call (FindEscalated primary (mk_at_ms mark)) | None => Ret (Ok None) end) ;;
  let check := is_none found in
  match (if check then li_closed item else None) with
  | Some state => Ret (escalation_err (EFClosed primary state))
  | None =>
      out <-? (match item with
               | LRecord r => prepare_record m check found r
               | LFinding f => prepare_finding m check found f
               end) ;;
      Ret (Ok {| pr_id := primary; pr_kind := outgoing_kind out.1; pr_outgoing := out.1; pr_resumes := resumes; pr_found := out.2 |})
  end.

(** Step 1, or the mark an earlier run left *)
Definition marked_for (p : Prepared) (by_ reason : string) (now_ms : N) : Tiered Mark :=
  match pr_resumes p with
  | Some mark => Ret (Ok mark)
  | None =>
      match body_refused (pr_id p) (pr_outgoing p) by_ reason with
      | Some fault => Ret (escalation_err fault)
      | None =>
          let mark := {| mk_by := by_; mk_reason := reason; mk_at_ms := now_ms |} in
          _ <-? call (MarkItem (pr_id p) mark) ;; Ret (Ok mark)
      end
  end.

Definition escalate (p : Prepared) (by_ reason : string) (now_ms : N) : Tiered Iri :=
  mark <-? marked_for p by_ reason now_ms ;;
  let from := {| pv_from := pr_id p; pv_by := mk_by mark; pv_reason := mk_reason mark |} in
  let since_ms := if is_some (pr_found p) then 0%N else mk_at_ms mark in
  issue <-? call (CreateEscalated (pr_outgoing p) from since_ms) ;;
  _ <-? call (TombstoneItem (pr_id p) issue) ;;
  Ret (Ok issue).

Definition abandon_escalation (id : Iri) (kind : Kind) : Tiered unit :=
  item <-? local_item id kind ;;
  let primary := li_id item in
  m <-? call (MarkOf primary) ;;
  match m with
  | None => Ret (escalation_err (EFNotMarked primary))
  | Some mark =>
      _ <-? call OpenGithub ;;
      found <-? call (FindEscalated primary (mk_at_ms mark)) ;;
      match found with
      | Some issue => Ret (escalation_err (EFIssueExists primary (li_kind item) issue))
      | None => call (Unmark primary)
      end
  end.
End Escalation.

(** ** The budget of a body *)

Definition exact_weight (p : Part) : N := (pt_len p * pt_per p)%N.

Lemma sat_fold_min ws : ∀ a, (a ≤ u64_max)%N → foldl sat_add64 a ws = N.min (a + sum_list_N ws) u64_max.
Proof.
  induction ws as [|w ws IH]; intros a Ha; cbn [foldl]; [change (sum_list_N []) with 0%N; lia|].
  change (sum_list_N (w :: ws)) with (w + sum_list_N ws)%N. rewrite IH by (unfold sat_add64; lia). unfold sat_add64. lia.
Qed.

Lemma total_exact parts :
  foldl sat_add64 0%N (map weight parts) = N.min (sum_list_N (map exact_weight parts)) u64_max.
Proof.
  rewrite sat_fold_min by done. rewrite N.add_0_l.
  assert (∀ a s t m : N, N.min s m = N.min t m → N.min (N.min a m + s) m = N.min (a + t) m) as Hmin by (intros; lia).
  induction parts as [|p parts IH]; [done|]. exact (Hmin _ _ _ _ IH).
Qed.

Lemma heaviest parts best : (∃ b, best = Some b) ∨ parts ≠ [] → ∃ p, foldl heavier best parts = Some p
  ∧ (p ∈ parts ∨ best = Some p) ∧ (∀ q, q ∈ parts ∨ best = Some q → (weight q ≤ weight p)%N).
Proof.
  revert best. induction parts as [|x parts IH]; intros best Hb; cbn [foldl].
  - destruct Hb as [[b ->]|[]]; [|done]. exists b. split_and!; [done|by right|]. intros q [[]%elem_of_nil|[= ->]]. done.
  - destruct (IH (heavier best x)) as (p&->&Hp&Hmax); [left; destruct best as [b|]; cbn; [destruct (_ <=? _)%N|]; eauto|].
    exists p. split; [done|]. destruct best as [b|]; cbn in Hp, Hmax.
    + destruct (N.leb_spec (weight b) (weight x)) as [E|E]; (split; [destruct Hp as [Hp|[= <-]]; rewrite ?elem_of_cons; tauto|]);
        intros q [[->|Hq]%elem_of_cons|[= ->]]; auto.
      * etransitivity; [exact E|auto].
      * etransitivity; [apply N.lt_le_incl, E|auto].
    + split; [destruct Hp as [Hp|[= <-]]; rewrite ?elem_of_cons; tauto|]. intros q [[->|Hq]%elem_of_cons|[=]]; auto.
Qed.

Lemma body_parts_per out b r : body_parts out b r ≠ [] ∧ ∀ p, p ∈ body_parts out b r → (0 < pt_per p)%N.
Proof.
  split; [unfold body_parts; destruct out; [done|by destruct (rs_tier record)]|].
  intros p Hp. assert (Forall (fun p => 0 < pt_per p)%N (body_parts out b r)) as Hf; [|rewrite Forall_forall in Hf; by apply Hf].
  unfold body_parts. destruct out as [|f record]; [|destruct (rs_tier record == Local)]; repeat constructor; done.
Qed.

Lemma sum_member {A} (f : A → N) (l : list A) a : a ∈ l → (f a ≤ sum_list_N (map f l))%N.
Proof. induction l as [|b l IH]; [by intros ?%elem_of_nil|]. intros [->|Hin]%elem_of_cons; cbn; [lia|]. apply IH in Hin. change (foldr N.add 0%N ?l) with (sum_list_N l). lia. Qed.

Lemma sum_zero {A} (f : A → N) (l : list A) : (∀ a, a ∈ l → f a = 0%N) → sum_list_N (map f l) = 0%N.
Proof.
  induction l as [|b l IH]; intros Hl; [done|]. cbn [map]. change (sum_list_N (f b :: ?k)) with (f b + sum_list_N k)%N.
  rewrite IH by (intros a Ha; apply Hl; by right). rewrite (Hl b) by by left. done.
Qed.

Lemma budget_small : (ESCALATION_BODY_BUDGET < u64_max)%N.
Proof. by vm_compute. Qed.

(** The heaviest part of too heavy a body weighs something. *)
Lemma heaviest_pos parts p : (0 < sum_list_N (map exact_weight parts))%N → (∀ q, q ∈ parts → (weight q ≤ weight p)%N) → (0 < weight p)%N.
Proof.
  intros Ht Hmax. destruct (N.eq_0_gt_0_cases (weight p)) as [E|E]; [|done]. rewrite sum_zero in Ht; [lia|].
  intros q Hq. specialize (Hmax q Hq). rewrite E in Hmax. unfold weight, sat_mul64 in Hmax. fold (exact_weight q) in Hmax.
  pose proof budget_small. generalize dependent (exact_weight q). generalize dependent u64_max. clear. intros. lia.
Qed.

(** The most of a part that fits beside the others *)
Lemma div_fits budget others per : (0 < per)%N → (others ≤ budget)%N →
  ((budget - others) / per * per + others ≤ budget < ((budget - others) / per + 1) * per + others)%N.
Proof.
  intros Hp Ho. pose proof (N.Div0.mul_div_le (budget - others) per). pose proof (N.mul_succ_div_gt (budget - others) per ltac:(lia)).
  generalize dependent ((budget - others) / per)%N. intros. nia.
Qed.

(** (C33) An escalation is refused for its length exactly when its parts, each at
    the most its escaping can make it, weigh more than the budget, whatever the
    lengths; the arithmetic saturates and never wraps. The refusal names a part
    that weighs the most, and tells the most bytes of it that fit beside the
    others: that many are accepted, one more is not, and it is fewer than there are. *)
Theorem body_refused_exact id out by_ reason :
  let parts := body_parts out by_ reason in
  let total := sum_list_N (map exact_weight parts) in
  match body_refused id out by_ reason with
  | None => (total ≤ ESCALATION_BODY_BUDGET)%N
  | Some (EFTooLong id' what len max) =>
      (ESCALATION_BODY_BUDGET < total)%N ∧ id' = id
      ∧ ∃ p, p ∈ parts ∧ pt_what p = what ∧ pt_len p = len ∧ (∀ q, q ∈ parts → (weight q ≤ weight p)%N) ∧ (max < len)%N
        ∧ ((u64_max < total)%N ∨
           (let others := (total - exact_weight p)%N in
            (ESCALATION_BODY_BUDGET < others ∧ max = 0
             ∨ max * pt_per p + others ≤ ESCALATION_BODY_BUDGET < (max + 1) * pt_per p + others)%N))
  | Some _ => False
  end.
Proof.
  cbn zeta. unfold body_refused. rewrite total_exact. set (parts := body_parts out by_ reason). set (total := sum_list_N (map exact_weight parts)).
  destruct (body_parts_per out by_ reason) as [Hne Hper]. fold parts in Hne, Hper.
  destruct (N.leb_spec (N.min total u64_max) ESCALATION_BODY_BUDGET) as [E|E]; [pose proof budget_small; lia|].
  destruct (heaviest parts None (or_intror Hne)) as (p&->&[Hp|[=]]&Hmax). pose proof (Hper p Hp) as Hpos.
  pose proof (sum_member exact_weight parts p Hp) as Hle. fold total in Hle.
  split_and!; [lia|done|]. exists p. split_and!; [done..|intros q Hq; apply Hmax; by left| |].
  - assert (0 < weight p)%N as Hw by (apply (heaviest_pos parts); [fold total; lia|intros q Hq; apply Hmax; by left]).
    assert (weight p ≤ N.min total u64_max)%N as Hwt by (unfold weight, sat_mul64; unfold exact_weight in Hle; lia).
    assert (weight p ≤ pt_per p * pt_len p)%N as Hwp by (unfold weight, sat_mul64; lia).
    apply N.div_lt_upper_bound; [lia|]. unfold sat_sub. eapply N.lt_le_trans; [|exact Hwp]. clear -E Hw Hwt. lia.
  - destruct (N.le_gt_cases total u64_max) as [Hfit|]; [right|by left].
    assert (weight p = exact_weight p) as -> by (unfold weight, sat_mul64; unfold exact_weight in Hle |- *; lia).
    rewrite N.min_l by done. unfold sat_sub. destruct (N.le_gt_cases (total - exact_weight p) ESCALATION_BODY_BUDGET) as [Ho|Ho].
    + right. by apply div_fits.
    + left. split; [done|]. replace (ESCALATION_BODY_BUDGET - (total - exact_weight p))%N with 0%N by lia. apply N.Div0.div_0_l.
Qed.
