(* ===== verification/MemTiers.v ===== *)
(** * Two tiers in memory ([mem.rs], [mem_issues.rs])

    The local store and the GitHub tier that the code's own tests put under the
    router: every call of [Tiered] answered, with the faults of the GitHub
    side. Of the local store, the parts a tracker reads and writes. *)

From S2P Require Import Prelude RustStr Wire Model Faults Verdict Finding Agent Ledger Eff Routing Tiered.

(** [BTreeMap::values]: in the order of the keys *)
Definition values {A} (m : gmap string A) : list A := map snd (sort_by (fun a b => str_leb a.1 b.1) (map_to_list m)).
Definition values_by {A} (m : gmap N A) : list A := map snd (sort_by (fun a b => (a.1 <=? b.1)%N) (map_to_list m)).

(** ** The local store *)

Definition MEM_LABEL : string := "memory".

Record MemLocal := {
  ml_next_id : N; ml_owned : gmap string Kind; ml_aliases : gmap string string;
  ml_records : gmap string WorkRecord; ml_findings : gmap string Finding;
  ml_escalating : gmap string Mark; ml_tombstones : gmap string Tombstone; ml_routing : gmap string RoutingMap }.

(** [seq_iri] *)
Definition seq_iri (n : N) : Iri :=
  let digits := hex_digits (S (N.to_nat (N.size n))) n EmptyString in
  "urn:uuid:00000000-0000-7000-8000-" +:+ str (replicate (12 - String.length digits) "0"%char) +:+ digits.

(** [Inner::check], [check_kind], [resolve], [live], [writable] *)
Definition ml_check (s : MemLocal) (id : Iri) : Result Kind StoreError :=
  match ml_owned s !! id with
  | Some kind => Ok kind
  | None =>
      match ml_aliases s !! id ≫= (fun primary => ml_owned s !! primary) with
      | Some kind => Ok kind
      | None => Err (SNotOwned id [MEM_LABEL])
      end
  end.

Definition ml_check_kind (s : MemLocal) (id : Iri) (expected : Kind) : Result unit StoreError :=
  let? found := ml_check s id in
  if found != expected then Err (SWrongKind id expected found) else Ok tt.

Definition ml_resolve (s : MemLocal) (id : Iri) : Iri := unwrap_or (ml_aliases s !! id) id.

Definition ml_live (s : MemLocal) (id : Iri) : Result (Iri * Kind) StoreError :=
  let? kind := ml_check s id in
  let primary := ml_resolve s id in
  match ml_tombstones s !! primary with
  | Some t => Err (SEscalated primary (tb_to t))
  | None => Ok (primary, kind)
  end.

Definition ml_writable (s : MemLocal) (id : Iri) : Result Iri StoreError :=
  let? x := ml_live s id in
  if is_some (ml_escalating s !! x.1) then Err (SEscalating x.1 (escalate_command x.2 x.1)) else Ok x.1.

(** The store with some of its maps replaced *)
Definition ml_with_items (s : MemLocal) (records : gmap string WorkRecord) (findings : gmap string Finding) : MemLocal := {|
  ml_next_id := ml_next_id s; ml_owned := ml_owned s; ml_aliases := ml_aliases s; ml_records := records; ml_findings := findings;
  ml_escalating := ml_escalating s; ml_tombstones := ml_tombstones s; ml_routing := ml_routing s |}.

Definition ml_with_marks (s : MemLocal) (escalating : gmap string Mark) (tombstones : gmap string Tombstone) : MemLocal := {|
  ml_next_id := ml_next_id s; ml_owned := ml_owned s; ml_aliases := ml_aliases s; ml_records := ml_records s;
  ml_findings := ml_findings s; ml_escalating := escalating; ml_tombstones := tombstones; ml_routing := ml_routing s |}.

(** [Inner::mint], less the handles *)
Definition ml_mint (s : MemLocal) (kind : Kind) : Iri * MemLocal :=
  let n := (ml_next_id s + 1)%N in
  (seq_iri n, {| ml_next_id := n; ml_owned := <[seq_iri n := kind]> (ml_owned s); ml_aliases := ml_aliases s;
                 ml_records := ml_records s; ml_findings := ml_findings s; ml_escalating := ml_escalating s;
                 ml_tombstones := ml_tombstones s; ml_routing := ml_routing s |}).

Definition rc_new (id : RecordId) (project : ProjectId) (title : string) (area : option string) : WorkRecord := {|
  rc_id := id; rc_project := project; rc_title := title; rc_state := Todo; rc_also_known_as := []; rc_area := area |}.
Definition rc_with_state (r : WorkRecord) (state : State) : WorkRecord := {|
  rc_id := rc_id r; rc_project := rc_project r; rc_title := rc_title r; rc_state := state;
  rc_also_known_as := rc_also_known_as r; rc_area := rc_area r |}.
Definition rc_named (r : WorkRecord) (id : RecordId) (aliases : list Iri) : WorkRecord := {|
  rc_id := id; rc_project := rc_project r; rc_title := rc_title r; rc_state := rc_state r;
  rc_also_known_as := aliases; rc_area := rc_area r |}.

(** A finding under a new id, record and list of aliases *)
Definition fd_named (f : Finding) (id : FindingId) (record : RecordId) (aliases : list Iri) : Finding := {|
  fd_id := id; fd_project := fd_project f; fd_record := record; fd_raised_by := fd_raised_by f; fd_claim := fd_claim f;
  fd_reproduction := fd_reproduction f; fd_state := fd_state f; fd_assigned_to := fd_assigned_to f;
  fd_withdrawn_reason := fd_withdrawn_reason f; fd_also_known_as := aliases; fd_security := fd_security f; fd_area := fd_area f |}.

(** What an update keeps of the stored finding *)
Definition fd_kept (f kept : Finding) (id : FindingId) : Finding := {|
  fd_id := id; fd_project := fd_project f; fd_record := fd_record kept; fd_raised_by := fd_raised_by kept; fd_claim := fd_claim f;
  fd_reproduction := fd_reproduction f; fd_state := fd_state f; fd_assigned_to := fd_assigned_to f;
  fd_withdrawn_reason := fd_withdrawn_reason f; fd_also_known_as := fd_also_known_as kept; fd_security := fd_security kept;
  fd_area := fd_area kept |}.

Definition ml_add_finding (s : MemLocal) (f : Finding) (record : RecordId) : Iri * MemLocal :=
  let '(id, s) := ml_mint s KFinding in
  (id, ml_with_items s (ml_records s) (<[id := fd_named f id record (fd_also_known_as f)]> (ml_findings s))).

(** A write that may be refused: the store stays as it was. *)
Definition attempt_on {S A} (s : S) (c : Result (A * S) StoreError) : Result A StoreError * S :=
  match c with Ok (a, s') => (Ok a, s') | Err e => (Err e, s) end.

(** [add_alias]. Every owned record and finding has its row, so the two
    [expect]s find one; the model leaves a missing row missing. *)
Definition ml_add_alias (s : MemLocal) (primary alias : Iri) : Result (unit * MemLocal) StoreError :=
  if is_some (ml_owned s !! alias) || is_some (ml_aliases s !! alias) then Err (SAlreadyExists alias)
  else
    let? resolved := ml_writable s primary in
    let? kind := ml_check s resolved in
    let named records findings := {|
      ml_next_id := ml_next_id s; ml_owned := ml_owned s; ml_aliases := <[alias := resolved]> (ml_aliases s);
      ml_records := records; ml_findings := findings; ml_escalating := ml_escalating s;
      ml_tombstones := ml_tombstones s; ml_routing := ml_routing s |} in
    match kind with
    | KRecord =>
        Ok (tt, named (alter (fun r => rc_named r (rc_id r) (rc_also_known_as r ++ [alias])) resolved (ml_records s)) (ml_findings s))
    | KFinding =>
        Ok (tt, named (ml_records s)
              (alter (fun f => fd_named f (fd_id f) (fd_record f) (fd_also_known_as f ++ [alias])) resolved (ml_findings s)))
    | other => Err (SBackend (resolved +:+ " is a " +:+ as_wire other +:+ ", and only a record or finding can carry an alias"))
    end.

(** [impl Tracker for MemStore] *)
Definition ml_tracker (op : TrackerOp) (s : MemLocal) : TrackerResp op * MemLocal :=
  match op return TrackerResp op * MemLocal with
  | TAddRecord project title area => attempt_on s
      (let? _ := ml_check_kind s project KProject in
       let '(id, s) := ml_mint s KRecord in
       Ok (id, ml_with_items s (<[id := rc_new id project title area]> (ml_records s)) (ml_findings s)))
  | TGetRecord id => (let? x := ml_live s id in Ok (ml_records s !! x.1), s)
  | TListRecords project =>
      (let? _ := ml_check_kind s project KProject in
       Ok (List.filter (fun r => (rc_project r == project) && is_none (ml_tombstones s !! rc_id r)) (values (ml_records s))), s)
  | TSetRecordState id state => attempt_on s
      (let? target := ml_writable s id in
       match ml_records s !! target with
       | None => Err (SNoSuchRecord id)
       | Some r => Ok (tt, ml_with_items s (<[target := rc_with_state r state]> (ml_records s)) (ml_findings s))
       end)
  | TAddFinding f => attempt_on s
      (let? _ := ml_check_kind s (fd_project f) KProject in
       let? _ := ml_check_kind s (fd_record f) KRecord in
       let? x := ml_live s (fd_record f) in
       Ok (ml_add_finding s f x.1))
  | TAddFindingChecked f record => attempt_on s
      (let? _ := ml_check_kind s (fd_project f) KProject in
       let? _ := check_foreign_for_local record (is_ok (ml_check s (fr_id record))) in
       Ok (ml_add_finding s f (fr_id record)))
  | TGetFinding id => (let? x := ml_live s id in Ok (ml_findings s !! x.1), s)
  | TUpdateFinding f => attempt_on s
      (let? target := ml_writable s (fd_id f) in
       match ml_findings s !! target with
       | None => Err (SNoSuchFinding (fd_id f))
       | Some kept => Ok (tt, ml_with_items s (ml_records s) (<[target := fd_kept f kept target]> (ml_findings s)))
       end)
  | TListFindings project =>
      (let? _ := ml_check_kind s project KProject in
       Ok (List.filter (fun f => (fd_project f == project) && is_none (ml_tombstones s !! fd_id f)) (values (ml_findings s))), s)
  | TWithdrawalsBy actor =>
      (Ok (len (List.filter (fun f => (fd_raised_by f == actor) && (fd_state f == Withdrawn) && is_none (ml_tombstones s !! fd_id f))
                  (values (ml_findings s)))), s)
  | TAddAlias primary alias => attempt_on s (ml_add_alias s primary alias)
  end.

(** [impl Escalations for MemStore] *)
Definition ml_mark (s : MemLocal) (id : Iri) (mark : Mark) : Result (unit * MemLocal) StoreError :=
  let? x := ml_live s id in
  let '(primary, kind) := x in
  if negb ((kind == KRecord) || (kind == KFinding)) then Err (SWrongKind id KRecord kind)
  else if is_some (ml_escalating s !! primary) then Err (SEscalation (EFAlreadyMarked primary kind))
  else Ok (tt, ml_with_marks s (<[primary := mark]> (ml_escalating s)) (ml_tombstones s)).

Definition ml_unmark (s : MemLocal) (id : Iri) : Result (unit * MemLocal) StoreError :=
  let? _ := ml_check s id in
  let primary := ml_resolve s id in
  if is_none (ml_escalating s !! primary) then Err (SEscalation (EFNotMarked primary))
  else Ok (tt, ml_with_marks s (delete primary (ml_escalating s)) (ml_tombstones s)).

Definition ml_tombstone (s : MemLocal) (id to : Iri) : Result (Tombstone * MemLocal) StoreError :=
  let? _ := ml_check s id in
  let primary := ml_resolve s id in
  match ml_escalating s !! primary with
  | None => Err (SEscalation (EFNotMarked primary))
  | Some mark =>
      let tomb := {| tb_from := primary; tb_to := to; tb_by := mk_by mark; tb_reason := mk_reason mark; tb_at_ms := mk_at_ms mark |} in
      Ok (tomb, ml_with_marks s (delete primary (ml_escalating s)) (<[primary := tomb]> (ml_tombstones s)))
  end.

(** ** The GitHub tier *)

Definition ISSUES : string := "https://github.com/acme/widgets/issues/".
Definition ISSUES_LABEL : string := "github:acme/widgets".

(** [MemIssues]; [mi_unbound] is what its [GithubForm] says. *)
Record MemIssues := {
  mi_last : N; mi_records : gmap N WorkRecord; mi_findings : gmap N Finding; mi_aliases : gmap string N; mi_keys : gmap string N;
  mi_down : bool; mi_unbound : bool; mi_public : bool; mi_scan_fails : bool; mi_visibility_unread : bool;
  mi_fail_next_create : bool; mi_lose_next_create_answer : bool; mi_creates : N }.

Definition issue_url (n : N) : Iri := ISSUES +:+ pretty n.

Definition issue_number (id : Iri) : option N := strip_prefix ISSUES id ≫= parse_uint u64_max.

Definition mi_unreachable : StoreError := SUnreachable ISSUES_LABEL "connection refused".
Definition mi_up (s : MemIssues) : Result unit StoreError := if mi_down s then Err mi_unreachable else Ok tt.

Definition mi_number (s : MemIssues) (id : Iri) : Result N StoreError :=
  match issue_number id with
  | Some n => Ok n
  | None => ok_or (mi_aliases s !! id) (SNotOwned id [ISSUES_LABEL])
  end.

(** The tier with its issues, its names or its faults replaced *)
Definition mi_with (s : MemIssues) (last : N) (records : gmap N WorkRecord) (findings : gmap N Finding) (aliases : gmap string N) : MemIssues := {|
  mi_last := last; mi_records := records; mi_findings := findings; mi_aliases := aliases; mi_keys := mi_keys s;
  mi_down := mi_down s; mi_unbound := mi_unbound s; mi_public := mi_public s; mi_scan_fails := mi_scan_fails s;
  mi_visibility_unread := mi_visibility_unread s; mi_fail_next_create := mi_fail_next_create s;
  mi_lose_next_create_answer := mi_lose_next_create_answer s; mi_creates := mi_creates s |}.

Definition mi_with_keys (s : MemIssues) (keys : gmap string N) (fail_next lose_next : bool) (creates : N) : MemIssues := {|
  mi_last := mi_last s; mi_records := mi_records s; mi_findings := mi_findings s; mi_aliases := mi_aliases s; mi_keys := keys;
  mi_down := mi_down s; mi_unbound := mi_unbound s; mi_public := mi_public s; mi_scan_fails := mi_scan_fails s;
  mi_visibility_unread := mi_visibility_unread s; mi_fail_next_create := fail_next;
  mi_lose_next_create_answer := lose_next; mi_creates := creates |}.

Definition mi_not_private : StoreError := SSecurityNotPrivate "acme/widgets" "public".

Definition mi_insert_finding (s : MemIssues) (f : Finding) (record : RecordId) : Result (Iri * MemIssues) StoreError :=
  if fd_security f && mi_public s then Err mi_not_private
  else
    let n := (mi_last s + 1)%N in
    Ok (issue_url n, mi_with s n (mi_records s) (<[n := fd_named f (issue_url n) record (fd_also_known_as f)]> (mi_findings s)) (mi_aliases s)).

Definition mi_add_finding (s : MemIssues) (f : Finding) : Result (Iri * MemIssues) StoreError :=
  let? n := mi_number s (fd_record f) in
  if is_some (mi_findings s !! n) then Err (SWrongKind (fd_record f) KRecord KFinding)
  else
    match mi_records s !! n with
    | None => Err (SNoSuchRecord (fd_record f))
    | Some r => mi_insert_finding s f (rc_id r)
    end.

Definition mi_add_alias (s : MemIssues) (primary alias : Iri) : Result (unit * MemIssues) StoreError :=
  if starts_with ISSUES alias || is_some (mi_aliases s !! alias) then Err (SAlreadyExists alias)
  else
    let? n := mi_number s primary in
    let named records findings := mi_with s (mi_last s) records findings (<[alias := n]> (mi_aliases s)) in
    match mi_records s !! n, mi_findings s !! n with
    | Some r, _ => Ok (tt, named (<[n := rc_named r (rc_id r) (rc_also_known_as r ++ [alias])]> (mi_records s)) (mi_findings s))
    | None, Some f =>
        Ok (tt, named (mi_records s) (<[n := fd_named f (fd_id f) (fd_record f) (fd_also_known_as f ++ [alias])]> (mi_findings s)))
    | None, None => Err (SNotOwned primary [ISSUES_LABEL])
    end.

(** [impl Tracker for MemIssues] *)
Definition mi_tracker (op : TrackerOp) (s : MemIssues) : TrackerResp op * MemIssues :=
  match op return TrackerResp op * MemIssues with
  | TAddRecord project title area => attempt_on s
      (let? _ := mi_up s in
       let n := (mi_last s + 1)%N in
       Ok (issue_url n, mi_with s n (<[n := rc_new (issue_url n) project title area]> (mi_records s)) (mi_findings s) (mi_aliases s)))
  | TGetRecord id => (let? _ := mi_up s in let? n := mi_number s id in Ok (mi_records s !! n), s)
  | TListRecords project =>
      (let? _ := mi_up s in Ok (List.filter (fun r => rc_project r == project) (values_by (mi_records s))), s)
  | TSetRecordState id state => attempt_on s
      (let? _ := mi_up s in let? n := mi_number s id in
       match mi_records s !! n with
       | None => Err (SNoSuchRecord id)
       | Some r => Ok (tt, mi_with s (mi_last s) (<[n := rc_with_state r state]> (mi_records s)) (mi_findings s) (mi_aliases s))
       end)
  | TAddFinding f => attempt_on s (let? _ := mi_up s in mi_add_finding s f)
  | TAddFindingChecked f record => attempt_on s
      (let? _ := mi_up s in
       if fr_tier record != Local
       then Err (SBackend (fr_id record +:+
              " is a record on GitHub, so a finding about it is raised with `add_finding`, which checks it here"))
       else mi_insert_finding s f (fr_id record))
  | TGetFinding id => (let? _ := mi_up s in let? n := mi_number s id in Ok (mi_findings s !! n), s)
  | TUpdateFinding f => attempt_on s
      (let? _ := mi_up s in let? n := mi_number s (fd_id f) in
       match mi_findings s !! n with
       | None => Err (SNoSuchFinding (fd_id f))
       | Some kept => Ok (tt, mi_with s (mi_last s) (mi_records s) (<[n := fd_kept f kept (fd_id kept)]> (mi_findings s)) (mi_aliases s))
       end)
  | TListFindings project =>
      (let? _ := mi_up s in Ok (List.filter (fun f => fd_project f == project) (values_by (mi_findings s))), s)
  | TWithdrawalsBy actor =>
      (let? _ := mi_up s in
       Ok (len (List.filter (fun f => (fd_raised_by f == actor) && (fd_state f == Withdrawn)) (values_by (mi_findings s)))), s)
  | TAddAlias primary alias => attempt_on s (let? _ := mi_up s in mi_add_alias s primary alias)
  end.

(** [impl GithubTier for MemIssues] *)
Definition contains_str (p s : string) : bool := is_some (split_at_str p s).

Definition mi_form (unbound : bool) : GithubForm := {|
  gt_available := negb unbound;
  gt_claims id := negb unbound && starts_with ISSUES id;
  gt_issue_form id := starts_with "https://github.com/" id && contains_str "/issues/" id |}.

Definition mi_open (s : MemIssues) : Result unit StoreError :=
  if mi_unbound s then Err (SRouting (RFTierUnavailable Github "this test binds no repository")) else mi_up s.

Definition mi_require_private (s : MemIssues) : Result unit StoreError :=
  let? _ := mi_up s in
  if mi_visibility_unread s then Err (SBackend "the visibility could not be read")
  else if mi_public s then Err mi_not_private else Ok tt.

Definition mi_items_in_area (s : MemIssues) (project : ProjectId) (area : string) : Result (list (Kind * Iri)) StoreError :=
  let? _ := mi_up s in
  if mi_scan_fails s then Err (SBackend "the area scan failed")
  else
    Ok (map (fun r => (KRecord, rc_id r))
          (List.filter (fun r => (rc_project r == project) && (rc_area r == Some area)) (values_by (mi_records s)))
        ++ map (fun f => (KFinding, fd_id f))
          (List.filter (fun f => (fd_project f == project) && (fd_area f == Some area)) (values_by (mi_findings s)))).

Definition mi_find_escalated (s : MemIssues) (key : Iri) : Result (option Iri) StoreError :=
  let? _ := mi_up s in Ok (issue_url <$> mi_keys s !! key).

Definition mi_alias_taken (s : MemIssues) (alias : Iri) : Result (option Iri) StoreError :=
  let? _ := mi_up s in
  match issue_number alias with
  | Some n => Ok (Some (issue_url n))
  | None => Ok (issue_url <$> mi_aliases s !! alias)
  end.

(** The issue of an item that has none yet *)
Definition mi_create (s : MemIssues) (item : Outgoing) (from : Iri) : MemIssues :=
  let n := (mi_last s + 1)%N in
  let url := issue_url n in
  let own := match item with OutRecord r _ => rc_also_known_as r | OutFinding f _ => fd_also_known_as f end in
  let aliases := from :: own in
  let s' := mi_with s n
    (match item with OutRecord r _ => <[n := rc_named r url aliases]> (mi_records s) | OutFinding _ _ => mi_records s end)
    (match item with OutFinding f record => <[n := fd_named f url (rs_id record) aliases]> (mi_findings s) | OutRecord _ _ => mi_findings s end)
    (foldl (fun m alias => <[alias := n]> m) (mi_aliases s) aliases) in
  mi_with_keys s' (<[from := n]> (mi_keys s)) (mi_fail_next_create s) (mi_lose_next_create_answer s) (mi_creates s + 1)%N.

Definition security_item (item : Outgoing) : bool := match item with OutFinding f _ => fd_security f | OutRecord _ _ => false end.

Definition mi_create_escalated (s : MemIssues) (item : Outgoing) (from : Provenance) : Result Iri StoreError * MemIssues :=
  if mi_down s then (Err mi_unreachable, s)
  else if mi_fail_next_create s
  then (Err mi_unreachable, mi_with_keys s (mi_keys s) false (mi_lose_next_create_answer s) (mi_creates s))
  else
    match mi_keys s !! pv_from from with
    | Some n => (Ok (issue_url n), s)
    | None =>
        if security_item item && mi_public s then (Err mi_not_private, s)
        else
          let s' := mi_create s item (pv_from from) in
          let s'' := mi_with_keys s' (mi_keys s') (mi_fail_next_create s') false (mi_creates s') in
          if mi_lose_next_create_answer s then (Err mi_unreachable, s'') else (Ok (issue_url (mi_last s + 1)), s'')
    end.

(** ** Both, under the router *)

Record TwoTiers := { tt_local : MemLocal; tt_github : MemIssues }.

Definition tt_on_local {A} (w : TwoTiers) (x : A * MemLocal) : A * TwoTiers := (x.1, {| tt_local := x.2; tt_github := tt_github w |}).
Definition tt_on_github {A} (w : TwoTiers) (x : A * MemIssues) : A * TwoTiers := (x.1, {| tt_local := tt_local w; tt_github := x.2 |}).

Definition tt_answer (o : TierOp) (w : TwoTiers) : TierResp o * TwoTiers :=
  let l := tt_local w in
  let s := tt_github w in
  match o return TierResp o * TwoTiers with
  | KindOf id => (ml_check l id, w)
  | RoutesOf project => (let? _ := ml_check_kind l project KProject in Ok (ml_routing l !! project), w)
  | OnTier Local op => tt_on_local w (ml_tracker op l)
  | OnTier Github op => tt_on_github w (mi_tracker op s)
  | OpenGithub => (mi_open s, w)
  | RequirePrivate => (mi_require_private s, w)
  | ItemsInArea project area => (mi_items_in_area s project area, w)
  | FindEscalated key _ => (mi_find_escalated s key, w)
  | AliasTaken alias => (mi_alias_taken s alias, w)
  | CreateEscalated item from _ => tt_on_github w (mi_create_escalated s item from)
  | MarkItem id mark => tt_on_local w (attempt_on l (ml_mark l id mark))
  | MarkOf id => (Ok (ml_escalating l !! ml_resolve l id), w)
  | Unmark id => tt_on_local w (attempt_on l (ml_unmark l id))
  | TombstoneItem id to => tt_on_local w (attempt_on l (ml_tombstone l id to))
  | TombstoneOf id => (Ok (ml_tombstones l !! ml_resolve l id), w)
  end.

(** Calls that write nothing leave both tiers as they are. *)
Lemma asks_keep o w : asks (event o (tt_answer o w).1) → (tt_answer o w).2 = w.
Proof. destruct w as [l s]. destruct o as [| |[] []| | | | | | | | | | |]; done. Qed.
