(* ===== verification/EscalateWorld.v ===== *)
(** * Escalations that are cut short

    The escalation of [Escalate] against the two tiers of [MemTiers], over any
    history of runs that stop between two calls, abandoned ones, searches that
    miss an issue, faults of the GitHub side, and other work on either tier.
    GitHub is the in-memory one: its create finds the issue of its key, always. *)

From S2P Require Import Prelude RustStr Wire Model Faults Verdict Finding Agent Ledger Eff Routing Tiered Escalate MemTiers.

(** What the command [fl … escalate] asks of the router ([cmd/escalate.rs]); its
    own checks of the working tree come between the two and can only stop it. *)
Definition escalate_run (g : GithubForm) (id : Iri) (kind : Kind) (by_ reason : string) (now_ms : N) : Tiered Iri :=
  p <-? prepare_escalation g id kind ;; escalate p by_ reason now_ms.

(** Rows are under their own id, which no alias shadows. *)
Definition local_wf (l : MemLocal) : Prop :=
  (∀ k r, ml_records l !! k = Some r → rc_id r = k ∧ ml_owned l !! k = Some KRecord)
  ∧ (∀ k f, ml_findings l !! k = Some f → fd_id f = k ∧ ml_owned l !! k = Some KFinding)
  ∧ (∀ k kind, ml_owned l !! k = Some kind → ml_aliases l !! k = None).

(** Work that is no escalation: it leaves marks, tombstones and create keys. *)
Definition other_work (w w' : TwoTiers) : Prop :=
  local_wf (tt_local w') ∧ ml_escalating (tt_local w') = ml_escalating (tt_local w)
  ∧ ml_tombstones (tt_local w') = ml_tombstones (tt_local w)
  ∧ mi_keys (tt_github w') = mi_keys (tt_github w) ∧ mi_creates (tt_github w') = mi_creates (tt_github w).

Definition form_of (w : TwoTiers) : GithubForm := mi_form (mi_unbound (tt_github w)).

(** GitHub's search lags: it may miss an issue that is there. [sees] says
    which searches, by create key and how far back, find theirs; the rest of
    the two tiers answer as they do. *)
Definition tt_seen (sees : Iri → N → bool) (o : TierOp) (w : TwoTiers) : TierResp o * TwoTiers :=
  match o return TierResp o * TwoTiers with
  | FindEscalated key since_ms => (let? found := mi_find_escalated (tt_github w) key in Ok (if sees key since_ms then found else None), w)
  | o => tt_answer o w
  end.

Inductive tiers_step (w : TwoTiers) : TwoTiers → Prop :=
| ts_run sees id kind by_ reason now_ms w' :
    w' ∈ worlds (tt_seen sees) (escalate_run (form_of w) id kind by_ reason now_ms) w → tiers_step w w'
| ts_other w' : other_work w w' → tiers_step w w'.

(** Two tiers between which nothing was escalated yet *)
Definition no_escalation (w : TwoTiers) : Prop :=
  local_wf (tt_local w) ∧ ml_escalating (tt_local w) = ∅ ∧ ml_tombstones (tt_local w) = ∅
  ∧ mi_keys (tt_github w) = ∅ ∧ mi_creates (tt_github w) = 0%N.

(** The items whose mark was removed though their issue exists, because the
    search back to the mark missed it *)
Definition missed (sees : Iri → N → bool) (w w' : TwoTiers) (k : Iri) : bool :=
  match ml_escalating (tt_local w) !! k, ml_escalating (tt_local w') !! k with
  | Some mark, None => is_some (mi_keys (tt_github w) !! k) && negb (sees k (mk_at_ms mark))
  | _, _ => false
  end.
Definition left_behind (sees : Iri → N → bool) (w w' : TwoTiers) : gset Iri :=
  filter (fun k => missed sees w w' k = true) (dom (ml_escalating (tt_local w))).

(** Histories, with the items that abandons left behind in them *)
Inductive tiers_reachable : gset Iri → TwoTiers → Prop :=
| tr_first w : no_escalation w → tiers_reachable ∅ w
| tr_step M w w' : tiers_reachable M w → tiers_step w w' → tiers_reachable M w'
| tr_abandon M w sees id kind w' : tiers_reachable M w → w' ∈ worlds (tt_seen sees) (abandon_escalation (form_of w) id kind) w →
    tiers_reachable (M ∪ left_behind sees w w') w'.

(** What the invariant needs of how the tiers answer *)
Definition is_search (o : TierOp) : bool := match o with FindEscalated _ _ => true | _ => false end.
Record like_tiers (h : ∀ o : TierOp, TwoTiers → TierResp o * TwoTiers) : Prop := {
  lt_same : ∀ o w, is_search o = false → h o w = tt_answer o w;
  lt_search : ∀ key since_ms w, (h (FindEscalated key since_ms) w).2 = w;
}.

Lemma seen_like sees : like_tiers (tt_seen sees).
Proof. by split; [intros []|]. Qed.
Lemma tiers_like : like_tiers tt_answer.
Proof. by split. Qed.

Lemma like_keep h : like_tiers h → ∀ o w, asks (event o (h o w).1) → (h o w).2 = w.
Proof.
  intros Hh o w. destruct (is_search o) eqn:E; [destruct o; try done; intros _; apply Hh|]. rewrite (lt_same _ Hh) by done. apply asks_keep.
Qed.

(** ** The tracker's own work *)

Section Work.
Context (l : MemLocal).
Hypothesis Hwf : local_wf l.

Lemma items_wf records findings :
  (∀ k r, records !! k = Some r → ml_records l !! k = Some r ∨ rc_id r = k ∧ ml_owned l !! k = Some KRecord) →
  (∀ k f, findings !! k = Some f → ml_findings l !! k = Some f ∨ fd_id f = k ∧ ml_owned l !! k = Some KFinding) →
  local_wf (ml_with_items l records findings).
Proof. destruct Hwf as (H1&H2&H3). intros Hr Hf. split_and!; [intros k r [?%H1|?]%Hr|intros k f [?%H2|?]%Hf|]; done. Qed.

Lemma alias_wf primary alias l' : ml_add_alias l primary alias = Ok (tt, l') →
  local_wf l' ∧ ml_escalating l' = ml_escalating l ∧ ml_tombstones l' = ml_tombstones l.
Proof.
  unfold ml_add_alias. destruct (ml_owned l !! alias) eqn:Eo; [done|]. destruct (ml_aliases l !! alias); [done|]. cbn [is_some orb].
  intros (resolved&_&(kind&_&H)%result_bind_ok)%result_bind_ok. destruct Hwf as (H1&H2&H3).
  assert (∀ k kd, ml_owned l !! k = Some kd → <[alias := resolved]> (ml_aliases l) !! k = None) as Ha.
  { intros k kd Hk. rewrite lookup_insert_ne by congruence. by eapply H3. }
  destruct kind; try done; injection H as <-; (split; [|done]); split_and!; cbn; try done.
  - intros k r [(<-&x&Hx&->)|[_ Hx]]%lookup_alter_Some; by apply H1 in Hx.
  - intros k r [(<-&x&Hx&->)|[_ Hx]]%lookup_alter_Some; by apply H2 in Hx.
Qed.

Hypothesis Hfresh : ml_owned l !! seq_iri (ml_next_id l + 1) = None.
Hypothesis Hunused : ml_aliases l !! seq_iri (ml_next_id l + 1) = None.

Lemma mint_wf kind : local_wf (ml_mint l kind).2.
Proof.
  destruct Hwf as (H1&H2&H3). split_and!; cbn.
  - intros k r Hk. destruct (H1 k r Hk) as [? Ho]. split; [done|]. rewrite lookup_insert_ne by congruence. done.
  - intros k f Hk. destruct (H2 k f Hk) as [? Ho]. split; [done|]. rewrite lookup_insert_ne by congruence. done.
  - intros k kd [[<- _]|[_ Hk]]%lookup_insert_Some; [done|by eapply H3].
Qed.
End Work.

Lemma added_wf l f record : local_wf l → ml_owned l !! seq_iri (ml_next_id l + 1) = None →
  ml_aliases l !! seq_iri (ml_next_id l + 1) = None → local_wf (ml_add_finding l f record).2.
Proof.
  intros Hwf Ho Ha. cbn. apply items_wf; [by apply (mint_wf l Hwf Ho Ha KFinding)|by left|].
  intros k g [[<- <-]|[_ Hk]]%lookup_insert_Some; [right|by left]. split; [done|]. cbn. by rewrite lookup_insert_eq.
Qed.

Lemma attempt_kept {S A} (P : S → Prop) (s : S) (c : Result (A * S) StoreError) :
  P s → (∀ a s', c = Ok (a, s') → P s') → P (attempt_on s c).2.
Proof. intros Hs Hc. destruct c as [[a s']|e]; cbn; [by eapply Hc|done]. Qed.

Lemma insert_finding_keys s f record a s' : mi_insert_finding s f record = Ok (a, s') → mi_keys s' = mi_keys s ∧ mi_creates s' = mi_creates s.
Proof. unfold mi_insert_finding. destruct (_ && _); [done|]. by intros [= _ <-]. Qed.

(** GitHub's tracker makes no escalated issue. *)
Lemma issues_tracker_keys s op : mi_keys (mi_tracker op s).2 = mi_keys s ∧ mi_creates (mi_tracker op s).2 = mi_creates s.
Proof.
  destruct op; try done; cbn [mi_tracker]; apply (attempt_kept (fun s' => mi_keys s' = mi_keys s ∧ mi_creates s' = mi_creates s)); try done;
    intros a s' (?&_&H)%result_bind_ok.
  - by injection H as _ <-.
  - apply result_bind_ok in H as (n&_&H). destruct (mi_records s !! n); [|done]. by injection H as _ <-.
  - unfold mi_add_finding in H. apply result_bind_ok in H as (n&_&H). destruct (is_some _); [done|].
    destruct (mi_records s !! n); [|done]. by eapply insert_finding_keys.
  - destruct (_ != _); [done|]. by eapply insert_finding_keys.
  - apply result_bind_ok in H as (n&_&H). destruct (mi_findings s !! n); [|done]. by injection H as _ <-.
  - unfold mi_add_alias in H. destruct (_ || _); [done|]. apply result_bind_ok in H as (n&_&H).
    destruct (mi_records s !! n), (mi_findings s !! n); try done; by injection H as _ <-.
Qed.

(** The steps of other work are general enough for every operation of the
    two trackers, as long as the next id is unused. *)
Lemma tracker_is_other_work w t op : local_wf (tt_local w) →
  ml_owned (tt_local w) !! seq_iri (ml_next_id (tt_local w) + 1) = None →
  ml_aliases (tt_local w) !! seq_iri (ml_next_id (tt_local w) + 1) = None →
  other_work w (tt_answer (OnTier t op) w).2.
Proof.
  intros Hwf Ho Ha. destruct t; [|split_and!; [done..|apply issues_tracker_keys|apply issues_tracker_keys]].
  set (l := tt_local w) in *.
  enough (local_wf (ml_tracker op l).2 ∧ ml_escalating (ml_tracker op l).2 = ml_escalating l
    ∧ ml_tombstones (ml_tracker op l).2 = ml_tombstones l) as (?&?&?) by (by split_and!).
  destruct op; try done; cbn [ml_tracker];
    apply (attempt_kept (fun l' => local_wf l' ∧ ml_escalating l' = ml_escalating l ∧ ml_tombstones l' = ml_tombstones l)); try done.
  - intros a l' (?&_&H)%result_bind_ok. injection H as _ <-. split; [|done].
    apply items_wf; [by apply (mint_wf l Hwf Ho Ha KRecord)| |by left].
    intros k g [[<- <-]|[_ Hk]]%lookup_insert_Some; [right|by left]. split; [done|]. cbn. by rewrite lookup_insert_eq.
  - intros a l' (target&_&H)%result_bind_ok. destruct (ml_records l !! target) as [r|] eqn:E; [|done]. injection H as _ <-.
    split; [|done]. apply items_wf; [done| |by left].
    intros k g [[<- <-]|[_ Hk]]%lookup_insert_Some; [right; exact (proj1 Hwf _ _ E)|by left].
  - intros a l' (?&_&(?&_&(x&_&H)%result_bind_ok)%result_bind_ok)%result_bind_ok. injection H as _ <-. split; [by apply added_wf|done].
  - intros a l' (?&_&(?&_&H)%result_bind_ok)%result_bind_ok. injection H as _ <-. split; [by apply added_wf|done].
  - intros a l' (target&_&H)%result_bind_ok. destruct (ml_findings l !! target) as [r|] eqn:E; [|done]. injection H as _ <-.
    split; [|done]. apply items_wf; [done|by left|].
    intros k g [[<- <-]|[_ Hk]]%lookup_insert_Some; [right; split; [done|exact (proj2 (proj1 (proj2 Hwf) _ _ E))]|by left].
  - intros [] l' H. by eapply alias_wf.
Qed.

(** ** What preparing tells *)

Section Prepare.
Context (g : GithubForm).

Lemma local_item_asks id kind : all_events asks (local_item g id kind).
Proof. unfold local_item. asking. Qed.

Lemma names_free_asks id aliases : all_events asks (names_free id aliases).
Proof. unfold names_free. generalize (id :: aliases). intros l. induction l; cbn [names_free_in]; asking. Qed.

Lemma findings_asks project only : all_events asks (findings g project only).
Proof.
  unfold findings. apply all_events_rbind; [|intros; apply one_copy_asks]. apply all_events_collect. intros tier.
  apply all_events_rbind; [apply read_asks; asking|intros; asking].
Qed.
#[local] Hint Resolve local_item_asks names_free_asks findings_asks : tiered.

Lemma prepare_asks id kind : all_events asks (prepare_escalation g id kind).
Proof. unfold prepare_escalation, prepare_record, prepare_finding, open_findings. asking. Qed.

(** The item prepared is a live local one, and its mark was read. *)
Lemma local_item_told id kind tr item : runs (local_item g id kind) tr (Ok item) →
  ∃ i, match item with
       | LRecord r => told (OnTier Local (TGetRecord i)) (Ok (Some r)) ∈ tr
       | LFinding f => told (OnTier Local (TGetFinding i)) (Ok (Some f)) ∈ tr
       end.
Proof.
  unfold local_item. destruct (gt_claims g id); [by intros [_ ?]|].
  intros [(?&_&?)|(tr1&tr2&[t|]&->&_&H2)]%runs_rbind; [done|by destruct H2|].
  apply runs_bind in H2 as (tr3&tr4&found&->&_&H3). destruct found as [found|e]; [|destruct e; by destruct H3].
  set (expected := match kind with KFinding => KFinding | _ => KRecord end) in *.
  destruct (negb _); [by destruct H3|]. destruct (expected == KRecord).
  - apply runs_rbind in H3 as [(?&_&?)|(tr5&tr6&r&->&->%(runs_call (Resp := TierResp) (OnTier Local (TGetRecord id)))&[-> Hr])]; [done|].
    destruct r as [r|]; [|done]. injection Hr as ->. exists id. rewrite !elem_of_app. right. right. left. by left.
  - apply runs_rbind in H3 as [(?&_&?)|(tr5&tr6&r&->&->%(runs_call (Resp := TierResp) (OnTier Local (TGetFinding id)))&[-> Hr])]; [done|].
    destruct r as [r|]; [|done]. injection Hr as ->. exists id. rewrite !elem_of_app. right. right. left. by left.
Qed.

Lemma prepare_told id kind tr p : runs (prepare_escalation g id kind) tr (Ok p) →
  told (MarkOf (pr_id p)) (Ok (pr_resumes p)) ∈ tr
  ∧ ∃ i, (∃ r, pr_id p = rc_id r ∧ told (OnTier Local (TGetRecord i)) (Ok (Some r)) ∈ tr)
       ∨ (∃ f, pr_id p = fd_id f ∧ told (OnTier Local (TGetFinding i)) (Ok (Some f)) ∈ tr).
Proof.
  intros [(?&_&?)|(tr1&tr2&item&->&[i Hi]%local_item_told&H2)]%runs_rbind; [done|].
  apply runs_rbind in H2 as [(?&_&?)|(tr3&tr4&m&->&_&H3)]; [done|].
  apply runs_rbind in H3 as [(?&_&?)|(tr5&tr6&?&->&_&H4)]; [done|].
  apply runs_rbind in H4 as [(?&_&?)|(tr7&tr8&resumes&->&->%(runs_call (Resp := TierResp) (MarkOf (li_id item)))&H5)]; [done|].
  apply runs_rbind in H5 as [(?&_&?)|(tr9&tr10&found&->&_&H6)]; [done|].
  cbv zeta in H6. destruct (if is_none found then li_closed item else None); [by destruct H6|].
  apply runs_rbind in H6 as [(?&_&?)|(tr11&tr12&out&->&_&[-> [= ->]])]; [done|]. cbn. split.
  - rewrite !elem_of_app. right. right. right. by left.
  - exists i. destruct item as [r|f]; [left; exists r|right; exists f]; (split; [done|]); rewrite !elem_of_app; tauto.
Qed.
End Prepare.

(** ** The invariant *)

Record tiers_ok (M : gset Iri) (w : TwoTiers) : Prop := {
  to_wf : local_wf (tt_local w);
  to_tombs : ∀ id t, ml_tombstones (tt_local w) !! id = Some t →
    ml_escalating (tt_local w) !! id = None ∧ ∃ n, mi_keys (tt_github w) !! id = Some n ∧ tb_to t = issue_url n;
  to_keys : ∀ id n, mi_keys (tt_github w) !! id = Some n →
    is_Some (ml_escalating (tt_local w) !! id) ∨ is_Some (ml_tombstones (tt_local w) !! id) ∨ id ∈ M;
  to_left : ∀ id, id ∈ M → is_Some (mi_keys (tt_github w) !! id);
  to_creates : mi_creates (tt_github w) = N.of_nat (size (mi_keys (tt_github w)));
}.

(** A live local item under its primary name *)
Definition live_item (l : MemLocal) (k : Iri) : Prop :=
  ml_check l k = Ok KRecord ∨ ml_check l k = Ok KFinding.

Definition live_at (w : TwoTiers) (k : Iri) : Prop :=
  live_item (tt_local w) k ∧ ml_resolve (tt_local w) k = k ∧ ml_tombstones (tt_local w) !! k = None.

Lemma live_read l k x : ml_live l k = Ok x → ml_resolve l k = x.1 ∧ ml_tombstones l !! x.1 = None.
Proof.
  unfold ml_live. intros (kind&_&Hx)%result_bind_ok. destruct (ml_tombstones l !! ml_resolve l k) eqn:E; [done|]. by injection Hx as <-.
Qed.

Lemma primary_live w k kind : local_wf (tt_local w) → ml_owned (tt_local w) !! k = Some kind → (kind = KRecord ∨ kind = KFinding) →
  ml_tombstones (tt_local w) !! k = None → live_at w k.
Proof.
  intros (_&_&Ha) Ho Hk Ht. split_and!; [|unfold ml_resolve; by rewrite (Ha _ _ Ho)|done].
  unfold live_item, ml_check. rewrite Ho. by destruct Hk as [-> | ->]; [left|right].
Qed.

(** What was prepared on a world is live there, and its mark is the one there. *)
Lemma prepared_live h M w id kind p : like_tiers h → tiers_ok M w → (interp h (prepare_escalation (form_of w) id kind) w).1.1 = Ok p →
  live_at w (pr_id p) ∧ pr_resumes p = ml_escalating (tt_local w) !! pr_id p.
Proof.
  intros Hh Hw Hp. destruct (asks_only h asks _ w (like_keep h Hh) (prepare_asks (form_of w) id kind)) as (_&Htold&_).
  pose proof (interp_runs h (prepare_escalation (form_of w) id kind) w) as Hr. rewrite Hp in Hr.
  apply prepare_told in Hr as (Hmark&i&Hitem). rewrite Forall_forall in Htold.
  assert (live_at w (pr_id p)) as Hl.
  { destruct Hw as [(Wr&Wf&Wa) _ _ _ _].
    destruct Hitem as [(r&->&Hin)|(f&->&Hin)]; apply Htold in Hin; cbn in Hin; rewrite (lt_same h Hh) in Hin by done; cbn in Hin; symmetry in Hin.
    - apply result_bind_ok in Hin as (x&[_ Ht]%live_read&Hx). injection Hx as Hx. destruct (Wr _ _ Hx) as [-> Ho].
      eapply primary_live; [done|exact Ho|by left|done].
    - apply result_bind_ok in Hin as (x&[_ Ht]%live_read&Hx). injection Hx as Hx. destruct (Wf _ _ Hx) as [-> Ho].
      eapply primary_live; [done|exact Ho|by right|done]. }
  split; [done|]. apply Htold in Hmark. cbn in Hmark. rewrite (lt_same h Hh) in Hmark by done. cbn in Hmark. injection Hmark as Hm.
  destruct Hl as (_&Hres&_). by rewrite Hm, Hres.
Qed.

(** *** The three steps *)

Definition with_mark (w : TwoTiers) (k : Iri) (mark : Mark) : TwoTiers := {|
  tt_local := ml_with_marks (tt_local w) (<[k := mark]> (ml_escalating (tt_local w))) (ml_tombstones (tt_local w)); tt_github := tt_github w |}.

Lemma mark_step w k mark : live_at w k → ml_escalating (tt_local w) !! k = None →
  tt_answer (MarkItem k mark) w = (Ok tt, with_mark w k mark).
Proof.
  intros (Hl&Hres&Ht) He. cbn. unfold ml_mark, ml_live.
  assert (ml_check (tt_local w) k = Ok KRecord ∨ ml_check (tt_local w) k = Ok KFinding) as [-> | ->] by done;
    cbn [result_bind]; rewrite Hres, Ht; cbn; by rewrite He.
Qed.

Lemma tiers_ok_mark M w k mark : tiers_ok M w → live_at w k → tiers_ok M (with_mark w k mark) ∧ live_at (with_mark w k mark) k.
Proof.
  intros [Hwf Ht Hk Hm Hc] Hl. split; [|done]. split; [done| |..]; cbn.
  - intros id t Hid. destruct (Ht id t Hid) as [He Hn]. split; [|done]. rewrite lookup_insert_ne; [done|]. intros ->.
    destruct Hl as (_&_&Hnone). congruence.
  - intros id n Hn. destruct (decide (id = k)) as [->|]; [left; rewrite lookup_insert_eq; by eexists|].
    rewrite lookup_insert_ne by done. by eapply Hk.
  - done.
  - done.
Qed.

(** A create, answered or not: the keys grow by this item's at most. *)
Lemma create_step M w k item from since : tiers_ok M w → is_Some (ml_escalating (tt_local w) !! k) → pv_from from = k →
  let '(r, w') := tt_answer (CreateEscalated item from since) w in
  tiers_ok M w' ∧ tt_local w' = tt_local w
  ∧ match r with Ok issue => ∃ n, mi_keys (tt_github w') !! k = Some n ∧ issue = issue_url n | Err _ => True end.
Proof.
  intros [Hwf Ht Hk Hml Hc] Hm Hfrom. cbn. unfold mi_create_escalated. rewrite Hfrom.
  destruct (mi_down (tt_github w)); [cbn; split_and!; [by split|done..]|].
  destruct (mi_fail_next_create (tt_github w)); [cbn; split_and!; [by split|done..]|].
  destruct (mi_keys (tt_github w) !! k) as [n|] eqn:En; [cbn; split_and!; [by split|done|by exists n]|].
  destruct (security_item item && mi_public (tt_github w)); [cbn; split_and!; [by split|done..]|].
  assert (tiers_ok M {| tt_local := tt_local w; tt_github :=
    mi_with_keys (mi_create (tt_github w) item k) (mi_keys (mi_create (tt_github w) item k)) (mi_fail_next_create (mi_create (tt_github w) item k))
      false (mi_creates (mi_create (tt_github w) item k)) |}) as Hok.
  { split; [done|..]; cbn.
    - intros id t Hid. destruct (Ht id t Hid) as [He (n&Hn&Hto)]. split; [done|]. exists n. split; [|done].
      rewrite lookup_insert_ne; [done|]. intros <-. congruence.
    - intros id n Hn. destruct (decide (k = id)) as [<-|]; [by left|]. rewrite lookup_insert_ne in Hn by done. by eapply Hk.
    - intros id Hid. apply lookup_insert_is_Some'. right. by apply Hml.
    - rewrite map_size_insert_None by done. rewrite Hc. lia. }
  destruct (mi_lose_next_create_answer (tt_github w)); cbn; (split_and!; [exact Hok|done|]); [done|].
  exists (mi_last (tt_github w) + 1)%N. by rewrite lookup_insert_eq.
Qed.

Definition with_tombstone (w : TwoTiers) (k : Iri) (t : Tombstone) : TwoTiers := {|
  tt_local := ml_with_marks (tt_local w) (delete k (ml_escalating (tt_local w))) (<[k := t]> (ml_tombstones (tt_local w)));
  tt_github := tt_github w |}.

Lemma tombstone_step w k to mark : live_at w k → ml_escalating (tt_local w) !! k = Some mark →
  let t := {| tb_from := k; tb_to := to; tb_by := mk_by mark; tb_reason := mk_reason mark; tb_at_ms := mk_at_ms mark |} in
  tt_answer (TombstoneItem k to) w = (Ok t, with_tombstone w k t).
Proof.
  intros (Hl&Hres&_) He. cbn. unfold ml_tombstone.
  assert (ml_check (tt_local w) k = Ok KRecord ∨ ml_check (tt_local w) k = Ok KFinding) as [-> | ->] by done;
    cbn [result_bind]; by rewrite Hres, He.
Qed.

Lemma tiers_ok_tombstone M w k t n : tiers_ok M w → mi_keys (tt_github w) !! k = Some n → tb_to t = issue_url n → tiers_ok M (with_tombstone w k t).
Proof.
  intros [Hwf Ht Hk Hml Hc] Hn Hto. split; [done|..]; cbn.
  - intros id t' Hid. destruct (decide (k = id)) as [<-|].
    + rewrite lookup_insert_eq in Hid. injection Hid as <-. rewrite lookup_delete_eq. split; [done|]. by exists n.
    + rewrite lookup_insert_ne in Hid by done. rewrite lookup_delete_ne by done. by eapply Ht.
  - intros id m Hid. destruct (decide (k = id)) as [<-|]; [right; left; rewrite lookup_insert_eq; by eexists|].
    rewrite lookup_insert_ne, lookup_delete_ne by done. by eapply Hk.
  - done.
  - done.
Qed.

Lemma worlds_call (h : ∀ o : TierOp, TwoTiers → TierResp o * TwoTiers) (o : TierOp) w w' : w' ∈ worlds h (call o) w → w' = w ∨ w' = (h o w).2.
Proof.
  unfold call. cbn [worlds]. destruct (h o w) as [r w1]. intros [->|Hin]%elem_of_cons; [by left|].
  apply list_elem_of_singleton in Hin as ->. by right.
Qed.

Section Run.
Context (h : ∀ o : TierOp, TwoTiers → TierResp o * TwoTiers) (Hh : like_tiers h) (M : gset Iri) (w : TwoTiers) (p : Prepared) (by_ reason : string) (now_ms : N).
Hypothesis w_ok : tiers_ok M w.
Hypothesis p_live : live_at w (pr_id p).
Hypothesis p_mark : pr_resumes p = ml_escalating (tt_local w) !! pr_id p.

Lemma marked_for_ok :
  let r := interp h (marked_for p by_ reason now_ms) w in
  tiers_ok M r.2 ∧ (∀ mark, r.1.1 = Ok mark → live_at r.2 (pr_id p) ∧ ml_escalating (tt_local r.2) !! pr_id p = Some mark ∧ tt_github r.2 = tt_github w)
  ∧ (∀ w', w' ∈ worlds h (marked_for p by_ reason now_ms) w → tiers_ok M w').
Proof.
  unfold marked_for. destruct (pr_resumes p) as [mark|] eqn:Em.
  { cbn. split_and!; [done|intros ? [= <-]; by split_and!|]. intros w' Hin. by apply list_elem_of_singleton in Hin as ->. }
  destruct (body_refused _ _ _ _); [cbn; split_and!; [done..|]; intros w' Hin; by apply list_elem_of_singleton in Hin as ->|].
  set (mark := {| mk_by := by_ |}). destruct (tiers_ok_mark M w (pr_id p) mark w_ok p_live) as [Hok Hl].
  pose proof (mark_step w (pr_id p) mark p_live (eq_sym p_mark)) as Hs. rewrite <- (lt_same h Hh) in Hs by done. cbn zeta.
  assert (interp h (_ <-? call (MarkItem (pr_id p) mark) ;; Ret (Ok mark)) w
    = (Ok mark, [told (MarkItem (pr_id p) mark) (Ok tt)], with_mark w (pr_id p) mark)) as ->.
  { unfold rbind. rewrite interp_bind. unfold call. cbn [interp]. by rewrite Hs. }
  cbn [fst snd]. split_and!; [done| |].
  - intros ? [= <-]. split_and!; [done|cbn; by rewrite lookup_insert_eq|done].
  - intros w' [Hin|[->|(?&_&Hin)]]%worlds_rbind.
    + apply (worlds_call h (MarkItem (pr_id p) mark)) in Hin as [->| ->]; [done|]. by rewrite Hs.
    + unfold call. cbn [interp]. by rewrite Hs.
    + unfold call in Hin. cbn [interp] in Hin. rewrite Hs in Hin. by apply list_elem_of_singleton in Hin as ->.
Qed.

Lemma escalate_worlds w' : w' ∈ worlds h (escalate p by_ reason now_ms) w → tiers_ok M w'.
Proof.
  destruct marked_for_ok as (H1&H2&H3). cbn zeta in *.
  intros [Hin|[->|(mark&Hm&Hin)]]%worlds_rbind; [by apply H3|done|]. destruct (H2 mark Hm) as (Hl&He&Hg).
  revert H1 Hl He Hg Hin. generalize (interp h (marked_for p by_ reason now_ms) w).2. intros w1 H1 Hl He Hg Hin. cbv zeta in Hin.
  set (from := {| pv_from := pr_id p |}) in Hin. set (since := if is_some (pr_found p) then 0%N else mk_at_ms mark) in Hin.
  pose proof (create_step M w1 (pr_id p) (pr_outgoing p) from since H1 (mk_is_Some _ _ He) eq_refl) as Hc.
  rewrite <- (lt_same h Hh) in Hc by done. destruct (h (CreateEscalated (pr_outgoing p) from since) w1) as [r w2] eqn:Ec. destruct Hc as (H4&Hloc&Hr).
  assert (interp h (call (CreateEscalated (pr_outgoing p) from since)) w1
    = (r, [told (CreateEscalated (pr_outgoing p) from since) r], w2)) as Hi by (unfold call; cbn [interp]; by rewrite Ec).
  apply worlds_rbind in Hin as [Hin|[->|(issue&Hissue&Hin)]].
  - apply (worlds_call h (CreateEscalated (pr_outgoing p) from since)) in Hin as [->| ->]; [done|by rewrite Ec].
  - lazymatch goal with |- tiers_ok M (snd ?i) => assert (i = (r, [told (CreateEscalated (pr_outgoing p) from since) r], w2)) as -> by exact Hi end. done.
  - lazymatch type of Hissue with (fst (fst ?i)) = _ => assert (i = (r, [told (CreateEscalated (pr_outgoing p) from since) r], w2)) as Hi' by exact Hi end.
    rewrite Hi' in Hissue, Hin. cbn [fst snd] in Hissue, Hin. subst r. destruct Hr as (n&Hn&->).
    assert (live_at w2 (pr_id p)) as Hl2 by (unfold live_at in *; by rewrite Hloc).
    assert (ml_escalating (tt_local w2) !! pr_id p = Some mark) as He2 by (by rewrite Hloc).
    pose proof (tombstone_step w2 (pr_id p) (issue_url n) mark Hl2 He2) as Ht. cbv zeta in Ht. rewrite <- (lt_same h Hh) in Ht by done. set (t := {| tb_from := pr_id p |}) in Ht.
    pose proof (tiers_ok_tombstone M w2 (pr_id p) t n H4 Hn eq_refl) as Hok.
    apply worlds_rbind in Hin as [Hin|[->|(?&_&Hin)]].
    + apply (worlds_call h (TombstoneItem (pr_id p) (issue_url n))) in Hin as [->| ->]; [done|by rewrite Ht].
    + unfold call. cbn [interp]. by rewrite Ht.
    + unfold call in Hin. cbn [interp] in Hin. rewrite Ht in Hin. by apply list_elem_of_singleton in Hin as ->.
Qed.
End Run.

(** *** Programs that only ask, on a world *)

Definition answers {A} (p : Tiered A) (w : TwoTiers) (a : A) : Prop := (interp tt_answer p w).1.1 = Ok a.

Lemma asks_world {A} (p : Tiered A) w : all_events asks p →
  (interp tt_answer p w).2 = w ∧ (∀ w', w' ∈ worlds tt_answer p w → w' = w).
Proof. intros Hp. destruct (asks_only tt_answer asks p w asks_keep Hp) as (H1&_&H3). done. Qed.

Lemma answers_rbind {A B} (p : Tiered A) (f : A → Tiered B) w a b : all_events asks p → answers p w a → answers (f a) w b → answers (rbind p f) w b.
Proof.
  intros Hp Ha Hb. unfold answers in *. rewrite (proj1 (interp_rbind tt_answer p f w)), Ha. by rewrite (proj1 (asks_world p w Hp)).
Qed.

Lemma answers_inv {A B} (p : Tiered A) (f : A → Tiered B) w b : all_events asks p → answers (rbind p f) w b → ∃ a, answers p w a ∧ answers (f a) w b.
Proof.
  intros Hp Hb. unfold answers in *. rewrite (proj1 (interp_rbind tt_answer p f w)) in Hb.
  destruct (interp tt_answer p w).1.1 as [a|]; [|done]. rewrite (proj1 (asks_world p w Hp)) in Hb. by exists a.
Qed.

Lemma answers_collect {A B} (f : A → Tiered B) l w : (∀ a, all_events asks (f a)) → (∀ a, ∃ b, answers (f a) w b) → ∃ bs, answers (for_collect f l) w bs.
Proof.
  intros Hf Ha. induction l as [|a l [bs IH]]; [by exists []|]. destruct (Ha a) as [b Hb]. exists (b :: bs).
  eapply answers_rbind; [apply Hf|exact Hb|]. eapply answers_rbind; [by apply all_events_collect|exact IH|]. done.
Qed.

(** Worlds of [p] and then [f], when [p] only asks *)
Lemma worlds_after h {A B} (p : Tiered A) (f : A → Tiered B) w w' : like_tiers h → all_events asks p → w' ∈ worlds h (rbind p f) w →
  w' = w ∨ ∃ a, (interp h p w).1.1 = Ok a ∧ w' ∈ worlds h (f a) w.
Proof.
  intros Hh Hp. destruct (asks_only h asks p w (like_keep h Hh) Hp) as (H1&_&H2).
  intros [Hin|[->|(a&Ha&Hin)]]%worlds_rbind; [left; by apply H2|by left|]. right. exists a. rewrite H1 in Hin. done.
Qed.

Lemma item_live h M w id kind item : like_tiers h → tiers_ok M w → (interp h (local_item (form_of w) id kind) w).1.1 = Ok item → live_at w (li_id item).
Proof.
  intros Hh Hw Hi. destruct (asks_only h asks _ w (like_keep h Hh) (local_item_asks (form_of w) id kind)) as (_&Htold&_).
  pose proof (interp_runs h (local_item (form_of w) id kind) w) as Hr. rewrite Hi in Hr.
  apply local_item_told in Hr as [i Hin]. rewrite Forall_forall in Htold. destruct Hw as [(Wr&Wf&Wa) _ _ _ _].
  destruct item as [r|f]; apply Htold in Hin; cbn in Hin; rewrite (lt_same h Hh) in Hin by done; cbn in Hin; symmetry in Hin;
    apply result_bind_ok in Hin as (x&[_ Ht]%live_read&Hx); injection Hx as Hx.
  - destruct (Wr _ _ Hx) as [He Ho]. cbn. rewrite He. eapply primary_live; [done|exact Ho|by left|done].
  - destruct (Wf _ _ Hx) as [He Ho]. cbn. rewrite He. eapply primary_live; [done|exact Ho|by right|done].
Qed.

(** The mark of [k] is gone. *)
Definition without_mark (w : TwoTiers) (k : Iri) : TwoTiers := {|
  tt_local := ml_with_marks (tt_local w) (delete k (ml_escalating (tt_local w))) (ml_tombstones (tt_local w)); tt_github := tt_github w |}.

Lemma unmark_step w k mark : live_at w k → ml_escalating (tt_local w) !! k = Some mark → (tt_answer (Unmark k) w).2 = without_mark w k.
Proof.
  intros (Hc&Hres&_) Hm. cbn. unfold ml_unmark.
  assert (ml_check (tt_local w) k = Ok KRecord ∨ ml_check (tt_local w) k = Ok KFinding) as [-> | ->] by done; cbn [result_bind]; by rewrite Hres, Hm.
Qed.

(** An abandon does nothing, or removes the mark of an item whose issue its search did not find. *)
Lemma abandon_cases sees M w id kind w' : tiers_ok M w → w' ∈ worlds (tt_seen sees) (abandon_escalation (form_of w) id kind) w →
  w' = w ∨ ∃ k mark, w' = without_mark w k ∧ ml_escalating (tt_local w) !! k = Some mark
    ∧ (is_Some (mi_keys (tt_github w) !! k) → sees k (mk_at_ms mark) = false).
Proof.
  intros Hw. pose proof (seen_like sees) as Hh. intros [->|(item&Hitem&Hin)]%(worlds_after _ _ _ _ _ Hh); [by left| |apply local_item_asks].
  pose proof (item_live _ M w id kind item Hh Hw Hitem) as Hl. cbv zeta in Hin.
  apply (worlds_after _ _ _ _ _ Hh) in Hin as [->|(m&Hm&Hin)]; [by left| |asking]. unfold call in Hm. cbn in Hm. injection Hm as Hm.
  pose proof Hl as (_&Hres&_). rewrite Hres in Hm. destruct m as [mark|]; [|left; by apply list_elem_of_singleton in Hin as ->].
  apply (worlds_after _ _ _ _ _ Hh) in Hin as [->|(?&_&Hin)]; [by left| |asking].
  apply (worlds_after _ _ _ _ _ Hh) in Hin as [->|(found&Hf&Hin)]; [by left| |asking]. unfold call in Hf. cbn in Hf.
  apply result_bind_ok in Hf as (seen&Hseen&Hf). unfold mi_find_escalated in Hseen. apply result_bind_ok in Hseen as (?&_&Hs). injection Hs as <-. injection Hf as Hf.
  destruct found as [issue|]; [left; by apply list_elem_of_singleton in Hin as ->|].
  apply (worlds_call _ (Unmark (li_id item))) in Hin as [->| ->]; [by left|right]. exists (li_id item), mark. split_and!; [|done|].
  - rewrite (lt_same _ Hh) by done. by eapply unmark_step.
  - intros [n Hn]. rewrite Hn in Hf. by destruct (sees (li_id item) (mk_at_ms mark)).
Qed.

Lemma left_spec sees w k mark n : ml_escalating (tt_local w) !! k = Some mark → mi_keys (tt_github w) !! k = Some n →
  sees k (mk_at_ms mark) = false → k ∈ left_behind sees w (without_mark w k).
Proof.
  intros Hm Hn Hs. apply elem_of_filter. split; [|by apply elem_of_dom]. unfold missed. cbn. by rewrite Hm, lookup_delete_eq, Hn, Hs.
Qed.

Lemma left_has_issue sees w w' k : k ∈ left_behind sees w w' → is_Some (mi_keys (tt_github w) !! k).
Proof. intros [H _]%elem_of_filter. unfold missed in H. repeat case_match; try done. apply andb_true_iff in H as [H _]. by destruct (mi_keys _ !! k). Qed.

Lemma abandon_ok sees M w id kind w' : tiers_ok M w → w' ∈ worlds (tt_seen sees) (abandon_escalation (form_of w) id kind) w →
  tiers_ok (M ∪ left_behind sees w w') w'.
Proof.
  intros Hw Hin. pose proof (abandon_cases _ _ _ _ _ _ Hw Hin) as Hc. destruct Hw as [Hwf Ht Hk Hml Hcr].
  assert (mi_keys (tt_github w') = mi_keys (tt_github w) ∧ mi_creates (tt_github w') = mi_creates (tt_github w)) as [Ek Ec]
    by (by destruct Hc as [->|(?&?&->&_)]).
  split; [by destruct Hc as [->|(?&?&->&_)]| | | |by rewrite Ek, Ec].
  - rewrite Ek. destruct Hc as [->|(k&mark&->&_)]; [done|]. intros i t Hi. destruct (Ht i t Hi) as [He Hn]. split; [|done]. cbn.
    by apply lookup_delete_None; right.
  - rewrite Ek. intros i n Hi. destruct Hc as [->|(k&mark&->&Hm&Hs)]; [destruct (Hk i n Hi) as [?|[?|?]]; set_solver|].
    destruct (decide (i = k)) as [->|Hne].
    + right. right. apply elem_of_union. right. eapply left_spec; [done|done|]. by apply Hs; eexists.
    + cbn. rewrite lookup_delete_ne by done. destruct (Hk i n Hi) as [?|[?|?]]; [by left|by right; left|right; right; set_solver].
  - rewrite Ek. intros i [Hi|Hi]%elem_of_union; [by apply Hml|by eapply left_has_issue].
Qed.

Lemma tiers_step_ok M w w' : tiers_ok M w → tiers_step w w' → tiers_ok M w'.
Proof.
  intros Hw [sees id kind by_ reason now_ms w1 Hin|w1 (H1&H2&H3&H4&H5)].
  - pose proof (seen_like sees) as Hh. apply (worlds_after _ _ _ _ _ Hh) in Hin as [->|(p&Hp&Hin)]; [done| |apply prepare_asks].
    destruct (prepared_live _ M w id kind p Hh Hw Hp) as [Hl Hm]. by eapply escalate_worlds.
  - destruct Hw as [Hwf Ht Hk Hml Hc]. split; rewrite ?H2, ?H3, ?H4, ?H5; done.
Qed.

Lemma reachable_ok M w : tiers_reachable M w → tiers_ok M w.
Proof.
  induction 1 as [w (H1&H2&H3&H4&H5)|M w w' _ IH Hs|M w sees id kind w' _ IH Hin]; [|by eapply tiers_step_ok|by eapply abandon_ok].
  split; [done|by rewrite H3|by rewrite H4|by intros ? ?%elem_of_empty|by rewrite H5, H4].
Qed.

(** (C9) However escalations stop, are abandoned and run again, with searches
    that may miss an issue: each item has at most one issue, in a GitHub whose
    create finds its own key; a tombstone points at the issue made for its
    item, which is no longer marked; an item whose issue was made is still
    marked, so that it takes no write and a rerun finishes it, or is the
    tombstone of that issue, or is one of those an abandon left behind because
    its search missed the issue, and those do have one; and as many issues
    were made as items have one. *)
Theorem escalation_consistent M w : tiers_reachable M w →
  (∀ id t, ml_tombstones (tt_local w) !! id = Some t →
     ml_escalating (tt_local w) !! id = None ∧ ∃ n, mi_keys (tt_github w) !! id = Some n ∧ tb_to t = issue_url n)
  ∧ (∀ id n, mi_keys (tt_github w) !! id = Some n → is_Some (ml_escalating (tt_local w) !! id)
     ∨ (∃ t, ml_tombstones (tt_local w) !! id = Some t ∧ tb_to t = issue_url n) ∨ id ∈ M)
  ∧ (∀ id, id ∈ M → is_Some (mi_keys (tt_github w) !! id))
  ∧ mi_creates (tt_github w) = N.of_nat (size (mi_keys (tt_github w))).
Proof.
  intros [_ Ht Hk Hml Hc]%reachable_ok. split_and!; [done| |done|done]. intros id n Hn. destruct (Hk id n Hn) as [?|[[t Hid]|?]]; [by left|right; left|by auto].
  exists t. split; [done|]. destruct (Ht id t Hid) as (_&m&Hm&->). congruence.
Qed.

(** GitHub answers, and the next create does too. *)
Definition healthy (s : MemIssues) : Prop :=
  mi_unbound s = false ∧ mi_down s = false ∧ mi_fail_next_create s = false ∧ mi_lose_next_create_answer s = false.

(** Where a finished escalation leaves the item [k] *)
Definition escalated_to (w : TwoTiers) (k issue : Iri) : Prop :=
  ml_escalating (tt_local w) !! k = None ∧ (∃ t, ml_tombstones (tt_local w) !! k = Some t ∧ tb_to t = issue)
  ∧ ∃ n, mi_keys (tt_github w) !! k = Some n ∧ issue = issue_url n.

Lemma escalate_finishes M w p by_ reason now_ms : tiers_ok M w → live_at w (pr_id p) →
  pr_resumes p = ml_escalating (tt_local w) !! pr_id p → healthy (tt_github w) →
  is_some (pr_resumes p) || is_none (body_refused (pr_id p) (pr_outgoing p) by_ reason) = true →
  is_some (mi_keys (tt_github w) !! pr_id p) || negb (security_item (pr_outgoing p) && mi_public (tt_github w)) = true →
  ∃ issue, (interp tt_answer (escalate p by_ reason now_ms) w).1.1 = Ok issue
  ∧ escalated_to (interp tt_answer (escalate p by_ reason now_ms) w).2 (pr_id p) issue
  ∧ (∀ n, mi_keys (tt_github w) !! pr_id p = Some n → issue = issue_url n).
Proof.
  intros Hw Hl Hm (_&Hdown&Hfail&Hlose) Hbody Hsec. destruct (marked_for_ok tt_answer tiers_like M w p by_ reason now_ms Hw Hl Hm) as (H1&H2&_). cbv zeta in *.
  assert (∃ mark, (interp tt_answer (marked_for p by_ reason now_ms) w).1.1 = Ok mark) as [mark Hmark].
  { unfold marked_for. destruct (pr_resumes p) as [mark|]; [by exists mark|]. destruct (body_refused _ _ _ _); [done|].
    eexists. unfold rbind. rewrite interp_bind. unfold call. cbn [interp]. by rewrite mark_step. }
  destruct (H2 mark Hmark) as (Hl1&He1&Hg1). unfold escalate.
  rewrite (proj1 (interp_rbind tt_answer _ _ w)), (proj2 (interp_rbind tt_answer _ _ w)), Hmark. cbv zeta.
  revert H1 Hl1 He1 Hg1. generalize (interp tt_answer (marked_for p by_ reason now_ms) w).2. intros w1 H1 Hl1 He1 Hg1.
  set (from := {| pv_from := pr_id p |}). set (since := if is_some (pr_found p) then 0%N else mk_at_ms mark).
  pose proof (create_step M w1 (pr_id p) (pr_outgoing p) from since H1 (mk_is_Some _ _ He1) eq_refl) as Hc.
  assert (∃ issue, (tt_answer (CreateEscalated (pr_outgoing p) from since) w1).1 = Ok issue
    ∧ ∀ n, mi_keys (tt_github w) !! pr_id p = Some n → issue = issue_url n) as (issue&Hissue&Hsame).
  { cbn. unfold mi_create_escalated. rewrite Hg1, Hdown, Hfail. cbn [pv_from from].
    destruct (mi_keys (tt_github w) !! pr_id p) as [n|]; [exists (issue_url n); split; [done|]; by intros ? [= <-]|].
    cbn [is_some orb] in Hsec. apply negb_true_iff in Hsec. rewrite Hsec, Hlose. by eexists. }
  destruct (tt_answer (CreateEscalated (pr_outgoing p) from since) w1) as [r w2] eqn:Ec. cbn in Hissue. subst r. destruct Hc as (H4&Hloc&n&Hn&->).
  assert (live_at w2 (pr_id p)) as Hl2 by (unfold live_at in *; by rewrite Hloc).
  assert (ml_escalating (tt_local w2) !! pr_id p = Some mark) as He2 by (by rewrite Hloc).
  pose proof (tombstone_step w2 (pr_id p) (issue_url n) mark Hl2 He2) as Ht. cbv zeta in Ht. set (t := {| tb_from := pr_id p |}) in Ht.
  assert (∃ tr, interp tt_answer (issue <-? call (CreateEscalated (pr_outgoing p) from since) ;;
    _ <-? call (TombstoneItem (pr_id p) issue) ;; Ret (Ok issue)) w1 = (Ok (issue_url n), tr, with_tombstone w2 (pr_id p) t)) as [tr ->].
  { unfold rbind. rewrite interp_bind. unfold call at 1. cbn [interp]. rewrite Ec. rewrite interp_bind. unfold call. cbn [interp]. rewrite Ht. by eexists. }
  exists (issue_url n). cbn [fst snd]. split_and!; [done| |done].
  split_and!; cbn; [by rewrite lookup_delete_eq|exists t; by rewrite lookup_insert_eq|by exists n].
Qed.

(** *** A record whose issue was made, and not its tombstone *)

Lemma read_answers {A} tier only (act : Tiered A) w x : answers (tracker_in tier) w tt → answers act w x → answers (read tier only act) w x.
Proof.
  intros Ht Ha. pose proof (answers_rbind (tracker_in tier) (fun _ => act) w tt x (tracker_in_asks tier) Ht Ha) as Hr.
  unfold answers, read in *. rewrite interp_bind. destruct (interp tt_answer (_ <-? tracker_in tier;; act) w) as [[r tr] w1]. cbn in Hr. by subst r.
Qed.

Lemma findings_answer w project : mi_unbound (tt_github w) = false → mi_down (tt_github w) = false →
  ml_check_kind (tt_local w) project KProject = Ok tt → ∃ l, answers (findings (form_of w) project None) w l.
Proof.
  intros Hu Hd Hp. unfold findings.
  assert (∀ tier, ∃ l, answers (l <-? read tier None (call (OnTier tier (TListFindings project))) ;;
    for_collect (fun f => f <-? as_now (form_of w) f ;; Ret (Ok (tier, f))) l) w l) as Hone.
  { intros tier. assert (∃ l, answers (read tier None (call (OnTier tier (TListFindings project)))) w l) as [l Hl].
    { destruct tier; eexists; (apply read_answers; [|unfold answers, call; cbn]); unfold answers, tracker_in, call; cbn; unfold mi_open, mi_up;
        rewrite ?Hp, ?Hu, ?Hd; done. }
    destruct (answers_collect (fun f => f <-? as_now (form_of w) f ;; Ret (Ok (tier, f))) l w) as [l' Hl']; [intros; asking| |].
    - intros f. unfold as_now. destruct (tier_of (form_of w) (fd_record f)); [|by eexists].
      eexists. eapply answers_rbind; [asking| |done]. eapply answers_rbind; [asking|done|done].
    - exists l'. eapply answers_rbind; [apply read_asks; asking|exact Hl|exact Hl']. }
  destruct (answers_collect (fun tier => l <-? read tier None (call (OnTier tier (TListFindings project))) ;;
    for_collect (fun f => f <-? as_now (form_of w) f ;; Ret (Ok (tier, f))) l) (tiers None) w) as [got Hgot]; [|done|].
  { intros tier. apply all_events_rbind; [apply read_asks; asking|intros; asking]. }
  assert (∃ l, answers (one_copy finding_names (concat got)) w l) as [l Hl].
  { unfold one_copy. generalize (flat_map (fun x : Tier * Finding => (finding_names x.2).2) (List.filter (fun x => x.1 == Github) (concat got))). intros issued.
    induction (concat got) as [|[t f] items [l IH]]; [by exists []|]. cbn [drop_copies].
    destruct ((t == Local) && contains issued (finding_names f).1).
    - eexists. eapply answers_rbind; [asking|eapply answers_rbind; [asking|done|done]|]. eapply answers_rbind; [|exact IH|done].
      clear. induction items as [|[t f] items IH]; cbn [drop_copies]; asking.
    - eexists. eapply answers_rbind; [asking|done|]. eapply answers_rbind; [|exact IH|done].
      clear. induction items as [|[t f] items IH]; cbn [drop_copies]; asking. }
  exists l. eapply answers_rbind; [|exact Hgot|exact Hl]. apply all_events_collect. intros tier. apply all_events_rbind; [apply read_asks; asking|intros; asking].
Qed.

Lemma item_answers M w k r : tiers_ok M w → ml_records (tt_local w) !! k = Some r → is_Some (ml_escalating (tt_local w) !! k) →
  gt_claims (form_of w) k = false → answers (local_item (form_of w) k KRecord) w (LRecord r).
Proof.
  intros [(Wr&_&Wa) Ht _ _ _] Hr [mark He] Hc. destruct (Wr k r Hr) as [Hid Ho].
  assert (ml_resolve (tt_local w) k = k) as Hres by (unfold ml_resolve; by rewrite (Wa _ _ Ho)).
  assert (ml_tombstones (tt_local w) !! k = None) as Hnone.
  { destruct (ml_tombstones (tt_local w) !! k) as [t|] eqn:E; [|done]. destruct (Ht k t E). congruence. }
  assert (ml_check (tt_local w) k = Ok KRecord) as Hk by (unfold ml_check; by rewrite Ho).
  unfold local_item. rewrite Hc. eapply (answers_rbind _ _ _ None); [asking|unfold answers, call; cbn; by rewrite Hres, Hnone|].
  unfold answers. rewrite interp_bind. unfold call at 1. cbn [interp tt_answer]. rewrite Hk. cbn [fst snd].
  assert (answers (r0 <-? call (OnTier Local (TGetRecord k)) ;; Ret match r0 with Some r0 => Ok (LRecord r0) | None => Err (SNoSuchRecord k) end) w (LRecord r)) as Ha.
  { eapply (answers_rbind _ _ _ (Some r)); [asking| |done]. unfold answers, call. cbn. unfold ml_live. rewrite Hk. cbn. by rewrite Hres, Hnone, <- Hr. }
  rewrite !bool_decide_eq_true_2 by done. cbn [negb]. unfold answers in Ha.
  lazymatch goal with |- context [interp tt_answer ?q w] => destruct (interp tt_answer q w) as [[res tr] w1] end. done.
Qed.

Lemma cut_short_prepares M w k r mark n m : tiers_ok M w → healthy (tt_github w) →
  ml_records (tt_local w) !! k = Some r → ml_escalating (tt_local w) !! k = Some mark → mi_keys (tt_github w) !! k = Some n →
  gt_claims (form_of w) k = false → ml_check_kind (tt_local w) (rc_project r) KProject = Ok tt → ml_routing (tt_local w) !! rc_project r = Some m →
  ∃ p, answers (prepare_escalation (form_of w) k KRecord) w p ∧ pr_id p = k ∧ pr_resumes p = Some mark.
Proof.
  intros Hw (Hu&Hd&_&_) Hr He Hn Hc Hp Hm. pose proof Hw as [(Wr&_&Wa) _ _ _ _]. destruct (Wr k r Hr) as [Hid Ho].
  assert (ml_resolve (tt_local w) k = k) as Hres by (unfold ml_resolve; by rewrite (Wa _ _ Ho)).
  destruct (findings_answer w (rc_project r) Hu Hd Hp) as [l Hl].
  exists {| pr_id := k; pr_kind := KRecord; pr_outgoing := OutRecord r (List.filter (listed_open m r) (map snd l)); pr_resumes := Some mark; pr_found := Some (issue_url n) |}.
  split; [|done]. unfold prepare_escalation.
  eapply answers_rbind; [apply local_item_asks|apply (item_answers M w k r); try done; by eexists|]. cbv zeta. cbn [li_id li_project]. rewrite Hid.
  eapply (answers_rbind _ _ _ m); [asking| |].
  { eapply (answers_rbind _ _ _ (Some m)); [asking| |done]. unfold answers, call. cbn. by rewrite Hp, <- Hm. }
  eapply (answers_rbind _ _ _ tt); [asking|unfold answers, call; cbn; unfold mi_open, mi_up; by rewrite Hu, Hd|].
  eapply (answers_rbind _ _ _ (Some mark)); [asking|unfold answers, call; cbn; by rewrite Hres, He|].
  eapply (answers_rbind _ _ _ (Some (issue_url n))); [asking|unfold answers, call; cbn; unfold mi_find_escalated, mi_up; rewrite Hd; cbn; by rewrite Hn|].
  cbn [is_none is_some negb]. eapply (answers_rbind _ _ _ (OutRecord r (List.filter (listed_open m r) (map snd l)), Some (issue_url n))); [| |done].
  - unfold prepare_record, open_findings. asking; apply findings_asks.
  - unfold prepare_record. eapply answers_rbind; [asking|done|]. eapply answers_rbind; [|eapply answers_rbind; [apply findings_asks|exact Hl|done]|done].
    unfold open_findings. apply all_events_rbind; [apply findings_asks|intros; asking].
Qed.

(** (C10) A rerun finishes what was cut short. Whatever history led here, once
    GitHub answers: an escalation that passes its checks ends with the item's
    tombstone pointing at its one issue, the issue an earlier run made if it
    made one; and a marked record whose issue was made passes the checks, with
    whatever else changed meanwhile. *)
Theorem escalation_finishes M w k by_ reason now_ms : tiers_reachable M w → healthy (tt_github w) →
  (∀ kind p, answers (prepare_escalation (form_of w) k kind) w p →
     is_some (pr_resumes p) || is_none (body_refused (pr_id p) (pr_outgoing p) by_ reason) = true →
     is_some (mi_keys (tt_github w) !! pr_id p) || negb (security_item (pr_outgoing p) && mi_public (tt_github w)) = true →
     ∃ issue, answers (escalate_run (form_of w) k kind by_ reason now_ms) w issue
     ∧ escalated_to (interp tt_answer (escalate_run (form_of w) k kind by_ reason now_ms) w).2 (pr_id p) issue
     ∧ (∀ n, mi_keys (tt_github w) !! pr_id p = Some n → issue = issue_url n))
  ∧ (∀ r mark n m, ml_records (tt_local w) !! k = Some r → ml_escalating (tt_local w) !! k = Some mark →
     mi_keys (tt_github w) !! k = Some n → gt_claims (form_of w) k = false →
     ml_check_kind (tt_local w) (rc_project r) KProject = Ok tt → ml_routing (tt_local w) !! rc_project r = Some m →
     answers (escalate_run (form_of w) k KRecord by_ reason now_ms) w (issue_url n)
     ∧ escalated_to (interp tt_answer (escalate_run (form_of w) k KRecord by_ reason now_ms) w).2 k (issue_url n)).
Proof.
  intros Hw%reachable_ok Hh.
  assert (∀ kind p, answers (prepare_escalation (form_of w) k kind) w p →
     is_some (pr_resumes p) || is_none (body_refused (pr_id p) (pr_outgoing p) by_ reason) = true →
     is_some (mi_keys (tt_github w) !! pr_id p) || negb (security_item (pr_outgoing p) && mi_public (tt_github w)) = true →
     ∃ issue, answers (escalate_run (form_of w) k kind by_ reason now_ms) w issue
     ∧ escalated_to (interp tt_answer (escalate_run (form_of w) k kind by_ reason now_ms) w).2 (pr_id p) issue
     ∧ (∀ n, mi_keys (tt_github w) !! pr_id p = Some n → issue = issue_url n)) as Hfin.
  { intros kind p Hp Hbody Hsec. destruct (prepared_live tt_answer M w k kind p tiers_like Hw Hp) as [Hl Hm].
    destruct (escalate_finishes M w p by_ reason now_ms Hw Hl Hm Hh Hbody Hsec) as (issue&Hi&Hto&Hsame). exists issue.
    unfold answers, escalate_run in *. rewrite (proj1 (interp_rbind tt_answer _ _ w)), (proj2 (interp_rbind tt_answer _ _ w)), Hp.
    by rewrite (proj1 (asks_world _ w (prepare_asks (form_of w) k kind))). }
  split; [done|]. intros r mark n m Hr He Hn Hc Hproj Hm.
  destruct (cut_short_prepares M w k r mark n m Hw Hh Hr He Hn Hc Hproj Hm) as (p&Hp&Hid&Hres).
  destruct (Hfin KRecord p Hp) as (issue&Hi&Hto&Hsame); [by rewrite Hres|by rewrite Hid, Hn|].
  rewrite Hid in *. by rewrite (Hsame n Hn) in *.
Qed.

(** ** An escalation whose create landed and was not answered *)

Module Demo.
Definition project : ProjectId := seq_iri 1.
Definition item : WorkRecord := {|
  rc_id := seq_iri 2; rc_project := project; rc_title := "Broken build"; rc_state := Doing; rc_also_known_as := ["urn:ci:7"]; rc_area := Some "code" |}.

Definition store : MemLocal := {|
  ml_next_id := 2; ml_owned := <[seq_iri 1 := KProject]> (<[seq_iri 2 := KRecord]> ∅); ml_aliases := <["urn:ci:7" := seq_iri 2]> ∅;
  ml_records := {[ seq_iri 2 := item ]}; ml_findings := ∅; ml_escalating := ∅; ml_tombstones := ∅; ml_routing := <[project := starting]> ∅ |}.

Definition issues : MemIssues := {|
  mi_last := 41; mi_records := ∅; mi_findings := ∅; mi_aliases := ∅; mi_keys := ∅; mi_down := false; mi_unbound := false; mi_public := true;
  mi_scan_fails := false; mi_visibility_unread := false; mi_fail_next_create := false; mi_lose_next_create_answer := true; mi_creates := 0 |}.

Definition start : TwoTiers := {| tt_local := store; tt_github := issues |}.

(** Where the first run left the tiers: marked, and the issue is there *)
Definition cut_short : TwoTiers := (interp tt_answer (escalate_run (form_of start) "urn:ci:7" KRecord "ann" "needs a human" 1790771696789) start).2.

Lemma cut_short_reachable : tiers_reachable ∅ cut_short.
Proof.
  eapply tr_step; [apply (tr_first start)|].
  - split_and!; [|done..]. split_and!.
    + intros k r Hr. cbn in Hr. apply lookup_singleton_Some in Hr as [<- <-]. split; [done|by vm_compute].
    + intros k f Hf. cbn in Hf. by rewrite lookup_empty in Hf.
    + intros k kind Hk. cbn in *. destruct (decide (k = "urn:ci:7")) as [->|]; [by vm_compute in Hk|]. by rewrite lookup_insert_ne, lookup_empty by done.
  - eapply (ts_run _ (fun _ _ => true) "urn:ci:7" KRecord "ann" "needs a human" 1790771696789).
    assert (cut_short = (interp (tt_seen (fun _ _ => true))
      (escalate_run (form_of start) "urn:ci:7" KRecord "ann" "needs a human" 1790771696789) start).2) as -> by (vm_compute; reflexivity).
    apply interp_in_worlds.
Qed.

(** An abandon whose search missed the issue: unmarked, and the issue is there *)
Definition stranded : TwoTiers := (interp (tt_seen (fun _ _ => false)) (abandon_escalation (form_of cut_short) (seq_iri 2) KRecord) cut_short).2.

Lemma stranded_reachable : tiers_reachable (∅ ∪ left_behind (fun _ _ => false) cut_short stranded) stranded.
Proof. eapply tr_abandon; [apply cut_short_reachable|apply interp_in_worlds]. Qed.

Lemma escalation_consistent_witness :
  mi_keys (tt_github stranded) !! seq_iri 2 = Some 42%N ∧ ml_escalating (tt_local stranded) !! seq_iri 2 = None
  ∧ ml_tombstones (tt_local stranded) !! seq_iri 2 = None ∧ seq_iri 2 ∈ left_behind (fun _ _ => false) cut_short stranded.
Proof.
  assert (mi_keys (tt_github stranded) !! seq_iri 2 = Some 42%N) as Hn by (by vm_compute).
  assert (ml_escalating (tt_local stranded) !! seq_iri 2 = None) as Hm by (by vm_compute).
  assert (ml_tombstones (tt_local stranded) !! seq_iri 2 = None) as Ht by (by vm_compute). split_and!; [done..|].
  destruct (escalation_consistent _ stranded stranded_reachable) as (_&Hk&_).
  destruct (Hk _ _ Hn) as [[? H]|[(t&H&_)|[[]%elem_of_empty|H]%elem_of_union]]; [congruence|congruence|exact H].
Defined.

(** The rerun finds it by the item's own name, and makes no second issue. *)
Example stranded_finishes :
  let run := interp tt_answer (escalate_run (form_of stranded) (seq_iri 2) KRecord "bob" "again" 1790771700000) stranded in
  run.1.1 = Ok (issue_url 42) ∧ escalated_to run.2 (seq_iri 2) (issue_url 42) ∧ mi_creates (tt_github run.2) = 1%N.
Proof.
  split; [by vm_compute|]. split; [|by vm_compute]. split; [by vm_compute|]. split; [eexists; split; by vm_compute|]. exists 42%N. split; by vm_compute.
Qed.

Lemma escalation_finishes_witness :
  answers (escalate_run (form_of cut_short) (seq_iri 2) KRecord "bob" "again" 1790771700000) cut_short "https://github.com/acme/widgets/issues/42".
Proof.
  destruct (escalation_finishes ∅ cut_short (seq_iri 2) "bob" "again" 1790771700000 cut_short_reachable) as [_ Hr]; [by vm_compute|].
  change "https://github.com/acme/widgets/issues/42" with (issue_url 42).
  apply (Hr item {| mk_by := "ann"; mk_reason := "needs a human"; mk_at_ms := 1790771696789 |} 42%N starting); by vm_compute.
Defined.

Lemma merged_records_exact_witness :
  let t := interp tt_answer (records project None) cut_short in
  map (fun x => (x.1, rc_id x.2)) (unwrap_or (match t.1.1 with Ok l => Some l | Err _ => None end) []) = [(Github, issue_url 42)]
  ∧ ∃ out local github kept dropped, t.1.1 = Ok out
    ∧ told (OnTier Local (TListRecords project)) (Ok local) ∈ t.1.2 ∧ told (OnTier Github (TListRecords project)) (Ok github) ∈ t.1.2
    ∧ out = map (pair Local) kept ++ map (pair Github) github ∧ kept `sublist_of` local ∧ local ≡ₚ kept ++ dropped.
Proof.
  cbn zeta. split; [by vm_compute|]. pose proof (interp_runs tt_answer (records project None) cut_short) as Hr.
  destruct (interp tt_answer (records project None) cut_short) as [[[out|e] tr] w'] eqn:E; [|exfalso; by vm_compute in E].
  destruct (merged_records_exact project tr out Hr) as (local&github&kept&dropped&H1&H2&H3&H4&H5&_).
  exists out, local, github, kept, dropped. exact (conj eq_refl (conj H1 (conj H2 (conj H3 (conj H4 H5))))).
Defined.
End Demo.
