(* ===== verification/Split.v ===== *)
(** * The split ledger ([split.rs])

    Every entry is kept in the local store at once; a decision's flush sends
    the entries tied to records of the bound repository, recorded after its
    cut-over, to GitHub with the decision. [merge] reads the two halves as
    one; [flush] is a program over the local outbox and the remote ledger.
    What a repository that is not private may hold is [disclose.rs]'s. *)

From S2P Require Import Prelude RustStr Model Faults Verdict Finding Ledger Eff.

(** ** Data *)

Record Pending := { pe_runs : list GateRun; pe_attempts : list Attempt }.

Record Batch := { bt_decision : Decision; bt_runs : list GateRun; bt_attempts : list Attempt }.

Inductive Coverage := Complete | LocalOnly (reason : string).

(** What the merge needs of an entry *)
Class Entry (T : Type) := {
  entry_eq_dec :: EqDecision T;
  entry_id : T → option Iri;
  entry_at : T → option At;
  as_published : T → T → T;
  agrees_with_itself e : as_published e e = e;
}.

(** [as_published] of a run *)
Definition run_as_published (mine published : GateRun) : GateRun := {|
  gr_id := gr_id mine; gr_at := gr_at mine; gr_gate := gr_gate mine; gr_record := gr_record mine;
  gr_commit := gr_commit mine;
  gr_verdict :=
    match gr_verdict mine, gr_verdict published with
    | VError _, VError detail => if detail == WITHHELD_ERROR_DETAIL then gr_verdict published else gr_verdict mine
    | _, _ => gr_verdict mine
    end;
  gr_population := gr_population mine;
  gr_output_excerpt := if is_none (gr_output_excerpt published) then None else gr_output_excerpt mine;
  gr_duration_ms := gr_duration_ms mine; gr_cost_usd_micros := gr_cost_usd_micros mine |}.

(** [as_published] of an attempt *)
Definition attempt_as_published (mine published : Attempt) : Attempt := {|
  at_id := at_id mine; at_at := at_at mine; at_project := at_project mine; at_record := at_record mine;
  at_adapter := at_adapter mine; at_status := at_status mine; at_duration_ms := at_duration_ms mine;
  at_tokens_in := at_tokens_in mine; at_tokens_out := at_tokens_out mine; at_cost_usd_micros := at_cost_usd_micros mine;
  at_paths_touched :=
    match at_paths_touched published with
    | Counted n => if (paths_count (at_paths_touched mine) =? n)%N then Counted n else at_paths_touched mine
    | Listed _ => at_paths_touched mine
    end;
  at_output_excerpt := if is_none (at_output_excerpt published) then None else at_output_excerpt mine |}.

Lemma run_agrees_itself r : run_as_published r r = r.
Proof. destruct r as [? ? ? ? ? v ? x ? ?]. unfold run_as_published. cbn. destruct v, x; cbn; by try case_bool_decide. Qed.

Lemma attempt_agrees_itself a : attempt_as_published a a = a.
Proof.
  destruct a as [? ? ? ? ? ? ? ? ? ? p x]. unfold attempt_as_published. cbn.
  destruct p, x; cbn; by rewrite ?N.eqb_refl.
Qed.

#[global] Instance run_entry : Entry GateRun := {|
  entry_eq_dec := _; entry_id := gr_id; entry_at := gr_at; as_published := run_as_published;
  agrees_with_itself := run_agrees_itself |}.
#[global] Instance attempt_entry : Entry Attempt := {|
  entry_eq_dec := _; entry_id := at_id; entry_at := at_at; as_published := attempt_as_published;
  agrees_with_itself := attempt_agrees_itself |}.

(** ** Disclosure ([disclose.rs]) *)

Inductive Visibility := Private | NotPrivate.

#[global] Instance Visibility_eq_dec : EqDecision Visibility.
Proof. solve_decision. Defined.

(** [Visibility::from_github] *)
Definition from_github (v : string) : Visibility := if v == "private" then Private else NotPrivate.

Definition disclose_run (run : GateRun) (v : Visibility) : GateRun :=
  match v with
  | Private => run
  | NotPrivate => {|
      gr_id := gr_id run; gr_at := gr_at run; gr_gate := gr_gate run; gr_record := gr_record run;
      gr_commit := gr_commit run;
      gr_verdict := match gr_verdict run with VError _ => verdict_error WITHHELD_ERROR_DETAIL | verdict => verdict end;
      gr_population := gr_population run; gr_output_excerpt := None;
      gr_duration_ms := gr_duration_ms run; gr_cost_usd_micros := gr_cost_usd_micros run |}
  end.

Definition disclose_attempt (a : Attempt) (v : Visibility) : Attempt :=
  match v with
  | Private => a
  | NotPrivate => {|
      at_id := at_id a; at_at := at_at a; at_project := at_project a; at_record := at_record a;
      at_adapter := at_adapter a; at_status := at_status a; at_duration_ms := at_duration_ms a;
      at_tokens_in := at_tokens_in a; at_tokens_out := at_tokens_out a; at_cost_usd_micros := at_cost_usd_micros a;
      at_paths_touched := Counted (paths_count (at_paths_touched a)); at_output_excerpt := None |}
  end.

(** Copies of an entry, as a repository may hold them: they keep its name, and
    the entry itself agrees with them. *)
Class Disclosed (T : Type) `{Entry T} := {
  disclose : T → Visibility → T;
  disclose_id e v : entry_id (disclose e v) = entry_id e;
  disclose_agrees e v : as_published e (disclose e v) = disclose e v;
}.

#[global] Instance run_disclosed : Disclosed GateRun.
Proof.
  exists disclose_run; intros [? ? ? ? ? v ? x ? ?] []; try done; [apply run_agrees_itself|].
  unfold as_published, run_entry, run_as_published. cbn -[WITHHELD_ERROR_DETAIL]. by destruct v.
Defined.

#[global] Instance attempt_disclosed : Disclosed Attempt.
Proof.
  exists disclose_attempt; intros [] []; try done; [apply attempt_agrees_itself|].
  unfold as_published, attempt_entry, attempt_as_published. cbn. by rewrite N.eqb_refl.
Defined.

(** ** Merging *)

Section Merge.
Context {T : Type} `{Entry T}.

(** [Ord] on [Option<&str>] and on the pair [(at, id)] *)
Definition opt_leb (a b : option string) : bool :=
  match a, b with
  | None, _ => true
  | Some _, None => false
  | Some x, Some y => str_leb x y
  end.

Definition entry_leb (a b : T) : bool :=
  if entry_at a == entry_at b then opt_leb (entry_id a) (entry_id b) else opt_leb (entry_at a) (entry_at b).

(** A refusal, or an index out of bounds *)
Inductive MergeFault := MergeRefused (e : StoreError) | MergePanic.

(** [out] and [seen], as the two loops fill them *)
Record Merging := { mg_out : list T; mg_seen : gmap Iri nat }.

Definition keep_local (m : Merging) (e : T) : Merging := {|
  mg_out := mg_out m ++ [e];
  mg_seen := match entry_id e with Some id => <[id := length (mg_out m)]> (mg_seen m) | None => mg_seen m end |}.

Definition take_remote (m : Merging) (e : T) : Result Merging MergeFault :=
  match entry_id e with
  | None => Err (MergeRefused (SLedger (LFUnidentified "an entry read back from the shared ledger")))
  | Some id =>
      match mg_seen m !! id with
      | Some i =>
          match mg_out m !! i with
          | None => Err MergePanic
          | Some mine =>
              if as_published mine e != e
              then Err (MergeRefused (STampered id
                     "the two copies differ in more than the fields a repository that is not private withholds"))
              else Ok m
          end
      | None => Ok {| mg_out := mg_out m ++ [e]; mg_seen := <[id := length (mg_out m)]> (mg_seen m) |}
      end
  end.

Definition merge (local remote : list T) : Result (list T) MergeFault :=
  let? m := for_fold take_remote (foldl keep_local {| mg_out := []; mg_seen := ∅ |} local) remote in
  Ok (sort_by entry_leb (mg_out m)).

(** The first entry of each name that is not known already *)
Fixpoint firsts (known : list Iri) (l : list T) : list T :=
  match l with
  | [] => []
  | e :: l' =>
      match entry_id e with
      | Some id => if contains known id then firsts known l' else e :: firsts (known ++ [id]) l'
      | None => firsts known l'
      end
  end.
End Merge.
Arguments Merging T : clear implicits.

(** ** Reading both halves *)

Inductive ReadOp :=
| LocalRuns (gate : GateId) | RemoteRuns (gate : GateId)
| LocalAttempts (project : ProjectId) | RemoteAttempts (project : ProjectId).

Definition ReadResp (o : ReadOp) : Type :=
  match o with
  | LocalRuns _ | RemoteRuns _ => Result (list GateRun) StoreError
  | LocalAttempts _ | RemoteAttempts _ => Result (list Attempt) StoreError
  end.

Definition refuse {A} (p : Prog ReadResp (Result A StoreError)) : Prog ReadResp (Result A MergeFault) :=
  r <- p ;; Ret (map_err MergeRefused r).

(** [SplitLedger::gate_runs] *)
Definition split_gate_runs (gate : GateId) : Prog ReadResp (Result (list GateRun) MergeFault) :=
  local <-? refuse (call (LocalRuns gate)) ;;
  remote <-? refuse (call (RemoteRuns gate)) ;;
  Ret (merge local remote).

(** [SplitLedger::attempts] *)
Definition split_attempts (project : ProjectId) : Prog ReadResp (Result (list Attempt) MergeFault) :=
  local <-? refuse (call (LocalAttempts project)) ;;
  remote <-? refuse (call (RemoteAttempts project)) ;;
  Ret (merge local remote).

Definition attempts_for_stats (project : ProjectId) : Prog ReadResp (Result (list Attempt * Coverage) MergeFault) :=
  local <-? refuse (call (LocalAttempts project)) ;;
  answer <- call (RemoteAttempts project) ;;
  Ret match answer with
      | Ok remote => let? merged := merge local remote in Ok (merged, Complete)
      | Err e =>
          if is_transient e then Ok (local, LocalOnly ("GitHub could not be read: " +:+ store_display e))
          else Err (MergeRefused e)
      end.

(** ** Flushing *)

Inductive FlushOp :=
| OwnsRecord (record : RecordId)
| CutoverOf (repo : string)
| Unpublished (repo : string) (after : Iri)
| IsPublished (repo : string) (id : Iri)
| Publish (batch : Batch)
| Settle (repo : string) (published set_aside : list Iri).

Definition FlushResp (o : FlushOp) : Type :=
  match o with
  | OwnsRecord _ | IsPublished _ _ => Result bool StoreError
  | CutoverOf _ => Result (option Iri) StoreError
  | Unpublished _ _ => Result Pending StoreError
  | Publish _ => Result (option string) StoreError
  | Settle _ _ _ => Result unit StoreError
  end.

(** What is sent, what is skipped, and what the report says of it *)
Record Sifted (T : Type) := { sf_kept : list T; sf_aside : list Iri; sf_left : list LeftLocal }.
Arguments sf_kept {T}. Arguments sf_aside {T}. Arguments sf_left {T}.

(** One of the two loops over what waits; [key] is the record and the name
    of an entry that has both. *)
Fixpoint sift {T} (key : T → option (RecordId * Iri)) (l : list T) (s : Sifted T)
  : Prog FlushResp (Result (Sifted T) StoreError) :=
  match l with
  | [] => Ret (Ok s)
  | e :: l' =>
      match key e with
      | None => sift key l' s
      | Some (record, id) =>
          owned <-? call (OwnsRecord record) ;;
          sift key l'
            (if owned : bool
             then {| sf_kept := sf_kept s ++ [e]; sf_aside := sf_aside s; sf_left := sf_left s |}
             else {| sf_kept := sf_kept s; sf_aside := sf_aside s ++ [id];
                     sf_left := sf_left s ++ [OtherRepository id record] |})
      end
  end.

Definition run_key (r : GateRun) : option (RecordId * Iri) :=
  match gr_record r, gr_id r with Some record, Some id => Some (record, id) | _, _ => None end.

Definition attempt_key (a : Attempt) : option (RecordId * Iri) :=
  match at_id a with Some id => Some (at_record a, id) | None => None end.

(** The loop over what the decision rests on *)
Fixpoint cited_known (repo : string) (decision : Iri) (ids cited : list Iri) : Prog FlushResp (Result unit StoreError) :=
  match cited with
  | [] => Ret (Ok tt)
  | c :: cited' =>
      if contains ids c then cited_known repo decision ids cited'
      else
        known <-? call (IsPublished repo c) ;;
        if known : bool then cited_known repo decision ids cited'
        else Ret (Err (SRestsOnLocalEntry decision c))
  end.

(** The names of a batch's entries *)
Definition batch_ids (b : Batch) : list Iri := omap gr_id (bt_runs b) ++ omap at_id (bt_attempts b).

(** What [flush] sends, and what it reports and sets aside once that landed *)
Record Ready := { og_batch : Batch; og_aside : list Iri; og_left : list LeftLocal }.

(** [flush] before anything is sent; [None]: there is no cut-over. *)
Definition gather (repo : string) (d : Decision) : Prog FlushResp (Result (option Ready) StoreError) :=
  owned <-? call (OwnsRecord (dc_record d)) ;;
  if negb owned
  then Ret (Err (SNotOwned (dc_record d) ["the repository this ledger publishes to (node " +:+ repo +:+ ")"]))
  else
    cutover <-? call (CutoverOf repo) ;;
    match cutover with
    | None => Ret (Ok None)
    | Some after =>
        pending <-? call (Unpublished repo after) ;;
        runs <-? sift run_key (pe_runs pending) {| sf_kept := []; sf_aside := []; sf_left := [] |} ;;
        attempts <-? sift attempt_key (pe_attempts pending)
          {| sf_kept := []; sf_aside := sf_aside runs; sf_left := sf_left runs |} ;;
        let batch := {| bt_decision := d; bt_runs := sf_kept runs; bt_attempts := sf_kept attempts |} in
        _ <-? cited_known repo (dc_id d) (batch_ids batch) (dc_rests_on d) ;;
        Ret (Ok (Some {| og_batch := batch; og_aside := sf_aside attempts; og_left := sf_left attempts |}))
    end.

(** [SplitLedger::flush] *)
Definition flush (repo : string) (d : Decision) : Prog FlushResp (Result Flushed StoreError) :=
  out <-? gather repo d ;;
  match out with
  | None => Ret (Ok {| fl_commit := None; fl_left_local := [NoCutover] |})
  | Some og =>
      commit <-? call (Publish (og_batch og)) ;;
      _ <-? call (Settle repo (batch_ids (og_batch og)) (og_aside og)) ;;
      Ret (Ok {| fl_commit := commit; fl_left_local := og_left og |})
  end.

(** ** The order of entries *)

Lemma opt_leb_total a b : opt_leb a b = true ∨ opt_leb b a = true.
Proof. destruct a, b; cbn; auto using str_leb_total. Qed.

Lemma opt_leb_trans a b c : opt_leb a b = true → opt_leb b c = true → opt_leb a c = true.
Proof. destruct a, b, c; cbn; try done. apply str_leb_trans. Qed.

Lemma opt_leb_antisym a b : opt_leb a b = true → opt_leb b a = true → a = b.
Proof. destruct a, b; cbn; try done. intros. f_equal. by apply str_leb_antisym. Qed.

Section MergeFacts.
Context {T : Type} `{Entry T}.
Implicit Types (e : T) (l local remote out : list T) (m : Merging T).

Lemma entry_leb_total e e' : entry_leb e e' = true ∨ entry_leb e' e = true.
Proof. unfold entry_leb. repeat case_bool_decide; try congruence; apply opt_leb_total. Qed.

Lemma entry_leb_trans e1 e2 e3 : entry_leb e1 e2 = true → entry_leb e2 e3 = true → entry_leb e1 e3 = true.
Proof.
  unfold entry_leb. intros H12 H23.
  destruct (bool_decide_reflect (entry_at e1 = entry_at e2)) as [E|E], (bool_decide_reflect (entry_at e2 = entry_at e3)) as [F|F].
  - rewrite bool_decide_eq_true_2 by congruence. by eapply opt_leb_trans.
  - rewrite bool_decide_eq_false_2 by congruence. by rewrite E.
  - rewrite bool_decide_eq_false_2 by congruence. by rewrite <- F.
  - rewrite bool_decide_eq_false_2; [by eapply opt_leb_trans|]. intros G. destruct E. apply opt_leb_antisym; [done|by rewrite G].
Qed.

(** An index names the place of every identified entry. *)
Definition indexed m : Prop :=
  (∀ id i, mg_seen m !! id = Some i → ∃ e, mg_out m !! i = Some e ∧ entry_id e = Some id)
  ∧ (∀ e id, e ∈ mg_out m → entry_id e = Some id → is_Some (mg_seen m !! id)).

Lemma keep_indexed m e : indexed m → indexed (keep_local m e).
Proof.
  intros [H1 H2]. unfold keep_local. split; cbn.
  - intros id i Hs. assert (mg_seen m !! id = Some i ∨ entry_id e = Some id ∧ i = length (mg_out m)) as [Hi|[He ->]].
    { destruct (entry_id e) as [id'|]; [|by left]. destruct (decide (id' = id)) as [->|];
        [rewrite lookup_insert_eq in Hs|rewrite lookup_insert_ne in Hs by done]; naive_solver. }
    + destruct (H1 id i Hi) as (e'&Hl&Hid). exists e'. by rewrite (lookup_app_l_Some _ _ _ _ Hl).
    + exists e. by rewrite list_lookup_middle.
  - intros e' id [Hi|Hi%list_elem_of_singleton]%elem_of_app Hid.
    + destruct (H2 e' id Hi Hid) as [i Hs]. destruct (entry_id e) as [id'|]; [|by eexists].
      destruct (decide (id' = id)) as [->|]; [rewrite lookup_insert_eq|rewrite lookup_insert_ne by done]; by eexists.
    + subst e'. rewrite Hid, lookup_insert_eq. by eexists.
Qed.

Lemma keep_all local m : indexed m →
  indexed (foldl keep_local m local) ∧ mg_out (foldl keep_local m local) = mg_out m ++ local.
Proof.
  revert m. induction local as [|e local IH]; intros m Hm; cbn; [by rewrite app_nil_r|].
  destruct (IH _ (keep_indexed m e Hm)) as [Hi ->]. cbn. by rewrite <- app_assoc.
Qed.

Lemma known_ids m id : indexed m → contains (omap entry_id (mg_out m)) id = is_some (mg_seen m !! id).
Proof.
  intros [H1 H2]. destruct (mg_seen m !! id) as [i|] eqn:Es; cbn.
  - apply contains_spec. destruct (H1 id i Es) as (e&Hl&Hid). apply list_elem_of_omap. exists e. split; [|done]. by eapply list_elem_of_lookup_2.
  - apply contains_false. intros (e&He&Hid)%list_elem_of_omap. destruct (H2 e id He Hid). congruence.
Qed.

(** [e] has a copy of its name among [out], and agrees with it. *)
Definition agrees out e : Prop := ∃ id mine, entry_id e = Some id ∧ mine ∈ out ∧ entry_id mine = Some id ∧ as_published mine e = e.

(** What reading the remote half makes of the local one *)
Definition merged (m : Merging T) (remote : list T) (res : Result (Merging T) MergeFault) : Prop :=
  match res with
  | Ok m' => mg_out m' = mg_out m ++ firsts (omap entry_id (mg_out m)) remote ∧ Forall (agrees (mg_out m')) remote
  | Err (MergeRefused (SLedger (LFUnidentified _))) => ∃ e, e ∈ remote ∧ entry_id e = None
  | Err (MergeRefused (STampered id _)) => ∃ e mine, e ∈ remote ∧ mine ∈ mg_out m ++ remote
      ∧ entry_id e = Some id ∧ entry_id mine = Some id ∧ as_published mine e ≠ e
  | Err _ => False
  end.

Lemma agrees_mono out out' e : out ⊆ out' → agrees out e → agrees out' e.
Proof. intros Hs (id&mine&?&?&?&?). exists id, mine. auto. Qed.

Lemma take_all remote : ∀ m, indexed m → merged m remote (for_fold take_remote m remote).
Proof.
  induction remote as [|e remote IH]; intros m Hm; [split; [by rewrite app_nil_r|done]|].
  cbn [for_fold firsts]. unfold take_remote at 1. destruct (entry_id e) as [id|] eqn:Eid; cbn [result_bind].
  2: { exists e. split; [apply list_elem_of_here|done]. }
  unfold merged. cbn [firsts]. rewrite Eid, known_ids by done. destruct (mg_seen m !! id) as [i|] eqn:Es; cbn [is_some].
  - destruct (proj1 Hm id i Es) as (mine&Hl&Hid). rewrite Hl. pose proof (list_elem_of_lookup_2 _ _ _ Hl) as Hmine.
    case_bool_decide as Ha; cbn [negb result_bind].
    + pose proof (IH m Hm) as Hr. destruct (for_fold _ m remote) as [m'|[[]|]]; cbn in Hr |- *; try done.
      * destruct Hr as [Ho Hf]. split; [done|]. constructor; [|done]. rewrite Ho. exists id, mine. split_and!; [done|set_solver|done..].
      * destruct Hr as (x&y&Hx&Hy&Hr). exists x, y. rewrite elem_of_app, !elem_of_cons in *. tauto.
      * destruct fault; try done. destruct Hr as (x&Hx&Hr). exists x. rewrite elem_of_cons. tauto.
    + exists e, mine. rewrite elem_of_app, !elem_of_cons. tauto.
  - cbn [result_bind]. set (m1 := {| mg_out := mg_out m ++ [e]; mg_seen := _ |}).
    assert (m1 = keep_local m e) as Hm1 by (unfold m1, keep_local; by rewrite Eid).
    assert (indexed m1) as Hm' by (rewrite Hm1; by apply keep_indexed).
    assert (omap entry_id (mg_out m1) = omap entry_id (mg_out m) ++ [id]) as Ho1 by (cbn; rewrite omap_app; cbn; by rewrite Eid).
    assert (mg_out m1 = mg_out m ++ [e]) as Ho by done. clearbody m1.
    pose proof (IH m1 Hm') as Hr. destruct (for_fold _ m1 remote) as [m'|[[]|]]; cbn in Hr |- *; try done.
    + destruct Hr as [Ho' Hf]. rewrite Ho', Ho1, Ho, <- app_assoc. split; [done|]. constructor; [|by rewrite Ho', Ho1, Ho, <- app_assoc in Hf].
      exists id, e. split_and!; [done|set_solver|done|apply agrees_with_itself].
    + rewrite Ho in Hr. destruct Hr as (x&y&Hx&Hy&Hr). exists x, y. rewrite !elem_of_app, ?elem_of_cons, ?elem_of_nil in *. tauto.
    + destruct fault; try done. destruct Hr as (x&Hx&Hr). exists x. rewrite elem_of_cons. tauto.
Qed.

Lemma omap_inj local e e' id : NoDup (omap entry_id local) → e ∈ local → e' ∈ local →
  entry_id e = Some id → entry_id e' = Some id → e = e'.
Proof.
  induction local as [|x local IH]; cbn; [by intros ? ?%elem_of_nil|]. intros Hn He He' H1 H2.
  assert (∀ y, y ∈ local → entry_id y = Some id → entry_id x = Some id → False) as Hx.
  { intros y Hy H3 H4. rewrite H4 in Hn. apply NoDup_cons in Hn as [Hn _]. apply Hn, list_elem_of_omap. eauto. }
  apply elem_of_cons in He as [->|He]; apply elem_of_cons in He' as [->|He']; [done|exfalso; eauto..|].
  apply IH; try done. destruct (entry_id x); [by apply NoDup_cons in Hn as [_ Hn]|done].
Qed.
End MergeFacts.

(** (C31) Merging the local and the published half never panics. What it answers
    is sorted by time and then name, and is the local entries and, for each name
    only the remote half has, its first entry there; every remote entry agrees
    with the one kept under its name in all but what a repository that is not
    private withholds. It refuses only when a remote entry has no name, or when
    two copies of one name differ. *)
Theorem merge_exact {T} `{Entry T} (local remote : list T) :
  match merge local remote with
  | Ok out => StronglySorted entry_leb out ∧ out ≡ₚ local ++ firsts (omap entry_id local) remote ∧ Forall (agrees out) remote
  | Err (MergeRefused (SLedger (LFUnidentified _))) => ∃ e, e ∈ remote ∧ entry_id e = None
  | Err (MergeRefused (STampered id _)) => ∃ e mine, e ∈ remote ∧ mine ∈ local ++ remote
      ∧ entry_id e = Some id ∧ entry_id mine = Some id ∧ as_published mine e ≠ e
  | Err _ => False
  end.
Proof.
  unfold merge. destruct (keep_all local {| mg_out := []; mg_seen := ∅ |}) as [Hi Ho]; [by split; cbn; set_solver|].
  pose proof (take_all remote _ Hi) as Hr. unfold merged in Hr. rewrite Ho in Hr.
  destruct (for_fold _ _ remote) as [m|[e|]]; cbn; [|done..]. destruct Hr as [Hout Hf].
  split_and!; [apply sort_by_sorted; [apply entry_leb_total|apply entry_leb_trans]|by rewrite sort_by_perm, Hout|].
  eapply Forall_impl; [exact Hf|]. intros e. apply agrees_mono. intros x. by rewrite sort_by_elem.
Qed.

(** (C32) A machine that reads its own entries back from a repository, each as
    it was disclosed under whatever visibility the repository then had, sees
    exactly its own entries: nothing is withheld from who holds it, and no
    honest copy counts as tampered. *)
Theorem published_copies_agree {T} `{Disclosed T} (local : list T) (copies : list (T * Visibility)) :
  NoDup (omap entry_id local) → (∀ e v, (e, v) ∈ copies → e ∈ local ∧ is_some (entry_id e) = true) →
  merge local (map (fun c => disclose c.1 c.2) copies) = Ok (sort_by entry_leb local).
Proof.
  intros Hn Hc. unfold merge. destruct (keep_all local {| mg_out := []; mg_seen := ∅ |}) as [Hi Ho]; [by split; cbn; set_solver|].
  cbn in Ho. enough (for_fold take_remote (foldl keep_local {| mg_out := []; mg_seen := ∅ |} local) (map (fun c => disclose c.1 c.2) copies)
    = Ok (foldl keep_local {| mg_out := []; mg_seen := ∅ |} local)) as -> by (cbn; by rewrite Ho).
  revert Hi Ho. generalize (foldl keep_local {| mg_out := []; mg_seen := ∅ |} local). intros m Hi Ho.
  induction copies as [|[e v] copies IH]; [done|]. cbn [map for_fold fst snd].
  destruct (Hc e v) as [He Hid]; [apply list_elem_of_here|]. destruct (entry_id e) as [id|] eqn:Eid; [|done].
  unfold take_remote at 1. rewrite disclose_id, Eid. pose proof (known_ids m id Hi) as Hk. rewrite Ho in Hk.
  destruct (mg_seen m !! id) as [i|] eqn:Es.
  - destruct (proj1 Hi id i Es) as (mine&Hl&Hmine). rewrite Hl.
    assert (mine = e) as ->. { eapply omap_inj; [exact Hn| |exact He|exact Hmine|exact Eid]. rewrite <- Ho. by eapply list_elem_of_lookup_2. }
    rewrite disclose_agrees, bool_decide_eq_true_2 by done. cbn. apply IH. intros e' v' ?. apply (Hc e' v'). by right.
  - exfalso. apply contains_false in Hk. apply Hk, list_elem_of_omap. eauto.
Qed.

(** ** What a flush sends *)

(** A call that writes nothing *)
Definition is_read (e : Event FlushResp) : Prop :=
  match projT1 e with Publish _ | Settle _ _ _ => False | _ => True end.

Definition owns (tr : list (Event FlushResp)) (record : RecordId) (b : bool) : Prop :=
  event (Resp := FlushResp) (OwnsRecord record) (Ok b) ∈ tr.

Lemma sift_runs {T} (key : T → option (RecordId * Iri)) l : ∀ s tr s', runs (sift key l s) tr (Ok s') →
  ∃ kept aside, sf_kept s' = sf_kept s ++ kept ∧ sf_aside s' = sf_aside s ++ aside
  ∧ (∀ e, e ∈ kept → e ∈ l ∧ ∃ r id, key e = Some (r, id) ∧ owns tr r true)
  ∧ (∀ id, id ∈ aside → ∃ e r, e ∈ l ∧ key e = Some (r, id) ∧ owns tr r false).
Proof.
  induction l as [|e l IH]; intros s tr s'; cbn [sift].
  - intros [-> [= ->]]. exists [], []. rewrite !app_nil_r. split_and!; [done..| |]; by intros ? ?%elem_of_nil.
  - destruct (key e) as [[r id]|] eqn:Ek.
    + intros [(?&_&?)|(tr1&tr2&b&->&->%(runs_call (Resp := FlushResp) (OwnsRecord r))&H2)]%runs_rbind; [done|].
      apply IH in H2 as (kept&aside&Hk&Ha&Hk'&Ha').
      exists (if b then e :: kept else kept), (if b then aside else id :: aside). unfold owns in *.
      destruct b; cbn in Hk, Ha; rewrite Hk, Ha, <- ?app_assoc; split_and!; try done.
      * intros x [->|Hx]%elem_of_cons; [split; [by left|]; exists r, id; split; [done|by left]|].
        destruct (Hk' x Hx) as (?&r'&id'&?&?). split; [by right|]. exists r', id'. split; [done|by right].
      * intros x Hx. destruct (Ha' x Hx) as (y&r'&?&?&?). exists y, r'. split_and!; [by right|done|by right].
      * intros x Hx. destruct (Hk' x Hx) as (?&r'&id'&?&?). split; [by right|]. exists r', id'. split; [done|by right].
      * intros x [->|Hx]%elem_of_cons; [exists e, r; split_and!; [by left|done|by left]|].
        destruct (Ha' x Hx) as (y&r'&?&?&?). exists y, r'. split_and!; [by right|done|by right].
    + intros (kept&aside&Hk&Ha&Hk'&Ha')%IH. exists kept, aside. split_and!; try done.
      * intros x Hx. destruct (Hk' x Hx) as [? Hr]. split; [by right|done].
      * intros x Hx. destruct (Ha' x Hx) as (y&r'&?&?). exists y, r'. split; [by right|done].
Qed.

Lemma cited_runs repo d ids cited : ∀ tr, runs (cited_known repo d ids cited) tr (Ok tt) →
  ∀ c, c ∈ cited → c ∈ ids ∨ event (Resp := FlushResp) (IsPublished repo c) (Ok true) ∈ tr.
Proof.
  induction cited as [|c cited IH]; intros tr; cbn [cited_known]; [by intros _ ? ?%elem_of_nil|].
  destruct (contains ids c) eqn:Ec.
  - intros Hr x [->|Hx]%elem_of_cons; [left; by apply contains_spec|by eapply IH].
  - intros [(?&_&?)|(tr1&tr2&b&->&->%(runs_call (Resp := FlushResp) (IsPublished repo c))&H2)]%runs_rbind; [done|]. destruct b; [|by destruct H2].
    intros x [->|Hx]%elem_of_cons; [right; by left|]. destruct (IH _ H2 x Hx); [by left|right; by right].
Qed.

Lemma sift_reads {T} (key : T → option (RecordId * Iri)) l : ∀ s, all_events is_read (sift key l s).
Proof.
  induction l as [|e l IH]; intros s; cbn [sift]; [apply all_events_ret|]. destruct (key e) as [[r id]|]; [|apply IH].
  apply all_events_rbind; [by apply (all_events_call is_read (OwnsRecord r))|intros; apply IH].
Qed.

Lemma cited_reads repo d ids cited : all_events is_read (cited_known repo d ids cited).
Proof.
  induction cited as [|c cited IH]; cbn [cited_known]; [apply all_events_ret|]. destruct (contains ids c); [apply IH|].
  apply all_events_rbind; [by apply (all_events_call is_read (IsPublished repo c))|]. intros []; [apply IH|apply all_events_ret].
Qed.

Lemma gather_reads repo d : all_events is_read (gather repo d).
Proof.
  unfold gather. apply all_events_rbind; [by apply (all_events_call is_read (OwnsRecord (dc_record d)))|]. intros []; [|apply all_events_ret].
  apply all_events_rbind; [by apply (all_events_call is_read (CutoverOf repo))|]. intros [after|]; [|apply all_events_ret].
  apply all_events_rbind; [by apply (all_events_call is_read (Unpublished repo after))|]. intros pending.
  apply all_events_rbind; [apply sift_reads|]. intros runs. apply all_events_rbind; [apply sift_reads|]. intros attempts.
  apply all_events_rbind; [apply cited_reads|]. intros. apply all_events_ret.
Qed.

(** The answers in [tr] allow sending [b] and setting [aside] aside. *)
Definition justified (repo : string) (d : Decision) (tr : list (Event FlushResp)) (b : Batch) (aside : list Iri) : Prop :=
  bt_decision b = d ∧ owns tr (dc_record d) true
  ∧ (∃ after pending, event (Resp := FlushResp) (CutoverOf repo) (Ok (Some after)) ∈ tr
     ∧ event (Resp := FlushResp) (Unpublished repo after) (Ok pending) ∈ tr
     ∧ (∀ r, r ∈ bt_runs b → r ∈ pe_runs pending ∧ ∃ record id, run_key r = Some (record, id) ∧ owns tr record true)
     ∧ (∀ a, a ∈ bt_attempts b → a ∈ pe_attempts pending ∧ ∃ record id, attempt_key a = Some (record, id) ∧ owns tr record true)
     ∧ (∀ id, id ∈ aside → ∃ record, owns tr record false
        ∧ ((∃ r, r ∈ pe_runs pending ∧ run_key r = Some (record, id)) ∨ (∃ a, a ∈ pe_attempts pending ∧ attempt_key a = Some (record, id)))))
  ∧ (∀ c, c ∈ dc_rests_on d → c ∈ batch_ids b ∨ event (Resp := FlushResp) (IsPublished repo c) (Ok true) ∈ tr).

Lemma gather_runs repo d tr og : runs (gather repo d) tr (Ok (Some og)) →
  justified repo d tr (og_batch og) (og_aside og).
Proof.
  unfold gather. intros [(?&_&?)|(t1&t2&b&->&->%(runs_call (Resp := FlushResp) (OwnsRecord (dc_record d)))&H1)]%runs_rbind; [done|]. destruct b; [|by destruct H1].
  apply runs_rbind in H1 as [(?&_&?)|(t3&t4&[after|]&->&->%(runs_call (Resp := FlushResp) (CutoverOf repo))&H2)]; [done| |by destruct H2].
  apply runs_rbind in H2 as [(?&_&?)|(t5&t6&pending&->&->%(runs_call (Resp := FlushResp) (Unpublished repo after))&H3)]; [done|].
  apply runs_rbind in H3 as [(?&_&?)|(t7&t8&sr&->&(kept1&aside1&Hk1&Ha1&Hk1'&Ha1')%sift_runs&H4)]; [done|].
  apply runs_rbind in H4 as [(?&_&?)|(t9&t10&sa&->&(kept2&aside2&Hk2&Ha2&Hk2'&Ha2')%sift_runs&H5)]; [done|].
  apply runs_rbind in H5 as [(?&_&?)|(t11&t12&[]&->&Hc&H6)]; [done|]. destruct H6 as [-> [= ->]].
  pose proof (cited_runs _ _ _ _ _ Hc) as Hcited. cbn [sf_kept sf_aside app] in Hk1, Ha1, Hk2, Ha2. unfold justified.
  cbn [og_batch og_aside bt_decision bt_runs bt_attempts]. rewrite Hk1, Hk2, Ha2, Ha1.
  split_and!; [done|by left| |].
  - exists after, pending. split_and!; [by right; left|by right; right; left|..].
    + intros r Hr. destruct (Hk1' r Hr) as (?&record&id&?&?). split; [done|]. exists record, id. split; [done|]. unfold owns in *. rewrite !elem_of_app. tauto.
    + intros a Hr. destruct (Hk2' a Hr) as (?&record&id&?&?). split; [done|]. exists record, id. split; [done|]. unfold owns in *. rewrite !elem_of_app. tauto.
    + intros id [Hid|Hid]%elem_of_app; [destruct (Ha1' id Hid) as (e&record&?&?&?)|destruct (Ha2' id Hid) as (e&record&?&?&?)];
        exists record; (split; [unfold owns in *; rewrite !elem_of_app; tauto|]); [left|right]; eauto.
  - intros c Hin. rewrite Hk1, Hk2 in Hcited. destruct (Hcited c Hin); [by left|right]. rewrite !elem_of_app. tauto.
Qed.

(** Whatever the stores answer, a flush writes at most twice. It publishes
    one batch: the decision, about a record of this repository, with entries
    that waited after the cut-over and are tied to records of this repository;
    and everything the decision rests on is in the batch or was published
    before. Only when that landed are the batch's names settled and what
    belongs elsewhere set aside, and only then is the decision answered. *)
Theorem flush_publishes_then_settles repo d tr res : runs (flush repo d) tr res →
  (Forall is_read tr ∧ match res with Ok f => fl_commit f = None | Err _ => True end)
  ∨ ∃ before og sent after, tr = before ++ event (Resp := FlushResp) (Publish (og_batch og)) sent :: after ∧ Forall is_read before
    ∧ justified repo d before (og_batch og) (og_aside og)
    ∧ match sent with
      | Err e => after = [] ∧ res = Err e
      | Ok commit => ∃ settled,
          after = [event (Resp := FlushResp) (Settle repo (batch_ids (og_batch og)) (og_aside og)) settled]
          ∧ res = (let? _ := settled in Ok {| fl_commit := commit; fl_left_local := og_left og |})
      end.
Proof.
  intros [(e&Hg&->)|(before&t2&[og|]&->&Hg&H2)]%runs_rbind.
  - left. split; [|done]. by eapply gather_reads.
  - right. apply runs_rbind in H2 as [(e&->%(runs_call (Resp := FlushResp) (Publish (og_batch og)))&->)
      |(t3&t4&commit&->&->%(runs_call (Resp := FlushResp) (Publish (og_batch og)))&H3)].
    + exists before, og, (Err e), []. split_and!; [done|by eapply gather_reads|by apply gather_runs|done..].
    + apply runs_rbind in H3 as [(e&->%(runs_call (Resp := FlushResp) (Settle repo (batch_ids (og_batch og)) (og_aside og)))&->)
        |(t5&t6&[]&->&->%(runs_call (Resp := FlushResp) (Settle repo (batch_ids (og_batch og)) (og_aside og)))&[-> ->])];
        (exists before, og, (Ok commit); eexists; split_and!; [done|by eapply gather_reads|by apply gather_runs|]); by eexists.
  - left. destruct H2 as [-> ->]. rewrite app_nil_r. split; [by eapply gather_reads|done].
Qed.
