(* ===== verification/SplitWorld.v ===== *)
(** * A machine and its shared ledger

    The local store and the remote ledger that the code's own tests put around
    [SplitLedger] ([mem.rs], [conformance.rs]), the flush of [Split] against the
    two, and what happens over any history of recordings, faults, flushes and
    crashes in the middle of one. The remote's switches that only fail reads
    are left out. *)

From S2P Require Import Prelude RustStr Model Faults Verdict Finding Ledger Eff Split.

(** ** The in-memory halves ([mem.rs], [conformance.rs]) *)

(** What [MemStore] keeps of the ledger *)
Record MemStore := {
  ms_runs : list GateRun; ms_attempts : list Attempt;
  ms_published : gset (string * Iri); ms_settled : gset Iri; ms_cutovers : gmap string Iri }.

Definition mem_unpublished (s : MemStore) (after : Iri) : Pending :=
  let waiting (id : option Iri) := is_some_and id (fun id => str_ltb after id && negb (bool_decide (id ∈ ms_settled s))) in
  {| pe_runs := sort_by (fun a b => opt_leb (gr_id a) (gr_id b))
       (List.filter (fun r => is_some (gr_record r) && waiting (gr_id r)) (ms_runs s));
     pe_attempts := sort_by (fun a b => opt_leb (at_id a) (at_id b))
       (List.filter (fun a => waiting (at_id a)) (ms_attempts s)) |}.

Definition mem_settle (s : MemStore) (repo : string) (published set_aside : list Iri) : MemStore := {|
  ms_runs := ms_runs s; ms_attempts := ms_attempts s;
  ms_published := foldl (fun p id => {[(repo, id)]} ∪ p) (ms_published s) published;
  ms_settled := list_to_set (published ++ set_aside) ∪ ms_settled s; ms_cutovers := ms_cutovers s |}.

Definition mem_append_run (s : MemStore) (r : GateRun) : MemStore := {|
  ms_runs := ms_runs s ++ [r]; ms_attempts := ms_attempts s; ms_published := ms_published s;
  ms_settled := ms_settled s; ms_cutovers := ms_cutovers s |}.
Definition mem_append_attempt (s : MemStore) (a : Attempt) : MemStore := {|
  ms_runs := ms_runs s; ms_attempts := ms_attempts s ++ [a]; ms_published := ms_published s;
  ms_settled := ms_settled s; ms_cutovers := ms_cutovers s |}.

Definition mem_set_cutover (s : MemStore) (repo : string) (id : Iri) : Result MemStore StoreError :=
  match ms_cutovers s !! repo with
  | Some held => if held == id then Ok s else Err (SCutoverChanged repo held id)
  | None => Ok {| ms_runs := ms_runs s; ms_attempts := ms_attempts s; ms_published := ms_published s;
                  ms_settled := ms_settled s; ms_cutovers := <[repo := id]> (ms_cutovers s) |}
  end.

(** [MemRemote]; its toggles are the faults of a remote ledger. *)
Record MemRemote := {
  mr_down : bool; mr_fail_publish : bool; mr_lose_next_answer : bool;
  mr_foreign : gset RecordId;
  mr_runs : list GateRun; mr_attempts : list Attempt; mr_decisions : list Decision;
  mr_commits : N; mr_batches : list Batch }.

Definition remote_unreachable (repo cause : string) : StoreError := SUnreachable ("github ledger " +:+ repo) cause.

(** The entries of [new] that are not held yet, added one by one *)
Definition add_new {T} (name : T → option Iri) (held new : list T) : list T * N :=
  foldl (fun acc e => if existsb (fun h => name h == name e) acc.1 then acc else (acc.1 ++ [e], (acc.2 + 1)%N)) (held, 0%N) new.

Definition mem_publish (repo : string) (r : MemRemote) (b : Batch) : Result (option string) StoreError * MemRemote :=
  if mr_down r then (Err (remote_unreachable repo "taken down by the test"), r)
  else
    let batches := mr_batches r ++ [b] in
    if mr_fail_publish r then
      (Err (remote_unreachable repo "the commit did not land"),
       {| mr_down := mr_down r; mr_fail_publish := mr_fail_publish r; mr_lose_next_answer := mr_lose_next_answer r;
          mr_foreign := mr_foreign r; mr_runs := mr_runs r; mr_attempts := mr_attempts r;
          mr_decisions := mr_decisions r; mr_commits := mr_commits r; mr_batches := batches |})
    else
      let '(runs, added_runs) := add_new gr_id (mr_runs r) (bt_runs b) in
      let '(attempts, added_attempts) := add_new at_id (mr_attempts r) (bt_attempts b) in
      let '(decisions, added_decision) := add_new (fun d => Some (dc_id d)) (mr_decisions r) [bt_decision b] in
      let added := (added_runs + added_attempts + added_decision)%N in
      let commits := if (added =? 0)%N then mr_commits r else (mr_commits r + 1)%N in
      let commit := if (added =? 0)%N then None else Some ("commit-" +:+ pretty commits) in
      let after :=
        {| mr_down := mr_down r; mr_fail_publish := mr_fail_publish r; mr_lose_next_answer := false;
           mr_foreign := mr_foreign r; mr_runs := runs; mr_attempts := attempts;
           mr_decisions := decisions; mr_commits := commits; mr_batches := batches |} in
      if mr_lose_next_answer r
      then (Err (remote_unreachable repo "the commit landed, but its answer was lost"), after)
      else (Ok commit, after).

(** A machine's store and the remote it publishes to *)
Record World := { wd_store : MemStore; wd_remote : MemRemote }.

(** The calls of [flush], answered by the two *)
Definition on_store (w : World) (s : MemStore) : World := {| wd_store := s; wd_remote := wd_remote w |}.
Definition on_remote (w : World) (r : MemRemote) : World := {| wd_store := wd_store w; wd_remote := r |}.

Definition answer (repo : string) (o : FlushOp) (w : World) : FlushResp o * World :=
  match o return FlushResp o * World with
  | OwnsRecord record => (Ok (negb (bool_decide (record ∈ mr_foreign (wd_remote w)))), w)
  | CutoverOf repo => (Ok (ms_cutovers (wd_store w) !! repo), w)
  | Unpublished _ after => (Ok (mem_unpublished (wd_store w) after), w)
  | IsPublished repo id => (Ok (bool_decide ((repo, id) ∈ ms_published (wd_store w))), w)
  | Publish batch => let '(r, remote) := mem_publish repo (wd_remote w) batch in (r, on_remote w remote)
  | Settle repo published set_aside => (Ok tt, on_store w (mem_settle (wd_store w) repo published set_aside))
  end.

(** ** A machine, its remote, and what can happen to them *)

Definition names (runs : list GateRun) (attempts : list Attempt) : list Iri := omap gr_id runs ++ omap at_id attempts.

Definition local_names (w : World) : list Iri := names (ms_runs (wd_store w)) (ms_attempts (wd_store w)).
Definition remote_names (w : World) : list Iri := names (mr_runs (wd_remote w)) (mr_attempts (wd_remote w)).

(** A name minted just now *)
Definition minted (w : World) (id : option Iri) : Prop := ∀ i, id = Some i → i ∉ local_names w ∧ i ∉ remote_names w.

(** The faults a test, or the network, turns on and off *)
Definition with_faults (r : MemRemote) (down fail_publish lose : bool) : MemRemote := {|
  mr_down := down; mr_fail_publish := fail_publish; mr_lose_next_answer := lose; mr_foreign := mr_foreign r;
  mr_runs := mr_runs r; mr_attempts := mr_attempts r; mr_decisions := mr_decisions r;
  mr_commits := mr_commits r; mr_batches := mr_batches r |}.

(** [MemStore::new] and [MemRemote::new] *)
Definition first_world (foreign : gset RecordId) : World := {|
  wd_store := {| ms_runs := []; ms_attempts := []; ms_published := ∅; ms_settled := ∅; ms_cutovers := ∅ |};
  wd_remote := {| mr_down := false; mr_fail_publish := false; mr_lose_next_answer := false; mr_foreign := foreign;
                  mr_runs := []; mr_attempts := []; mr_decisions := []; mr_commits := 0; mr_batches := [] |} |}.

Section Machine.
Variable repo : string.

(** Entries are recorded, the cut-over is set, faults come and go, another
    machine publishes entries of its own, and a decision is flushed, by a
    process that may die between any two calls. *)
Inductive world_step (w : World) : World → Prop :=
| ws_run r : minted w (gr_id r) → world_step w (on_store w (mem_append_run (wd_store w) r))
| ws_attempt a : minted w (at_id a) → world_step w (on_store w (mem_append_attempt (wd_store w) a))
| ws_cutover id s : mem_set_cutover (wd_store w) repo id = Ok s → world_step w (on_store w s)
| ws_faults down fail_publish lose : world_step w (on_remote w (with_faults (wd_remote w) down fail_publish lose))
| ws_other b : (∀ i, i ∈ batch_ids b → i ∉ local_names w) → world_step w (on_remote w (mem_publish repo (wd_remote w) b).2)
| ws_flush d w' : w' ∈ worlds (answer repo) (flush repo d) w → world_step w w'.

Inductive reachable (foreign : gset RecordId) : World → Prop :=
| reach_first : reachable foreign (first_world foreign)
| reach_step w w' : reachable foreign w → world_step w w' → reachable foreign w'.
End Machine.

(** *** Half of a world: runs or attempts *)

Section Half.
Context {T : Type} `{Entry T} (key : T → option (RecordId * Iri)).
Hypothesis key_id : ∀ e record id, key e = Some (record, id) → entry_id e = Some id.
Implicit Types (settled : gset Iri) (foreign : gset RecordId) (local remote new : list T).

(** A remote entry of a local name is that entry; what was settled and belongs
    to this repository is on the remote. *)
Definition half_ok settled foreign local remote : Prop :=
  (∀ e e' id, e ∈ local → e' ∈ remote → entry_id e = Some id → entry_id e' = Some id → e = e')
  ∧ (∀ e record id, e ∈ local → key e = Some (record, id) → id ∈ settled → record ∉ foreign → e ∈ remote).

Lemma add_new_spec (held new : list T) :
  (∀ e, e ∈ held → e ∈ (add_new entry_id held new).1)
  ∧ (∀ e, e ∈ (add_new entry_id held new).1 → e ∈ held ∨ e ∈ new)
  ∧ (∀ e, e ∈ new → ∃ e', e' ∈ (add_new entry_id held new).1 ∧ entry_id e' = entry_id e).
Proof.
  unfold add_new. generalize 0%N. revert held. induction new as [|x new IH]; intros held n; cbn.
  { split_and!; [done|by left|by intros ? ?%elem_of_nil]. }
  destruct (existsb _ held) eqn:E.
  - destruct (IH held n) as (H1&H2&H3). split_and!; [done|intros e He; rewrite elem_of_cons; apply H2 in He; tauto|].
    intros e [->|He]%elem_of_cons; [|by apply H3]. apply existsb_elem in E as (y&Hy&E). apply bool_decide_eq_true in E.
    exists y. split; [by apply H1|done].
  - destruct (IH (held ++ [x]) (n + 1)%N) as (H1&H2&H3). split_and!.
    + intros e He. apply H1, elem_of_app. by left.
    + intros e He. apply H2 in He. rewrite elem_of_app, elem_of_cons, elem_of_nil in He. rewrite elem_of_cons. tauto.
    + intros e [->|He]%elem_of_cons; [|by apply H3]. exists x. split; [|done]. apply H1, elem_of_app. right. by left.
Qed.

Lemma half_publish settled foreign local remote new : NoDup (omap entry_id local) → half_ok settled foreign local remote →
  (∀ e id, e ∈ new → entry_id e = Some id → e ∈ local ∨ id ∉ omap entry_id local) →
  half_ok settled foreign local (add_new entry_id remote new).1
  ∧ (∀ e id, e ∈ new → e ∈ local → entry_id e = Some id → e ∈ (add_new entry_id remote new).1).
Proof.
  intros Hn [Hs Hset] Hnew. destruct (add_new_spec remote new) as (H1&H2&H3).
  assert (∀ e e' id, e ∈ local → e' ∈ (add_new entry_id remote new).1 → entry_id e = Some id → entry_id e' = Some id → e = e') as Hs'.
  { intros e e' id He [He'|He']%H2 Hid Hid'; [by eapply Hs|]. destruct (Hnew e' id He' Hid') as [Hl|[]].
    - by eapply omap_inj.
    - apply list_elem_of_omap. eauto. }
  split; [split; [done|]|].
  - intros e record id He Hk Hin Hf. apply H1. by eapply Hset.
  - intros e id He Hl Hid. destruct (H3 e He) as (e'&He'&Heq). by rewrite (Hs' e e' id Hl He' Hid) by congruence.
Qed.

Lemma half_append settled foreign local remote e : half_ok settled foreign local remote →
  (∀ id, entry_id e = Some id → id ∉ settled ∧ id ∉ omap entry_id remote) → half_ok settled foreign (local ++ [e]) remote.
Proof.
  intros [Hs Hset] He. split.
  - intros x y id [Hx|Hx%list_elem_of_singleton]%elem_of_app Hy Hidx Hidy; [by eapply Hs|]. subst x.
    destruct (He id Hidx) as [_ Hr]. destruct Hr. apply list_elem_of_omap. eauto.
  - intros x record id [Hx|Hx%list_elem_of_singleton]%elem_of_app Hk Hin Hf; [by eapply Hset|]. subst x.
    destruct (He id) as [Hr _]; [by eapply key_id|done].
Qed.

Lemma half_settle settled settled' foreign local remote : half_ok settled foreign local remote →
  (∀ e record id, e ∈ local → key e = Some (record, id) → id ∈ settled' → id ∈ settled ∨ record ∈ foreign ∨ e ∈ remote) →
  half_ok settled' foreign local remote.
Proof.
  intros [Hs Hset] Hnew. split; [done|]. intros e record id He Hk Hin Hf.
  destruct (Hnew e record id He Hk Hin) as [?|[?|?]]; [by eapply Hset|done..].
Qed.
End Half.

(** *** The invariant *)

Lemma run_key_id r record id : run_key r = Some (record, id) → entry_id r = Some id.
Proof. unfold run_key. cbn. destruct (gr_record r), (gr_id r); naive_solver. Qed.

Lemma attempt_key_id a record id : attempt_key a = Some (record, id) → entry_id a = Some id.
Proof. unfold attempt_key. cbn. destruct (at_id a); naive_solver. Qed.

Record consistent (repo : string) (w : World) : Prop := {
  co_names : NoDup (local_names w);
  co_runs : half_ok run_key (ms_settled (wd_store w)) (mr_foreign (wd_remote w)) (ms_runs (wd_store w)) (mr_runs (wd_remote w));
  co_attempts : half_ok attempt_key (ms_settled (wd_store w)) (mr_foreign (wd_remote w)) (ms_attempts (wd_store w)) (mr_attempts (wd_remote w));
  co_settled : ∀ id, id ∈ ms_settled (wd_store w) → id ∈ local_names w;
  co_marks : ∀ id, (repo, id) ∈ ms_published (wd_store w) → id ∈ remote_names w;
}.

Lemma names_NoDup runs attempts : NoDup (names runs attempts) →
  NoDup (omap gr_id runs) ∧ NoDup (omap at_id attempts) ∧ (∀ id, id ∈ omap gr_id runs → id ∈ omap at_id attempts → False).
Proof. unfold names. rewrite NoDup_app. naive_solver. Qed.

Lemma consistent_first repo foreign : consistent repo (first_world foreign).
Proof. split; cbn; [constructor|split; intros ? ? ? ?%elem_of_nil..|set_solver|set_solver]; done. Qed.

Lemma minted_append (l : list Iri) id : NoDup l → id ∉ l → NoDup (l ++ [id]).
Proof. intros Hl Hi. rewrite NoDup_app. split_and!; [done|set_solver|apply NoDup_singleton]. Qed.

Lemma consistent_run repo w r : consistent repo w → minted w (gr_id r) → consistent repo (on_store w (mem_append_run (wd_store w) r)).
Proof.
  intros [Hn Hr Ha Hs Hm] Hi. assert (local_names (on_store w (mem_append_run (wd_store w) r)) ≡ₚ local_names w ++ from_option (fun i => [i]) [] (gr_id r)) as Hp.
  { unfold local_names, names. cbn. rewrite omap_app. cbn. destruct (gr_id r); cbn; rewrite ?app_nil_r; [solve_Permutation|done]. }
  split; [| |done| |done].
  - rewrite Hp. destruct (gr_id r) as [i|]; cbn; [|by rewrite app_nil_r]. apply minted_append; [done|]. by apply Hi.
  - apply half_append; [apply run_key_id|done|]. intros id Hid. destruct (Hi id Hid) as [H1 H2]. split; [naive_solver|].
    intros H3. apply H2. unfold remote_names, names. apply elem_of_app. by left.
  - intros id Hid. rewrite Hp. apply elem_of_app. left. by apply Hs.
Qed.

Lemma consistent_attempt repo w a : consistent repo w → minted w (at_id a) → consistent repo (on_store w (mem_append_attempt (wd_store w) a)).
Proof.
  intros [Hn Hr Ha Hs Hm] Hi. assert (local_names (on_store w (mem_append_attempt (wd_store w) a)) = local_names w ++ from_option (fun i => [i]) [] (at_id a)) as Hp.
  { unfold local_names, names. cbn. rewrite omap_app, app_assoc. cbn. by destruct (at_id a). }
  split; [|done| | |done].
  - rewrite Hp. destruct (at_id a) as [i|]; cbn; [|by rewrite app_nil_r]. apply minted_append; [done|]. by apply Hi.
  - apply half_append; [apply attempt_key_id|done|]. intros id Hid. destruct (Hi id Hid) as [H1 H2]. split; [naive_solver|].
    intros H3. apply H2. unfold remote_names, names. apply elem_of_app. by right.
  - intros id Hid. rewrite Hp. apply elem_of_app. left. by apply Hs.
Qed.

Lemma mem_publish_cases repo r b : mr_foreign (mem_publish repo r b).2 = mr_foreign r
  ∧ (mr_runs (mem_publish repo r b).2 = mr_runs r ∧ mr_attempts (mem_publish repo r b).2 = mr_attempts r
     ∧ is_ok (mem_publish repo r b).1 = false
   ∨ mr_runs (mem_publish repo r b).2 = (add_new gr_id (mr_runs r) (bt_runs b)).1
     ∧ mr_attempts (mem_publish repo r b).2 = (add_new at_id (mr_attempts r) (bt_attempts b)).1).
Proof.
  unfold mem_publish. destruct (mr_down r); [split; [done|by left]|]. destruct (mr_fail_publish r); [split; [done|by left]|].
  destruct (add_new gr_id _ _) as [runs nr], (add_new at_id _ _) as [attempts na], (add_new _ (mr_decisions r) _) as [decisions nd].
  destruct (mr_lose_next_answer r); split; auto.
Qed.

(** Entries that may be published here: recorded here, or named elsewhere *)
Definition publishable (w : World) (b : Batch) : Prop :=
  (∀ r id, r ∈ bt_runs b → gr_id r = Some id → r ∈ ms_runs (wd_store w) ∨ id ∉ local_names w)
  ∧ (∀ a id, a ∈ bt_attempts b → at_id a = Some id → a ∈ ms_attempts (wd_store w) ∨ id ∉ local_names w).

Lemma consistent_publish repo w b : consistent repo w → publishable w b →
  consistent repo (on_remote w (mem_publish repo (wd_remote w) b).2)
  ∧ (is_ok (mem_publish repo (wd_remote w) b).1 = true →
     (∀ r id, r ∈ bt_runs b → r ∈ ms_runs (wd_store w) → gr_id r = Some id → r ∈ mr_runs (mem_publish repo (wd_remote w) b).2)
     ∧ (∀ a id, a ∈ bt_attempts b → a ∈ ms_attempts (wd_store w) → at_id a = Some id → a ∈ mr_attempts (mem_publish repo (wd_remote w) b).2)).
Proof.
  intros [Hn Hr Ha Hs Hm] [Hpr Hpa]. destruct (names_NoDup _ _ Hn) as (Hn1&Hn2&_).
  destruct (mem_publish_cases repo (wd_remote w) b) as [Hf [(E1&E2&E3)|[E1 E2]]].
  { split; [|by rewrite E3]. split; unfold remote_names; cbn; rewrite ?E1, ?E2, ?Hf; done. }
  destruct (half_publish (T := GateRun) (H := run_entry) run_key _ _ _ _ (bt_runs b) Hn1 Hr) as [Hr1 Hr2].
  { intros r id Hin Hid. destruct (Hpr r id Hin Hid) as [?|Ho]; [by left|right]. intros Hi. apply Ho, elem_of_app. by left. }
  destruct (half_publish (T := Attempt) (H := attempt_entry) attempt_key _ _ _ _ (bt_attempts b) Hn2 Ha) as [Ha1 Ha2].
  { intros a id Hin Hid. destruct (Hpa a id Hin Hid) as [?|Ho]; [by left|right]. intros Hi. apply Ho, elem_of_app. by right. }
  split; [|by rewrite E1, E2].
  split; [done|cbn; by rewrite Hf, E1|cbn; by rewrite Hf, E2|done|].
  intros id Hid%Hm. unfold remote_names, names in *. cbn. rewrite E1, E2. apply elem_of_app. apply elem_of_app in Hid.
  rewrite !list_elem_of_omap in *. destruct Hid as [(x&Hx&?)|(x&Hx&?)]; [left|right]; exists x; (split; [|done]);
    [by apply (add_new_spec (T := GateRun) (H := run_entry))|by apply (add_new_spec (T := Attempt) (H := attempt_entry))].
Qed.

Lemma settle_marks repo s published aside r id : (r, id) ∈ ms_published (mem_settle s repo published aside)
  ↔ (r = repo ∧ id ∈ published) ∨ (r, id) ∈ ms_published s.
Proof.
  cbn. generalize (ms_published s). induction published as [|x l IH]; intros p; cbn; [set_solver|]. rewrite IH. set_solver.
Qed.

(** What is sent is recorded here and reached the remote; what is set aside
    belongs elsewhere. *)
Definition landed (w : World) (b : Batch) (aside : list Iri) : Prop :=
  (∀ r, r ∈ bt_runs b → r ∈ ms_runs (wd_store w) ∧ r ∈ mr_runs (wd_remote w))
  ∧ (∀ a, a ∈ bt_attempts b → a ∈ ms_attempts (wd_store w) ∧ a ∈ mr_attempts (wd_remote w))
  ∧ (∀ id, id ∈ aside → ∃ record, record ∈ mr_foreign (wd_remote w)
     ∧ ((∃ r, r ∈ ms_runs (wd_store w) ∧ run_key r = Some (record, id)) ∨ (∃ a, a ∈ ms_attempts (wd_store w) ∧ attempt_key a = Some (record, id)))).

Lemma consistent_settle repo w b aside : consistent repo w → landed w b aside →
  consistent repo (on_store w (mem_settle (wd_store w) repo (batch_ids b) aside)).
Proof.
  intros [Hn Hr Ha Hs Hm] (Lr&La&Lx). destruct (names_NoDup _ _ Hn) as (Hn1&Hn2&Hx).
  assert (∀ r id, r ∈ ms_runs (wd_store w) → gr_id r = Some id → id ∈ omap gr_id (ms_runs (wd_store w))) as Or by (intros; apply list_elem_of_omap; eauto).
  assert (∀ a id, a ∈ ms_attempts (wd_store w) → at_id a = Some id → id ∈ omap at_id (ms_attempts (wd_store w))) as Oa by (intros; apply list_elem_of_omap; eauto).
  assert (∀ id, id ∈ batch_ids b → (∃ r, r ∈ bt_runs b ∧ gr_id r = Some id) ∨ (∃ a, a ∈ bt_attempts b ∧ at_id a = Some id)) as Hb.
  { intros id [H1|H1]%elem_of_app; apply list_elem_of_omap in H1; auto. }
  split; [done|..].
  - eapply half_settle; [exact Hr|]. intros e record id He Hk. pose proof (run_key_id _ _ _ Hk) as Hid. cbn in Hid |- *.
    rewrite elem_of_union, elem_of_list_to_set, elem_of_app. intros [[Hi|Hi]|Hi]; [| |by left].
    + apply Hb in Hi as [(r&Hin&Hrid)|(a&Hin&Haid)].
      * destruct (Lr r Hin) as [? ?]. right; right. by rewrite (omap_inj (T := GateRun) (H := run_entry) (ms_runs (wd_store w)) e r id).
      * destruct (La a Hin). exfalso. eapply Hx; [by eapply Or|by eapply Oa].
    + destruct (Lx id Hi) as (rec&Hrec&[(r&Hin&Hrk)|(a&Hin&Hak)]).
      * right; left. pose proof (run_key_id _ _ _ Hrk) as Hrid. rewrite (omap_inj (T := GateRun) (H := run_entry) (ms_runs (wd_store w)) e r id) in Hk; try done. congruence.
      * exfalso. eapply Hx; [by eapply Or|eapply Oa; [done|by eapply attempt_key_id]].
  - eapply half_settle; [exact Ha|]. intros e record id He Hk. pose proof (attempt_key_id _ _ _ Hk) as Hid. cbn in Hid |- *.
    rewrite elem_of_union, elem_of_list_to_set, elem_of_app. intros [[Hi|Hi]|Hi]; [| |by left].
    + apply Hb in Hi as [(r&Hin&Hrid)|(a&Hin&Haid)].
      * destruct (Lr r Hin). exfalso. eapply Hx; [by eapply Or|by eapply Oa].
      * destruct (La a Hin) as [? ?]. right; right. by rewrite (omap_inj (T := Attempt) (H := attempt_entry) (ms_attempts (wd_store w)) e a id).
    + destruct (Lx id Hi) as (rec&Hrec&[(r&Hin&Hrk)|(a&Hin&Hak)]).
      * exfalso. eapply Hx; [eapply Or; [done|by eapply run_key_id]|by eapply Oa].
      * right; left. pose proof (attempt_key_id _ _ _ Hak) as Haid. rewrite (omap_inj (T := Attempt) (H := attempt_entry) (ms_attempts (wd_store w)) e a id) in Hk; try done. congruence.
  - intros id. cbn. rewrite elem_of_union, elem_of_list_to_set, elem_of_app. intros [[Hi|Hi]|Hi]; [| |by apply Hs].
    + apply elem_of_app. apply Hb in Hi as [(r&Hin&Hrid)|(a&Hin&Haid)]; [left; destruct (Lr r Hin); by eapply Or|right; destruct (La a Hin); by eapply Oa].
    + apply elem_of_app. destruct (Lx id Hi) as (rec&Hrec&[(r&Hin&Hrk)|(a&Hin&Hak)]);
        [left; eapply Or; [done|by eapply run_key_id]|right; eapply Oa; [done|by eapply attempt_key_id]].
  - intros id [[_ Hi]|Hi]%settle_marks; [|by apply Hm].
    apply elem_of_app. rewrite !list_elem_of_omap. apply Hb in Hi as [(r&Hin&Hrid)|(a&Hin&Haid)]; [left; exists r|right; exists a]; split; naive_solver.
Qed.

Lemma reads_keep repo o w : is_read (event o (answer repo o w).1) → (answer repo o w).2 = w.
Proof. by destruct o. Qed.

(** What [gather] answers on a world, besides that it leaves it alone *)
Lemma gather_world repo d w : (interp (answer repo) (gather repo d) w).2 = w
  ∧ (∀ w', w' ∈ worlds (answer repo) (gather repo d) w → w' = w)
  ∧ ∀ og, (interp (answer repo) (gather repo d) w).1.1 = Ok (Some og) →
    (∀ r, r ∈ bt_runs (og_batch og) → r ∈ ms_runs (wd_store w) ∧ is_some (gr_id r) = true)
    ∧ (∀ a, a ∈ bt_attempts (og_batch og) → a ∈ ms_attempts (wd_store w) ∧ is_some (at_id a) = true)
    ∧ (∀ id, id ∈ og_aside og → ∃ record, record ∈ mr_foreign (wd_remote w)
       ∧ ((∃ r, r ∈ ms_runs (wd_store w) ∧ run_key r = Some (record, id)) ∨ (∃ a, a ∈ ms_attempts (wd_store w) ∧ attempt_key a = Some (record, id)))).
Proof.
  destruct (asks_only (answer repo) is_read (gather repo d) w (reads_keep repo) (gather_reads repo d)) as (H1&H2&H3).
  split_and!; [done..|]. intros og Hog. pose proof (interp_runs (answer repo) (gather repo d) w) as Hr. rewrite Hog in Hr.
  apply gather_runs in Hr as (_&_&(after&pending&_&Hp&Jr&Ja&Jx)&_). rewrite Forall_forall in H2.
  apply H2 in Hp. cbn in Hp. injection Hp as ->. unfold mem_unpublished in *. cbn in *. split_and!.
  - intros r Hin. destruct (Jr r Hin) as (Hl&record&id&Hk&_). apply sort_by_elem, filter_elem in Hl as [Hl _]. split; [done|].
    apply run_key_id in Hk. cbn in Hk. by rewrite Hk.
  - intros a Hin. destruct (Ja a Hin) as (Hl&record&id&Hk&_). apply sort_by_elem, filter_elem in Hl as [Hl _]. split; [done|].
    apply attempt_key_id in Hk. cbn in Hk. by rewrite Hk.
  - intros id Hin. destruct (Jx id Hin) as (record&Ho&Hx). exists record. split.
    + apply H2 in Ho. cbn in Ho. injection Ho as Ho. symmetry in Ho. by apply negb_false_iff, bool_decide_eq_true in Ho.
    + destruct Hx as [(r&Hl&?)|(a&Hl&?)]; [left; exists r|right; exists a]; apply sort_by_elem, filter_elem in Hl as [Hl _]; done.
Qed.

Lemma sent_publishable repo d w og : (interp (answer repo) (gather repo d) w).1.1 = Ok (Some og) → publishable w (og_batch og).
Proof. intros Hog. destruct (gather_world repo d w) as (_&_&Hg). destruct (Hg og Hog) as (Hr&Ha&_). split; [intros r id Hin _|intros a id Hin _]; left; naive_solver. Qed.

(** Once it is published, what was gathered has landed. *)
Lemma sent_landed repo d w og : consistent repo w → (interp (answer repo) (gather repo d) w).1.1 = Ok (Some og) →
  is_ok (mem_publish repo (wd_remote w) (og_batch og)).1 = true →
  landed (on_remote w (mem_publish repo (wd_remote w) (og_batch og)).2) (og_batch og) (og_aside og).
Proof.
  intros Hw Hog Hok. destruct (gather_world repo d w) as (_&_&Hg). destruct (Hg og Hog) as (Hr&Ha&Hx).
  destruct (consistent_publish repo w (og_batch og) Hw (sent_publishable _ _ _ _ Hog)) as [_ Hl]. destruct (Hl Hok) as [Lr La].
  unfold landed. cbn. split_and!.
  - intros r Hin. destruct (Hr r Hin) as [? Hid]. split; [done|]. destruct (gr_id r) eqn:E; [|done]. by eapply Lr.
  - intros a Hin. destruct (Ha a Hin) as [? Hid]. split; [done|]. destruct (at_id a) eqn:E; [|done]. by eapply La.
  - intros id Hin. destruct (mem_publish_cases repo (wd_remote w) (og_batch og)) as [-> _]. by apply Hx.
Qed.

Lemma consistent_flush repo d w w' : consistent repo w → w' ∈ worlds (answer repo) (flush repo d) w → consistent repo w'.
Proof.
  intros Hw. destruct (gather_world repo d w) as (H1&H2&_).
  intros [Hin|[->|(out&Hout&Hin)]]%worlds_rbind; [by rewrite (H2 w' Hin)|by rewrite H1|]. rewrite H1 in Hin.
  destruct out as [og|]; [|apply list_elem_of_singleton in Hin; by subst w'].
  destruct (consistent_publish repo w (og_batch og) Hw (sent_publishable _ _ _ _ Hout)) as [Hp _].
  pose proof (sent_landed repo d w og Hw Hout) as Hl.
  apply worlds_rbind in Hin as [Hin|[->|(commit&Hc&Hin)]]; cbn in *; destruct (mem_publish repo (wd_remote w) (og_batch og)) as [ans r'] eqn:E; cbn in *.
  - by apply elem_of_cons in Hin as [->| ->%list_elem_of_singleton].
  - done.
  - subst ans. specialize (Hl eq_refl). apply worlds_rbind in Hin as [Hin|[->|(x&_&Hin)]]; cbn in *.
    + apply elem_of_cons in Hin as [->| ->%list_elem_of_singleton]; [done|]. exact (consistent_settle _ _ _ _ Hp Hl).
    + exact (consistent_settle _ _ _ _ Hp Hl).
    + apply list_elem_of_singleton in Hin as ->. exact (consistent_settle _ _ _ _ Hp Hl).
Qed.

Lemma consistent_step repo w w' : consistent repo w → world_step repo w w' → consistent repo w'.
Proof.
  intros Hw Hs. destruct Hs as [r Hi|a Hi|id s Hc|down fail_ lose|b Hb|d w' Hf].
  - by apply consistent_run.
  - by apply consistent_attempt.
  - unfold mem_set_cutover in Hc. destruct (ms_cutovers _ !! _); [case_bool_decide; [|done]|]; injection Hc as <-; [by destruct w|].
    destruct Hw. by split.
  - destruct Hw. by split.
  - apply consistent_publish; [done|]. split; [intros r id Hin Hid|intros a id Hin Hid]; right; apply Hb, elem_of_app;
      rewrite !list_elem_of_omap; eauto.
  - by eapply consistent_flush.
Qed.

Lemma reachable_consistent repo foreign w : reachable repo foreign w → consistent repo w.
Proof. intros Hr. induction Hr; [apply consistent_first|by eapply consistent_step]. Qed.

(** (C11) No evidence is lost. After any sequence of recordings, faults, flushes
    and crashes in the middle of one, an entry of this machine that is tied to a
    record of the repository and named after the cut-over is on the remote, or it
    still waits and the next flush will offer it; and nothing is marked published
    that the remote does not hold. *)
Theorem no_evidence_lost repo foreign w : reachable repo foreign w →
  (∀ after, ms_cutovers (wd_store w) !! repo = Some after →
     (∀ r record id, r ∈ ms_runs (wd_store w) → run_key r = Some (record, id) → str_ltb after id = true →
        record ∉ mr_foreign (wd_remote w) → r ∈ pe_runs (mem_unpublished (wd_store w) after) ∨ r ∈ mr_runs (wd_remote w))
     ∧ (∀ a record id, a ∈ ms_attempts (wd_store w) → attempt_key a = Some (record, id) → str_ltb after id = true →
        record ∉ mr_foreign (wd_remote w) → a ∈ pe_attempts (mem_unpublished (wd_store w) after) ∨ a ∈ mr_attempts (wd_remote w)))
  ∧ (∀ id, (repo, id) ∈ ms_published (wd_store w) → id ∈ remote_names w).
Proof.
  intros [_ [_ Hr] [_ Ha] _ Hm]%reachable_consistent. split; [|done]. intros after Hafter. split.
  - intros r record id Hin Hk Hlt Hf. destruct (decide (id ∈ ms_settled (wd_store w))) as [Hs|Hs]; [right; by eapply Hr|left].
    cbn. apply sort_by_elem, filter_elem. split; [done|]. unfold run_key in Hk. destruct (gr_record r); [|done].
    destruct (gr_id r); [|done]. injection Hk as -> ->. cbn. rewrite Hlt. by rewrite bool_decide_eq_false_2.
  - intros a record id Hin Hk Hlt Hf. destruct (decide (id ∈ ms_settled (wd_store w))) as [Hs|Hs]; [right; by eapply Ha|left].
    cbn. apply sort_by_elem, filter_elem. split; [done|]. unfold attempt_key in Hk.
    destruct (at_id a); [|done]. injection Hk as _ ->. cbn. rewrite Hlt. by rewrite bool_decide_eq_false_2.
Qed.

(** *** A flush that meets no fault *)

Definition kept_here {T} (w : World) (key : T → option (RecordId * Iri)) (e : T) : bool :=
  is_some_and (key e) (fun k => negb (bool_decide (k.1 ∈ mr_foreign (wd_remote w)))).

Lemma sift_interp {T} repo w (key : T → option (RecordId * Iri)) l : ∀ s, ∃ aside left_,
  (interp (answer repo) (sift key l s) w).1.1 =
    Ok {| sf_kept := sf_kept s ++ List.filter (kept_here w key) l; sf_aside := sf_aside s ++ aside; sf_left := left_ |}
  ∧ (interp (answer repo) (sift key l s) w).2 = w
  ∧ (∀ e record id, e ∈ l → key e = Some (record, id) → kept_here w key e = false → id ∈ aside).
Proof.
  induction l as [|e l IH]; intros s; cbn [sift].
  { exists [], (sf_left s). rewrite !app_nil_r. destruct s. split_and!; [done..|]. by intros ? ? ? ?%elem_of_nil. }
  destruct (key e) as [[record id]|] eqn:Ek.
  - unfold rbind. rewrite interp_bind. cbn [interp call answer fst snd].
    set (s1 := if negb _ then _ else _). destruct (IH s1) as (aside&left_&Hr&Hw&Hx).
    assert (kept_here w key e = negb (bool_decide (record ∈ mr_foreign (wd_remote w)))) as Hk by (unfold kept_here; by rewrite Ek).
    exists (if kept_here w key e then aside else id :: aside), left_.
    destruct (interp (answer repo) (sift key l s1) w) as [[res tr] w1]. cbn in Hr, Hw |- *. subst w1 res. rewrite Hk.
    unfold s1. destruct (negb _) eqn:E; cbn; rewrite <- ?app_assoc; (split_and!; [done..|]).
    + intros x rec i [->|Hin]%elem_of_cons Hkx Hke; [congruence|by eapply Hx].
    + intros x rec i [->|Hin]%elem_of_cons Hkx Hke; [rewrite Ek in Hkx; injection Hkx as -> ->; by left|right; by eapply Hx].
  - destruct (IH s) as (aside&left_&Hr&Hw&Hx). exists aside, left_.
    assert (kept_here w key e = false) as Hk by (unfold kept_here; by rewrite Ek). cbn. rewrite Hk. split_and!; [done..|].
    intros x rec i [->|Hin]%elem_of_cons Hkx Hke; [congruence|by eapply Hx].
Qed.

Lemma cited_interp repo d ids w cited : (∀ c, c ∈ cited → c ∈ ids ∨ (repo, c) ∈ ms_published (wd_store w)) →
  (interp (answer repo) (cited_known repo d ids cited) w).1.1 = Ok tt ∧ (interp (answer repo) (cited_known repo d ids cited) w).2 = w.
Proof.
  induction cited as [|c cited IH]; intros Hc; [done|]. cbn [cited_known].
  assert (∀ x, x ∈ cited → x ∈ ids ∨ (repo, x) ∈ ms_published (wd_store w)) as Hc' by (intros x Hx; apply Hc; by right).
  destruct (contains ids c) eqn:E; [by apply IH|]. destruct (Hc c) as [Hin|Hin]; [by left|by apply contains_false in E|].
  destruct (interp_rbind (answer repo) (call (IsPublished repo c)) (fun known : bool => if known then cited_known repo d ids cited
    else Ret (Err (SRestsOnLocalEntry d c))) w) as [H1 H2].
  cbn [interp call answer fst snd] in H1, H2. rewrite bool_decide_eq_true_2 in H1, H2 by done. rewrite H1, H2. by apply IH.
Qed.

(** The decision rests on what this flush sends or what was published. *)
Definition supported (repo : string) (w : World) (after : Iri) (d : Decision) : Prop :=
  let pending := mem_unpublished (wd_store w) after in
  ∀ c, c ∈ dc_rests_on d → (repo, c) ∈ ms_published (wd_store w)
    ∨ c ∈ omap gr_id (List.filter (kept_here w run_key) (pe_runs pending))
    ∨ c ∈ omap at_id (List.filter (kept_here w attempt_key) (pe_attempts pending)).

Lemma gather_interp repo d w after : ms_cutovers (wd_store w) !! repo = Some after → dc_record d ∉ mr_foreign (wd_remote w) →
  supported repo w after d →
  ∃ og, (interp (answer repo) (gather repo d) w).1.1 = Ok (Some og)
  ∧ og_batch og = {| bt_decision := d;
      bt_runs := List.filter (kept_here w run_key) (pe_runs (mem_unpublished (wd_store w) after));
      bt_attempts := List.filter (kept_here w attempt_key) (pe_attempts (mem_unpublished (wd_store w) after)) |}
  ∧ (∀ r record id, r ∈ pe_runs (mem_unpublished (wd_store w) after) → run_key r = Some (record, id) → kept_here w run_key r = false → id ∈ og_aside og)
  ∧ (∀ a record id, a ∈ pe_attempts (mem_unpublished (wd_store w) after) → attempt_key a = Some (record, id) → kept_here w attempt_key a = false → id ∈ og_aside og).
Proof.
  intros Hcut Hrec Hsup. unfold gather. rewrite (proj1 (interp_rbind (answer repo) _ _ w)). cbn [interp call answer fst snd].
  rewrite bool_decide_eq_false_2 by done. cbn [negb].
  rewrite (proj1 (interp_rbind (answer repo) _ _ w)). cbn [interp call answer fst snd]. rewrite Hcut.
  rewrite (proj1 (interp_rbind (answer repo) _ _ w)). cbn [interp call answer fst snd].
  set (pending := mem_unpublished (wd_store w) after) in *.
  rewrite (proj1 (interp_rbind (answer repo) _ _ w)).
  destruct (sift_interp repo w run_key (pe_runs pending) {| sf_kept := []; sf_aside := []; sf_left := [] |}) as (aside1&left1&->&->&Hx1).
  rewrite (proj1 (interp_rbind (answer repo) _ _ w)). cbn [sf_kept sf_aside sf_left app].
  destruct (sift_interp repo w attempt_key (pe_attempts pending) {| sf_kept := []; sf_aside := aside1; sf_left := left1 |}) as (aside2&left2&->&->&Hx2).
  rewrite (proj1 (interp_rbind (answer repo) _ _ w)). cbn [sf_kept sf_aside sf_left app].
  set (batch := {| bt_decision := d |}).
  destruct (cited_interp repo (dc_id d) (batch_ids batch) w (dc_rests_on d)) as [-> ->].
  { intros c Hc. destruct (Hsup c Hc) as [?|Hin]; [by right|left]. unfold batch_ids, batch. cbn. apply elem_of_app. tauto. }
  eexists. split; [reflexivity|]. cbn. split_and!; [done|intros; apply elem_of_app; left; by eapply Hx1|intros; apply elem_of_app; right; by eapply Hx2].
Qed.

Lemma healthy_publish repo r b : mr_down r = false → mr_fail_publish r = false → mr_lose_next_answer r = false →
  is_ok (mem_publish repo r b).1 = true ∧ ∃ d', d' ∈ mr_decisions (mem_publish repo r b).2 ∧ dc_id d' = dc_id (bt_decision b).
Proof.
  intros H1 H2 H3. unfold mem_publish. rewrite H1, H2, H3.
  destruct (add_new gr_id _ _) as [runs nr], (add_new at_id _ _) as [attempts na]. unfold add_new. cbn [foldl fst snd].
  destruct (existsb _ (mr_decisions r)) eqn:E; cbn; (split; [done|]).
  - apply existsb_elem in E as (d'&Hd&E). apply bool_decide_eq_true in E. exists d'. split; [done|]. by injection E.
  - exists (bt_decision b). split; [|done]. apply elem_of_app. right. by left.
Qed.

Lemma filter_nil {A} (p : A → bool) l : (∀ x, x ∈ l → p x = false) → List.filter p l = [].
Proof. induction l as [|x l IH]; intros Hp; [done|]. cbn. rewrite (Hp x) by by left. apply IH. intros y Hy. apply Hp. by right. Qed.

(** Nothing waits once every waiting name is settled. *)
Lemma settled_all s repo after published aside :
  (∀ r id, r ∈ pe_runs (mem_unpublished s after) → gr_id r = Some id → id ∈ published ++ aside) →
  (∀ a id, a ∈ pe_attempts (mem_unpublished s after) → at_id a = Some id → id ∈ published ++ aside) →
  mem_unpublished (mem_settle s repo published aside) after = {| pe_runs := []; pe_attempts := [] |}
  ∧ (∀ r record id, r ∈ ms_runs s → run_key r = Some (record, id) → str_ltb after id = true → id ∈ ms_settled (mem_settle s repo published aside))
  ∧ (∀ a record id, a ∈ ms_attempts s → attempt_key a = Some (record, id) → str_ltb after id = true → id ∈ ms_settled (mem_settle s repo published aside)).
Proof.
  intros Hr Ha.
  assert (∀ r record id, r ∈ ms_runs s → run_key r = Some (record, id) → str_ltb after id = true → id ∈ ms_settled (mem_settle s repo published aside)) as Sr.
  { intros r record id Hin Hk Hlt. cbn. rewrite elem_of_union, elem_of_list_to_set. destruct (decide (id ∈ ms_settled s)) as [|Hs]; [by right|left].
    apply (Hr r); [|by eapply run_key_id]. cbn. apply sort_by_elem, filter_elem. split; [done|]. unfold run_key in Hk.
    destruct (gr_record r); [|done]. destruct (gr_id r); [|done]. injection Hk as _ ->. cbn. rewrite Hlt. by rewrite bool_decide_eq_false_2. }
  assert (∀ a record id, a ∈ ms_attempts s → attempt_key a = Some (record, id) → str_ltb after id = true → id ∈ ms_settled (mem_settle s repo published aside)) as Sa.
  { intros a record id Hin Hk Hlt. cbn. rewrite elem_of_union, elem_of_list_to_set. destruct (decide (id ∈ ms_settled s)) as [|Hs]; [by right|left].
    apply (Ha a); [|by eapply attempt_key_id]. cbn. apply sort_by_elem, filter_elem. split; [done|]. unfold attempt_key in Hk.
    destruct (at_id a); [|done]. injection Hk as _ ->. cbn. rewrite Hlt. by rewrite bool_decide_eq_false_2. }
  split_and!; [|done..]. unfold mem_unpublished. f_equal; rewrite filter_nil; try done.
  - intros r Hin. destruct (gr_record r) as [record|] eqn:Er; [|done]. destruct (gr_id r) as [id|] eqn:Ei; [|done]. cbn [is_some is_some_and andb].
    destruct (str_ltb after id) eqn:El; [|done]. rewrite bool_decide_eq_true_2; [done|]. apply (Sr r record); [done| |done]. unfold run_key. by rewrite Er, Ei.
  - intros a Hin. destruct (at_id a) as [id|] eqn:Ei; [|done]. cbn [is_some_and].
    destruct (str_ltb after id) eqn:El; [|done]. rewrite bool_decide_eq_true_2; [done|]. apply (Sa a (at_record a)); [done| |done]. unfold attempt_key. by rewrite Ei.
Qed.

Lemma flush_outcome repo d w og : (interp (answer repo) (gather repo d) w).1.1 = Ok (Some og) →
  is_ok (mem_publish repo (wd_remote w) (og_batch og)).1 = true →
  ∃ res tr, interp (answer repo) (flush repo d) w = (Ok res, tr,
    on_store (on_remote w (mem_publish repo (wd_remote w) (og_batch og)).2) (mem_settle (wd_store w) repo (batch_ids (og_batch og)) (og_aside og))).
Proof.
  intros Hog Hok. pose proof (gather_world repo d w) as (Hgw&_&_). unfold flush, rbind. rewrite interp_bind.
  destruct (interp (answer repo) (gather repo d) w) as [[res tr] w1]. cbn in Hog, Hgw. subst res w1.
  rewrite interp_bind. cbn [interp call answer fst snd].
  destruct (mem_publish repo (wd_remote w) (og_batch og)) as [[commit|e] r']; [|done]. cbn. by eexists _, _.
Qed.

(** (C12) Publishing makes progress: whatever failed before, the next flush that
    meets no fault, of a decision whose evidence is here, is answered; then the
    remote holds the decision and every entry it is owed, and nothing waits. *)
Theorem flush_drains repo foreign w after d : reachable repo foreign w →
  mr_down (wd_remote w) = false → mr_fail_publish (wd_remote w) = false → mr_lose_next_answer (wd_remote w) = false →
  ms_cutovers (wd_store w) !! repo = Some after → dc_record d ∉ mr_foreign (wd_remote w) → supported repo w after d →
  let '(res, _, w') := interp (answer repo) (flush repo d) w in
  is_ok res = true
  ∧ (∃ d', d' ∈ mr_decisions (wd_remote w') ∧ dc_id d' = dc_id d)
  ∧ mem_unpublished (wd_store w') after = {| pe_runs := []; pe_attempts := [] |}
  ∧ (∀ r record id, r ∈ ms_runs (wd_store w') → run_key r = Some (record, id) → str_ltb after id = true →
       record ∉ mr_foreign (wd_remote w') → r ∈ mr_runs (wd_remote w'))
  ∧ (∀ a record id, a ∈ ms_attempts (wd_store w') → attempt_key a = Some (record, id) → str_ltb after id = true →
       record ∉ mr_foreign (wd_remote w') → a ∈ mr_attempts (wd_remote w')).
Proof.
  intros Hreach Hdown Hfail Hlose Hcut Hrec Hsup. pose proof (reachable_consistent _ _ _ Hreach) as Hw.
  destruct (gather_interp repo d w after Hcut Hrec Hsup) as (og&Hog&Hb&Hx1&Hx2). pose proof (gather_world repo d w) as (Hgw&_&_).
  destruct (healthy_publish repo (wd_remote w) (og_batch og) Hdown Hfail Hlose) as [Hok Hdec].
  assert (bt_decision (og_batch og) = d) as Hd by (by rewrite Hb). rewrite Hd in Hdec.
  pose proof (sent_landed repo d w og Hw Hog Hok) as Hl.
  destruct (consistent_publish repo w (og_batch og) Hw (sent_publishable _ _ _ _ Hog)) as [Hp _].
  pose proof (consistent_settle repo _ _ _ Hp Hl) as [_ [_ Hsr] [_ Hsa] _ _].
  destruct (flush_outcome repo d w og Hog Hok) as (res&tr&->).
  destruct (settled_all (wd_store w) repo after (batch_ids (og_batch og)) (og_aside og)) as (Hnone&Sr&Sa).
  - intros r id Hin Hid. pose proof (proj2 (proj1 (filter_elem _ _ _) (proj1 (sort_by_elem _ _ _) Hin))) as Hwait.
    apply andb_true_iff in Hwait as [Hsome _]. destruct (gr_record r) as [record|] eqn:Er; [|done].
    assert (run_key r = Some (record, id)) as Hk by (unfold run_key; by rewrite Er, Hid).
    apply elem_of_app. destruct (kept_here w run_key r) eqn:Ek; [left|right; by eapply Hx1].
    rewrite Hb. apply elem_of_app. left. apply list_elem_of_omap. exists r. split; [|done]. by apply filter_elem.
  - intros a id Hin Hid. assert (attempt_key a = Some (at_record a, id)) as Hk by (unfold attempt_key; by rewrite Hid).
    apply elem_of_app. destruct (kept_here w attempt_key a) eqn:Ek; [left|right; by eapply Hx2].
    rewrite Hb. apply elem_of_app. right. apply list_elem_of_omap. exists a. split; [|done]. by apply filter_elem.
  - split_and!; [done|done|done|..].
    + intros r record id Hin Hk Hlt Hf. by eapply Hsr; [..|by eapply Sr|].
    + intros a record id Hin Hk Hlt Hf. by eapply Hsa; [..|by eapply Sa|].
Qed.

(** ** A machine whose first flush was answered by nobody *)

Module Demo.
Definition entry (n : string) (record : RecordId) : GateRun := {|
  gr_id := Some ("urn:e:" +:+ n); gr_at := Some "2026-09-30T12:34:56.789Z"; gr_gate := "urn:g:1"; gr_record := Some record;
  gr_commit := "abc"; gr_verdict := VError "no such file /home/me/x"; gr_population := 0;
  gr_output_excerpt := Some "secret"; gr_duration_ms := 1; gr_cost_usd_micros := 0 |}.

Definition decided : Decision := {|
  dc_id := "urn:d:1"; dc_at := "2026-09-30T12:34:57.000Z"; dc_record := "urn:r:1"; dc_finding := None;
  dc_outcome := OAttempt ACompleted; dc_rests_on := ["urn:e:1"] |}.

Definition w0 : World := first_world {[ "urn:r:2" ]}.
Definition w1 : World := on_store w0 (mem_append_run (wd_store w0) (entry "1" "urn:r:1")).
Definition w2 : World := on_store w1 (mem_append_run (wd_store w1) (entry "2" "urn:r:2")).
Definition w3 : World := on_store w2 {| ms_runs := ms_runs (wd_store w2); ms_attempts := []; ms_published := ∅; ms_settled := ∅;
  ms_cutovers := <["R_1" := "urn:e:0"]> ∅ |}.
Definition w4 : World := on_remote w3 (with_faults (wd_remote w3) false false true).
Definition w5 : World := (interp (answer "R_1") (flush "R_1" decided) w4).2.

Lemma w5_reachable : reachable "R_1" {[ "urn:r:2" ]} w5.
Proof.
  assert (∀ w i, bool_decide (i ∈ local_names w ++ remote_names w) = false → minted w (Some i)) as Hm.
  { intros w i Hi%bool_decide_eq_false j [= <-]. rewrite elem_of_app in Hi. tauto. }
  eapply (reach_step _ _ w4); [|apply (ws_flush _ _ decided), interp_in_worlds].
  eapply (reach_step _ _ w3); [|by apply ws_faults].
  eapply (reach_step _ _ w2); [|by apply (ws_cutover _ _ "urn:e:0")].
  eapply (reach_step _ _ w1); [|apply ws_run, Hm; by vm_compute].
  eapply (reach_step _ _ w0); [apply reach_first|apply ws_run, Hm; by vm_compute].
Qed.

Lemma merge_refuses : merge [entry "1" "urn:r:1"] [entry "1" "urn:r:2"]
  = Err (MergeRefused (STampered "urn:e:1" "the two copies differ in more than the fields a repository that is not private withholds")).
Proof. by vm_compute. Qed.

Lemma published_copies_agree_witness :
  merge [entry "1" "urn:r:1"; entry "2" "urn:r:2"]
    (map (fun c => disclose c.1 c.2) [(entry "2" "urn:r:2", NotPrivate); (entry "1" "urn:r:1", Private)])
  = Ok (sort_by entry_leb [entry "1" "urn:r:1"; entry "2" "urn:r:2"]).
Proof.
  apply (published_copies_agree [entry "1" "urn:r:1"; entry "2" "urn:r:2"]).
  - apply (bool_decide_unpack _). by vm_compute.
  - intros e v He. rewrite !elem_of_cons, elem_of_nil in He. destruct He as [[= -> ->]|[[= -> ->]|[]]]; (split; [|done]); rewrite !elem_of_cons; tauto.
Defined.

Lemma flush_publishes_then_settles_witness :
  let t := interp (answer "R_1") (flush "R_1" decided) w5 in
  is_ok t.1.1 = true ∧ ¬ Forall is_read t.1.2
  ∧ ((Forall is_read t.1.2 ∧ match t.1.1 with Ok f => fl_commit f = None | Err _ => True end)
     ∨ ∃ before og sent after, t.1.2 = before ++ event (Resp := FlushResp) (Publish (og_batch og)) sent :: after ∧ Forall is_read before
       ∧ justified "R_1" decided before (og_batch og) (og_aside og)
       ∧ match sent with
         | Err e => after = [] ∧ t.1.1 = Err e
         | Ok commit => ∃ settled,
             after = [event (Resp := FlushResp) (Settle "R_1" (batch_ids (og_batch og)) (og_aside og)) settled]
             ∧ t.1.1 = (let? _ := settled in Ok {| fl_commit := commit; fl_left_local := og_left og |})
         end).
Proof.
  split; [by vm_compute|split].
  - intros Hf. apply (List.Forall_nth _ _) with (i := 5) (d := event (Resp := FlushResp) (OwnsRecord "") (Ok true)) in Hf; [|by vm_compute; lia].
    by vm_compute in Hf.
  - apply (flush_publishes_then_settles "R_1" decided), interp_runs.
Defined.

Lemma no_evidence_lost_witness :
  ms_cutovers (wd_store w5) !! "R_1" = Some "urn:e:0" ∧ entry "1" "urn:r:1" ∈ ms_runs (wd_store w5)
  ∧ (entry "1" "urn:r:1" ∈ pe_runs (mem_unpublished (wd_store w5) "urn:e:0") ∨ entry "1" "urn:r:1" ∈ mr_runs (wd_remote w5)).
Proof.
  split; [by vm_compute|split; [apply (bool_decide_unpack _); by vm_compute|]].
  destruct (no_evidence_lost "R_1" _ w5 w5_reachable) as [Hw _]. destruct (Hw "urn:e:0") as [Hr _]; [by vm_compute|].
  apply (Hr _ "urn:r:1" "urn:e:1"); [apply (bool_decide_unpack _); by vm_compute|done|by vm_compute|].
  apply (bool_decide_unpack _). by vm_compute.
Defined.

Lemma flush_drains_witness :
  let '(res, _, w') := interp (answer "R_1") (flush "R_1" decided) w5 in
  is_ok res = true ∧ (∃ d', d' ∈ mr_decisions (wd_remote w') ∧ dc_id d' = "urn:d:1")
  ∧ mem_unpublished (wd_store w') "urn:e:0" = {| pe_runs := []; pe_attempts := [] |}.
Proof.
  pose proof (flush_drains "R_1" _ w5 "urn:e:0" decided w5_reachable) as Hd.
  destruct (interp (answer "R_1") (flush "R_1" decided) w5) as [[res tr] w'] eqn:E.
  destruct Hd as (H1&H2&H3&_); [by vm_compute..| | |by split_and!].
  - apply (bool_decide_unpack _). by vm_compute.
  - intros c Hc. apply list_elem_of_singleton in Hc as ->. right; left. apply (bool_decide_unpack _). by vm_compute.
Defined.
End Demo.
