(* ===== verification/GateEngine.v ===== *)
(** * The gate engine ([crates/exec/src/evaluate.rs], [command.rs],
    [record.rs], [finding.rs], [decision.rs])

    Running a gate, evaluating a transition, moving a record, attaching a
    reproduction to a finding and verifying a repair: each is a program of
    calls to the catalog, the ledger, the tracker, git and child processes.
    The theorems are about every trace of these programs: evidence is
    appended and the decision flushed before any state is written, and state
    is written only on evidence that passed. *)

From S2P Require Import Prelude RustStr Wire Model Verdict Finding Ledger Eff.

(** ** Calls *)

(** The command a gate spawns ([std::process::Command]): its program and
    arguments, where it runs, whether its stdin is a pipe, and the list file
    named in [FL_POPULATION_FILE]. *)
Record ChildCommand := {
  cc_program : string;
  cc_args : list string;
  cc_dir : Path;
  cc_stdin : bool;
  cc_population_file : option string;
}.

(** [std::process::Output], its streams decoded lossily; no exit code means a
    signal. *)
Record ChildOutput := {
  co_code : option Z;
  co_stdout : string;
  co_stderr : string;
}.

Inductive EngineOp :=
| GetProject (p : ProjectId)
| GetGate (g : GateId)
| GetTransition (p : ProjectId) (name : string)
| ListTransitions (p : ProjectId)
| ListGates (p : ProjectId)
| UpdateGate (def : GateDef)
| AppendGateRun (run : GateRun)
| Flush (d : Decision)
| GetRecord (id : RecordId)
| SetRecordState (id : RecordId) (state : State)
| GetFinding (id : FindingId)
| UpdateFinding (f : Finding)
| Head (root : Path)
| ChangedBetween (root : Path) (from to : string)
| Resolve (root : Path) (selector : Selector)
| WriteList (bytes : string)
| Spawn (cmd : ChildCommand)
| FeedStdin (bytes : string)
| WaitChild (deadline_secs : N)
| KillChild
| Elapsed
| EntryId
| Now
| LockRecord (id : RecordId)
| UnlockRecord (id : RecordId).

Definition EngineResp (o : EngineOp) : Type :=
  match o with
  | GetProject _ => Result (option Project) StoreError
  | GetGate _ => Result (option GateDef) StoreError
  | GetTransition _ _ => Result (option Transition) StoreError
  | ListTransitions _ => Result (list Transition) StoreError
  | ListGates _ => Result (list GateDef) StoreError
  | UpdateGate _ => Result unit StoreError
  | AppendGateRun _ => Result unit StoreError
  | Flush _ => Result Flushed StoreError
  | GetRecord _ => Result (option WorkRecord) StoreError
  | SetRecordState _ _ => Result unit StoreError
  | GetFinding _ => Result (option Finding) StoreError
  | UpdateFinding _ => Result unit StoreError
  | Head _ => Result string ExecError
  | ChangedBetween _ _ _ => Result (list Path) ExecError
  | Resolve _ _ => Result (list Path) ExecError
  | WriteList _ => Result string string
  | Spawn _ => Result unit string
  | FeedStdin _ => unit
  | WaitChild _ => Result (option ChildOutput) string
  | KillChild => unit
  | Elapsed => N
  | EntryId => Iri
  | Now => At
  | LockRecord _ => unit
  | UnlockRecord _ => unit
  end.

Abbreviation Eng := (Prog EngineResp).
Abbreviation EngEvent := (Event EngineResp).
Abbreviation ask o := (call (Resp := EngineResp) o).

(** [.map_err(f)?] on a call. *)
Definition with_err {A E F} (f : E → F) (p : Eng (Result A E)) : Eng (Result A F) :=
  r <- p ;; Ret (map_err f r).

(** ** Reports *)

(** [GateReport] *)
Record GateReport := {
  rp_gate : GateId;
  rp_name : string;
  rp_verdict : Verdict;
  rp_staleness : Staleness;
  rp_output_excerpt : string;
  rp_duration_ms : N;
  rp_run : Iri;
}.

(** [TransitionReport] *)
Record TransitionReport := {
  trp_transition : string;
  trp_regret : Regret;
  trp_gates : list GateReport;
}.

(** [TransitionReport::passed] *)
Definition passed (t : TransitionReport) : bool :=
  negb (len (trp_gates t) =? 0)%N && forallb (fun g => is_pass (rp_verdict g)) (trp_gates t).

(** [.map(exit_code).max()] *)
Fixpoint max_exit (l : list GateReport) : option N :=
  match l with
  | [] => None
  | g :: l' => Some (match max_exit l' with
                     | Some m => N.max (exit_code (rp_verdict g)) m
                     | None => exit_code (rp_verdict g)
                     end)
  end.

(** [TransitionReport::exit_code] *)
Definition transition_exit_code (t : TransitionReport) : N := unwrap_or (max_exit (trp_gates t)) 1%N.

(** ** Running one gate *)

Definition EXCERPT_LIMIT : nat := 4096.

(** Back to a [char] boundary: no byte that continues a UTF-8 sequence. *)
Fixpoint char_boundary (s : string) (fuel : nat) : nat :=
  match fuel with
  | O => O
  | S fuel' =>
      match String.get fuel s with
      | Some c => if in_range 128 191 c then char_boundary s fuel' else fuel
      | None => fuel
      end
  end.

(** [excerpt], on the decoded streams *)
Definition excerpt (stdout stderr : string) : string :=
  let s := stdout +:+ stderr in
  if Nat.ltb EXCERPT_LIMIT (String.length s) then String.substring 0 (char_boundary s EXCERPT_LIMIT) s else s.

(** [population_bytes]: every path followed by a newline. *)
Definition population_bytes (paths : list Path) : string :=
  foldr (fun p acc => path_str p +:+ String newline acc) EmptyString paths.

Definition child_command (root : Path) (spec : CommandSpec) (population : list Path) (file : option string)
  : ChildCommand := {|
  cc_program := cs_program spec;
  cc_args := cs_args spec ++ match cs_delivery spec with DArgs => path_str <$> population | _ => [] end;
  cc_dir := root;
  cc_stdin := match cs_delivery spec with DStdin => true | _ => false end;
  cc_population_file := file |}.

(** The list file, for the delivery that uses one. *)
Definition list_file (spec : CommandSpec) (population : list Path) : Eng (Result (option string) string) :=
  match cs_delivery spec with
  | DFileList =>
      r <- ask (WriteList (population_bytes population)) ;;
      Ret (match r with
           | Ok f => Ok (Some f)
           | Err e => Err ("could not write the population list: " +:+ e)
           end)
  | _ => Ret (Ok None)
  end.

(** The child of [run_command_gate], to its end: an error is the detail of
    the [error_outcome] it returns early with. *)
Definition run_child (root : Path) (spec : CommandSpec) (population : list Path) : Eng (Result ChildOutput string) :=
  file <-? list_file spec population ;;
  _ <-? with_err (fun e => exec_display (ESpawn (cs_program spec) e))
          (ask (Spawn (child_command root spec population file))) ;;
  _ <- (match cs_delivery spec with
        | DStdin => ask (FeedStdin (population_bytes population))
        | _ => Ret tt
        end) ;;
  out <- ask (WaitChild (N.max (cs_timeout_secs spec) 1)) ;;
  match out with
  | Ok (Some out) => Ret (Ok out)
  | Ok None =>
      _ <- ask KillChild ;;
      Ret (Err (exec_display (ETimeout (cs_program spec) (cs_timeout_secs spec))))
  | Err e => Ret (Err e)
  end.

(** [run_command_gate]: the floor, then the child, then the predicate. *)
Definition run_command_gate (root : Path) (spec : CommandSpec) (population : list Path)
  (min_population : N) : Eng (Verdict * string * N) :=
  let count := len population in
  let floor := N.max min_population 1 in
  if (count <? floor)%N then
    ms <- ask Elapsed ;;
    Ret (fail_for EmptyPopulation count,
         "population " +:+ pretty count +:+ " is below the declared floor of " +:+ pretty floor, ms)
  else
    out <- run_child root spec population ;;
    ms <- ask Elapsed ;;
    match out with
    | Err detail => Ret (verdict_error detail, detail, ms)
    | Ok out =>
        let code_ := unwrap_or (co_code out) (-1)%Z in
        let passed_ := contains (cs_pass_codes spec) code_ in
        Ret (from_predicate passed_ count, excerpt (co_stdout out) (co_stderr out), ms)
    end.

Section Engine.
(** [globset]: compiling a pattern, and whether a relative path matches it. *)
Variable matcher : string → option (Path → bool).

(** [staleness_for]: did anything the gate covers move since its stamp? *)
Definition staleness_for (root : Path) (def : GateDef) (head : string)
  (population : Result (list Path) ExecError) : Eng bool :=
  if gd_authored_at_commit def == head then Ret false
  else
    r <- ask (ChangedBetween root (gd_authored_at_commit def) head) ;;
    match r with
    | Err _ => Ret true
    | Ok changed =>
        let changed := List.filter (fun p => p != root ++ MANIFEST_PATH) changed in
        if (len changed =? 0)%N then Ret false
        else
          match gd_selector def with
          | SGlob pattern =>
              match matcher pattern with
              | None => Ret true
              | Some m =>
                  Ret (is_stale (existsb (fun p => is_some_and (path_strip root p) m) changed) false)
              end
          | _ =>
              match population with
              | Err _ => Ret true
              | Ok pop => Ret (is_stale (existsb (fun p => contains changed p) pop) false)
              end
          end
    end.

Definition set_last_pass (def : GateDef) (head : string) : GateDef := {|
  gd_id := gd_id def; gd_project := gd_project def; gd_name := gd_name def;
  gd_kind := gd_kind def; gd_selector := gd_selector def;
  gd_min_population := gd_min_population def;
  gd_authored_at_commit := gd_authored_at_commit def; gd_authored_by := gd_authored_by def;
  gd_last_pass_commit := Some head |}.

(** The raw verdict of a gate over its resolved population. *)
Definition raw_verdict (root : Path) (def : GateDef) (population : Result (list Path) ExecError)
  : Eng (Verdict * string * N) :=
  match population with
  | Ok pop =>
      match gd_kind def with
      | GCommand spec => run_command_gate root spec pop (gd_min_population def)
      | GAgent spec =>
          Ret (verdict_error ("agent gates are not implemented in milestone 1 (gate `" +:+
                 gd_name def +:+ "` asks adapter `" +:+ as_adapter spec +:+ "`)"),
               EmptyString, 0%N)
      end
  | Err e => Ret (verdict_error (exec_display e), exec_display e, 0%N)
  end.

(** [run_gate]: resolve once, run, apply staleness, append the run, and mark
    the gate on a pass. *)
Definition run_gate (root : Path) (head : string) (def : GateDef) (regret : Regret)
  (record : option RecordId) : Eng (Result GateReport ExecError) :=
  population <- ask (Resolve root (gd_selector def)) ;;
  raw <- raw_verdict root def population ;;
  stale <- staleness_for root def head population ;;
  let '(raw_v, excerpt, duration_ms) := raw in
  let '(verdict, staleness) := apply_staleness raw_v stale regret in
  run <- ask EntryId ;;
  at_ <- ask Now ;;
  _ <-? with_err store_err (ask (AppendGateRun {|
    gr_id := Some run; gr_at := Some at_; gr_gate := gd_id def; gr_record := record;
    gr_commit := head; gr_verdict := verdict;
    gr_population := unwrap_or (verdict_population verdict) 0%N;
    gr_output_excerpt := Some excerpt; gr_duration_ms := duration_ms;
    gr_cost_usd_micros := 0%N |})) ;;
  _ <-? (if is_pass verdict then
           with_err (fun e => EStore ("gate `" +:+ gd_name def +:+
             "` passed, but its pass mark could not be written: " +:+ store_display e))
             (ask (UpdateGate (set_last_pass def head)))
         else Ret (Ok tt)) ;;
  Ret (Ok {|
    rp_gate := gd_id def; rp_name := gd_name def; rp_verdict := verdict;
    rp_staleness := staleness; rp_output_excerpt := excerpt;
    rp_duration_ms := duration_ms; rp_run := run |}).

(** [project_of] *)
Definition project_of (project : ProjectId) : Eng (Result Project ExecError) :=
  r <- ask (GetProject project) ;;
  Ret (match r with
       | Err e => Err (store_err e)
       | Ok None => Err (EBadSelector (project +:+ " is held by this store, but it is not a project"))
       | Ok (Some p) => Ok p
       end).

(** [run_single_gate_with_regret] *)
Definition run_single_gate_with_regret (project : ProjectId) (gate : GateId) (regret : Regret)
  (record : option RecordId) : Eng (Result GateReport ExecError) :=
  proj <-? project_of project ;;
  let root := path_of (pj_root proj) in
  def <-? with_err store_err (ask (GetGate gate)) ;;
  match def with
  | None => Ret (Err (EBadSelector ("no gate with id " +:+ gate)))
  | Some def =>
      head <-? ask (Head root) ;;
      run_gate root head def regret record
  end.

(** [run_single_gate]: a bare gate run warns about staleness, no more. *)
Definition run_single_gate (project : ProjectId) (gate : GateId) (record : option RecordId)
  : Eng (Result GateReport ExecError) :=
  run_single_gate_with_regret project gate Low record.

(** The body of [evaluate_transition]'s loop: follow the gate, run it. *)
Definition run_transition_gate (transition_name : string) (root : Path) (head : string)
  (regret : Regret) (record : option RecordId) (gate_id : GateId)
  : Eng (Result GateReport ExecError) :=
  got <- ask (GetGate gate_id) ;;
  match follow ("transition `" +:+ transition_name +:+ "`") gate_id got with
  | Ok def => run_gate root head def regret record
  | Err (SNotOwned _ _ as e) =>
      Ret (Err (EBadSelector ("transition `" +:+ transition_name +:+ "` names gate " +:+ gate_id
                              +:+ ": " +:+ store_display e)))
  | Err e => Ret (Err (store_err e))
  end.

(** [evaluate_transition] *)
Definition evaluate_transition (project : ProjectId) (transition_name : string)
  (record : option RecordId) : Eng (Result TransitionReport ExecError) :=
  proj <-? project_of project ;;
  let root := path_of (pj_root proj) in
  found <-? with_err store_err (ask (GetTransition project transition_name)) ;;
  match found with
  | None =>
      Ret (Err (EBadSelector ("the project at " +:+ pj_root proj +:+
        " declares no transition named `" +:+ transition_name +:+
        "`. Add it with `fl transition add`, or name one of the existing ones.")))
  | Some transition =>
      head <-? ask (Head root) ;;
      reports <-? for_collect
        (run_transition_gate transition_name root head (tr_regret transition) record)
        (tr_gates transition) ;;
      Ret (Ok {| trp_transition := tr_name transition; trp_regret := tr_regret transition;
                 trp_gates := reports |})
  end.

(** ** Decisions ([decision.rs]): the id and the time are minted here *)

Definition outcome_of (t : TransitionReport) : TransitionOutcome :=
  {| to_transition := trp_transition t; to_passed := passed t |}.

Definition stamped (record : RecordId) (finding : option FindingId) (outcome : Outcome)
  (rests_on : list Iri) : Eng Decision :=
  id <- ask EntryId ;;
  at_ <- ask Now ;;
  Ret {| dc_id := id; dc_at := at_; dc_record := record; dc_finding := finding;
         dc_outcome := outcome; dc_rests_on := rests_on |}.

(** [for_move] *)
Definition for_move (record : WorkRecord) (to : State) (transitions : list TransitionReport)
  (allowed : bool) : Eng Decision :=
  stamped (rc_id record) None
    (OMove (rc_state record) to (outcome_of <$> transitions) allowed)
    (concat ((fun t => rp_run <$> trp_gates t) <$> transitions)).

(** [for_check] *)
Definition for_check (record : RecordId) (report : TransitionReport) : Eng Decision :=
  stamped record None (OCheck (outcome_of report)) (rp_run <$> trp_gates report).

(** [for_reproduce] *)
Definition for_reproduce (finding : Finding) (gate : GateId) (report : GateReport) (accepted : bool)
  : Eng Decision :=
  stamped (fd_record finding) (Some (fd_id finding)) (OReproduce gate accepted) [rp_run report].

(** [for_verify] *)
Definition for_verify (finding : Finding) (reproduction : GateReport) (neighbours : list GateReport)
  (closed : bool) : Eng Decision :=
  stamped (fd_record finding) (Some (fd_id finding))
    (OVerify (rp_gate reproduction) (is_pass (rp_verdict reproduction))
       (rp_gate <$> List.filter (fun n => negb (is_pass (rp_verdict n))) neighbours) closed)
    (rp_run <$> (reproduction :: neighbours)).

(** ** Moving a record ([record.rs]) *)

(** [MoveOutcome] and [MoveReport] *)
Inductive MoveOutcome := Ungated | Moved | Refused (exit : N).

#[global] Instance MoveOutcome_eq_dec : EqDecision MoveOutcome.
Proof. solve_decision. Defined.

Record MoveReport := {
  mr_transitions : list TransitionReport;
  mr_outcome : MoveOutcome;
  mr_flushed : Flushed;
}.

(** [stale_move] *)
Definition stale_move (began now : WorkRecord) : ExecError :=
  EStaleMove ("record " +:+ rc_id began +:+ " is now `" +:+ State_as_wire (rc_state now) +:+
    "`, not `" +:+ State_as_wire (rc_state began) +:+ "` as when the move began; nothing was moved").

(** Read the record again, and refuse the move unless it is still where the
    move began. *)
Definition reread (record : WorkRecord) : Eng (Result WorkRecord ExecError) :=
  got <- ask (GetRecord (rc_id record)) ;;
  Ret (match got with
       | Err e => Err (store_err e)
       | Ok None => Err (store_err (SNoSuchRecord (rc_id record)))
       | Ok (Some now) =>
           if rc_state now != rc_state record then Err (stale_move record now) else Ok now
       end).

(** How a refused state write is reported. *)
Definition set_state_err (e : StoreError) : ExecError :=
  match e with
  | SEscalating _ _ | SEscalated _ _ => EEscalation (store_display e)
  | e => store_err e
  end.

(** The last step, under the record's lock: re-read, then write. *)
Definition locked_write (record current : WorkRecord) (to : State) : Eng (Result unit ExecError) :=
  _ <- ask (LockRecord (rc_id current)) ;;
  res <- (_ <-? reread record ;; with_err set_state_err (ask (SetRecordState (rc_id record) to))) ;;
  _ <- ask (UnlockRecord (rc_id current)) ;;
  Ret res.

(** The exit code [move_record] counts for one transition. *)
Definition move_code (t : TransitionReport) : N :=
  if (len (trp_gates t) =? 0)%N then 1%N else transition_exit_code t.

(** Whether the evaluated transitions let the record through. *)
Definition move_outcome (declared : list Transition) (transitions : list TransitionReport) : MoveOutcome :=
  let worst := foldr (fun t w => N.max (move_code t) w) 0%N transitions in
  if (len declared =? 0)%N then Ungated
  else if negb (worst =? 0)%N then Refused worst else Moved.

(** [move_record] *)
Definition move_record (record : WorkRecord) (to : State) : Eng (Result MoveReport ExecError) :=
  all <-? with_err store_err (ask (ListTransitions (rc_project record))) ;;
  let declared := List.filter (fun t => (tr_from t == rc_state record) && (tr_to t == to)) all in
  transitions <-? for_collect
    (fun t => evaluate_transition (rc_project record) (tr_name t) (Some (rc_id record))) declared ;;
  current <-? reread record ;;
  let outcome := move_outcome declared transitions in
  let allowed := match outcome with Refused _ => false | _ => true end in
  d <- for_move record to transitions allowed ;;
  flushed <-? with_err refused_publish (ask (Flush d)) ;;
  _ <-? (if allowed then locked_write record current to else Ret (Ok tt)) ;;
  Ret (Ok {| mr_transitions := transitions; mr_outcome := outcome; mr_flushed := flushed |}).

(** ** Findings ([finding.rs] of [fl-exec]) *)

(** [FindingExecError] *)
Inductive FindingExecError :=
| FNoSuchFinding (id : FindingId)
| FNoSuchGate (id : GateId)
| FReproductionPasses (name : string) (population : N)
| FReproductionErrored (name detail : string)
| FReproductionEmptyPopulation (name selector root : string)
| FNotAssigned (id : FindingId) (state : string)
| FNoReproduction (id : FindingId)
| FExec (e : ExecError)
| FFinding (e : FindingError)
| FStore (m : string).

Definition fstore (e : StoreError) : FindingExecError := FStore (store_display e).

(** [describe_selector] *)
Definition describe_selector (selector : Selector) : string :=
  match selector with
  | SGlob pattern => "glob `" +:+ pattern +:+ "`"
  | SChanged base => "changed-since `" +:+ base +:+ "`"
  | SCommand program args => "command `" +:+ program +:+ " " +:+ join " " args +:+ "`"
  end.

(** [get_finding(..)?.ok_or(NoSuchFinding)?] *)
Definition find_finding (id : FindingId) : Eng (Result Finding FindingExecError) :=
  got <- ask (GetFinding id) ;;
  Ret (match got with
       | Err e => Err (fstore e)
       | Ok None => Err (FNoSuchFinding id)
       | Ok (Some f) => Ok f
       end).

(** Why a gate's verdict does not reproduce a finding, if it does not. *)
Definition reproduction_refusal (project : ProjectId) (def : GateDef) (v : Verdict)
  : Eng (Result (option FindingExecError) FindingExecError) :=
  match v with
  | VPass p => Ret (Ok (Some (FReproductionPasses (gd_name def) (population_get p))))
  | VError d => Ret (Ok (Some (FReproductionErrored (gd_name def) d)))
  | VFail _ EmptyPopulation =>
      proj <-? with_err fstore (ask (GetProject project)) ;;
      let root := match proj with Some p => pj_root p | None => EmptyString end in
      Ret (Ok (Some (FReproductionEmptyPopulation (gd_name def) (describe_selector (gd_selector def)) root)))
  | VFail _ _ => Ret (Ok None)
  end.

(** [attach_reproduction] (of [fl-exec]): run the gate first. *)
Definition exec_attach_reproduction (finding : FindingId) (gate : GateId)
  : Eng (Result (GateReport * Flushed) FindingExecError) :=
  f <-? find_finding finding ;;
  got <-? with_err fstore (ask (GetGate gate)) ;;
  match got with
  | None => Ret (Err (FNoSuchGate gate))
  | Some def =>
      next <-? Ret (map_err FFinding (attach_reproduction f gate)) ;;
      report <-? with_err FExec (run_single_gate (fd_project f) gate (Some (fd_record f))) ;;
      refusal <-? reproduction_refusal (fd_project f) def (rp_verdict report) ;;
      d <- for_reproduce f gate report (is_none refusal) ;;
      flushed <-? with_err (fun e => FExec (refused_publish e)) (ask (Flush d)) ;;
      match refusal with
      | Some refused => Ret (Err refused)
      | None =>
          _ <-? with_err fstore (ask (UpdateFinding next)) ;;
          Ret (Ok (report, flushed))
      end
  end.

(** [FixReport] *)
Record FixReport := {
  fx_reproduction : GateReport;
  fx_neighbours : list GateReport;
  fx_regressions : list GateReport;
  fx_closed : bool;
  fx_flushed : Flushed;
}.

(** [FixReport::exit_code] *)
Definition fix_exit_code (r : FixReport) : N :=
  if fx_closed r then 0%N
  else N.max (unwrap_or (max_exit (fx_reproduction r :: fx_regressions r)) 1%N) 1%N.

(** [follow_ref] *)
Definition follow_ref {T} (label : string) (to : Iri) (got : Result (option T) StoreError)
  : Result T FindingExecError :=
  map_err (fun e => match e with
                    | SNotOwned _ _ => FStore (label +:+ ": " +:+ store_display e)
                    | other => fstore other
                    end) (follow label to got).

(** [verify_finding] *)
Definition verify_finding (finding : FindingId) : Eng (Result FixReport FindingExecError) :=
  f <-? find_finding finding ;;
  if fd_state f != Assigned then Ret (Err (FNotAssigned finding (FindingState_as_wire (fd_state f))))
  else
    proj <- ask (GetProject (fd_project f)) ;;
    _ <-? Ret (follow_ref ("finding " +:+ finding +:+ "'s project") (fd_project f) proj) ;;
    match fd_reproduction f with
    | None => Ret (Err (FNoReproduction finding))
    | Some gate =>
        got <- ask (GetGate gate) ;;
        _ <-? Ret (follow_ref ("finding " +:+ finding +:+ "'s reproduction") gate got) ;;
        reproduction <-? with_err FExec (run_single_gate (fd_project f) gate (Some (fd_record f))) ;;
        gates <-? with_err fstore (ask (ListGates (fd_project f))) ;;
        let neighbours := gd_id <$>
          List.filter (fun g => (gd_id g != gate) && is_some (gd_last_pass_commit g)) gates in
        reports <-? for_collect
          (fun id => with_err FExec (run_single_gate (fd_project f) id (Some (fd_record f)))) neighbours ;;
        let regressions := List.filter (fun r => negb (is_pass (rp_verdict r))) reports in
        let closed := is_pass (rp_verdict reproduction) && (len regressions =? 0)%N in
        next <-? Ret (if closed then map_err FFinding (mark_fixed f) else Ok f) ;;
        d <- for_verify f reproduction reports closed ;;
        flushed <-? with_err (fun e => FExec (refused_publish e)) (ask (Flush d)) ;;
        _ <-? (if closed then with_err fstore (ask (UpdateFinding next)) else Ret (Ok tt)) ;;
        Ret (Ok {| fx_reproduction := reproduction; fx_neighbours := reports;
                   fx_regressions := regressions; fx_closed := closed; fx_flushed := flushed |})
    end.

(** ** Reading a trace *)

(** The calls that change a record's or a finding's state. *)
Definition writes_state (e : EngEvent) : bool :=
  match projT1 e with SetRecordState _ _ | UpdateFinding _ => true | _ => false end.

(** The calls that only a decision may make. *)
Definition decides (e : EngEvent) : bool :=
  match projT1 e with Flush _ => true | _ => writes_state e end.

(** [g]'s run was appended to the ledger, under the record and with the
    verdict the report shows. *)
Definition recorded (record : option RecordId) (tr : list EngEvent) (g : GateReport) : Prop :=
  ∃ run, event (AppendGateRun run) (Ok tt) ∈ tr
    ∧ gr_id run = Some (rp_run g) ∧ gr_gate run = rp_gate g
    ∧ gr_record run = record ∧ gr_verdict run = rp_verdict g.

(** [g] reports a run of the gate [id]: the catalog answered its definition
    and the run was recorded. *)
Definition ran_gate (record : option RecordId) (tr : list EngEvent) (id : GateId) (g : GateReport) : Prop :=
  ∃ def, event (GetGate id) (Ok (Some def)) ∈ tr ∧ rp_gate g = gd_id def ∧ recorded record tr g.

(** [rep] reports the named transition: one recorded run per gate of the
    definition the catalog answered, in its order. *)
Definition evaluated (project : ProjectId) (record : option RecordId) (tr : list EngEvent)
  (name : string) (rep : TransitionReport) : Prop :=
  ∃ t, event (GetTransition project name) (Ok (Some t)) ∈ tr
    ∧ trp_transition rep = tr_name t ∧ trp_regret rep = tr_regret t
    ∧ Forall2 (ran_gate record tr) (tr_gates t) (trp_gates rep).

Lemma recorded_mono record tr tr' g : tr ⊆ tr' → recorded record tr g → recorded record tr' g.
Proof. unfold recorded. set_solver. Qed.

Lemma ran_gate_mono record tr tr' id g :
  tr ⊆ tr' → ran_gate record tr id g → ran_gate record tr' id g.
Proof.
  intros Hs (def & ? & ? & ?). exists def. split_and!; eauto using recorded_mono; set_solver.
Qed.

Lemma evaluated_mono project record tr tr' name rep :
  tr ⊆ tr' → evaluated project record tr name rep → evaluated project record tr' name rep.
Proof.
  intros Hs (t & ? & ? & ? & HF). exists t. split_and!; try done; [set_solver|].
  eapply Forall2_impl; [exact HF|]. intros id g. by apply ran_gate_mono.
Qed.

Lemma runs_with_err {A E F} (f : E → F) (p : Eng (Result A E)) tr r :
  runs (with_err f p) tr r ↔ ∃ r0, runs p tr r0 ∧ r = map_err f r0.
Proof.
  unfold with_err. rewrite runs_bind. split.
  - intros (tr1 & tr2 & r0 & -> & H & -> & ->). rewrite app_nil_r. eauto.
  - intros (r0 & H & ->). exists tr, [], r0. by rewrite app_nil_r.
Qed.

Lemma all_events_with_err {A E F} P (f : E → F) (p : Eng (Result A E)) :
  all_events P p → all_events P (with_err f p).
Proof. intros H. apply all_events_bind; [done|]. intros. apply all_events_ret. Qed.

(** Follow a run through binds, calls and returns. *)
Ltac runs_inv :=
  repeat (simplify_eq/=;
    match goal with
    | H : runs (rbind _ _) _ _ |- _ => apply runs_rbind in H as [(? & H & ?)|(? & ? & ? & ? & ? & ?)]
    | H : runs (pbind _ _) _ _ |- _ => apply runs_bind in H as (? & ? & ? & ? & ? & ?)
    | H : runs (with_err _ _) _ _ |- _ => apply runs_with_err in H as (? & H & ?)
    | H : runs (call ?o) ?tr ?r |- _ => apply (proj1 (runs_call o tr r)) in H
    | H : runs (Ret _) _ _ |- _ => destruct H as [? ?]
    | H : Ok _ = map_err _ ?r |- _ => destruct r eqn:?
    | H : Err _ = map_err _ ?r |- _ => destruct r eqn:?
    end); simplify_eq/=.

(** Membership of an event in a trace made of known parts. *)
Ltac in_trace :=
  repeat rewrite ?elem_of_app, ?elem_of_cons; intuition eauto.

Create HintDb quiet discriminated.

Ltac destruct_unit := repeat match goal with u : () |- _ => destruct u end.

(** No event of a program is a decision or a state change. *)
Ltac quiet :=
  repeat first
    [ progress cbn beta
    | apply all_events_ret
    | solve [auto with quiet nocore]
    | apply all_events_with_err
    | match goal with |- all_events ?P (call ?o) => refine (all_events_call P o _) end; intros; reflexivity
    | apply all_events_rbind
    | apply all_events_bind
    | apply all_events_collect
    | match goal with |- all_events _ (match _ with _ => _ end) => case_match end
    | match goal with |- all_events _ _ => fail 1 | |- ∀ _, _ => intros ? end ].

Abbreviation quiet_prog p := (all_events (fun e => decides e = false) p).

Lemma run_child_quiet root spec pop : quiet_prog (run_child root spec pop).
Proof. unfold run_child, list_file. quiet. Qed.
#[local] Hint Resolve run_child_quiet : quiet.

Lemma run_gate_quiet root head def regret record : quiet_prog (run_gate root head def regret record).
Proof.
  unfold run_gate, raw_verdict, run_command_gate, staleness_for. quiet.
Qed.
#[local] Hint Resolve run_gate_quiet : quiet.

Lemma run_single_gate_quiet project gate record : quiet_prog (run_single_gate project gate record).
Proof.
  unfold run_single_gate, run_single_gate_with_regret, project_of.
  quiet.
Qed.

Lemma evaluate_transition_quiet project name record :
  quiet_prog (evaluate_transition project name record).
Proof.
  unfold evaluate_transition, run_transition_gate, project_of.
  quiet.
Qed.
#[local] Hint Resolve run_single_gate_quiet evaluate_transition_quiet : quiet.

Lemma quiet_no_write e : decides e = false → writes_state e = false.
Proof. unfold decides, writes_state. by destruct (projT1 e). Qed.

(** The events of every part of a trace that decides nothing. *)
Ltac trace_quiet :=
  repeat match goal with
  | H : runs ?p ?tr ?a |- _ =>
      lazymatch goal with
      | _ : Forall (fun e => decides e = false) tr |- _ => fail
      | _ => let Q := fresh in
             assert (quiet_prog p) as Q by (unfold for_move, for_reproduce, for_verify, stamped; quiet);
             apply Q in H as ?; clear Q
      end
  end.

Ltac trace_forall :=
  repeat rewrite ?Forall_cons, ?Forall_app, ?Forall_singleton; split_and?; try done;
  first [ apply Forall_nil_2
        | match goal with H : Forall (fun e => decides e = false) ?tr |- Forall _ ?tr =>
            exact H || exact (Forall_impl _ _ _ H quiet_no_write) end
        | assumption ].

(** ** One gate *)

(** The command was spawned with the whole population, by the delivery it
    asks for, and ran to its end. *)
Definition child_ran (root : Path) (spec : CommandSpec) (pop : list Path) (tr : list EngEvent) (out : ChildOutput)
  : Prop :=
  ∃ file, event (Spawn (child_command root spec pop file)) (Ok tt) ∈ tr
    ∧ event (WaitChild (N.max (cs_timeout_secs spec) 1)) (Ok (Some out)) ∈ tr
    ∧ match cs_delivery spec with
      | DArgs => True
      | DStdin => event (FeedStdin (population_bytes pop)) tt ∈ tr
      | DFileList => ∃ f, file = Some f ∧ event (WriteList (population_bytes pop)) (Ok f) ∈ tr
      end.

(** What a pass rests on: a resolved population at or above the floor, and a
    child that was given it and exited with a declared pass code. *)
Definition earned (root : Path) (def : GateDef) (tr : list EngEvent) (n : option N) : Prop :=
  ∃ spec pop out,
    gd_kind def = GCommand spec
    ∧ event (Resolve root (gd_selector def)) (Ok pop) ∈ tr
    ∧ child_ran root spec pop tr out
    ∧ unwrap_or (co_code out) (-1)%Z ∈ cs_pass_codes spec
    ∧ (N.max (gd_min_population def) 1 ≤ len pop)%N
    ∧ n = Some (len pop).

Lemma child_ran_mono root spec pop tr tr' out :
  tr ⊆ tr' → child_ran root spec pop tr out → child_ran root spec pop tr' out.
Proof.
  intros Hs (file & H1 & H2 & H3). exists file. split_and!; [by apply Hs..|].
  destruct (cs_delivery spec); [done|by apply Hs|]. destruct H3 as (f & -> & ?). eauto.
Qed.

Lemma earned_mono root def tr tr' n : tr ⊆ tr' → earned root def tr n → earned root def tr' n.
Proof.
  intros Hs (spec & pop & out & ? & ? & ? & ? & ? & ?). exists spec, pop, out.
  split_and!; [done|by apply Hs|by eapply child_ran_mono|done..].
Qed.

Lemma run_child_ok root spec pop tr out :
  runs (run_child root spec pop) tr (Ok out) → child_ran root spec pop tr out.
Proof.
  unfold run_child, list_file. intros H. runs_inv.
  match goal with H : runs (match ?o with _ => _ end) _ (Ok out) |- _ =>
    destruct o as [[o|]|e]; runs_inv end.
  unfold child_ran. destruct (cs_delivery spec) eqn:Hd; runs_inv; destruct_unit.
  - eexists. split_and!; [in_trace..|done].
  - eexists. split_and!; in_trace.
  - case_match; runs_inv. eexists. split_and!; [in_trace..|]. eexists. split; [done|in_trace].
Qed.

Definition run_of (head : string) (record : option RecordId) (at_ : At) (rep : GateReport) : GateRun := {|
  gr_id := Some (rp_run rep); gr_at := Some at_; gr_gate := rp_gate rep; gr_record := record;
  gr_commit := head; gr_verdict := rp_verdict rep;
  gr_population := unwrap_or (verdict_population (rp_verdict rep)) 0%N;
  gr_output_excerpt := Some (rp_output_excerpt rep); gr_duration_ms := rp_duration_ms rep;
  gr_cost_usd_micros := 0%N |}.

Lemma apply_staleness_pass v stale regret v' s :
  apply_staleness v stale regret = (v', s) → is_pass v' = true → v = v' ∧ (s = Fresh ∨ regret = Low).
Proof. destruct stale, regret, v; cbn; intros; simplify_eq/=; auto. Qed.

Lemma raw_verdict_pass root def population tr v x d :
  runs (raw_verdict root def population) tr (v, x, d) → is_pass v = true →
  ∀ pre, event (Resolve root (gd_selector def)) population ∈ pre →
  earned root def (pre ++ tr) (verdict_population v).
Proof.
  unfold raw_verdict, run_command_gate. intros Hr Hp pre Hin.
  destruct population as [pop|e]; [|by runs_inv].
  destruct (gd_kind def) as [spec|spec] eqn:Hk; [|by runs_inv].
  destruct (len pop <? _)%N eqn:Hc; runs_inv.
  case_match; runs_inv.
  match goal with H : runs (run_child _ _ _) _ _ |- _ => apply run_child_ok in H as Hchild end.
  rewrite from_predicate_pass, andb_true_iff, contains_spec in Hp. destruct Hp as [Hp _].
  bool_prop. eexists spec, pop, _. split_and!; try done; [in_trace|eapply child_ran_mono; [|exact Hchild]; set_solver|].
  unfold from_predicate. pose proof (Population_new_spec (len pop)) as Hs.
  destruct (Population_new _); [|lia]. destruct Hs as [Hs _].
  apply contains_spec in Hp. rewrite Hp. cbn. by rewrite Hs.
Qed.

Lemma run_gate_ok root head def regret record tr rep :
  runs (run_gate root head def regret record) tr (Ok rep) →
  ∃ pre at_, rp_gate rep = gd_id def
    ∧ tr = pre ++ event (AppendGateRun (run_of head record at_ rep)) (Ok tt) ::
             (if is_pass (rp_verdict rep)
              then [event (UpdateGate (set_last_pass def head)) (Ok tt)] else [])
    ∧ (is_pass (rp_verdict rep) = true →
       earned root def pre (verdict_population (rp_verdict rep))
       ∧ (rp_staleness rep = Fresh ∨ regret = Low)).
Proof.
  unfold run_gate. intros H. runs_inv.
  destruct x4 as [[raw_v excerpt] dur].
  destruct (apply_staleness raw_v x6 regret) as [v s] eqn:Hs. runs_inv.
  exists (event (Resolve root (gd_selector def)) x1 :: x2 ++ x0 ++ [event EntryId x4; event Now x8]), x8.
  split_and!; [done| |].
  - destruct a, (is_pass v) eqn:Hv; runs_inv; [destruct a|]; rewrite <- !app_assoc; done.
  - intros Hp. eapply apply_staleness_pass in Hs as [-> ?]; [|done]. split; [|done].
    eapply raw_verdict_pass in H1; [|done|apply (list_elem_of_here _ [])].
    eapply earned_mono; [|exact H1]. set_solver.
Qed.

Lemma run_gate_recorded root head def regret record tr rep :
  runs (run_gate root head def regret record) tr (Ok rep) →
  rp_gate rep = gd_id def ∧ recorded record tr rep.
Proof.
  intros (pre & at_ & ? & -> & _)%run_gate_ok. split; [done|].
  exists (run_of head record at_ rep). split_and!; [in_trace|done..].
Qed.

Lemma run_single_gate_recorded project gate record tr rep :
  runs (run_single_gate project gate record) tr (Ok rep) → ran_gate record tr gate rep.
Proof.
  unfold run_single_gate, run_single_gate_with_regret, project_of. intros H. runs_inv.
  case_match; runs_inv.
  match goal with H : runs (run_gate _ _ _ _ _) _ _ |- _ => apply run_gate_recorded in H as [? ?] end.
  eexists. split_and!; [in_trace|done|]. eapply recorded_mono; [|done]. set_solver.
Qed.

Lemma evaluate_transition_ok project name record tr rep :
  runs (evaluate_transition project name record) tr (Ok rep) →
  evaluated project record tr name rep.
Proof.
  unfold evaluate_transition, project_of. intros H. runs_inv.
  case_match; runs_inv. exists t. split_and!; try done; [in_trace|].
  match goal with H : runs (for_collect _ _) _ _ |- _ => rename H into Hc end.
  eapply Forall2_impl; [eapply (runs_collect_forall (ran_gate record)), Hc|].
  - apply ran_gate_mono.
  - intros id t' g Hr. unfold run_transition_gate in Hr. runs_inv.
    match goal with H : context [follow _ _ ?r] |- _ => destruct r as [[def|]|[]] end; runs_inv.
    match goal with H : runs (run_gate _ _ _ _ _) _ _ |- _ => apply run_gate_recorded in H as [? ?] end.
    exists def. split_and!; [in_trace|done|]. eapply recorded_mono; [|done]. set_solver.
  - intros id g. apply ran_gate_mono. set_solver.
Qed.

(** ** Transitions *)

Lemma max_exit_spec l : max_exit l = None ↔ l = [].
Proof. destruct l; cbn; naive_solver. Qed.

Lemma max_exit_zero l : max_exit l = Some 0%N ↔ l ≠ [] ∧ forallb (fun g => is_pass (rp_verdict g)) l = true.
Proof.
  induction l as [|g l IH]; cbn; [naive_solver|].
  rewrite andb_true_iff, <- exit_code_pass.
  destruct (max_exit l) as [m|] eqn:Hm.
  - assert (l ≠ []) as Hl by (intros ->; done).
    assert (m = 0%N ↔ forallb (fun g => is_pass (rp_verdict g)) l = true) as <- by naive_solver.
    split; [intros [= Hx]; split_and!; (done || lia) | intros (_ & -> & ->); done].
  - apply max_exit_spec in Hm as ->. cbn. split; [by intros [= ->] | by intros (_ & -> & _)].
Qed.

Lemma passed_exit_code t : passed t = true ↔ transition_exit_code t = 0%N.
Proof.
  unfold passed, transition_exit_code, len.
  rewrite andb_true_iff, negb_true_iff, N.eqb_neq.
  pose proof (max_exit_zero (trp_gates t)) as Hz.
  destruct (max_exit (trp_gates t)) as [m|] eqn:Hm; cbn.
  - destruct (trp_gates t) as [|g l] eqn:Hg; [done|].
    assert (Some m = Some 0%N ↔ m = 0%N) as Hi by (split; congruence). rewrite <- Hi, Hz.
    cbn [length]. split; intros [_ ?]; split; (done || lia).
  - apply max_exit_spec in Hm as ->. cbn. split; [intros [? _]; done|done].
Qed.

Lemma move_code_zero t : move_code t = 0%N ↔ passed t = true.
Proof.
  rewrite passed_exit_code. unfold move_code. destruct (N.eqb_spec (len (trp_gates t)) 0) as [E|]; [|done].
  unfold transition_exit_code. destruct (trp_gates t); [done|]. unfold len in E; cbn in E; lia.
Qed.

Lemma worst_zero ts : foldr (fun t w => N.max (move_code t) w) 0%N ts = 0%N ↔ Forall (fun t => passed t = true) ts.
Proof.
  induction ts as [|t ts IH]; cbn; [split; [constructor|done]|].
  rewrite Forall_cons, <- IH, <- move_code_zero. lia.
Qed.

(** ** Moving a record *)

Lemma reread_ok record tr now :
  runs (reread record) tr (Ok now) →
  tr = [event (GetRecord (rc_id record)) (Ok (Some now))] ∧ rc_state now = rc_state record.
Proof. unfold reread. intros H. runs_inv. destruct x1 as [[now'|]|]; step_goal; bool_prop; done. Qed.

Lemma reread_quiet record : quiet_prog (reread record).
Proof. unfold reread. quiet. Qed.
#[local] Hint Resolve reread_quiet : quiet.

(** The decision a move rests on. *)
Definition move_decision (record : WorkRecord) (to : State) (reports : list TransitionReport)
  (allowed : bool) (d : Decision) : Prop :=
  dc_record d = rc_id record ∧ dc_finding d = None
  ∧ dc_outcome d = OMove (rc_state record) to (outcome_of <$> reports) allowed
  ∧ dc_rests_on d = concat ((fun t => rp_run <$> trp_gates t) <$> reports).

Lemma for_move_runs record to reports allowed tr d :
  runs (for_move record to reports allowed) tr d →
  move_decision record to reports allowed d ∧ Forall (fun e => decides e = false) tr.
Proof. unfold for_move, stamped. intros H. runs_inv. split; [done|repeat constructor]. Qed.

Lemma locked_write_runs record current to tr res :
  runs (locked_write record current to) tr res →
  (∃ e, res = Err e ∧ Forall (fun e => writes_state e = false) tr)
  ∨ ∃ now r, rc_state now = rc_state record
      ∧ tr = [event (LockRecord (rc_id current)) tt;
              event (GetRecord (rc_id record)) (Ok (Some now));
              event (SetRecordState (rc_id record) to) r;
              event (UnlockRecord (rc_id current)) tt]
      ∧ res = map_err set_state_err r.
Proof.
  unfold locked_write. intros H. runs_inv.
  - left. eexists. split; [done|]. constructor; [done|]. apply Forall_app. split; [|by repeat constructor].
    match goal with H : runs (reread _) _ _ |- _ => apply reread_quiet in H as HF end.
    by eapply Forall_impl; [exact HF|apply quiet_no_write].
  - right. match goal with H : runs (reread _) _ _ |- _ => apply reread_ok in H as [-> ?] end.
    destruct_unit. eexists _, _. split_and!; done.
Qed.

(** A move that writes nothing is refused or failed; one that writes does so
    last, under the record's lock, right after it read the record where the
    move began, and only after the ledger took an accepting decision that
    rests on recorded, passing runs of every gate of every covering
    transition. *)
Definition move_evidence (record : WorkRecord) (to : State) (before : list EngEvent)
  (reports : list TransitionReport) : Prop :=
  ∃ all, event (ListTransitions (rc_project record)) (Ok all) ∈ before
    ∧ Forall2 (fun t rep => evaluated (rc_project record) (Some (rc_id record)) before (tr_name t) rep
                            ∧ passed rep = true)
        (List.filter (fun t => (tr_from t == rc_state record) && (tr_to t == to)) all) reports.

Lemma move_evidence_intro record to all tr t' reports :
  runs (for_collect
    (fun t => evaluate_transition (rc_project record) (tr_name t) (Some (rc_id record)))
    (List.filter (fun t => (tr_from t == rc_state record) && (tr_to t == to)) all)) tr (Ok reports) →
  Forall (fun t => passed t = true) reports →
  move_evidence record to (event (ListTransitions (rc_project record)) (Ok all) :: tr ++ t') reports.
Proof.
  intros Hc Hp. exists all. split; [in_trace|].
  assert (Forall2 (fun t rep => evaluated (rc_project record) (Some (rc_id record)) tr (tr_name t) rep)
    (List.filter (fun t => (tr_from t == rc_state record) && (tr_to t == to)) all) reports) as HF.
  { eapply (runs_collect_forall (fun tr t rep => evaluated _ _ tr (tr_name t) rep)), Hc.
    - intros. by eapply evaluated_mono.
    - intros. by apply evaluate_transition_ok. }
  eapply Forall2_impl; [by apply Forall2_with_r|]. intros t rep [? ?].
  split; [eapply evaluated_mono; [|done]; set_solver|done].
Qed.

Lemma move_outcome_spec declared reports :
  length declared = length reports →
  match move_outcome declared reports with
  | Refused code_ => (0 < code_)%N
  | _ => Forall (fun t => passed t = true) reports
  end.
Proof.
  intros Hl. unfold move_outcome, len.
  destruct (N.eqb_spec (N.of_nat (length declared)) 0) as [E|E].
  - destruct reports; [constructor|]. cbn in Hl. lia.
  - destruct (N.eqb_spec (foldr (fun t w => N.max (move_code t) w) 0%N reports) 0) as [E'|E']; cbn.
    + by apply worst_zero.
    + lia.
Qed.


(** ** Findings *)

Lemma raw_verdict_fail root def population tr v x d n reason :
  runs (raw_verdict root def population) tr (v, x, d) → v = VFail n reason →
  reason = EmptyPopulation ∨ reason = Predicate ∧ (0 < n)%N.
Proof.
  unfold raw_verdict, run_command_gate, fail_for, from_predicate. intros Hr Hv.
  destruct population as [pop|e]; [|by runs_inv].
  destruct (gd_kind def) as [spec|spec]; [|by runs_inv].
  destruct (len pop <? _)%N eqn:Hc; runs_inv; [by left|].
  case_match; runs_inv. pose proof (Population_new_spec (len pop)) as Hs.
  destruct (Population_new _); [|by simplify_eq; left].
  destruct (contains _ _); simplify_eq. naive_solver.
Qed.

(** A bare gate run fails for want of a population or because its predicate
    did; it never fails as stale. *)
Lemma run_single_gate_fail project gate record tr rep n reason :
  runs (run_single_gate project gate record) tr (Ok rep) → rp_verdict rep = VFail n reason →
  reason = EmptyPopulation ∨ reason = Predicate ∧ (0 < n)%N.
Proof.
  unfold run_single_gate, run_single_gate_with_regret, project_of. intros H Hv. runs_inv.
  case_match; runs_inv. unfold run_gate in *. runs_inv.
  match goal with H : runs (raw_verdict _ _ _) _ ?v |- _ => destruct v as [[v x'] d']; rename H into Hraw end.
  match goal with H : context [apply_staleness _ ?b Low] |- _ => destruct b; cbn in H end; runs_inv.
  all: by eapply raw_verdict_fail.
Qed.

Lemma find_finding_ok id tr f :
  runs (find_finding id) tr (Ok f) → tr = [event (GetFinding id) (Ok (Some f))].
Proof. unfold find_finding. intros H. runs_inv. step_goal. done. Qed.

Lemma find_finding_quiet id : quiet_prog (find_finding id).
Proof. unfold find_finding. quiet. Qed.

Lemma reproduction_refusal_quiet project def v : quiet_prog (reproduction_refusal project def v).
Proof. unfold reproduction_refusal. quiet. Qed.

Lemma reproduction_refusal_none project def v tr :
  runs (reproduction_refusal project def v) tr (Ok None) →
  ∃ n reason, v = VFail n reason ∧ reason ≠ EmptyPopulation.
Proof.
  unfold reproduction_refusal. intros H. repeat case_match; runs_inv.
  all: eexists _, _; split; done.
Qed.
#[local] Hint Resolve find_finding_quiet reproduction_refusal_quiet : quiet.

(** A reproduction is attached on an observed failure only. If the finding
    is not written, an error is returned. Otherwise the write is the last
    step, of the finding read at the start with the reproduction attached;
    the gate was run before, its run is recorded under the finding's record
    with a predicate failure over a non-empty population, and the ledger took
    the accepting decision that names that run. *)
Theorem reproduction_observed_failing finding gate tr res :
  runs (exec_attach_reproduction finding gate) tr res →
  (Forall (fun e => writes_state e = false) tr ∧ is_ok res = false)
  ∨ ∃ before f next rep n d flushed r,
      tr = before ++ [event (Flush d) (Ok flushed); event (UpdateFinding next) r]
      ∧ Forall (fun e => decides e = false) before
      ∧ event (GetFinding finding) (Ok (Some f)) ∈ before
      ∧ attach_reproduction f gate = Ok next
      ∧ ran_gate (Some (fd_record f)) before gate rep
      ∧ rp_verdict rep = VFail n Predicate ∧ (0 < n)%N
      ∧ dc_finding d = Some (fd_id f) ∧ dc_outcome d = OReproduce gate true
      ∧ dc_rests_on d = [rp_run rep]
      ∧ is_ok res = is_ok r.
Proof.
  unfold exec_attach_reproduction. intros H. runs_inv; [| |case_match]; runs_inv; trace_quiet.
  all: try (left; split; [trace_forall|done]).
  match goal with H : runs (match ?o with _ => _ end) _ _ |- _ => destruct o; runs_inv end; trace_quiet.
  all: try (left; split; [trace_forall|done]).
  all: match goal with H : runs (run_single_gate _ _ _) _ (Ok ?g) |- _ =>
         pose proof (run_single_gate_recorded _ _ _ _ _ H) as Hg; rename H into Hr end.
  all: match goal with H : runs (reproduction_refusal _ _ _) _ _ |- _ =>
         apply reproduction_refusal_none in H as (n & reason & Hv & ?) end.
  all: destruct (run_single_gate_fail _ _ _ _ _ _ _ Hr Hv) as [|[-> ?]]; [done|].
  all: match goal with H : runs (find_finding _) _ _ |- _ => apply find_finding_ok in H as -> end.
  all: match goal with H : runs (for_reproduce _ _ _ _) _ _ |- _ =>
         unfold for_reproduce, stamped in H; runs_inv end.
  all: right; eexists (event (GetFinding finding) (Ok (Some _)) :: event (GetGate gate) (Ok (Some g)) ::
    x3 ++ x2 ++ [event EntryId x4; event Now x7]), _, _, _, _, _, _, _.
  all: split_and!; [cbn; by rewrite <- !app_assoc|trace_forall|in_trace|done| |done..].
  all: eapply ran_gate_mono; [|done]; set_solver.
Qed.

Lemma no_regressions reports :
  (len (List.filter (fun r => negb (is_pass (rp_verdict r))) reports) =? 0)%N = true →
  List.filter (fun r => negb (is_pass (rp_verdict r))) reports = []
  ∧ Forall (fun r => is_pass (rp_verdict r) = true) reports.
Proof.
  unfold len. intros H. bool_prop. destruct (List.filter _ reports) eqn:E; [|done]. split; [done|].
  apply Forall_forall. intros r Hr. apply not_false_is_true. intros Hp.
  assert (r ∈ List.filter (fun r => negb (is_pass (rp_verdict r))) reports) as Hin
    by (apply filter_elem; by rewrite Hp).
  rewrite E in Hin. by apply not_elem_of_nil in Hin.
Qed.

Lemma neighbours_ran project record ids tr reports :
  runs (for_collect (fun id => with_err FExec (run_single_gate project id record)) ids) tr (Ok reports) →
  Forall2 (ran_gate record tr) ids reports.
Proof.
  apply (runs_collect_forall (ran_gate record)); [intros; by eapply ran_gate_mono|].
  intros id t g H. runs_inv. by eapply run_single_gate_recorded.
Qed.

(** A repair closes a finding only when its reproduction passes and no
    neighbour regressed. If the finding is not written, the call fails or
    reports an open finding with a non-zero exit code. Otherwise the write is
    the last step, of the assigned finding marked fixed; its reproduction and
    every other gate of the project that has ever passed were run before,
    each run recorded under the finding's record with a passing verdict, and
    the ledger took the closing decision that names exactly those runs. (C22) *)
Theorem finding_closed_on_evidence finding tr res :
  runs (verify_finding finding) tr res →
  (Forall (fun e => writes_state e = false) tr
   ∧ ∀ rep, res = Ok rep → fx_closed rep = false ∧ (0 < fix_exit_code rep)%N)
  ∨ ∃ before f gate gates next reproduction neighbours d flushed r,
      tr = before ++ [event (Flush d) (Ok flushed); event (UpdateFinding next) r]
      ∧ Forall (fun e => decides e = false) before
      ∧ event (GetFinding finding) (Ok (Some f)) ∈ before
      ∧ fd_reproduction f = Some gate ∧ mark_fixed f = Ok next
      ∧ event (ListGates (fd_project f)) (Ok gates) ∈ before
      ∧ Forall2 (fun id g => ran_gate (Some (fd_record f)) before id g ∧ is_pass (rp_verdict g) = true)
          (gate :: (gd_id <$> List.filter (fun g => (gd_id g != gate) && is_some (gd_last_pass_commit g)) gates))
          (reproduction :: neighbours)
      ∧ dc_outcome d = OVerify (rp_gate reproduction) true [] true
      ∧ dc_rests_on d = rp_run <$> (reproduction :: neighbours)
      ∧ is_ok res = is_ok r.
Proof.
  unfold verify_finding. intros H. runs_inv; [|case_match; runs_inv; [| |case_match; runs_inv]]; trace_quiet.
  all: try (left; split; [trace_forall|done]).
  all: match goal with H : runs (run_single_gate _ _ _) _ _ |- _ => apply run_single_gate_recorded in H as Hg end.
  all: match goal with H : runs (find_finding _) _ _ |- _ => apply find_finding_ok in H as -> end.
  all: match goal with H : runs (for_collect _ _) _ _ |- _ => apply neighbours_ran in H as HF end.
  all: match goal with H : runs (for_verify _ _ _ _) _ _ |- _ => unfold for_verify, stamped in H; runs_inv end.
  all: destruct (is_pass _ && _) eqn:Hclosed; runs_inv;
    try (left; split; [trace_forall|intros ? [= <-]; split; [done|unfold fix_exit_code; cbn; lia]]).
  all: match goal with H : Ok _ = map_err _ ?r |- _ => destruct r eqn:Hm; simplify_eq/= | _ => idtac end.
  all: apply andb_true_iff in Hclosed as [Hp Hn]; apply no_regressions in Hn as [Hnil Hn].
  all: right; eexists (event (GetFinding finding) (Ok (Some _)) :: event (GetProject _) x4
    :: event (GetGate s) x3 :: x2 ++ event (ListGates _) (Ok a0) ::  x9 ++ [event EntryId _; event Now _]),
     _, _, _, _, _, _, _, _, _.
  all: split_and!; [cbn; do 3 f_equal; rewrite <- !app_assoc; cbn; by rewrite <- !app_assoc
                   |trace_forall|in_trace|done|done|in_trace| |cbn; by rewrite Hp, Hnil|done|done].
  all: constructor; [split; [eapply ran_gate_mono; [|done]; set_solver|done]|].
  all: eapply Forall2_impl; [by apply Forall2_with_r|].
  all: intros id g [? ?]; split; [eapply ran_gate_mono; [|done]; set_solver|done].
Qed.

(** ** What a verdict of the engine means *)

(** A gate passes only on what it examined. A completed run is appended to
    the ledger with the verdict, commit, gate and record of the report, and
    the gate's pass mark is written afterwards, exactly when it passed; a
    pass rests on a population at or above the declared floor (never empty)
    over which the child exited with a declared pass code, and at high regret
    the gate was not stale. (C17) *)
Theorem gate_pass_is_earned root head def regret record tr rep :
  runs (run_gate root head def regret record) tr (Ok rep) →
  Forall (fun e => decides e = false) tr
  ∧ ∃ before at_, rp_gate rep = gd_id def
    ∧ tr = before ++ event (AppendGateRun (run_of head record at_ rep)) (Ok tt) ::
             (if is_pass (rp_verdict rep)
              then [event (UpdateGate (set_last_pass def head)) (Ok tt)] else [])
    ∧ (is_pass (rp_verdict rep) = true →
       earned root def before (verdict_population (rp_verdict rep))
       ∧ (rp_staleness rep = Fresh ∨ regret = Low)).
Proof. intros H. split; [by eapply run_gate_quiet|by apply run_gate_ok]. Qed.

(** Evaluating a transition decides nothing and hides nothing: it writes no
    state and publishes no decision; its report holds one recorded run per
    gate of the stored transition, in order; it passes exactly when its exit
    code is 0, exactly when there is a gate and every gate passed, so a
    transition with no gates never passes. *)
Theorem transition_report_complete project name record tr rep :
  runs (evaluate_transition project name record) tr (Ok rep) →
  Forall (fun e => decides e = false) tr
  ∧ evaluated project record tr name rep
  ∧ (passed rep = true ↔ transition_exit_code rep = 0%N)
  ∧ (passed rep = true ↔ trp_gates rep ≠ [] ∧ ∀ g, g ∈ trp_gates rep → is_pass (rp_verdict g) = true).
Proof.
  intros H. split_and!.
  - by eapply evaluate_transition_quiet.
  - by apply evaluate_transition_ok.
  - apply passed_exit_code.
  - unfold passed, len. rewrite andb_true_iff, forallb_elem, negb_true_iff, N.eqb_neq.
    destruct (trp_gates rep); cbn; naive_solver lia.
Qed.
End Engine.

(** ** A small world

    A store with one record under one transition, two gates and one
    finding, and a child that exits with the code the world holds. *)

Definition demo_gate (id : GateId) : GateDef := {|
  gd_id := id; gd_project := "p"; gd_name := id;
  gd_kind := GCommand {| cs_program := "true"; cs_args := []; cs_delivery := DArgs;
                         cs_timeout_secs := 5; cs_pass_codes := [0%Z] |};
  gd_selector := SGlob "*.rs"; gd_min_population := 1; gd_authored_at_commit := "c0";
  gd_authored_by := "owner"; gd_last_pass_commit := Some "c0" |}.

Definition demo_transition : Transition := {|
  tr_project := "p"; tr_name := "finish"; tr_from := Review; tr_to := Done;
  tr_regret := High; tr_gates := ["g1"; "g2"] |}.

Definition demo_record : WorkRecord := {|
  rc_id := "r1"; rc_project := "p"; rc_title := "work"; rc_state := Review;
  rc_also_known_as := []; rc_area := None |}.

Definition demo_finding (s : FindingState) (gate : option GateId) : Finding :=
  fd_update (raise "p" "r1" "reviewer" "it breaks") gate s (Some "dev") None.

Definition demo (fs : FindingState) (fg : option GateId) (o : EngineOp) (exit : Z) : EngineResp o * Z :=
  match o return EngineResp o * Z with
  | GetProject p => (Ok (Some {| pj_id := p; pj_root := "/repo" |}), exit)
  | GetGate g => (Ok (Some (demo_gate g)), exit)
  | GetTransition _ _ => (Ok (Some demo_transition), exit)
  | ListTransitions _ => (Ok [demo_transition], exit)
  | ListGates _ => (Ok [demo_gate "g1"; demo_gate "g2"], exit)
  | UpdateGate _ => (Ok tt, exit)
  | AppendGateRun _ => (Ok tt, exit)
  | Flush _ => (Ok flushed_nothing, exit)
  | GetRecord _ => (Ok (Some demo_record), exit)
  | SetRecordState _ _ => (Ok tt, exit)
  | GetFinding _ => (Ok (Some (demo_finding fs fg)), exit)
  | UpdateFinding _ => (Ok tt, exit)
  | Head _ => (Ok "c0", exit)
  | ChangedBetween _ _ _ => (Ok [], exit)
  | Resolve root _ => (Ok [root ++ ["a.rs"]; root ++ ["b.rs"]], exit)
  | WriteList _ => (Ok "/tmp/list", exit)
  | Spawn _ => (Ok tt, exit)
  | FeedStdin _ => (tt, exit)
  | WaitChild _ => (Ok (Some {| co_code := Some exit; co_stdout := "ran"; co_stderr := EmptyString |}), exit)
  | KillChild => (tt, exit)
  | Elapsed => (7%N, exit)
  | EntryId => ("urn:run", exit)
  | Now => ("2026-01-01T00:00:00.000Z", exit)
  | LockRecord _ => (tt, exit)
  | UnlockRecord _ => (tt, exit)
  end.

Abbreviation no_globs := (fun _ : string => @None (list string → bool)).

Lemma no_write_existsb tr : Forall (fun e => writes_state e = false) tr → existsb writes_state tr = false.
Proof. intros H. apply existsb_elem_false. by apply Forall_forall. Qed.

(** Refute the branch in which a trace that writes is said not to. *)
Ltac it_writes H := exfalso; apply no_write_existsb in H; vm_compute in H; discriminate H.


Lemma reproduction_observed_failing_witness :
  let run := interp (demo Raised None) (exec_attach_reproduction no_globs "f1" "g1") 1%Z in
  is_ok run.1.1 = true
  ∧ ∃ before f rep n, rp_verdict rep = VFail n Predicate ∧ (0 < n)%N
      ∧ ran_gate (Some (fd_record f)) before "g1" rep.
Proof.
  intros run. split; [vm_compute; reflexivity|].
  destruct (reproduction_observed_failing no_globs "f1" "g1" _ _
    (interp_runs (demo Raised None) (exec_attach_reproduction no_globs "f1" "g1") 1%Z))
    as [[H _]|(before & f & next & rep & n & d & fl & r & Htr & _ & Hf & _ & Hran & Hv & Hn & _)];
    [it_writes H|].
  exists before, f, rep, n. split; [exact Hv|]. split; [exact Hn|exact Hran].
Defined.

Lemma finding_closed_on_evidence_witness :
  let run := interp (demo Assigned (Some "g1")) (verify_finding no_globs "f1") 0%Z in
  is_ok run.1.1 = true
  ∧ ∃ before d flushed next r,
      run.1.2 = before ++ [event (Flush d) (Ok flushed); event (UpdateFinding next) r]
      ∧ Forall (fun e => decides e = false) before.
Proof.
  intros run. split; [vm_compute; reflexivity|].
  destruct (finding_closed_on_evidence no_globs "f1" _ _
    (interp_runs (demo Assigned (Some "g1")) (verify_finding no_globs "f1") 0%Z))
    as [[H _]|(before & f & gate & gates & next & rep & nb & d & fl & r & Htr & Hq & _)]; [it_writes H|].
  exists before, d, fl, next, r. split; [exact Htr|exact Hq].
Defined.

Lemma gate_pass_is_earned_witness :
  let run := interp (demo Assigned None)
               (run_gate no_globs ["/"; "repo"] "c0" (demo_gate "g1") High None) 0%Z in
  ∃ rep, run.1.1 = Ok rep ∧ is_pass (rp_verdict rep) = true
    ∧ ∃ before, earned ["/"; "repo"] (demo_gate "g1") before (verdict_population (rp_verdict rep)).
Proof.
  intros run.
  pose proof (interp_runs (demo Assigned None)
    (run_gate no_globs ["/"; "repo"] "c0" (demo_gate "g1") High None) 0%Z) as H.
  eexists. split; [vm_compute; reflexivity|]. split; [vm_compute; reflexivity|].
  destruct (gate_pass_is_earned no_globs ["/"; "repo"] "c0" (demo_gate "g1") High None _ _ H)
    as [_ (before & at_ & _ & _ & He)].
  exists before. apply He. vm_compute. reflexivity.
Defined.

Lemma transition_report_complete_witness :
  let run := interp (demo Assigned None) (evaluate_transition no_globs "p" "finish" None) 0%Z in
  ∃ rep, run.1.1 = Ok rep ∧ passed rep = true ∧ evaluated "p" None run.1.2 "finish" rep.
Proof.
  intros run.
  pose proof (interp_runs (demo Assigned None) (evaluate_transition no_globs "p" "finish" None) 0%Z) as H.
  eexists. split; [vm_compute; reflexivity|]. split; [vm_compute; reflexivity|].
  exact (proj1 (proj2 (transition_report_complete no_globs "p" "finish" None _ _ H))).
Defined.
