(* ===== verification/WorkflowDef.v ===== *)
(** * Workflow graphs and their validator ([crates/core/src/workflow.rs])

    The data of a workflow definition and [validate_workflow_def], its ten
    static checks with the two breadth-first searches written out. The
    validator is proved to decide the declarative well-formedness of a
    graph: in particular every step reachable from the start has a path to
    [END]. The searches run on fuel; [bfs_total] shows that one more than the
    number of edges is always enough. *)

From S2P Require Import Prelude RustStr Wire Model Agent.

Definition END_STEP : string := "END".

(** [ApprovalTier] *)
Inductive ApprovalTier := TierOwner | TierLabManager | TierLead.

#[global] Instance ApprovalTier_eq_dec : EqDecision ApprovalTier.
Proof. solve_decision. Defined.

Definition ApprovalTier_as_wire (t : ApprovalTier) : string :=
  match t with TierOwner => "owner" | TierLabManager => "lab_manager" | TierLead => "lead" end.

#[global] Program Instance ApprovalTier_wire : WireNames ApprovalTier := {
  wire_all := [TierOwner; TierLabManager; TierLead]; as_wire := ApprovalTier_as_wire }.
Solve All Obligations with wire_instance.

(** [AssigneeRule] *)
Inductive AssigneeRule :=
| ARAgent (name : string)
| ARSelector (role : option AgentRole) (area adapter : option string)
| ARManual.

(** [StepCompletion] *)
Inductive StepCompletion :=
| Gated (gates : list GateId) (regret : Regret)
| HumanSignOff (approval_tier : ApprovalTier)
| Ungated_.

(** [JoinPolicy] *)
Inductive JoinPolicy := JAll | JAny | JNOfM (required : N).

(** [StepDef]; the limits are [u32] and [u64]. *)
Record StepDef := {
  sd_step_id : string;
  sd_title : string;
  sd_prompt : string;
  sd_assignee : AssigneeRule;
  sd_reviews_step : option string;
  sd_require_different_vendor : bool;
  sd_completion : StepCompletion;
  sd_join_policy : JoinPolicy;
  sd_max_attempts : N;
  sd_max_visits : N;
  sd_budget_usd_micros : option N;
  sd_max_tokens : option N;
  sd_isolate_worktree : bool;
}.

(** [EdgeCondition] *)
Inductive EdgeCondition := OnPass | OnFail | OnNeedsHuman | OnAlways.

#[global] Instance EdgeCondition_eq_dec : EqDecision EdgeCondition.
Proof. solve_decision. Defined.

Definition EdgeCondition_as_wire (c : EdgeCondition) : string :=
  match c with
  | OnPass => "pass" | OnFail => "fail" | OnNeedsHuman => "needs_human" | OnAlways => "always"
  end.

#[global] Program Instance EdgeCondition_wire : WireNames EdgeCondition := {
  wire_all := [OnPass; OnFail; OnNeedsHuman; OnAlways]; as_wire := EdgeCondition_as_wire }.
Solve All Obligations with wire_instance.

(** [EdgeDef] *)
Record EdgeDef := { ed_from_step : string; ed_to_step : string; ed_on : EdgeCondition }.

(** [MergeMode] ([state.rs]) *)
Inductive MergeMode := MConflict | MAppend | MLastWriter.

(** [WorkflowDef]; the [BTreeMap] of declared keys is its entries in key order. *)
Record WorkflowDef := {
  wd_id : Iri;
  wd_project : ProjectId;
  wd_slug : string;
  wd_title : string;
  wd_start_step : string;
  wd_steps : list StepDef;
  wd_edges : list EdgeDef;
  wd_max_total_steps : N;
  wd_budget_usd_micros : option N;
  wd_max_tokens : option N;
  wd_declared_keys : list (string * MergeMode);
  wd_authored_at_commit : string;
  wd_authored_by : string;
}.

(** [ReviewIndependenceViolation] *)
Inductive ReviewIndependenceViolation :=
| SameAgent (step_id reviews_step agent : string)
| SameVendor (step_id reviews_step vendor : string).

(** [WorkflowRunStatus] *)
Inductive WorkflowRunStatus := RSRunning | RSNeedsHuman | RSCompleted | RSFailed | RSCanceled.

#[global] Instance WorkflowRunStatus_eq_dec : EqDecision WorkflowRunStatus.
Proof. solve_decision. Defined.

Definition WorkflowRunStatus_as_wire (s : WorkflowRunStatus) : string :=
  match s with
  | RSRunning => "running" | RSNeedsHuman => "needs_human" | RSCompleted => "completed"
  | RSFailed => "failed" | RSCanceled => "canceled"
  end.

#[global] Program Instance WorkflowRunStatus_wire : WireNames WorkflowRunStatus := {
  wire_all := [RSRunning; RSNeedsHuman; RSCompleted; RSFailed; RSCanceled];
  as_wire := WorkflowRunStatus_as_wire }.
Solve All Obligations with wire_instance.

(** [WorkflowRunStatus::is_terminal] *)
Definition run_terminal (s : WorkflowRunStatus) : bool :=
  match s with RSCompleted | RSFailed | RSCanceled => true | _ => false end.

(** [WorkflowError] *)
Inductive WorkflowError :=
| WInvalidSlug (s : string)
| WEmptyTitle
| WEmptySteps
| WReservedStepId (s : string)
| WDuplicateStepId (s : string)
| WEmptyStepTitle (step_id : string)
| WUnknownStartStep (s : string)
| WInvalidStepLimits (detail : string)
| WUnknownEdgeStep (from_step to_step : string)
| WInvalidReviewTarget (step_id target : string)
| WInvalidJoinThreshold (step_id : string) (required incoming : N)
| WInvalidDeclaredKey (s : string)
| WEmptyStepGates (step_id : string)
| WUnreachableEnd (step_id : string)
| WUnknownStep (s : string)
| WStepNotActive (s : string)
| WRunNotRunning (s : WorkflowRunStatus)
| WReviewIndependence (v : ReviewIndependenceViolation)
| WNoEligibleAgent (step_id : string)
| WSelfApprovalForbidden (step_id caller : string)
| WInsufficientApprovalAuthority (step_id caller : string) (required : ApprovalTier)
| WUndeclaredWorkflowKey (workflow key : string)
| WBudgetExhausted (step_id detail : string).

(** [WorkflowError::is_policy_refusal] *)
Definition is_policy_refusal (e : WorkflowError) : bool :=
  match e with WUnknownStep _ | WStepNotActive _ | WRunNotRunning _ => false | _ => true end.

(** ** Search

    A breadth-first search over the edges: [next e x] is the node that the
    edge [e] leads to from [x], if it is taken. *)

Section Bfs.
Context (next : EdgeDef → string → option string) (edges : list EdgeDef).

(** One pass of the inner [for]: [insert] and, when it was new, [push_back]. *)
Definition visit_edge (x : string) (st : gset string * list string) (e : EdgeDef)
  : gset string * list string :=
  match next e x with
  | Some y => if bool_decide (y ∈ st.1) then st else ({[y]} ∪ st.1, st.2 ++ [y])
  | None => st
  end.

Fixpoint bfs (fuel : nat) (seen : gset string) (queue : list string) : option (gset string) :=
  match queue with
  | [] => Some seen
  | x :: queue' =>
      match fuel with
      | O => None
      | S fuel' =>
          let st := foldl (visit_edge x) (seen, queue') edges in
          bfs fuel' st.1 st.2
      end
  end.
End Bfs.

(** Forward along an edge that does not end the workflow. *)
Definition next_forward (e : EdgeDef) (x : string) : option string :=
  if (ed_from_step e == x) && (ed_to_step e != END_STEP) then Some (ed_to_step e) else None.

(** Backward along an edge. *)
Definition next_reverse (e : EdgeDef) (x : string) : option string :=
  if ed_to_step e == x then Some (ed_from_step e) else None.

Definition search_fuel (def : WorkflowDef) : nat := S (length (wd_edges def)).

Definition reachable_from_start (def : WorkflowDef) : gset string :=
  unwrap_or (bfs next_forward (wd_edges def) (search_fuel def)
               {[wd_start_step def]} [wd_start_step def]) ∅.

(** The seeds of the reverse search: each step with an edge to [END], once. *)
Definition end_seed (st : gset string * list string) (e : EdgeDef) : gset string * list string :=
  if (ed_to_step e == END_STEP) && negb (bool_decide (ed_from_step e ∈ st.1))
  then ({[ed_from_step e]} ∪ st.1, st.2 ++ [ed_from_step e]) else st.

Definition can_reach_end (def : WorkflowDef) : gset string :=
  let st := foldl end_seed (∅, []) (wd_edges def) in
  unwrap_or (bfs next_reverse (wd_edges def) (search_fuel def) st.1 st.2) ∅.

(** ** The validator *)

(** [validate_slug(s)], refused unless it is already normal. *)
Definition exact_slug (err : string → WorkflowError) (s : string) : Result unit WorkflowError :=
  match validate_slug s with
  | Err _ => Err (err s)
  | Ok norm => if norm != s then Err (err s) else Ok tt
  end.

(** Check 2, for one step: the ids seen so far are threaded. *)
Definition check_step_id (seen : gset string) (step : StepDef) : Result (gset string) WorkflowError :=
  if eq_ignore_ascii_case (sd_step_id step) END_STEP then Err (WReservedStepId (sd_step_id step))
  else
    let? _ := exact_slug WInvalidSlug (sd_step_id step) in
    if is_blank (sd_title step) then Err (WEmptyStepTitle (sd_step_id step))
    else if bool_decide (sd_step_id step ∈ seen) then Err (WDuplicateStepId (sd_step_id step))
    else Ok ({[sd_step_id step]} ∪ seen).

(** Check 4, for one step. *)
Definition check_step_limits (step : StepDef) : Result unit WorkflowError :=
  if (sd_max_attempts step =? 0)%N || (sd_max_visits step =? 0)%N
  then Err (WInvalidStepLimits ("step `" +:+ sd_step_id step +:+
         "` must have max_attempts > 0 and max_visits > 0"))
  else Ok tt.

(** Check 5, for one edge. *)
Definition check_edge (ids : gset string) (e : EdgeDef) : Result unit WorkflowError :=
  let from_ok := bool_decide (ed_from_step e ∈ ids) in
  let to_ok := (ed_to_step e == END_STEP) || bool_decide (ed_to_step e ∈ ids) in
  if negb from_ok || negb to_ok then Err (WUnknownEdgeStep (ed_from_step e) (ed_to_step e)) else Ok tt.

(** Checks 6 to 8, for one step. *)
Definition incoming_count (def : WorkflowDef) (step : StepDef) : N :=
  len (List.filter (fun e => ed_to_step e == sd_step_id step) (wd_edges def)).

Definition check_step_rules (def : WorkflowDef) (ids : gset string) (step : StepDef)
  : Result unit WorkflowError :=
  let? _ :=
    match sd_reviews_step step with
    | Some target =>
        if (target == sd_step_id step) || negb (bool_decide (target ∈ ids))
        then Err (WInvalidReviewTarget (sd_step_id step) target) else Ok tt
    | None => Ok tt
    end in
  let? _ :=
    match sd_join_policy step with
    | JNOfM required =>
        if (required =? 0)%N || (incoming_count def step <? required)%N
        then Err (WInvalidJoinThreshold (sd_step_id step) required (incoming_count def step)) else Ok tt
    | _ => Ok tt
    end in
  match sd_completion step with
  | Gated [] _ => Err (WEmptyStepGates (sd_step_id step))
  | _ => Ok tt
  end.

(** Check 10, for one step. *)
Definition check_reaches_end (def : WorkflowDef) (step : StepDef) : Result unit WorkflowError :=
  if bool_decide (sd_step_id step ∈ reachable_from_start def)
     && negb (bool_decide (sd_step_id step ∈ can_reach_end def))
  then Err (WUnreachableEnd (sd_step_id step)) else Ok tt.

(** [validate_workflow_def] *)
Definition validate_workflow_def (def : WorkflowDef) : Result unit WorkflowError :=
  let? _ := exact_slug WInvalidSlug (wd_slug def) in
  if is_blank (wd_title def) then Err WEmptyTitle
  else if (len (wd_steps def) =? 0)%N then Err WEmptySteps
  else
    let? ids := for_fold check_step_id ∅ (wd_steps def) in
    if negb (bool_decide (wd_start_step def ∈ ids)) then Err (WUnknownStartStep (wd_start_step def))
    else if (wd_max_total_steps def =? 0)%N
    then Err (WInvalidStepLimits "max_total_steps must be greater than 0")
    else
      let? _ := for_each check_step_limits (wd_steps def) in
      let? _ := for_each (check_edge ids) (wd_edges def) in
      let? _ := for_each (check_step_rules def ids) (wd_steps def) in
      let? _ := for_each (fun kv => exact_slug WInvalidDeclaredKey kv.1) (wd_declared_keys def) in
      for_each (check_reaches_end def) (wd_steps def).

(** ** The specification of a well-formed graph *)

Definition is_slug (s : string) : Prop := validate_slug s = Ok s.
Definition step_ids (def : WorkflowDef) : list string := sd_step_id <$> wd_steps def.

(** One edge, taken inside the graph. *)
Definition inner_edge (def : WorkflowDef) (x y : string) : Prop :=
  ∃ e, e ∈ wd_edges def ∧ ed_from_step e = x ∧ ed_to_step e = y ∧ y ≠ END_STEP.

Definition any_edge (def : WorkflowDef) (x y : string) : Prop :=
  ∃ e, e ∈ wd_edges def ∧ ed_from_step e = x ∧ ed_to_step e = y.

Record step_ok (def : WorkflowDef) (s : StepDef) : Prop := {
  so_slug : is_slug (sd_step_id s);
  so_not_end : eq_ignore_ascii_case (sd_step_id s) END_STEP = false;
  so_title : is_blank (sd_title s) = false;
  so_limits : (0 < sd_max_attempts s ∧ 0 < sd_max_visits s)%N;
  so_review : ∀ t, sd_reviews_step s = Some t → t ≠ sd_step_id s ∧ t ∈ step_ids def;
  so_join : ∀ r, sd_join_policy s = JNOfM r → (0 < r ≤ incoming_count def s)%N;
  so_gates : ∀ g r, sd_completion s = Gated g r → g ≠ [];
  so_end : rtc (inner_edge def) (wd_start_step def) (sd_step_id s) → tc (any_edge def) (sd_step_id s) END_STEP;
}.

Record wf_def (def : WorkflowDef) : Prop := {
  wf_slug : is_slug (wd_slug def);
  wf_title : is_blank (wd_title def) = false;
  wf_unique : NoDup (step_ids def);
  wf_start : wd_start_step def ∈ step_ids def;
  wf_total : (0 < wd_max_total_steps def)%N;
  wf_edges : ∀ e, e ∈ wd_edges def →
    ed_from_step e ∈ step_ids def ∧ (ed_to_step e = END_STEP ∨ ed_to_step e ∈ step_ids def);
  wf_keys : ∀ k m, (k, m) ∈ wd_declared_keys def → is_slug k;
  wf_steps : ∀ s, s ∈ wd_steps def → step_ok def s;
}.

(** ** The search is total, sound and complete *)

Section BfsSpec.
Context (next : EdgeDef → string → option string) (edges : list EdgeDef).
(** Where an edge can lead to, from anywhere. *)
Context (tgt : EdgeDef → string) (next_tgt : ∀ e x y, next e x = Some y → y = tgt e).

Definition bfs_rel (x y : string) : Prop := ∃ e, e ∈ edges ∧ next e x = Some y.
Definition targets : gset string := list_to_set (tgt <$> edges).

Lemma visit_fold x es st :
  es ⊆ edges →
  let st' := foldl (visit_edge next x) st es in
  st.1 ⊆ st'.1
  ∧ (∀ e y, e ∈ es → next e x = Some y → y ∈ st'.1)
  ∧ (∀ y, y ∈ st'.1 → y ∈ st.1 ∨ (y ∈ st'.2 ∧ bfs_rel x y))
  ∧ (∀ y, y ∈ st.2 → y ∈ st'.2)
  ∧ (∀ y, y ∈ st'.2 → y ∈ st.2 ∨ bfs_rel x y)
  ∧ (length st'.2 + size (targets ∖ st'.1) ≤ length st.2 + size (targets ∖ st.1))%nat.
Proof.
  revert st. induction es as [|e es IH]; intros st Hes; cbn.
  { split_and!; try done; [set_solver|auto..]. }
  set (st1 := visit_edge next x st e).
  assert (st.1 ⊆ st1.1 ∧ (∀ y, next e x = Some y → y ∈ st1.1)
    ∧ (∀ y, y ∈ st1.1 → y ∈ st.1 ∨ (y ∈ st1.2 ∧ bfs_rel x y)) ∧ (∀ y, y ∈ st.2 → y ∈ st1.2)
    ∧ (∀ y, y ∈ st1.2 → y ∈ st.2 ∨ bfs_rel x y)
    ∧ (length st1.2 + size (targets ∖ st1.1) ≤ length st.2 + size (targets ∖ st.1))%nat)
    as (H1 & H2 & H3 & H4 & H5 & H6).
  { subst st1. unfold visit_edge. destruct (next e x) as [y|] eqn:Hn;
      [|split_and!; try done; auto].
    case_bool_decide as Hy; [split_and!; try done; [set_solver|auto..]|].
    assert (bfs_rel x y) by (exists e; set_solver). cbn.
    assert (y ∈ targets ∖ st.1).
    { apply elem_of_difference. split; [|done]. unfold targets. apply elem_of_list_to_set.
      rewrite (next_tgt _ _ _ Hn). apply list_elem_of_fmap_2. set_solver. }
    split_and!.
    - apply union_subseteq_r.
    - intros ? [= <-]. apply elem_of_union_l, elem_of_singleton. done.
    - intros z [->%elem_of_singleton|?]%elem_of_union; [|auto]. right. split; [|done].
      apply elem_of_app. right. apply list_elem_of_here.
    - intros z ?. apply elem_of_app. auto.
    - intros z [?|Hz]%elem_of_app; [auto|]. apply list_elem_of_singleton in Hz as ->. auto.
    - rewrite length_app. cbn.
      rewrite (union_comm_L {[y]}), <- difference_difference_l_L.
      rewrite size_difference by (apply singleton_subseteq_l; done). rewrite size_singleton.
      assert (size (targets ∖ st.1) ≠ 0) by (apply size_non_empty_iff; intros Heq; set_solver).
      lia. }
  destruct (IH st1 ltac:(set_solver)) as (I1 & I2 & I3 & I4 & I5 & I6). cbn in *.
  split_and!; [set_solver| | |set_solver| |lia].
  - intros e' y [->|He']%elem_of_cons Hn; [apply I1; eauto|eauto].
  - intros y Hy. destruct (I3 y Hy) as [Hy'|?]; [|auto].
    destruct (H3 y Hy') as [?|[??]]; [auto|]. right. auto.
  - intros y Hy. destruct (I5 y Hy) as [?|?]; [|auto]. destruct (H5 y); auto.
Qed.

Lemma bfs_total fuel seen queue :
  (length queue + size (targets ∖ seen) ≤ fuel)%nat → ∃ r, bfs next edges fuel seen queue = Some r.
Proof.
  revert seen queue. induction fuel as [|fuel IH]; intros seen [|x queue] Hf; cbn in *; eauto; [lia|].
  apply IH. destruct (visit_fold x edges (seen, queue) ltac:(done)) as (_ & _ & _ & _ & _ & H).
  cbn in H. lia.
Qed.

Lemma bfs_sound (P : string → Prop) fuel seen queue r :
  (∀ x y, P x → bfs_rel x y → P y) → (∀ x, x ∈ seen → P x) → (∀ x, x ∈ queue → P x) →
  bfs next edges fuel seen queue = Some r → ∀ y, y ∈ r → P y.
Proof.
  intros HP. revert seen queue. induction fuel as [|fuel IH]; intros seen [|x queue] Hs Hq; cbn;
    try (intros; simplify_eq; auto; fail).
  destruct (visit_fold x edges (seen, queue) ltac:(done)) as (_ & _ & H3 & _ & H5 & _). cbn in *.
  assert (P x) by set_solver.
  apply IH.
  - intros y [?|[_ ?]]%H3; eauto.
  - intros y [?|?]%H5; [set_solver|eauto].
Qed.

Lemma bfs_complete fuel seen queue r :
  (∀ x, x ∈ seen → x ∈ queue ∨ ∀ y, bfs_rel x y → y ∈ seen) →
  bfs next edges fuel seen queue = Some r →
  seen ⊆ r ∧ ∀ x y, x ∈ r → bfs_rel x y → y ∈ r.
Proof.
  revert seen queue. induction fuel as [|fuel IH]; intros seen [|x queue] Hs; cbn; intros Hr; simplify_eq.
  1, 2: split; [done|]; intros x y Hx; destruct (Hs x Hx) as [Hq|]; [by apply not_elem_of_nil in Hq|auto].
  destruct (visit_fold x edges (seen, queue) ltac:(done)) as (H1 & H2 & H3 & H4 & _ & _). cbn in *.
  apply IH in Hr as [Hr1 Hr2]; [split; [by etrans|done]|].
  intros z Hz. destruct (H3 z Hz) as [Hz'|[? _]]; [|auto].
  destruct (Hs z Hz') as [[->|?]%elem_of_cons|Hc].
  - right. intros y (e & He & Hn). eauto.
  - left. auto.
  - right. intros y Hy. apply H1. auto.
Qed.
End BfsSpec.

Lemma next_forward_spec e x y :
  next_forward e x = Some y ↔ ed_from_step e = x ∧ ed_to_step e = y ∧ y ≠ END_STEP.
Proof.
  unfold next_forward. destruct (_ && _) eqn:E; bool_prop; [naive_solver|].
  split; [done|]. intros (? & ? & ?). destruct E as [E|E]; bool_prop; congruence.
Qed.

Lemma next_reverse_spec e x y : next_reverse e x = Some y ↔ ed_to_step e = x ∧ ed_from_step e = y.
Proof. unfold next_reverse. case_bool_decide; naive_solver. Qed.

Lemma size_list_to_set_le (l : list string) : (size (list_to_set l : gset string) ≤ length l)%nat.
Proof.
  induction l as [|x l IH]; cbn; [by rewrite size_empty|]. rewrite size_union_alt, size_singleton.
  pose proof (subseteq_size (list_to_set l ∖ {[x]} : gset string) (list_to_set l) ltac:(set_solver)). lia.
Qed.

Lemma targets_size tgt edges seen : (size (targets edges tgt ∖ seen) ≤ length edges)%nat.
Proof.
  etrans; [apply subseteq_size, subseteq_difference_l; reflexivity|].
  unfold targets. rewrite <- (length_fmap tgt edges). apply size_list_to_set_le.
Qed.

(** The forward search finds exactly the steps reachable from the start. *)
Lemma reachable_from_start_spec def x :
  x ∈ reachable_from_start def ↔ rtc (inner_edge def) (wd_start_step def) x.
Proof.
  unfold reachable_from_start.
  assert (∀ a b, bfs_rel next_forward (wd_edges def) a b ↔ inner_edge def a b) as Hrel.
  { intros a b. unfold bfs_rel, inner_edge. by setoid_rewrite next_forward_spec. }
  destruct (bfs_total next_forward (wd_edges def) ed_to_step ltac:(intros ??? (_ & <- & _)%next_forward_spec; done)
    (search_fuel def) {[wd_start_step def]} [wd_start_step def]) as [r Hr].
  { pose proof (targets_size ed_to_step (wd_edges def) {[wd_start_step def]}). unfold search_fuel. cbn. lia. }
  rewrite Hr. cbn. split.
  - revert x. eapply bfs_sound; [intros ??? (_ & <- & _)%next_forward_spec; done| | | |exact Hr].
    + intros a b Ha Hab%Hrel. by eapply rtc_r.
    + by intros a ->%elem_of_singleton.
    + by intros a ->%list_elem_of_singleton.
  - apply (bfs_complete _ _ ed_to_step) in Hr as [H1 H2];
      [|intros ??? (_ & <- & _)%next_forward_spec; done|intros a ->%elem_of_singleton; left; apply list_elem_of_here].
    intros Hx. assert (wd_start_step def ∈ r) as Hs by (apply H1, elem_of_singleton; done). clear H1.
    induction Hx as [|a b c Hab _ IH]; [done|]. apply IH. eapply H2; [exact Hs|by apply Hrel].
Qed.

Lemma end_seed_fold es st :
  (∀ x, x ∈ st.1 ↔ x ∈ st.2) →
  let st' := foldl end_seed st es in
  (∀ x, x ∈ st'.1 ↔ x ∈ st'.2)
  ∧ (∀ x, x ∈ st'.1 ↔ x ∈ st.1 ∨ ∃ e, e ∈ es ∧ ed_to_step e = END_STEP ∧ ed_from_step e = x)
  ∧ ∀ T : gset string, (∀ e, e ∈ es → ed_from_step e ∈ T) →
      (length st'.2 + size (T ∖ st'.1) ≤ length st.2 + size (T ∖ st.1))%nat.
Proof.
  revert st. induction es as [|e es IH]; intros st Hst; cbn.
  { split_and!; [done|set_solver|intros; lia]. }
  set (st1 := end_seed st e).
  assert ((∀ x, x ∈ st1.1 ↔ x ∈ st1.2)
    ∧ (∀ x, x ∈ st1.1 ↔ x ∈ st.1 ∨ (ed_to_step e = END_STEP ∧ ed_from_step e = x))
    ∧ ∀ T : gset string, ed_from_step e ∈ T →
        (length st1.2 + size (T ∖ st1.1) ≤ length st.2 + size (T ∖ st.1))%nat) as (H1 & H2 & H3).
  { subst st1. unfold end_seed. destruct (_ && _) eqn:E; bool_prop; cbn.
    - split_and!; [set_solver|set_solver|]. intros T HT. rewrite length_app. cbn.
      rewrite (union_comm_L {[ed_from_step e]}), <- difference_difference_l_L.
      assert (ed_from_step e ∈ T ∖ st.1) as Hd by (apply elem_of_difference; done).
      rewrite size_difference by (apply singleton_subseteq_l; done). rewrite size_singleton.
      assert (size (T ∖ st.1) ≠ 0) by (apply size_non_empty_iff; set_solver). lia.
    - split_and!; [done| |intros; lia]. intros x. split; [auto|]. intros [?|[? <-]]; [done|].
      destruct E as [E|E]; bool_prop; done. }
  destruct (IH st1 H1) as (I1 & I2 & I3). cbn in *. split_and!.
  - done.
  - intros x. rewrite I2, H2. set_solver.
  - intros T HT. pose proof (H3 T ltac:(set_solver)). pose proof (I3 T ltac:(set_solver)). lia.
Qed.

(** The reverse search finds exactly the steps with a path to [END]. *)
Lemma can_reach_end_spec def x :
  (∀ e, e ∈ wd_edges def → ed_from_step e ≠ END_STEP) →
  x ∈ can_reach_end def ↔ tc (any_edge def) x END_STEP.
Proof.
  intros Hend. unfold can_reach_end.
  assert (∀ a b, bfs_rel next_reverse (wd_edges def) a b ↔ any_edge def b a) as Hrel.
  { intros a b. unfold bfs_rel, any_edge. setoid_rewrite next_reverse_spec. naive_solver. }
  destruct (end_seed_fold (wd_edges def) (∅, []) ltac:(set_solver)) as (S1 & S2 & S3).
  set (st := foldl end_seed (∅, []) (wd_edges def)) in *. cbn zeta. cbn in S1, S2, S3.
  assert (∀ e (a b : string), next_reverse e a = Some b → b = ed_from_step e) as Htgt
    by (intros ??? [_ <-]%next_reverse_spec; done).
  destruct (bfs_total next_reverse (wd_edges def) ed_from_step Htgt (search_fuel def) st.1 st.2) as [r Hr].
  { pose proof (targets_size ed_from_step (wd_edges def) ∅).
    pose proof (S3 (targets (wd_edges def) ed_from_step)) as HT. unfold search_fuel.
    enough (∀ e, e ∈ wd_edges def → ed_from_step e ∈ targets (wd_edges def) ed_from_step) by (specialize (HT ltac:(done)); lia).
    intros e He. unfold targets. apply elem_of_list_to_set. by apply list_elem_of_fmap_2. }
  rewrite Hr. cbn. split.
  - revert x. eapply bfs_sound; [exact Htgt| | | |exact Hr].
    + intros a b Ha Hab%Hrel. by eapply tc_l.
    + intros a [?|(e & He & ? & <-)]%S2; [set_solver|]. apply tc_once. by exists e.
    + intros a [?|(e & He & ? & <-)]%S1%S2; [set_solver|]. apply tc_once. by exists e.
  - apply (bfs_complete _ _ ed_from_step Htgt) in Hr as [H1 H2]; [|intros a ?%S1; auto].
    remember END_STEP as z eqn:Hz. induction 1 as [a b (e & He & Hf & Ht)|a b c Hab _ IH]; subst.
    + apply H1, S2. right. by exists e.
    + eapply H2; [by apply IH|]. by apply Hrel.
Qed.

(** ** The validator decides well-formedness *)

Lemma exact_slug_ok err s : exact_slug err s = Ok tt ↔ is_slug s.
Proof.
  unfold exact_slug, is_slug. destruct (validate_slug s) as [norm|] eqn:E; [|done].
  case_bool_decide; cbn; naive_solver.
Qed.

Definition step_id_ok (s : StepDef) : Prop :=
  eq_ignore_ascii_case (sd_step_id s) END_STEP = false ∧ is_slug (sd_step_id s)
  ∧ is_blank (sd_title s) = false.

Lemma check_step_id_ok seen s ids :
  check_step_id seen s = Ok ids ↔
  step_id_ok s ∧ (sd_step_id s ∉ seen) ∧ ids = ({[sd_step_id s]} ∪ seen : gset string).
Proof.
  unfold check_step_id, step_id_ok. rewrite <- (exact_slug_ok WInvalidSlug).
  destruct (eq_ignore_ascii_case _ _); [naive_solver|].
  destruct (exact_slug _ _) as [[]|]; cbn; [|naive_solver].
  destruct (is_blank _); [naive_solver|]. case_bool_decide; naive_solver.
Qed.

Lemma check_ids_ok steps seen ids :
  for_fold check_step_id seen steps = Ok ids ↔
  (∀ s, s ∈ steps → step_id_ok s ∧ sd_step_id s ∉ seen) ∧ NoDup (sd_step_id <$> steps)
  ∧ ids = list_to_set (sd_step_id <$> steps) ∪ seen.
Proof.
  revert seen. induction steps as [|s steps IH]; intros seen; cbn.
  { split; [intros [= <-]|intros (_ & _ & ->)]; [split_and!; [set_solver|constructor|set_solver]|f_equal; set_solver]. }
  rewrite result_bind_ok, NoDup_cons. setoid_rewrite IH. setoid_rewrite check_step_id_ok. split.
  - intros (seen1 & (Hs & Hn & ->) & Hall & Hnd & ->). split_and!.
    + intros s' [->|Hs']%elem_of_cons; [done|]. destruct (Hall s' Hs'). set_solver.
    + intros (s' & Heq & Hs')%list_elem_of_fmap. destruct (Hall s' Hs'). set_solver.
    + done.
    + set_solver.
  - intros (Hall & [Hn Hnd] & ->). exists ({[sd_step_id s]} ∪ seen). split_and!.
    + apply Hall. set_solver.
    + apply Hall. set_solver.
    + done.
    + intros s' Hs'. destruct (Hall s' ltac:(set_solver)). split; [done|].
      intros [Heq%elem_of_singleton|]%elem_of_union; [|done]. apply Hn. rewrite <- Heq. by apply list_elem_of_fmap_2.
    + done.
    + set_solver.
Qed.

Lemma check_step_limits_ok s :
  check_step_limits s = Ok tt ↔ (0 < sd_max_attempts s ∧ 0 < sd_max_visits s)%N.
Proof.
  unfold check_step_limits. destruct (N.eqb_spec (sd_max_attempts s) 0), (N.eqb_spec (sd_max_visits s) 0); cbn.
  all: split; [done || (intros; lia)|]; intros; try done; lia.
Qed.

Lemma check_edge_ok ids e :
  check_edge ids e = Ok tt ↔ ed_from_step e ∈ ids ∧ (ed_to_step e = END_STEP ∨ ed_to_step e ∈ ids).
Proof. unfold check_edge. repeat case_bool_decide; cbn; naive_solver. Qed.

Lemma check_step_rules_ok def ids s :
  check_step_rules def ids s = Ok tt ↔
  (∀ t, sd_reviews_step s = Some t → t ≠ sd_step_id s ∧ t ∈ ids)
  ∧ (∀ r, sd_join_policy s = JNOfM r → (0 < r ≤ incoming_count def s)%N)
  ∧ (∀ g r, sd_completion s = Gated g r → g ≠ []).
Proof.
  unfold check_step_rules. rewrite result_bind_ok. setoid_rewrite result_bind_ok.
  assert (∀ (P Q R : Prop) (x y z : Result unit WorkflowError), (x = Ok tt ↔ P) → (y = Ok tt ↔ Q) → (z = Ok tt ↔ R) →
    (∃ a, x = Ok a ∧ ∃ b, y = Ok b ∧ z = Ok tt) ↔ P ∧ Q ∧ R) as Hglue.
  { intros P Q R x y z <- <- <-. split; [intros ([] & ? & [] & ? & ?); done|intros (? & ? & ?); eauto]. }
  apply Hglue.
  - destruct (sd_reviews_step s) as [t|]; [|naive_solver]. repeat case_bool_decide; cbn; naive_solver.
  - destruct (sd_join_policy s) as [| |r]; [naive_solver..|].
    destruct (N.eqb_spec r 0), (N.ltb_spec (incoming_count def s) r); cbn.
    all: split; [intros; simplify_eq; split; lia || done|]; intros HH; try done; specialize (HH r eq_refl); lia.
  - destruct (sd_completion s) as [[|g gs] r| |]; naive_solver.
Qed.

Lemma check_reaches_end_ok def s :
  (∀ e, e ∈ wd_edges def → ed_from_step e ≠ END_STEP) →
  check_reaches_end def s = Ok tt ↔
  (rtc (inner_edge def) (wd_start_step def) (sd_step_id s) → tc (any_edge def) (sd_step_id s) END_STEP).
Proof.
  intros He. unfold check_reaches_end.
  rewrite <- reachable_from_start_spec, <- can_reach_end_spec by done.
  repeat case_bool_decide; cbn; naive_solver.
Qed.

Lemma step_id_not_end def x :
  (∀ s, s ∈ wd_steps def → step_id_ok s) → x ∈ step_ids def → x ≠ END_STEP.
Proof. intros Hs (s & -> & Hin)%list_elem_of_fmap Heq. destruct (Hs s Hin) as (H & _). by rewrite Heq in H. Qed.

Lemma guard_ok {A E} (b : bool) (e : E) (k : Result A E) (r : A) :
  (if b then Err e else k) = Ok r ↔ b = false ∧ k = Ok r.
Proof. destruct b; naive_solver. Qed.

(** The checks of the validator, one by one. *)
Lemma validate_checks def :
  validate_workflow_def def = Ok tt ↔
  is_slug (wd_slug def) ∧ is_blank (wd_title def) = false ∧ wd_steps def ≠ []
  ∧ (∀ s, s ∈ wd_steps def → step_id_ok s) ∧ NoDup (step_ids def)
  ∧ wd_start_step def ∈ step_ids def ∧ (0 < wd_max_total_steps def)%N
  ∧ (∀ s, s ∈ wd_steps def → (0 < sd_max_attempts s ∧ 0 < sd_max_visits s)%N)
  ∧ (∀ e, e ∈ wd_edges def → check_edge (list_to_set (step_ids def) ∪ ∅) e = Ok tt)
  ∧ (∀ s, s ∈ wd_steps def → check_step_rules def (list_to_set (step_ids def) ∪ ∅) s = Ok tt)
  ∧ (∀ kv, kv ∈ wd_declared_keys def → is_slug kv.1)
  ∧ (∀ s, s ∈ wd_steps def → check_reaches_end def s = Ok tt).
Proof.
  match goal with |- _ ↔ ?R => set (rhs := R) end.
  unfold validate_workflow_def. rewrite result_bind_ok.
  setoid_rewrite guard_ok. setoid_rewrite guard_ok. setoid_rewrite result_bind_ok.
  setoid_rewrite check_ids_ok. setoid_rewrite guard_ok. setoid_rewrite guard_ok.
  do 4 setoid_rewrite result_bind_ok.
  setoid_rewrite negb_false_iff. setoid_rewrite bool_decide_eq_true.
  subst rhs. unfold len, step_ids. split.
  - intros ([] & ? & ? & Hl & ? & (Hids & ? & ->) & Hstart & Hmax & [] & Hlim & [] & Hedge & [] & Hrule & [] & Hkey & Hend).
    rewrite for_each_ok in Hlim. rewrite for_each_ok in Hedge. rewrite for_each_ok in Hrule.
    rewrite for_each_ok in Hkey. rewrite for_each_ok in Hend. bool_prop.
    rewrite exact_slug_ok in *. setoid_rewrite exact_slug_ok in Hkey. setoid_rewrite check_step_limits_ok in Hlim.
    rewrite elem_of_union, elem_of_list_to_set in Hstart.
    split_and!; try done; [by intros Heq; rewrite Heq in Hl|by apply Hids|set_solver|lia].
  - intros (? & ? & Hl & Hids & ? & Hstart & Hmax & Hlim & Hedge & Hrule & Hkey & Hend).
    assert (exact_slug WInvalidSlug (wd_slug def) = Ok tt) by by apply exact_slug_ok.
    assert (for_each check_step_limits (wd_steps def) = Ok tt)
      by (apply for_each_ok; intros; apply check_step_limits_ok; auto).
    assert (for_each (fun kv => exact_slug WInvalidDeclaredKey kv.1) (wd_declared_keys def) = Ok tt)
      by (apply for_each_ok; intros; apply exact_slug_ok; auto).
    rewrite <- for_each_ok in Hedge. rewrite <- for_each_ok in Hrule. rewrite <- for_each_ok in Hend.
    eexists. split; [done|]. split; [done|]. split; [destruct (wd_steps def); [done|apply N.eqb_neq; cbn; lia]|].
    eexists. split; [split_and!; [|done|done]; intros; split; [auto|apply not_elem_of_empty]|].
    split; [set_solver|]. split; [apply N.eqb_neq; lia|]. eauto 10.
Qed.

Lemma validate_wf (def : WorkflowDef) : validate_workflow_def def = Ok tt ↔ wf_def def.
Proof.
  rewrite validate_checks. split.
  - intros (? & ? & Hl & Hids & ? & Hstart & Hmax & Hlim & Hedge & Hrule & Hkey & Hend).
    assert (∀ e, e ∈ wd_edges def → ed_from_step e ∈ step_ids def
              ∧ (ed_to_step e = END_STEP ∨ ed_to_step e ∈ step_ids def)) as Hedge'.
    { intros e He. apply Hedge, check_edge_ok in He. set_solver. }
    constructor; try done.
    + intros k m Hkm. exact (Hkey (k, m) Hkm).
    + intros s Hs. destruct (Hids s Hs) as (? & ? & ?).
      pose proof (Hrule s Hs) as (Hr1 & Hr2 & Hr3)%check_step_rules_ok.
      pose proof (Hend s Hs) as He. rewrite check_reaches_end_ok in He
        by (intros e He'; apply Hedge' in He' as [He' _]; by apply (step_id_not_end def)).
      constructor; auto. intros t Ht. apply Hr1 in Ht. set_solver.
  - intros [? ? ? ? ? Hedge Hkeys Hsteps].
    assert (∀ s, s ∈ wd_steps def → step_id_ok s) as Hids by (intros s Hs; by destruct (Hsteps s Hs)).
    split_and!; try done.
    + intros Heq. unfold step_ids in *. rewrite Heq in *. by apply not_elem_of_nil in wf_start0.
    + intros s Hs. by destruct (Hsteps s Hs).
    + intros e He. apply check_edge_ok. apply Hedge in He. set_solver.
    + intros s Hs. destruct (Hsteps s Hs). apply check_step_rules_ok. split_and!; [|done|done].
      intros t Ht. apply so_review0 in Ht. set_solver.
    + intros [k m] Hkm. by eapply Hkeys.
    + intros s Hs. destruct (Hsteps s Hs). apply check_reaches_end_ok; [|done].
      intros e He'. apply Hedge in He' as [He' _]. by apply (step_id_not_end def).
Qed.

(** The validator decides well-formedness: it accepts a definition exactly
    when the slugs are canonical, the step ids distinct and not [END], the
    limits positive, the edges, reviews, joins and gate lists well-formed,
    and every step that is reachable from the start has a path to [END].
    The searches behind the last check always finish. (C14) *)
Theorem validator_decides_wf (def : WorkflowDef) : validate_workflow_def def = Ok tt ↔ wf_def def.
Proof. apply validate_wf. Qed.
