(* ===== verification/WorkflowRun.v ===== *)
(** * Workflow runs: the scheduler ([crates/core/src/workflow.rs])

    A run of a validated workflow, and the pure scheduler
    [advance_workflow] that takes one attempt report to the next state. The
    [expect]s of the source are a [Panic] outcome here, shown unreachable
    from a well-formed run of a valid definition. The second half is the
    policy around a run: reviewer independence, agent selection and sign-off
    authority. *)

From S2P Require Import Prelude RustStr Wire Model Agent WorkflowDef.
Local Open Scope N_scope.

(** [StepOutcome] *)
Inductive StepOutcome := SPass | SFail | SNeedsHuman.

#[global] Instance StepOutcome_eq_dec : EqDecision StepOutcome.
Proof. solve_decision. Defined.

Definition StepOutcome_as_wire (o : StepOutcome) : string :=
  match o with SPass => "pass" | SFail => "fail" | SNeedsHuman => "needs_human" end.

#[global] Program Instance StepOutcome_wire : WireNames StepOutcome := {
  wire_all := [SPass; SFail; SNeedsHuman]; as_wire := StepOutcome_as_wire }.
Solve All Obligations with wire_instance.

(** [StepInstance]; counts are [u32], spends [u64]. *)
Record StepInstance := {
  si_step_id : string;
  si_visit_count : N;
  si_attempt_count : N;
  si_state : State;
  si_assigned_agent : option string;
  si_adapter_used : option string;
  si_record_id : option RecordId;
  si_latest_attempt : option Iri;
  si_last_outcome : option StepOutcome;
  si_tokens_used : N;
  si_cost_usd_micros : N;
  si_worktree_branch : option string;
  si_needs_human_reason : option string;
}.

(** [WorkflowRun] *)
Record WorkflowRun := {
  wr_id : Iri;
  wr_workflow_id : Iri;
  wr_project : ProjectId;
  wr_title : string;
  wr_status : WorkflowRunStatus;
  wr_active_steps : list string;
  wr_steps : gmap string StepInstance;
  wr_total_steps_executed : N;
  wr_total_tokens : N;
  wr_total_cost_usd_micros : N;
  wr_created_at : At;
  wr_updated_at : At;
  wr_by : string;
}.

(** [StepAttemptReport] *)
Record StepAttemptReport := {
  ra_step_id : string;
  ra_outcome : StepOutcome;
  ra_attempt_iri : option Iri;
  ra_tokens_used : N;
  ra_cost_usd_micros : N;
  ra_reason : option string;
}.

(** A refused call, or one of the source's [expect]s. *)
Inductive Fault := Refusal (e : WorkflowError) | Panic (message : string).

(** ** Field updates *)

(** The fields an attempt accounts for. *)
Definition si_account (s : StepInstance) (attempts tokens cost : N) (latest : option Iri) : StepInstance := {|
  si_step_id := si_step_id s; si_visit_count := si_visit_count s; si_attempt_count := attempts;
  si_state := si_state s; si_assigned_agent := si_assigned_agent s; si_adapter_used := si_adapter_used s;
  si_record_id := si_record_id s; si_latest_attempt := latest; si_last_outcome := si_last_outcome s;
  si_tokens_used := tokens; si_cost_usd_micros := cost; si_worktree_branch := si_worktree_branch s;
  si_needs_human_reason := si_needs_human_reason s |}.

(** [state], [last_outcome] and [needs_human_reason]. *)
Definition si_settle (s : StepInstance) (state : State) (outcome : option StepOutcome)
  (reason : option string) : StepInstance := {|
  si_step_id := si_step_id s; si_visit_count := si_visit_count s;
  si_attempt_count := si_attempt_count s; si_state := state;
  si_assigned_agent := si_assigned_agent s; si_adapter_used := si_adapter_used s;
  si_record_id := si_record_id s; si_latest_attempt := si_latest_attempt s; si_last_outcome := outcome;
  si_tokens_used := si_tokens_used s; si_cost_usd_micros := si_cost_usd_micros s;
  si_worktree_branch := si_worktree_branch s; si_needs_human_reason := reason |}.

(** A new visit: [visit_count += 1], [attempt_count = 0], no reason. *)
Definition si_visit (s : StepInstance) : StepInstance := {|
  si_step_id := si_step_id s; si_visit_count := wrap_add32 (si_visit_count s) 1;
  si_attempt_count := 0; si_state := si_state s;
  si_assigned_agent := si_assigned_agent s; si_adapter_used := si_adapter_used s;
  si_record_id := si_record_id s; si_latest_attempt := si_latest_attempt s;
  si_last_outcome := si_last_outcome s;
  si_tokens_used := si_tokens_used s; si_cost_usd_micros := si_cost_usd_micros s;
  si_worktree_branch := si_worktree_branch s; si_needs_human_reason := None |}.

Definition wr_account (r : WorkflowRun) (total tokens cost : N) (at_ : At)
  (steps : gmap string StepInstance) : WorkflowRun := {|
  wr_id := wr_id r; wr_workflow_id := wr_workflow_id r; wr_project := wr_project r;
  wr_title := wr_title r; wr_status := wr_status r; wr_active_steps := wr_active_steps r;
  wr_steps := steps; wr_total_steps_executed := total; wr_total_tokens := tokens;
  wr_total_cost_usd_micros := cost; wr_created_at := wr_created_at r; wr_updated_at := at_;
  wr_by := wr_by r |}.

Definition wr_move (r : WorkflowRun) (status : WorkflowRunStatus) (active : list string)
  (steps : gmap string StepInstance) : WorkflowRun := {|
  wr_id := wr_id r; wr_workflow_id := wr_workflow_id r; wr_project := wr_project r;
  wr_title := wr_title r; wr_status := status; wr_active_steps := active; wr_steps := steps;
  wr_total_steps_executed := wr_total_steps_executed r; wr_total_tokens := wr_total_tokens r;
  wr_total_cost_usd_micros := wr_total_cost_usd_micros r; wr_created_at := wr_created_at r;
  wr_updated_at := wr_updated_at r; wr_by := wr_by r |}.

(** ** A new run *)

Definition new_step (def : WorkflowDef) (sd : StepDef) : StepInstance := {|
  si_step_id := sd_step_id sd;
  si_visit_count := (if sd_step_id sd == wd_start_step def then 1 else 0);
  si_attempt_count := 0; si_state := Todo; si_assigned_agent := None; si_adapter_used := None;
  si_record_id := None; si_latest_attempt := None; si_last_outcome := None; si_tokens_used := 0;
  si_cost_usd_micros := 0; si_worktree_branch := None; si_needs_human_reason := None |}.

(** [WorkflowRun::new] *)
Definition WorkflowRun_new (id : Iri) (def : WorkflowDef) (title : string) (at_ : At) (by_ : string)
  : Result WorkflowRun WorkflowError :=
  let? _ := validate_workflow_def def in
  if is_blank title then Err WEmptyTitle
  else Ok {|
    wr_id := id; wr_workflow_id := wd_id def; wr_project := wd_project def; wr_title := title;
    wr_status := RSRunning; wr_active_steps := [wd_start_step def];
    wr_steps := foldl (fun m sd => <[sd_step_id sd := new_step def sd]> m) ∅ (wd_steps def);
    wr_total_steps_executed := 0; wr_total_tokens := 0; wr_total_cost_usd_micros := 0;
    wr_created_at := at_; wr_updated_at := at_; wr_by := by_ |}.

(** ** The scheduler *)

Definition find_step (def : WorkflowDef) (id : string) : option StepDef :=
  List.find (fun s => sd_step_id s == id) (wd_steps def).

(** [edge_matches] *)
Definition edge_matches (on : EdgeCondition) (outcome : StepOutcome) : bool :=
  match on with
  | OnAlways => true
  | OnPass => outcome == SPass
  | OnFail => outcome == SFail
  | OnNeedsHuman => outcome == SNeedsHuman
  end.

Definition is_sign_off_resolution (step : StepInstance) (report : StepAttemptReport) : bool :=
  (si_state step == NeedsHuman) && (0 <? si_attempt_count step) && is_none (ra_attempt_iri report)
  && (ra_tokens_used report =? 0) && (ra_cost_usd_micros report =? 0).

(** Step 1: count the attempt and its spend, on the step and on the run. *)
Definition account_step (step : StepInstance) (report : StepAttemptReport) : StepInstance :=
  si_account step
    (if is_sign_off_resolution step report then si_attempt_count step
     else wrap_add32 (si_attempt_count step) 1)
    (sat_add64 (si_tokens_used step) (ra_tokens_used report))
    (sat_add64 (si_cost_usd_micros step) (ra_cost_usd_micros report))
    (if is_some (ra_attempt_iri report) then ra_attempt_iri report else si_latest_attempt step).

Definition account_run (run : WorkflowRun) (step : StepInstance) (report : StepAttemptReport) (at_ : At)
  : WorkflowRun :=
  wr_account run
    (if is_sign_off_resolution step report then wr_total_steps_executed run
     else wrap_add32 (wr_total_steps_executed run) 1)
    (sat_add64 (wr_total_tokens run) (ra_tokens_used report))
    (sat_add64 (wr_total_cost_usd_micros run) (ra_cost_usd_micros report))
    at_ (<[ra_step_id report := account_step step report]> (wr_steps run)).

Definition over (limit : option N) (spent : N) : bool := is_some_and limit (fun l => l <? spent).

(** Step 2: the first ceiling that was crossed. *)
Definition ceiling_reason (def : WorkflowDef) (sd : StepDef) (run : WorkflowRun) (step : StepInstance)
  : option string :=
  if wd_max_total_steps def <? wr_total_steps_executed run
  then Some ("workflow exceeded max_total_steps (" +:+ pretty (wd_max_total_steps def) +:+ ")")
  else if over (wd_budget_usd_micros def) (wr_total_cost_usd_micros run)
  then Some ("workflow exceeded budget_usd_micros (" +:+ pretty (unwrap_or (wd_budget_usd_micros def) 0) +:+ ")")
  else if over (wd_max_tokens def) (wr_total_tokens run)
  then Some ("workflow exceeded max_tokens (" +:+ pretty (unwrap_or (wd_max_tokens def) 0) +:+ ")")
  else if over (sd_budget_usd_micros sd) (si_cost_usd_micros step)
  then Some ("step `" +:+ sd_step_id sd +:+ "` exceeded budget_usd_micros (" +:+
             pretty (unwrap_or (sd_budget_usd_micros sd) 0) +:+ ")")
  else if over (sd_max_tokens sd) (si_tokens_used step)
  then Some ("step `" +:+ sd_step_id sd +:+ "` exceeded max_tokens (" +:+
             pretty (unwrap_or (sd_max_tokens sd) 0) +:+ ")")
  else None.

(** Write one step's outcome and the run's status. *)
Definition settle (run : WorkflowRun) (status : WorkflowRunStatus) (id : string) (step : StepInstance)
  (state : State) (outcome : StepOutcome) (reason : option string) : WorkflowRun :=
  wr_move run status (wr_active_steps run) (<[id := si_settle step state (Some outcome) reason]> (wr_steps run)).

Definition is_human_sign_off (sd : StepDef) : bool :=
  match sd_completion sd with HumanSignOff _ => true | _ => false end.

Definition hold_reason (sd : StepDef) : string :=
  match sd_completion sd with
  | HumanSignOff tier => "awaiting " +:+ ApprovalTier_as_wire tier +:+ " sign-off"
  | _ => "step requested human intervention"
  end.

(** Step 5, one matching edge: is the join of its target satisfied? *)
Definition is_done (run : WorkflowRun) (id : string) : bool :=
  is_some_and (wr_steps run !! id) (fun s => si_state s == Done).

Definition join_satisfied (def : WorkflowDef) (run : WorkflowRun) (reported : string) (visit : N)
  (edge : EdgeDef) (target : StepDef) : bool :=
  if (ed_on edge == OnFail) || (ed_on edge == OnNeedsHuman) then true
  else
    let incoming_preds := ed_from_step <$>
      List.filter (fun e => (ed_to_step e == ed_to_step edge)
                            && ((ed_on e == OnPass) || (ed_on e == OnAlways))) (wd_edges def) in
    let done_count := len (List.filter (fun p => (p == reported) || is_done run p) incoming_preds) in
    let target_visit := match wr_steps run !! ed_to_step edge with
                        | Some s => si_visit_count s | None => 0 end in
    match sd_join_policy target with
    | JAll => done_count =? len incoming_preds
    | JAny => (1 <=? done_count) && (target_visit <? visit)
    | JNOfM required => (required <=? done_count) && (target_visit <? visit)
    end.

(** Step 5, one matching edge: activate its target. *)
Definition activate (run : WorkflowRun) (id : string) (target : StepDef) (step : StepInstance) : WorkflowRun :=
  let visited := si_visit step in
  if sd_max_visits target <? si_visit_count visited then
    wr_move run RSNeedsHuman (wr_active_steps run ++ [id])
      (<[id := si_settle visited NeedsHuman (Some SNeedsHuman)
                 (Some ("step `" +:+ id +:+ "` exceeded max_visits (" +:+ pretty (sd_max_visits target) +:+ ")"))]>
         (wr_steps run))
  else
    wr_move run (wr_status run) (wr_active_steps run ++ [id])
      (<[id := si_settle visited Todo (si_last_outcome visited) (si_needs_human_reason visited)]> (wr_steps run)).

Definition follow_edge (def : WorkflowDef) (reported : string) (visit : N)
  (st : WorkflowRun * bool) (edge : EdgeDef) : Result (WorkflowRun * bool) Fault :=
  let '(run, saw_end) := st in
  if ed_to_step edge == END_STEP then Ok (run, true)
  else
    match find_step def (ed_to_step edge) with
    | None => Err (Panic "validate_workflow_def guarantees edge target exists")
    | Some target =>
        if join_satisfied def run reported visit edge target
           && negb (contains (wr_active_steps run) (ed_to_step edge))
        then
          match wr_steps run !! ed_to_step edge with
          | None => Err (Panic "target step exists in run.steps")
          | Some step => Ok (activate run (ed_to_step edge) target step, saw_end)
          end
        else Ok (run, saw_end)
    end.

(** The prune at the end: an active step is kept unless all its edges feed
    joins that are already done. *)
Definition feeds_done_join (def : WorkflowDef) (run : WorkflowRun) (e : EdgeDef) : bool :=
  (ed_to_step e != END_STEP)
  && existsb (fun s => (sd_step_id s == ed_to_step e)
                       && match sd_join_policy s with JAll => false | _ => true end) (wd_steps def)
  && is_some_and (wr_steps run !! ed_to_step e) (fun s => (0 <? si_visit_count s) && (si_state s == Done)).

Definition keep_active (def : WorkflowDef) (run : WorkflowRun) (id : string) : bool :=
  let outgoing := List.filter (fun e => ed_from_step e == id) (wd_edges def) in
  if len outgoing =? 0 then true else negb (forallb (feeds_done_join def run) outgoing).

Definition finish (def : WorkflowDef) (run : WorkflowRun) (saw_end : bool) : WorkflowRun :=
  if saw_end then
    let active := List.filter (keep_active def run) (wr_active_steps run) in
    let status := if (len active =? 0) && (wr_status run == RSRunning) then RSCompleted else wr_status run in
    wr_move run status active (wr_steps run)
  else run.

(** Steps 4 and 5 after the reported step is settled: leave [NeedsHuman]
    when nothing active waits for a human any more. *)
Definition waits_human (run : WorkflowRun) (id : string) : bool :=
  is_some_and (wr_steps run !! id) (fun s => si_state s == NeedsHuman).

Definition outcome_state (o : StepOutcome) : State :=
  match o with SPass => Done | SFail => Review | SNeedsHuman => NeedsHuman end.

Definition leave_step (run : WorkflowRun) (step : StepInstance) (report : StepAttemptReport)
  (effective : StepOutcome) : WorkflowRun :=
  let id := ra_step_id report in
  let active := List.filter (fun s => s != id) (wr_active_steps run) in
  let steps := <[id := si_settle step (outcome_state effective) (Some effective)
                   (if effective == SNeedsHuman then ra_reason report else None)]> (wr_steps run) in
  let left := wr_move run (wr_status run) active steps in
  if (wr_status run == RSNeedsHuman) && negb (existsb (waits_human left) active)
  then wr_move left RSRunning active steps else left.

Definition route (def : WorkflowDef) (run : WorkflowRun) (report : StepAttemptReport) (visit : N)
  (effective : StepOutcome) : Result WorkflowRun Fault :=
  let matching := List.filter (fun e => (ed_from_step e == ra_step_id report)
                                        && edge_matches (ed_on e) effective) (wd_edges def) in
  if len matching =? 0 then
    Ok (if (effective == SFail) && (len (wr_active_steps run) =? 0)
        then wr_move run RSFailed (wr_active_steps run) (wr_steps run) else run)
  else
    let? st := for_fold (follow_edge def (ra_step_id report) visit) (run, false) matching in
    Ok (finish def st.1 st.2).

(** [advance_workflow] *)
Definition advance_workflow (def : WorkflowDef) (run : WorkflowRun) (report : StepAttemptReport) (at_ : At)
  : Result WorkflowRun Fault :=
  let id := ra_step_id report in
  if run_terminal (wr_status run) then Err (Refusal (WRunNotRunning (wr_status run)))
  else
    match find_step def id with
    | None => Err (Refusal (WUnknownStep id))
    | Some sd =>
        if negb (contains (wr_active_steps run) id) then Err (Refusal (WStepNotActive id))
        else
          match wr_steps run !! id with
          | None => Err (Refusal (WUnknownStep id))
          | Some before =>
              let was_needs_human := si_state before == NeedsHuman in
              let step := account_step before report in
              let run := account_run run before report at_ in
              match ceiling_reason def sd run step with
              | Some reason => Ok (settle run RSNeedsHuman id step NeedsHuman SNeedsHuman (Some reason))
              | None =>
                  if negb was_needs_human && (ra_outcome report == SFail)
                     && (si_attempt_count step <? sd_max_attempts sd)
                  then Ok (settle run (wr_status run) id step Todo SFail (ra_reason report))
                  else
                    let hold := negb was_needs_human && (ra_outcome report == SPass) && is_human_sign_off sd in
                    let has_needs_human_edge :=
                      existsb (fun e => (ed_from_step e == id) && (ed_on e == OnNeedsHuman)) (wd_edges def) in
                    if ((ra_outcome report == SNeedsHuman) || hold) && negb has_needs_human_edge
                    then Ok (settle run RSNeedsHuman id step NeedsHuman SNeedsHuman
                               (option_or (ra_reason report) (Some (hold_reason sd))))
                    else
                      let effective := if hold then SNeedsHuman else ra_outcome report in
                      route def (leave_step run step report effective) report (si_visit_count step) effective
              end
          end
    end.

(** [preflight_ceiling] *)
Definition at_least (limit : option N) (spent : N) : bool := is_some_and limit (fun l => l <=? spent).

Definition preflight_ceiling (def : WorkflowDef) (run : WorkflowRun) (id : string) : option string :=
  if wd_max_total_steps def <=? wr_total_steps_executed run
  then Some ("workflow reached max_total_steps (" +:+ pretty (wd_max_total_steps def) +:+ ")")
  else if at_least (wd_budget_usd_micros def) (wr_total_cost_usd_micros run)
  then Some ("workflow reached budget_usd_micros (" +:+ pretty (unwrap_or (wd_budget_usd_micros def) 0) +:+ ")")
  else if at_least (wd_max_tokens def) (wr_total_tokens run)
  then Some ("workflow reached max_tokens (" +:+ pretty (unwrap_or (wd_max_tokens def) 0) +:+ ")")
  else
    match find_step def id, wr_steps run !! id with
    | Some sd, Some step =>
        if at_least (sd_budget_usd_micros sd) (si_cost_usd_micros step)
        then Some ("step `" +:+ id +:+ "` reached budget_usd_micros (" +:+
                   pretty (unwrap_or (sd_budget_usd_micros sd) 0) +:+ ")")
        else if at_least (sd_max_tokens sd) (si_tokens_used step)
        then Some ("step `" +:+ id +:+ "` reached max_tokens (" +:+
                   pretty (unwrap_or (sd_max_tokens sd) 0) +:+ ")")
        else None
    | _, _ => None
    end.

(** ** Well-formed runs *)

Record wf_core (def : WorkflowDef) (run : WorkflowRun) : Prop := {
  wc_dom : ∀ id, is_Some (wr_steps run !! id) ↔ id ∈ step_ids def;
  wc_nodup : NoDup (wr_active_steps run);
  wc_active : ∀ id, id ∈ wr_active_steps run → id ∈ step_ids def;
}.

(** A terminal run has nothing active. *)
Definition wf_run (def : WorkflowDef) (run : WorkflowRun) : Prop :=
  wf_core def run ∧ (run_terminal (wr_status run) = true → wr_active_steps run = []).

(** What routing never changes: the totals, each step's spend, and that no
    step becomes done. *)
Record evolves (run run' : WorkflowRun) : Prop := {
  ev_total : wr_total_steps_executed run' = wr_total_steps_executed run;
  ev_tokens : wr_total_tokens run' = wr_total_tokens run;
  ev_cost : wr_total_cost_usd_micros run' = wr_total_cost_usd_micros run;
  ev_done : ∀ id, is_done run' id = true → is_done run id = true;
  ev_spend : ∀ id s', wr_steps run' !! id = Some s' →
    ∃ s, wr_steps run !! id = Some s ∧ si_tokens_used s' = si_tokens_used s
         ∧ si_cost_usd_micros s' = si_cost_usd_micros s;
}.

Lemma evolves_refl run : evolves run run.
Proof. constructor; eauto. Qed.

Lemma evolves_trans a b c : evolves a b → evolves b c → evolves a c.
Proof.
  intros [] []. constructor; try congruence; [by auto|].
  intros id s' Hs. destruct (ev_spend1 id s' Hs) as (s1 & Hs1 & ? & ?).
  destruct (ev_spend0 id s1 Hs1) as (s0 & ? & ? & ?). exists s0. split_and!; congruence.
Qed.

Lemma evolves_same_steps run status active :
  evolves run (wr_move run status active (wr_steps run)).
Proof. constructor; cbn; eauto. Qed.

(** Replacing one step by one that is not done and spent the same. *)
Lemma evolves_insert run status active id s s' :
  wr_steps run !! id = Some s → si_state s' ≠ Done →
  si_tokens_used s' = si_tokens_used s → si_cost_usd_micros s' = si_cost_usd_micros s →
  evolves run (wr_move run status active (<[id := s']> (wr_steps run))).
Proof.
  intros Hs Hd Ht Hc. constructor; cbn; try done.
  - intros id'. unfold is_done. cbn. destruct (decide (id' = id)) as [->|Hne].
    + rewrite lookup_insert_eq. cbn. intros ?%bool_decide_eq_true. done.
    + by rewrite lookup_insert_ne.
  - intros id' x. destruct (decide (id' = id)) as [->|Hne].
    + rewrite lookup_insert_eq. intros [= <-]. eauto.
    + rewrite lookup_insert_ne by done. eauto.
Qed.

Lemma find_step_some def id sd : find_step def id = Some sd → sd ∈ wd_steps def ∧ sd_step_id sd = id.
Proof. intros [? ?%bool_decide_eq_true]%find_elem. done. Qed.

Lemma find_step_known def id : id ∈ step_ids def → ∃ sd, find_step def id = Some sd.
Proof.
  intros (sd & -> & Hs)%list_elem_of_fmap. unfold find_step.
  destruct (List.find _ _) eqn:E; [eauto|]. eapply find_none in E; [|exact Hs].
  apply bool_decide_eq_false in E. done.
Qed.

(** *** One edge, then all of them *)

Lemma activate_core def run id target step :
  wf_core def run → wr_steps run !! id = Some step → id ∉ wr_active_steps run →
  wf_core def (activate run id target step) ∧ evolves run (activate run id target step).
Proof.
  intros [Hdom Hnd Hact] Hs Hn.
  assert (∀ status s', wf_core def (wr_move run status (wr_active_steps run ++ [id]) (<[id := s']> (wr_steps run)))) as Hwf.
  { intros status s'. constructor; cbn.
    - intros id'. rewrite <- Hdom. destruct (decide (id' = id)) as [->|Hne];
        [rewrite lookup_insert_eq, Hs|rewrite lookup_insert_ne by done]; naive_solver.
    - apply NoDup_app. split_and!; [done|set_solver|apply NoDup_singleton].
    - intros id' [?|Hi]%elem_of_app; [auto|]. apply list_elem_of_singleton in Hi as ->. apply Hdom. eauto. }
  unfold activate. destruct (_ <? _); (split; [apply Hwf|by apply (evolves_insert _ _ _ _ step)]).
Qed.

Lemma follow_edge_ok def run reported visit saw e :
  wf_def def → wf_core def run → e ∈ wd_edges def →
  ∃ run' saw', follow_edge def reported visit (run, saw) e = Ok (run', saw')
    ∧ wf_core def run' ∧ evolves run run'
    ∧ (wr_status run' = wr_status run ∨ wr_status run' = RSNeedsHuman).
Proof.
  intros Hdef Hwf He. unfold follow_edge. case_bool_decide as Hend; [eauto 10 using evolves_refl|].
  destruct (wf_edges _ Hdef e He) as [_ [?|Hto]]; [done|].
  destruct (find_step_known def _ Hto) as [target ->].
  destruct (_ && _) eqn:Hj; [|eauto 10 using evolves_refl].
  apply andb_true_iff in Hj as [_ Hj%negb_true_iff%contains_false].
  destruct (proj2 (wc_dom _ _ Hwf _) Hto) as [step Hs]. rewrite Hs. eexists _, _. split; [done|].
  destruct (activate_core def run _ target step Hwf Hs Hj). split_and!; [done..|].
  unfold activate. destruct (_ <? _); cbn; auto.
Qed.

Lemma follow_edges_ok def reported visit edges run saw :
  wf_def def → wf_core def run → edges ⊆ wd_edges def →
  ∃ run' saw', for_fold (follow_edge def reported visit) (run, saw) edges = Ok (run', saw')
    ∧ wf_core def run' ∧ evolves run run'
    ∧ (wr_status run' = wr_status run ∨ wr_status run' = RSNeedsHuman).
Proof.
  intros Hdef. revert run saw. induction edges as [|e edges IH]; intros run saw Hwf Hsub; cbn [for_fold].
  { eauto 10 using evolves_refl. }
  destruct (follow_edge_ok def run reported visit saw e Hdef Hwf ltac:(set_solver))
    as (run1 & saw1 & -> & Hwf1 & Hev1 & Hst1). cbn [result_bind].
  destruct (IH run1 saw1 Hwf1 ltac:(set_solver)) as (run2 & saw2 & -> & Hwf2 & Hev2 & Hst2).
  exists run2, saw2. split_and!; [done..|by eapply evolves_trans|].
  destruct Hst2 as [->|]; [done|auto].
Qed.

Lemma finish_core def run saw :
  wf_core def run → run_terminal (wr_status run) = false →
  wf_run def (finish def run saw) ∧ evolves run (finish def run saw).
Proof.
  intros [Hdom Hnd Hact] Hst. unfold finish. destruct saw; cycle 1.
  { split; [split; [done|by rewrite Hst]|apply evolves_refl]. }
  split; [|apply evolves_same_steps]. split.
  - constructor; cbn; [done| |].
    + by apply NoDup_filter_bool.
    + intros id [? _]%filter_elem. auto.
  - cbn. destruct (_ && _) eqn:E; [|congruence].
    apply andb_true_iff in E as [E%N.eqb_eq _]. intros _. unfold len in E.
    destruct (List.filter _ _); [done|]. cbn in E. lia.
Qed.

(** *** The reported step *)

Lemma insert_core def run status active id s s' :
  wf_core def run → wr_steps run !! id = Some s → NoDup active → active ⊆ wr_active_steps run →
  wf_core def (wr_move run status active (<[id := s']> (wr_steps run))).
Proof.
  intros [Hdom Hnd Hact] Hs Hnd' Hsub. constructor; cbn; [|done|].
  - intros id'. rewrite <- Hdom. destruct (decide (id' = id)) as [->|Hne];
      [rewrite lookup_insert_eq, Hs|rewrite lookup_insert_ne by done]; naive_solver.
  - intros id' Hi. apply Hact, Hsub, Hi.
Qed.

Lemma account_core def run before report at_ :
  wf_core def run → wr_steps run !! ra_step_id report = Some before →
  wf_core def (account_run run before report at_)
  ∧ wr_steps (account_run run before report at_) !! ra_step_id report = Some (account_step before report).
Proof.
  intros Hwf Hs. split; [|cbn; apply lookup_insert_eq].
  pose proof (insert_core def run (wr_status run) (wr_active_steps run) _ before
    (account_step before report) Hwf Hs (wc_nodup _ _ Hwf) ltac:(done)) as [].
  constructor; done.
Qed.

Lemma leave_step_core def run step report effective :
  wf_core def run → wr_steps run !! ra_step_id report = Some step → run_terminal (wr_status run) = false →
  let left := leave_step run step report effective in
  wf_core def left ∧ run_terminal (wr_status left) = false
  ∧ wr_steps left = <[ra_step_id report := si_settle step (outcome_state effective) (Some effective)
                        (if effective == SNeedsHuman then ra_reason report else None)]> (wr_steps run)
  ∧ wr_total_steps_executed left = wr_total_steps_executed run
  ∧ wr_total_tokens left = wr_total_tokens run
  ∧ wr_total_cost_usd_micros left = wr_total_cost_usd_micros run.
Proof.
  intros Hwf Hs Hst. unfold leave_step. cbn zeta.
  set (active := List.filter _ _). set (steps := <[_ := _]> _).
  assert (∀ status, wf_core def (wr_move run status active steps)) as Hcore.
  { intros status. apply (insert_core def _ _ _ _ step); [done|done|apply NoDup_filter_bool, Hwf|].
    intros x [? _]%filter_elem. done. }
  destruct (_ && _); (split; [|done]); [exact (Hcore RSRunning)|exact (Hcore (wr_status run))].
Qed.

Lemma route_ok def run report visit effective :
  wf_def def → wf_core def run → run_terminal (wr_status run) = false →
  ∃ run', route def run report visit effective = Ok run' ∧ wf_run def run' ∧ evolves run run'.
Proof.
  intros Hdef Hwf Hst. unfold route. destruct (len _ =? 0) eqn:Hm.
  { eexists. split; [done|]. destruct (_ && _) eqn:Hf.
    - split; [|apply evolves_same_steps]. split; [destruct Hwf; constructor; done|].
      intros _. apply andb_true_iff in Hf as [_ Hf%N.eqb_eq]. unfold len in Hf. cbn.
      destruct (wr_active_steps run); [done|cbn in Hf; lia].
    - split; [split; [done|congruence]|apply evolves_refl]. }
  destruct (follow_edges_ok def (ra_step_id report) visit
    (List.filter (fun e => (ed_from_step e == ra_step_id report) && edge_matches (ed_on e) effective) (wd_edges def))
    run false Hdef Hwf) as (run1 & saw & -> & Hwf1 & Hev & Hs).
  { intros e [? _]%filter_elem. done. }
  cbn. destruct (finish_core def run1 saw Hwf1) as [? ?].
  { destruct Hs as [->| ->]; done. }
  eexists. split_and!; [done..|by eapply evolves_trans].
Qed.

(** How an accepted report ends. *)
Lemma advance_cases def run report at_ run' :
  advance_workflow def run report at_ = Ok run' →
  ∃ sd before, find_step def (ra_step_id report) = Some sd
    ∧ run_terminal (wr_status run) = false ∧ ra_step_id report ∈ wr_active_steps run
    ∧ wr_steps run !! ra_step_id report = Some before
    ∧ let step := account_step before report in
      let run1 := account_run run before report at_ in
      let id := ra_step_id report in
      ((∃ reason, ceiling_reason def sd run1 step = Some reason
          ∧ run' = settle run1 RSNeedsHuman id step NeedsHuman SNeedsHuman (Some reason))
       ∨ (ceiling_reason def sd run1 step = None
          ∧ ((∃ reason, run' = settle run1 (wr_status run1) id step Todo SFail reason)
             ∨ (∃ reason, run' = settle run1 RSNeedsHuman id step NeedsHuman SNeedsHuman reason)
             ∨ ∃ effective,
                 route def (leave_step run1 step report effective) report (si_visit_count step) effective = Ok run'
                 ∧ (effective = SPass → ra_outcome report = SPass
                      ∧ (is_human_sign_off sd = true → si_state before = NeedsHuman))))).
Proof.
  unfold advance_workflow. destruct (run_terminal _) eqn:Ht; [done|].
  destruct (find_step _ _) as [sd|] eqn:Hf; [|done].
  destruct (contains _ _) eqn:Hc; [|done]. apply contains_spec in Hc.
  destruct (wr_steps run !! _) as [before|] eqn:Hs; [|done]. cbn zeta. cbn [negb].
  intros H. exists sd, before. split_and!; [done..|]. revert H.
  destruct (ceiling_reason _ _ _ _) as [reason|] eqn:Hr; [intros [= <-]; left; eauto|].
  destruct (_ && (_ <? _)) eqn:Hretry; [intros [= <-]; right; split; [done|]; left; eauto|].
  set (hold := negb _ && _ && is_human_sign_off sd) in *.
  destruct (_ && negb (existsb _ _)) eqn:Hhold; [intros [= <-]; right; split; [done|]; right; left; eauto|].
  intros H. right. split; [done|]. right; right.
  exists (if hold then SNeedsHuman else ra_outcome report). split; [done|].
  destruct hold eqn:Hh; [done|]. intros Ho. split; [done|]. intros Hsign.
  subst hold. rewrite Hsign, Ho, (bool_decide_eq_true_2 (SPass = SPass)), !andb_true_r in Hh by done.
  apply negb_false_iff, bool_decide_eq_true in Hh. done.
Qed.

(** ** What the scheduler guarantees *)

Lemma settle_wf def run status id step state outcome reason s0 :
  wf_core def run → wr_steps run !! id = Some s0 → run_terminal status = false →
  wf_run def (settle run status id step state outcome reason).
Proof.
  intros Hwf Hs Ht. split; [|cbn; congruence].
  by apply (insert_core def _ _ _ _ s0); [| |apply Hwf|].
Qed.

Lemma advance_total def run report at_ (Hdef : wf_def def) (Hrun : wf_run def run) :
  match advance_workflow def run report at_ with
  | Ok run' => wf_run def run' ∧ run_terminal (wr_status run) = false
               ∧ ra_step_id report ∈ wr_active_steps run
  | Err (Refusal e) => run_terminal (wr_status run) = true ∨ ra_step_id report ∉ wr_active_steps run
  | Err (Panic _) => False
  end.
Proof.
  destruct Hrun as [Hwf _]. unfold advance_workflow.
  destruct (run_terminal _) eqn:Ht; [auto|].
  destruct (contains _ _) eqn:Hc; [apply contains_spec in Hc|apply contains_false in Hc];
    [|by destruct (find_step _ _); right].
  destruct (find_step_known def (ra_step_id report)) as [sd ->]; [by apply (wc_active _ _ Hwf)|].
  destruct (proj2 (wc_dom _ _ Hwf (ra_step_id report))) as [before Hs]; [by apply (wc_active _ _ Hwf)|].
  rewrite Hs. cbn [negb]. destruct (account_core def run before report at_ Hwf Hs) as [Hwf1 Hs1].
  destruct (ceiling_reason _ _ _ _); [split; [by eapply settle_wf|done]|].
  do 2 (match goal with |- context [if ?b then Ok (settle _ _ _ _ _ _ _) else _] => destruct b end;
    [split; [by eapply settle_wf|done]|]).
  match goal with |- context [leave_step ?r ?s ?p ?e] =>
    destruct (leave_step_core def r s p e Hwf1 Hs1 Ht) as (Hwf2 & Ht2 & _) end.
  match goal with |- context [route def ?r ?p ?v ?e] =>
    destruct (route_ok def r p v e Hdef Hwf2 Ht2) as (run' & -> & Hwf' & _) end.
  done.
Qed.

(** The scheduler is total and safe on a valid definition: from a
    well-formed run it accepts exactly the reports on active steps of a run
    that is not terminal, the new run is well-formed again, every refusal is
    of one of the other reports, and none of the source's [expect]s can
    panic. (C3) *)
Theorem advance_safe def run report at_ (Hdef : wf_def def) (Hrun : wf_run def run) :
  match advance_workflow def run report at_ with
  | Ok run' => wf_run def run' ∧ run_terminal (wr_status run) = false
               ∧ ra_step_id report ∈ wr_active_steps run
  | Err (Refusal e) => run_terminal (wr_status run) = true ∨ ra_step_id report ∉ wr_active_steps run
  | Err (Panic _) => False
  end.
Proof. by apply advance_total. Qed.

Lemma is_done_settle run status id step state outcome reason x :
  state ≠ Done → is_done (settle run status id step state outcome reason) x = true → is_done run x = true.
Proof.
  intros Hd. unfold is_done, settle. cbn. destruct (decide (x = id)) as [->|Hne].
  - rewrite lookup_insert_eq. cbn. by intros ?%bool_decide_eq_true.
  - by rewrite lookup_insert_ne.
Qed.

Lemma is_done_account run before report at_ x :
  wr_steps run !! ra_step_id report = Some before →
  is_done (account_run run before report at_) x = is_done run x.
Proof.
  intros Hs. unfold is_done, account_run. cbn. destruct (decide (x = ra_step_id report)) as [->|Hne].
  - by rewrite lookup_insert_eq, Hs.
  - by rewrite lookup_insert_ne.
Qed.

(** A step is done only by its own passing report: a step that was not done
    before and is done after is the reported one, its report said pass, no
    ceiling was crossed, and a step that needs a human's sign-off was already
    waiting for it. *)
Theorem done_only_on_own_pass def run report at_ run' id
  (Hdef : wf_def def) (Hrun : wf_run def run)
  (Hadv : advance_workflow def run report at_ = Ok run')
  (Hbefore : is_done run id = false) (Hafter : is_done run' id = true) :
  id = ra_step_id report ∧ ra_outcome report = SPass
  ∧ ∃ sd before, find_step def id = Some sd ∧ wr_steps run !! id = Some before
      ∧ (is_human_sign_off sd = true → si_state before = NeedsHuman).
Proof.
  destruct (advance_cases _ _ _ _ _ Hadv) as (sd & before & Hf & Ht & Hact & Hs & Hcases). cbn zeta in Hcases.
  destruct Hrun as [Hwf _]. destruct (account_core def run before report at_ Hwf Hs) as [Hwf1 Hs1].
  rewrite <- (is_done_account _ _ _ at_ _ Hs) in Hbefore.
  destruct Hcases as [(reason & _ & ->)|(_ & [(reason & ->)|[(reason & ->)|(eff & Hroute & Hpass)]])].
  1-3: apply is_done_settle in Hafter; [congruence|done].
  destruct (leave_step_core def _ _ report eff Hwf1 Hs1 Ht) as (Hwf2 & Ht2 & Hsteps & _).
  destruct (route_ok def _ report (si_visit_count (account_step before report)) eff Hdef Hwf2 Ht2)
    as (run2 & Hr & _ & Hev). rewrite Hr in Hroute. simplify_eq.
  apply (ev_done _ _ Hev) in Hafter. unfold is_done in Hafter. rewrite Hsteps in Hafter.
  destruct (decide (id = ra_step_id report)) as [->|Hne]; cycle 1.
  { rewrite lookup_insert_ne in Hafter by done. unfold is_done in Hbefore. congruence. }
  rewrite lookup_insert_eq in Hafter. cbn in Hafter. apply bool_decide_eq_true in Hafter.
  destruct eff; try done. destruct (Hpass eq_refl). split_and!; [done..|eauto].
Qed.

(** The spend of a run and of the step that was reported are within what
    the definition allows. *)
Definition within_ceilings (def : WorkflowDef) (sd : StepDef) (run : WorkflowRun) (id : string) : Prop :=
  wr_total_steps_executed run ≤ wd_max_total_steps def
  ∧ (∀ b, wd_budget_usd_micros def = Some b → wr_total_cost_usd_micros run ≤ b)
  ∧ (∀ t, wd_max_tokens def = Some t → wr_total_tokens run ≤ t)
  ∧ (∀ b s, sd_budget_usd_micros sd = Some b → wr_steps run !! id = Some s → si_cost_usd_micros s ≤ b)
  ∧ (∀ t s, sd_max_tokens sd = Some t → wr_steps run !! id = Some s → si_tokens_used s ≤ t).

Lemma over_false limit spent : over limit spent = false → ∀ l, limit = Some l → spent ≤ l.
Proof. unfold over. intros H l ->. cbn in H. bool_prop. done. Qed.

Lemma ceiling_none def sd run step :
  ceiling_reason def sd run step = None →
  wr_total_steps_executed run ≤ wd_max_total_steps def
  ∧ (∀ b, wd_budget_usd_micros def = Some b → wr_total_cost_usd_micros run ≤ b)
  ∧ (∀ t, wd_max_tokens def = Some t → wr_total_tokens run ≤ t)
  ∧ (∀ b, sd_budget_usd_micros sd = Some b → si_cost_usd_micros step ≤ b)
  ∧ (∀ t, sd_max_tokens sd = Some t → si_tokens_used step ≤ t).
Proof.
  unfold ceiling_reason. destruct (_ <? _) eqn:H1; [discriminate|].
  destruct (over (wd_budget_usd_micros def) _) eqn:H2; [discriminate|].
  destruct (over (wd_max_tokens def) _) eqn:H3; [discriminate|].
  destruct (over (sd_budget_usd_micros sd) _) eqn:H4; [discriminate|].
  destruct (over (sd_max_tokens sd) _) eqn:H5; [discriminate|]. bool_prop.
  intros _. split_and!; [done|refine (over_false _ _ _); assumption..].
Qed.

Lemma within_evolves def sd run run' step id :
  ceiling_reason def sd run step = None → wr_steps run !! id = Some step → evolves run run' →
  within_ceilings def sd run' id.
Proof.
  intros (C1 & C2 & C3 & C4 & C5)%ceiling_none Hs [Et Ek Ec _ Es].
  unfold within_ceilings. rewrite Et, Ek, Ec. split_and!; try done.
  all: intros l s Hl Hs'; destruct (Es _ _ Hs') as (s0 & Hs0 & Ht & Hc); rewrite Hs in Hs0; simplify_eq.
  - rewrite Hc. auto.
  - rewrite Ht. auto.
Qed.

(** After an accepted report the accounts are the reported ones, and they are
    within the ceilings or the step was escalated. *)
Lemma advance_accounts def run report at_ run' :
  wf_def def → wf_run def run → advance_workflow def run report at_ = Ok run' →
  ∃ sd before, find_step def (ra_step_id report) = Some sd
  ∧ wr_steps run !! ra_step_id report = Some before
  ∧ wr_total_steps_executed run' = wr_total_steps_executed (account_run run before report at_)
  ∧ (within_ceilings def sd run' (ra_step_id report)
     ∨ (wr_status run' = RSNeedsHuman ∧ ra_step_id report ∈ wr_active_steps run'
        ∧ ∃ step reason, wr_steps run' !! ra_step_id report = Some step
            ∧ si_state step = NeedsHuman ∧ si_needs_human_reason step = Some reason)).
Proof.
  intros Hdef [Hwf _] Hadv.
  destruct (advance_cases _ _ _ _ _ Hadv) as (sd & before & Hf & Ht & Hact & Hs & Hcases). cbn zeta in Hcases.
  destruct (account_core def run before report at_ Hwf Hs) as [Hwf1 Hs1].
  exists sd, before. split; [done|]. split; [done|].
  destruct Hcases as [(reason & _ & ->)|(Hc & Hrest)].
  { split; [done|]. right. cbn. split_and!; [done..|]. rewrite lookup_insert_eq. eauto 10. }
  destruct Hrest as [(reason & ->)|[(reason & ->)|(eff & Hroute & _)]].
  1-2: split; [done|left]; eapply within_evolves; [exact Hc|exact Hs1|]; by eapply evolves_insert.
  destruct (leave_step_core def _ _ report eff Hwf1 Hs1 Ht) as (Hwf2 & Ht2 & Hsteps & T1 & T2 & T3).
  destruct (route_ok def _ report (si_visit_count (account_step before report)) eff Hdef Hwf2 Ht2)
    as (run2 & Hr & _ & [Et Ek Ec _ Es]). rewrite Hr in Hroute. simplify_eq.
  apply ceiling_none in Hc as (C1 & C2 & C3 & C4 & C5).
  unfold within_ceilings. rewrite Et, Ek, Ec, T1, T2, T3. split; [done|left]. split_and!; try done.
  all: intros l s Hl Hs'; destruct (Es _ _ Hs') as (s0 & Hs0 & Hx & Hy);
    rewrite Hsteps, lookup_insert_eq in Hs0; simplify_eq; cbn in *.
  - rewrite Hy. auto.
  - rewrite Hx. auto.
Qed.

(** What a report is charged to: the run and the reported step, and nothing else. *)
Lemma advance_books def run report at_ run' :
  wf_def def → wf_run def run → advance_workflow def run report at_ = Ok run' →
  ∃ before after, wr_steps run !! ra_step_id report = Some before ∧ wr_steps run' !! ra_step_id report = Some after
  ∧ wr_total_tokens run' = wr_total_tokens (account_run run before report at_)
  ∧ wr_total_cost_usd_micros run' = wr_total_cost_usd_micros (account_run run before report at_)
  ∧ ∀ x s', wr_steps run' !! x = Some s' → ∃ s, wr_steps (account_run run before report at_) !! x = Some s
      ∧ si_tokens_used s' = si_tokens_used s ∧ si_cost_usd_micros s' = si_cost_usd_micros s.
Proof.
  intros Hdef [Hwf _] Hadv.
  destruct (advance_cases _ _ _ _ _ Hadv) as (sd & before & Hf & Ht & Hact & Hs & Hcases). cbn zeta in Hcases.
  destruct (account_core def run before report at_ Hwf Hs) as [Hwf1 Hs1].
  assert (∀ status state outcome reason, run' = settle (account_run run before report at_) status (ra_step_id report)
    (account_step before report) state outcome reason → state ≠ Done → evolves (account_run run before report at_) run'
    ∧ is_Some (wr_steps run' !! ra_step_id report)) as Hsettle.
  { intros status state outcome reason -> Hd. split; [by eapply evolves_insert|]. cbn. rewrite lookup_insert_eq. by eexists. }
  exists before. destruct Hcases as [(reason & _ & Hrun)|(_ & [(reason & Hrun)|[(reason & Hrun)|(eff & Hroute & _)]])].
  1-3: destruct (Hsettle _ _ _ _ Hrun ltac:(done)) as [[_ E1 E2 _ E3] [after Ha]]; exists after; done.
  destruct (leave_step_core def _ _ report eff Hwf1 Hs1 Ht) as (Hwf2 & Ht2 & Hsteps & _ & T2 & T3).
  destruct (route_ok def _ report (si_visit_count (account_step before report)) eff Hdef Hwf2 Ht2)
    as (run2 & Hr & [Hwf3 _] & [_ Ek Ec _ Es]). rewrite Hr in Hroute. simplify_eq.
  destruct (proj2 (wc_dom _ _ Hwf3 (ra_step_id report)) (proj1 (wc_dom _ _ Hwf _) (mk_is_Some _ _ Hs))) as [after Ha].
  exists after. split_and!; [done|done|congruence|congruence|]. intros x s' Hs'. destruct (Es x s' Hs') as (s0 & Hs0 & Hx & Hy).
  rewrite Hsteps in Hs0. destruct (decide (x = ra_step_id report)) as [->|Hne].
  - rewrite lookup_insert_eq in Hs0. exists (account_step before report). rewrite Hs1. injection Hs0 as <-. done.
  - rewrite lookup_insert_ne in Hs0 by done. eauto.
Qed.

(** Every report is charged, and crossing a ceiling always stops for a human:
    after an accepted report the totals of the run, and the spend of the
    reported step, are what they were plus what the report says (saturating),
    the count of attempts moved by one unless the report resolves a sign-off
    (at the width of [u32]), and no other step was charged; and either these
    totals and this spend are within the definition's limits, or the run and
    the reported step wait for a human, with the step still active and the
    reason written. (C24) *)
Theorem ceilings_escalate def run report at_ run'
  (Hdef : wf_def def) (Hrun : wf_run def run)
  (Hadv : advance_workflow def run report at_ = Ok run') :
  ∃ sd before after, find_step def (ra_step_id report) = Some sd
  ∧ wr_steps run !! ra_step_id report = Some before ∧ wr_steps run' !! ra_step_id report = Some after
  ∧ wr_total_tokens run' = sat_add64 (wr_total_tokens run) (ra_tokens_used report)
  ∧ wr_total_cost_usd_micros run' = sat_add64 (wr_total_cost_usd_micros run) (ra_cost_usd_micros report)
  ∧ si_tokens_used after = sat_add64 (si_tokens_used before) (ra_tokens_used report)
  ∧ si_cost_usd_micros after = sat_add64 (si_cost_usd_micros before) (ra_cost_usd_micros report)
  ∧ wr_total_steps_executed run' =
      (if is_sign_off_resolution before report then wr_total_steps_executed run else wrap_add32 (wr_total_steps_executed run) 1)
  ∧ (∀ x s', x ≠ ra_step_id report → wr_steps run' !! x = Some s' → ∃ s, wr_steps run !! x = Some s
       ∧ si_tokens_used s' = si_tokens_used s ∧ si_cost_usd_micros s' = si_cost_usd_micros s)
  ∧ (within_ceilings def sd run' (ra_step_id report)
     ∨ (wr_status run' = RSNeedsHuman ∧ ra_step_id report ∈ wr_active_steps run'
        ∧ si_state after = NeedsHuman ∧ ∃ reason, si_needs_human_reason after = Some reason)).
Proof.
  destruct (advance_accounts _ _ _ _ _ Hdef Hrun Hadv) as (sd & before & Hf & Hb & Hn & Hceil).
  destruct (advance_books _ _ _ _ _ Hdef Hrun Hadv) as (before' & after & Hb' & Ha & Ht & Hc & Hs).
  rewrite Hb in Hb'. injection Hb' as <-. destruct (Hs _ _ Ha) as (s & Hs0 & Hx & Hy). cbn in Hs0.
  rewrite lookup_insert_eq in Hs0. injection Hs0 as <-. exists sd, before, after. split_and!; try done.
  - intros x s' Hne Hs'. destruct (Hs x s' Hs') as (s & Hs1 & ? & ?). cbn in Hs1. rewrite lookup_insert_ne in Hs1 by done. eauto.
  - destruct Hceil as [?|(? & ? & step & reason & Hst & ? & ?)]; [by left|right]. rewrite Ha in Hst. injection Hst as <-. eauto.
Qed.

(** ** The whole life of a run *)

Lemma new_steps_dom (f : StepDef → StepInstance) l (m : gmap string StepInstance) id :
  is_Some (foldl (fun m sd => <[sd_step_id sd := f sd]> m) m l !! id) ↔ id ∈ sd_step_id <$> l ∨ is_Some (m !! id).
Proof.
  revert m. induction l as [|sd l IH]; intros m; cbn; [set_solver|].
  rewrite IH, elem_of_cons. destruct (decide (id = sd_step_id sd)) as [->|Hne].
  - rewrite lookup_insert_eq. naive_solver.
  - rewrite lookup_insert_ne by done. naive_solver.
Qed.

Lemma WorkflowRun_new_wf id def title at_ by_ run :
  WorkflowRun_new id def title at_ by_ = Ok run →
  wf_def def ∧ wf_run def run ∧ wr_status run = RSRunning ∧ wr_total_steps_executed run = 0.
Proof.
  unfold WorkflowRun_new. intros ([] & Hdef%validate_wf & H)%result_bind_ok.
  destruct (is_blank title); [done|]. injection H as <-. split_and!; [done| |done..].
  split; [|done]. constructor; cbn.
  - intros x. rewrite new_steps_dom, lookup_empty, is_Some_alt. unfold step_ids. naive_solver.
  - apply NoDup_singleton.
  - intros x ->%list_elem_of_singleton. apply Hdef.
Qed.

(** A run and the number of attempts it counted: it starts new, takes
    accepted reports, and between two reports its steps may be edited (an
    agent assigned, a sign-off recorded) without touching the schedule. A
    sign-off is not an attempt. *)
Inductive history (def : WorkflowDef) : WorkflowRun → N → Prop :=
| h_new id title at_ by_ run :
    WorkflowRun_new id def title at_ by_ = Ok run → history def run 0
| h_report run n report at_ before run' :
    history def run n → wr_steps run !! ra_step_id report = Some before →
    advance_workflow def run report at_ = Ok run' →
    history def run' (if is_sign_off_resolution before report then n else n + 1)
| h_edit run n run' :
    history def run n → wr_status run' = wr_status run → wr_active_steps run' = wr_active_steps run →
    wr_total_steps_executed run' = wr_total_steps_executed run →
    (∀ id, is_Some (wr_steps run' !! id) ↔ is_Some (wr_steps run !! id)) →
    history def run' n.

(** A run counts its attempts and stops: over its whole life, from
    [WorkflowRun::new] through any accepted reports and edits, the run stays
    well-formed, its total is exactly the number of attempts that were not
    sign-offs, and unless it waits for a human that number never passes the
    definition's [max_total_steps] (for fewer than [2^32] attempts, where the
    [u32] total would wrap). *)
Theorem attempts_bounded def run n :
  history def run n → wf_def def ∧ (n ≤ u32_max → wf_run def run
    ∧ wr_total_steps_executed run = n
    ∧ (wr_status run ≠ RSNeedsHuman → n ≤ wd_max_total_steps def)).
Proof.
  induction 1 as [id title at_ by_ run Hnew|run n report at_ before run' Hh [Hdef IH] Hs Hadv
                 |run n run' Hh [Hdef IH] Hst Hact Htot Hdom].
  - apply WorkflowRun_new_wf in Hnew as (Hdef & Hwf & Hst & Ht). split; [done|]. intros _.
    split_and!; [done..|]. intros _. lia.
  - split; [done|]. intros Hn.
    destruct (is_sign_off_resolution before report) eqn:Hres;
      (destruct IH as (Hwf & Ht & Hle); [lia|]);
      pose proof (advance_total def run report at_ Hdef Hwf) as Hsafe; rewrite Hadv in Hsafe;
      (destruct (advance_accounts _ _ _ _ _ Hdef Hwf Hadv) as (sd & before' & _ & Hs' & Hacc & Hceil));
      rewrite Hs in Hs'; injection Hs' as <-; cbn in Hacc; rewrite Hres, Ht in Hacc;
      (assert (wr_total_steps_executed run' = (if is_sign_off_resolution before report then n else n + 1)) as Htot
        by (rewrite Hres, Hacc; width; rewrite ?N.mod_small; lia));
      rewrite Hres in Htot; (split_and!; [by destruct Hsafe|done|]);
      intros Hst; (destruct Hceil as [(Hc & _)|[? _]]; [lia|done]).
  - split; [done|]. intros Hn. destruct (IH Hn) as ([[Hd Hnd Ha] Hterm] & Ht & Hle).
    split_and!; [|by rewrite Htot|by rewrite Hst].
    split; [constructor|]; rewrite ?Hact, ?Hst; [|done..]. intros x. by rewrite Hdom, Hd.
Qed.

(** ** Who may work on, and sign off, a step *)

(** [validate_reviewer_independence] *)
Definition validate_reviewer_independence (def : WorkflowDef) (run : WorkflowRun) (step_id : string)
  (candidate_agent : string) (candidate_adapter : option string) : Result unit WorkflowError :=
  let? step_def := ok_or (find_step def step_id) (WUnknownStep step_id) in
  match sd_reviews_step step_def with
  | None => Ok tt
  | Some reviews_step =>
      let upstream := wr_steps run !! reviews_step in
      let candidate_key := to_ascii_lowercase (trim candidate_agent) in
      if is_some_and (upstream ≫= si_assigned_agent) (fun u => eq_ignore_ascii_case u candidate_key)
      then Err (WReviewIndependence (SameAgent step_id reviews_step candidate_key))
      else if sd_require_different_vendor step_def then
        let chosen_adapter := option_or candidate_adapter
          (match sd_assignee step_def with ARSelector _ _ adapter => adapter | _ => None end) in
        match upstream ≫= si_adapter_used, chosen_adapter with
        | Some upstream_vendor, Some cand_vendor =>
            if eq_ignore_ascii_case upstream_vendor (trim cand_vendor)
            then Err (WReviewIndependence
                        (SameVendor step_id reviews_step (to_ascii_lowercase (trim cand_vendor))))
            else Ok tt
        | _, _ => Ok tt
        end
      else Ok tt
  end.

(** [SelectedStepAgent] *)
Record SelectedStepAgent := { sel_agent_name : string; sel_adapter : option string }.

(** The candidate loop of [select_step_agent]: skip the step's own author. *)
Fixpoint first_independent (def : WorkflowDef) (run : WorkflowRun) (step_id : string)
  (adapter : option string) (candidates : list AgentRecord) : Result SelectedStepAgent WorkflowError :=
  match candidates with
  | [] => Err (WNoEligibleAgent step_id)
  | candidate :: rest =>
      match validate_reviewer_independence def run step_id (ag_name_key candidate) adapter with
      | Ok tt => Ok {| sel_agent_name := ag_name_key candidate; sel_adapter := adapter |}
      | Err (WReviewIndependence (SameAgent _ _ _)) => first_independent def run step_id adapter rest
      | Err e => Err e
      end
  end.

Definition selector_admits (role : option AgentRole) (area : option string) (a : AgentRecord) : bool :=
  (ag_status a == Active) && is_none_or role (fun r => ag_role a == r)
  && is_none_or ((fun x => to_ascii_lowercase (trim x)) <$> area) (covers_area a).

(** [select_step_agent] *)
Definition select_step_agent (def : WorkflowDef) (run : WorkflowRun) (step_id : string)
  (agents : list AgentRecord) (override_adapter : option string)
  : Result (option SelectedStepAgent) WorkflowError :=
  let? step_def := ok_or (find_step def step_id) (WUnknownStep step_id) in
  match sd_assignee step_def with
  | ARManual => Ok None
  | ARAgent name =>
      let target := to_ascii_lowercase (trim name) in
      let? agent := ok_or (List.find (fun a => (ag_status a == Active) && (ag_name_key a == target)) agents)
                      (WNoEligibleAgent step_id) in
      let? _ := validate_reviewer_independence def run step_id (ag_name_key agent) override_adapter in
      Ok (Some {| sel_agent_name := ag_name_key agent; sel_adapter := override_adapter |})
  | ARSelector role area adapter =>
      let chosen_adapter := option_or override_adapter adapter in
      let candidates := sort_by (fun a b => str_leb (ag_name_key a) (ag_name_key b))
                          (List.filter (selector_admits role area) agents) in
      let? sel := first_independent def run step_id chosen_adapter candidates in
      Ok (Some sel)
  end.

(** The owner's key; a blank login is the default one. *)
Definition owner_key (owner_login : string) : string :=
  if is_blank owner_login then DEFAULT_OWNER_LOGIN else to_ascii_lowercase (trim owner_login).

Definition required_tier (sd : StepDef) : ApprovalTier :=
  match sd_completion sd with HumanSignOff tier => tier | _ => TierOwner end.

Definition tier_admits (required : ApprovalTier) (agent : AgentRecord) (proj : string) : bool :=
  match required with
  | TierOwner => false
  | TierLabManager => ag_role agent == LabManager
  | TierLead => (ag_role agent == LabManager) || ((ag_role agent == Lead) && covers_area agent proj)
  end.

(** [authorize_step_sign_off] *)
Definition authorize_step_sign_off (project_slug : string) (step_def : StepDef)
  (step_instance : StepInstance) (caller : string) (agents : list AgentRecord) (owner_login : string)
  : Result unit WorkflowError :=
  let caller_key := to_ascii_lowercase (trim caller) in
  if is_some_and (si_assigned_agent step_instance) (fun a => eq_ignore_ascii_case a caller_key)
  then Err (WSelfApprovalForbidden (sd_step_id step_def) caller_key)
  else
    let required := required_tier step_def in
    if (caller_key == owner_key owner_login) || (caller_key == "owner") then Ok tt
    else
      match List.find (fun a => (ag_status a == Active)
                                && eq_ignore_ascii_case (ag_name_key a) caller_key) agents with
      | None => Err (WInsufficientApprovalAuthority (sd_step_id step_def) caller_key required)
      | Some agent =>
          let proj := to_ascii_lowercase (trim project_slug) in
          if negb (tier_admits required agent proj)
          then Err (WInsufficientApprovalAuthority (sd_step_id step_def) caller_key required)
          else Ok tt
      end.

(** A candidate is independent of the step that [sd] reviews. *)
Definition independent (run : WorkflowRun) (sd : StepDef) (agent : string) (adapter : option string) : Prop :=
  ∀ target up, sd_reviews_step sd = Some target → wr_steps run !! target = Some up →
    (∀ author, si_assigned_agent up = Some author →
       to_ascii_lowercase author ≠ to_ascii_lowercase (trim agent))
    ∧ (sd_require_different_vendor sd = true →
       ∀ used vendor, si_adapter_used up = Some used →
         option_or adapter (match sd_assignee sd with ARSelector _ _ a => a | _ => None end) = Some vendor →
         to_ascii_lowercase used ≠ to_ascii_lowercase (trim vendor)).

Lemma independence_sound def run id agent adapter sd :
  find_step def id = Some sd →
  validate_reviewer_independence def run id agent adapter = Ok tt → independent run sd agent adapter.
Proof.
  unfold validate_reviewer_independence. intros ->. cbn [ok_or result_bind]. intros H target up Ht Hup.
  rewrite Ht, Hup in H. cbn [mbind option_bind] in H.
  destruct (is_some_and _ _) eqn:Ha; [done|]. split.
  - intros author Hau. rewrite Hau in Ha. cbn in Ha. intros Heq.
    apply not_true_iff_false in Ha. apply Ha, eq_ignore_ascii_case_spec.
    by rewrite to_ascii_lowercase_idem.
  - intros Hv used vendor Hu Hc. rewrite Hv, Hu, Hc in H.
    destruct (eq_ignore_ascii_case _ _) eqn:He; [done|]. intros Heq.
    apply not_true_iff_false in He. apply He. by apply eq_ignore_ascii_case_spec.
Qed.

Lemma first_independent_sound def run id adapter l sel sd :
  find_step def id = Some sd → first_independent def run id adapter l = Ok sel →
  ∃ a, a ∈ l ∧ sel_agent_name sel = ag_name_key a ∧ sel_adapter sel = adapter
       ∧ independent run sd (ag_name_key a) adapter.
Proof.
  intros Hsd. induction l as [|a l IH]; cbn; [done|]. intros H.
  destruct (validate_reviewer_independence _ _ _ _ _) as [[]|e] eqn:Hv.
  - injection H as <-. exists a. split_and!; [set_solver|done..|]. by eapply independence_sound.
  - assert (first_independent def run id adapter l = Ok sel) as H'
      by (destruct e as [| | | | | | | | | | | | | | | | |[]| | | | |]; done).
    destruct (IH H') as (b & ? & ? & ? & ?). exists b. split_and!; [set_solver|done..].
Qed.

(** Who is selected may work: a step is left to a human exactly when its rule
    is manual; otherwise the selected agent is active, matches the rule (the
    named agent, or the role and area of the selector), uses the overriding
    or the rule's adapter, and is independent of the author, and where asked
    of the vendor, of the step under review. *)
Theorem selected_agent_eligible def run id agents override_adapter res sd
  (Hsd : find_step def id = Some sd)
  (Hsel : select_step_agent def run id agents override_adapter = Ok res) :
  match res with
  | None => sd_assignee sd = ARManual
  | Some sel => ∃ a, a ∈ agents ∧ ag_status a = Active ∧ sel_agent_name sel = ag_name_key a
      ∧ independent run sd (ag_name_key a) (sel_adapter sel)
      ∧ match sd_assignee sd with
        | ARManual => False
        | ARAgent name => ag_name_key a = to_ascii_lowercase (trim name)
        | ARSelector role area adapter =>
            selector_admits role area a = true ∧ sel_adapter sel = option_or override_adapter adapter
        end
  end.
Proof.
  unfold select_step_agent in Hsel. rewrite Hsd in Hsel. cbn [ok_or result_bind] in Hsel.
  destruct (sd_assignee sd) as [name|role area adapter|] eqn:Has; [| |by simplify_eq].
  - apply result_bind_ok in Hsel as (a & Ha & Hsel). apply result_bind_ok in Hsel as ([] & Hi & Hsel).
    simplify_eq. destruct (List.find _ _) eqn:Hf; simplify_eq/=.
    apply find_elem in Hf as [? Hf]. bool_prop. exists a. split_and!; try done.
    by eapply independence_sound.
  - apply result_bind_ok in Hsel as (sel & Hi & Hsel). simplify_eq.
    destruct (first_independent_sound _ _ _ _ _ _ _ Hsd Hi) as (a & Ha & Hn & Hd & Hind).
    rewrite sort_by_elem, filter_elem in Ha. destruct Ha as [Ha Hadm]. exists a. rewrite Hd.
    split_and!; try done. unfold selector_admits in Hadm. bool_prop. done.
Qed.

(** Nobody signs off their own step, and authority is what the tier says: a
    sign-off is authorised exactly when the caller is not the assigned agent
    and is the owner, or the first active agent under that name holds a role
    the step's tier admits; at the owner tier only the owner can. *)
Theorem sign_off_authority project sd step caller agents owner_login :
  let caller_key := to_ascii_lowercase (trim caller) in
  authorize_step_sign_off project sd step caller agents owner_login = Ok tt ↔
  (∀ a, si_assigned_agent step = Some a → to_ascii_lowercase a ≠ caller_key)
  ∧ (caller_key = owner_key owner_login ∨ caller_key = "owner"
     ∨ ∃ agent, List.find (fun a => (ag_status a == Active)
                                    && eq_ignore_ascii_case (ag_name_key a) caller_key) agents = Some agent
         ∧ tier_admits (required_tier sd) agent (to_ascii_lowercase (trim project)) = true
         ∧ required_tier sd ≠ TierOwner).
Proof.
  intros key. unfold authorize_step_sign_off. fold key.
  assert (is_some_and (si_assigned_agent step) (fun a => eq_ignore_ascii_case a key) = false ↔
    ∀ a, si_assigned_agent step = Some a → to_ascii_lowercase a ≠ key) as Hself.
  { destruct (si_assigned_agent step) as [a|]; cbn; [|naive_solver].
    unfold eq_ignore_ascii_case, key. rewrite to_ascii_lowercase_idem, bool_decide_eq_false. naive_solver. }
  rewrite <- Hself. clear Hself. destruct (is_some_and _ _); [split; [done|intros [? _]; done]|].
  destruct (bool_decide (key = owner_key owner_login)) eqn:H1; bool_prop; [cbn; split; auto|].
  destruct (bool_decide (key = "owner")) eqn:H2; bool_prop; cbn; [split; auto|].
  destruct (List.find _ _) as [agent|] eqn:Hf; cycle 1.
  { split; [done|]. intros [_ [?|[?|(agent & ? & _)]]]; done. }
  destruct (tier_admits _ _ _) eqn:Hta; cbn; cycle 1.
  { split; [done|]. intros [_ [?|[?|(agent' & ? & ? & _)]]]; congruence. }
  split; [intros _; split; [done|]; right; right|done]. exists agent. split_and!; try done.
  intros Heq. by rewrite Heq in Hta.
Qed.

(** ** Small workflows *)

Definition demo_step (id : string) (completion : StepCompletion) (join_ : JoinPolicy)
  (reviews : option string) : StepDef := {|
  sd_step_id := id; sd_title := "a step"; sd_prompt := EmptyString;
  sd_assignee := ARSelector None None None; sd_reviews_step := reviews;
  sd_require_different_vendor := false; sd_completion := completion; sd_join_policy := join_;
  sd_max_attempts := 1; sd_max_visits := 2; sd_budget_usd_micros := None; sd_max_tokens := Some 100;
  sd_isolate_worktree := false |}.

Definition edge (a b : string) (on : EdgeCondition) : EdgeDef :=
  {| ed_from_step := a; ed_to_step := b; ed_on := on |}.

Definition demo_def (start : string) (steps : list StepDef) (edges : list EdgeDef) : WorkflowDef := {|
  wd_id := "w"; wd_project := "p"; wd_slug := "demo"; wd_title := "Demo"; wd_start_step := start;
  wd_steps := steps; wd_edges := edges; wd_max_total_steps := 8; wd_budget_usd_micros := None;
  wd_max_tokens := None; wd_declared_keys := [("k", MAppend)]; wd_authored_at_commit := "c0";
  wd_authored_by := "owner" |}.

Definition demo_start (def : WorkflowDef) : WorkflowRun := {|
  wr_id := "run"; wr_workflow_id := wd_id def; wr_project := wd_project def; wr_title := "Run";
  wr_status := RSRunning; wr_active_steps := [wd_start_step def];
  wr_steps := foldl (fun m sd => <[sd_step_id sd := new_step def sd]> m) ∅ (wd_steps def);
  wr_total_steps_executed := 0; wr_total_tokens := 0; wr_total_cost_usd_micros := 0;
  wr_created_at := "t0"; wr_updated_at := "t0"; wr_by := "owner" |}.

Lemma demo_start_new def :
  validate_workflow_def def = Ok tt → WorkflowRun_new "run" def "Run" "t0" "owner" = Ok (demo_start def).
Proof. intros H. unfold WorkflowRun_new. rewrite H. reflexivity. Qed.

Lemma demo_wf def : validate_workflow_def def = Ok tt → wf_def def ∧ wf_run def (demo_start def).
Proof. intros H%demo_start_new%WorkflowRun_new_wf. naive_solver. Qed.

Definition attempt (id : string) (o : StepOutcome) : StepAttemptReport := {|
  ra_step_id := id; ra_outcome := o; ra_attempt_iri := Some "urn:a"; ra_tokens_used := 10;
  ra_cost_usd_micros := 5; ra_reason := None |}.

Definition attempts (def : WorkflowDef) (reports : list StepAttemptReport) : Result WorkflowRun Fault :=
  for_fold (fun run report => advance_workflow def run report "t1") (demo_start def) reports.

(** Build, then a review by a human, then the end; a failed review rebuilds. *)
Definition review_def : WorkflowDef :=
  demo_def "build"
    [demo_step "build" Ungated_ JAll None; demo_step "review" (HumanSignOff TierLead) JAll (Some "build")]
    [edge "build" "review" OnPass; edge "review" "END" OnPass; edge "review" "build" OnFail].

Lemma review_def_valid : validate_workflow_def review_def = Ok tt.
Proof. vm_compute. reflexivity. Qed.

Lemma advance_safe_witness :
  is_ok (advance_workflow review_def (demo_start review_def) (attempt "build" SPass) "t1") = true
  ∧ match advance_workflow review_def (demo_start review_def) (attempt "build" SPass) "t1" with
    | Ok run' => wf_run review_def run' ∧ wr_active_steps run' = ["review"]
    | Err _ => False
    end.
Proof.
  destruct (demo_wf _ review_def_valid) as [Hd Hr].
  pose proof (advance_safe review_def (demo_start review_def) (attempt "build" SPass) "t1" Hd Hr) as H.
  assert (is_ok (advance_workflow review_def (demo_start review_def) (attempt "build" SPass) "t1") = true
    ∧ match advance_workflow review_def (demo_start review_def) (attempt "build" SPass) "t1" with
      | Ok r => wr_active_steps r = ["review"] | Err _ => False end) as [H1 H2]
    by (vm_compute; split; reflexivity).
  split; [exact H1|]. destruct (advance_workflow _ _ _ _); [|destruct H2]. split; [apply H|exact H2].
Defined.

Lemma done_only_on_own_pass_witness :
  ∃ run', advance_workflow review_def (demo_start review_def) (attempt "build" SPass) "t1" = Ok run'
    ∧ is_done run' "build" = true ∧ ra_outcome (attempt "build" SPass) = SPass.
Proof.
  destruct (demo_wf _ review_def_valid) as [Hd Hr].
  destruct (advance_workflow review_def (demo_start review_def) (attempt "build" SPass) "t1") as [run'|] eqn:E.
  - exists run'. split; [reflexivity|].
    assert (is_done run' "build" = true) as Hdone.
    { assert (match advance_workflow review_def (demo_start review_def) (attempt "build" SPass) "t1" with
              | Ok r => is_done r "build" = true | Err _ => False end) as H by (vm_compute; reflexivity).
      rewrite E in H. exact H. }
    split; [exact Hdone|].
    apply (done_only_on_own_pass review_def (demo_start review_def) (attempt "build" SPass) "t1" run' "build" Hd Hr E);
      [vm_compute; reflexivity|exact Hdone].
  - exfalso. assert (is_ok (advance_workflow review_def (demo_start review_def) (attempt "build" SPass) "t1") = true)
      as H by (vm_compute; reflexivity). rewrite E in H. discriminate H.
Defined.

Lemma ceilings_escalate_witness :
  ∃ run', advance_workflow review_def (demo_start review_def)
            {| ra_step_id := "build"; ra_outcome := SPass; ra_attempt_iri := None; ra_tokens_used := 101;
               ra_cost_usd_micros := 7; ra_reason := None |} "t1" = Ok run'
    ∧ wr_status run' = RSNeedsHuman ∧ wr_total_tokens run' = 101
    ∧ ∃ after, wr_steps run' !! "build" = Some after ∧ si_cost_usd_micros after = 7.
Proof.
  destruct (demo_wf _ review_def_valid) as [Hd Hr].
  eexists. split; [vm_compute; reflexivity|]. split; [vm_compute; reflexivity|].
  destruct (ceilings_escalate review_def (demo_start review_def)
    {| ra_step_id := "build"; ra_outcome := SPass; ra_attempt_iri := None; ra_tokens_used := 101;
       ra_cost_usd_micros := 7; ra_reason := None |} "t1" _ Hd Hr ltac:(vm_compute; reflexivity))
    as (sd & before & after & _ & Hb & Ha & Ht & _ & _ & Hc & _).
  split; [exact Ht|]. exists after. split; [exact Ha|]. rewrite Hc. vm_compute in Hb. injection Hb as <-. reflexivity.
Defined.

Lemma attempts_bounded_witness :
  history review_def (demo_start review_def) 0 ∧ wf_run review_def (demo_start review_def).
Proof.
  assert (history review_def (demo_start review_def) 0) as H
    by exact (h_new review_def _ _ _ _ _ (demo_start_new _ review_def_valid)).
  split; [exact H|]. apply (proj2 (attempts_bounded _ _ _ H)). vm_compute. discriminate.
Defined.

Definition demo_agent (name : string) (role : AgentRole) : AgentRecord := {|
  ag_id := "urn:x"; ag_name_key := name; ag_display_name := name; ag_email := name; ag_project := "p";
  ag_role := role; ag_extra_areas := []; ag_status := Active; ag_updated_at := "t0"; ag_by := "owner" |}.

Lemma selected_agent_eligible_witness :
  select_step_agent review_def (demo_start review_def) "build" [demo_agent "zoe" Lead; demo_agent "ann" Tester] None
    = Ok (Some {| sel_agent_name := "ann"; sel_adapter := None |})
  ∧ ∃ a, a ∈ [demo_agent "zoe" Lead; demo_agent "ann" Tester] ∧ ag_status a = Active ∧ "ann" = ag_name_key a.
Proof.
  assert (select_step_agent review_def (demo_start review_def) "build"
    [demo_agent "zoe" Lead; demo_agent "ann" Tester] None
    = Ok (Some {| sel_agent_name := "ann"; sel_adapter := None |})) as H by (vm_compute; reflexivity).
  split; [exact H|].
  destruct (selected_agent_eligible review_def (demo_start review_def) "build" _ _ _
    (demo_step "build" Ungated_ JAll None) ltac:(vm_compute; reflexivity) H) as (a & H1 & H2 & H3 & _).
  exists a. split; [exact H1|]. split; [exact H2|exact H3].
Defined.

(** With nothing active every report is refused. *)
Lemma nothing_active_refuses def run report at_ :
  wr_active_steps run = [] → is_ok (advance_workflow def run report at_) = false.
Proof.
  intros Ha. unfold advance_workflow. destruct (run_terminal _); [done|].
  destruct (find_step _ _); [|done]. by rewrite Ha.
Qed.

Lemma stranded def (r : Result WorkflowRun Fault) status :
  match r with Ok run => wr_status run = status ∧ wr_active_steps run = [] | Err _ => False end →
  ∃ run, r = Ok run ∧ wr_status run = status
    ∧ ∀ report at_, is_ok (advance_workflow def run report at_) = false.
Proof. destruct r as [run|]; [|done]. intros [? ?]. eauto using nothing_active_refuses. Qed.

Definition single_def : WorkflowDef :=
  demo_def "only" [demo_step "only" Ungated_ JAll None] [edge "only" "END" OnFail].

Definition diamond_def : WorkflowDef :=
  demo_def "start"
    [demo_step "start" Ungated_ JAll None; demo_step "left" Ungated_ JAll None;
     demo_step "right" Ungated_ JAll None; demo_step "merge" Ungated_ JAny None]
    [edge "start" "left" OnPass; edge "start" "right" OnPass; edge "left" "merge" OnPass;
     edge "right" "merge" OnPass; edge "merge" "END" OnPass].

(** A valid workflow can stop without ending. The only step passes, its only
    edge is for a failure: the run stays running with nothing active, and
    refuses every later report. *)
Theorem pass_without_edge_strands_run :
  validate_workflow_def single_def = Ok tt
  ∧ ∃ run, attempts single_def [attempt "only" SPass] = Ok run ∧ wr_status run = RSRunning
      ∧ ∀ report at_, is_ok (advance_workflow single_def run report at_) = false.
Proof. split; [vm_compute; reflexivity|]. apply stranded. vm_compute. split; reflexivity. Qed.

(** The final prune can drop the step a human was asked about. Two branches
    feed an [Any] join, one escalates, the join's step ends the workflow: the
    run waits for a human with nothing active to sign off, and refuses every
    later report. *)
Theorem pruned_escalation_strands_run :
  validate_workflow_def diamond_def = Ok tt
  ∧ ∃ run, attempts diamond_def [attempt "start" SPass; attempt "left" SPass; attempt "right" SNeedsHuman;
                                 attempt "merge" SPass] = Ok run
      ∧ wr_status run = RSNeedsHuman
      ∧ ∀ report at_, is_ok (advance_workflow diamond_def run report at_) = false.
Proof. split; [vm_compute; reflexivity|]. apply stranded. vm_compute. split; reflexivity. Qed.
