(* ===== verification/PrPolicy.v ===== *)
(** * Pull-request governance ([crates/core/src/pr_policy.rs])

    Who may review and merge a pull request: co-author trailers, protected
    paths, the tier a change requires, and the fold of its reviews into an
    approval. [globset], [serde_json] and Unicode lowercasing are parameters;
    a [BTreeMap] is a [gmap] whose values are read in key order. *)

From S2P Require Import Prelude RustStr Wire Model Agent.

(** ** Data *)

(** [ReviewerApps] *)
Record ReviewerApps := { ra_ids : list N; ra_logins : list string }.

Definition DEFAULT_REVIEWER_APP_IDS : list N := [341521384%N].

(** [ReviewerApps::default] and [ReviewerApps::none] *)
Definition ReviewerApps_default : ReviewerApps := {| ra_ids := DEFAULT_REVIEWER_APP_IDS; ra_logins := [] |}.
Definition ReviewerApps_none : ReviewerApps := {| ra_ids := []; ra_logins := [] |}.

(** [PrReviewSummary] *)
Record PrReviewSummary := {
  rv_id : N;
  rv_author_login : string;
  rv_author_id : option N;
  rv_state : string;
  rv_body : string;
  rv_commit_id : option string;
}.

(** [ReviewerApps::wrote] *)
Definition wrote (apps : ReviewerApps) (review : PrReviewSummary) : bool :=
  if is_some_and (rv_author_id review) (contains (ra_ids apps)) then true
  else
    let login := trim (rv_author_login review) in
    negb (is_empty_str login) && existsb (fun l => eq_ignore_ascii_case (trim l) login) (ra_logins apps).

Definition DEFAULT_PROTECTED_PATTERNS : list string := [".github/**"; ".fl/manifest.json"; ".agents/**"].
Definition REVIEW_MARKER_PREFIX : string := "<!-- fl-review:".
Definition REVIEW_MARKER_SUFFIX : string := "-->".

(** [RequiredTier] *)
Inductive RequiredTier := ReqLead (project : string) | ReqLabManager | ReqOwner.

#[global] Instance RequiredTier_eq_dec : EqDecision RequiredTier.
Proof. solve_decision. Defined.

(** [CommitTrailerAuthor] *)
Record CommitTrailerAuthor := { ct_display_name : string; ct_name_key : string; ct_email : string }.

(** [PrCommitSummary] *)
Record PrCommitSummary := {
  pc_sha : string;
  pc_author_login : option string;
  pc_message : string;
  pc_parent_count : N;
}.

(** [PrCommitSummary::is_merge] *)
Definition is_merge (c : PrCommitSummary) : bool := (1 <? pc_parent_count c)%N.

(** [PrPolicyEvaluation] *)
Record PrPolicyEvaluation := {
  pe_project : string;
  pe_co_authors : list string;
  pe_unattributed_commits : list string;
  pe_unknown_co_authors : list string;
  pe_protected_files : list string;
  pe_required_tier : RequiredTier;
  pe_target_reviewer : string;
  pe_escalation_reasons : list string;
}.

(** [ReviewVerdict] *)
Inductive ReviewVerdict := Approved | ChangesRequested | Commented.

#[global] Instance ReviewVerdict_eq_dec : EqDecision ReviewVerdict.
Proof. solve_decision. Defined.

Definition ReviewVerdict_as_wire (v : ReviewVerdict) : string :=
  match v with
  | Approved => "approved" | ChangesRequested => "changes_requested" | Commented => "commented"
  end.

#[global] Program Instance ReviewVerdict_wire : WireNames ReviewVerdict := {
  wire_all := [Approved; ChangesRequested; Commented]; as_wire := ReviewVerdict_as_wire }.
Solve All Obligations with wire_instance.

(** [FlReviewMarker] *)
Record FlReviewMarker := {
  mk_reviewer : string;
  mk_role : AgentRole;
  mk_project : string;
  mk_head_sha : string;
  mk_verdict : ReviewVerdict;
  mk_at : At;
}.

(** [PolicyRefusal] *)
Inductive PolicyRefusal :=
| UnknownOrInactiveAgent (agent : string)
| SelfReviewForbidden (agent : string)
| ProtectedPathRequiresOwner (agent : string) (files : list string)
| UnattributedCommitsRequireOwner (commits : list string)
| UnknownCoAuthorsRequireOwner (co_authors : list string)
| InsufficientRole (agent : string) (role : AgentRole) (required : RequiredTier)
| MissingValidApproval (head_sha : string).

(** ** Trailers *)

(** The loop body of [parse_co_authors]: one line. *)
Definition parse_trailer (line : string) : option CommitTrailerAuthor :=
  match split_once ":"%char (trim line) with
  | None => None
  | Some (prefix, rest) =>
      if negb (eq_ignore_ascii_case (trim prefix) "co-authored-by") then None
      else
        match rsplit_once "<"%char (trim rest) with
        | None => None
        | Some (raw_name, email_part) =>
            match strip_suffix ">" email_part with
            | None => None
            | Some raw_email =>
                let display_name := trim raw_name in
                let email := to_ascii_lowercase (trim raw_email) in
                if is_empty_str display_name || is_empty_str email || negb (contains_char "@"%char email)
                then None
                else
                  let name_key :=
                    if any_whitespace (chars display_name) then
                      match split_once "@"%char email with
                      | Some (local, _) => to_ascii_lowercase local
                      | None => to_ascii_lowercase display_name
                      end
                    else to_ascii_lowercase display_name in
                  Some {| ct_display_name := display_name; ct_name_key := name_key; ct_email := email |}
            end
        end
  end.

(** [parse_co_authors] *)
Definition parse_co_authors (message : string) : list CommitTrailerAuthor :=
  omap parse_trailer (lines message).

(** [find_active_agent] *)
Definition find_active_agent (agents : list AgentRecord) (author : CommitTrailerAuthor) : option AgentRecord :=
  List.find (fun a => (ag_status a == Active)
                      && (eq_ignore_ascii_case (ag_name_key a) (ct_name_key author)
                          || eq_ignore_ascii_case (ag_email a) (ct_email author))) agents.

(** The owner's login as given; a blank one is the default. *)
Definition owner_of (owner_login : string) : string :=
  if is_blank owner_login then DEFAULT_OWNER_LOGIN else trim owner_login.

(** ** Protected paths *)

Section Paths.
(** [str::to_lowercase] (Unicode), and [globset]: with [literal_separator] and
    without; [None] when the pattern does not compile. *)
Variable lowercase : string → string.
Variable glob_literal_separator glob : string → option (string → bool).

Definition backslash : ascii := ascii_of_N 92.

(** One segment of [normalize_policy_path]'s loop. *)
Definition push_segment (parts : list string) (seg : string) : list string :=
  if is_empty_str seg || (seg == ".") then parts
  else if seg == ".." then removelast parts
  else parts ++ [lowercase seg].

(** [normalize_policy_path] *)
Definition normalize_policy_path (raw : string) : string :=
  join "/" (foldl push_segment []
    (split_on (fun b => b == "/"%char) (map_str (fun b => if b == backslash then "/"%char else b) (trim raw)))).

(** [literal_match] *)
Definition literal_match (path pattern : string) : bool :=
  match strip_suffix "/**" pattern with
  | Some dir => (path == dir) || starts_with (dir +:+ "/") path
  | None =>
      match strip_prefix "**/" pattern with
      | Some suffix => (path == suffix) || ends_with ("/" +:+ suffix) path
      | None =>
          if negb (contains_char "/"%char pattern)
          then (path == pattern) || ends_with ("/" +:+ pattern) path
          else path == pattern
      end
  end.

Definition glob_char (b : ascii) : bool :=
  (b == "*"%char) || (b == "?"%char) || (b == "["%char) || (b == "{"%char).

(** [matches_pattern] *)
Definition matches_pattern (normalized_path raw_pattern : string) : bool :=
  let pattern := normalize_policy_path raw_pattern in
  if is_empty_str pattern then false
  else
    let path := normalize_policy_path normalized_path in
    if negb (any_byte glob_char pattern) then literal_match path pattern
    else if is_some_and (strip_suffix "/**" pattern) (fun dir => negb (any_byte glob_char dir))
    then literal_match path pattern
    else
      literal_match path pattern
      || match glob_literal_separator pattern with
         | Some g =>
             g path
             || (negb (contains_char "/"%char pattern)
                 && is_some_and (glob ("**/" +:+ pattern)) (fun g => g path))
         | None => false
         end.

(** [is_protected_path] *)
Definition is_protected_path (path : string) (extra_patterns : list string) : bool :=
  let normalized := normalize_policy_path path in
  if is_empty_str normalized then false
  else
    existsb (matches_pattern normalized) DEFAULT_PROTECTED_PATTERNS
    || existsb (matches_pattern normalized) extra_patterns.

(** ** Evaluation *)

(** What the loop over commits accumulates. *)
Record Attribution := {
  at_co_authors : list string;
  at_roles : list AgentRole;
  at_unattributed : list string;
  at_unknown : list string;
  at_owner_authored : bool;
}.

Definition no_attribution : Attribution := {|
  at_co_authors := []; at_roles := []; at_unattributed := []; at_unknown := []; at_owner_authored := false |}.

Definition is_owner_commit (owner : string) (c : PrCommitSummary) : bool :=
  is_some_and (pc_author_login c) (fun login => eq_ignore_ascii_case login owner).

(** One trailer of a commit; the flag says whether the commit is attributed. *)
Definition fold_trailer (agents : list AgentRecord) (owner : string) (owner_commit exempt : bool)
  (st : Attribution * bool) (t : CommitTrailerAuthor) : Attribution * bool :=
  let '(a, attributed) := st in
  if eq_ignore_ascii_case (ct_name_key t) owner then
    if owner_commit && negb exempt then
      ({| at_co_authors := at_co_authors a; at_roles := at_roles a; at_unattributed := at_unattributed a;
          at_unknown := at_unknown a; at_owner_authored := true |}, true)
    else (a, attributed)
  else
    match find_active_agent agents t with
    | Some agent =>
        ({| at_co_authors := push_unique (at_co_authors a) (ag_name_key agent);
            at_roles := push_unique (at_roles a) (ag_role agent);
            at_unattributed := at_unattributed a; at_unknown := at_unknown a;
            at_owner_authored := at_owner_authored a |}, true)
    | None =>
        ({| at_co_authors := at_co_authors a; at_roles := at_roles a; at_unattributed := at_unattributed a;
            at_unknown := push_unique (at_unknown a) (ct_name_key t);
            at_owner_authored := at_owner_authored a |}, attributed)
    end.

Definition flag_unattributed (a : Attribution) (sha : string) : Attribution := {|
  at_co_authors := at_co_authors a; at_roles := at_roles a;
  at_unattributed := push_unique (at_unattributed a) sha; at_unknown := at_unknown a;
  at_owner_authored := at_owner_authored a |}.

(** One commit. *)
Definition fold_commit (agents : list AgentRecord) (owner : string) (skip_merge_commits : bool)
  (a : Attribution) (c : PrCommitSummary) : Attribution :=
  let exempt := skip_merge_commits && is_merge c in
  let trailers := parse_co_authors (pc_message c) in
  let owner_commit := is_owner_commit owner c in
  match trailers with
  | [] =>
      if exempt then a
      else if owner_commit then
        {| at_co_authors := at_co_authors a; at_roles := at_roles a; at_unattributed := at_unattributed a;
           at_unknown := at_unknown a; at_owner_authored := true |}
      else flag_unattributed a (pc_sha c)
  | _ =>
      let '(a', attributed) := foldl (fold_trailer agents owner owner_commit exempt) (a, false) trailers in
      if negb attributed && negb owner_commit && negb exempt then flag_unattributed a' (pc_sha c) else a'
  end.

Definition attribution (agents : list AgentRecord) (owner : string) (commits : list PrCommitSummary) : Attribution :=
  foldl (fold_commit agents owner (existsb (fun c => negb (is_merge c)) commits)) no_attribution commits.

Definition find_lab_manager (agents : list AgentRecord) (co_authors : list string) : option AgentRecord :=
  List.find (fun a => (ag_status a == Active) && (ag_role a == LabManager)
                      && negb (contains co_authors (ag_name_key a))) agents.

Definition find_project_lead (agents : list AgentRecord) (co_authors : list string) (project : string)
  : option AgentRecord :=
  List.find (fun a => (ag_status a == Active) && (ag_role a == Lead) && covers_area a project
                      && negb (contains co_authors (ag_name_key a))) agents.

Definition not_empty {A} (l : list A) : bool := negb (len l =? 0)%N.

(** The tier, the target reviewer and a last reason. *)
Definition required_tier_of (agents : list AgentRecord) (owner project : string) (a : Attribution)
  (protected_ : list string) (commits : list PrCommitSummary) : RequiredTier * string * list string :=
  if not_empty protected_ || negb (not_empty commits) || not_empty (at_unattributed a)
     || not_empty (at_unknown a) || negb (not_empty (at_co_authors a)) || contains (at_roles a) LabManager
  then (ReqOwner, owner, [])
  else if contains (at_roles a) Lead then
    match find_lab_manager agents (at_co_authors a) with
    | Some lm => (ReqLabManager, ag_name_key lm, [])
    | None => (ReqOwner, owner, ["no active non-co-author lab_manager available; escalating to owner"])
    end
  else
    match find_project_lead agents (at_co_authors a) project with
    | Some lead => (ReqLead project, ag_name_key lead, [])
    | None =>
        match find_lab_manager agents (at_co_authors a) with
        | Some lm => (ReqLabManager, ag_name_key lm,
            ["no active non-co-author lead for `" +:+ project +:+ "`; escalating to lab_manager"])
        | None => (ReqOwner, owner,
            ["no active lead or lab_manager available for `" +:+ project +:+ "`; escalating to owner"])
        end
    end.

Definition protected_of (changed_files extra : list string) : list string :=
  foldl (fun acc f => if is_protected_path f extra then push_unique acc f else acc) [] changed_files.

(** [evaluate_pr_policy] *)
Definition evaluate_pr_policy (project : string) (commits : list PrCommitSummary)
  (changed_files extra_protected_patterns : list string) (agents : list AgentRecord) (owner_login : string)
  : PrPolicyEvaluation :=
  let owner := owner_of owner_login in
  let project_slug := to_ascii_lowercase (trim project) in
  let a := attribution agents owner commits in
  let protected_ := protected_of changed_files extra_protected_patterns in
  let reasons :=
    (if not_empty protected_ then ["touches protected path(s): " +:+ join ", " protected_] else [])
    ++ (if not_empty commits then [] else ["pull request has no commits"])
    ++ (if not_empty (at_unattributed a)
        then ["contains unattributed commit(s) without Co-authored-by trailer: " +:+ join ", " (at_unattributed a)]
        else [])
    ++ (if not_empty (at_unknown a)
        then ["contains unregistered or inactive co-author(s): " +:+ join ", " (at_unknown a)] else [])
    ++ (if at_owner_authored a && negb (not_empty (at_co_authors a))
        then ["authored directly by repository Owner"] else [])
    ++ (if contains (at_roles a) LabManager then ["co-authored by lab_manager"]
        else if contains (at_roles a) Lead then ["co-authored by project lead"] else []) in
  let '(tier, target, last_) := required_tier_of agents owner project_slug a protected_ commits in
  {| pe_project := project_slug; pe_co_authors := at_co_authors a;
     pe_unattributed_commits := at_unattributed a; pe_unknown_co_authors := at_unknown a;
     pe_protected_files := protected_; pe_required_tier := tier; pe_target_reviewer := target;
     pe_escalation_reasons := reasons ++ last_ |}.
End Paths.

(** ** Authority *)

(** [authorize_agent_action] *)
Definition authorize_agent_action (eval : PrPolicyEvaluation) (caller : AgentRecord) : Result unit PolicyRefusal :=
  let name := ag_name_key caller in
  if ag_status caller != Active then Err (UnknownOrInactiveAgent name)
  else if existsb (fun c => eq_ignore_ascii_case c name) (pe_co_authors eval) then Err (SelfReviewForbidden name)
  else if not_empty (pe_protected_files eval)
  then Err (ProtectedPathRequiresOwner name (pe_protected_files eval))
  else if not_empty (pe_unattributed_commits eval)
  then Err (UnattributedCommitsRequireOwner (pe_unattributed_commits eval))
  else if not_empty (pe_unknown_co_authors eval)
  then Err (UnknownCoAuthorsRequireOwner (pe_unknown_co_authors eval))
  else
    let refuse := Err (InsufficientRole name (ag_role caller) (pe_required_tier eval)) in
    match pe_required_tier eval with
    | ReqLead project =>
        if ((ag_role caller == Lead) && covers_area caller project) || (ag_role caller == LabManager)
        then Ok tt else refuse
    | ReqLabManager => if ag_role caller != LabManager then refuse else Ok tt
    | ReqOwner => refuse
    end.

(** [authorize_agent_merge] *)
Definition authorize_agent_merge (eval : PrPolicyEvaluation) (caller : AgentRecord) : Result unit PolicyRefusal :=
  let name := ag_name_key caller in
  if ag_status caller != Active then Err (UnknownOrInactiveAgent name)
  else if not_empty (pe_unattributed_commits eval)
  then Err (UnattributedCommitsRequireOwner (pe_unattributed_commits eval))
  else if not_empty (pe_unknown_co_authors eval)
  then Err (UnknownCoAuthorsRequireOwner (pe_unknown_co_authors eval))
  else if existsb (fun c => eq_ignore_ascii_case c name) (pe_co_authors eval) then Ok tt
  else authorize_agent_action eval caller.

Section Reviews.
(** [serde_json] on a review marker. *)
Variable marker_to_json : FlReviewMarker → string.
Variable marker_of_json : string → option FlReviewMarker.

(** [replace('>', "\\u003e")] *)
Fixpoint escape_gt (s : string) : string :=
  match s with
  | EmptyString => EmptyString
  | String c s' =>
      if c == ">"%char then String backslash ("u003e" +:+ escape_gt s') else String c (escape_gt s')
  end.

Definition two_newlines : string := String newline (String newline EmptyString).

(** [format_review_body] *)
Definition format_review_body (prose : string) (marker : FlReviewMarker) : string :=
  let json := escape_gt (marker_to_json marker) in
  let trimmed := trim prose in
  let comment := REVIEW_MARKER_PREFIX +:+ " " +:+ json +:+ " " +:+ REVIEW_MARKER_SUFFIX in
  if is_empty_str trimmed then comment else trimmed +:+ two_newlines +:+ comment.

(** [extract_review_marker] *)
Definition extract_review_marker (body : string) : option FlReviewMarker :=
  match rsplit_at_str REVIEW_MARKER_PREFIX body with
  | None => None
  | Some (_, after_prefix) =>
      match split_at_str REVIEW_MARKER_SUFFIX after_prefix with
      | None => None
      | Some (json_slice, _) => marker_of_json (trim json_slice)
      end
  end.

(** The active agent a marker names. *)
Definition marker_agent (agents : list AgentRecord) (marker : FlReviewMarker) : option AgentRecord :=
  List.find (fun a => (ag_status a == Active) && eq_ignore_ascii_case (ag_name_key a) (mk_reviewer marker)
                      && (ag_role a == mk_role marker)) agents.

(** [verify_review_integrity], one review. *)
Definition check_review (head_sha : string) (eval : PrPolicyEvaluation) (agents : list AgentRecord)
  (owner : string) (apps : ReviewerApps) (review : PrReviewSummary) : Result unit PolicyRefusal :=
  let on_head := is_none_or (rv_commit_id review) (fun cid => cid == head_sha) in
  if negb (eq_ignore_ascii_case (trim (rv_state review)) "APPROVED") || negb on_head
     || eq_ignore_ascii_case (rv_author_login review) owner || negb (wrote apps review)
  then Ok tt
  else
    let? marker := ok_or (extract_review_marker (rv_body review)) (MissingValidApproval head_sha) in
    if mk_verdict marker != Approved then Err (MissingValidApproval head_sha)
    else
      match marker_agent agents marker with
      | None => Err (UnknownOrInactiveAgent (mk_reviewer marker))
      | Some agent => authorize_agent_action eval agent
      end.

(** [verify_review_integrity] *)
Definition verify_review_integrity (head_sha : string) (eval : PrPolicyEvaluation)
  (reviews : list PrReviewSummary) (agents : list AgentRecord) (owner_login : string) (apps : ReviewerApps)
  : Result unit PolicyRefusal :=
  for_each (check_review head_sha eval agents (owner_of owner_login) apps) reviews.

(** [FoldedReviewState] *)
Record FoldedReviewState := {
  fr_label : string;
  fr_state : string;
  fr_valid_for_head : bool;
  fr_authorized_reviewer : bool;
}.

(** How [verify_merge_approvals] folds one review: its key and its state. *)
Definition fold_entry (head_sha : string) (eval : PrPolicyEvaluation) (agents : list AgentRecord)
  (owner : string) (apps : ReviewerApps) (review : PrReviewSummary) : option (string * FoldedReviewState) :=
  let state := to_ascii_uppercase (trim (rv_state review)) in
  if negb ((state == "APPROVED") || (state == "CHANGES_REQUESTED") || (state == "DISMISSED")) then None
  else if eq_ignore_ascii_case (rv_author_login review) owner then
    Some ("owner:" +:+ to_ascii_lowercase owner,
      {| fr_label := owner; fr_state := state;
         fr_valid_for_head := (state == "APPROVED") && (rv_commit_id review == Some head_sha);
         fr_authorized_reviewer := true |})
  else
    let from_reviewer_app := wrote apps review in
    if (state == "APPROVED") && negb from_reviewer_app then None
    else
      match extract_review_marker (rv_body review) with
      | None => None
      | Some marker =>
          let key := if from_reviewer_app then "agent:" +:+ to_ascii_lowercase (mk_reviewer marker)
                     else "login:" +:+ to_ascii_lowercase (trim (rv_author_login review)) in
          let authorized := match marker_agent agents marker with
                            | Some agent => is_ok (authorize_agent_action eval agent)
                            | None => false
                            end in
          let commit_matches := is_none_or (rv_commit_id review) (fun cid => cid == head_sha) in
          Some (key,
            {| fr_label := mk_reviewer marker; fr_state := state;
               fr_valid_for_head := (state == "APPROVED") && (mk_verdict marker == Approved)
                 && (mk_head_sha marker == head_sha) && commit_matches && authorized;
               fr_authorized_reviewer := authorized |})
      end.

Definition insert_entry (m : gmap string FoldedReviewState) (e : option (string * FoldedReviewState))
  : gmap string FoldedReviewState :=
  match e with Some (k, v) => <[k := v]> m | None => m end.

(** [BTreeMap::values]: in key order. *)
Definition values_by_key {A} (m : gmap string A) : list A :=
  snd <$> sort_by (fun a b => str_leb a.1 b.1) (map_to_list m).

(** [sort_by_key(|r| r.id)] *)
Definition by_id (reviews : list PrReviewSummary) : list PrReviewSummary :=
  sort_by (fun a b => (rv_id a <=? rv_id b)%N) reviews.

Definition latest_by_reviewer (head_sha : string) (eval : PrPolicyEvaluation)
  (reviews : list PrReviewSummary) (agents : list AgentRecord) (owner : string) (apps : ReviewerApps)
  : gmap string FoldedReviewState :=
  foldl (fun m r => insert_entry m (fold_entry head_sha eval agents owner apps r)) ∅ (by_id reviews).

(** [verify_merge_approvals] *)
Definition verify_merge_approvals (head_sha : string) (eval : PrPolicyEvaluation)
  (reviews : list PrReviewSummary) (agents : list AgentRecord) (owner_login : string) (apps : ReviewerApps)
  : Result string PolicyRefusal :=
  let owner := owner_of owner_login in
  let latest := values_by_key (latest_by_reviewer head_sha eval reviews agents owner apps) in
  if existsb (fun r => fr_authorized_reviewer r && (fr_state r == "CHANGES_REQUESTED")) latest
  then Err (MissingValidApproval head_sha)
  else
    match List.find (fun r => (fr_state r == "APPROVED") && fr_valid_for_head r) latest with
    | Some approved => Ok (fr_label approved)
    | None => Err (MissingValidApproval head_sha)
    end.
End Reviews.

(** ** What the evaluation says of the commits *)

(** A trailer that names an active agent and not the owner. *)
Definition agent_trailer (agents : list AgentRecord) (owner : string) (t : CommitTrailerAuthor) (a : AgentRecord) : Prop :=
  eq_ignore_ascii_case (ct_name_key t) owner = false ∧ find_active_agent agents t = Some a.

Definition unknown_trailer (agents : list AgentRecord) (owner : string) (t : CommitTrailerAuthor) : Prop :=
  eq_ignore_ascii_case (ct_name_key t) owner = false ∧ find_active_agent agents t = None.

(** [a'] is [a] with what the trailers [ts] add. *)
Record adds (agents : list AgentRecord) (owner : string) (ts : list CommitTrailerAuthor)
  (a a' : Attribution) : Prop := {
  add_co : ∀ n, n ∈ at_co_authors a' ↔
    n ∈ at_co_authors a ∨ ∃ t g, t ∈ ts ∧ agent_trailer agents owner t g ∧ n = ag_name_key g;
  add_roles : ∀ r, r ∈ at_roles a' ↔
    r ∈ at_roles a ∨ ∃ t g, t ∈ ts ∧ agent_trailer agents owner t g ∧ r = ag_role g;
  add_unknown : ∀ n, n ∈ at_unknown a' ↔
    n ∈ at_unknown a ∨ ∃ t, t ∈ ts ∧ unknown_trailer agents owner t ∧ n = ct_name_key t;
}.

Lemma adds_app agents owner ts ts' a b c :
  adds agents owner ts a b → adds agents owner ts' b c → adds agents owner (ts ++ ts') a c.
Proof.
  intros [A1 A2 A3] [B1 B2 B3]. constructor.
  - intros n. rewrite B1, A1. setoid_rewrite elem_of_app. naive_solver.
  - intros n. rewrite B2, A2. setoid_rewrite elem_of_app. naive_solver.
  - intros n. rewrite B3, A3. setoid_rewrite elem_of_app. naive_solver.
Qed.

Lemma adds_nil agents owner a b :
  at_co_authors b = at_co_authors a → at_roles b = at_roles a → at_unknown b = at_unknown a →
  adds agents owner [] a b.
Proof. intros E1 E2 E3. constructor; intros n; rewrite ?E1, ?E2, ?E3; set_solver. Qed.

(** What one trailer adds, with the existential over [[t]] resolved. *)
Lemma adds_one agents owner t a b :
  (∀ n, n ∈ at_co_authors b ↔ n ∈ at_co_authors a ∨ ∃ g, agent_trailer agents owner t g ∧ n = ag_name_key g) →
  (∀ r, r ∈ at_roles b ↔ r ∈ at_roles a ∨ ∃ g, agent_trailer agents owner t g ∧ r = ag_role g) →
  (∀ n, n ∈ at_unknown b ↔ n ∈ at_unknown a ∨ (unknown_trailer agents owner t ∧ n = ct_name_key t)) →
  adds agents owner [t] a b.
Proof.
  intros H1 H2 H3. constructor; intros n; rewrite ?H1, ?H2, ?H3; setoid_rewrite list_elem_of_singleton.
  - split; [intros [?|(g & ?)]; eauto 10|intros [?|(? & g & -> & ?)]; eauto].
  - split; [intros [?|(g & ?)]; eauto 10|intros [?|(? & g & -> & ?)]; eauto].
  - split; [intros [?|?]; eauto 10|intros [?|(? & -> & ?)]; eauto].
Qed.

Lemma fold_trailer_adds agents owner oc exempt a b t :
  let st := fold_trailer agents owner oc exempt (a, b) t in
  adds agents owner [t] a st.1 ∧ at_unattributed st.1 = at_unattributed a
  ∧ (oc = false → st.2 = true ↔ b = true ∨ ∃ g, agent_trailer agents owner t g).
Proof.
  unfold fold_trailer. destruct (eq_ignore_ascii_case _ _) eqn:He.
  - assert (∀ g, ¬ agent_trailer agents owner t g) as Hno by (intros g [H _]; congruence).
    assert (¬ unknown_trailer agents owner t) as Hno' by (intros [H _]; congruence).
    assert (∀ a', at_co_authors a' = at_co_authors a → at_roles a' = at_roles a → at_unknown a' = at_unknown a →
      adds agents owner [t] a a') as Hadd.
    { intros a' E1 E2 E3. apply adds_one; intros n; rewrite ?E1, ?E2, ?E3; (split; [auto|]).
      - intros [?|(g & Hg & _)]; [done|by apply Hno in Hg].
      - intros [?|(g & Hg & _)]; [done|by apply Hno in Hg].
      - intros [?|[Hg _]]; done. }
    destruct (oc && negb exempt) eqn:Ho; cbn; (split; [by apply Hadd|split; [done|]]); intros ->; [done|].
    split; [auto|]. intros [?|[g Hg]]; [done|]. by apply Hno in Hg.
  - destruct (find_active_agent agents t) as [g|] eqn:Hf; cbn.
    + assert (∀ g', agent_trailer agents owner t g' ↔ g' = g) as Hg
        by (intros g'; unfold agent_trailer; rewrite Hf; split; [intros [_ [= ->]]; done|intros ->; done]).
      split; [|split; [done|intros _; split; [intros _; right; exists g; by apply Hg|done]]].
      apply adds_one; cbn; intros n; rewrite ?push_unique_elem.
      * split; (intros [?|H]; [by left|right]); [exists g; split; [by apply Hg|done]|].
        destruct H as (g' & ->%Hg & ->). done.
      * split; (intros [?|H]; [by left|right]); [exists g; split; [by apply Hg|done]|].
        destruct H as (g' & ->%Hg & ->). done.
      * split; [by left|]. intros [?|[[_ H] _]]; [done|congruence].
    + assert (∀ g', ¬ agent_trailer agents owner t g') as Hno by (intros g' [_ H]; congruence).
      split; [|split; [done|intros _; split; [auto|intros [?|[g Hg]]; [done|by apply Hno in Hg]]]].
      apply adds_one; cbn; intros n; rewrite ?push_unique_elem.
      * split; [auto|]. intros [?|(g & Hg & _)]; [done|by apply Hno in Hg].
      * split; [auto|]. intros [?|(g & Hg & _)]; [done|by apply Hno in Hg].
      * split; (intros [?|H]; [by left|right]); [done|by destruct H].
Qed.

#[local] Arguments fold_trailer : simpl never.
#[local] Arguments fold_commit : simpl never.

Lemma fold_trailers_adds agents owner oc exempt ts a b :
  let st := foldl (fold_trailer agents owner oc exempt) (a, b) ts in
  adds agents owner ts a st.1 ∧ at_unattributed st.1 = at_unattributed a
  ∧ (oc = false → st.2 = true ↔ b = true ∨ ∃ t g, t ∈ ts ∧ agent_trailer agents owner t g).
Proof.
  revert a b. induction ts as [|t ts IH]; intros a b; cbn.
  { split; [by apply adds_nil|split; [done|]]. intros _. set_solver. }
  destruct (fold_trailer_adds agents owner oc exempt a b t) as (H1 & H2 & H3).
  destruct (fold_trailer agents owner oc exempt (a, b) t) as [a1 b1]. cbn in *.
  destruct (IH a1 b1) as (I1 & I2 & I3). split; [exact (adds_app _ _ [t] ts _ _ _ H1 I1)|].
  split; [congruence|]. intros Hoc. rewrite I3, H3 by done. setoid_rewrite elem_of_cons. split.
  - intros [[?|[g ?]]|(t' & g & ? & ?)]; eauto 10.
  - intros [?|(t' & g & [->|?] & ?)]; eauto 10.
Qed.

(** A commit the trailer check flags. *)
Definition unattributed (agents : list AgentRecord) (owner : string) (skip : bool) (c : PrCommitSummary) : Prop :=
  skip && is_merge c = false ∧ is_owner_commit owner c = false
  ∧ ∀ t g, t ∈ parse_co_authors (pc_message c) → ¬ agent_trailer agents owner t g.

Lemma fold_commit_adds agents owner skip a c :
  let a' := fold_commit agents owner skip a c in
  adds agents owner (parse_co_authors (pc_message c)) a a'
  ∧ ∀ sha, sha ∈ at_unattributed a' ↔
      sha ∈ at_unattributed a ∨ (sha = pc_sha c ∧ unattributed agents owner skip c).
Proof.
  unfold fold_commit, unattributed. destruct (parse_co_authors (pc_message c)) as [|t ts] eqn:Hp.
  - destruct (skip && is_merge c); [split; [by apply adds_nil|naive_solver]|].
    destruct (is_owner_commit owner c); (split; [by apply adds_nil|]); cbn; intros sha;
      rewrite ?push_unique_elem; set_solver.
  - rewrite <- Hp. clear Hp t ts.
    destruct (fold_trailers_adds agents owner (is_owner_commit owner c) (skip && is_merge c)
      (parse_co_authors (pc_message c)) a false) as (H1 & H2 & H3).
    destruct (foldl _ _ _) as [a1 b1]. cbn in *.
    destruct (is_owner_commit owner c); cbn.
    { rewrite andb_false_r. cbn. split; [done|]. rewrite H2. naive_solver. }
    specialize (H3 eq_refl). destruct (skip && is_merge c); cbn.
    { rewrite !andb_false_r. split; [done|]. rewrite H2. naive_solver. }
    destruct b1; cbn.
    + split; [done|]. rewrite H2. destruct (proj1 H3 eq_refl) as [?|(t & g & ? & ?)]; [done|]. naive_solver.
    + split; [destruct H1; by constructor|]. intros sha. rewrite push_unique_elem, H2.
      assert (∀ t g, t ∈ parse_co_authors (pc_message c) → ¬ agent_trailer agents owner t g) as Hno
        by (intros t g ? ?; enough (false = true) by done; apply H3; eauto 10). naive_solver.
Qed.

Lemma fold_commits_adds agents owner skip commits a :
  let a' := foldl (fold_commit agents owner skip) a commits in
  adds agents owner (concat ((fun c => parse_co_authors (pc_message c)) <$> commits)) a a'
  ∧ ∀ sha, sha ∈ at_unattributed a' ↔
      sha ∈ at_unattributed a ∨ ∃ c, c ∈ commits ∧ sha = pc_sha c ∧ unattributed agents owner skip c.
Proof.
  revert a. induction commits as [|c commits IH]; intros a; cbn.
  { split; [by apply adds_nil|set_solver]. }
  destruct (fold_commit_adds agents owner skip a c) as [H1 H2].
  destruct (IH (fold_commit agents owner skip a c)) as [I1 I2]. split; [by eapply adds_app|].
  intros sha. rewrite I2, H2. setoid_rewrite elem_of_cons. naive_solver.
Qed.

(** Attribution is exact: the co-authors are the active agents that some
    trailer of some commit names, their roles are theirs, the unknown
    co-authors are the trailers that name nobody, and a commit is flagged as
    unattributed exactly when it is not an exempt merge, its author's login is
    not the owner's, and none of its trailers names an active agent: a
    trailer that names the owner never attributes somebody else's
    commit. *)
Theorem attribution_exact agents owner commits :
  let a := attribution agents owner commits in
  let skip := existsb (fun c => negb (is_merge c)) commits in
  (∀ n, n ∈ at_co_authors a ↔ ∃ c t g, c ∈ commits ∧ t ∈ parse_co_authors (pc_message c)
          ∧ agent_trailer agents owner t g ∧ n = ag_name_key g)
  ∧ (∀ r, r ∈ at_roles a ↔ ∃ c t g, c ∈ commits ∧ t ∈ parse_co_authors (pc_message c)
          ∧ agent_trailer agents owner t g ∧ r = ag_role g)
  ∧ (∀ n, n ∈ at_unknown a ↔ ∃ c t, c ∈ commits ∧ t ∈ parse_co_authors (pc_message c)
          ∧ unknown_trailer agents owner t ∧ n = ct_name_key t)
  ∧ (∀ sha, sha ∈ at_unattributed a ↔ ∃ c, c ∈ commits ∧ sha = pc_sha c ∧ unattributed agents owner skip c).
Proof.
  intros a skip. subst a. unfold attribution. fold skip.
  destruct (fold_commits_adds agents owner skip commits no_attribution) as [[H1 H2 H3] H4].
  cbn [no_attribution at_co_authors at_roles at_unknown at_unattributed] in *.
  assert (∀ t, t ∈ concat ((fun c => parse_co_authors (pc_message c)) <$> commits) ↔
    ∃ c, c ∈ commits ∧ t ∈ parse_co_authors (pc_message c)) as Hc.
  { intros t. rewrite list_elem_of_In, in_concat. setoid_rewrite <- list_elem_of_In.
    setoid_rewrite list_elem_of_fmap. naive_solver. }
  split_and!; intros x.
  - rewrite H1. setoid_rewrite Hc. set_solver.
  - rewrite H2. setoid_rewrite Hc. set_solver.
  - rewrite H3. setoid_rewrite Hc. set_solver.
  - rewrite H4. set_solver.
Qed.

(** ** What the tier means *)

Lemma not_empty_false {A} (l : list A) : not_empty l = false ↔ l = [].
Proof. unfold not_empty, len. rewrite negb_false_iff, N.eqb_eq. destruct l; cbn; [done|]. split; [lia|done]. Qed.

Lemma not_empty_true {A} (l : list A) : not_empty l = true ↔ l ≠ [].
Proof. rewrite <- not_false_iff_true, not_empty_false. done. Qed.

Ltac clean_lists :=
  repeat match goal with
  | H : not_empty _ = false |- _ => apply not_empty_false in H
  | H : not_empty _ = true |- _ => apply not_empty_true in H
  | H : contains _ _ = false |- _ => apply contains_false in H
  | H : contains _ _ = true |- _ => apply contains_spec in H
  end.

Lemma protected_of_spec lowercase gl g files extra f :
  f ∈ protected_of lowercase gl g files extra ↔ f ∈ files ∧ is_protected_path lowercase gl g f extra = true.
Proof.
  unfold protected_of. assert (∀ acc, f ∈ foldl (fun acc f => if is_protected_path lowercase gl g f extra
    then push_unique acc f else acc) acc files ↔
    f ∈ acc ∨ (f ∈ files ∧ is_protected_path lowercase gl g f extra = true)) as H; cycle 1.
  { rewrite H. set_solver. }
  induction files as [|x files IH]; intros acc; cbn; [set_solver|].
  rewrite IH. destruct (is_protected_path _ _ _ x _) eqn:E; rewrite ?push_unique_elem, elem_of_cons; split.
  - intros [[?| ->]|[? ?]]; eauto 10.
  - intros [?|[[->|?] ?]]; eauto 10.
  - intros [?|[? ?]]; eauto 10.
  - intros [?|[[->|?] ?]]; eauto 10. congruence.
Qed.

(** Below the owner's tier a change is clean: the evaluation asks for less
    than the owner only when no protected path is touched, every commit is
    attributed, no co-author is unknown and none is a lab manager; a lead
    reviews only what no lead co-authored; and the target reviewer is active,
    of the role the tier asks for, and never one of the co-authors. *)
Theorem tier_below_owner_is_clean lowercase gl g project commits files extra agents owner_login :
  let ev := evaluate_pr_policy lowercase gl g project commits files extra agents owner_login in
  let a := attribution agents (owner_of owner_login) commits in
  (∀ f, f ∈ pe_protected_files ev ↔ f ∈ files ∧ is_protected_path lowercase gl g f extra = true)
  ∧ (pe_required_tier ev ≠ ReqOwner →
       pe_protected_files ev = [] ∧ commits ≠ [] ∧ pe_unattributed_commits ev = []
       ∧ pe_unknown_co_authors ev = [] ∧ pe_co_authors ev ≠ [] ∧ (LabManager ∉ at_roles a)
       ∧ ∃ r, r ∈ agents ∧ ag_status r = Active ∧ ag_name_key r = pe_target_reviewer ev
           ∧ (pe_target_reviewer ev ∉ pe_co_authors ev)
           ∧ match pe_required_tier ev with
             | ReqLead p => p = to_ascii_lowercase (trim project) ∧ (Lead ∉ at_roles a)
                            ∧ ag_role r = Lead ∧ covers_area r p = true
             | ReqLabManager => ag_role r = LabManager
             | ReqOwner => False
             end)
  ∧ (pe_required_tier ev = ReqOwner → pe_target_reviewer ev = owner_of owner_login).
Proof.
  cbn zeta. unfold evaluate_pr_policy. set (a := attribution _ _ _).
  set (prot := protected_of _ _ _ _ _).
  destruct (required_tier_of _ _ _ _ _ _) as [[tier target] last_] eqn:Ht. cbn.
  split; [intros f; apply protected_of_spec|].
  unfold required_tier_of in Ht.
  destruct (not_empty prot || _ || _ || _ || _ || _) eqn:Hclean; [simplify_eq; done|].
  repeat (apply orb_false_iff in Hclean as [Hclean ?]). bool_prop.
  clean_lists. destruct (contains (at_roles a) Lead) eqn:Hl.
  - destruct (find_lab_manager _ _) as [lm|] eqn:Hf; simplify_eq; [|done]. split; [|done]. intros _.
    apply find_elem in Hf as [? Hf]. bool_prop. clean_lists.
    split_and!; try done. exists lm. done.
  - rewrite contains_false in Hl. destruct (find_project_lead _ _ _) as [lead|] eqn:Hf; simplify_eq.
    { split; [|done]. intros _. apply find_elem in Hf as [? Hf]. bool_prop. clean_lists.
      split_and!; try done. exists lead. done. }
    destruct (find_lab_manager _ _) as [lm|] eqn:Hf'; simplify_eq; [|done]. split; [|done]. intros _.
    apply find_elem in Hf' as [? Hf']. bool_prop. clean_lists.
    split_and!; try done. exists lm. done.
Qed.

(** An agent's authority over a change: an action is authorised exactly when
    the agent is active, is not a co-author under any spelling of its name,
    the change is clean, and its role satisfies the required tier; nothing
    at the owner's tier is an agent's to approve. Merging adds only that an
    active co-author of a clean-attribution change may merge it. *)
Theorem agent_authority ev caller :
  let co_author := existsb (fun c => eq_ignore_ascii_case c (ag_name_key caller)) (pe_co_authors ev) in
  (authorize_agent_action ev caller = Ok tt ↔
     ag_status caller = Active ∧ co_author = false ∧ pe_protected_files ev = []
     ∧ pe_unattributed_commits ev = [] ∧ pe_unknown_co_authors ev = []
     ∧ match pe_required_tier ev with
       | ReqLead p => (ag_role caller = Lead ∧ covers_area caller p = true) ∨ ag_role caller = LabManager
       | ReqLabManager => ag_role caller = LabManager
       | ReqOwner => False
       end)
  ∧ (authorize_agent_merge ev caller = Ok tt ↔
       (ag_status caller = Active ∧ pe_unattributed_commits ev = [] ∧ pe_unknown_co_authors ev = []
        ∧ co_author = true)
       ∨ authorize_agent_action ev caller = Ok tt).
Proof.
  intros co.
  assert (authorize_agent_action ev caller = Ok tt ↔
     ag_status caller = Active ∧ co = false ∧ pe_protected_files ev = []
     ∧ pe_unattributed_commits ev = [] ∧ pe_unknown_co_authors ev = []
     ∧ match pe_required_tier ev with
       | ReqLead p => (ag_role caller = Lead ∧ covers_area caller p = true) ∨ ag_role caller = LabManager
       | ReqLabManager => ag_role caller = LabManager
       | ReqOwner => False
       end) as Hact.
  { unfold authorize_agent_action. fold co. rewrite <- !not_empty_false.
    destruct (bool_decide (ag_status caller = Active)) eqn:Hs; bool_prop; cbn; [|split; [done|intros (? & _); done]].
    destruct co; [split; [done|intros (_ & ? & _); done]|].
    destruct (not_empty (pe_protected_files ev)); [split; [done|intros (_ & _ & ? & _); done]|].
    destruct (not_empty (pe_unattributed_commits ev)); [split; [done|intros (_ & _ & _ & ? & _); done]|].
    destruct (not_empty (pe_unknown_co_authors ev)); [split; [done|intros (_ & _ & _ & _ & ? & _); done]|].
    destruct (pe_required_tier ev) as [p| |].
    - destruct (_ || _) eqn:Hr.
      + split; [intros _; split_and!; try done|done]. bool_prop.
        destruct Hr as [Hr|Hr]; bool_prop; auto.
      + split; [done|]. apply orb_false_iff in Hr as [Hr1 Hr2%bool_decide_eq_false].
        intros (_ & _ & _ & _ & _ & [[E1 E2]|E]); [|done].
        by rewrite E1, E2, bool_decide_eq_true_2 in Hr1.
    - case_bool_decide; cbn; split; try done. intros (_ & _ & _ & _ & _ & ?). done.
    - split; [done|]. intros (_ & _ & _ & _ & _ & ?). done. }
  split; [exact Hact|]. unfold authorize_agent_merge. fold co. split.
  - case_bool_decide as Hs; cbn; [|done].
    destruct (not_empty (pe_unattributed_commits ev)) eqn:H1; [done|].
    destruct (not_empty (pe_unknown_co_authors ev)) eqn:H2; [done|]. clean_lists.
    destruct co; auto.
  - intros [(Ha & Hu & Hk & Hc)|H].
    + by rewrite Ha, Hu, Hk, Hc.
    + pose proof (proj1 Hact H) as (Ha & Hc & _ & Hu & Hk & _). by rewrite Ha, Hu, Hk, Hc.
Qed.

(** ** What an approval rests on *)

Section ReviewSpec.
Context (marker_of_json : string → option FlReviewMarker).
Context (head_sha : string) (eval : PrPolicyEvaluation) (agents : list AgentRecord)
        (owner_login : string) (apps : ReviewerApps).

Let owner := owner_of owner_login.
Let entry := fold_entry marker_of_json head_sha eval agents owner apps.
Let approvals := fun reviews =>
  verify_merge_approvals marker_of_json head_sha eval reviews agents owner_login apps.

Lemma id_leb_total (a b : PrReviewSummary) :
  (rv_id a <=? rv_id b)%N = true ∨ (rv_id b <=? rv_id a)%N = true.
Proof. rewrite !N.leb_le. lia. Qed.

Lemma id_leb_trans (a b c : PrReviewSummary) :
  (rv_id a <=? rv_id b)%N = true → (rv_id b <=? rv_id c)%N = true → (rv_id a <=? rv_id c)%N = true.
Proof. rewrite !N.leb_le. lia. Qed.

(** What the fold holds under a key is its last entry. *)
Lemma fold_lookup l m k v :
  foldl (fun m r => insert_entry m (entry r)) m l !! k = Some v →
  (m !! k = Some v ∧ ∀ r e, r ∈ l → entry r ≠ Some (k, e))
  ∨ ∃ l1 r l2, l = l1 ++ r :: l2 ∧ entry r = Some (k, v) ∧ ∀ r' e, r' ∈ l2 → entry r' ≠ Some (k, e).
Proof.
  revert m. induction l as [|r l IH]; intros m; cbn; [left; split; [done|set_solver]|].
  intros [[Hm Hl]|(l1 & r' & l2 & -> & H1 & H2)]%IH; cycle 1.
  { right. exists (r :: l1), r', l2. done. }
  unfold insert_entry in Hm. destruct (entry r) as [[k' v']|] eqn:Hr; cycle 1.
  { left. split; [done|]. intros r' e [->|?]%elem_of_cons; [congruence|eauto]. }
  destruct (decide (k' = k)) as [->|Hne].
  - rewrite lookup_insert_eq in Hm. simplify_eq. right. exists [], r, l. done.
  - rewrite lookup_insert_ne in Hm by done. left. split; [done|].
    intros r' e [->|?]%elem_of_cons; [congruence|eauto].
Qed.

(** A review is the latest under its key: no review with a higher id is
    folded under the same key. *)
Definition latest_under (reviews : list PrReviewSummary) (k : string) (r : PrReviewSummary) : Prop :=
  r ∈ reviews ∧ ∀ r' e, r' ∈ reviews → (rv_id r < rv_id r')%N → entry r' ≠ Some (k, e).

Lemma latest_lookup reviews k v :
  latest_by_reviewer marker_of_json head_sha eval reviews agents owner apps !! k = Some v →
  ∃ r, latest_under reviews k r ∧ entry r = Some (k, v).
Proof.
  unfold latest_by_reviewer. intros [[H _]|(l1 & r & l2 & Hl & Hr & Hlast)]%fold_lookup.
  { by rewrite lookup_empty in H. }
  exists r. split; [|done].
  assert (∀ x, x ∈ by_id reviews ↔ x ∈ reviews) as Hin by (intros; apply sort_by_elem).
  split; [rewrite <- Hin, Hl; set_solver|]. intros r' e Hr' Hid. apply Hlast.
  pose proof (sort_by_sorted (fun a b => (rv_id a <=? rv_id b)%N) id_leb_total id_leb_trans reviews) as Hs.
  fold (by_id reviews) in Hs. rewrite Hl in Hs.
  apply (sorted_split _ id_leb_total id_leb_trans l1 r l2 r' Hs); [|by apply N.leb_gt].
  rewrite <- Hl. by apply Hin.
Qed.

Lemma fold_present l m k :
  is_Some (m !! k) → is_Some (foldl (fun m r => insert_entry m (entry r)) m l !! k).
Proof.
  revert m. induction l as [|x l IH]; intros m Hm; cbn; [done|]. apply IH.
  unfold insert_entry. destruct (entry x) as [[k' v]|]; [|done].
  destruct (decide (k' = k)) as [->|]; [rewrite lookup_insert_eq|rewrite lookup_insert_ne by done]; eauto.
Qed.

(** Every folded review leaves something under its key. *)
Lemma latest_present reviews r k e :
  r ∈ reviews → entry r = Some (k, e) →
  is_Some (latest_by_reviewer marker_of_json head_sha eval reviews agents owner apps !! k).
Proof.
  unfold latest_by_reviewer. intros Hr He. assert (r ∈ by_id reviews) as Hin by (by apply sort_by_elem).
  revert Hin. generalize (∅ : gmap string FoldedReviewState).
  induction (by_id reviews) as [|x l IH]; intros m Hin; [set_solver|]. cbn.
  apply elem_of_cons in Hin as [<-|Hin]; [|by apply IH].
  apply fold_present. fold entry. rewrite He. cbn. rewrite lookup_insert_eq. eauto.
Qed.

Lemma values_elem (m : gmap string FoldedReviewState) e : e ∈ values_by_key m ↔ ∃ k, m !! k = Some e.
Proof.
  unfold values_by_key. rewrite list_elem_of_fmap. setoid_rewrite sort_by_elem. split.
  - intros ([k v] & -> & H%elem_of_map_to_list). eauto.
  - intros [k H]. exists (k, e). split; [done|]. by apply elem_of_map_to_list.
Qed.

(** What a valid folded approval says. *)
Definition approves (r : PrReviewSummary) (label : string) : Prop :=
  to_ascii_uppercase (trim (rv_state r)) = "APPROVED"
  ∧ ((eq_ignore_ascii_case (rv_author_login r) owner = true ∧ rv_commit_id r = Some head_sha ∧ label = owner)
     ∨ (wrote apps r = true
        ∧ ∃ marker agent, extract_review_marker marker_of_json (rv_body r) = Some marker
            ∧ mk_verdict marker = Approved ∧ mk_head_sha marker = head_sha
            ∧ (∀ cid, rv_commit_id r = Some cid → cid = head_sha)
            ∧ marker_agent agents marker = Some agent
            ∧ authorize_agent_action eval agent = Ok tt ∧ label = mk_reviewer marker)).

Lemma entry_approves r k e :
  entry r = Some (k, e) → fr_state e = "APPROVED" → fr_valid_for_head e = true → approves r (fr_label e).
Proof.
  unfold entry, fold_entry. intros H Hst Hv.
  destruct (negb _); [done|]. destruct (eq_ignore_ascii_case _ owner) eqn:Ho.
  { injection H as <- <-. cbn in *. bool_prop. split; [done|]. left. done. }
  destruct (_ && negb (wrote apps r)) eqn:Hw; [done|].
  destruct (extract_review_marker _ _) as [marker|] eqn:Hm; [|done].
  injection H as <- <-. cbn in *. repeat (apply andb_true_iff in Hv as [Hv ?]). bool_prop.
  destruct (marker_agent agents marker) as [agent|] eqn:Ha; [|done].
  split; [done|]. right. split.
  { destruct Hw as [Hw|Hw]; bool_prop; [congruence|done]. }
  exists marker, agent. split_and!; try done.
  - intros cid Hc. match goal with H : is_none_or _ _ = true |- _ => rewrite Hc in H; cbn in H end. bool_prop. done.
  - match goal with H : is_ok _ = true |- _ => apply is_ok_spec in H as [[] ?] end. done.
Qed.


(** A review that is an outsider's approval: not the owner's, not the App's. *)
Definition outsider_approval (r : PrReviewSummary) : bool :=
  (to_ascii_uppercase (trim (rv_state r)) == "APPROVED")
  && negb (eq_ignore_ascii_case (rv_author_login r) owner) && negb (wrote apps r).

Lemma outsider_entry r : outsider_approval r = true → entry r = None.
Proof.
  unfold outsider_approval, entry, fold_entry. intros H. bool_prop.
  match goal with H : to_ascii_uppercase _ = _ |- _ => rewrite H end.
  match goal with H : eq_ignore_ascii_case _ _ = _ |- _ => rewrite H end.
  match goal with H : wrote _ _ = _ |- _ => rewrite H end. cbn. done.
Qed.

Lemma fold_skip p l m :
  (∀ r, p r = false → entry r = None) →
  foldl (fun m r => insert_entry m (entry r)) m (List.filter p l)
  = foldl (fun m r => insert_entry m (entry r)) m l.
Proof.
  intros Hp. revert m. induction l as [|r l IH]; intros m; cbn; [done|].
  destruct (p r) eqn:E; cbn; [apply IH|]. rewrite (Hp r E). cbn. apply IH.
Qed.

(** An outsider cannot approve and the listing order does not matter:
    dropping the approvals of every account that is neither the owner nor the
    Reviewer App changes no answer, with no reviews left there is no
    approval, and listing reviews with distinct ids in another order gives
    the same answer. *)
Theorem approvals_ignore_outsiders_and_order reviews :
  approvals (List.filter (fun r => negb (outsider_approval r)) reviews) = approvals reviews
  ∧ ((∀ r, r ∈ reviews → outsider_approval r = true) → is_ok (approvals reviews) = false)
  ∧ (∀ reviews', reviews ≡ₚ reviews' → NoDup (rv_id <$> reviews) → approvals reviews' = approvals reviews).
Proof.
  assert (∀ l, approvals (List.filter (fun r => negb (outsider_approval r)) l) = approvals l) as Hskip.
  { intros l. unfold approvals, verify_merge_approvals, latest_by_reviewer, by_id. fold owner.
    rewrite <- (filter_sort_by _ id_leb_total id_leb_trans). fold entry.
    rewrite (fold_skip (fun r => negb (outsider_approval r))); [done|].
    intros r H%negb_false_iff. by apply outsider_entry. }
  split_and!; [apply Hskip| |].
  - intros Hall. rewrite <- Hskip.
    assert (List.filter (fun r => negb (outsider_approval r)) reviews = []) as ->; [|reflexivity].
    clear Hskip. induction reviews as [|r l IH]; cbn; [done|].
    rewrite (Hall r) by set_solver. cbn. apply IH. set_solver.
  - intros reviews' Hp Hnd. unfold approvals, verify_merge_approvals, latest_by_reviewer, by_id.
    erewrite (sort_by_perm_eq _ id_leb_total id_leb_trans reviews reviews'); [done| |done].
    intros x y Hx Hy Hxy Hyx. apply N.leb_le in Hxy, Hyx.
    apply (NoDup_fmap_elem rv_id reviews); [done..|lia].
Qed.
End ReviewSpec.

(** ** Markers survive a review body *)

Lemma split_at_str_none p s : split_at_str p s = None ↔ ∀ a b, s ≠ a +:+ p +:+ b.
Proof.
  split.
  - induction s as [|c s IH]; intros H a b Heq.
    + cbn in H. destruct (strip_prefix p EmptyString) eqn:E; [done|].
      destruct a; [|done]. rewrite str_app_empty in Heq. rewrite Heq, strip_prefix_app in E. done.
    + cbn in H. destruct (strip_prefix p (String c s)) eqn:E; [done|].
      destruct a as [|x a]; [rewrite str_app_empty in Heq; rewrite Heq, strip_prefix_app in E; done|].
      rewrite str_app_cons in Heq. injection Heq as <- ->.
      destruct (split_at_str p _) as [[]|] eqn:Hs; [done|]. by eapply IH.
  - induction s as [|c s IH]; intros H; cbn.
    + destruct (strip_prefix p EmptyString) as [r|] eqn:E; [|done].
      apply strip_prefix_spec in E. destruct (H EmptyString r). done.
    + destruct (strip_prefix p (String c s)) as [r|] eqn:E.
      { apply strip_prefix_spec in E. destruct (H EmptyString r). done. }
      rewrite IH; [done|]. intros a b ->. destruct (H (String c a) b). by rewrite str_app_cons.
Qed.

(** The first occurrence is found when nothing starts earlier. *)
Lemma split_at_str_first p a b :
  (∀ a1 c a2, a = a1 +:+ String c a2 → strip_prefix p (String c a2 +:+ p +:+ b) = None) →
  split_at_str p (a +:+ p +:+ b) = Some (a, b).
Proof.
  induction a as [|c a IH]; intros H.
  - rewrite str_app_empty. destruct (p +:+ b) as [|x t] eqn:E; cbn; rewrite <- E, strip_prefix_app; done.
  - rewrite str_app_cons. cbn. rewrite <- str_app_cons, (H EmptyString c a eq_refl).
    rewrite IH; [done|]. intros a1 d a2 ->. apply (H (String c a1) d a2). by rewrite str_app_cons.
Qed.

(** The last occurrence is found when nothing starts later. *)
Lemma rsplit_at_str_last p a b c t :
  p +:+ b = String c t → rsplit_at_str p t = None → rsplit_at_str p (a +:+ p +:+ b) = Some (a, b).
Proof.
  intros Hp Ht. induction a as [|x a IH].
  - rewrite str_app_empty. pose proof (strip_prefix_app p b) as Hs. rewrite Hp in *. cbn. by rewrite Ht, Hs.
  - rewrite str_app_cons. cbn. by rewrite IH.
Qed.

Definition gt_free (s : string) : Prop := ∀ c, c ∈ chars s → c ≠ ">"%char.

Lemma escape_gt_free s : gt_free (escape_gt s).
Proof.
  unfold gt_free. induction s as [|c s IH]; cbn; [set_solver|]. case_bool_decide as Hc.
  - intros x. unfold chars in *. cbn. fold (chars ("u003e" +:+ escape_gt s)).
    rewrite elem_of_cons, chars_app, elem_of_app. intros [->|[Hx|Hx]]; [done| |by apply IH].
    intros ->. vm_compute in Hx. repeat (apply elem_of_cons in Hx as [Hx|Hx]; [discriminate Hx|]).
    by apply not_elem_of_nil in Hx.
  - intros x. unfold chars in *. cbn. rewrite elem_of_cons. intros [->|Hx]; [done|by apply IH].
Qed.

Lemma escape_gt_app a b : escape_gt (a +:+ b) = escape_gt a +:+ escape_gt b.
Proof.
  induction a as [|c a IH]; [done|]. rewrite str_app_cons. cbn. case_bool_decide.
  - by rewrite IH, (str_app_cons backslash).
  - by rewrite IH, str_app_cons.
Qed.

(** [-->] does not start inside a text without [>] that ends in a space. *)
Lemma no_early_suffix a b :
  gt_free a → (∀ a1 c a2, a +:+ " " = a1 +:+ String c a2 →
    strip_prefix REVIEW_MARKER_SUFFIX (String c a2 +:+ REVIEW_MARKER_SUFFIX +:+ b) = None).
Proof.
  intros Hfree a1 c a2 Heq.
  destruct (strip_prefix _ _) as [r|] eqn:E; [|done]. exfalso. apply strip_prefix_spec in E.
  assert (gt_free (String c a2)) as Hf.
  { intros x Hx Hgt. assert (x ∈ chars (a +:+ " ")) as Hin by (rewrite Heq, chars_app; set_solver).
    rewrite chars_app in Hin. apply elem_of_app in Hin as [Hin|Hin]; [by apply (Hfree x)|].
    cbn in Hin. apply list_elem_of_singleton in Hin as ->. discriminate Hgt. }
  assert (∃ y, String c a2 = y +:+ " ") as [y Hy].
  { apply (f_equal chars) in Heq. rewrite !chars_app in Heq.
    destruct (exists_last (l := chars (String c a2)) ltac:(done)) as (l & z & Hl).
    rewrite Hl, app_assoc in Heq. apply app_inj_tail in Heq as [_ <-].
    exists (str l). apply chars_inj. by rewrite Hl, chars_app, chars_str. }
  unfold REVIEW_MARKER_SUFFIX in E. rewrite Hy in E, Hf.
  destruct y as [|y0 [|y1 [|y2 y]]]; rewrite ?str_app_cons, ?str_app_empty in E; try discriminate E.
  injection E as -> -> -> _. apply (Hf ">"%char); [|reflexivity].
  rewrite !str_app_cons. unfold chars. cbn. set_solver.
Qed.

Lemma trim_object body : trim (" " +:+ "{" +:+ body +:+ "}" +:+ " ") = "{" +:+ body +:+ "}".
Proof.
  unfold trim. apply chars_inj. rewrite chars_str.
  assert (strip_ws (chars (" " +:+ "{" +:+ body +:+ "}" +:+ " ")) = "{"%char :: chars body ++ ["}"%char; " "%char]) as ->.
  { rewrite !chars_app. cbn. destruct (chars body) as [|x [|y l]]; reflexivity. }
  replace (rev ("{"%char :: chars body ++ ["}"%char; " "%char]))
    with (" "%char :: "}"%char :: rev (chars body) ++ ["{"%char]); cycle 1.
  { cbn. by rewrite rev_app_distr. }
  assert (strip_ws_rev (" "%char :: "}"%char :: rev (chars body) ++ ["{"%char])
    = "}"%char :: rev (chars body) ++ ["{"%char]) as ->.
  { cbn. destruct (rev (chars body)) as [|x [|y l]]; cbn.
    - reflexivity.
    - unfold ws2, ws3. rewrite ?andb_false_r. cbn. rewrite ?andb_false_r. reflexivity.
    - unfold ws2, ws3. rewrite ?andb_false_r. cbn. rewrite ?andb_false_r. reflexivity. }
  cbn. rewrite rev_app_distr, rev_involutive, !chars_app. reflexivity.
Qed.

Section MarkerRoundTrip.
Context (marker_to_json : FlReviewMarker → string) (marker_of_json : string → option FlReviewMarker).
(** For the marker at hand: it prints as a JSON object, and [serde_json] reads
    it back, also with every [>] spelled as its [\u003e] escape. *)
Context (m : FlReviewMarker).
Hypothesis json_object : ∃ body, marker_to_json m = "{" +:+ body +:+ "}".
Hypothesis json_roundtrip : marker_of_json (escape_gt (marker_to_json m)) = Some m.

(** A marker written into a review body is read back from it, after any
    prose, also prose that quotes another marker, whatever arrows the fields
    hold; the JSON text must not itself contain the marker prefix. *)
Theorem review_marker_roundtrip prose :
  rsplit_at_str REVIEW_MARKER_PREFIX (" " +:+ escape_gt (marker_to_json m) +:+ " " +:+ REVIEW_MARKER_SUFFIX) = None →
  extract_review_marker marker_of_json (format_review_body marker_to_json prose m) = Some m.
Proof.
  intros Hnone. destruct json_object as [body Hbody].
  set (json := escape_gt (marker_to_json m)) in *.
  set (rest := " " +:+ json +:+ " " +:+ REVIEW_MARKER_SUFFIX) in *.
  assert (∀ a, rsplit_at_str REVIEW_MARKER_PREFIX (a +:+ REVIEW_MARKER_PREFIX +:+ rest) = Some (a, rest)) as Hr.
  { intros a. eapply rsplit_at_str_last; [reflexivity|].
    change (rsplit_at_str REVIEW_MARKER_PREFIX ("!-- fl-review:" +:+ rest) = None).
    repeat (rewrite str_app_cons; cbn [rsplit_at_str]; 
            match goal with |- context [strip_prefix REVIEW_MARKER_PREFIX (String ?c ?t)] =>
              change (strip_prefix REVIEW_MARKER_PREFIX (String c t)) with (@None string) end).
    rewrite str_app_empty, Hnone. done. }
  assert (split_at_str REVIEW_MARKER_SUFFIX rest = Some (" " +:+ json +:+ " ", EmptyString)) as Hs.
  { unfold rest. rewrite <- !str_app_assoc, <- (str_app_nil_r REVIEW_MARKER_SUFFIX), !str_app_assoc.
    rewrite <- !(str_app_assoc _ _ (REVIEW_MARKER_SUFFIX +:+ EmptyString)).
    apply split_at_str_first. rewrite <- str_app_assoc. apply no_early_suffix.
    intros c Hc. rewrite chars_app in Hc. apply elem_of_app in Hc as [Hc|Hc]; [|by apply escape_gt_free in Hc].
    cbn in Hc. apply list_elem_of_singleton in Hc as ->. done. }
  assert (marker_of_json (trim (" " +:+ json +:+ " ")) = Some m) as Hj.
  { assert (json = "{" +:+ escape_gt body +:+ "}") as Hobj
      by (unfold json; rewrite Hbody, !escape_gt_app; reflexivity).
    rewrite Hobj, !str_app_assoc, trim_object, <- Hobj. apply json_roundtrip. }
  unfold extract_review_marker, format_review_body. fold json.
  change (REVIEW_MARKER_PREFIX +:+ " " +:+ json +:+ " " +:+ REVIEW_MARKER_SUFFIX)
    with (REVIEW_MARKER_PREFIX +:+ rest).
  destruct (is_empty_str (trim prose)).
  - rewrite <- (str_app_empty (REVIEW_MARKER_PREFIX +:+ rest)), Hr, Hs. exact Hj.
  - rewrite <- str_app_assoc, Hr, Hs. exact Hj.
Qed.
End MarkerRoundTrip.

(** ** A small pull request *)

Definition demo_eval (tier : RequiredTier) : PrPolicyEvaluation := {|
  pe_project := "core"; pe_co_authors := ["zoe"]; pe_unattributed_commits := []; pe_unknown_co_authors := [];
  pe_protected_files := []; pe_required_tier := tier; pe_target_reviewer := "ann"; pe_escalation_reasons := [] |}.

Definition demo_marker : FlReviewMarker := {|
  mk_reviewer := "Ann"; mk_role := Lead; mk_project := "core"; mk_head_sha := "abc";
  mk_verdict := Approved; mk_at := "t0" |}.

Definition demo_lead : AgentRecord := {|
  ag_id := "urn:a"; ag_name_key := "ann"; ag_display_name := "Ann"; ag_email := "ann@x"; ag_project := "core";
  ag_role := Lead; ag_extra_areas := []; ag_status := Active; ag_updated_at := "t0"; ag_by := "owner" |}.

Definition demo_review (id : N) (state : string) : PrReviewSummary := {|
  rv_id := id; rv_author_login := "ferroloop[bot]"; rv_author_id := Some 341521384%N; rv_state := state;
  rv_body := "fine <!-- fl-review: {} -->"; rv_commit_id := Some "abc" |}.


Lemma review_marker_roundtrip_witness :
  extract_review_marker (fun _ => Some demo_marker)
    (format_review_body (fun _ => "{->}") "see <!-- fl-review: x -->" demo_marker) = Some demo_marker.
Proof.
  apply (review_marker_roundtrip (fun _ => "{->}") (fun _ => Some demo_marker) demo_marker).
  - exists "->". reflexivity.
  - reflexivity.
  - vm_compute. reflexivity.
Defined.

(** Case, backslashes and dot segments do not hide a protected path. *)
Example protected_spellings :
  forallb (fun p => is_protected_path to_ascii_lowercase (fun _ => None) (fun _ => None) p [])
    [".GitHub/workflows/ci.yml"; ".github\x.yml"; "src/../.github/a"; "./.FL//manifest.json"; ".agents"] = true
  ∧ is_protected_path to_ascii_lowercase (fun _ => None) (fun _ => None) "src/github/main.rs" [] = false.
Proof. vm_compute. split; reflexivity. Qed.
