(* ===== verification/Governor.v ===== *)
(** * The admission governor ([core/src/governor.rs])

    Endpoint canonicalisation, scopes and policy, the frozen rate window, the
    replay guard, and the in-memory store: admission reserves a concurrency
    slot and budget units in four scopes at once, settlement gives them back.

    The store is the [Inner] record behind a mutex; [gs_poisoned] is the
    mutex's poison flag, raised when [update_policy]'s closure panics.
    Arithmetic is that of a release build, so the [debug_assert!] of
    [reserve] is absent. The theorems follow arbitrary sequences of store
    operations: the books of each scope are exactly the permits outstanding,
    caps hold, a rate window is frozen at its first observation, and an
    executed dispatch is never replayed inside the guard window. *)

From S2P Require Import Prelude RustStr.

(** ** Principals and endpoints *)

Definition GOVERNANCE_CALLS : list string := ["warrant_revoke_check"; "hub_lifecycle_read"].
Definition DEFAULT_BUDGET_UNITS : N := 64 * 1024 * 1024.

Inductive Principal :=
| Owner
| Warrant (id : string)
| Bundle (id : string).

#[global] Instance Principal_eq_dec : EqDecision Principal.
Proof. solve_decision. Defined.

(** [Principal::scope_string] *)
Definition principal_scope_string (p : Principal) : string :=
  match p with
  | Owner => "principal:owner"
  | Warrant id => "principal:warrant:" +:+ id
  | Bundle id => "principal:bundle:" +:+ id
  end.

Definition is_owner (p : Principal) : bool :=
  match p with Owner => true | _ => false end.

Record EndpointAlias := {
  al_connector_id : string;
  al_tool : string;
  al_host : string;
  al_path_prefix : string;
}.

Definition slash : ascii := "/"%char.

Definition normalize_host (host : string) : string :=
  let h := trim_end_char "."%char (to_ascii_lowercase (trim host)) in
  match strip_suffix ":443" h with
  | Some stripped => stripped
  | None =>
      match strip_suffix ":80" h with
      | Some stripped => stripped
      | None => h
      end
  end.

Definition normalize_path (path : string) : string :=
  if is_empty_str path then ""
  else
    let p := if starts_with "/" path then path else "/" +:+ path in
    if (1 <? str_len p)%N then trim_end_char slash p else p.

Definition canonical_endpoint (connector tool : option string) (url_host path : string) : string :=
  let host := normalize_host url_host in
  if is_empty_str host then
    match connector, tool with
    | Some c, Some t => "connector:" +:+ c +:+ "/" +:+ t
    | _, _ => normalize_path path
    end
  else host +:+ normalize_path path.

(** The alias a connector call names. *)
Definition named_alias (aliases : list EndpointAlias) (connector tool : option string)
  : option EndpointAlias :=
  match connector, tool with
  | Some c, Some t => List.find (fun a => (al_connector_id a == c) && (al_tool a == t)) aliases
  | _, _ => None
  end.

(** The body of the loop over the aliases, on the raw path. *)
Definition raw_alias_matches (host norm_path : string) (a : EndpointAlias) : bool :=
  let prefix := normalize_path (al_path_prefix a) in
  (normalize_host (al_host a) == host)
  && negb (is_empty_str prefix)
  && ((norm_path == prefix) || starts_with (prefix +:+ "/") norm_path).

Definition resolve_canonical_endpoint (aliases : list EndpointAlias) (connector tool : option string)
  (url_host path : string) : string :=
  match named_alias aliases connector tool with
  | Some a => normalize_host (al_host a) +:+ normalize_path (al_path_prefix a)
  | None =>
      let host := normalize_host url_host in
      if negb (is_empty_str host) then
        let norm_path := normalize_path path in
        match List.find (raw_alias_matches host norm_path) aliases with
        | Some a => host +:+ normalize_path (al_path_prefix a)
        | None => host +:+ norm_path
        end
      else canonical_endpoint connector tool url_host path
  end.

(** ** Scopes *)

Inductive ScopeKey :=
| PrincipalScope (p : Principal)
| ProjectScope (project : string)
| EndpointScope (endpoint : string)
| ProjectEndpointScope (project endpoint : string).

(** [ScopeKey::scope_string] *)
Definition scope_string (k : ScopeKey) : string :=
  match k with
  | PrincipalScope p => principal_scope_string p
  | ProjectScope p => "project:" +:+ p
  | EndpointScope e => "endpoint:" +:+ e
  | ProjectEndpointScope p e => "project_endpoint:" +:+ p +:+ "|" +:+ e
  end.

Definition scopes_for (principal : Principal) (project endpoint : string) : list ScopeKey :=
  [PrincipalScope principal; ProjectScope project; EndpointScope endpoint;
   ProjectEndpointScope project endpoint].

(** ** Policy *)

Record ScopePolicy := {
  sp_concurrency_per_scope : option N;
  sp_rate_max_per_window : option N;
  sp_budget_units_per_scope : option N;
}.

Definition default_deadline_window_ms : N := 60000.

Record GovernorPolicy := {
  gp_concurrency_per_scope : N;
  gp_rate_window_ms : N;
  gp_rate_max_per_window : N;
  gp_budget_units_per_scope : N;
  gp_freshness_max_age_ms : N;
  gp_replay_guard_window_ms : N;
  gp_deadline_window_ms : N;
  gp_per_scope : gmap string ScopePolicy;
}.

(** [GovernorPolicy::default] *)
Definition GovernorPolicy_default : GovernorPolicy := {|
  gp_concurrency_per_scope := 4;
  gp_rate_window_ms := 60000;
  gp_rate_max_per_window := 100;
  gp_budget_units_per_scope := DEFAULT_BUDGET_UNITS;
  gp_freshness_max_age_ms := 5000;
  gp_replay_guard_window_ms := 60000;
  gp_deadline_window_ms := default_deadline_window_ms;
  gp_per_scope := ∅;
|}.

Definition concurrency_for (p : GovernorPolicy) (scope : string) : N :=
  unwrap_or (gp_per_scope p !! scope ≫= sp_concurrency_per_scope) (gp_concurrency_per_scope p).
Definition rate_for (p : GovernorPolicy) (scope : string) : N :=
  unwrap_or (gp_per_scope p !! scope ≫= sp_rate_max_per_window) (gp_rate_max_per_window p).
Definition budget_for (p : GovernorPolicy) (scope : string) : N :=
  unwrap_or (gp_per_scope p !! scope ≫= sp_budget_units_per_scope) (gp_budget_units_per_scope p).

(** ** The rate window *)

Record WindowState := {
  ws_window_start_ms : N;
  ws_cap_at_first_observation : N;
  ws_used : N;
}.

Definition window_live (w : WindowState) (now_ms window_ms : N) : bool :=
  (0 <? window_ms)%N && (sat_sub now_ms (ws_window_start_ms w) <? window_ms)%N.

Definition open_window (now_ms current_cap units : N) : WindowState * bool :=
  let admitted := (units <=? current_cap)%N in
  ({| ws_window_start_ms := now_ms; ws_cap_at_first_observation := current_cap;
      ws_used := if admitted then units else 0%N |}, admitted).

Definition window_admit (state : option WindowState) (now_ms window_ms current_cap units : N)
  : WindowState * bool :=
  match state with
  | Some s =>
      if window_live s now_ms window_ms then
        if (sat_add64 (ws_used s) units <=? ws_cap_at_first_observation s)%N
        then ({| ws_window_start_ms := ws_window_start_ms s;
                 ws_cap_at_first_observation := ws_cap_at_first_observation s;
                 ws_used := wrap_add64 (ws_used s) units |}, true)
        else (s, false)
      else open_window now_ms current_cap units
  | None => open_window now_ms current_cap units
  end.

(** ** The replay guard *)

Record LogicalOperationId := {
  lo_digest : string;
  lo_principal : Principal;
  lo_project : string;
  lo_endpoint_set_digest : string;
}.

#[global] Instance LogicalOperationId_eq_dec : EqDecision LogicalOperationId.
Proof. solve_decision. Defined.

Inductive RecordedOutcome := RExecuted | RUnknownAfterSend.

#[global] Instance RecordedOutcome_eq_dec : EqDecision RecordedOutcome.
Proof. solve_decision. Defined.

Inductive SideEffectClass := SideEffectful | IdempotentWithKey.

#[global] Instance SideEffectClass_eq_dec : EqDecision SideEffectClass.
Proof. solve_decision. Defined.

Record ReplayRecord := {
  rr_operation : LogicalOperationId;
  rr_outcome : option RecordedOutcome;
  rr_original_key : option string;
  rr_side_effect_class : SideEffectClass;
  rr_endpoint : string;
  rr_recorded_at_ms : N;
  rr_dispatching : bool;
  rr_owner_fresh_action : bool;
}.

Record ReplayAttempt := {
  ra_operation : LogicalOperationId;
  ra_endpoint : string;
  ra_original_key : option string;
  ra_side_effect_class : SideEffectClass;
  ra_owner_fresh_action : bool;
}.

Inductive ReplayDecision :=
| Allowed
| AllowedOwnerFresh
| AllowedReconciliation
| ReplayRefused (reason : string).

#[global] Instance ReplayDecision_eq_dec : EqDecision ReplayDecision.
Proof. solve_decision. Defined.

Definition replay_decision (record : ReplayRecord) (attempt : ReplayAttempt)
  (now_ms guard_window_ms : N) : ReplayDecision :=
  if (0 <? guard_window_ms)%N && (guard_window_ms <? sat_sub now_ms (rr_recorded_at_ms record))%N
  then Allowed
  else
    let uncertain := rr_dispatching record && is_none (rr_outcome record) in
    if negb uncertain && is_none (rr_outcome record) then Allowed
    else if ra_endpoint attempt != rr_endpoint record then ReplayRefused "endpoint_switch_refused"
    else if is_owner (lo_principal (ra_operation attempt)) && ra_owner_fresh_action attempt
    then AllowedOwnerFresh
    else if lo_principal (rr_operation record) != lo_principal (ra_operation attempt) then Allowed
    else if (rr_outcome record == Some RUnknownAfterSend)
         && (rr_side_effect_class record == IdempotentWithKey)
         && (ra_side_effect_class attempt == IdempotentWithKey)
         && is_some (ra_original_key attempt)
         && (ra_original_key attempt == rr_original_key record)
         && negb uncertain
    then AllowedReconciliation
    else ReplayRefused (if uncertain then "uncertain_dispatching_without_outcome"
                        else "replay_guard_refused").

(** ** Requests and permits *)

Record AdmissionRequest := {
  aq_principal : Principal;
  aq_caller_agent : string;
  aq_project : string;
  aq_endpoint : string;
  aq_requested_units : N;
  aq_quota_observed_at_ms : option N;
  aq_governance_call : option string;
  aq_call_name : option string;
  aq_owner_fresh_action : bool;
  aq_operation_digest : option string;
  aq_endpoint_set_digest : string;
  aq_original_key : option string;
  aq_side_effect_class : SideEffectClass;
}.

(** [AdmissionRequest::new] *)
Definition AdmissionRequest_new (principal : Principal) (project endpoint : string) (units : N)
  : AdmissionRequest := {|
  aq_principal := principal; aq_caller_agent := ""; aq_project := project; aq_endpoint := endpoint;
  aq_requested_units := units; aq_quota_observed_at_ms := None; aq_governance_call := None;
  aq_call_name := None; aq_owner_fresh_action := false; aq_operation_digest := None;
  aq_endpoint_set_digest := ""; aq_original_key := None; aq_side_effect_class := SideEffectful |}.

Definition replay_attempt (q : AdmissionRequest) : option ReplayAttempt :=
  (fun digest => {|
    ra_operation := {| lo_digest := digest; lo_principal := aq_principal q;
                       lo_project := aq_project q;
                       lo_endpoint_set_digest := aq_endpoint_set_digest q |};
    ra_endpoint := aq_endpoint q;
    ra_original_key := aq_original_key q;
    ra_side_effect_class := aq_side_effect_class q;
    ra_owner_fresh_action := aq_owner_fresh_action q |}) <$> aq_operation_digest q.

Definition is_governance (q : AdmissionRequest) : bool :=
  is_some_and (option_or (aq_governance_call q) (aq_call_name q)) (contains GOVERNANCE_CALLS).

Record Permit := {
  pm_id : string;
  pm_scopes : list string;
  pm_reserved_units : N;
  pm_deadline_mono_ms : N;
  pm_governance_lane : bool;
  pm_confirmed_dispatched : bool;
}.

Inductive AdmissionOutcome :=
| AdmittedWith (permit : Permit)
| Deferred (retry_after_ms : N) (reason : string)
| Denied (reason : string)
| AdmissionUnavailable.

Inductive SettledOutcome := SExecuted | SUnknownAfterSend | SNeverDispatched.

#[global] Instance SettledOutcome_eq_dec : EqDecision SettledOutcome.
Proof. solve_decision. Defined.

Record SettleRequest := {
  sr_permit_id : string;
  sr_actual_units : N;
  sr_outcome : SettledOutcome;
  sr_complete : bool;
}.

Inductive ReplayRecordAction :=
| RecordDispatching
| RecordOutcome (outcome : RecordedOutcome)
| ClearDispatching.

Record ReplayRequest := {
  rq_attempt : ReplayAttempt;
  rq_now_ms : N;
  rq_record : option ReplayRecordAction;
}.

Inductive GovernorError :=
| UnknownPermit (id : string)
| Unavailable
| Invalid (what : string).

(** ** The store *)

Record ScopeState := {
  ss_window : option WindowState;
  ss_budget_used : N;
  ss_budget_reserved : N;
  ss_concurrency_live : N;
}.

(** [ScopeState::default] *)
Definition ScopeState_default : ScopeState :=
  {| ss_window := None; ss_budget_used := 0; ss_budget_reserved := 0; ss_concurrency_live := 0 |}.

Record PermitRecord := {
  pr_permit : Permit;
  pr_completed : bool;
  pr_settled : bool;
}.

Record Inner := {
  in_policy : GovernorPolicy;
  in_scopes : gmap string ScopeState;
  in_permits : gmap string PermitRecord;
  in_replay : list ReplayRecord;
  in_next_id : N;
}.

(** The governor half of [MemGovernorStore]; the failover journal has its own
    mutex. *)
Record MemGovernorStore := {
  gs_inner : Inner;
  gs_poisoned : bool;
}.

(** [MemGovernorStore::new] *)
Definition MemGovernorStore_new (policy : GovernorPolicy) : MemGovernorStore := {|
  gs_inner := {| in_policy := policy; in_scopes := ∅; in_permits := ∅; in_replay := []; in_next_id := 1 |};
  gs_poisoned := false |}.

Definition set_policy (g : Inner) (p : GovernorPolicy) : Inner := {|
  in_policy := p; in_scopes := in_scopes g; in_permits := in_permits g;
  in_replay := in_replay g; in_next_id := in_next_id g |}.
Definition set_scopes (g : Inner) (m : gmap string ScopeState) : Inner := {|
  in_policy := in_policy g; in_scopes := m; in_permits := in_permits g;
  in_replay := in_replay g; in_next_id := in_next_id g |}.
Definition set_permits (g : Inner) (m : gmap string PermitRecord) : Inner := {|
  in_policy := in_policy g; in_scopes := in_scopes g; in_permits := m;
  in_replay := in_replay g; in_next_id := in_next_id g |}.
Definition set_replay (g : Inner) (l : list ReplayRecord) : Inner := {|
  in_policy := in_policy g; in_scopes := in_scopes g; in_permits := in_permits g;
  in_replay := l; in_next_id := in_next_id g |}.

(** A closure on the policy: what it leaves there, and whether it returned
    (a panic poisons the mutex). [None] is the panic of the caller. *)
Definition update_policy (f : GovernorPolicy → GovernorPolicy * bool) (st : MemGovernorStore)
  : MemGovernorStore * option unit :=
  if gs_poisoned st then (st, None)
  else
    let '(p, returned) := f (in_policy (gs_inner st)) in
    ({| gs_inner := set_policy (gs_inner st) p; gs_poisoned := negb returned |},
     if returned then Some tt else None).

Definition scope_of (g : Inner) (s : string) : ScopeState :=
  unwrap_or (in_scopes g !! s) ScopeState_default.

Definition budget_used_for (st : MemGovernorStore) (scope : string) : option N :=
  if gs_poisoned st then None else Some (ss_budget_used (scope_of (gs_inner st) scope)).

(** [snapshot] reads through a poisoned lock; [from_snapshot] starts clean. *)
Definition snapshot (st : MemGovernorStore) : Inner := gs_inner st.
Definition from_snapshot (snap : Inner) : MemGovernorStore :=
  {| gs_inner := snap; gs_poisoned := false |}.

(** *** Admission *)

Definition freshness_check (g : Inner) (now_ms : N) (q : AdmissionRequest) : Result unit AdmissionOutcome :=
  let age := gp_freshness_max_age_ms (in_policy g) in
  match aq_quota_observed_at_ms q with
  | Some obs =>
      if (0 <? age)%N && (age <? sat_sub now_ms obs)%N then Err (Deferred age "stale_quota") else Ok tt
  | None => Ok tt
  end.

Definition concurrency_check (g : Inner) (s : string) : Result unit AdmissionOutcome :=
  let cap := concurrency_for (in_policy g) s in
  if (0 <? cap)%N && (cap <=? ss_concurrency_live (scope_of g s))%N
  then Err (Deferred 100 ("concurrency_exhausted:" +:+ s)) else Ok tt.

Definition rate_check (g : Inner) (now_ms : N) (s : string) : Result unit AdmissionOutcome :=
  let window_ms := gp_rate_window_ms (in_policy g) in
  match ss_window (scope_of g s) with
  | Some w =>
      if window_live w now_ms window_ms
         && (ws_cap_at_first_observation w <? sat_add64 (ws_used w) 1)%N
      then Err (Deferred (sat_sub window_ms (sat_sub now_ms (ws_window_start_ms w)))
                         ("rate_exhausted:" +:+ s))
      else Ok tt
  | None =>
      if (rate_for (in_policy g) s =? 0)%N
      then Err (Deferred window_ms ("rate_exhausted:" +:+ s)) else Ok tt
  end.

Definition budget_check (g : Inner) (units : N) (s : string) : Result unit AdmissionOutcome :=
  let st := scope_of g s in
  if (budget_for (in_policy g) s
      <? sat_add64 (sat_add64 (ss_budget_used st) (ss_budget_reserved st)) units)%N
  then Err (Denied ("budget_exhausted:" +:+ s)) else Ok tt.

(** The commit of one scope: consume the window and reserve the budget. *)
Definition consume_scope (p : GovernorPolicy) (now_ms units : N) (s : string) (entry : ScopeState) : ScopeState :=
  let '(new_w, _) := window_admit (ss_window entry) now_ms (gp_rate_window_ms p) (rate_for p s) 1 in
  {| ss_window := Some new_w;
     ss_budget_used := ss_budget_used entry;
     ss_budget_reserved := sat_add64 (ss_budget_reserved entry) units;
     ss_concurrency_live := ss_concurrency_live entry |}.

Definition consume (p : GovernorPolicy) (now_ms units : N) (m : gmap string ScopeState) (s : string)
  : gmap string ScopeState :=
  <[s := consume_scope p now_ms units s (unwrap_or (m !! s) ScopeState_default)]> m.

(** [entry(s).or_default()], on the governance lane. *)
Definition ensure_scope (m : gmap string ScopeState) (s : string) : gmap string ScopeState :=
  <[s := unwrap_or (m !! s) ScopeState_default]> m.

Definition add_live (st : ScopeState) : ScopeState := {|
  ss_window := ss_window st; ss_budget_used := ss_budget_used st;
  ss_budget_reserved := ss_budget_reserved st;
  ss_concurrency_live := wrap_add32 (ss_concurrency_live st) 1 |}.

Definition take_slot (m : gmap string ScopeState) (s : string) : gmap string ScopeState := alter add_live s m.

Definition request_scopes (q : AdmissionRequest) : list string :=
  scope_string <$> scopes_for (aq_principal q) (aq_project q) (aq_endpoint q).

(** The checks that precede the commit. *)
Definition pre_checks (g : Inner) (q : AdmissionRequest) (now_ms : N) : Result unit AdmissionOutcome :=
  let ss := request_scopes q in
  let? _ := freshness_check g now_ms q in
  let? _ := for_each (concurrency_check g) ss in
  if is_governance q then Ok tt
  else
    let? _ := for_each (rate_check g now_ms) ss in
    for_each (budget_check g (aq_requested_units q)) ss.

Definition permit_id (n : N) : string := "permit-" +:+ pretty n.

Definition new_permit (g : Inner) (q : AdmissionRequest) (now_ms : N) : Permit := {|
  pm_id := permit_id (in_next_id g);
  pm_scopes := request_scopes q;
  pm_reserved_units := if is_governance q then 0%N else aq_requested_units q;
  pm_deadline_mono_ms := sat_add64 now_ms (gp_deadline_window_ms (in_policy g));
  pm_governance_lane := is_governance q;
  pm_confirmed_dispatched := false |}.

Definition commit (g : Inner) (q : AdmissionRequest) (now_ms : N) : Inner :=
  let ss := request_scopes q in
  let scopes :=
    if is_governance q then foldl ensure_scope (in_scopes g) ss
    else foldl (consume (in_policy g) now_ms (aq_requested_units q)) (in_scopes g) ss in
  let permit := new_permit g q now_ms in
  {| in_policy := in_policy g;
     in_scopes := foldl take_slot scopes ss;
     in_permits := <[pm_id permit := {| pr_permit := permit; pr_completed := false; pr_settled := false |}]>
                     (in_permits g);
     in_replay := in_replay g;
     in_next_id := wrap_add64 (in_next_id g) 1 |}.

Definition with_inner (st : MemGovernorStore) (g : Inner) : MemGovernorStore :=
  {| gs_inner := g; gs_poisoned := gs_poisoned st |}.

(** [GovernorStore::reserve] *)
Definition reserve (st : MemGovernorStore) (q : AdmissionRequest) (now_ms : N)
  : MemGovernorStore * Result AdmissionOutcome GovernorError :=
  if gs_poisoned st then (st, Err Unavailable)
  else
    let g := gs_inner st in
    match pre_checks g q now_ms with
    | Err outcome => (st, Ok outcome)
    | Ok _ => (with_inner st (commit g q now_ms), Ok (AdmittedWith (new_permit g q now_ms)))
    end.

(** *** Settlement *)

Definition charge (outcome : SettledOutcome) (actual reserved : N) : N :=
  match outcome with
  | SExecuted => N.min actual reserved
  | SUnknownAfterSend => reserved
  | SNeverDispatched => 0
  end.

Definition releases (r : SettleRequest) : bool :=
  (sr_outcome r != SUnknownAfterSend) && (sr_complete r || (sr_outcome r == SNeverDispatched)).

(** One scope of a settled permit. *)
Definition settle_scope (governance release : bool) (reserved charged : N) (st : ScopeState) : ScopeState := {|
  ss_window := ss_window st;
  ss_budget_used := if governance then ss_budget_used st else sat_add64 (ss_budget_used st) charged;
  ss_budget_reserved := if governance then ss_budget_reserved st else sat_sub (ss_budget_reserved st) reserved;
  ss_concurrency_live := if release then sat_sub (ss_concurrency_live st) 1 else ss_concurrency_live st |}.

Definition settle_scopes (p : Permit) (r : SettleRequest) (m : gmap string ScopeState) : gmap string ScopeState :=
  foldl (fun m s => alter (settle_scope (pm_governance_lane p) (releases r) (pm_reserved_units p)
                             (charge (sr_outcome r) (sr_actual_units r) (pm_reserved_units p))) s m)
        m (pm_scopes p).

(** [GovernorStore::settle] *)
Definition settle (st : MemGovernorStore) (r : SettleRequest) : MemGovernorStore * Result unit GovernorError :=
  if gs_poisoned st then (st, Err Unavailable)
  else
    let g := gs_inner st in
    match in_permits g !! sr_permit_id r with
    | None => (st, Err (UnknownPermit (sr_permit_id r)))
    | Some rec =>
        if pr_settled rec then (st, Ok tt)
        else
          let rec' := {| pr_permit := pr_permit rec; pr_completed := releases r || pr_completed rec;
                         pr_settled := true |} in
          (with_inner st
             (set_scopes (set_permits g (<[sr_permit_id r := rec']> (in_permits g)))
                (settle_scopes (pr_permit rec) r (in_scopes g))),
           Ok tt)
    end.

(** *** The replay log *)

(** The four fields the code compares are all of [LogicalOperationId]. *)
Definition same_operation (a b : LogicalOperationId) : bool :=
  (lo_digest a == lo_digest b) && (lo_principal a == lo_principal b)
  && (lo_project a == lo_project b) && (lo_endpoint_set_digest a == lo_endpoint_set_digest b).

(** [iter().rev().find(..)]. *)
Definition rfind {A} (p : A → bool) (l : list A) : option A := List.find p (rev l).

(** [rposition] and [remove]: drop the last element that satisfies [p]. *)
Fixpoint remove_first {A} (p : A → bool) (l : list A) : list A :=
  match l with
  | [] => []
  | x :: l' => if p x then l' else x :: remove_first p l'
  end.
Definition remove_last {A} (p : A → bool) (l : list A) : list A := rev (remove_first p (rev l)).

(** [iter_mut().rev()] up to the first hit: change the last match. *)
Fixpoint update_first {A} (p : A → bool) (f : A → A) (l : list A) : list A :=
  match l with
  | [] => []
  | x :: l' => if p x then f x :: l' else x :: update_first p f l'
  end.
Definition update_last {A} (p : A → bool) (f : A → A) (l : list A) : list A :=
  rev (update_first p f (rev l)).

(** The record pushed for an attempt. *)
Definition attempt_record (a : ReplayAttempt) (outcome : option RecordedOutcome) (now_ms : N) : ReplayRecord := {|
  rr_operation := ra_operation a;
  rr_outcome := outcome;
  rr_original_key := ra_original_key a;
  rr_side_effect_class := ra_side_effect_class a;
  rr_endpoint := ra_endpoint a;
  rr_recorded_at_ms := now_ms;
  rr_dispatching := true;
  rr_owner_fresh_action := ra_owner_fresh_action a |}.

Definition with_outcome (a : ReplayAttempt) (o : RecordedOutcome) (now_ms : N) (r : ReplayRecord) : ReplayRecord := {|
  rr_operation := rr_operation r;
  rr_outcome := Some o;
  rr_original_key := ra_original_key a;
  rr_side_effect_class := rr_side_effect_class r;
  rr_endpoint := ra_endpoint a;
  rr_recorded_at_ms := now_ms;
  rr_dispatching := rr_dispatching r;
  rr_owner_fresh_action := rr_owner_fresh_action r |}.

Definition record_replay (a : ReplayAttempt) (now_ms : N) (action : ReplayRecordAction)
  (l : list ReplayRecord) : list ReplayRecord :=
  let ours r := same_operation (rr_operation r) (ra_operation a) in
  match action with
  | RecordDispatching => l ++ [attempt_record a None now_ms]
  | ClearDispatching => remove_last (fun r => ours r && is_none (rr_outcome r)) l
  | RecordOutcome o =>
      if existsb ours l then update_last ours (with_outcome a o now_ms) l
      else l ++ [attempt_record a (Some o) now_ms]
  end.

Definition owner_fresh (a : ReplayAttempt) : bool :=
  ra_owner_fresh_action a && is_owner (lo_principal (ra_operation a)).

(** The record the lookup finds for an attempt. *)
Definition lookup_matches (a : ReplayAttempt) (r : ReplayRecord) : bool :=
  (lo_digest (rr_operation r) == lo_digest (ra_operation a))
  && (lo_project (rr_operation r) == lo_project (ra_operation a))
  && (lo_endpoint_set_digest (rr_operation r) == lo_endpoint_set_digest (ra_operation a))
  && (owner_fresh a || (lo_principal (rr_operation r) == lo_principal (ra_operation a))).

(** [GovernorStore::record_and_check_replay] *)
Definition record_and_check_replay (st : MemGovernorStore) (q : ReplayRequest)
  : MemGovernorStore * Result ReplayDecision GovernorError :=
  if gs_poisoned st then (st, Err Unavailable)
  else
    let g := gs_inner st in
    let a := rq_attempt q in
    match rq_record q with
    | Some action =>
        (with_inner st (set_replay g (record_replay a (rq_now_ms q) action (in_replay g))),
         Ok (match action with
             | RecordDispatching => if owner_fresh a then AllowedOwnerFresh else Allowed
             | _ => Allowed
             end))
    | None =>
        (st, Ok (match rfind (lookup_matches a) (in_replay g) with
                 | Some r => replay_decision r a (rq_now_ms q) (gp_replay_guard_window_ms (in_policy g))
                 | None => Allowed
                 end))
    end.

(** [record_dispatching], [clear_dispatching], [record_outcome], [check_replay] *)
Definition record_action (action : option ReplayRecordAction) (st : MemGovernorStore) (a : ReplayAttempt) (now_ms : N)
  : MemGovernorStore * Result ReplayDecision GovernorError :=
  record_and_check_replay st {| rq_attempt := a; rq_now_ms := now_ms; rq_record := action |}.
Definition record_dispatching (st : MemGovernorStore) (a : ReplayAttempt) (now_ms : N) : MemGovernorStore :=
  (record_action (Some RecordDispatching) st a now_ms).1.
Definition clear_dispatching (st : MemGovernorStore) (a : ReplayAttempt) (now_ms : N) : MemGovernorStore :=
  (record_action (Some ClearDispatching) st a now_ms).1.
Definition record_outcome (st : MemGovernorStore) (a : ReplayAttempt) (o : RecordedOutcome) (now_ms : N)
  : MemGovernorStore :=
  (record_action (Some (RecordOutcome o)) st a now_ms).1.
Definition check_replay (st : MemGovernorStore) (a : ReplayAttempt) (now_ms : N)
  : Result ReplayDecision GovernorError :=
  (record_action None st a now_ms).2.

(** [unconfirmed_permits]; [HashMap] gives the values in no fixed order. *)
Definition unconfirmed_permits (st : MemGovernorStore) : option (list Permit) :=
  if gs_poisoned st then None
  else Some (pr_permit <$> List.filter (fun r => negb (pr_completed r)) (map_to_list (in_permits (gs_inner st))).*2).

(** ** Sequences of store operations *)

Inductive GovOp :=
| OReserve (q : AdmissionRequest) (now_ms : N)
| OSettle (r : SettleRequest)
| OReplay (q : ReplayRequest)
| OPolicy (f : GovernorPolicy → GovernorPolicy * bool).

Definition gov_step (st : MemGovernorStore) (op : GovOp) : MemGovernorStore :=
  match op with
  | OReserve q now_ms => (reserve st q now_ms).1
  | OSettle r => (settle st r).1
  | OReplay q => (record_and_check_replay st q).1
  | OPolicy f => (update_policy f st).1
  end.

Definition gov_run (st : MemGovernorStore) (ops : list GovOp) : MemGovernorStore := foldl gov_step st ops.

(** What a permit still holds of scope [s]: its slot and its reservation. *)
Definition holds (s : string) (r : PermitRecord) : bool := contains (pm_scopes (pr_permit r)) s.
Definition slot_of (s : string) (r : PermitRecord) : N :=
  if negb (pr_completed r) && holds s r then 1 else 0.
Definition held_of (s : string) (r : PermitRecord) : N :=
  if negb (pr_settled r) && holds s r then pm_reserved_units (pr_permit r) else 0.

Definition live_permits (g : Inner) (s : string) : N := map_sum (slot_of s) (in_permits g).
Definition outstanding (g : Inner) (s : string) : N := map_sum (held_of s) (in_permits g).

(** What one operation charges to scope [s]: the settlement of an unsettled
    permit that holds it. *)
Definition op_charge (s : string) (st : MemGovernorStore) (op : GovOp) : N :=
  match op with
  | OSettle r =>
      match in_permits (gs_inner st) !! sr_permit_id r with
      | Some rec =>
          if negb (gs_poisoned st) && negb (pr_settled rec) && holds s rec
          then charge (sr_outcome r) (sr_actual_units r) (pm_reserved_units (pr_permit rec)) else 0
      | None => 0
      end
  | _ => 0
  end.

Fixpoint charges (s : string) (st : MemGovernorStore) (ops : list GovOp) : N :=
  match ops with
  | [] => 0
  | op :: ops' => (op_charge s st op + charges s (gov_step st op) ops')%N
  end.

#[local] Arguments contains : simpl never.
#[local] Arguments request_scopes : simpl never.
#[local] Arguments is_governance : simpl never.
#[local] Arguments scope_of : simpl never.
#[local] Arguments commit : simpl never.

(** ** Maps updated scope by scope *)

Lemma contains_cons (x : string) l k : contains (x :: l) k = (x == k) || contains l k.
Proof. done. Qed.

Lemma foldl_alter_lookup {A} (f : A → A) (ss : list string) (m : gmap string A) k :
  NoDup ss →
  foldl (fun m s => alter f s m) m ss !! k = if contains ss k then f <$> m !! k else m !! k.
Proof.
  revert m. induction ss as [|s ss IH]; intros m; cbn; [done|]. intros [Hs Hnd]%NoDup_cons.
  rewrite IH, contains_cons by done. case_bool_decide as E; cbn.
  - subst. rewrite (proj2 (contains_false ss k) Hs). apply lookup_alter_eq.
  - by rewrite lookup_alter_ne.
Qed.

Lemma foldl_insert_lookup {A} (h : string → A → A) (d : A) (ss : list string) (m : gmap string A) k :
  NoDup ss →
  foldl (fun m s => <[s := h s (unwrap_or (m !! s) d)]> m) m ss !! k
  = if contains ss k then Some (h k (unwrap_or (m !! k) d)) else m !! k.
Proof.
  revert m. induction ss as [|s ss IH]; intros m; cbn; [done|]. intros [Hs Hnd]%NoDup_cons.
  rewrite IH, contains_cons by done. case_bool_decide as E; cbn.
  - subst. rewrite (proj2 (contains_false ss k) Hs). apply lookup_insert_eq.
  - by rewrite lookup_insert_ne.
Qed.

(** The four scopes of a request never coincide: their prefixes differ. *)
Lemma request_scopes_NoDup q : NoDup (request_scopes q).
Proof.
  unfold request_scopes, scopes_for. cbn.
  destruct (aq_principal q); repeat constructor; rewrite ?elem_of_cons, ?elem_of_nil;
    cbn; naive_solver.
Qed.

Lemma permit_id_inj : Inj (=) (=) permit_id.
Proof. intros a b H. apply str_app_inj_l in H. by apply (inj pretty) in H. Qed.

(** ** What admission and settlement do to one scope *)

Definition committed_scope (p : GovernorPolicy) (q : AdmissionRequest) (now_ms : N) (s : string) (st : ScopeState)
  : ScopeState :=
  add_live (if is_governance q then st else consume_scope p now_ms (aq_requested_units q) s st).

Lemma commit_scope_lookup g q now s :
  in_scopes (commit g q now) !! s =
  if contains (request_scopes q) s then Some (committed_scope (in_policy g) q now s (scope_of g s))
  else in_scopes g !! s.
Proof.
  pose proof (request_scopes_NoDup q) as Hnd. unfold commit, committed_scope, scope_of. cbn [in_scopes].
  unfold take_slot. rewrite foldl_alter_lookup by done. destruct (is_governance q).
  - unfold ensure_scope. rewrite (foldl_insert_lookup (fun _ st => st)) by done.
    by destruct (contains _ s).
  - unfold consume. rewrite (foldl_insert_lookup (consume_scope _ _ _)) by done.
    by destruct (contains _ s).
Qed.

Lemma commit_scope_of g q now s :
  scope_of (commit g q now) s =
  if contains (request_scopes q) s then committed_scope (in_policy g) q now s (scope_of g s)
  else scope_of g s.
Proof. unfold scope_of at 1. rewrite commit_scope_lookup. by destruct (contains _ s). Qed.

Lemma committed_scope_budget p q now s st :
  ss_budget_used (committed_scope p q now s st) = ss_budget_used st ∧
  ss_budget_reserved (committed_scope p q now s st) =
    (if is_governance q then ss_budget_reserved st
     else sat_add64 (ss_budget_reserved st) (aq_requested_units q)) ∧
  ss_concurrency_live (committed_scope p q now s st) = wrap_add32 (ss_concurrency_live st) 1.
Proof.
  unfold committed_scope, consume_scope. destruct (is_governance q); [done|].
  by destruct (window_admit _ _ _ _ _).
Qed.

Lemma settle_scopes_lookup p r m s :
  NoDup (pm_scopes p) →
  settle_scopes p r m !! s =
  if contains (pm_scopes p) s
  then settle_scope (pm_governance_lane p) (releases r) (pm_reserved_units p)
         (charge (sr_outcome r) (sr_actual_units r) (pm_reserved_units p)) <$> m !! s
  else m !! s.
Proof. apply foldl_alter_lookup. Qed.

Lemma charge_le outcome actual reserved : (charge outcome actual reserved ≤ reserved)%N.
Proof. destruct outcome; cbn; lia. Qed.

(** The checks a request passed, scope by scope. *)
Lemma pre_checks_ok g q now :
  pre_checks g q now = Ok tt →
  freshness_check g now q = Ok tt ∧
  ∀ s, s ∈ request_scopes q →
    concurrency_check g s = Ok tt ∧
    (is_governance q = false → rate_check g now s = Ok tt ∧ budget_check g (aq_requested_units q) s = Ok tt).
Proof.
  unfold pre_checks. intros ([] & Hf & ([] & Hc & H)%result_bind_ok)%result_bind_ok.
  rewrite for_each_ok in Hc. split; [done|]. intros s Hs. split; [auto|].
  intros Hg. rewrite Hg in H. apply result_bind_ok in H as ([] & Hr & Hb).
  rewrite for_each_ok in Hr, Hb. auto.
Qed.

Lemma pre_checks_unit g q now u : pre_checks g q now = Ok u → pre_checks g q now = Ok tt.
Proof. by destruct u. Qed.

(** ** The books *)

Record books (B : string → N) (g : Inner) : Prop := {
  bk_id : ∀ id r, in_permits g !! id = Some r → ∃ n, id = permit_id n ∧ (n < in_next_id g)%N;
  bk_scopes : ∀ id r, in_permits g !! id = Some r →
    NoDup (pm_scopes (pr_permit r)) ∧ ∀ s, s ∈ pm_scopes (pr_permit r) → is_Some (in_scopes g !! s);
  bk_lane : ∀ id r, in_permits g !! id = Some r →
    pm_governance_lane (pr_permit r) = true → pm_reserved_units (pr_permit r) = 0%N;
  bk_open : ∀ id r, in_permits g !! id = Some r → pr_settled r = false → pr_completed r = false;
  bk_live : ∀ s, ss_concurrency_live (scope_of g s) = live_permits g s;
  bk_reserved : ∀ s, ss_budget_reserved (scope_of g s) = outstanding g s;
  bk_budget : ∀ s, (ss_budget_used (scope_of g s) + ss_budget_reserved (scope_of g s) ≤ B s)%N;
  bk_count : ∀ s, (live_permits g s < in_next_id g)%N;
}.

(** A policy whose budgets are finite: below [u64::MAX], where the saturating
    sum of [budget_check] would no longer tell the cap from an overflow. *)
Definition finite_budget (B : string → N) (p : GovernorPolicy) : Prop :=
  ∀ s, (budget_for p s ≤ B s)%N ∧ (B s < u64_max)%N.

Definition op_policy (P : GovernorPolicy → Prop) (op : GovOp) : Prop :=
  match op with OPolicy f => ∀ p, P (f p).1 | _ => True end.

Section Books.
Context (B : string → N).

Lemma books_new p : books B (gs_inner (MemGovernorStore_new p)).
Proof.
  split; cbn; intros; try by rewrite lookup_empty in *.
  - unfold live_permits. cbn. by rewrite map_sum_empty.
  - unfold outstanding. cbn. by rewrite map_sum_empty.
  - apply N.le_0_l.
  - unfold live_permits. cbn. rewrite map_sum_empty. lia.
Qed.

Lemma fresh_id g : books B g → in_permits g !! permit_id (in_next_id g) = None.
Proof.
  intros Hb. destruct (in_permits g !! _) as [r|] eqn:E; [|done].
  apply (bk_id _ _ Hb) in E as (n & ->%(inj permit_id) & ?). lia.
Qed.

Lemma commit_live g q now s :
  books B g →
  live_permits (commit g q now) s = (live_permits g s + if contains (request_scopes q) s then 1 else 0)%N.
Proof.
  intros Hb. unfold live_permits, commit. cbn.
  rewrite map_sum_insert_new by (by apply fresh_id). unfold slot_of at 1, holds. cbn.
  destruct (contains _ s); lia.
Qed.

Lemma commit_outstanding g q now s :
  books B g →
  outstanding (commit g q now) s =
  (outstanding g s + if contains (request_scopes q) s && negb (is_governance q)
                     then aq_requested_units q else 0)%N.
Proof.
  intros Hb. unfold outstanding, commit. cbn.
  rewrite map_sum_insert_new by (by apply fresh_id). unfold held_of at 1, holds. cbn.
  destruct (contains _ s), (is_governance q); cbn; lia.
Qed.

Lemma sat_add64_exact a b : (a + b ≤ u64_max)%N → sat_add64 a b = (a + b)%N.
Proof. apply N.min_l. Qed.

(** A passed budget check leaves room for the reservation. *)
Lemma budget_check_room g units s :
  finite_budget B (in_policy g) → budget_check g units s = Ok tt →
  (ss_budget_used (scope_of g s) + ss_budget_reserved (scope_of g s) + units ≤ B s)%N ∧ (B s < u64_max)%N.
Proof.
  intros Hf. unfold budget_check. cbv zeta. destruct (Hf s) as [H1 H2].
  generalize dependent (scope_of g s). intros st. destruct (_ <? _)%N eqn:E; [discriminate|]. intros _.
  apply N.ltb_ge in E. unfold sat_add64 in E. revert E H2. generalize u64_max. intros. lia.
Qed.

Lemma commit_books g q now :
  books B g → finite_budget B (in_policy g) → pre_checks g q now = Ok tt →
  (in_next_id g < u32_max)%N → books B (commit g q now).
Proof.
  intros Hb Hf [_ Hc]%pre_checks_ok Hn.
  assert (Hid : in_next_id (commit g q now) = (in_next_id g + 1)%N).
  { unfold commit, wrap_add64. cbn. rewrite N.mod_small; [done|]. width. lia. }
  assert (Hroom : ∀ s, contains (request_scopes q) s = true → is_governance q = false →
    (ss_budget_used (scope_of g s) + ss_budget_reserved (scope_of g s) + aq_requested_units q ≤ B s)%N
    ∧ (B s < u64_max)%N).
  { intros s Hs%contains_spec Hg. apply budget_check_room; [done|]. by apply Hc. }
  assert (Hperm : ∀ id r, in_permits (commit g q now) !! id = Some r →
    (id = permit_id (in_next_id g) ∧ r = {| pr_permit := new_permit g q now; pr_completed := false; pr_settled := false |})
    ∨ in_permits g !! id = Some r).
  { intros id r. unfold commit. cbn. rewrite lookup_insert_Some. naive_solver. }
  split.
  - intros id r [[-> _]|H]%Hperm; [exists (in_next_id g); rewrite Hid; split; [done|lia]|].
    destruct (bk_id _ _ Hb _ _ H) as (n & ? & ?). exists n. rewrite Hid. split; [done|lia].
  - intros id r [[_ ->]|H]%Hperm; cbn.
    + split; [apply request_scopes_NoDup|]. intros s Hs%contains_spec.
      rewrite commit_scope_lookup, Hs. by eexists.
    + destruct (bk_scopes _ _ Hb _ _ H) as [? Hs]. split; [done|]. intros s Hin.
      rewrite commit_scope_lookup. destruct (contains _ s); [by eexists|auto].
  - intros id r [[_ ->]|H]%Hperm; cbn; [by intros ->|by eapply bk_lane].
  - intros id r [[_ ->]|H]%Hperm; cbn; [done|by eapply bk_open].
  - intros s. rewrite commit_scope_of, commit_live by done. pose proof (bk_live _ _ Hb s) as Hl.
    pose proof (bk_count _ _ Hb s). destruct (contains _ s); [|lia].
    destruct (committed_scope_budget (in_policy g) q now s (scope_of g s)) as (_ & _ & ->).
    rewrite Hl. unfold wrap_add32. rewrite N.mod_small; [done|]. width. lia.
  - intros s. rewrite commit_scope_of, commit_outstanding by done. pose proof (bk_reserved _ _ Hb s) as Hl.
    destruct (contains _ s) eqn:Hs; cbn [andb]; [|lia].
    destruct (committed_scope_budget (in_policy g) q now s (scope_of g s)) as (_ & -> & _).
    destruct (is_governance q) eqn:Hg; cbn [negb]; [lia|].
    destruct (Hroom s Hs eq_refl). rewrite sat_add64_exact; lia.
  - intros s. rewrite commit_scope_of. pose proof (bk_budget _ _ Hb s) as Hl.
    destruct (contains _ s) eqn:Hs; [|done].
    destruct (committed_scope_budget (in_policy g) q now s (scope_of g s)) as (-> & -> & _).
    destruct (is_governance q) eqn:Hg; [lia|].
    destruct (Hroom s Hs eq_refl). rewrite sat_add64_exact; lia.
  - intros s. rewrite commit_live, Hid by done. pose proof (bk_count _ _ Hb s).
    destruct (contains _ s); lia.
Qed.

(** The permit record a settlement leaves. *)
Definition settled_record (r : SettleRequest) (rec : PermitRecord) : PermitRecord :=
  {| pr_permit := pr_permit rec; pr_completed := releases r || pr_completed rec; pr_settled := true |}.

Definition settled_inner (g : Inner) (r : SettleRequest) (rec : PermitRecord) : Inner :=
  set_scopes (set_permits g (<[sr_permit_id r := settled_record r rec]> (in_permits g)))
    (settle_scopes (pr_permit rec) r (in_scopes g)).

Section Settlement.
Context (g : Inner) (r : SettleRequest) (rec : PermitRecord).
Context (Hb : books B g) (Hrec : in_permits g !! sr_permit_id r = Some rec) (Hopen : pr_settled rec = false).
Let p := pr_permit rec.
Let reserved := pm_reserved_units p.
Let charged := charge (sr_outcome r) (sr_actual_units r) reserved.

Lemma settled_scope_of s :
  scope_of (settled_inner g r rec) s =
  if holds s rec then settle_scope (pm_governance_lane p) (releases r) reserved charged (scope_of g s)
  else scope_of g s.
Proof.
  destruct (bk_scopes _ _ Hb _ _ Hrec) as [Hnd Hin]. unfold scope_of, settled_inner, set_scopes, holds.
  cbn [in_scopes]. rewrite settle_scopes_lookup by done. destruct (contains _ s) eqn:Hs; [|done].
  apply contains_spec in Hs. destruct (Hin s Hs) as [st ->]. done.
Qed.

Lemma settled_live s :
  (live_permits (settled_inner g r rec) s + (if releases r && holds s rec then 1 else 0) = live_permits g s)%N.
Proof.
  unfold live_permits. cbn. pose proof (map_sum_insert (slot_of s) _ _ (settled_record r rec) _ Hrec) as H.
  pose proof (bk_open _ _ Hb _ _ Hrec Hopen) as Hc. unfold slot_of at 2 3 in H. cbn in H.
  rewrite Hc in H. unfold holds in *. cbn in H.
  destruct (contains _ s), (releases r); cbn in *; lia.
Qed.

Lemma settled_outstanding s :
  (outstanding (settled_inner g r rec) s + (if holds s rec then reserved else 0) = outstanding g s)%N.
Proof.
  unfold outstanding. cbn. pose proof (map_sum_insert (held_of s) _ _ (settled_record r rec) _ Hrec) as H.
  unfold held_of at 2 3 in H. rewrite Hopen in H. unfold holds in *. cbn in H.
  subst reserved p. destruct (contains _ s); cbn in *; lia.
Qed.

Lemma lane_free : pm_governance_lane p = true → reserved = 0%N.
Proof. apply (bk_lane _ _ Hb _ _ Hrec). Qed.

Lemma settled_books : (∀ s, B s < u64_max)%N → books B (settled_inner g r rec).
Proof using Hb Hrec Hopen.
  intros HB.
  assert (Hperm : ∀ id x, in_permits (settled_inner g r rec) !! id = Some x →
    (id = sr_permit_id r ∧ x = settled_record r rec) ∨ in_permits g !! id = Some x).
  { intros id x. cbn. rewrite lookup_insert_Some. naive_solver. }
  assert (Hscope : ∀ s, is_Some (in_scopes g !! s) → is_Some (in_scopes (settled_inner g r rec) !! s)).
  { intros s Hs. cbn. rewrite settle_scopes_lookup by apply (bk_scopes _ _ Hb _ _ Hrec).
    destruct (contains _ s); [by apply fmap_is_Some|done]. }
  assert (Hbounds : ∀ s, holds s rec = true → (reserved ≤ ss_budget_reserved (scope_of g s))%N).
  { intros s Hs. rewrite (bk_reserved _ _ Hb), <- (settled_outstanding s), Hs. lia. }
  pose proof (charge_le (sr_outcome r) (sr_actual_units r) reserved) as Hcharge.
  split.
  - intros id x [[-> _]|H]%Hperm; [exact (bk_id _ _ Hb _ _ Hrec)|exact (bk_id _ _ Hb _ _ H)].
  - intros id x [[-> ->]|H]%Hperm; cbn;
      [destruct (bk_scopes _ _ Hb _ _ Hrec)|destruct (bk_scopes _ _ Hb _ _ H)]; naive_solver.
  - intros id x [[-> ->]|H]%Hperm; [exact lane_free|exact (bk_lane _ _ Hb _ _ H)].
  - intros id x [[-> ->]|H]%Hperm; [done|exact (bk_open _ _ Hb _ _ H)].
  - intros s. rewrite settled_scope_of. pose proof (settled_live s) as Hl. rewrite <- (bk_live _ _ Hb) in Hl.
    destruct (holds s rec), (releases r); cbn in *; unfold sat_sub; lia.
  - intros s. rewrite settled_scope_of. pose proof (settled_outstanding s) as Hl.
    rewrite <- (bk_reserved _ _ Hb) in Hl. destruct (holds s rec) eqn:Hs; [|lia]. cbn.
    destruct (pm_governance_lane p) eqn:Hg; [pose proof (lane_free Hg); lia|]. unfold sat_sub. lia.
  - intros s. rewrite settled_scope_of. pose proof (bk_budget _ _ Hb s) as Hl. specialize (HB s).
    destruct (holds s rec) eqn:Hs; [|done]. cbn. destruct (pm_governance_lane p); [done|].
    specialize (Hbounds s Hs). fold charged in Hcharge. unfold sat_sub. rewrite sat_add64_exact; lia.
  - intros s. pose proof (settled_live s). pose proof (bk_count _ _ Hb s). cbn [in_next_id settled_inner]. cbn. lia.
Qed.

(** The scope is charged exactly what the settlement says. *)
Lemma settled_used s :
  (B s < u64_max)%N →
  ss_budget_used (scope_of (settled_inner g r rec) s) =
  (ss_budget_used (scope_of g s) + if holds s rec then charged else 0)%N.
Proof using Hb Hrec Hopen.
  intros HB. rewrite settled_scope_of. pose proof (bk_budget _ _ Hb s).
  pose proof (charge_le (sr_outcome r) (sr_actual_units r) reserved) as Hcharge. fold charged in Hcharge.
  pose proof (settled_outstanding s) as Hl. rewrite <- (bk_reserved _ _ Hb) in Hl.
  destruct (holds s rec); [|lia]. cbn.
  destruct (pm_governance_lane p) eqn:Hg; [pose proof (lane_free Hg); lia|]. rewrite sat_add64_exact; lia.
Qed.
End Settlement.
End Books.

(** ** Runs *)

Lemma gov_step_poisoned st op : gs_poisoned st = true → gov_step st op = st.
Proof.
  intros Hp. destruct op; cbn; unfold reserve, settle, record_and_check_replay, update_policy; by rewrite Hp.
Qed.

(** What one step does to a store that is not poisoned. *)
Inductive step_effect (st : MemGovernorStore) : GovOp → Inner → Prop :=
| EffNone op : step_effect st op (gs_inner st)
| EffReserve q now :
    pre_checks (gs_inner st) q now = Ok tt → step_effect st (OReserve q now) (commit (gs_inner st) q now)
| EffSettle r rec :
    in_permits (gs_inner st) !! sr_permit_id r = Some rec → pr_settled rec = false →
    step_effect st (OSettle r) (settled_inner (gs_inner st) r rec)
| EffReplay q action :
    rq_record q = Some action →
    step_effect st (OReplay q)
      (set_replay (gs_inner st) (record_replay (rq_attempt q) (rq_now_ms q) action (in_replay (gs_inner st))))
| EffPolicy f :
    step_effect st (OPolicy f) (set_policy (gs_inner st) (f (in_policy (gs_inner st))).1).

Lemma gov_step_effect st op :
  gs_poisoned st = false →
  step_effect st op (gs_inner (gov_step st op)) ∧
  (match op with OPolicy _ => True | _ => gs_poisoned (gov_step st op) = false end).
Proof.
  intros Hp. destruct op as [q now|r|q|f]; cbn;
    unfold reserve, settle, record_and_check_replay, update_policy; rewrite Hp.
  - destruct (pre_checks _ q now) as [[]|o] eqn:E; split; try done; by constructor.
  - destruct (in_permits _ !! _) as [rec|] eqn:E; [|split; [constructor|done]].
    destruct (pr_settled rec) eqn:Hs; (split; [|done]); [constructor|by econstructor].
  - destruct (rq_record q) as [action|] eqn:E; (split; [|done]); [by constructor|constructor].
  - split; [|done]. pose proof (EffPolicy st f) as H. destruct (f _) as [p b]. exact H.
Qed.

Record run_ok (B : string → N) (fuel : N) (st : MemGovernorStore) : Prop := {
  ro_books : books B (gs_inner st);
  ro_policy : finite_budget B (in_policy (gs_inner st));
  ro_ids : (in_next_id (gs_inner st) + fuel ≤ u32_max)%N;
}.

Lemma books_set_policy B g p : books B g → books B (set_policy g p).
Proof. intros []. by split. Qed.
Lemma books_set_replay B g l : books B g → books B (set_replay g l).
Proof. intros []. by split. Qed.

Lemma run_ok_weaken B fuel fuel' st : (fuel' ≤ fuel)%N → run_ok B fuel st → run_ok B fuel' st.
Proof. intros ? []. split; [done..|lia]. Qed.

Lemma commit_next_id g q now :
  (in_next_id g < u32_max)%N → in_next_id (commit g q now) = (in_next_id g + 1)%N.
Proof. intros. unfold commit, wrap_add64. cbn. rewrite N.mod_small; [done|]. width. lia. Qed.

Lemma run_ok_step B fuel st op :
  run_ok B (fuel + 1) st → op_policy (finite_budget B) op → run_ok B fuel (gov_step st op).
Proof.
  intros Hr Hop. destruct (gs_poisoned st) eqn:Hp.
  { rewrite gov_step_poisoned by done. eapply run_ok_weaken; [|done]. lia. }
  destruct (gov_step_effect st op Hp) as [He _], Hr as [Hb Hf Hi].
  cut (books B (gs_inner (gov_step st op)) ∧ finite_budget B (in_policy (gs_inner (gov_step st op)))
       ∧ (in_next_id (gs_inner (gov_step st op)) + fuel ≤ u32_max)%N); [by intros (? & ? & ?)|].
  destruct He as [op'|q now Hc|r rec Hrec Hs|q action Hq|f]; split_and!; try done; try (cbn; lia).
  - apply commit_books; [done..|lia].
  - rewrite commit_next_id; lia.
  - apply settled_books; [done..|]. intros s. apply (Hf s).
  - by apply books_set_replay.
  - by apply books_set_policy.
  - apply Hop.
Qed.

(** One step charges each scope exactly [op_charge]. *)
Lemma gov_step_used B fuel st op s :
  run_ok B fuel st →
  ss_budget_used (scope_of (gs_inner (gov_step st op)) s) =
  (ss_budget_used (scope_of (gs_inner st) s) + op_charge s st op)%N.
Proof.
  intros [Hb Hf _]. destruct (gs_poisoned st) eqn:Hp.
  { rewrite gov_step_poisoned by done. destruct op; cbn; try lia. rewrite Hp. case_match; cbn; lia. }
  destruct op as [q now|r|q|f]; cbn [op_charge]; rewrite ?Hp; cbn [gov_step negb andb].
  - unfold reserve. rewrite Hp. destruct (pre_checks _ q now); cbn; [|lia].
    rewrite commit_scope_of. destruct (contains _ s); [|lia].
    destruct (committed_scope_budget (in_policy (gs_inner st)) q now s (scope_of (gs_inner st) s)) as (-> & _). lia.
  - unfold settle. rewrite Hp. destruct (in_permits _ !! _) as [rec|] eqn:E; cbn; [|lia].
    destruct (pr_settled rec) eqn:Hs; cbn; [lia|].
    apply (settled_used B _ r rec Hb E Hs s). apply (Hf s).
  - unfold record_and_check_replay. rewrite Hp. destruct (rq_record q); cbn; unfold scope_of; cbn; lia.
  - unfold update_policy. rewrite Hp. destruct (f _); cbn. unfold scope_of; cbn; lia.
Qed.

Lemma run_ok_run B st ops :
  run_ok B (len ops) st → Forall (op_policy (finite_budget B)) ops →
  run_ok B 0 (gov_run st ops) ∧
  ∀ s, ss_budget_used (scope_of (gs_inner (gov_run st ops)) s) =
       (ss_budget_used (scope_of (gs_inner st) s) + charges s st ops)%N.
Proof.
  revert st. induction ops as [|op ops IH]; intros st Hr Hops; cbn.
  { split; [done|]. intros. lia. }
  apply Forall_cons in Hops as [Hop Hops].
  assert (Hr1 : run_ok B (len ops) (gov_step st op)).
  { apply run_ok_step; [|done]. eapply run_ok_weaken; [|exact Hr]. unfold len. cbn. lia. }
  destruct (IH _ Hr1 Hops) as [Hend Hused]. split; [done|]. intros s.
  change (foldl gov_step (gov_step st op) ops) with (gov_run (gov_step st op) ops).
  rewrite Hused. rewrite (gov_step_used B _ st op s Hr). lia.
Qed.

Lemma run_ok_new B p (ops : list GovOp) :
  finite_budget B p → (len ops < u32_max)%N → run_ok B (len ops) (MemGovernorStore_new p).
Proof. intros Hf Hn. split; [apply books_new|done|]. cbn. lia. Qed.

(** (C13) The budget books are exact: after any sequence of admissions,
    settlements, replay records and policy changes, a scope has been charged
    exactly what the settlements of its permits say, what it holds reserved is
    the sum of the reservations still outstanding, and the two together never
    exceed the largest budget any policy of the run gave it. *)
Theorem budget_books_exact (B : string → N) (p : GovernorPolicy) (ops : list GovOp) (s : string) :
  finite_budget B p → Forall (op_policy (finite_budget B)) ops → (len ops < u32_max)%N →
  let st := gov_run (MemGovernorStore_new p) ops in
  let scope := scope_of (gs_inner st) s in
  ss_budget_used scope = charges s (MemGovernorStore_new p) ops ∧
  ss_budget_reserved scope = outstanding (gs_inner st) s ∧
  (ss_budget_used scope + ss_budget_reserved scope ≤ B s)%N.
Proof.
  intros Hf Hops Hn. cbv zeta.
  destruct (run_ok_run B _ ops (run_ok_new B p ops Hf Hn) Hops) as [[Hb _ _] Hu].
  split_and!; [by rewrite Hu|by apply (bk_reserved _ _ Hb)|by apply (bk_budget _ _ Hb)].
Qed.

(** A closed policy for the witnesses: two slots, ten units and a rate of one
    per second in every scope, a guard of a minute. *)
Definition demo_policy : GovernorPolicy := {|
  gp_concurrency_per_scope := 2; gp_rate_window_ms := 1000; gp_rate_max_per_window := 1;
  gp_budget_units_per_scope := 10; gp_freshness_max_age_ms := 5000; gp_replay_guard_window_ms := 60000;
  gp_deadline_window_ms := 60000; gp_per_scope := ∅ |}.
Definition demo_request (units : N) : AdmissionRequest := AdmissionRequest_new Owner "proj" "api.example/v1" units.
Definition demo_settle (n actual : N) (o : SettledOutcome) : SettleRequest :=
  {| sr_permit_id := permit_id n; sr_actual_units := actual; sr_outcome := o; sr_complete := true |}.
Definition demo_ops : list GovOp :=
  [OReserve (demo_request 6) 0; OReserve (demo_request 6) 2000; OReserve (demo_request 4) 2000;
   OSettle (demo_settle 1 3 SExecuted); OSettle (demo_settle 1 3 SExecuted)].

Lemma demo_finite : finite_budget (fun _ => 10%N) demo_policy.
Proof. intros s. unfold budget_for. cbn. split; [reflexivity|]. width. lia. Qed.

Lemma demo_slots s : (0 < concurrency_for demo_policy s ≤ 2)%N.
Proof. split; [reflexivity|]. change (concurrency_for demo_policy s) with 2%N. reflexivity. Qed.

(** The second request does not fit beside the first; the third does. The
    settlement charges three of the six units once. *)
Lemma budget_books_exact_witness :
  let st := gov_run (MemGovernorStore_new demo_policy) demo_ops in
  let scope := scope_of (gs_inner st) "project:proj" in
  ss_budget_used scope = 3%N ∧ ss_budget_reserved scope = 4%N ∧
  (ss_budget_used scope + ss_budget_reserved scope ≤ 10)%N.
Proof.
  pose proof (budget_books_exact (fun _ => 10%N) demo_policy demo_ops "project:proj" demo_finite
    ltac:(repeat constructor) ltac:(vm_compute; reflexivity)) as (H1 & H2 & H3).
  cbv zeta in *. split_and!; [|vm_compute; reflexivity|exact H3].
  rewrite H1. vm_compute. reflexivity.
Defined.

(** ** Concurrency *)

Definition bounded_slots (C : string → N) (p : GovernorPolicy) : Prop :=
  ∀ s, (0 < concurrency_for p s ≤ C s)%N.

Lemma map_sum_list {A} (f : A → N) (m : gmap string A) :
  map_sum f m = sum_list_N (f <$> (map_to_list m).*2).
Proof.
  unfold map_sum, sum_list_N. rewrite map_fold_foldr.
  induction (map_to_list m) as [|[k v] l IH]; cbn; [done|]. by rewrite IH.
Qed.

(** A slot is counted per permit that is still unconfirmed. *)
Lemma live_unconfirmed st s permits :
  unconfirmed_permits st = Some permits →
  live_permits (gs_inner st) s = len (List.filter (fun p => contains (pm_scopes p) s) permits).
Proof.
  unfold unconfirmed_permits, live_permits. destruct (gs_poisoned st); [done|]. intros [= <-].
  rewrite map_sum_list. induction ((map_to_list _).*2) as [|r l IH]; cbn; [done|].
  unfold sum_list_N in IH. unfold slot_of at 1, holds. rewrite IH. unfold len.
  destruct (pr_completed r); cbn; [done|]. destruct (contains _ s); cbn; lia.
Qed.

Lemma gov_step_live C B fuel st op s :
  run_ok B (fuel + 1) st → bounded_slots C (in_policy (gs_inner st)) →
  (live_permits (gs_inner st) s ≤ C s)%N → (live_permits (gs_inner (gov_step st op)) s ≤ C s)%N.
Proof.
  intros [Hb Hf Hi] HC Hl. destruct (gs_poisoned st) eqn:Hp; [by rewrite gov_step_poisoned|].
  destruct (gov_step_effect st op Hp) as [He _].
  destruct He as [op'|q now Hc|r rec Hrec Hs|q action Hq|f]; try done.
  - rewrite (commit_live B) by done. destruct (contains _ s) eqn:Hs; [|lia].
    apply contains_spec in Hs. apply pre_checks_ok in Hc as [_ Hc]. destruct (Hc s Hs) as [Hk _].
    unfold concurrency_check in Hk. rewrite (bk_live _ _ Hb) in Hk. destruct (HC s) as [H0 H1].
    destruct (_ && _) eqn:E; [discriminate|]. apply andb_false_iff in E as [E|E]; bool_prop; lia.
  - pose proof (settled_live B _ r rec Hb Hrec Hs s). lia.
Qed.

Lemma gov_step_policy P st op :
  P (in_policy (gs_inner st)) → op_policy P op → P (in_policy (gs_inner (gov_step st op))).
Proof.
  intros H Hop. destruct (gs_poisoned st) eqn:Hp; [by rewrite gov_step_poisoned|].
  destruct (gov_step_effect st op Hp) as [He _]. destruct He; try done. apply Hop.
Qed.

Lemma live_run C B st ops s :
  run_ok B (len ops) st → Forall (op_policy (finite_budget B)) ops →
  bounded_slots C (in_policy (gs_inner st)) → Forall (op_policy (bounded_slots C)) ops →
  (live_permits (gs_inner st) s ≤ C s)%N → (live_permits (gs_inner (gov_run st ops)) s ≤ C s)%N.
Proof.
  revert st. induction ops as [|op ops IH]; intros st Hr Hops HC HCs Hl; [done|].
  apply Forall_cons in Hops as [Hop Hops], HCs as [HCop HCs].
  assert (Hr' : run_ok B (len ops + 1) st) by (eapply run_ok_weaken; [|exact Hr]; unfold len; cbn; lia).
  apply IH; [by apply run_ok_step|done|by apply gov_step_policy|done|].
  by eapply gov_step_live.
Qed.

(** The concurrency count of a scope is exactly the number of permits
    that hold it and are not completed, and it never exceeds the scope's cap,
    whatever was admitted, settled or left unconfirmed before. *)
Theorem concurrency_slots_exact (B C : string → N) (p : GovernorPolicy) (ops : list GovOp) (s : string) :
  finite_budget B p → Forall (op_policy (finite_budget B)) ops →
  bounded_slots C p → Forall (op_policy (bounded_slots C)) ops → (len ops < u32_max)%N →
  let st := gov_run (MemGovernorStore_new p) ops in
  let live := ss_concurrency_live (scope_of (gs_inner st) s) in
  (live ≤ C s)%N ∧
  ∀ permits, unconfirmed_permits st = Some permits →
    live = len (List.filter (fun q => contains (pm_scopes q) s) permits).
Proof.
  intros Hf Hops HC HCs Hn. cbv zeta. pose proof (run_ok_new B p ops Hf Hn) as Hr.
  destruct (run_ok_run B _ ops Hr Hops) as [[Hb _ _] _]. rewrite (bk_live _ _ Hb). split.
  - eapply live_run; [done..|]. unfold live_permits. cbn. rewrite map_sum_empty. lia.
  - intros permits. apply live_unconfirmed.
Qed.

Lemma concurrency_slots_exact_witness :
  let st := gov_run (MemGovernorStore_new demo_policy) demo_ops in
  (ss_concurrency_live (scope_of (gs_inner st) "project:proj") ≤ 2)%N ∧
  ss_concurrency_live (scope_of (gs_inner st) "project:proj") = 1%N.
Proof.
  pose proof (concurrency_slots_exact (fun _ => 10%N) (fun _ => 2%N) demo_policy demo_ops "project:proj"
    demo_finite ltac:(repeat constructor) demo_slots
    ltac:(repeat constructor) ltac:(vm_compute; reflexivity)) as [H1 H2].
  cbv zeta in *. split; [exact H1|]. vm_compute. reflexivity.
Defined.

(** ** The rate window *)

(** Whether an operation was an admission that counts against [s]'s rate. *)
Definition op_admits (s : string) (st : MemGovernorStore) (op : GovOp) : N :=
  match op with
  | OReserve q now_ms =>
      match (reserve st q now_ms).2 with
      | Ok (AdmittedWith p) => if contains (pm_scopes p) s && negb (pm_governance_lane p) then 1 else 0
      | _ => 0
      end
  | _ => 0
  end.

Fixpoint admissions (s : string) (st : MemGovernorStore) (ops : list GovOp) : N :=
  match ops with
  | [] => 0
  | op :: ops' => (op_admits s st op + admissions s (gov_step st op) ops')%N
  end.

(** The request of an operation, if it is one, arrives inside window [w]. *)
Definition inside (w : WindowState) (window_ms : N) (op : GovOp) : Prop :=
  match op with OReserve _ now_ms => window_live w now_ms window_ms = true | _ => True end.

Definition same_window (w w' : WindowState) : Prop :=
  ws_window_start_ms w' = ws_window_start_ms w ∧
  ws_cap_at_first_observation w' = ws_cap_at_first_observation w.

Lemma window_live_same w w' now W : same_window w w' → window_live w' now W = window_live w now W.
Proof. intros [H _]. unfold window_live. by rewrite H. Qed.

Lemma window_admit_live w now W cap units :
  window_live w now W = true → (ws_cap_at_first_observation w < u64_max)%N →
  (sat_add64 (ws_used w) units ≤ ws_cap_at_first_observation w)%N →
  same_window w (window_admit (Some w) now W cap units).1 ∧
  ws_used (window_admit (Some w) now W cap units).1 = (ws_used w + units)%N.
Proof.
  intros Hl Hc Hu. unfold window_admit. rewrite Hl. pose proof Hu as ->%N.leb_le. split; [done|].
  cbn. unfold wrap_add64. rewrite N.mod_small; [done|]. unfold sat_add64 in Hu. lia.
Qed.

Lemma pre_checks_refuses g q now o : pre_checks g q now = Err o → ∀ p, o ≠ AdmittedWith p.
Proof.
  assert (Hloop : ∀ (f : string → Result unit AdmissionOutcome) l, (∀ s e, f s = Err e → ∀ p, e ≠ AdmittedWith p) →
    ∀ e, for_each f l = Err e → ∀ p, e ≠ AdmittedWith p).
  { intros f l Hf. induction l as [|s l IH]; intros e H; cbn in H; [done|].
    destruct (f s) as [[]|e'] eqn:E; cbn in H; [by apply IH|]. simplify_eq. by eapply Hf. }
  unfold pre_checks. destruct (freshness_check g now q) as [[]|e] eqn:E; cbn.
  2: { intros [= <-]. unfold freshness_check in E. repeat case_match; by simplify_eq. }
  destruct (for_each (concurrency_check g) _) as [[]|e] eqn:E1; cbn.
  2: { intros [= <-]. eapply Hloop, E1. intros s e' H. unfold concurrency_check in H.
       case_match; by simplify_eq. }
  destruct (is_governance q); [done|].
  destruct (for_each (rate_check g now) _) as [[]|e] eqn:E2; cbn.
  2: { intros [= <-]. eapply Hloop, E2. intros s e' H. unfold rate_check in H.
       repeat case_match; by simplify_eq. }
  intros H. eapply Hloop, H. intros s e' He. unfold budget_check in He. case_match; by simplify_eq.
Qed.

Lemma settle_keeps_window g r rec s :
  ss_window (scope_of (settled_inner g r rec) s) = ss_window (scope_of g s).
Proof.
  unfold scope_of, settled_inner, settle_scopes. cbn [in_scopes set_scopes set_permits].
  generalize (in_scopes g). induction (pm_scopes (pr_permit rec)) as [|k ks IH]; intros m; cbn; [done|].
  rewrite IH. destruct (decide (k = s)) as [->|Hne]; [|by rewrite lookup_alter_ne].
  rewrite lookup_alter_eq. by destruct (m !! s).
Qed.

Section Window.
Context (s : string) (W : N) (w : WindowState) (st : MemGovernorStore) (op : GovOp).
Context (Hw : ss_window (scope_of (gs_inner st) s) = Some w).
Context (Hu : (ws_used w ≤ ws_cap_at_first_observation w < u64_max)%N).
Context (HW : gp_rate_window_ms (in_policy (gs_inner st)) = W) (Hin : inside w W op).

Lemma window_commit q now :
  window_live w now W = true → pre_checks (gs_inner st) q now = Ok tt →
  ∃ w', ss_window (scope_of (commit (gs_inner st) q now) s) = Some w' ∧ same_window w w' ∧
    ws_used w' = (ws_used w + if contains (request_scopes q) s && negb (is_governance q) then 1 else 0)%N ∧
    (ws_used w' ≤ ws_cap_at_first_observation w)%N.
Proof using Hw Hu HW.
  intros Hl [_ Hc]%pre_checks_ok. rewrite commit_scope_of.
  destruct (contains _ s) eqn:Hs; [|exists w; rewrite N.add_0_r; split_and!; try done; lia].
  unfold committed_scope. destruct (is_governance q) eqn:Hg; cbn [andb negb].
  { exists w. rewrite N.add_0_r. split_and!; try done. lia. }
  apply contains_spec in Hs. destruct (Hc s Hs) as [_ [Hr _]]; [done|].
  unfold rate_check in Hr. rewrite Hw, HW, Hl in Hr. cbn [andb] in Hr.
  destruct (_ <? _)%N eqn:E; [discriminate|]. apply N.ltb_ge in E.
  unfold consume_scope. rewrite Hw, HW.
  destruct (window_admit_live w now W (rate_for (in_policy (gs_inner st)) s) 1) as [H1 H2]; [done|lia|done|].
  destruct (window_admit _ _ _ _ _) as [w' b]. cbn in *. exists w'. split_and!; [done..|].
  unfold sat_add64 in E. lia.
Qed.

Lemma window_step :
  ∃ w', ss_window (scope_of (gs_inner (gov_step st op)) s) = Some w' ∧ same_window w w' ∧
    ws_used w' = (ws_used w + op_admits s st op)%N ∧ (ws_used w' ≤ ws_cap_at_first_observation w)%N.
Proof using Hw Hu HW Hin.
  assert (Hsame : ∃ w', ss_window (scope_of (gs_inner st) s) = Some w' ∧ same_window w w' ∧
    ws_used w' = (ws_used w + 0)%N ∧ (ws_used w' ≤ ws_cap_at_first_observation w)%N).
  { exists w. rewrite N.add_0_r. split_and!; try done. lia. }
  destruct op as [q now|r|q|f]; cbn.
  - unfold reserve. destruct (gs_poisoned st); cbn; [exact Hsame|].
    destruct (pre_checks _ q now) as [[]|o] eqn:E; cbn;
      [exact (window_commit q now Hin E)|destruct o as [p| | |]; try exact Hsame].
    by destruct (pre_checks_refuses _ _ _ _ E p).
  - unfold settle. destruct (gs_poisoned st); cbn; [exact Hsame|].
    destruct (in_permits _ !! _) as [rec|]; cbn; [|exact Hsame].
    destruct (pr_settled rec); cbn; [exact Hsame|]. change (set_scopes _ _) with (settled_inner (gs_inner st) r rec). by rewrite settle_keeps_window.
  - unfold record_and_check_replay. destruct (gs_poisoned st); cbn; [exact Hsame|].
    by destruct (rq_record q).
  - unfold update_policy. destruct (gs_poisoned st); cbn; [exact Hsame|]. by destruct (f _).
Qed.
End Window.

(** A rate window is frozen at its first observation: while it lasts,
    its start and its cap do not change, whatever the policy becomes, each
    admission through the scope uses one unit of it and nothing gives a unit
    back, so no more requests are admitted than it had left. *)
Theorem rate_window_frozen (s : string) (W : N) (ops : list GovOp) :
  ∀ (st : MemGovernorStore) (w : WindowState),
  ss_window (scope_of (gs_inner st) s) = Some w →
  (ws_used w ≤ ws_cap_at_first_observation w < u64_max)%N →
  gp_rate_window_ms (in_policy (gs_inner st)) = W →
  Forall (op_policy (fun p => gp_rate_window_ms p = W)) ops → Forall (inside w W) ops →
  ∃ w', ss_window (scope_of (gs_inner (gov_run st ops)) s) = Some w' ∧ same_window w w' ∧
    ws_used w' = (ws_used w + admissions s st ops)%N ∧
    (ws_used w + admissions s st ops ≤ ws_cap_at_first_observation w)%N.
Proof.
  induction ops as [|op ops IH]; intros st w Hw Hu HW Hp Hin; cbn.
  { exists w. rewrite N.add_0_r. split_and!; try done; lia. }
  apply Forall_cons in Hp as [Hp0 Hp], Hin as [Hin0 Hin].
  destruct (window_step s W w st op Hw Hu HW Hin0) as (w1 & Hw1 & Hs1 & Hu1 & Hle).
  destruct (IH (gov_step st op) w1) as (w' & ? & [? ?] & ? & ?); [done| | |done| |].
  - destruct Hs1 as [_ ->]. lia.
  - by apply (gov_step_policy (fun p => gp_rate_window_ms p = W)).
  - eapply Forall_impl; [exact Hin|]. intros [q now|r|q|f]; cbn; [|done..].
    by rewrite (window_live_same w w1).
  - destruct Hs1 as [Hs1 Hc1]. exists w'. rewrite Hc1 in *. unfold same_window.
    split_and!; [done|congruence|congruence|lia|lia].
Qed.

(** Raising the rate does not reopen the window. *)
Lemma rate_window_frozen_witness :
  let st := gov_run (MemGovernorStore_new demo_policy) [OReserve (demo_request 1) 0] in
  let raised := fun p => ({| gp_concurrency_per_scope := gp_concurrency_per_scope p;
    gp_rate_window_ms := 1000; gp_rate_max_per_window := 100;
    gp_budget_units_per_scope := gp_budget_units_per_scope p;
    gp_freshness_max_age_ms := gp_freshness_max_age_ms p;
    gp_replay_guard_window_ms := gp_replay_guard_window_ms p;
    gp_deadline_window_ms := gp_deadline_window_ms p; gp_per_scope := gp_per_scope p |}, true) in
  let ops := [OPolicy raised; OReserve (demo_request 1) 500; OReserve (demo_request 1) 999] in
  (1 + admissions "project:proj" st ops ≤ 1)%N.
Proof.
  intros st raised ops.
  destruct (rate_window_frozen "project:proj" 1000 ops st
    {| ws_window_start_ms := 0; ws_cap_at_first_observation := 1; ws_used := 1 |}) as (w' & _ & _ & _ & H).
  - vm_compute. reflexivity.
  - vm_compute. split; [discriminate|reflexivity].
  - vm_compute. reflexivity.
  - repeat constructor.
  - repeat constructor.
  - exact H.
Defined.

(** A rate lowered to zero does not stop admissions: a scope that has a
    window from before is still granted one permit per window, and one on
    every request when the window length is zero, although a scope without a
    window is refused. The pre-check only reads the cap when the scope has no
    window, and the commit ignores that the fresh window did not admit. *)
Theorem zero_rate_still_admits :
  let zero W := fun p => ({| gp_concurrency_per_scope := 0; gp_rate_window_ms := W; gp_rate_max_per_window := 0;
    gp_budget_units_per_scope := gp_budget_units_per_scope p;
    gp_freshness_max_age_ms := gp_freshness_max_age_ms p;
    gp_replay_guard_window_ms := gp_replay_guard_window_ms p;
    gp_deadline_window_ms := gp_deadline_window_ms p; gp_per_scope := gp_per_scope p |}, true) in
  let r now := OReserve (demo_request 1) now in
  let admitted ops := admissions "project:proj" (MemGovernorStore_new demo_policy) ops in
  admitted [OPolicy (zero 1000%N); r 0%N; r 5000%N] = 0%N ∧
  admitted [r 0%N; OPolicy (zero 1000%N); r 5000%N; r 5500%N; r 6000%N] = 3%N ∧
  admitted [r 0%N; OPolicy (zero 0%N); r 1%N; r 1%N; r 1%N] = 4%N.
Proof. vm_compute. split_and!; reflexivity. Qed.

(** ** Settlement is final *)

Lemma settle_ok_settled st r :
  (settle st r).2 = Ok tt →
  gs_poisoned (settle st r).1 = false ∧
  ∃ rec, in_permits (gs_inner (settle st r).1) !! sr_permit_id r = Some rec ∧ pr_settled rec = true.
Proof.
  unfold settle. destruct (gs_poisoned st) eqn:Hp; [done|].
  destruct (in_permits _ !! _) as [rec|] eqn:E; [|done].
  destruct (pr_settled rec) eqn:Hs; cbn; intros _; (split; [done|]); [by eauto|].
  rewrite lookup_insert_eq. eauto.
Qed.

(** A permit is settled once: after a settlement that succeeded, no
    later settlement of the same permit changes the store, whatever outcome,
    units or completeness it claims; and one settlement never charges more
    than the permit reserved. *)
Theorem settlement_is_final (st : MemGovernorStore) (r r' : SettleRequest) (units : N) :
  (settle st r).2 = Ok tt → sr_permit_id r' = sr_permit_id r →
  settle (settle st r).1 r' = ((settle st r).1, Ok tt) ∧
  (charge (sr_outcome r) (sr_actual_units r) units ≤ units)%N.
Proof.
  intros (Hp & rec & Hrec & Hs)%settle_ok_settled Hid. split; [|apply charge_le].
  revert Hp Hrec. generalize (settle st r).1. intros st' Hp Hrec.
  unfold settle. by rewrite Hp, Hid, Hrec, Hs.
Qed.

(** A permit of unknown outcome stays charged and keeps its slot. *)
Lemma settlement_is_final_witness :
  let st := gov_run (MemGovernorStore_new demo_policy) [OReserve (demo_request 6) 0] in
  let st' := (settle st (demo_settle 1 0 SUnknownAfterSend)).1 in
  settle st' (demo_settle 1 0 SNeverDispatched) = (st', Ok tt) ∧
  ss_concurrency_live (scope_of (gs_inner st') "project:proj") = 1%N ∧
  budget_used_for st' "project:proj" = Some 6%N.
Proof.
  pose proof (settlement_is_final (gov_run (MemGovernorStore_new demo_policy) [OReserve (demo_request 6) 0])
    (demo_settle 1 0 SUnknownAfterSend) (demo_settle 1 0 SNeverDispatched) 6
    ltac:(vm_compute; reflexivity) eq_refl) as [H _].
  split_and!; [exact H|vm_compute; reflexivity..].
Defined.

(** ** The replay guard *)

Lemma same_operation_spec a b : same_operation a b = true ↔ a = b.
Proof.
  unfold same_operation. rewrite !andb_true_iff, !bool_decide_eq_true.
  destruct a, b; cbn. naive_solver.
Qed.

(** A record of [o] that refuses a replay, not older than [t]. *)
Definition executed_since (t : N) (r : ReplayRecord) : Prop :=
  rr_outcome r = Some RExecuted ∧ (t ≤ rr_recorded_at_ms r)%N.
Definition uncertain_since (t : N) (r : ReplayRecord) : Prop :=
  rr_outcome r = None ∧ rr_dispatching r = true ∧ (t ≤ rr_recorded_at_ms r)%N.

(** Newest first: the records of [o] are uncertain down to an executed one. *)
Fixpoint guarded (o : LogicalOperationId) (t : N) (rl : list ReplayRecord) : Prop :=
  match rl with
  | [] => False
  | r :: rl' =>
      if same_operation (rr_operation r) o
      then executed_since t r ∨ (uncertain_since t r ∧ guarded o t rl')
      else guarded o t rl'
  end.

(** Operations that keep the guard of [o]: they record nothing older than [t],
    and do not overwrite the outcome of [o] with an unknown one. *)
Definition keeps_guard (o : LogicalOperationId) (t : N) (op : GovOp) : Prop :=
  match op with
  | OReplay q => (t ≤ rq_now_ms q)%N ∧
      (rq_record q = Some (RecordOutcome RUnknownAfterSend) → ra_operation (rq_attempt q) ≠ o)
  | _ => True
  end.

Section Guard.
Context (o : LogicalOperationId) (t : N).

Lemma guarded_push r rl :
  guarded o t rl →
  (rr_operation r = o → executed_since t r ∨ uncertain_since t r) →
  guarded o t (r :: rl).
Proof.
  intros Hg Hr. cbn. destruct (same_operation _ o) eqn:E; [|done].
  apply same_operation_spec in E. destruct (Hr E); auto.
Qed.

Lemma guarded_remove a rl :
  guarded o t rl →
  guarded o t (remove_first (fun r => same_operation (rr_operation r) (ra_operation a)
                                      && is_none (rr_outcome r)) rl).
Proof.
  induction rl as [|r rl IH]; cbn; [done|].
  destruct (same_operation (rr_operation r) o) eqn:E.
  - intros [[Hx Hy]|[[Hx Hy] Hg]].
    + rewrite Hx, andb_false_r. cbn. rewrite E. left. done.
    + rewrite Hx, andb_true_r. destruct (same_operation _ (ra_operation a)); [done|].
      cbn. rewrite E. right. split; [done|by apply IH].
  - intros Hg. destruct (_ && _); [done|]. cbn. rewrite E. auto.
Qed.

Lemma guarded_update a out now rl :
  (t ≤ now)%N → (ra_operation a = o → out = RExecuted) → guarded o t rl →
  guarded o t (update_first (fun r => same_operation (rr_operation r) (ra_operation a))
                 (with_outcome a out now) rl).
Proof.
  intros Ht Hout. induction rl as [|r rl IH]; cbn; [done|].
  destruct (same_operation (rr_operation r) (ra_operation a)) eqn:Ea; cbn.
  - destruct (same_operation (rr_operation r) o) eqn:E; [|done]. intros _. left.
    apply same_operation_spec in Ea, E. split; cbn; [|done]. rewrite Hout; [done|congruence].
  - destruct (same_operation (rr_operation r) o) eqn:E; naive_solver.
Qed.

Lemma guarded_record a now action l :
  (t ≤ now)%N → (action = RecordOutcome RUnknownAfterSend → ra_operation a ≠ o) →
  guarded o t (rev l) → guarded o t (rev (record_replay a now action l)).
Proof.
  intros Ht Hact Hg. unfold record_replay. destruct action as [|out|].
  - rewrite rev_unit. apply guarded_push; [done|]. intros _. right. done.
  - destruct (existsb _ l).
    + unfold update_last. rewrite rev_involutive. apply guarded_update; [done| |done].
      destruct out; [done|]. intros Ho. exfalso. by apply Hact.
    + rewrite rev_unit. apply guarded_push; [done|]. cbn. intros Ho. left. split; [|done].
      destruct out; [done|]. exfalso. by apply Hact.
  - unfold remove_last. rewrite rev_involutive. by apply guarded_remove.
Qed.

Lemma guarded_run st ops :
  guarded o t (rev (in_replay (gs_inner st))) → Forall (keeps_guard o t) ops →
  guarded o t (rev (in_replay (gs_inner (gov_run st ops)))).
Proof.
  revert st. induction ops as [|op ops IH]; intros st Hg; [done|]. intros [Hop Hops]%Forall_cons.
  apply IH; [|done]. destruct (gs_poisoned st) eqn:Hp; [by rewrite gov_step_poisoned|].
  destruct (gov_step_effect st op Hp) as [He _]. destruct He as [| | |q action Hq|]; try done.
  destruct Hop as [Ht Hn]. apply guarded_record; [done| |done]. rewrite Hq in Hn. naive_solver.
Qed.

(** The lookup of an attempt that is not an Owner-fresh action lands on a
    record that refuses it. *)
Lemma guarded_refused a now guard rl :
  guarded o t rl → ra_operation a = o → owner_fresh a = false →
  (guard = 0 ∨ now ≤ t + guard)%N →
  ∃ r reason, List.find (lookup_matches a) rl = Some r ∧ replay_decision r a now guard = ReplayRefused reason.
Proof.
  intros Hg <- Hf Hw.
  assert (Hlook : ∀ r, lookup_matches a r = same_operation (rr_operation r) (ra_operation a)).
  { intros r. unfold lookup_matches, same_operation. rewrite Hf. cbn.
    destruct (_ == lo_digest _), (_ == lo_project _), (_ == lo_endpoint_set_digest _), (_ == lo_principal _); done. }
  induction rl as [|r rl IH]; cbn in *; [done|]. rewrite Hlook.
  destruct (same_operation (rr_operation r) (ra_operation a)) eqn:E; [|by apply IH].
  exists r. apply same_operation_spec in E.
  assert (Hage : (t ≤ rr_recorded_at_ms r)%N) by (destruct Hg as [[_ ?]|[[_ [_ ?]] _]]; done).
  assert (Hwin : (0 <? guard)%N && (guard <? sat_sub now (rr_recorded_at_ms r))%N = false).
  { apply andb_false_iff. rewrite !N.ltb_ge. unfold sat_sub. lia. }
  unfold replay_decision. rewrite Hwin, andb_comm. unfold owner_fresh in Hf. rewrite E.
  rewrite (andb_comm (is_owner _)), Hf, (bool_decide_eq_true_2 (lo_principal _ = _)) by done. cbn [negb].
  destruct Hg as [[-> _]|[(-> & -> & _) _]]; cbn; destruct (bool_decide (ra_endpoint a = _)); cbn; eauto.
Qed.
End Guard.

Lemma guarded_after_executed a t l :
  guarded (ra_operation a) t (rev (record_replay a t (RecordOutcome RExecuted) l)).
Proof.
  assert (Hrefl : same_operation (ra_operation a) (ra_operation a) = true) by by apply same_operation_spec.
  unfold record_replay. destruct (existsb _ l) eqn:E.
  - unfold update_last. rewrite rev_involutive. apply existsb_elem in E as (r & Hin & Hr).
    apply list_elem_of_In, in_rev, list_elem_of_In in Hin. induction (rev l) as [|x rl IH]; [set_solver|]. cbn.
    destruct (same_operation (rr_operation x) (ra_operation a)) eqn:Ex; cbn; rewrite Ex.
    + left. split; cbn; [done|lia].
    + apply IH. apply elem_of_cons in Hin as [->|]; [congruence|done].
  - rewrite rev_unit. cbn. rewrite Hrefl. left. split; cbn; [done|lia].
Qed.

(** An executed dispatch is not replayed: once an outcome [Executed] is
    recorded for a logical operation, then after any later store operations
    that do not record an unknown outcome over it, every attempt at the same
    operation within the guard window that is not an Owner-fresh action is
    refused, or the store is unavailable. In particular clearing a later
    dispatch of the same operation does not lift the guard. *)
Theorem executed_never_replays (st : MemGovernorStore) (a a' : ReplayAttempt) (t now : N) (ops : list GovOp) :
  gs_poisoned st = false →
  Forall (keeps_guard (ra_operation a) t) ops →
  ra_operation a' = ra_operation a → owner_fresh a' = false →
  let st' := gov_run (record_outcome st a RExecuted t) ops in
  let guard := gp_replay_guard_window_ms (in_policy (gs_inner st')) in
  (guard = 0 ∨ now ≤ t + guard)%N →
  check_replay st' a' now = Err Unavailable ∨
  ∃ reason, check_replay st' a' now = Ok (ReplayRefused reason).
Proof.
  intros Hp Hops Ho Hf st' guard Hw. unfold check_replay, record_action, record_and_check_replay.
  destruct (gs_poisoned st'); [by left|right]. cbn.
  destruct (guarded_refused (ra_operation a) t a' now guard (rev (in_replay (gs_inner st'))))
    as (r & reason & Hfind & Hdec); [|done..|].
  - apply guarded_run; [|done]. unfold record_outcome, record_action, record_and_check_replay. rewrite Hp. cbn.
    apply guarded_after_executed.
  - exists reason. unfold rfind. rewrite Hfind. by f_equal.
Qed.

Definition demo_attempt : ReplayAttempt := {|
  ra_operation := {| lo_digest := "d"; lo_principal := Warrant "w"; lo_project := "proj"; lo_endpoint_set_digest := "e" |};
  ra_endpoint := "api.example/v1"; ra_original_key := Some "k"; ra_side_effect_class := IdempotentWithKey;
  ra_owner_fresh_action := false |}.

Lemma executed_never_replays_witness :
  let later := [OReplay {| rq_attempt := demo_attempt; rq_now_ms := 20; rq_record := Some RecordDispatching |};
                OReplay {| rq_attempt := demo_attempt; rq_now_ms := 21; rq_record := Some ClearDispatching |}] in
  let st' := gov_run (record_outcome (MemGovernorStore_new demo_policy) demo_attempt RExecuted 10) later in
  check_replay st' demo_attempt 60010 = Err Unavailable ∨
  ∃ reason, check_replay st' demo_attempt 60010 = Ok (ReplayRefused reason).
Proof.
  apply (executed_never_replays (MemGovernorStore_new demo_policy) demo_attempt demo_attempt 10 60010);
    [reflexivity| |reflexivity|reflexivity|right; vm_compute; discriminate].
  repeat constructor; vm_compute; discriminate.
Defined.

(** ** Aliased endpoints *)

(** A call by connector and a raw call to the same place share one
    scope: when the alias a connector tool names is the first that covers the
    raw URL, and its host is not empty, both resolve to the same endpoint. *)
Theorem aliased_calls_share_endpoint (aliases : list EndpointAlias) (a : EndpointAlias) (c t host path : string) :
  named_alias aliases (Some c) (Some t) = Some a →
  List.find (raw_alias_matches (normalize_host host) (normalize_path path)) aliases = Some a →
  normalize_host host ≠ "" →
  resolve_canonical_endpoint aliases (Some c) (Some t) host path = resolve_canonical_endpoint aliases None None host path.
Proof.
  intros Hn Hf Hh. unfold resolve_canonical_endpoint. rewrite Hn. cbn [named_alias].
  assert (is_empty_str (normalize_host host) = false) as -> by (by destruct (normalize_host host)).
  cbn [negb]. rewrite Hf. apply find_elem in Hf as [_ Hm]. unfold raw_alias_matches in Hm. bool_prop. congruence.
Qed.

Lemma aliased_calls_share_endpoint_witness :
  let a := {| al_connector_id := "gh"; al_tool := "issues"; al_host := "api.github.com:443";
              al_path_prefix := "repos/" |} in
  resolve_canonical_endpoint [a] (Some "gh") (Some "issues") "API.github.com." "/repos/x" =
  resolve_canonical_endpoint [a] None None "API.github.com." "/repos/x".
Proof.
  intros a. apply (aliased_calls_share_endpoint [a] a "gh" "issues" "API.github.com." "/repos/x");
    [vm_compute; reflexivity..|vm_compute; discriminate].
Defined.

Lemma settle_keeps_replay st r : in_replay (gs_inner (settle st r).1) = in_replay (gs_inner st).
Proof.
  unfold settle. destruct (gs_poisoned st); [done|]. destruct (in_permits _ !! _) as [rec|]; [|done].
  by destruct (pr_settled rec).
Qed.
