(* ===== verification/Failover.v ===== *)
(** * Bounded failover ([core/src/failover.rs], [gate/src/failover.rs])

    An operation on an approved endpoint set may move to the next endpoint
    only when the last attempt is proven not to have executed. The decision
    is a pure function of the attempt journal and of the parent envelope; the
    engine's loop consults it, journals the attempt, dispatches, and journals
    the outcome. The loop is a [Prog]: the clock, the fingerprint source, the
    dispatch and the journal's backend answer as they like.

    The theorems: on every trace at most the last attempt may have executed,
    every dispatch is preceded by its journal entry, endpoints are tried in
    order and never twice, and the loop ends within the envelope. *)

From S2P Require Import Prelude RustStr Eff Governor.

(** ** Endpoint sets ([core/src/failover.rs]) *)

Inductive FailoverError :=
| UnapprovedEndpointSet
| NoEndpoints
| EmptyEndpoint (index : N)
| DuplicateEndpoint (endpoint : string)
| MissingConformanceTest
| MaxAttemptsZero
| MaxAttemptsExceedsSetSize (max_attempts set_size : N)
| ReservationOverflow
| FinishBeforeBegin (logical_operation_id : string) (attempt_index : N)
| DuplicateBegin (logical_operation_id : string) (attempt_index : N)
| AttemptAlreadyFinished (logical_operation_id : string) (attempt_index : N)
| MissingIdempotencyKey
| InvalidEndpoint (index : N) (endpoint : string)
| JournalUnavailable
| UncertainPriorAttempt (logical_operation_id : string).

(** The first piece of a [split], the last of an [rsplit]. *)
Definition before_any (p : ascii → bool) (s : string) : string := default "" (head (split_on p s)).
Definition after_last (c : ascii) (s : string) : string :=
  default "" (last (split_on (fun b => b == c) s)).

Definition is_absolute_http_url (ep : string) : bool :=
  match option_or (strip_prefix "http://" ep) (strip_prefix "https://" ep) with
  | Some r =>
      let authority := before_any (fun b => (b == "/"%char) || (b == "?"%char) || (b == "#"%char)) r in
      let host := before_any (fun b => b == ":"%char) (after_last "@"%char authority) in
      negb (is_empty_str host)
  | None => false
  end.

Record EndpointSet := {
  es_connector_id : string;
  es_tool : string;
  es_endpoints : list string;
  es_side_effect_class : SideEffectClass;
  es_idempotency_conformance_test : option string;
  es_owner_approved : bool;
  es_policy_digest : string;
}.

Definition class_debug (c : SideEffectClass) : string :=
  match c with SideEffectful => "SideEffectful" | IdempotentWithKey => "IdempotentWithKey" end.

Definition nl : string := String newline "".

(** What [computed_policy_digest] hashes. *)
Definition policy_canonical (e : EndpointSet) : string :=
  "endpoint-set/v1" +:+ nl +:+ "connector=" +:+ es_connector_id e +:+ nl +:+ "tool=" +:+ es_tool e +:+ nl
  +:+ "endpoints=" +:+ join nl (es_endpoints e) +:+ nl +:+ "class=" +:+ class_debug (es_side_effect_class e)
  +:+ nl +:+ "conformance=" +:+ unwrap_or (es_idempotency_conformance_test e) "".

(** One endpoint of [validate], with those before it. *)
Fixpoint check_endpoints (i : N) (seen rest : list string) : Result unit FailoverError :=
  match rest with
  | [] => Ok tt
  | ep :: rest' =>
      if is_blank ep then Err (EmptyEndpoint i)
      else if negb (is_absolute_http_url ep) then Err (InvalidEndpoint i ep)
      else if contains seen ep then Err (DuplicateEndpoint ep)
      else check_endpoints (i + 1) (seen ++ [ep]) rest'
  end.

(** [EndpointSet::validate] *)
Definition validate (e : EndpointSet) : Result unit FailoverError :=
  if (len (es_endpoints e) =? 0)%N then Err NoEndpoints
  else
    let? _ := check_endpoints 0 [] (es_endpoints e) in
    match es_side_effect_class e with
    | IdempotentWithKey =>
        match es_idempotency_conformance_test e with
        | Some name => if negb (is_blank name) then Ok tt else Err MissingConformanceTest
        | None => Err MissingConformanceTest
        end
    | SideEffectful => Ok tt
    end.

Section Digest.
(** [sha256_hex] hashes with the [sha2] crate. *)
Context (sha256_hex : string → string).

Definition computed_policy_digest (e : EndpointSet) : string := sha256_hex (policy_canonical e).

(** [EndpointSet::declared] *)
Definition declared (connector_id tool : string) (endpoints : option (list string)) (class : SideEffectClass)
  (conformance : option string) (owner_approved : bool) (_policy_digest : string) : option EndpointSet :=
  match endpoints with
  | None => None
  | Some eps =>
      let set0 := {| es_connector_id := connector_id; es_tool := tool; es_endpoints := eps;
                     es_side_effect_class := class; es_idempotency_conformance_test := conformance;
                     es_owner_approved := owner_approved; es_policy_digest := "" |} in
      let set := {| es_connector_id := connector_id; es_tool := tool; es_endpoints := eps;
                    es_side_effect_class := class; es_idempotency_conformance_test := conformance;
                    es_owner_approved := owner_approved; es_policy_digest := computed_policy_digest set0 |} in
      if is_ok (validate set) then Some set else None
  end.

Definition effective_endpoint_set (connector_id tool : string) (endpoints : option (list string))
  (class : option SideEffectClass) (conformance : option string) (owner_approved : bool) (policy_digest : string)
  : option EndpointSet :=
  declared connector_id tool endpoints (unwrap_or class SideEffectful) conformance owner_approved policy_digest.
End Digest.

(** ** Attempt outcomes *)

Inductive ZeroBytesWitness := WFreshConnectionZeroBytes | WPreDispatchRefusal.

Inductive AttemptOutcome :=
| NoExecutionProven (witness : ZeroBytesWitness)
| Executed
| UnknownAfterSend.

Inductive TransportWitnessInput :=
| TFreshConnectionZeroBytes
| TPreDispatchRefusal
| TReusedConnectionReset
| TBytesMayHaveBeenSent
| TResponseReceived.

Definition classify_transport_witness (input : TransportWitnessInput) : AttemptOutcome :=
  match input with
  | TFreshConnectionZeroBytes => NoExecutionProven WFreshConnectionZeroBytes
  | TPreDispatchRefusal => NoExecutionProven WPreDispatchRefusal
  | TReusedConnectionReset | TBytesMayHaveBeenSent => UnknownAfterSend
  | TResponseReceived => Executed
  end.

Definition classify_from_connection_facts (fresh_connection : bool) (bytes_written : N)
  (reused_connection_reset : bool) : AttemptOutcome :=
  if reused_connection_reset || negb fresh_connection then UnknownAfterSend
  else if (bytes_written =? 0)%N then NoExecutionProven WFreshConnectionZeroBytes
  else UnknownAfterSend.

(** [classify_transport] of the gate. *)
Definition classify_transport (fresh_connection : bool) (bytes_written : N) (failed_after_connect : bool)
  : AttemptOutcome :=
  if fresh_connection && (bytes_written =? 0)%N && negb failed_after_connect
  then NoExecutionProven WFreshConnectionZeroBytes else UnknownAfterSend.

Inductive AttemptState := SDispatching | SNoExecutionProven | SStateExecuted | SStateUnknown.

#[global] Instance AttemptState_eq_dec : EqDecision AttemptState.
Proof. solve_decision. Defined.

(** [From<AttemptOutcome> for AttemptState] *)
Definition state_of (o : AttemptOutcome) : AttemptState :=
  match o with
  | NoExecutionProven _ => SNoExecutionProven
  | Executed => SStateExecuted
  | UnknownAfterSend => SStateUnknown
  end.

(** ** Journals *)

Record AttemptJournalEntry := {
  je_logical_operation_id : string;
  je_attempt_index : N;
  je_endpoint : string;
  je_state : AttemptState;
  je_at_ms : N;
}.

Definition is_attempt (op : string) (i : N) (e : AttemptJournalEntry) : bool :=
  (je_logical_operation_id e == op) && (je_attempt_index e == i).

Definition with_state (st : AttemptState) (e : AttemptJournalEntry) : AttemptJournalEntry := {|
  je_logical_operation_id := je_logical_operation_id e; je_attempt_index := je_attempt_index e;
  je_endpoint := je_endpoint e; je_state := st; je_at_ms := je_at_ms e |}.

(** The bodies of [begin] and [finish] that both journals share. *)
Definition begin_entries (entry : AttemptJournalEntry) (l : list AttemptJournalEntry)
  : Result (list AttemptJournalEntry) FailoverError :=
  if existsb (is_attempt (je_logical_operation_id entry) (je_attempt_index entry)) l
  then Err (DuplicateBegin (je_logical_operation_id entry) (je_attempt_index entry))
  else Ok (l ++ [entry]).

Definition finish_entries (op : string) (i : N) (outcome : AttemptOutcome) (l : list AttemptJournalEntry)
  : Result (list AttemptJournalEntry) FailoverError :=
  match List.find (is_attempt op i) l with
  | None => Err (FinishBeforeBegin op i)
  | Some e =>
      if je_state e != SDispatching then Err (AttemptAlreadyFinished op i)
      else Ok (update_first (is_attempt op i) (with_state (state_of outcome)) l)
  end.

Record AttemptJournal := {
  aj_entries : list AttemptJournalEntry;
  aj_spent_units : N;
}.

Definition AttemptJournal_new : AttemptJournal := {| aj_entries := []; aj_spent_units := 0 |}.
Definition from_entries (entries : list AttemptJournalEntry) (spent_units : N) : AttemptJournal :=
  {| aj_entries := entries; aj_spent_units := spent_units |}.
Definition record_spend (j : AttemptJournal) (units : N) : AttemptJournal :=
  {| aj_entries := aj_entries j; aj_spent_units := sat_add64 (aj_spent_units j) units |}.
Definition attempts_used (j : AttemptJournal) : N := N.min (len (aj_entries j)) u32_max.

(** [JournalStore::has_uncertain] *)
Definition has_uncertain (entries : list AttemptJournalEntry) (op : string) : bool :=
  existsb (fun e => (je_logical_operation_id e == op) && (je_state e == SDispatching)) entries.

(** [begin] and [finish] of [AttemptJournal] *)
Definition begin (j : AttemptJournal) (entry : AttemptJournalEntry) : Result AttemptJournal FailoverError :=
  let? l := begin_entries entry (aj_entries j) in Ok (from_entries l (aj_spent_units j)).
Definition finish (j : AttemptJournal) (op : string) (i : N) (outcome : AttemptOutcome)
  : Result AttemptJournal FailoverError :=
  let? l := finish_entries op i outcome (aj_entries j) in Ok (from_entries l (aj_spent_units j)).

(** ** The envelope *)

Record ParentEnvelope := {
  pe_max_attempts : N;
  pe_deadline_mono_ms : N;
  pe_reserved_units : N;
}.

(** [ParentEnvelope::build] *)
Definition build (max_attempts set_size deadline_mono_ms per_attempt_worst : N) : Result ParentEnvelope FailoverError :=
  if (max_attempts =? 0)%N then Err MaxAttemptsZero
  else if (set_size <? max_attempts)%N then Err (MaxAttemptsExceedsSetSize max_attempts set_size)
  else
    let? reserved := ok_or (checked_mul64 per_attempt_worst max_attempts) ReservationOverflow in
    Ok {| pe_max_attempts := max_attempts; pe_deadline_mono_ms := deadline_mono_ms; pe_reserved_units := reserved |}.

(** [remaining] and [per_try_timeout_ms] *)
Definition remaining (e : ParentEnvelope) (now_ms : N) : option N :=
  match checked_sub (pe_deadline_mono_ms e) now_ms with
  | Some r => if (0 <? r)%N then Some r else None
  | None => None
  end.

Definition per_attempt_worst_units (e : ParentEnvelope) : N :=
  if (pe_max_attempts e =? 0)%N then pe_reserved_units e else (pe_reserved_units e / pe_max_attempts e)%N.

Record PolicyFingerprint := {
  pf_contract_digest : string;
  pf_policy_digest : string;
  pf_credential_scope : string;
}.

#[global] Instance PolicyFingerprint_eq_dec : EqDecision PolicyFingerprint.
Proof. solve_decision. Defined.

Definition drift_invalidates (at_admission current : PolicyFingerprint) : bool := at_admission != current.

(** ** The decision *)

Inductive StopReason :=
| ExecutedTerminal | UnknownAfterSendTerminal | AttemptsExhausted | DeadlineExpired | ReservationExhausted
| DriftInvalidated | MissingKey | AttemptInFlight | StopNoEndpoints | StopUncertainPriorAttempt
| UnapprovedPolicyDigest.

Inductive FailoverAction :=
| Attempt (endpoint_index : N) (idempotency_key : option string)
| Stop (reason : StopReason).

Definition last_terminal (j : AttemptJournal) : option StopReason :=
  match last (aj_entries j) with
  | Some e =>
      match je_state e with
      | SDispatching => Some AttemptInFlight
      | SStateExecuted => Some ExecutedTerminal
      | SStateUnknown => Some UnknownAfterSendTerminal
      | SNoExecutionProven => None
      end
  | None => None
  end.

(** [FailoverDecision::next_action] *)
Definition next_action (set : EndpointSet) (j : AttemptJournal) (env : ParentEnvelope) (now_ms : N)
  (idempotency_key : option string) (at_admission current : option PolicyFingerprint) : FailoverAction :=
  if (len (es_endpoints set) =? 0)%N then Stop StopNoEndpoints
  else if match at_admission, current with Some a, Some c => drift_invalidates a c | _, _ => false end
  then Stop DriftInvalidated
  else if is_none (remaining env now_ms) then Stop DeadlineExpired
  else
    let used := attempts_used j in
    match last_terminal j with
    | Some reason => Stop reason
    | None =>
        if (pe_max_attempts env <=? used)%N || (len (es_endpoints set) <=? used)%N then Stop AttemptsExhausted
        else
          let next_cost := per_attempt_worst_units env in
          if (0 <? next_cost)%N && (pe_reserved_units env <? sat_add64 (aj_spent_units j) next_cost)%N
          then Stop ReservationExhausted
          else
            match es_side_effect_class set with
            | IdempotentWithKey =>
                match idempotency_key with
                | Some k => if negb (is_blank k) then Attempt used (Some k) else Stop MissingKey
                | None => Stop MissingKey
                end
            | SideEffectful => Attempt used None
            end
    end.

(** ** The engine ([gate/src/failover.rs]) *)

(** [GateError] ([gate/src/lib.rs]) *)
Inductive GateError :=
| GIo (op path cause : string)
| GVaultCorrupt (path cause : string)
| GVaultTampered (secret : string)
| GCrypto (reason : string)
| GInvalidSecret (name reason : string)
| GNoSuchSecret (name : string)
| GPolicyDenied (secret reason : string)
| GUsageMismatch (secret : string)
| GDispatchAuthority (what : string)
| GInvalidPlaceholder (reason : string)
| GInvalidUrl (url reason : string)
| GSsrfBlocked (host reason : string)
| GUpstreamHttp (cause : string)
| GAdapter (provider reason : string)
| GInvalidConnector (path reason : string)
| GNoSuchTool (tool : string)
| GInvalidToolArgs (tool reason : string)
| GBridgeUnauthorized (bridge_id sender_id reason : string)
| GBridgeError (bridge_id reason : string)
| GContractUnsupportedConstruct (construct : string)
| GContractUnenforceable
| GContractFailed (violation body_sha256 : string) (body_bytes : N)
| GContractResponseTooLarge (prefix_sha256 : string) (read_bytes max_bytes status : N)
| GContractInvalidUtf8 (body_sha256 : string) (body_bytes status : N)
| GWarrantInput (reason : string)
| GWarrantRejected (reason : string).

(** One classified dispatch attempt; [T] is what a response is. *)
Record ClassifiedAttempt (T : Type) := {
  ca_outcome : AttemptOutcome;
  ca_response : option T;
  ca_bytes : N;
  ca_error : option GateError;
}.
Arguments ca_outcome {T} c.
Arguments ca_response {T} c.
Arguments ca_bytes {T} c.
Arguments ca_error {T} c.

Inductive DispatchOnlyOutcome (T : Type) :=
| DExecuted (response : option T) (bytes : N) (journal : AttemptJournal)
| DUnknown (journal : AttemptJournal)
| DAllNoExecutionProven (journal : AttemptJournal) (error : option GateError) (reason : StopReason).
Arguments DExecuted {T} response bytes journal.
Arguments DUnknown {T} journal.
Arguments DAllNoExecutionProven {T} journal error reason.

(** What the loop asks of the outside: the clock, the live fingerprint, the
    dispatch of one attempt, and the backend of a persistent journal. *)
Inductive FOp :=
| FNow
| FFingerprint
| FDispatch (endpoint : string) (per_try_ms : N) (key : option string)
| FSave (entries : list AttemptJournalEntry).

Definition FResp (T : Type) (o : FOp) : Type :=
  match o with
  | FNow => N
  | FFingerprint => PolicyFingerprint
  | FDispatch _ _ _ => ClassifiedAttempt T
  | FSave _ => Result unit GovernorError
  end.

Definition fask {T} (o : FOp) : Prog (FResp T) (FResp T o) := call o.

(** [trait JournalStore], for a journal of type [J] *)
Class JournalStore (T J : Type) := {
  js_begin : J → AttemptJournalEntry → Prog (FResp T) (J * Result unit FailoverError);
  js_finish : J → string → N → AttemptOutcome → Prog (FResp T) (J * Result unit FailoverError);
  js_entries : J → list AttemptJournalEntry;
  js_record_spend : J → N → J;
  js_spent_units : J → N;
}.

(** The in-memory journal never calls out. *)
Definition pure_result {J} (j : J) (r : Result J FailoverError) : J * Result unit FailoverError :=
  match r with Ok j' => (j', Ok tt) | Err e => (j, Err e) end.

#[global] Instance mem_journal (T : Type) : JournalStore T AttemptJournal := {
  js_begin j e := Ret (pure_result j (begin j e));
  js_finish j op i o := Ret (pure_result j (finish j op i o));
  js_entries := aj_entries;
  js_record_spend := record_spend;
  js_spent_units := aj_spent_units;
}.

Definition FAILOVER_JOURNAL_CAP : N := 200.

(** [PersistentFailoverJournal] over the store's journal backend *)
Record PersistentFailoverJournal := {
  pj_entries : list AttemptJournalEntry;
  pj_spent : N;
}.

(** [PersistentFailoverJournal::new] on what [load_failover_journal] answers *)
Definition PersistentFailoverJournal_new (loaded : Result (list AttemptJournalEntry) GovernorError)
  : Result PersistentFailoverJournal FailoverError :=
  match loaded with
  | Ok entries => Ok {| pj_entries := entries; pj_spent := 0 |}
  | Err _ => Err JournalUnavailable
  end.

(** [capped]: drop finished entries, oldest first, down to the cap. The loop
    removes one entry each time round, so its length is fuel enough. *)
Fixpoint capped_loop (fuel : nat) (l : list AttemptJournalEntry) : list AttemptJournalEntry * Result unit FailoverError :=
  match fuel with
  | O => (l, Ok tt)
  | S fuel' =>
      if (FAILOVER_JOURNAL_CAP <? len l)%N then
        if existsb (fun e => je_state e != SDispatching) l
        then capped_loop fuel' (remove_first (fun e => je_state e != SDispatching) l)
        else (l, Err JournalUnavailable)
      else (l, Ok tt)
  end.
Definition capped (l : list AttemptJournalEntry) : list AttemptJournalEntry * Result unit FailoverError :=
  capped_loop (S (length l)) l.
#[global] Arguments capped : simpl never.

Definition persist {T} (j : PersistentFailoverJournal)
  : Prog (FResp T) (PersistentFailoverJournal * Result unit FailoverError) :=
  r <- fask (T := T) (FSave (pj_entries j)) ;;
  Ret (j, map_err (fun _ => JournalUnavailable) r).

Definition pj_with (j : PersistentFailoverJournal) (l : list AttemptJournalEntry) : PersistentFailoverJournal :=
  {| pj_entries := l; pj_spent := pj_spent j |}.

#[global] Instance persistent_journal (T : Type) : JournalStore T PersistentFailoverJournal := {
  js_begin j entry :=
    match begin_entries entry (pj_entries j) with
    | Err e => Ret (j, Err e)
    | Ok l =>
        match capped l with
        | (l', Err e) => Ret (pj_with j (removelast l'), Err e)
        | (l', Ok _) => persist (pj_with j l')
        end
    end;
  js_finish j op i o :=
    match finish_entries op i o (pj_entries j) with
    | Err e => Ret (j, Err e)
    | Ok l => persist (pj_with j l)
    end;
  js_entries := pj_entries;
  js_record_spend j units := {| pj_entries := pj_entries j; pj_spent := sat_add64 (pj_spent j) units |};
  js_spent_units := pj_spent;
}.

(** The journal of one operation, as the decision sees it ([snapshot]). *)
Definition journal_snapshot {T J} `{JournalStore T J} (j : J) (op : string) : AttemptJournal :=
  from_entries (List.filter (fun e => je_logical_operation_id e == op) (js_entries j)) (js_spent_units j).

Section Engine.
Context {T J : Type} `{!JournalStore T J}.
Context (approved : bool) (policy_digest : string).
Context (set : EndpointSet) (env : ParentEnvelope) (op : string) (idempotency_key : option string)
        (at_admission : option PolicyFingerprint).

Definition stopped (j : J) (error : option GateError) (reason : StopReason)
  : Prog (FResp T) (option (J * DispatchOnlyOutcome T)) :=
  Ret (Some (j, DAllNoExecutionProven (journal_snapshot j op) error reason)).

Definition drifted (current : PolicyFingerprint) : bool :=
  is_some_and at_admission (fun a => drift_invalidates a current).

(** [last_error] after an attempt: an unknown outcome never surfaces its error. *)
Definition next_error (last_error : option GateError) (a : ClassifiedAttempt T) : option GateError :=
  match ca_outcome a with
  | UnknownAfterSend => last_error
  | _ => option_or (ca_error a) last_error
  end.

(** One begun attempt: its dispatch, its journal entry finished, its spend.
    [continue] is the next turn of the loop. *)
Definition try_attempt (j : J) (last_error : option GateError) (endpoint : string) (i : N) (key : option string)
  (continue : J → option GateError → Prog (FResp T) (option (J * DispatchOnlyOutcome T)))
  : Prog (FResp T) (option (J * DispatchOnlyOutcome T)) :=
  now2 <- fask (T := T) FNow ;;
  match remaining env now2 with
  | None =>
      f <- js_finish j op i (NoExecutionProven WPreDispatchRefusal) ;;
      stopped (js_record_spend f.1 (per_attempt_worst_units env)) last_error DeadlineExpired
  | Some per_try =>
      a <- fask (T := T) (FDispatch endpoint per_try (option_or key idempotency_key)) ;;
      f <- js_finish j op i (ca_outcome a) ;;
      let j' := js_record_spend f.1 (per_attempt_worst_units env) in
      match ca_outcome a with
      | Executed => Ret (Some (j', DExecuted (ca_response a) (ca_bytes a) (journal_snapshot j' op)))
      | UnknownAfterSend => Ret (Some (j', DUnknown (journal_snapshot j' op)))
      | NoExecutionProven _ => continue j' (next_error last_error a)
      end
  end.

(** The loop. [None] is running out of fuel, or an endpoint index out of
    range, which would panic. *)
Fixpoint attempt_loop (fuel : nat) (j : J) (last_error : option GateError)
  : Prog (FResp T) (option (J * DispatchOnlyOutcome T)) :=
  match fuel with
  | O => Ret None
  | S fuel' =>
      now <- fask (T := T) FNow ;;
      current <- fask (T := T) FFingerprint ;;
      if drifted current then stopped j last_error DriftInvalidated
      else
        let snap := journal_snapshot j op in
        match next_action set snap env now idempotency_key None None with
        | Stop reason => stopped j last_error reason
        | Attempt endpoint_index key =>
            match es_endpoints set !! N.to_nat endpoint_index with
            | None => Ret None
            | Some endpoint =>
                let i := attempts_used snap in
                b <- js_begin j {| je_logical_operation_id := op; je_attempt_index := i;
                                   je_endpoint := endpoint; je_state := SDispatching; je_at_ms := now |} ;;
                match b.2 with
                | Err _ => stopped b.1 last_error AttemptInFlight
                | Ok _ => try_attempt b.1 last_error endpoint i key (attempt_loop fuel')
                end
            end
        end
  end.

(** [FailoverEngine::run_dispatch_only] *)
Definition run_dispatch_only (fuel : nat) (j : J) : Prog (FResp T) (option (J * DispatchOnlyOutcome T)) :=
  if negb approved then
    stopped j (Some (GPolicyDenied "failover" ("unapproved_policy_digest:" +:+ policy_digest))) UnapprovedPolicyDigest
  else if has_uncertain (js_entries j) op then
    stopped j (Some (GPolicyDenied "failover" ("uncertain_prior_attempt:" +:+ op))) StopUncertainPriorAttempt
  else attempt_loop fuel j None.
End Engine.

(** ** What a journal promises the engine *)

(** The dispatches of a trace, with what each was classified as. *)
Definition dispatch_of {T} (ev : Event (FResp T)) : option (string * AttemptOutcome) :=
  match ev with
  | existT (FDispatch endpoint _ _) a => Some (endpoint, ca_outcome a)
  | _ => None
  end.
Definition dispatches {T} (tr : list (Event (FResp T))) : list (string * AttemptOutcome) := omap dispatch_of tr.

#[global] Arguments dispatches : simpl never.

Lemma dispatches_cons {T} (ev : Event (FResp T)) tr :
  dispatches (ev :: tr) = match dispatch_of ev with Some d => d :: dispatches tr | None => dispatches tr end.
Proof. done. Qed.

Lemma dispatches_app {T} (tr1 tr2 : list (Event (FResp T))) :
  dispatches (tr1 ++ tr2) = dispatches tr1 ++ dispatches tr2.
Proof. apply omap_app. Qed.

(** Compute the dispatches of an explicit trace. *)
Ltac compute_dispatches :=
  cbn [app]; repeat (rewrite ?dispatches_app, ?dispatches_cons; cbn [dispatch_of event app]).

Definition no_execution (d : string * AttemptOutcome) : Prop :=
  match d.2 with NoExecutionProven _ => True | _ => False end.

(** The attempts of an operation, and which attempt an entry is *)
Definition op_count (op : string) (l : list AttemptJournalEntry) : nat := length (List.filter (fun e => je_logical_operation_id e == op) l).
#[global] Arguments op_count : simpl never.
Definition entry_key (e : AttemptJournalEntry) : string * N := (je_logical_operation_id e, je_attempt_index e).

Class JournalLaws (T J : Type) `{JournalStore T J} := {
  (** lengths at which a [begin] drops at most one entry *)
  jl_room : nat → Prop;
  (** what the trace of a successful [begin] shows *)
  jl_begun : list (Event (FResp T)) → J → Prop;
  jl_begin_quiet j e tr r : runs (js_begin j e) tr r → dispatches tr = [];
  jl_finish_quiet j op i o tr r : runs (js_finish j op i o) tr r → dispatches tr = [];
  jl_begin_spent j e tr r : runs (js_begin j e) tr r → js_spent_units r.1 = js_spent_units j;
  jl_finish_spent j op i o tr r : runs (js_finish j op i o) tr r → js_spent_units r.1 = js_spent_units j;
  jl_record_spend j units : js_spent_units (js_record_spend j units) = sat_add64 (js_spent_units j) units;
  jl_begin_ok j e tr j' : je_state e = SDispatching →
    runs (js_begin j e) tr (j', Ok tt) → e ∈ js_entries j' ∧ jl_begun tr j';
  jl_begin_fresh j e tr j' : runs (js_begin j e) tr (j', Ok tt) →
    existsb (is_attempt (je_logical_operation_id e) (je_attempt_index e)) (js_entries j) = false;
  jl_begin_room j e tr j' : runs (js_begin j e) tr (j', Ok tt) → jl_room (length (js_entries j'))
    ∧ (jl_room (length (js_entries j)) →
       op_count (je_logical_operation_id e) (js_entries j) ≤ op_count (je_logical_operation_id e) (js_entries j'));
  jl_finish_keys j op i o tr r : runs (js_finish j op i o) tr r → map entry_key (js_entries r.1) = map entry_key (js_entries j);
  jl_spend_entries j units : js_entries (js_record_spend j units) = js_entries j;
}.

Lemma op_count_app op l l' : op_count op (l ++ l') = op_count op l + op_count op l'.
Proof. unfold op_count. by rewrite List.filter_app, length_app. Qed.

Lemma finish_keys op i o l l' : finish_entries op i o l = Ok l' → map entry_key l' = map entry_key l.
Proof.
  unfold finish_entries. destruct (List.find _ l) as [e|]; [|done]. destruct (_ != _); [done|]. intros [= <-].
  induction l as [|x l IH]; [done|]. cbn. by destruct (is_attempt op i x); cbn; rewrite ?IH.
Qed.

(** Dropping an entry *)
Lemma remove_first_length {A} (p : A → bool) l : existsb p l = true → length l = S (length (remove_first p l)).
Proof. induction l as [|x l IH]; [done|]. cbn. destruct (p x); [done|]. intros H. cbn. by rewrite <- IH. Qed.

Lemma remove_first_count op p l : op_count op l ≤ S (op_count op (remove_first p l)).
Proof.
  unfold op_count. induction l as [|x l IH]; cbn; [lia|]. destruct (p x); [case_bool_decide; cbn; lia|].
  cbn. case_bool_decide; cbn; lia.
Qed.

Lemma capped_loop_room fuel l l' : length l < fuel → capped_loop fuel l = (l', Ok tt) → (len l' ≤ FAILOVER_JOURNAL_CAP)%N.
Proof.
  revert l. induction fuel as [|fuel IH]; intros l Hl; [lia|]. cbn. destruct (_ <? _)%N eqn:E; [|intros [= <-]; by apply N.ltb_ge].
  destruct (existsb _ l) eqn:Ex; [|done]. apply IH. rewrite (remove_first_length _ _ Ex) in Hl. lia.
Qed.

(** With room for all but one, at most one goes. *)
Lemma capped_count op l l' : (len l ≤ FAILOVER_JOURNAL_CAP + 1)%N → capped l = (l', Ok tt) → op_count op l ≤ S (op_count op l').
Proof.
  unfold capped. cbn [capped_loop]. intros Hl. destruct (_ <? _)%N eqn:E; [|intros [= <-]; lia]. destruct (existsb _ l) eqn:Ex; [|done].
  pose proof (remove_first_length _ _ Ex) as Hr. pose proof (remove_first_count op (fun e => je_state e != SDispatching) l) as Hc.
  destruct (length l) as [|n] eqn:En; [lia|]. cbn [capped_loop]. destruct (_ <? len (remove_first _ l))%N eqn:E2; [|by intros [= <-]].
  apply N.ltb_lt in E2. unfold len in *. lia.
Qed.

#[global] Instance mem_journal_laws (T : Type) : JournalLaws T AttemptJournal.
Proof.
  unshelve econstructor; [exact (fun _ => True)|exact (fun _ _ => True)|..].
  - intros j e tr r [-> _]. done.
  - intros j op i o tr r [-> _]. done.
  - intros j e tr r [_ ->]. cbn. unfold begin, begin_entries. by destruct (existsb _ _).
  - intros j op i o tr r [_ ->]. cbn. unfold finish. by destruct (finish_entries _ _ _ _).
  - done.
  - intros j e tr j' _ [_ Heq]. split; [|done]. cbn in *. unfold begin, begin_entries in Heq.
    destruct (existsb _ _); cbn in Heq; simplify_eq. cbn. set_solver.
  - intros j e tr j' [_ Heq]. cbn in *. unfold begin, begin_entries in Heq. by destruct (existsb _ _).
  - intros j e tr j' [_ Heq]. split; [done|intros _]. cbn in *. unfold begin, begin_entries in Heq.
    destruct (existsb _ _); cbn in Heq; simplify_eq. cbn. rewrite op_count_app. lia.
  - intros j op i o tr r [_ ->]. cbn. unfold finish. destruct (finish_entries _ _ _ _) as [l|] eqn:E; cbn; [|done]. by eapply finish_keys.
  - done.
Defined.

Lemma capped_keeps fuel l e :
  je_state e = SDispatching → e ∈ l → e ∈ (capped_loop fuel l).1.
Proof.
  intros He. revert l. induction fuel as [|fuel IH]; intros l Hin; cbn; [done|].
  destruct (_ <? _)%N; [|done]. destruct (existsb _ l); [|done]. apply IH.
  clear IH. induction l as [|x l IH]; cbn; [done|].
  apply elem_of_cons in Hin as [->|Hin]; [rewrite He; cbn; left|].
  case_bool_decide; cbn; [right; auto|done].
Qed.

Lemma runs_persist {T} j tr r :
  runs (persist (T := T) j) tr r ↔
  ∃ a, tr = [event (Resp := FResp T) (FSave (pj_entries j)) a] ∧ r = (j, map_err (fun _ => JournalUnavailable) a).
Proof.
  unfold persist, fask. rewrite runs_bind. split.
  - intros (tr1 & tr2 & a & -> & ->%runs_call & [-> ->]). exists a. done.
  - intros (a & -> & ->). exists [event (Resp := FResp T) (FSave (pj_entries j)) a], [], a. rewrite runs_call. done.
Qed.

#[global] Instance persistent_journal_laws (T : Type) : JournalLaws T PersistentFailoverJournal.
Proof.
  unshelve econstructor; [exact (fun n => (N.of_nat n ≤ FAILOVER_JOURNAL_CAP)%N)|exact (fun tr j => tr = [event (Resp := FResp T) (FSave (pj_entries j)) (Ok tt)])|..].
  - intros j e tr r. cbn. destruct (begin_entries _ _) as [l|e0]; [|intros H; by destruct H as [-> _]].
    destruct (capped l) as [l' [u|e']]; [|intros H; by destruct H as [-> _]]. intros (a & -> & _)%runs_persist. done.
  - intros j op i o tr r. cbn. destruct (finish_entries _ _ _ _) as [l|e0]; [|intros H; by destruct H as [-> _]].
    intros (a & -> & _)%runs_persist. done.
  - intros j e tr r. cbn. destruct (begin_entries _ _) as [l|e0]; [|by intros [_ ->]].
    destruct (capped l) as [l' [u|e']]; [|by intros [_ ->]]. by intros (a & _ & ->)%runs_persist.
  - intros j op i o tr r. cbn. destruct (finish_entries _ _ _ _) as [l|e0]; [|by intros [_ ->]].
    by intros (a & _ & ->)%runs_persist.
  - done.
  - intros j e tr j' He. cbn. destruct (begin_entries _ _) as [l|e0] eqn:Hb; [|by intros [_ [=]]].
    destruct (capped l) as [l' [[]|e']] eqn:Hc; [|by intros [_ [=]]].
    intros (a & -> & Heq)%runs_persist. destruct a as [[]|?]; simplify_eq/=. split; [|done].
    unfold begin_entries in Hb. destruct (existsb _ _); simplify_eq.
    pose proof (capped_keeps (S (length (pj_entries j ++ [e]))) (pj_entries j ++ [e]) e He) as Hk.
    fold (capped (pj_entries j ++ [e])) in Hk. rewrite Hc in Hk. apply Hk. set_solver.
  - intros j e tr j'. cbn. unfold begin_entries. destruct (existsb _ _); [by intros [_ [=]]|done].
  - intros j e tr j'. cbn. unfold begin_entries. destruct (existsb _ _); [by intros [_ [=]]|].
    destruct (capped _) as [l' [[]|e']] eqn:Hc; [|by intros [_ [=]]]. intros (a & _ & Heq)%runs_persist. injection Heq as -> _. cbn. split.
    + eapply (capped_loop_room (S (length (pj_entries j ++ [e])))); [|exact Hc]. lia.
    + intros Hroom. apply (capped_count (je_logical_operation_id e)) in Hc; [|unfold len; rewrite length_app; cbn; lia].
      rewrite op_count_app in Hc. unfold op_count at 2 in Hc. cbn in Hc. rewrite bool_decide_eq_true_2 in Hc by done. cbn in Hc. lia.
  - intros j op i o tr r. cbn. destruct (finish_entries _ _ _ _) as [l|] eqn:E; [|by intros [_ ->]].
    intros (a & _ & ->)%runs_persist. by eapply finish_keys.
  - done.
Defined.

(** ** One turn of the loop *)

Lemma next_action_attempt set j env now key i k :
  next_action set j env now key None None = Attempt i k →
  i = attempts_used j ∧ (i < pe_max_attempts env)%N ∧ (i < len (es_endpoints set))%N ∧ last_terminal j = None ∧
  (0 < per_attempt_worst_units env →
   sat_add64 (aj_spent_units j) (per_attempt_worst_units env) ≤ pe_reserved_units env)%N.
Proof.
  unfold next_action. intros H. step_in H; bool_prop; split_and!; try done; try lia.
  all: match goal with H : _ ∨ _ |- _ => destruct H end; bool_prop; lia.
Qed.

Section Turn.
Context {T J : Type} `{JournalLaws T J}.
Context (set : EndpointSet) (env : ParentEnvelope) (op : string) (idempotency_key : option string)
        (at_admission : option PolicyFingerprint).
Let loop := attempt_loop (T := T) (J := J) set env op idempotency_key at_admission.
Let cost := per_attempt_worst_units env.

(** A turn of the loop: it stops without a dispatch, or it journals one
    attempt, dispatches it, journals its outcome and goes on or returns. *)
Lemma turn_cases fuel j err tr res :
  runs (loop (S fuel) j err) tr res →
  (dispatches tr = [] ∧ ∃ j' e reason, res = Some (j', DAllNoExecutionProven (journal_snapshot j' op) e reason)) ∨
  ∃ now fp i key ep tb j1 now2 per_try key' a tf f tr',
    next_action set (journal_snapshot j op) env now idempotency_key None None = Attempt i key ∧
    es_endpoints set !! N.to_nat i = Some ep ∧
    runs (js_begin j {| je_logical_operation_id := op; je_attempt_index := attempts_used (journal_snapshot j op);
                        je_endpoint := ep; je_state := SDispatching; je_at_ms := now |}) tb (j1, Ok tt) ∧
    runs (js_finish j1 op (attempts_used (journal_snapshot j op)) (ca_outcome a)) tf f ∧
    tr = event (Resp := FResp T) FNow now :: event (Resp := FResp T) FFingerprint fp :: tb
         ++ event (Resp := FResp T) FNow now2
         :: event (Resp := FResp T) (FDispatch ep per_try key') a :: tf ++ tr' ∧
    let j' := js_record_spend f.1 cost in
    match ca_outcome a with
    | Executed => tr' = [] ∧ res = Some (j', DExecuted (ca_response a) (ca_bytes a) (journal_snapshot j' op))
    | UnknownAfterSend => tr' = [] ∧ res = Some (j', DUnknown (journal_snapshot j' op))
    | NoExecutionProven _ => runs (loop fuel j' (next_error err a)) tr' res
    end.
Proof.
  unfold loop. cbn [attempt_loop]. unfold fask.
  rewrite runs_bind. intros (t1 & t2 & now & -> & ->%runs_call & Hr).
  rewrite runs_bind in Hr. destruct Hr as (t3 & t4 & fp & -> & ->%runs_call & Hr).
  destruct (drifted _ fp); [destruct Hr as [-> ->]; left; split; [done|eauto]|].
  destruct (next_action _ _ _ _ _ _ _) as [i key|reason] eqn:Hn;
    [|destruct Hr as [-> ->]; left; split; [done|eauto]].
  destruct (es_endpoints set !! N.to_nat i) as [ep|] eqn:Hep.
  2: { apply next_action_attempt in Hn as (_ & _ & Hlt & _). apply lookup_ge_None in Hep.
       unfold len in Hlt. lia. }
  rewrite runs_bind in Hr. destruct Hr as (tb & t5 & [j1 r1] & -> & Hb & Hr).
  cbn [fst snd] in Hr. destruct r1 as [[]|e1].
  2: { destruct Hr as [-> ->]. left. pose proof (jl_begin_quiet _ _ _ _ Hb) as Hq.
       compute_dispatches. rewrite Hq. split; [done|eauto]. }
  unfold try_attempt, fask in Hr. rewrite runs_bind in Hr. destruct Hr as (t6 & t7 & now2 & -> & ->%runs_call & Hr).
  pose proof (jl_begin_quiet _ _ _ _ Hb) as Hq.
  destruct (remaining env now2) as [per_try|].
  2: { rewrite runs_bind in Hr. destruct Hr as (tf & t8 & f & -> & Hf & [-> ->]). left.
       compute_dispatches. rewrite Hq, (jl_finish_quiet _ _ _ _ _ _ Hf). split; [done|eauto]. }
  rewrite runs_bind in Hr. destruct Hr as (t8 & t9 & a & -> & ->%runs_call & Hr).
  rewrite runs_bind in Hr. destruct Hr as (tf & tr' & f & -> & Hf & Hr). right.
  exists now, fp, i, key, ep, tb, j1, now2, per_try, (option_or key idempotency_key), a, tf, f, tr'.
  split_and!; [done..| |]; [by rewrite <- ?app_assoc|].
  cbn. destruct (ca_outcome a); [exact Hr|by destruct Hr as [-> ->]..].
Qed.

(** What the returned outcome says of the dispatches that were made. *)
Definition outcome_matches (ds : list (string * AttemptOutcome)) (out : DispatchOnlyOutcome T) : Prop :=
  match out with
  | DExecuted _ _ _ => ∃ ds' ep, ds = ds' ++ [(ep, Executed)] ∧ Forall no_execution ds'
  | DUnknown _ => ∃ ds' ep, ds = ds' ++ [(ep, UnknownAfterSend)] ∧ Forall no_execution ds'
  | DAllNoExecutionProven _ _ _ => Forall no_execution ds
  end.

Lemma outcome_matches_cons ep w ds out :
  outcome_matches ds out → outcome_matches ((ep, NoExecutionProven w) :: ds) out.
Proof.
  assert (Hn : no_execution (ep, NoExecutionProven w)) by done.
  destruct out; cbn.
  1, 2: intros (ds' & ep' & -> & Hds); exists ((ep, NoExecutionProven w) :: ds'), ep'; split; [done|by constructor].
  intros. by constructor.
Qed.

(** The dispatches of one attempt and what follows it. *)
Lemma turn_dispatches now fp tb now2 ep per_try key (a : ClassifiedAttempt T) tf tr' j e r jf o f :
  runs (js_begin j e) tb r → runs (js_finish jf op o (ca_outcome a)) tf f →
  dispatches (event (Resp := FResp T) FNow now :: event (Resp := FResp T) FFingerprint fp :: tb
    ++ event (Resp := FResp T) FNow now2 :: event (Resp := FResp T) (FDispatch ep per_try key) a :: tf ++ tr')
  = (ep, ca_outcome a) :: dispatches tr'.
Proof.
  intros Hb Hf. compute_dispatches.
  by rewrite (jl_begin_quiet _ _ _ _ Hb), (jl_finish_quiet _ _ _ _ _ _ Hf).
Qed.

Lemma loop_outcome fuel j err tr j' out :
  runs (loop fuel j err) tr (Some (j', out)) → outcome_matches (dispatches tr) out.
Proof.
  revert j err tr. induction fuel as [|fuel IH]; intros j err tr; [by intros [_ [=]]|].
  intros [[-> (j2 & e & reason & [= -> ->])]|(now & fp & i & key & ep & tb & j1 & now2 & per_try & key' & a & tf & f & tr'
    & _ & _ & Hb & Hf & -> & Hr)]%turn_cases; [by constructor|].
  rewrite (turn_dispatches _ _ _ _ _ _ _ _ _ _ _ _ _ _ _ _ Hb Hf). cbv zeta in Hr.
  destruct (ca_outcome a) as [w| |].
  - apply outcome_matches_cons. by eapply IH.
  - destruct Hr as [-> [= _ ->]]. by exists [], ep.
  - destruct Hr as [-> [= _ ->]]. by exists [], ep.
Qed.

(** Each turn spends the cost of an attempt out of the reservation. *)
Lemma loop_spent fuel j err tr res :
  (pe_reserved_units env < u64_max)%N → runs (loop fuel j err) tr res →
  (js_spent_units j ≤ pe_reserved_units env → js_spent_units j + len (dispatches tr) * cost ≤ pe_reserved_units env)%N.
Proof.
  destruct (decide (cost = 0%N)) as [Hz|Hc]; [rewrite Hz; lia|]. intros Hmax. revert j err tr.
  induction fuel as [|fuel IH]; intros j err tr; [intros [-> _]; unfold dispatches, len; cbn; lia|].
  intros [[-> _]|(now & fp & i & key & ep & tb & j1 & now2 & per_try & key' & a & tf & f & tr'
    & Hn & _ & Hb & Hf & -> & Hr)]%turn_cases; [unfold len; cbn; lia|].
  rewrite (turn_dispatches _ _ _ _ _ _ _ _ _ _ _ _ _ _ _ _ Hb Hf). cbv zeta in Hr.
  apply next_action_attempt in Hn as (_ & _ & _ & _ & Hroom). fold cost in Hroom. specialize (Hroom ltac:(lia)). cbn in Hroom.
  unfold sat_add64 in Hroom.
  assert (Hs : js_spent_units (js_record_spend f.1 cost) = (js_spent_units j + cost)%N).
  { rewrite jl_record_spend, (jl_finish_spent _ _ _ _ _ _ Hf).
    pose proof (jl_begin_spent _ _ _ _ Hb) as Hb'. cbn in Hb'. rewrite Hb'. apply sat_add64_exact. lia. }
  assert (Hlen : ∀ ds : list (string * AttemptOutcome),
    (len ((ep, ca_outcome a) :: ds) * cost = cost + len ds * cost)%N) by (intros; unfold len; cbn; nia).
  rewrite Hlen. destruct (ca_outcome a) as [w| |].
  - specialize (IH _ _ _ Hr). rewrite Hs in IH. lia.
  - destruct Hr as [-> ->]. unfold dispatches, len. cbn. lia.
  - destruct Hr as [-> ->]. unfold dispatches, len. cbn. lia.
Qed.

(** A journal that has the attempt which is next by count dispatches nothing. *)
Definition next_taken (j : J) : bool := existsb (is_attempt op (attempts_used (journal_snapshot j op))) (js_entries j).

Lemma taken_stops fuel j err tr res : next_taken j = true → 0 < fuel → runs (loop fuel j err) tr res → res ≠ None ∧ dispatches tr = [].
Proof.
  destruct fuel as [|fuel]; [lia|]. intros Ht _.
  intros [[-> (j2 & e & reason & ->)]|(now & fp & i & key & ep & tb & j1 & now2 & per_try & key' & a & tf & f & tr'
    & _ & _ & Hb & _)]%turn_cases; [done|]. apply jl_begin_fresh in Hb. cbn in Hb. unfold next_taken in Ht. congruence.
Qed.

Lemma key_count (l l' : list AttemptJournalEntry) : map entry_key l = map entry_key l' → op_count op l = op_count op l'.
Proof.
  revert l'. induction l as [|x l IH]; intros [|y l'] E; try done. injection E as E1 _ E3. unfold op_count. cbn. rewrite E1.
  specialize (IH l' E3). unfold op_count in IH. destruct (_ == op); cbn; congruence.
Qed.

Lemma key_attempt i (l l' : list AttemptJournalEntry) : map entry_key l = map entry_key l' → existsb (is_attempt op i) l = existsb (is_attempt op i) l'.
Proof.
  revert l'. induction l as [|x l IH]; intros [|y l'] E; try done. injection E as E1 E2 E3. cbn. rewrite (IH l' E3). unfold is_attempt. by rewrite E1, E2.
Qed.

(** A turn that dispatches leaves its attempt in the journal, and with room
    for one more, no fewer attempts of the operation than before. *)
Lemma turn_count j ep now tb j1 i (o : AttemptOutcome) tf f :
  runs (js_begin j {| je_logical_operation_id := op; je_attempt_index := i; je_endpoint := ep; je_state := SDispatching; je_at_ms := now |})
    tb (j1, Ok tt) → runs (js_finish j1 op i o) tf f →
  let j' := js_record_spend f.1 cost in
  jl_room (length (js_entries j')) ∧ existsb (is_attempt op i) (js_entries j') = true ∧ 0 < op_count op (js_entries j')
  ∧ (jl_room (length (js_entries j)) → op_count op (js_entries j) ≤ op_count op (js_entries j')).
Proof.
  intros Hb Hf. cbv zeta. rewrite jl_spend_entries. pose proof (jl_finish_keys _ _ _ _ _ _ Hf) as Hk. cbn in Hk.
  apply jl_begin_room in Hb as Hroom. apply jl_begin_ok in Hb as [Hin _]; [|done]. cbn in Hroom.
  rewrite (key_count _ _ Hk), (key_attempt _ _ _ Hk). rewrite <- (length_map entry_key), Hk, length_map.
  split_and!; [apply Hroom| | |apply Hroom].
  - apply existsb_exists. eexists. split; [by apply list_elem_of_In|]. unfold is_attempt. cbn. by rewrite !bool_decide_eq_true_2.
  - unfold op_count. destruct (List.filter _ _) as [|x l] eqn:E; [|cbn; lia].
    exfalso. apply (elem_of_nil (A := AttemptJournalEntry) {| je_logical_operation_id := op; je_attempt_index := i; je_endpoint := ep;
      je_state := SDispatching; je_at_ms := now |}). rewrite <- E. apply filter_elem. split; [done|]. cbn. by rewrite bool_decide_eq_true_2.
Qed.

Lemma used_count j : attempts_used (journal_snapshot j op) = N.min (N.of_nat (op_count op (js_entries j))) u32_max.
Proof. done. Qed.

(** Each turn that dispatches uses up an attempt, or is the last to dispatch. *)
Lemma loop_counted fuel j err tr res :
  (pe_max_attempts env ≤ u32_max)%N → jl_room (length (js_entries j)) →
  (pe_max_attempts env < attempts_used (journal_snapshot j op) + N.of_nat fuel)%N → 0 < fuel →
  runs (loop fuel j err) tr res →
  res ≠ None ∧ (len (dispatches tr) ≤ pe_max_attempts env - attempts_used (journal_snapshot j op))%N.
Proof.
  intros Hmax. revert j err tr. induction fuel as [|fuel IH]; intros j err tr Hroom Hfuel Hpos; [lia|].
  intros [[-> (j2 & e & reason & ->)]|(now & fp & i & key & ep & tb & j1 & now2 & per_try & key' & a & tf & f & tr'
    & Hn & _ & Hb & Hf & -> & Hr)]%turn_cases; [split; [done|unfold len; cbn; lia]|].
  rewrite (turn_dispatches _ _ _ _ _ _ _ _ _ _ _ _ _ _ _ _ Hb Hf). cbv zeta in Hr.
  apply next_action_attempt in Hn as (Hi & Hlt & _). rewrite Hi in Hlt.
  destruct (turn_count _ _ _ _ _ _ _ _ _ Hb Hf) as (Hroom' & Htaken & _ & Hmono). specialize (Hmono Hroom).
  assert (Hlen : ∀ ds : list (string * AttemptOutcome), len ((ep, ca_outcome a) :: ds) = (1 + len ds)%N) by (intros; unfold len; cbn; lia).
  rewrite Hlen. destruct (ca_outcome a) as [w| |]; [|destruct Hr as [-> ->]; split; [done|unfold dispatches, len; cbn; lia]..].
  set (j' := js_record_spend f.1 cost) in *. rewrite !used_count in *.
  destruct (decide (op_count op (js_entries j') = op_count op (js_entries j))) as [E|E].
  - apply taken_stops in Hr as [Hres Hnone]; [|unfold next_taken; rewrite used_count, E; exact Htaken|lia].
    rewrite Hnone. split; [done|]. unfold len. cbn. lia.
  - apply IH in Hr as [Hres Hle]; [|exact Hroom'|rewrite used_count; lia|lia]. rewrite used_count in Hle. split; [done|]. lia.
Qed.

(** The same with any journal, even one loaded with too many entries. *)
Lemma loop_counted_any fuel j err tr res :
  (0 < pe_max_attempts env ≤ u32_max)%N → (pe_max_attempts env < N.of_nat fuel)%N → runs (loop fuel j err) tr res →
  res ≠ None ∧ (len (dispatches tr) ≤ pe_max_attempts env)%N.
Proof.
  intros Hmax Hfuel. destruct fuel as [|fuel]; [lia|].
  intros [[-> (j2 & e & reason & ->)]|(now & fp & i & key & ep & tb & j1 & now2 & per_try & key' & a & tf & f & tr'
    & _ & _ & Hb & Hf & -> & Hr)]%turn_cases; [split; [done|unfold len; cbn; lia]|].
  rewrite (turn_dispatches _ _ _ _ _ _ _ _ _ _ _ _ _ _ _ _ Hb Hf). cbv zeta in Hr.
  destruct (turn_count _ _ _ _ _ _ _ _ _ Hb Hf) as (Hroom' & _ & Hone & _).
  assert (Hlen : ∀ ds : list (string * AttemptOutcome), len ((ep, ca_outcome a) :: ds) = (1 + len ds)%N) by (intros; unfold len; cbn; lia).
  rewrite Hlen. destruct (ca_outcome a) as [w| |]; [|destruct Hr as [-> ->]; split; [done|unfold dispatches, len; cbn; lia]..].
  set (j' := js_record_spend f.1 cost) in *.
  apply loop_counted in Hr as [Hres Hle]; [|lia|exact Hroom'|rewrite used_count; unfold u32_max in *; lia|lia].
  rewrite used_count in Hle. split; [done|]. unfold u32_max in *. lia.
Qed.
End Turn.

(** ** Theorems *)

Lemma build_ok max_attempts set_size deadline worst env :
  build max_attempts set_size deadline worst = Ok env →
  env = {| pe_max_attempts := max_attempts; pe_deadline_mono_ms := deadline;
           pe_reserved_units := (worst * max_attempts)%N |} ∧
  (0 < max_attempts ≤ set_size)%N.
Proof.
  unfold build, checked_mul. destruct (_ =? 0)%N eqn:E0; [done|]. destruct (_ <? _)%N eqn:E1; [done|].
  destruct (_ <=? _)%N; [|done]. cbn. intros [= <-]. bool_prop. split; [done|lia].
Qed.

(** A run that dispatched anything passed the gates at the door. *)
Lemma run_started {T J} `{JournalLaws T J} approved digest set env op key at_admission fuel (j : J) tr res :
  runs (run_dispatch_only (T := T) approved digest set env op key at_admission fuel j) tr res →
  dispatches tr ≠ [] →
  approved = true ∧ has_uncertain (js_entries j) op = false ∧ last_terminal (journal_snapshot j op) = None.
Proof.
  unfold run_dispatch_only. destruct approved; [|by intros [-> _]]. cbn [negb].
  destruct (has_uncertain _ _); [by intros [-> _]|]. intros Hr Hne. split_and!; [done..|].
  destruct fuel as [|fuel]; [by destruct Hr as [-> _]|].
  apply turn_cases in Hr as [[? _]|(now & fp & i & k & ep & tb & j1 & now2 & per_try & key' & a & tf & f & tr' & Hn & _)];
    [done|]. by apply next_action_attempt in Hn as (_ & _ & _ & ? & _).
Qed.

(** (C5) At most one attempt of an operation may have executed. Whatever the
    clock, the journal's backend and the upstreams answer: every attempt but
    the last is proven not to have executed; the engine reports an execution
    or an unknown outcome exactly when the last attempt was one, and never
    calls a run undispatched otherwise; and it dispatches nothing unless the
    policy is approved and the operation's journal holds no attempt in flight
    and does not end in one that executed or may have. *)
Theorem failover_at_most_one_execution {T J : Type} `{JournalLaws T J}
  (approved : bool) (digest : string) (set : EndpointSet) (env : ParentEnvelope) (op : string)
  (key : option string) (at_admission : option PolicyFingerprint) (fuel : nat) (j j' : J)
  (tr : list (Event (FResp T))) (out : DispatchOnlyOutcome T) :
  runs (run_dispatch_only approved digest set env op key at_admission fuel j) tr (Some (j', out)) →
  outcome_matches (dispatches tr) out ∧
  (dispatches tr ≠ [] →
   approved = true ∧ has_uncertain (js_entries j) op = false ∧ last_terminal (journal_snapshot j op) = None).
Proof.
  intros Hr. split; [|intros Hne; by eapply run_started].
  unfold run_dispatch_only in Hr. destruct approved; [|destruct Hr as [-> [= -> ->]]; exact (Forall_nil_2 _)].
  destruct (has_uncertain _ _); [destruct Hr as [-> [= -> ->]]; exact (Forall_nil_2 _)|].
  exact (loop_outcome _ _ _ _ _ _ _ _ _ _ _ Hr).
Qed.

(** (C25) The engine returns within its envelope, for any journal that keeps
    the promises of [JournalLaws], with whatever it already holds and at any
    cost per attempt, zero included: [max_attempts + 1] turns always suffice,
    no endpoint index is out of range, and no more than [max_attempts] attempts
    are dispatched; where the journal is within its cap, the attempts it
    already holds of the operation count. A reservation below [u64::MAX]
    that was not overspent stays so. *)
Theorem failover_terminates {T J : Type} `{JournalLaws T J}
  (set : EndpointSet) (env : ParentEnvelope) (op : string) (key : option string)
  (at_admission : option PolicyFingerprint) (max_attempts set_size deadline worst : N) (j : J)
  (tr : list (Event (FResp T))) res :
  build max_attempts set_size deadline worst = Ok env → (max_attempts ≤ u32_max)%N →
  runs (attempt_loop set env op key at_admission (S (N.to_nat max_attempts)) j None) tr res →
  res ≠ None ∧ (len (dispatches tr) ≤ max_attempts)%N
  ∧ (jl_room (length (js_entries j)) → len (dispatches tr) ≤ max_attempts - attempts_used (journal_snapshot j op))%N
  ∧ (max_attempts * worst < u64_max → js_spent_units j ≤ pe_reserved_units env →
     js_spent_units j + len (dispatches tr) * worst ≤ pe_reserved_units env)%N.
Proof.
  intros (-> & Hpos & _)%build_ok Hmax Hr. set (env := {| pe_max_attempts := max_attempts |}) in *.
  assert (Hcost : per_attempt_worst_units env = worst).
  { unfold per_attempt_worst_units. cbn. rewrite (proj2 (N.eqb_neq _ _)) by lia. apply N.div_mul. lia. }
  pose proof Hr as Hc. apply loop_counted_any in Hc as [Hres Hle]; [|done|cbn; lia]. split_and!; [done|done| |].
  - intros Hroom. apply loop_counted in Hr as [_ Hused]; [exact Hused|done|done|cbn; lia|lia].
  - intros Hw Hle0. apply loop_spent in Hr; [by rewrite Hcost in Hr|cbn; lia|done].
Qed.

(** Every dispatch of a trace comes right after what [P] says of the events
    before it. *)
Fixpoint preceded {T} (P : list (Event (FResp T)) → string → Prop) (before tr : list (Event (FResp T))) : Prop :=
  match tr with
  | [] => True
  | ev :: tr' =>
      match dispatch_of ev with Some d => P before d.1 | None => True end ∧ preceded P (before ++ [ev]) tr'
  end.

Section Preceded.
Context {T : Type} (P : list (Event (FResp T)) → string → Prop).

Lemma preceded_app before tr1 tr2 :
  preceded P before (tr1 ++ tr2) ↔ preceded P before tr1 ∧ preceded P (before ++ tr1) tr2.
Proof.
  revert before. induction tr1 as [|ev tr1 IH]; intros before; cbn; [rewrite app_nil_r; naive_solver|].
  rewrite IH, <- app_assoc. naive_solver.
Qed.

Lemma preceded_quiet before tr : dispatches tr = [] → preceded P before tr.
Proof.
  revert before. induction tr as [|ev tr IH]; intros before; cbn [preceded]; [done|].
  rewrite dispatches_cons. destruct (dispatch_of ev); [done|]. auto.
Qed.

Lemma preceded_at before tr1 ep per_try k a tr2 :
  preceded P before (tr1 ++ event (Resp := FResp T) (FDispatch ep per_try k) a :: tr2) → P (before ++ tr1) ep.
Proof. intros [_ H]%preceded_app. apply H. Qed.
End Preceded.

(** The last two events save attempt [ep] of [op] in flight and read the clock. *)
Definition just_journalled {T} (op : string) (before : list (Event (FResp T))) (ep : string) : Prop :=
  ∃ tr0 entries now e,
    before = tr0 ++ [event (Resp := FResp T) (FSave entries) (Ok tt); event (Resp := FResp T) FNow now] ∧
    e ∈ entries ∧ je_logical_operation_id e = op ∧ je_endpoint e = ep ∧ je_state e = SDispatching.

Lemma loop_preceded {T} set env op key at_admission fuel (j : PersistentFailoverJournal) err before tr res :
  runs (attempt_loop (T := T) set env op key at_admission fuel j err) tr res →
  preceded (just_journalled op) before tr.
Proof.
  revert j err before tr. induction fuel as [|fuel IH]; intros j err before tr; [by intros [-> _]|].
  intros [[Hq _]|(now & fp & i & k & ep & tb & j1 & now2 & per_try & key' & a & tf & f & tr'
    & _ & _ & Hb & Hf & -> & Hr)]%turn_cases; [by apply preceded_quiet|].
  apply (jl_begin_ok (T := T)) in Hb as [Hin ->]; [|done].
  cbn [app preceded dispatch_of event]. repeat (split; [done|]). split.
  - exists ((before ++ [event (Resp := FResp T) FNow now]) ++ [event (Resp := FResp T) FFingerprint fp]), (pj_entries j1), now2.
    eexists. split_and!; [by rewrite <- !app_assoc|exact Hin|done..].
  - apply preceded_app. split; [apply preceded_quiet; exact (jl_finish_quiet _ _ _ _ _ _ Hf)|].
    cbv zeta in Hr. destruct (ca_outcome a); [by eapply IH|by destruct Hr as [-> _]..].
Qed.

(** An attempt is durable before it is sent: with the persistent
    journal, whatever comes just before a dispatch is a successful save of a
    journal that holds that attempt in flight, and a reading of the clock. *)
Theorem journalled_before_dispatch {T : Type}
  (approved : bool) (digest : string) (set : EndpointSet) (env : ParentEnvelope) (op : string)
  (key : option string) (at_admission : option PolicyFingerprint) (fuel : nat) (j : PersistentFailoverJournal)
  (tr tr1 tr2 : list (Event (FResp T))) res ep per_try k a :
  runs (run_dispatch_only (T := T) approved digest set env op key at_admission fuel j) tr res →
  tr = tr1 ++ event (Resp := FResp T) (FDispatch ep per_try k) a :: tr2 →
  just_journalled op tr1 ep.
Proof.
  intros Hr ->. apply (preceded_at (just_journalled op) [] tr1 ep per_try k a tr2).
  unfold run_dispatch_only in Hr. destruct approved; cbn [negb] in Hr; [|by destruct Hr as [Hnil _]; destruct tr1].
  destruct (has_uncertain _ _); [by destruct Hr as [Hnil _]; destruct tr1|]. by eapply loop_preceded.
Qed.

(** ** A concrete run: the first endpoint refuses the connection, the second
    answers. *)

Definition demo_set : EndpointSet := {|
  es_connector_id := "c"; es_tool := "t"; es_endpoints := ["https://a.example/x"; "https://b.example/x"];
  es_side_effect_class := SideEffectful; es_idempotency_conformance_test := None;
  es_owner_approved := true; es_policy_digest := "" |}.
Definition demo_env : ParentEnvelope :=
  {| pe_max_attempts := 2; pe_deadline_mono_ms := 5000; pe_reserved_units := 20 |}.
Definition demo_answer (dispatched : N) : ClassifiedAttempt unit :=
  if (dispatched =? 0)%N
  then {| ca_outcome := classify_transport true 0 false; ca_response := None; ca_bytes := 0; ca_error := None |}
  else {| ca_outcome := Executed; ca_response := Some tt; ca_bytes := 7; ca_error := None |}.
Definition demo_world (o : FOp) (n : N) : FResp unit o * N :=
  match o as o return FResp unit o * N with
  | FNow => (1000%N, n)
  | FFingerprint => ({| pf_contract_digest := ""; pf_policy_digest := ""; pf_credential_scope := "" |}, n)
  | FDispatch _ _ _ => (demo_answer n, (n + 1)%N)
  | FSave _ => (Ok tt, n)
  end.
Definition demo_journal : PersistentFailoverJournal := {| pj_entries := []; pj_spent := 0 |}.
Definition demo_run : Prog (FResp unit) (option (PersistentFailoverJournal * DispatchOnlyOutcome unit)) :=
  run_dispatch_only true "" demo_set demo_env "op" None None 3 demo_journal.

Lemma failover_at_most_one_execution_witness :
  let run := interp demo_world demo_run 0%N in
  ∃ j' out, run.1.1 = Some (j', out) ∧ outcome_matches (dispatches run.1.2) out
    ∧ dispatches run.1.2 = [("https://a.example/x", NoExecutionProven WFreshConnectionZeroBytes);
                            ("https://b.example/x", Executed)].
Proof.
  intros run. pose proof (interp_runs demo_world demo_run 0%N) as H. fold run in H.
  destruct run.1.1 as [[j' out]|] eqn:E; [|vm_compute in E; discriminate].
  exists j', out. split; [reflexivity|]. split; [|vm_compute; reflexivity].
  apply (failover_at_most_one_execution true "" demo_set demo_env "op" None None 3 demo_journal j' _ _ H).
Defined.

Lemma failover_terminates_witness :
  let run := interp demo_world (attempt_loop (T := unit) demo_set demo_env "op" None None 3 demo_journal None) 0%N in
  run.1.1 ≠ None ∧ (len (dispatches run.1.2) ≤ 2)%N.
Proof.
  intros run.
  destruct (failover_terminates demo_set demo_env "op" None None 2 2 5000 10 demo_journal run.1.2 run.1.1)
    as (H1 & H2 & _); try (vm_compute; reflexivity).
  - vm_compute. discriminate.
  - apply interp_runs.
  - split; [exact H1|exact H2].
Defined.

Lemma journalled_before_dispatch_witness :
  let run := interp demo_world demo_run 0%N in
  just_journalled "op" (take 4 run.1.2) "https://a.example/x".
Proof.
  intros run.
  apply (journalled_before_dispatch true "" demo_set demo_env "op" None None 3 demo_journal
    run.1.2 (take 4 run.1.2) (drop 5 run.1.2) run.1.1 "https://a.example/x" 4000 None (demo_answer 0)).
  - apply interp_runs.
  - vm_compute. reflexivity.
Defined.
