(* ===== verification/GovDispatch.v ===== *)
(** * Governed dispatch ([gate/src/governor.rs])

    [GateGovernor] puts admission, the replay guard and settlement around one
    dispatch. [governed_dispatch] is a [Prog] over the store's operations and
    the dispatch closure; the store is one mutex that other callers use too,
    so each call is a step of its own and anything may happen in between.

    The theorems: whatever the store answers, a dispatch happens at most once,
    only on an admitted permit and, for an operation with a digest, only after
    its dispatch was journalled; every admitted permit is settled exactly
    once, by what the dispatch reported. Against the store itself, two
    callers whose calls interleave can both dispatch one operation, because
    the replay check and the journal entry are two steps. *)

From S2P Require Import Prelude RustStr Eff Governor Failover.

(** ** Approval and paths *)

Definition ADMISSION_UNAVAILABLE : string := "admission_unavailable".

Definition is_ascii_hexdigit (c : ascii) : bool :=
  is_ascii_digit c || in_range 65 70 c || in_range 97 102 c.

Definition approved_policy_digests_from_value (value : option string) : gset string :=
  match value with
  | None => ∅
  | Some v =>
      list_to_set (to_ascii_lowercase <$>
        List.filter (fun s => negb (is_empty_str s) && all_bytes is_ascii_hexdigit s)
          (trim <$> split_on (fun b => b == ","%char) v))
  end.

Definition url_path (url : string) : string :=
  match split_at_str "://" url with
  | None => ""
  | Some (_, after) =>
      match split_once "/"%char after with
      | Some (_, rest) => before_any (fun b => (b == "?"%char) || (b == "#"%char)) ("/" +:+ rest)
      | None => ""
      end
  end.

Definition join_url_paths (prefix path : string) : string :=
  let p := trim_end_char slash prefix in
  if is_empty_str p then if starts_with "/" path then path else "/" +:+ path
  else if is_empty_str path then p
  else if starts_with "/" path then p +:+ path
  else p +:+ "/" +:+ path.

Definition bool_str (b : bool) : string := if b then "true" else "false".

Definition approval_marker_digest (computed_policy_digest : string) (approved : bool) : string :=
  computed_policy_digest +:+ "#approved=" +:+ bool_str approved.

Definition is_live_approved_with_env (digest : string) (env_digests : option (gset string))
  (governor_approved : gset string) : bool :=
  match env_digests with
  | Some env => bool_decide (digest ∈ env)
  | None => bool_decide (digest ∈ governor_approved)
  end.

(** [is_live_approved], on the variable as the process sees it: absent, or
    present with a value that may not be Unicode. *)
Definition is_live_approved (env_value : option (option string)) (digest : string) (governor_approved : gset string)
  : bool :=
  match env_value with
  | Some v => is_live_approved_with_env digest (Some (approved_policy_digests_from_value v)) governor_approved
  | None => is_live_approved_with_env digest None governor_approved
  end.

(** [admission_refusal_text] *)
Definition admission_refusal_text (o : AdmissionOutcome) : string :=
  match o with
  | AdmissionUnavailable => ADMISSION_UNAVAILABLE
  | Deferred retry_after_ms reason => "deferred: " +:+ reason +:+ " (retry_after_ms " +:+ pretty retry_after_ms +:+ ")"
  | Denied reason => "denied: " +:+ reason
  | AdmittedWith p => "admitted: " +:+ pm_id p
  end.

(** ** The program *)

Inductive DispatchResult (T : Type) :=
| RExecutedWith (value : T) (actual_units : N)
| RefusedBeforeDispatch (e : GateError)
| FailedAfterSend (e : GateError).
Arguments RExecutedWith {T} value actual_units.
Arguments RefusedBeforeDispatch {T} e.
Arguments FailedAfterSend {T} e.

Inductive GovernedOrGateError :=
| GovRefused (o : AdmissionOutcome)
| GovGate (e : GateError).

Inductive GOp :=
| GReserve (q : AdmissionRequest) (now_ms : N)
| GSettle (r : SettleRequest)
| GReplay (q : ReplayRequest)
| GDispatch (p : Permit).

Definition GResp (T : Type) (o : GOp) : Type :=
  match o with
  | GReserve _ _ => Result AdmissionOutcome GovernorError
  | GSettle _ => Result unit GovernorError
  | GReplay _ => Result ReplayDecision GovernorError
  | GDispatch _ => DispatchResult T
  end.

Section Governed.
Context {T : Type}.
(** Whether the governor has a store. *)
Context (store : bool).

Definition Gov (A : Type) : Type := Prog (GResp T) A.
Definition gask (o : GOp) : Gov (GResp T o) := call o.

(** [GateGovernor::admit] *)
Definition gate_admit (q : AdmissionRequest) (now_ms : N) : Gov AdmissionOutcome :=
  if negb store then Ret AdmissionUnavailable
  else
    r <- gask (GReserve q now_ms) ;;
    Ret (match r with Ok o => o | Err _ => AdmissionUnavailable end).

(** [GateGovernor::admit_with_reserved] *)
Definition with_units (q : AdmissionRequest) (units : N) : AdmissionRequest := {|
  aq_principal := aq_principal q; aq_caller_agent := aq_caller_agent q; aq_project := aq_project q;
  aq_endpoint := aq_endpoint q; aq_requested_units := units; aq_quota_observed_at_ms := aq_quota_observed_at_ms q;
  aq_governance_call := aq_governance_call q; aq_call_name := aq_call_name q;
  aq_owner_fresh_action := aq_owner_fresh_action q; aq_operation_digest := aq_operation_digest q;
  aq_endpoint_set_digest := aq_endpoint_set_digest q; aq_original_key := aq_original_key q;
  aq_side_effect_class := aq_side_effect_class q |}.
Definition admit_with_reserved (q : AdmissionRequest) (now_ms reserved_override : N) : Gov AdmissionOutcome :=
  gate_admit (with_units q reserved_override) now_ms.

(** [GateGovernor::replay] *)
Definition replay (a : ReplayAttempt) (now_ms : N) (record : option ReplayRecordAction)
  : Gov (Result ReplayDecision GovernorError) :=
  if negb store then Ret (Err Unavailable)
  else gask (GReplay {| rq_attempt := a; rq_now_ms := now_ms; rq_record := record |}).

(** [GateGovernor::settle] and [settle_permit] *)
Definition settle_permit (p : Permit) (actual : N) (outcome : SettledOutcome) (complete : bool) : Gov unit :=
  if negb store then Ret tt
  else
    _ <- gask (GSettle {| sr_permit_id := pm_id p; sr_actual_units := actual; sr_outcome := outcome;
                          sr_complete := complete |}) ;;
    Ret tt.

(** Record on the replay log, if the request carries an operation. *)
Definition journal_action (attempt : option ReplayAttempt) (now_ms : N) (action : ReplayRecordAction) : Gov unit :=
  match attempt with
  | Some att => _ <- replay att now_ms (Some action) ;; Ret tt
  | None => Ret tt
  end.

(** The replay guard: check first, then begin the dispatch journal. *)
Definition replay_guard (attempt : option ReplayAttempt) (now_ms : N) : Gov (Result unit GovernedOrGateError) :=
  match attempt with
  | None => Ret (Ok tt)
  | Some att =>
      d <- replay att now_ms None ;;
      match d with
      | Ok (ReplayRefused reason) => Ret (Err (GovRefused (Denied reason)))
      | Err _ => Ret (Err (GovRefused AdmissionUnavailable))
      | Ok _ =>
          b <- replay att now_ms (Some RecordDispatching) ;;
          match b with
          | Err _ => Ret (Err (GovRefused AdmissionUnavailable))
          | Ok _ => Ret (Ok tt)
          end
      end
  end.

(** What follows the dispatch: journal the outcome and settle. *)
Definition conclude (attempt : option ReplayAttempt) (now_ms : N) (permit : Permit) (d : DispatchResult T)
  : Gov (Result (T * Permit) GovernedOrGateError) :=
  match d with
  | RExecutedWith value actual =>
      _ <- journal_action attempt now_ms (RecordOutcome RExecuted) ;;
      _ <- settle_permit permit actual SExecuted true ;;
      Ret (Ok (value, permit))
  | RefusedBeforeDispatch e =>
      _ <- journal_action attempt now_ms ClearDispatching ;;
      _ <- settle_permit permit 0 SNeverDispatched true ;;
      Ret (Err (GovGate e))
  | FailedAfterSend e =>
      _ <- journal_action attempt now_ms (RecordOutcome RUnknownAfterSend) ;;
      _ <- settle_permit permit (pm_reserved_units permit) SUnknownAfterSend false ;;
      Ret (Err (GovGate e))
  end.

(** [GateGovernor::governed_dispatch] *)
Definition governed_dispatch (q : AdmissionRequest) (now_ms : N) : Gov (Result (T * Permit) GovernedOrGateError) :=
  let attempt := replay_attempt q in
  _ <-? replay_guard attempt now_ms ;;
  admission <- gate_admit q now_ms ;;
  match admission with
  | AdmittedWith permit =>
      if (pm_deadline_mono_ms permit <=? now_ms)%N then
        _ <- settle_permit permit 0 SNeverDispatched true ;;
        _ <- journal_action attempt now_ms ClearDispatching ;;
        Ret (Err (GovRefused (Denied "permit_deadline_exceeded")))
      else
        d <- gask (GDispatch permit) ;;
        conclude attempt now_ms permit d
  | other =>
      _ <- journal_action attempt now_ms ClearDispatching ;;
      Ret (Err (GovRefused other))
  end.
End Governed.
Arguments Gov T A : clear implicits.

(** ** One settlement per permit *)

(** The settlement a dispatch calls for, and what the caller is told. *)
Definition settlement {T} (p : Permit) (d : DispatchResult T) : SettleRequest :=
  match d with
  | RExecutedWith _ actual =>
      {| sr_permit_id := pm_id p; sr_actual_units := actual; sr_outcome := SExecuted; sr_complete := true |}
  | RefusedBeforeDispatch _ =>
      {| sr_permit_id := pm_id p; sr_actual_units := 0; sr_outcome := SNeverDispatched; sr_complete := true |}
  | FailedAfterSend _ =>
      {| sr_permit_id := pm_id p; sr_actual_units := pm_reserved_units p; sr_outcome := SUnknownAfterSend;
         sr_complete := false |}
  end.
Definition told {T} (p : Permit) (d : DispatchResult T) : Result (T * Permit) GovernedOrGateError :=
  match d with
  | RExecutedWith v _ => Ok (v, p)
  | RefusedBeforeDispatch e | FailedAfterSend e => Err (GovGate e)
  end.

(** The calls of a trace that are not about the replay log. *)
Definition not_replay {T} (ev : Event (GResp T)) : bool :=
  match ev with existT (GReplay _) _ => false | _ => true end.
Definition main_calls {T} (tr : list (Event (GResp T))) : list (Event (GResp T)) := List.filter not_replay tr.

(** What happened around the dispatch. *)
Inductive governed_shape {T} (q : AdmissionRequest) (now_ms : N)
  : list (Event (GResp T)) → Result (T * Permit) GovernedOrGateError → Prop :=
| ShapeGuarded o : governed_shape q now_ms [] (Err (GovRefused o))
| ShapeRefused r o :
    (∀ p, r ≠ Ok (AdmittedWith p)) →
    governed_shape q now_ms [event (Resp := GResp T) (GReserve q now_ms) r] (Err (GovRefused o))
| ShapeExpired p r :
    (pm_deadline_mono_ms p ≤ now_ms)%N →
    governed_shape q now_ms
      [event (Resp := GResp T) (GReserve q now_ms) (Ok (AdmittedWith p));
       event (Resp := GResp T) (GSettle {| sr_permit_id := pm_id p; sr_actual_units := 0;
                                           sr_outcome := SNeverDispatched; sr_complete := true |}) r]
      (Err (GovRefused (Denied "permit_deadline_exceeded")))
| ShapeDispatched p d r :
    (now_ms < pm_deadline_mono_ms p)%N →
    governed_shape q now_ms
      [event (Resp := GResp T) (GReserve q now_ms) (Ok (AdmittedWith p));
       event (Resp := GResp T) (GDispatch p) d;
       event (Resp := GResp T) (GSettle (settlement p d)) r]
      (told p d).

(** The replay guard was passed: the check did not refuse, and the dispatch
    was journalled before anything else. *)
Definition guard_passed {T} (q : AdmissionRequest) (now_ms : N) (tr : list (Event (GResp T))) : Prop :=
  match replay_attempt q with
  | None => True
  | Some att =>
      ∃ d d' tr', (∀ reason, d ≠ ReplayRefused reason) ∧
      tr = event (Resp := GResp T) (GReplay {| rq_attempt := att; rq_now_ms := now_ms; rq_record := None |}) (Ok d)
           :: event (Resp := GResp T) (GReplay {| rq_attempt := att; rq_now_ms := now_ms;
                                                  rq_record := Some RecordDispatching |}) (Ok d') :: tr'
  end.

(** Take the runs of a hypothesis apart, call by call. *)
Ltac unroll H :=
  repeat match type of H with
  | runs (pbind _ _) _ _ =>
      rewrite runs_bind in H;
      let tr1 := fresh "tr" in let tr2 := fresh "tr" in let x := fresh "x" in let H1 := fresh "H" in
      destruct H as (tr1 & tr2 & x & -> & H1 & H); unroll H1
  | runs (gask _) _ _ => unfold gask in H; apply (runs_call (Resp := GResp _)) in H; subst
  | runs (Ret _) _ _ => destruct H as [-> ->]
  | runs (if ?b then _ else _) _ _ => destruct b eqn:?
  end.

Lemma main_calls_app {T} (tr1 tr2 : list (Event (GResp T))) : main_calls (tr1 ++ tr2) = main_calls tr1 ++ main_calls tr2.
Proof. apply List.filter_app. Qed.

Section Shape.
Context {T : Type} (q : AdmissionRequest) (now_ms : N).

Lemma journal_action_quiet attempt action tr u :
  runs (journal_action (T := T) true attempt now_ms action) tr u → main_calls tr = [].
Proof.
  unfold journal_action, replay. destruct attempt; cbn [negb]; intros H; unroll H; done.
Qed.

Lemma settle_permit_calls p actual o c tr u :
  runs (settle_permit (T := T) true p actual o c) tr u →
  ∃ r, tr = [event (Resp := GResp T) (GSettle {| sr_permit_id := pm_id p; sr_actual_units := actual;
                                                 sr_outcome := o; sr_complete := c |}) r].
Proof. unfold settle_permit. cbn [negb]. intros H. unroll H. eauto. Qed.

Lemma conclude_calls attempt p d tr res :
  runs (conclude (T := T) true attempt now_ms p d) tr res →
  res = told p d ∧ ∃ r, main_calls tr = [event (Resp := GResp T) (GSettle (settlement p d)) r].
Proof.
  destruct d; cbn [conclude]; rewrite runs_bind; intros (tr1 & tr2 & u & -> & H1%journal_action_quiet & H);
    rewrite runs_bind in H; destruct H as (tr3 & tr4 & u' & -> & [r ->]%settle_permit_calls & [-> ->]);
    (split; [done|]); rewrite main_calls_app, H1; by exists r.
Qed.

Lemma replay_guard_calls tr res :
  runs (replay_guard (T := T) true (replay_attempt q) now_ms) tr res →
  main_calls tr = [] ∧
  match res with
  | Ok _ => ∀ tr', guard_passed q now_ms (tr ++ tr')
  | Err e => ∃ o, e = GovRefused o
  end.
Proof.
  unfold replay_guard, guard_passed, replay. cbn [negb].
  destruct (replay_attempt q) as [att|]; [|intros [-> ->]; done].
  rewrite runs_bind. intros (tr1 & tr2 & d & -> & Hd & H). unroll Hd.
  destruct d as [d|e]; [|unroll H; split; [done|eauto]].
  destruct d as [| | |reason]; [| | |unroll H; split; [done|eauto]].
  all: rewrite runs_bind in H; destruct H as (tr3 & tr4 & b & -> & Hb & H); unroll Hb;
    destruct b as [d'|e]; unroll H; (split; [done|]); [|by eexists].
  all: intros tr'; eexists _, d', tr'; split; [|reflexivity]; done.
Qed.

Lemma admit_calls tr o :
  runs (gate_admit (T := T) true q now_ms) tr o →
  ∃ r, tr = [event (Resp := GResp T) (GReserve q now_ms) r]
    ∧ o = match r with Ok o => o | Err _ => AdmissionUnavailable end.
Proof. unfold gate_admit. cbn [negb]. intros H. unroll H. eauto. Qed.

(** A request that was not admitted. *)
Lemma refused_calls r o tr res :
  o = match r with Ok o => o | Err _ => AdmissionUnavailable end → (∀ p, o ≠ AdmittedWith p) →
  runs (_ <- journal_action (T := T) true (replay_attempt q) now_ms ClearDispatching ;; Ret (Err (GovRefused o))) tr res →
  governed_shape q now_ms (main_calls (event (Resp := GResp T) (GReserve q now_ms) r :: tr)) res.
Proof.
  intros Ho Hne. rewrite runs_bind. intros (tr1 & tr2 & u & -> & H1%journal_action_quiet & [-> ->]).
  change (main_calls (?x :: ?l)) with (x :: main_calls l). rewrite main_calls_app, H1.
  apply ShapeRefused. intros p ->. by apply (Hne p).
Qed.

Lemma governed_calls tr res :
  runs (governed_dispatch (T := T) true q now_ms) tr res →
  governed_shape q now_ms (main_calls tr) res ∧ (main_calls tr ≠ [] → guard_passed q now_ms tr).
Proof.
  unfold governed_dispatch. cbv zeta. intros [(e & H & ->)|(tr1 & tr2 & u & -> & H1 & H)]%runs_rbind.
  { apply replay_guard_calls in H as [-> [o ->]]. split; [constructor|done]. }
  apply replay_guard_calls in H1 as [H1 Hg]. split; [|by intros _].
  rewrite runs_bind in H. destruct H as (tr3 & tr4 & o & -> & (r & -> & Ho)%admit_calls & H).
  rewrite main_calls_app, H1. cbn [app].
  destruct o as [p|ms reason|reason|]; [|by apply (refused_calls r _ tr4 res Ho)..].
  destruct r as [o|e]; [|done]. subst o. change (main_calls (?x :: ?l)) with (x :: main_calls l).
  destruct (_ <=? _)%N eqn:E; bool_prop.
  - rewrite runs_bind in H. destruct H as (tr5 & tr6 & u' & -> & (r & ->)%settle_permit_calls & H).
    rewrite runs_bind in H. destruct H as (tr7 & tr8 & u'' & -> & Hj%journal_action_quiet & [-> ->]).
    change (main_calls ([?x] ++ ?l)) with (x :: main_calls l). rewrite main_calls_app, Hj. by constructor.
  - rewrite runs_bind in H. destruct H as (tr5 & tr6 & d & -> & Hd & (-> & r & Hc)%conclude_calls). unroll Hd.
    change (main_calls ([?x] ++ ?l)) with (x :: main_calls l). rewrite Hc. by constructor.
Qed.
End Shape.

(** Without a store nothing is called and everything is refused. *)
Lemma ungoverned_refuses {T : Type} q now_ms (tr : list (Event (GResp T))) res :
  runs (governed_dispatch false q now_ms) tr res → tr = [] ∧ res = Err (GovRefused AdmissionUnavailable).
Proof.
  unfold governed_dispatch, replay_guard, gate_admit, journal_action, replay. cbn [negb].
  destruct (replay_attempt q) as [att|]; intros [-> ->]; done.
Qed.

(** (C15) A governed dispatch settles what it was admitted for, once. Whatever
    the store and the upstream answer, it dispatches at most once, only on a
    permit it was just admitted with whose deadline is ahead, and it settles
    every permit it gets exactly once, by what the dispatch reported: executed
    at its actual cost, never dispatched in full, unknown left uncompleted at
    the whole reservation. An operation with a digest is only admitted after
    the replay check did not refuse it and its dispatch was journalled. A
    governor without a store refuses everything. *)
Theorem governed_dispatch_settles_once {T : Type} (store : bool) (q : AdmissionRequest) (now_ms : N)
  (tr : list (Event (GResp T))) res :
  runs (governed_dispatch store q now_ms) tr res →
  governed_shape q now_ms (main_calls tr) res ∧
  (main_calls tr ≠ [] → guard_passed q now_ms tr) ∧
  (store = false → res = Err (GovRefused AdmissionUnavailable) ∧ tr = []).
Proof.
  destruct store; intros Hr; [apply governed_calls in Hr as [??]; split_and!; done|].
  apply ungoverned_refuses in Hr as [-> ->]. split_and!; [constructor|done..].
Qed.

(** ** Against the store *)

(** The store's answers; [upstream] is what the dispatch closure reports. *)
Definition gov_handler {T} (upstream : Permit → DispatchResult T) (o : GOp) (st : MemGovernorStore)
  : GResp T o * MemGovernorStore :=
  match o as o return GResp T o * MemGovernorStore with
  | GReserve q now_ms => let '(st', r) := reserve st q now_ms in (r, st')
  | GSettle r => let '(st', x) := settle st r in (x, st')
  | GReplay q => let '(st', d) := record_and_check_replay st q in (d, st')
  | GDispatch p => (upstream p, st)
  end.

(** One caller alone. *)
Definition dispatch_alone {T} (upstream : Permit → DispatchResult T) (q : AdmissionRequest) (now_ms : N)
  (st : MemGovernorStore) : Result (T * Permit) GovernedOrGateError * list (Event (GResp T)) * MemGovernorStore :=
  interp (gov_handler upstream) (governed_dispatch true q now_ms) st.

(** Two callers, each call a step; the schedule says whose turn it is. *)
Fixpoint interleave {T A} (upstream : Permit → DispatchResult T) (sched : list bool)
  (p1 p2 : Gov T A) (st : MemGovernorStore) : Gov T A * Gov T A * list Permit * MemGovernorStore :=
  match sched with
  | [] => (p1, p2, [], st)
  | turn :: sched' =>
      match (if turn then p1 else p2) with
      | Ret _ => interleave upstream sched' p1 p2 st
      | Do o k =>
          let '(r, st') := gov_handler upstream o st in
          let '(p1', p2', ds, st'') :=
            if turn then interleave upstream sched' (k r) p2 st'
            else interleave upstream sched' p1 (k r) st' in
          (p1', p2', match o with GDispatch p => p :: ds | _ => ds end, st'')
      end
  end.

Definition race_request : AdmissionRequest := {|
  aq_principal := Warrant "w"; aq_caller_agent := ""; aq_project := "proj"; aq_endpoint := "h/a";
  aq_requested_units := 1; aq_quota_observed_at_ms := None; aq_governance_call := None; aq_call_name := None;
  aq_owner_fresh_action := false; aq_operation_digest := Some "op"; aq_endpoint_set_digest := "set";
  aq_original_key := None; aq_side_effect_class := SideEffectful |}.

Definition race (sched : list bool) : list Permit :=
  (interleave (fun _ => RExecutedWith tt 1) sched
     (governed_dispatch true race_request 1000) (governed_dispatch true race_request 1000)
     (MemGovernorStore_new GovernorPolicy_default)).1.2.

(** The replay guard does not hold between concurrent callers: the check
    and the journal entry are two locked calls, so two callers of one
    side-effecting operation that both check before either journals both
    dispatch it. Run one after the other, only the first dispatches. *)
Theorem concurrent_replay_race :
  length (race (replicate 6 true ++ replicate 6 false)) = 1 ∧
  length (race ([true; false] ++ replicate 5 true ++ replicate 5 false)) = 2.
Proof. vm_compute. split; reflexivity. Qed.

(** ** One caller after another *)

(** The store operation an event stands for. *)
Definition op_of {T} (ev : Event (GResp T)) : option GovOp :=
  match ev with
  | existT (GReserve q now_ms) _ => Some (OReserve q now_ms)
  | existT (GSettle r) _ => Some (OSettle r)
  | existT (GReplay q) _ => Some (OReplay q)
  | existT (GDispatch _) _ => None
  end.

(** A replay call on a poisoned store is answered with an error. *)
Definition replay_failed {T} (ev : Event (GResp T)) : Prop :=
  match ev with existT (GReplay _) r => r = Err Unavailable | _ => True end.

Section Alone.
Context {T : Type} (upstream : Permit → DispatchResult T).

Lemma handler_step o st :
  (gov_handler upstream o st).2 =
  match op_of (event (Resp := GResp T) o (gov_handler upstream o st).1) with
  | Some op => gov_step st op
  | None => st
  end.
Proof.
  destruct o; cbn; [destruct (reserve _ _ _)|destruct (settle _ _)|destruct (record_and_check_replay _ _)|]; done.
Qed.

(** A run against the store is a run of the store's operations. *)
Lemma interp_gov_run {A} (p : Gov T A) st :
  (interp (gov_handler upstream) p st).2 = gov_run st (omap op_of (interp (gov_handler upstream) p st).1.2).
Proof.
  revert st. induction p as [a|o k IH]; intros st; cbn; [done|].
  pose proof (handler_step o st) as Hs. destruct (gov_handler upstream o st) as [r st'].
  specialize (IH r st'). destruct (interp _ (k r) st') as [[a tr] st'']. cbn in *.
  rewrite Hs in IH. destruct o; exact IH.
Qed.

Lemma interp_poisoned {A} (p : Gov T A) st :
  gs_poisoned st = true → Forall replay_failed (interp (gov_handler upstream) p st).1.2.
Proof.
  intros Hp. induction p as [a|o k IH]; cbn; [constructor|].
  assert (Hh : ∃ r, gov_handler upstream o st = (r, st) ∧ replay_failed (event (Resp := GResp T) o r)).
  { destruct o; cbn; unfold reserve, settle, record_and_check_replay; rewrite ?Hp; eauto. }
  destruct Hh as (r & -> & Hr). specialize (IH r). destruct (interp _ (k r) st) as [[a tr] st''].
  by constructor.
Qed.

(** A success ends by recording the execution and settling it. *)
Lemma governed_ok_ops q now_ms att tr v p :
  replay_attempt q = Some att →
  runs (governed_dispatch (T := T) true q now_ms) tr (Ok (v, p)) →
  ∃ ops r, omap op_of tr = ops ++ [OReplay {| rq_attempt := att; rq_now_ms := now_ms;
                                              rq_record := Some (RecordOutcome RExecuted) |}; OSettle r]
    ∧ Forall (fun op => match op with OPolicy _ => False | _ => True end) ops.
Proof.
  intros Ha. unfold governed_dispatch. rewrite Ha.
  intros [(e & _ & [=])|(tr1 & tr2 & u & -> & _ & H)]%runs_rbind.
  rewrite runs_bind in H. destruct H as (tr3 & tr4 & o & -> & (r & -> & Ho)%admit_calls & H).
  destruct o as [p'|ms reason|reason|];
    [|rewrite runs_bind in H; by destruct H as (tr5 & tr6 & u' & _ & _ & [_ [=]])..].
  destruct (_ <=? _)%N.
  { rewrite runs_bind in H. destruct H as (tr5 & tr6 & u' & _ & _ & H).
    rewrite runs_bind in H. by destruct H as (tr7 & tr8 & u'' & _ & _ & [_ [=]]). }
  rewrite runs_bind in H. destruct H as (tr5 & tr6 & d & -> & Hd & H). unroll Hd.
  destruct d as [v' actual|e|e]; cbn [conclude] in H;
    [|rewrite runs_bind in H; destruct H as (? & ? & ? & _ & _ & H); rewrite runs_bind in H;
      by destruct H as (? & ? & ? & _ & _ & [_ [=]])..].
  rewrite runs_bind in H. destruct H as (tr7 & tr8 & u' & -> & Hj & H).
  rewrite runs_bind in H. destruct H as (tr9 & tr10 & u'' & -> & (r' & ->)%settle_permit_calls & [-> [= -> ->]]).
  unfold journal_action, replay in Hj. cbn [negb] in Hj. unroll Hj.
  eexists (omap op_of tr1 ++ [OReserve q now_ms]), _. split; [rewrite omap_app, <- (app_assoc (omap op_of tr1)); reflexivity|].
  apply Forall_app. split; [|by repeat constructor].
  apply Forall_forall. intros op' (ev & _ & Hev)%list_elem_of_omap. destruct ev as [[] ?]; cbn in Hev; by simplify_eq.
Qed.
End Alone.

Lemma gov_run_app st ops1 ops2 : gov_run st (ops1 ++ ops2) = gov_run (gov_run st ops1) ops2.
Proof. apply foldl_app. Qed.

Lemma run_poison st ops :
  Forall (fun op => match op with OPolicy _ => False | _ => True end) ops →
  gs_poisoned st = false → gs_poisoned (gov_run st ops) = false.
Proof.
  revert st. induction ops as [|op ops IH]; intros st Hops Hp; [done|].
  apply Forall_cons in Hops as [Hop Hops]. apply IH; [done|].
  destruct (gov_step_effect st op Hp) as [_ H]. by destruct op.
Qed.

(** A store on which an operation succeeded guards it. *)
Lemma executed_guards {T} upstream q now st att (v : T) p tr st1 :
  dispatch_alone upstream q now st = (Ok (v, p), tr, st1) → replay_attempt q = Some att →
  guarded (ra_operation att) now (rev (in_replay (gs_inner st1))).
Proof.
  unfold dispatch_alone. intros Hrun Ha.
  pose proof (interp_runs (gov_handler upstream) (governed_dispatch true q now) st) as Hruns.
  pose proof (interp_gov_run upstream (governed_dispatch true q now) st) as Hst.
  pose proof (interp_poisoned upstream (governed_dispatch true q now) st) as Hpoison.
  rewrite Hrun in Hruns, Hst, Hpoison. cbn [fst snd] in *.
  assert (Hp : gs_poisoned st = false).
  { apply not_true_is_false. intros Hp. specialize (Hpoison Hp).
    destruct (governed_calls q now tr _ Hruns) as [Hshape Hguard].
    assert (main_calls tr ≠ []) as Hne by (by inversion Hshape).
    specialize (Hguard Hne). unfold guard_passed in Hguard. rewrite Ha in Hguard.
    destruct Hguard as (d & d' & tr' & _ & ->). by apply Forall_cons in Hpoison as [[=] _]. }
  destruct (governed_ok_ops q now att tr v p Ha Hruns) as (ops & r & Hops & Hnp).
  rewrite Hst, Hops, gov_run_app. clear Hst. pose proof (run_poison st ops Hnp Hp) as Hp1.
  revert Hp1. generalize (gov_run st ops). intros st' Hp1. cbn [gov_run foldl gov_step].
  rewrite settle_keeps_replay. unfold record_and_check_replay. rewrite Hp1. cbn.
  apply guarded_after_executed.
Qed.

(** (C16) One after the other, an operation executes once, but for the Owner's
    fresh word: when a governed dispatch of an operation succeeded, a second
    governed dispatch of it within the guard window, that is not an Owner's
    fresh action, neither reserves nor dispatches anything, whatever the
    upstream would have answered. In between the store may have run any
    operations that keep the guard: none is dated before the first dispatch,
    and none records an unknown outcome for this operation. A fresh action of
    the Owner is let through ([owner_fresh_redispatches]). *)
Theorem executed_operation_not_redispatched {T : Type} (upstream upstream' : Permit → DispatchResult T)
  (q q' : AdmissionRequest) (att att' : ReplayAttempt) (now now' : N) (st st1 : MemGovernorStore)
  (v : T) (p : Permit) (tr : list (Event (GResp T))) (ops : list GovOp) :
  dispatch_alone upstream q now st = (Ok (v, p), tr, st1) →
  replay_attempt q = Some att → replay_attempt q' = Some att' →
  ra_operation att' = ra_operation att → owner_fresh att' = false →
  Forall (keeps_guard (ra_operation att) now) ops →
  let st2 := gov_run st1 ops in
  let guard := gp_replay_guard_window_ms (in_policy (gs_inner st2)) in
  (guard = 0 ∨ now' ≤ now + guard)%N →
  ∃ o, (dispatch_alone upstream' q' now' st2).1.1 = Err (GovRefused o) ∧
       main_calls (dispatch_alone upstream' q' now' st2).1.2 = [].
Proof.
  intros Hrun Ha Ha' Hop Hfresh Hops st2 guard Hw.
  assert (Hg : guarded (ra_operation att) now (rev (in_replay (gs_inner st2))))
    by (apply guarded_run; [by eapply executed_guards|done]).
  destruct (guarded_refused _ _ att' now' guard _ Hg Hop Hfresh Hw) as (r & reason & Hfind & Hdec).
  unfold dispatch_alone, governed_dispatch. rewrite Ha'. cbn [replay_guard].
  assert (Hcheck : ∃ d, gov_handler upstream' (GReplay {| rq_attempt := att'; rq_now_ms := now'; rq_record := None |}) st2
    = (d, st2) ∧ (d = Err Unavailable ∨ d = Ok (ReplayRefused reason))).
  { cbn. unfold record_and_check_replay. destruct (gs_poisoned st2); [by eauto|]. cbn.
    unfold rfind. rewrite Hfind. fold guard. rewrite Hdec. eauto. }
  destruct Hcheck as (d & Hd & Hcase). unfold replay, gask, call. cbn [negb].
  unfold rbind, pbind. cbn [interp]. rewrite Hd. by destruct Hcase as [-> | ->]; eexists.
Qed.

Definition demo_store : MemGovernorStore := MemGovernorStore_new GovernorPolicy_default.

Lemma governed_dispatch_settles_once_witness :
  let run := dispatch_alone (fun _ => RExecutedWith tt 1) race_request 1000 demo_store in
  is_ok run.1.1 = true ∧ length run.1.2 = 6 ∧ governed_shape race_request 1000 (main_calls run.1.2) run.1.1.
Proof.
  intros run. split; [vm_compute; reflexivity|]. split; [vm_compute; reflexivity|].
  apply (governed_dispatch_settles_once true race_request 1000 run.1.2 run.1.1).
  exact (interp_runs (gov_handler (fun _ => RExecutedWith tt 1)) (governed_dispatch true race_request 1000) demo_store).
Defined.

(** The Owner's request, and the same as a fresh action of the Owner *)
Definition owner_request (fresh : bool) : AdmissionRequest := {|
  aq_principal := Owner; aq_caller_agent := ""; aq_project := "proj"; aq_endpoint := "h/a";
  aq_requested_units := 1; aq_quota_observed_at_ms := None; aq_governance_call := None; aq_call_name := None;
  aq_owner_fresh_action := fresh; aq_operation_digest := Some "op"; aq_endpoint_set_digest := "set";
  aq_original_key := None; aq_side_effect_class := SideEffectful |}.

(** The exception: inside the window the Owner's plain retry is refused, and
    the fresh action dispatches the operation a second time. *)
Example owner_fresh_redispatches :
  let upstream := fun _ : Permit => RExecutedWith tt 1 in
  let st1 := (dispatch_alone upstream (owner_request false) 1000 demo_store).2 in
  is_ok (dispatch_alone upstream (owner_request false) 1000 demo_store).1.1 = true
  ∧ is_ok (dispatch_alone upstream (owner_request false) 2000 st1).1.1 = false
  ∧ is_ok (dispatch_alone upstream (owner_request true) 3000 st1).1.1 = true.
Proof. vm_compute. done. Qed.

(** A retry with other units and a minute later is still refused. *)
Lemma executed_operation_not_redispatched_witness :
  let st1 := (dispatch_alone (fun _ => RExecutedWith tt 1) race_request 1000 demo_store).2 in
  ∃ o, (dispatch_alone (fun _ => RExecutedWith tt 1) (with_units race_request 9) 61000 st1).1.1 = Err (GovRefused o) ∧
       main_calls (dispatch_alone (fun _ => RExecutedWith tt 1) (with_units race_request 9) 61000 st1).1.2 = [].
Proof.
  intros st1.
  destruct (dispatch_alone (fun _ => RExecutedWith tt 1) race_request 1000 demo_store) as [[[[v p]|e] tr] st'] eqn:E;
    [|vm_compute in E; discriminate].
  destruct (replay_attempt race_request) as [att|] eqn:Ha; [|vm_compute in Ha; discriminate].
  apply (executed_operation_not_redispatched (fun _ => RExecutedWith tt 1) (fun _ => RExecutedWith tt 1)
    race_request (with_units race_request 9) att att 1000 61000 demo_store st' v p tr []);
    [exact E|exact Ha|exact Ha|reflexivity| |constructor|].
  - vm_compute in Ha. injection Ha as <-. reflexivity.
  - right. assert (in_policy (gs_inner st') = GovernorPolicy_default) as Hp
      by (pose proof (f_equal snd E) as Hs; vm_compute in Hs; rewrite <- Hs; reflexivity).
    cbn. rewrite Hp. vm_compute. discriminate.
Defined.
