(* ===== verification/Intent.v ===== *)
(** * Intents, allocations and committees ([core/src/intent.rs])

    The pure calculations behind delegation: who may delegate to whom
    ([validate_ancestry]), how a finite allocation is carved into children
    ([AllocationPool]) and how a committee's verdicts are tallied
    ([CommitteeTally]).

    A [&mut self] method that can fail returns the new value inside [Ok]: none
    of them writes a field on a path that ends in an error. [HashSet]s that
    only answer "was it new" are lists. The theorems follow arbitrary
    sequences of operations: carving neither creates nor loses tokens or
    money, identifiers are never issued twice, and the outcome of a committee
    is a function of the distinct votes it accepted and is final. *)

From S2P Require Import Prelude RustStr.

Inductive IntentError :=
| Ancestry
| Budget
| Committee
| ResultErr
| Final.

#[global] Instance IntentError_eq_dec : EqDecision IntentError.
Proof. solve_decision. Defined.

(** The [Display] texts of [thiserror]. *)
Definition IntentError_display (e : IntentError) : string :=
  match e with
  | Ancestry => "invalid intent ancestry or cycle"
  | Budget => "allocation is invalid or cannot fund the requested carve"
  | Committee => "invalid committee or quorum"
  | ResultErr => "result is stale, duplicate, mismatched, or not a verdict"
  | Final => "committee decision is already final"
  end.

Record Binding := {
  incarnation_id : string;
  thread_epoch : N;
  controller_lease_id : string;
}.

#[global] Instance Binding_eq_dec : EqDecision Binding.
Proof. solve_decision. Defined.

Inductive DelegateTarget :=
| FreshSession (template_id : string)
| BoundIncarnation (incarnation : string).

Inductive CommitteeVerdict := Approve | Reject | Abstain.

#[global] Instance CommitteeVerdict_eq_dec : EqDecision CommitteeVerdict.
Proof. solve_decision. Defined.

Inductive ResultSchema :=
| VerdictSchema
| ArtifactSchema (kind : string)
| TextSchema (max_bytes : N).

#[global] Instance ResultSchema_eq_dec : EqDecision ResultSchema.
Proof. solve_decision. Defined.

Inductive TypedResult :=
| VerdictResult (verdict : CommitteeVerdict) (rationale : string)
| ArtifactResult (kind reference : string)
| TextResult (text : string).

(** ** Quorums *)

Inductive QuorumRule :=
| All
| Majority
| AtLeast (k : N).

(** [(2..=5).contains(&n)] *)
Definition committee_size (n : N) : bool := (2 <=? n)%N && (n <=? 5)%N.

(** [QuorumRule::threshold] *)
Definition threshold (rule : QuorumRule) (members : N) : Result N IntentError :=
  if negb (committee_size members) then Err Committee
  else match rule with
       | All => Ok members
       | Majority => Ok (members / 2 + 1)%N
       | AtLeast k => if (0 <? k)%N && (k <=? members)%N then Ok k else Err Committee
       end.

Record AllocationAmount := { aa_tokens : N; aa_cost_micros : N }.

Record CarveRequest := {
  cr_allocation_id : string;
  cr_settlement_id : string;
  cr_tokens : N;
  cr_cost_micros : N;
}.

Record AllocationCarve := {
  ac_allocation_id : string;
  ac_parent_allocation_id : string;
  ac_root_envelope_id : string;
  ac_window_id : string;
  ac_settlement_id : string;
  ac_tokens : N;
  ac_cost_micros : N;
}.

Record DelegateIntent := {
  di_intent_id : string;
  di_parent_intent : option string;
  di_delegator : Binding;
  di_delegate : DelegateTarget;
  di_task_template_digest : string;
  di_sub_allocation : AllocationCarve;
  di_deadline_utc : string;
  di_result_schema : ResultSchema;
}.

Record CommitteeIntent := {
  ci_intent_id : string;
  ci_delegator : Binding;
  ci_members : list DelegateTarget;
  ci_per_member : AllocationAmount;
  ci_quorum : QuorumRule;
  ci_deadline_utc : string;
  ci_result_schema : ResultSchema;
}.

(** [CommitteeIntent::validate] *)
Definition CommitteeIntent_validate (c : CommitteeIntent) : Result unit IntentError :=
  let? _ := threshold (ci_quorum c) (len (ci_members c)) in
  if ci_result_schema c != VerdictSchema then Err Committee else Ok tt.

Record IntentResult := {
  ir_intent_id : string;
  ir_member : Binding;
  ir_attempt : N;
  ir_result : TypedResult;
  ir_usage_ref : option string;
}.

(** ** Ancestry *)

(** The loop over ancestors, delegator and target: [seen.insert] refuses a
    repeated id. *)
Fixpoint fresh_ids (seen ids : list string) : Result unit IntentError :=
  match ids with
  | [] => Ok tt
  | id :: ids' =>
      if is_blank id || contains seen id then Err Ancestry
      else fresh_ids (id :: seen) ids'
  end.

Definition validate_ancestry (delegator : string) (ancestors : list string)
    (target : option string) : Result unit IntentError :=
  if is_blank delegator || (1 <? len ancestors)%N then Err Ancestry
  else fresh_ids [] (ancestors ++ [delegator] ++ option_list target).

(** ** Allocation pools *)

Record AllocationPool := {
  ap_allocation_id : string;
  ap_root_envelope_id : string;
  ap_window_id : string;
  ap_total_tokens : N;
  ap_total_cost_micros : N;
  ap_unreserved_tokens : N;
  ap_unreserved_cost_micros : N;
  ap_issued_allocations : list string;
  ap_issued_settlements : list string;
}.

(** [AllocationPool::validate] *)
Definition AllocationPool_validate (p : AllocationPool) : Result unit IntentError :=
  if is_blank (ap_allocation_id p)
     || is_blank (ap_root_envelope_id p)
     || is_blank (ap_window_id p)
     || (ap_total_tokens p =? 0)%N
     || (ap_total_cost_micros p =? 0)%N
     || (ap_total_tokens p <? ap_unreserved_tokens p)%N
     || (ap_total_cost_micros p <? ap_unreserved_cost_micros p)%N
  then Err Budget
  else Ok tt.

(** [AllocationPool::new] *)
Definition AllocationPool_new (allocation_id root_envelope_id window_id : string)
    (total_tokens total_cost_micros unreserved_tokens unreserved_cost_micros : N)
    : Result AllocationPool IntentError :=
  let pool := {| ap_allocation_id := allocation_id;
                 ap_root_envelope_id := root_envelope_id;
                 ap_window_id := window_id;
                 ap_total_tokens := total_tokens;
                 ap_total_cost_micros := total_cost_micros;
                 ap_unreserved_tokens := unreserved_tokens;
                 ap_unreserved_cost_micros := unreserved_cost_micros;
                 ap_issued_allocations := [];
                 ap_issued_settlements := [] |} in
  let? _ := AllocationPool_validate pool in
  Ok pool.

(** [AllocationCarve::child_pool] *)
Definition child_pool (c : AllocationCarve) (unreserved_tokens unreserved_cost_micros : N)
    : Result AllocationPool IntentError :=
  AllocationPool_new (ac_allocation_id c) (ac_root_envelope_id c) (ac_window_id c)
    (ac_tokens c) (ac_cost_micros c) unreserved_tokens unreserved_cost_micros.

(** What the loop of [carve_many] threads: both sets and both running sums. *)
Record CarveAcc := {
  acc_ids : list string;
  acc_settlements : list string;
  acc_tokens : N;
  acc_cost : N;
}.

(** The body of the loop of [carve_many]. *)
Definition carve_request (p : AllocationPool) (a : CarveAcc) (r : CarveRequest)
    : Result CarveAcc IntentError :=
  if is_blank (cr_allocation_id r)
     || is_blank (cr_settlement_id r)
     || (cr_allocation_id r == ap_allocation_id p)
     || contains (acc_ids a) (cr_allocation_id r)
     || contains (acc_settlements a) (cr_settlement_id r)
     || (cr_tokens r =? 0)%N
     || (cr_cost_micros r =? 0)%N
     || (ap_total_tokens p <=? cr_tokens r)%N
     || (ap_total_cost_micros p <=? cr_cost_micros r)%N
  then Err Budget
  else
    let? tokens := ok_or (checked_add64 (acc_tokens a) (cr_tokens r)) Budget in
    let? cost := ok_or (checked_add64 (acc_cost a) (cr_cost_micros r)) Budget in
    Ok {| acc_ids := cr_allocation_id r :: acc_ids a;
          acc_settlements := cr_settlement_id r :: acc_settlements a;
          acc_tokens := tokens;
          acc_cost := cost |}.

Definition carve_of (p : AllocationPool) (r : CarveRequest) : AllocationCarve :=
  {| ac_allocation_id := cr_allocation_id r;
     ac_parent_allocation_id := ap_allocation_id p;
     ac_root_envelope_id := ap_root_envelope_id p;
     ac_window_id := ap_window_id p;
     ac_settlement_id := cr_settlement_id r;
     ac_tokens := cr_tokens r;
     ac_cost_micros := cr_cost_micros r |}.

Definition carve_many (p : AllocationPool) (requests : list CarveRequest)
    : Result (AllocationPool * list AllocationCarve) IntentError :=
  let? _ := AllocationPool_validate p in
  let? a := for_fold (carve_request p)
              {| acc_ids := ap_issued_allocations p;
                 acc_settlements := ap_issued_settlements p;
                 acc_tokens := 0; acc_cost := 0 |} requests in
  let? remaining_tokens := ok_or (checked_sub (ap_unreserved_tokens p) (acc_tokens a)) Budget in
  let? remaining_cost := ok_or (checked_sub (ap_unreserved_cost_micros p) (acc_cost a)) Budget in
  let carves := map (carve_of p) requests in
  Ok ({| ap_allocation_id := ap_allocation_id p;
         ap_root_envelope_id := ap_root_envelope_id p;
         ap_window_id := ap_window_id p;
         ap_total_tokens := ap_total_tokens p;
         ap_total_cost_micros := ap_total_cost_micros p;
         ap_unreserved_tokens := remaining_tokens;
         ap_unreserved_cost_micros := remaining_cost;
         ap_issued_allocations := ap_issued_allocations p ++ map ac_allocation_id carves;
         ap_issued_settlements := ap_issued_settlements p ++ map ac_settlement_id carves |},
      carves).

(** [remove(0)] of the one carve; [None] is its panic on an empty vector. *)
Definition carve (p : AllocationPool) (request : CarveRequest)
    : Result (AllocationPool * option AllocationCarve) IntentError :=
  let? (p', carves) := carve_many p [request] in
  Ok (p', head carves).

Definition carve_committee (p : AllocationPool) (requests : list CarveRequest)
    : Result (AllocationPool * list AllocationCarve) IntentError :=
  if negb (committee_size (len requests)) then Err Committee
  else if existsb (fun r =>
            match requests with
            | r0 :: _ => negb (cr_tokens r =? cr_tokens r0)%N
                         || negb (cr_cost_micros r =? cr_cost_micros r0)%N
            | [] => false
            end) requests
  then Err Committee
  else carve_many p requests.

(** ** Committee tallies *)

Inductive CommitteeOutcome := Approved | NotApproved | NoQuorum | Cancelled.

#[global] Instance CommitteeOutcome_eq_dec : EqDecision CommitteeOutcome.
Proof. solve_decision. Defined.

Record CommitteeCounts := {
  approvals : N;
  rejections : N;
  abstentions : N;
  outstanding : N;
}.

Record CommitteeSlot := {
  cs_binding : Binding;
  cs_attempt : N;
  cs_verdict : option CommitteeVerdict;
}.

Record CommitteeTally := {
  ct_intent_id : string;
  ct_rule : QuorumRule;
  ct_slots : list CommitteeSlot;
  ct_outcome : option CommitteeOutcome;
}.

(** The [any] over the members, whose closure inserts each id in a set. *)
Fixpoint bad_members (ids : list string) (members : list (Binding * N)) : bool :=
  match members with
  | [] => false
  | (b, _) :: members' =>
      is_blank (incarnation_id b)
      || is_blank (controller_lease_id b)
      || contains ids (incarnation_id b)
      || bad_members (incarnation_id b :: ids) members'
  end.

(** [CommitteeTally::new] *)
Definition CommitteeTally_new (intent_id : string) (rule : QuorumRule)
    (members : list (Binding * N)) : Result CommitteeTally IntentError :=
  let? _ := threshold rule (len members) in
  if is_blank intent_id || bad_members [] members then Err Committee
  else Ok {| ct_intent_id := intent_id;
             ct_rule := rule;
             ct_slots := map (fun '(b, n) =>
               {| cs_binding := b; cs_attempt := n; cs_verdict := None |}) members;
             ct_outcome := None |}.

Definition count_slot (c : CommitteeCounts) (s : CommitteeSlot) : CommitteeCounts :=
  match cs_verdict s with
  | Some Approve => {| approvals := approvals c + 1; rejections := rejections c;
                       abstentions := abstentions c; outstanding := outstanding c |}
  | Some Reject => {| approvals := approvals c; rejections := rejections c + 1;
                      abstentions := abstentions c; outstanding := outstanding c |}
  | Some Abstain => {| approvals := approvals c; rejections := rejections c;
                       abstentions := abstentions c + 1; outstanding := outstanding c |}
  | None => {| approvals := approvals c; rejections := rejections c;
               abstentions := abstentions c; outstanding := outstanding c + 1 |}
  end%N.

Definition counts (slots : list CommitteeSlot) : CommitteeCounts :=
  foldl count_slot {| approvals := 0; rejections := 0; abstentions := 0; outstanding := 0 |} slots.

Definition set_slots (t : CommitteeTally) (slots : list CommitteeSlot) : CommitteeTally :=
  {| ct_intent_id := ct_intent_id t; ct_rule := ct_rule t;
     ct_slots := slots; ct_outcome := ct_outcome t |}.

Definition set_outcome (t : CommitteeTally) (o : CommitteeOutcome) : CommitteeTally :=
  {| ct_intent_id := ct_intent_id t; ct_rule := ct_rule t;
     ct_slots := ct_slots t; ct_outcome := Some o |}.

Definition advance_attempt (t : CommitteeTally) (member : Binding)
    (expected_attempt new_attempt : N) : Result CommitteeTally IntentError :=
  if is_some (ct_outcome t) then Err Final
  else
    let? (i, slot) := ok_or (list_find (fun s => cs_binding s = member) (ct_slots t)) ResultErr in
    if is_some (cs_verdict slot)
       || negb (cs_attempt slot =? expected_attempt)%N
       || (new_attempt <=? expected_attempt)%N
    then Err ResultErr
    else Ok (set_slots t (<[i := {| cs_binding := cs_binding slot;
                                    cs_attempt := new_attempt;
                                    cs_verdict := cs_verdict slot |}]> (ct_slots t))).

(** The outcome [record] writes once the verdict is in its slot. *)
Definition decide_outcome (t : CommitteeTally) (threshold : N) : CommitteeTally :=
  let count := counts (ct_slots t) in
  if (threshold <=? approvals count)%N then set_outcome t Approved
  else if (approvals count + outstanding count <? threshold)%N then set_outcome t NotApproved
  else t.

(** [CommitteeTally::record] *)
Definition tally_record (t : CommitteeTally) (result : IntentResult)
    : Result (CommitteeTally * option CommitteeOutcome) IntentError :=
  if is_some (ct_outcome t) then Err Final
  else
    let? thr := threshold (ct_rule t) (len (ct_slots t)) in
    if ir_intent_id result != ct_intent_id t then Err ResultErr
    else match ir_result result with
    | VerdictResult verdict _ =>
        let? (i, slot) := ok_or (list_find (fun s => cs_binding s = ir_member result
                                                     ∧ cs_attempt s = ir_attempt result)
                                           (ct_slots t)) ResultErr in
        if is_some (cs_verdict slot) then Err ResultErr
        else
          let t' := decide_outcome
                      (set_slots t (<[i := {| cs_binding := cs_binding slot;
                                              cs_attempt := cs_attempt slot;
                                              cs_verdict := Some verdict |}]> (ct_slots t)))
                      thr in
          Ok (t', ct_outcome t')
    | _ => Err ResultErr
    end.

Definition expire (t : CommitteeTally) : CommitteeTally :=
  if is_none (ct_outcome t) then set_outcome t NoQuorum else t.

Definition cancel (t : CommitteeTally) : CommitteeTally :=
  if is_none (ct_outcome t) then set_outcome t Cancelled else t.

(** ** What a carve asks for, and what it costs *)

Definition req_tokens (rs : list CarveRequest) : N := sum_list_N (map cr_tokens rs).
Definition req_cost (rs : list CarveRequest) : N := sum_list_N (map cr_cost_micros rs).

(** A request the pool would look at: named, a real part of the pool, and not
    the pool itself. *)
Definition request_good (p : AllocationPool) (r : CarveRequest) : Prop :=
  is_blank (cr_allocation_id r) = false ∧ is_blank (cr_settlement_id r) = false
  ∧ cr_allocation_id r ≠ ap_allocation_id p
  ∧ (0 < cr_tokens r < ap_total_tokens p)%N
  ∧ (0 < cr_cost_micros r < ap_total_cost_micros p)%N.

(** New identifiers: none repeated, none among those already seen. *)
Definition all_fresh (seen ids : list string) : Prop :=
  NoDup ids ∧ ∀ x, x ∈ ids → x ∉ seen.

Lemma all_fresh_cons seen id ids :
  all_fresh seen (id :: ids) ↔ id ∉ seen ∧ all_fresh (id :: seen) ids.
Proof.
  unfold all_fresh. rewrite NoDup_cons. set_solver.
Qed.

Lemma all_fresh_app seen ids : NoDup seen → all_fresh seen ids → NoDup (seen ++ ids).
Proof. intros Hs [Hn Hd]. apply NoDup_app. set_solver. Qed.

(** The declarative form of a fundable list of requests. *)
Record fundable (p : AllocationPool) (rs : list CarveRequest) : Prop := {
  fund_valid : AllocationPool_validate p = Ok tt;
  fund_good : Forall (request_good p) rs;
  fund_ids : all_fresh (ap_issued_allocations p) (map cr_allocation_id rs);
  fund_settlements : all_fresh (ap_issued_settlements p) (map cr_settlement_id rs);
  fund_tokens : (req_tokens rs ≤ ap_unreserved_tokens p)%N;
  fund_cost : (req_cost rs ≤ ap_unreserved_cost_micros p)%N;
}.

Lemma carve_request_ok p a r a' :
  carve_request p a r = Ok a' ↔
  request_good p r ∧ cr_allocation_id r ∉ acc_ids a ∧ cr_settlement_id r ∉ acc_settlements a
  ∧ (acc_tokens a + cr_tokens r ≤ u64_max)%N ∧ (acc_cost a + cr_cost_micros r ≤ u64_max)%N
  ∧ a' = {| acc_ids := cr_allocation_id r :: acc_ids a;
            acc_settlements := cr_settlement_id r :: acc_settlements a;
            acc_tokens := acc_tokens a + cr_tokens r;
            acc_cost := acc_cost a + cr_cost_micros r |}.
Proof.
  unfold carve_request, request_good, checked_add. generalize u64_max. intros M. split.
  - case_match eqn:E; [done|]. bool_prop. rewrite contains_false in *.
    do 2 (case_match; [|done]); cbn. intros [= <-]. bool_prop. repeat split; auto; lia.
  - intros ((H1&H2&H3&H4&H5)&H6&H7&H8&H9&->).
    rewrite <-contains_false in H6, H7. rewrite H1, H2, H6, H7, bool_decide_false by done.
    rewrite (proj2 (N.eqb_neq _ _)), (proj2 (N.eqb_neq _ _)), (proj2 (N.leb_gt _ _)),
      (proj2 (N.leb_gt _ _)) by lia. cbn [orb].
    apply N.leb_le in H8, H9. rewrite H8, H9. done.
Qed.

(** The loop of [carve_many]: it gets through exactly when every request is
    good and fresh and the running sums fit a [u64]. *)
Lemma carve_loop_ok p rs : ∀ a a',
  for_fold (carve_request p) a rs = Ok a' →
  Forall (request_good p) rs ∧ all_fresh (acc_ids a) (map cr_allocation_id rs)
  ∧ all_fresh (acc_settlements a) (map cr_settlement_id rs)
  ∧ acc_tokens a' = (acc_tokens a + req_tokens rs)%N
  ∧ acc_cost a' = (acc_cost a + req_cost rs)%N.
Proof.
  induction rs as [|r rs IH]; intros a a'; cbn.
  - intros [= <-]. unfold req_tokens, req_cost, all_fresh; cbn.
    repeat split; [constructor|constructor|set_solver|constructor|set_solver|lia|lia].
  - destruct (carve_request p a r) as [b|] eqn:E; cbn; [|done].
    apply carve_request_ok in E as (Hg&Hi&Hs&_&_&->). intros H%IH; cbn in H.
    destruct H as (H1&H2&H3&H4&H5). rewrite !all_fresh_cons.
    unfold req_tokens, req_cost, sum_list_N in *; cbn.
    split; [by constructor|]. do 2 (split; [done|]). split; lia.
Qed.

Lemma carve_loop_complete p rs : ∀ a,
  Forall (request_good p) rs → all_fresh (acc_ids a) (map cr_allocation_id rs) →
  all_fresh (acc_settlements a) (map cr_settlement_id rs) →
  (acc_tokens a + req_tokens rs ≤ u64_max)%N → (acc_cost a + req_cost rs ≤ u64_max)%N →
  ∃ a', for_fold (carve_request p) a rs = Ok a'.
Proof.
  unfold req_tokens, req_cost.
  induction rs as [|r rs IH]; cbn [map sum_list_N foldr for_fold]; intros a Hg Hi Hs Ht Hc; [eauto|].
  apply all_fresh_cons in Hi as [Hi Hi'], Hs as [Hs Hs']. apply Forall_cons in Hg as [Hg Hg'].
  destruct (carve_request p a r) as [b|e] eqn:E; cbn.
  - apply carve_request_ok in E as (_&_&_&_&_&->).
    apply IH; cbn; auto; revert Ht Hc; generalize u64_max; unfold sum_list_N; lia.
  - exfalso. eassert (carve_request p a r = Ok _) as E'; [|rewrite E in E'; done].
    apply carve_request_ok. split; [done|]. do 2 (split; [done|]).
    revert Ht Hc; generalize u64_max; intros; split; [lia|split; [lia|reflexivity]].
Qed.

Lemma checked_sub_ok a b c : checked_sub a b = Some c ↔ (b ≤ a)%N ∧ c = (a - b)%N.
Proof. unfold checked_sub. case_match; bool_prop; naive_solver lia. Qed.

Lemma carve_many_ok p rs p' cs :
  carve_many p rs = Ok (p', cs) →
  fundable p rs ∧ cs = map (carve_of p) rs
  ∧ p' = {| ap_allocation_id := ap_allocation_id p;
            ap_root_envelope_id := ap_root_envelope_id p;
            ap_window_id := ap_window_id p;
            ap_total_tokens := ap_total_tokens p;
            ap_total_cost_micros := ap_total_cost_micros p;
            ap_unreserved_tokens := ap_unreserved_tokens p - req_tokens rs;
            ap_unreserved_cost_micros := ap_unreserved_cost_micros p - req_cost rs;
            ap_issued_allocations := ap_issued_allocations p ++ map cr_allocation_id rs;
            ap_issued_settlements := ap_issued_settlements p ++ map cr_settlement_id rs |}.
Proof.
  unfold carve_many. destruct (AllocationPool_validate p) as [[]|] eqn:Ev; cbn; [|done].
  destruct (for_fold _ _ _) as [a|] eqn:El; cbn; [|done].
  apply carve_loop_ok in El as (Hg&Hi&Hs&Ht&Hc); cbn in *.
  destruct (checked_sub _ _) eqn:E1; cbn; [|done].
  destruct (checked_sub (ap_unreserved_cost_micros p) _) eqn:E2; cbn; [|done].
  apply checked_sub_ok in E1 as [? ->], E2 as [? ->]. rewrite Ht, Hc in *.
  intros [= <- <-]. split; [split; auto|split; [done|]]. rewrite !map_map; cbn. reflexivity.
Qed.

Lemma fundable_carves p rs :
  (ap_unreserved_tokens p ≤ u64_max)%N → (ap_unreserved_cost_micros p ≤ u64_max)%N →
  fundable p rs → ∃ p' cs, carve_many p rs = Ok (p', cs).
Proof.
  intros Ht Hc [Hv Hg Hi Hs HT HC]. unfold carve_many. rewrite Hv; cbn [result_bind].
  edestruct carve_loop_complete as [a Ha];
    [exact Hg|..|erewrite Ha]; cbn; [exact Hi|exact Hs|..];
    [by etrans; [|apply Ht]|by etrans; [|apply Hc]|].
  apply carve_loop_ok in Ha as (_&_&_&Ea&Eb); cbn in *. rewrite Ea, Eb.
  unfold checked_sub. rewrite (proj2 (N.leb_le _ _)), (proj2 (N.leb_le _ _)); cbn; eauto.
Qed.

(** ** Sequences of carves *)

Inductive PoolOp :=
| OpCarve (request : CarveRequest)
| OpCommittee (requests : list CarveRequest).

(** One call on the caller's pool: what it is afterwards and what was handed
    out. A refused call hands out nothing. *)
Definition pool_step (p : AllocationPool) (op : PoolOp) : AllocationPool * list AllocationCarve :=
  match op with
  | OpCarve r =>
      match carve p r with
      | Ok (p', c) => (p', option_list c)
      | Err _ => (p, [])
      end
  | OpCommittee rs =>
      match carve_committee p rs with
      | Ok (p', cs) => (p', cs)
      | Err _ => (p, [])
      end
  end.

Fixpoint pool_run (p : AllocationPool) (ops : list PoolOp) : AllocationPool * list AllocationCarve :=
  match ops with
  | [] => (p, [])
  | op :: ops' =>
      let (p1, cs1) := pool_step p op in
      let (p2, cs2) := pool_run p1 ops' in
      (p2, cs1 ++ cs2)
  end.

Definition carved_tokens (cs : list AllocationCarve) : N := sum_list_N (map ac_tokens cs).
Definition carved_cost (cs : list AllocationCarve) : N := sum_list_N (map ac_cost_micros cs).
Arguments carved_tokens : simpl never.
Arguments carved_cost : simpl never.

Lemma sum_list_N_app l k : sum_list_N (l ++ k) = (sum_list_N l + sum_list_N k)%N.
Proof. unfold sum_list_N. induction l; cbn; lia. Qed.

(** What one call does: nothing, or a fundable carve. *)
Inductive carve_effect (p : AllocationPool) : AllocationPool → list AllocationCarve → Prop :=
| effect_none : carve_effect p p []
| effect_carve rs p' cs : carve_many p rs = Ok (p', cs) → carve_effect p p' cs.

Lemma pool_step_effect p op p' cs : pool_step p op = (p', cs) → carve_effect p p' cs.
Proof.
  destruct op as [r|rs]; cbn.
  - unfold carve. destruct (carve_many p [r]) as [[q ks]|] eqn:E; cbn; intros [= <- <-]; [|constructor].
    pose proof E as (_&->&_)%carve_many_ok. cbn in *. econstructor; exact E.
  - destruct (carve_committee p rs) as [[q ks]|] eqn:E; intros [= <- <-]; [|constructor].
    unfold carve_committee in E. do 2 (case_match; [done|]). by econstructor.
Qed.

(** What holds between the pool as it was made, the pool now and all that
    was handed out so far. *)
Record pool_inv (p0 p : AllocationPool) (cs : list AllocationCarve) : Prop := {
  pi_id : ap_allocation_id p = ap_allocation_id p0;
  pi_root : ap_root_envelope_id p = ap_root_envelope_id p0;
  pi_window : ap_window_id p = ap_window_id p0;
  pi_total_tokens : ap_total_tokens p = ap_total_tokens p0;
  pi_total_cost : ap_total_cost_micros p = ap_total_cost_micros p0;
  pi_tokens : (carved_tokens cs + ap_unreserved_tokens p = ap_unreserved_tokens p0)%N;
  pi_cost : (carved_cost cs + ap_unreserved_cost_micros p = ap_unreserved_cost_micros p0)%N;
  pi_ids : ap_issued_allocations p = map ac_allocation_id cs;
  pi_settlements : ap_issued_settlements p = map ac_settlement_id cs;
  pi_nodup_ids : NoDup (map ac_allocation_id cs);
  pi_nodup_settlements : NoDup (map ac_settlement_id cs);
  pi_carves : Forall (fun c => ∃ r, request_good p0 r ∧ c = carve_of p0 r) cs;
}.

Lemma pool_inv_effect p0 p cs p' ds :
  pool_inv p0 p cs → carve_effect p p' ds → pool_inv p0 p' (cs ++ ds).
Proof.
  intros I [|rs q ks E]; [by rewrite app_nil_r|].
  apply carve_many_ok in E as ([_ Hg Hi Hs Ht Hc]&->&->). destruct I. cbn in *.
  assert (∀ f g, (∀ r, f (carve_of p r) = g r) →
    map f (map (carve_of p) rs) = map (g : CarveRequest → string) rs) as Hm
    by (intros; rewrite map_map; by apply map_ext).
  assert (carved_tokens (map (carve_of p) rs) = req_tokens rs) as Et
    by (unfold carved_tokens; by rewrite map_map).
  assert (carved_cost (map (carve_of p) rs) = req_cost rs) as Ec
    by (unfold carved_cost; by rewrite map_map).
  unfold carved_tokens, carved_cost in *.
  split; cbn; auto; unfold carved_tokens, carved_cost; rewrite ?map_app, ?sum_list_N_app, ?Et, ?Ec,
    ?(Hm ac_allocation_id cr_allocation_id), ?(Hm ac_settlement_id cr_settlement_id) by done;
    try congruence; try lia.
  - rewrite pi_ids0 in Hi. by apply all_fresh_app.
  - rewrite pi_settlements0 in Hs. by apply all_fresh_app.
  - apply Forall_app. split; [done|]. apply Forall_map. eapply Forall_impl; [exact Hg|].
    intros r Hr. exists r. unfold request_good, carve_of in *. cbn. split; congruence.
Qed.

Lemma pool_inv_run p0 ops : ∀ p cs p' ds,
  pool_inv p0 p cs → pool_run p ops = (p', ds) → pool_inv p0 p' (cs ++ ds).
Proof.
  induction ops as [|op ops IH]; cbn; intros p cs p' ds I.
  - intros [= <- <-]. by rewrite app_nil_r.
  - destruct (pool_step p op) as [q1 ks1] eqn:E1, (pool_run q1 ops) as [q2 ks2] eqn:E2.
    intros [= <- <-]. rewrite app_assoc. eapply IH; [|done].
    eapply pool_inv_effect; [done|]. by eapply pool_step_effect.
Qed.

Lemma AllocationPool_new_ok i r w tt' tc ut uc p :
  AllocationPool_new i r w tt' tc ut uc = Ok p →
  AllocationPool_validate p = Ok tt
  ∧ p = {| ap_allocation_id := i; ap_root_envelope_id := r; ap_window_id := w;
           ap_total_tokens := tt'; ap_total_cost_micros := tc;
           ap_unreserved_tokens := ut; ap_unreserved_cost_micros := uc;
           ap_issued_allocations := []; ap_issued_settlements := [] |}.
Proof.
  unfold AllocationPool_new. destruct (AllocationPool_validate _) as [[]|] eqn:E; cbn; [|done].
  by intros [= <-].
Qed.

Lemma AllocationPool_validate_bounds p :
  AllocationPool_validate p = Ok tt →
  (ap_unreserved_tokens p ≤ ap_total_tokens p)%N
  ∧ (ap_unreserved_cost_micros p ≤ ap_total_cost_micros p)%N.
Proof. unfold AllocationPool_validate. case_match; [done|]. bool_prop. done. Qed.

Lemma pool_inv_new i r w tt' tc ut uc p :
  AllocationPool_new i r w tt' tc ut uc = Ok p → pool_inv p p [].
Proof.
  intros (_&->)%AllocationPool_new_ok.
  by split; cbn; try reflexivity; try constructor.
Qed.

(** (C26) Carving conserves an allocation. Over any sequence of single and
    committee carves on a pool that [AllocationPool::new] accepted, the tokens
    and the money handed out plus what is left unreserved are exactly what was
    unreserved at the start, so no sequence hands out more than the total; no
    allocation id or settlement id is issued twice or is the pool's own; every
    carve names this pool as its parent and keeps its root and window, and is
    a non-empty, strictly smaller part of it. *)
Theorem allocation_conserved i r w total_t total_c free_t free_c p0 ops p cs :
  AllocationPool_new i r w total_t total_c free_t free_c = Ok p0 →
  pool_run p0 ops = (p, cs) →
  (carved_tokens cs + ap_unreserved_tokens p = free_t)%N
  ∧ (carved_cost cs + ap_unreserved_cost_micros p = free_c)%N
  ∧ (carved_tokens cs ≤ total_t)%N ∧ (carved_cost cs ≤ total_c)%N
  ∧ NoDup (map ac_allocation_id cs) ∧ NoDup (map ac_settlement_id cs)
  ∧ ap_issued_allocations p = map ac_allocation_id cs
  ∧ Forall (fun c => ac_allocation_id c ≠ i ∧ ac_parent_allocation_id c = i
                     ∧ ac_root_envelope_id c = r ∧ ac_window_id c = w
                     ∧ (0 < ac_tokens c < total_t)%N ∧ (0 < ac_cost_micros c < total_c)%N) cs.
Proof.
  intros Hn Hr. pose proof (pool_inv_run _ _ _ _ _ _ (pool_inv_new _ _ _ _ _ _ _ _ Hn) Hr) as I.
  apply AllocationPool_new_ok in Hn as [Hv ->].
  apply AllocationPool_validate_bounds in Hv. destruct I; cbn in *.
  repeat split; try (done || lia).
  eapply Forall_impl; [done|]. intros c (q&(?&?&?&?&?)&->). cbn in *. auto 10.
Qed.

Definition demo_request : CarveRequest :=
  {| cr_allocation_id := "a1"; cr_settlement_id := "s1"; cr_tokens := 30; cr_cost_micros := 3 |}.
Definition demo_members : list CarveRequest :=
  [ {| cr_allocation_id := "a2"; cr_settlement_id := "s2"; cr_tokens := 20; cr_cost_micros := 2 |};
    {| cr_allocation_id := "a3"; cr_settlement_id := "s3"; cr_tokens := 20; cr_cost_micros := 2 |} ].

Lemma allocation_conserved_witness :
  let ops := [OpCarve demo_request; OpCarve demo_request; OpCommittee demo_members] in
  ∃ p0 p cs, AllocationPool_new "a0" "root" "w" 100 10 80 10 = Ok p0
    ∧ pool_run p0 ops = (p, cs) ∧ len cs = 3%N
    ∧ carved_tokens cs = 70%N ∧ ap_unreserved_tokens p = 10%N
    ∧ (carved_tokens cs + ap_unreserved_tokens p = 80)%N.
Proof.
  cbv zeta. do 3 eexists. split; [reflexivity|]. split; [vm_compute; reflexivity|].
  split; [reflexivity|]. split; [reflexivity|]. split; [reflexivity|].
  refine (proj1 (allocation_conserved "a0" "root" "w" 100 10 80 10 _
    [OpCarve demo_request; OpCarve demo_request; OpCommittee demo_members] _ _ _ _));
    [reflexivity | vm_compute; reflexivity].
Defined.

(** A carve is refused for no other reason than the ones it states: on
    a pool whose funds fit a [u64], [carve_many] succeeds exactly when the
    pool is valid, every request is good, all identifiers are new and the
    sums are within what is unreserved. In particular the overflow checks
    on the running sums never refuse a request the pool could fund. *)
Theorem carve_exactly_fundable p rs :
  (ap_unreserved_tokens p ≤ u64_max)%N → (ap_unreserved_cost_micros p ≤ u64_max)%N →
  is_ok (carve_many p rs) = true ↔ fundable p rs.
Proof.
  intros Ht Hc. rewrite is_ok_spec. split.
  - intros [[p' cs] H]. by apply carve_many_ok in H as [? _].
  - intros H. destruct (fundable_carves p rs Ht Hc H) as (p'&cs&E). eauto.
Qed.

Lemma carve_exactly_fundable_witness :
  ∃ p, AllocationPool_new "a0" "root" "w" u64_max 10 u64_max 10 = Ok p ∧ fundable p demo_members.
Proof.
  eexists. split; [vm_compute; reflexivity|].
  apply carve_exactly_fundable; [vm_compute; discriminate|vm_compute; discriminate|].
  vm_compute. reflexivity.
Defined.

(** A committee's members are funded alike: what [carve_committee] hands out
    has two to five carves of one size. *)
Lemma carve_committee_uniform p rs p' cs :
  carve_committee p rs = Ok (p', cs) →
  (2 ≤ len cs ≤ 5)%N
  ∧ ∀ c d, c ∈ cs → d ∈ cs → ac_tokens c = ac_tokens d ∧ ac_cost_micros c = ac_cost_micros d.
Proof.
  unfold carve_committee, committee_size, len. case_match eqn:E1; [done|].
  case_match eqn:E2; [done|]. intros (_&->&_)%carve_many_ok.
  rewrite length_map. bool_prop. split; [lia|].
  rewrite existsb_elem_false in E2. intros c d.
  rewrite !list_elem_of_In, !in_map_iff. setoid_rewrite <-list_elem_of_In.
  intros (x&<-&Hx) (y&<-&Hy). apply E2 in Hx, Hy.
  destruct rs as [|r0 rs']; [cbn in *; lia|]. bool_prop. cbn. lia.
Qed.

(** ** Sequences of committee operations *)

Inductive TallyOp :=
| OpRecord (result : IntentResult)
| OpAdvance (member : Binding) (expected_attempt new_attempt : N)
| OpExpire
| OpCancel.

Definition Vote : Type := Binding * CommitteeVerdict.

(** One call on the tally, and the vote it accepted, if it did. *)
Definition tally_step (t : CommitteeTally) (op : TallyOp) : CommitteeTally * list Vote :=
  match op with
  | OpRecord r =>
      match tally_record t r, ir_result r with
      | Ok (t', _), VerdictResult v _ => (t', [(ir_member r, v)])
      | _, _ => (t, [])
      end
  | OpAdvance m e n =>
      match advance_attempt t m e n with
      | Ok t' => (t', [])
      | Err _ => (t, [])
      end
  | OpExpire => (expire t, [])
  | OpCancel => (cancel t, [])
  end.

Fixpoint tally_run (t : CommitteeTally) (ops : list TallyOp) : CommitteeTally * list Vote :=
  match ops with
  | [] => (t, [])
  | op :: ops' =>
      let (t1, vs1) := tally_step t op in
      let (t2, vs2) := tally_run t1 ops' in
      (t2, vs1 ++ vs2)
  end.

(** The vote a slot holds. *)
Definition slot_vote (s : CommitteeSlot) : option Vote := pair (cs_binding s) <$> cs_verdict s.

Definition votes_for (v : CommitteeVerdict) (vs : list Vote) : N :=
  len (List.filter (fun x => x.2 == v) vs).

Lemma votes_for_perm v vs ws : vs ≡ₚ ws → votes_for v vs = votes_for v ws.
Proof. unfold votes_for, len. induction 1; cbn; repeat case_match; cbn; lia. Qed.

Lemma votes_for_cons v x vs :
  votes_for v (x :: vs) = ((if bool_decide (x.2 = v) then 1 else 0) + votes_for v vs)%N.
Proof. unfold votes_for, len. cbn. case_match; cbn [length]; lia. Qed.

Lemma length_slot_votes l : length (omap slot_vote l) ≤ length l.
Proof. induction l as [|s l IH]; cbn in *; [done|]. case_match; cbn; lia. Qed.

(** [counts] is what the votes in the slots say. *)
Lemma count_slots c l :
  foldl count_slot c l =
  {| approvals := approvals c + votes_for Approve (omap slot_vote l);
     rejections := rejections c + votes_for Reject (omap slot_vote l);
     abstentions := abstentions c + votes_for Abstain (omap slot_vote l);
     outstanding := outstanding c + (len l - len (omap slot_vote l)) |}.
Proof.
  revert c. induction l as [|s l IH]; intros c; cbn [foldl].
  - destruct c. unfold votes_for, len. cbn. f_equal; lia.
  - pose proof (length_slot_votes l) as Hl. rewrite IH.
    assert (omap slot_vote (s :: l) = option_list (slot_vote s) ++ omap slot_vote l) as ->
      by (cbn; by destruct (slot_vote s)).
    assert (slot_vote s = pair (cs_binding s) <$> cs_verdict s) as -> by done.
    revert Hl. generalize (omap slot_vote l). intros vs Hl.
    unfold count_slot, len in *. destruct (cs_verdict s) as [[]|];
      cbn -[votes_for] in *; rewrite ?votes_for_cons; cbn [fst snd];
      repeat case_bool_decide; try done; f_equal; lia.
Qed.

Lemma counts_votes l :
  counts l =
  {| approvals := votes_for Approve (omap slot_vote l);
     rejections := votes_for Reject (omap slot_vote l);
     abstentions := votes_for Abstain (omap slot_vote l);
     outstanding := len l - len (omap slot_vote l) |}.
Proof. unfold counts. rewrite count_slots. done. Qed.

(** Writing a slot that held no vote. *)
Lemma omap_slot_insert l i s s' :
  l !! i = Some s → cs_verdict s = None →
  omap slot_vote (<[i := s']> l) ≡ₚ option_list (slot_vote s') ++ omap slot_vote l.
Proof.
  intros Hi Hv. rewrite <-(take_drop_middle l i s Hi) at 2.
  rewrite insert_take_drop by (by eapply lookup_lt_Some).
  assert (slot_vote s = None) as Hn by (unfold slot_vote; by rewrite Hv).
  rewrite !omap_app. cbn. rewrite Hn. destruct (slot_vote s'); cbn; [by rewrite <-Permutation_middle|done].
Qed.

Lemma map_binding_insert l i s s' :
  l !! i = Some s → cs_binding s' = cs_binding s →
  map cs_binding (<[i := s']> l) = map cs_binding l.
Proof.
  intros Hi Hb. change (cs_binding <$> <[i:=s']> l = cs_binding <$> l).
  rewrite list_fmap_insert, Hb. apply list_insert_id. by rewrite list_lookup_fmap, Hi.
Qed.

(** What holds of a tally, its members and the votes it accepted. *)
Record tally_inv (ms : list Binding) (thr : N) (t : CommitteeTally) (vs : list Vote) : Prop := {
  ti_members : map cs_binding (ct_slots t) = ms;
  ti_thr : threshold (ct_rule t) (len ms) = Ok thr;
  ti_votes : vs ≡ₚ omap slot_vote (ct_slots t);
  ti_outcome :
    match ct_outcome t with
    | Some Approved => (thr ≤ votes_for Approve vs)%N
    | Some NotApproved => (votes_for Approve vs + (len ms - len vs) < thr)%N
    | _ => (votes_for Approve vs < thr)%N ∧ (thr ≤ votes_for Approve vs + (len ms - len vs))%N
    end;
}.

Lemma threshold_bounds rule n thr : threshold rule n = Ok thr → (0 < thr ≤ n)%N.
Proof.
  unfold threshold, committee_size. case_match eqn:E; [done|]. bool_prop.
  assert (2 * (n / 2) ≤ n < 2 * (n / 2) + 2)%N
    by (pose proof (N.div_mod n 2 ltac:(done)); pose proof (N.mod_lt n 2 ltac:(done));
        generalize dependent (n / 2)%N; generalize dependent (n mod 2)%N; intros; lia).
  destruct rule as [| |k]; [| |case_match; [|done]; bool_prop]; intros [= <-]; lia.
Qed.

Lemma bad_members_ok ids ms :
  bad_members ids ms = false → NoDup (map (incarnation_id ∘ fst) ms) ∧
    ∀ x, x ∈ map (incarnation_id ∘ fst) ms → x ∉ ids.
Proof.
  revert ids. induction ms as [|[b n] ms IH]; intros ids; cbn.
  - intros _. split; [constructor|set_solver].
  - intros H. bool_prop. rewrite contains_false in *.
    match goal with H : bad_members _ _ = false |- _ => apply IH in H as [? Hd] end.
    rewrite NoDup_cons. set_solver.
Qed.

Lemma CommitteeTally_new_ok id rule ms t :
  CommitteeTally_new id rule ms = Ok t →
  NoDup (map (incarnation_id ∘ fst) ms)
  ∧ ∃ thr, threshold rule (len ms) = Ok thr ∧ tally_inv (map fst ms) thr t [].
Proof.
  unfold CommitteeTally_new. destruct (threshold _ _) as [thr|] eqn:E; cbn; [|done].
  case_match eqn:Eb; [done|]. bool_prop. intros [= <-].
  match goal with H : bad_members _ _ = false |- _ => apply bad_members_ok in H as [? _] end.
  split; [done|]. exists thr. split; [done|].
  assert (omap slot_vote (map (fun '(b, n) =>
    {| cs_binding := b; cs_attempt := n; cs_verdict := None |}) ms) = []) as Eo.
  { clear. induction ms as [|[] ms IH]; cbn; [done|]. exact IH. }
  pose proof (threshold_bounds _ _ _ E). unfold votes_for, len in *.
  split; unfold votes_for, len; cbn; rewrite ?length_map, ?Eo; auto; [|lia].
  rewrite map_map. apply map_ext. by intros [].
Qed.

(** A verdict entering an empty slot keeps the count of what can still come. *)
Lemma tally_inv_decide ms thr t vs l b v :
  map cs_binding l = ms → threshold (ct_rule t) (len ms) = Ok thr → ct_outcome t = None →
  vs ++ [(b, v)] ≡ₚ omap slot_vote l →
  tally_inv ms thr (decide_outcome (set_slots t l) thr) (vs ++ [(b, v)]).
Proof.
  intros Hm Ht Ho Hp.
  assert (len l = len ms) as El by (subst; unfold len; by rewrite length_map).
  assert (len (omap slot_vote l) = len (vs ++ [(b, v)])) as Ev
    by (unfold len; by rewrite Hp).
  pose proof (votes_for_perm Approve _ _ Hp) as Ea.
  unfold decide_outcome. cbn. rewrite counts_votes. cbn. rewrite El, Ev, <-Ea.
  repeat case_match; bool_prop; split; cbn; rewrite ?Ho; auto; lia.
Qed.

Lemma tally_record_ok t r t' o :
  tally_record t r = Ok (t', o) →
  ∃ thr v w i s, ct_outcome t = None ∧ threshold (ct_rule t) (len (ct_slots t)) = Ok thr
    ∧ ir_intent_id r = ct_intent_id t ∧ ir_result r = VerdictResult v w
    ∧ ct_slots t !! i = Some s ∧ cs_binding s = ir_member r ∧ cs_attempt s = ir_attempt r
    ∧ cs_verdict s = None ∧ o = ct_outcome t'
    ∧ t' = decide_outcome (set_slots t (<[i := {| cs_binding := cs_binding s;
             cs_attempt := cs_attempt s; cs_verdict := Some v |}]> (ct_slots t))) thr.
Proof.
  unfold tally_record. destruct (ct_outcome t) eqn:Eo; cbn; [done|].
  destruct (threshold _ _) as [thr|] eqn:Et; cbn; [|done].
  case_match eqn:Ei; [done|]. bool_prop. destruct (ir_result r) as [v w| |] eqn:Er; [|done|done].
  destruct (list_find _ _) as [[i s]|] eqn:Ef; cbn; [|done].
  apply list_find_Some in Ef as (Hi&[Hb Ha]&_).
  destruct (cs_verdict s) eqn:Ev; cbn; [done|]. intros [= <- <-]. eauto 20.
Qed.

Lemma advance_attempt_ok t m e n t' :
  advance_attempt t m e n = Ok t' →
  ct_outcome t = None ∧ ∃ i s, ct_slots t !! i = Some s ∧ cs_binding s = m
    ∧ cs_verdict s = None ∧ cs_attempt s = e ∧ (e < n)%N
    ∧ t' = set_slots t (<[i := {| cs_binding := cs_binding s; cs_attempt := n;
             cs_verdict := cs_verdict s |}]> (ct_slots t)).
Proof.
  unfold advance_attempt. destruct (ct_outcome t) eqn:Eo; cbn; [done|].
  destruct (list_find _ _) as [[i s]|] eqn:Ef; cbn; [|done].
  apply list_find_Some in Ef as (Hi&Hb&_). destruct (cs_verdict s) eqn:Ev; cbn; [done|].
  case_match eqn:Ec; [done|]. bool_prop. intros [= <-]. rewrite <-Ev. eauto 20.
Qed.

Lemma tally_inv_step ms thr t vs op t' ws :
  tally_inv ms thr t vs → tally_step t op = (t', ws) → tally_inv ms thr t' (vs ++ ws).
Proof.
  intros I. pose proof I as [Hm Ht Hv Ho]. destruct op as [r|m e n| |]; cbn.
  - destruct (tally_record t r) as [[u o]|] eqn:E; [|intros [= <- <-]; by rewrite app_nil_r].
    apply tally_record_ok in E as (thr'&v&w&i&s&En&Et&_&Er&Hi&Hb&_&Hs&_&->).
    rewrite Er. intros [= <- <-].
    assert (thr' = thr) as -> by (subst ms; unfold len in *; rewrite length_map in Ht; congruence).
    apply tally_inv_decide; auto; [by rewrite (map_binding_insert _ i s)|].
    rewrite (omap_slot_insert _ i s) by done. cbn. rewrite Hb, Hv.
    by rewrite <-Permutation_cons_append.
  - destruct (advance_attempt t m e n) as [u|] eqn:E; intros [= <- <-]; rewrite app_nil_r; [|done].
    apply advance_attempt_ok in E as (En&i&s&Hi&Hb&Hs&_&_&->).
    split; cbn; auto; [by rewrite (map_binding_insert _ i s)|].
    rewrite (omap_slot_insert _ i s) by done. unfold slot_vote at 1. cbn. by rewrite Hs.
  - intros [= <- <-]. rewrite app_nil_r. unfold expire.
    destruct (ct_outcome t) eqn:E; cbn; [done|]. by split.
  - intros [= <- <-]. rewrite app_nil_r. unfold cancel.
    destruct (ct_outcome t) eqn:E; cbn; [done|]. by split.
Qed.

Lemma tally_inv_run ms thr ops : ∀ t vs t' ws,
  tally_inv ms thr t vs → tally_run t ops = (t', ws) → tally_inv ms thr t' (vs ++ ws).
Proof.
  induction ops as [|op ops IH]; cbn; intros t vs t' ws I.
  - intros [= <- <-]. by rewrite app_nil_r.
  - destruct (tally_step t op) as [t1 w1] eqn:E1, (tally_run t1 ops) as [t2 w2] eqn:E2.
    intros [= <- <-]. rewrite app_assoc. eapply IH; [|done]. by eapply tally_inv_step.
Qed.

(** A decided tally answers every call by leaving itself alone. *)
Lemma decided_step t op o : ct_outcome t = Some o → tally_step t op = (t, []).
Proof.
  intros H. destruct op; cbn; unfold tally_record, advance_attempt, expire, cancel;
    rewrite ?H; reflexivity.
Qed.

Lemma decided_run t ops o : ct_outcome t = Some o → tally_run t ops = (t, []).
Proof.
  intros H. induction ops as [|op ops IH]; cbn; [done|]. by rewrite (decided_step _ _ _ H), IH.
Qed.

(** The votes in the slots are by distinct members. *)
Lemma slot_voters_sublist l : map fst (omap slot_vote l) `sublist_of` map cs_binding l.
Proof.
  induction l as [|s l IH]; cbn; [constructor|]. unfold slot_vote at 1.
  destruct (cs_verdict s); cbn; by constructor.
Qed.

Lemma tally_voters ms thr t vs :
  tally_inv ms thr t vs → NoDup ms → NoDup (map fst vs) ∧ ∀ b, b ∈ map fst vs → b ∈ ms.
Proof.
  intros [Hm _ Hv _] Hn. pose proof (slot_voters_sublist (ct_slots t)) as Hs. rewrite Hm in Hs.
  assert (map fst vs ≡ₚ map fst (omap slot_vote (ct_slots t))) as Hp by by apply Permutation_map.
  split.
  - rewrite Hp. by eapply sublist_NoDup.
  - intros b. rewrite Hp. intros Hb. by eapply elem_of_submseteq, sublist_submseteq.
Qed.

(** A committee's outcome is a function of the distinct votes it
    accepted. Over any sequence of recorded results, advanced attempts,
    expiries and cancellations on a tally that [CommitteeTally::new] accepted,
    every accepted vote is by a different member of the committee; the tally
    is [Approved] only with at least the threshold of approvals and
    [NotApproved] only when the members still silent could no longer reach it;
    while it is open, expired or cancelled the question was truly open; and an
    outcome once there is never changed, nor is a vote accepted after it. *)
Theorem committee_outcome_exact id rule members t0 ops t vs :
  CommitteeTally_new id rule members = Ok t0 →
  tally_run t0 ops = (t, vs) →
  ∃ thr, threshold rule (len members) = Ok thr
    ∧ NoDup (map fst vs) ∧ (∀ b, b ∈ map fst vs → b ∈ map fst members)
    ∧ approvals (counts (ct_slots t)) = votes_for Approve vs
    ∧ outstanding (counts (ct_slots t)) = (len members - len vs)%N
    ∧ match ct_outcome t with
      | Some Approved => (thr ≤ votes_for Approve vs)%N
      | Some NotApproved => (votes_for Approve vs + (len members - len vs) < thr)%N
      | Some NoQuorum | Some Cancelled | None =>
          (votes_for Approve vs < thr)%N
          ∧ (thr ≤ votes_for Approve vs + (len members - len vs))%N
      end
    ∧ (∀ o more, ct_outcome t = Some o → tally_run t more = (t, [])).
Proof.
  intros (Hd&thr&Ht&I0)%CommitteeTally_new_ok Hr.
  pose proof (tally_inv_run _ _ _ _ _ _ _ I0 Hr) as I. cbn in I. exists thr. split; [done|].
  assert (NoDup (map fst members)) as Hn.
  { apply (NoDup_fmap_1 incarnation_id). rewrite <-list_fmap_compose. exact Hd. }
  destruct (tally_voters _ _ _ _ I Hn) as [H1 H2]. do 2 (split; [done|]).
  destruct I as [Hm _ Hv Ho]. rewrite counts_votes. cbn. rewrite <-(votes_for_perm _ _ _ Hv).
  assert (len (ct_slots t) = len members) as El.
  { unfold len. rewrite <-(length_map fst members), <-Hm. by rewrite length_map. }
  assert (len (omap slot_vote (ct_slots t)) = len vs) as Ev by (unfold len; by rewrite <-Hv).
  rewrite El, Ev. do 2 (split; [done|]). unfold len in *. rewrite length_map in Ho.
  split; [destruct (ct_outcome t) as [[]|]; done|].
  intros o more Hout. by eapply decided_run.
Qed.

Definition demo_binding (id : string) : Binding :=
  {| incarnation_id := id; thread_epoch := 0; controller_lease_id := "lease" |}.
Definition demo_vote (id : string) (attempt : N) (v : CommitteeVerdict) : TallyOp :=
  OpRecord {| ir_intent_id := "i"; ir_member := demo_binding id; ir_attempt := attempt;
              ir_result := VerdictResult v ""; ir_usage_ref := None |}.

(** Three members, majority: a duplicate and a stale vote are refused, the
    second approval decides, and the later rejection is not counted. *)
Definition demo_ops : list TallyOp :=
  [ demo_vote "x" 1 Approve; demo_vote "x" 1 Approve; OpAdvance (demo_binding "y") 1 2;
    demo_vote "y" 1 Reject; demo_vote "y" 2 Approve; demo_vote "z" 1 Reject; OpCancel ].

Lemma committee_outcome_exact_witness :
  ∃ t0 t vs, CommitteeTally_new "i" Majority
      [(demo_binding "x", 1%N); (demo_binding "y", 1%N); (demo_binding "z", 1%N)] = Ok t0
    ∧ tally_run t0 demo_ops = (t, vs)
    ∧ vs = [(demo_binding "x", Approve); (demo_binding "y", Approve)]
    ∧ ct_outcome t = Some Approved ∧ NoDup (map fst vs).
Proof.
  do 3 eexists. split; [reflexivity|]. split; [vm_compute; reflexivity|].
  split; [reflexivity|]. split; [reflexivity|].
  pose proof (committee_outcome_exact "i" Majority
    [(demo_binding "x", 1%N); (demo_binding "y", 1%N); (demo_binding "z", 1%N)] _ demo_ops _ _
    eq_refl ltac:(vm_compute; reflexivity)) as (thr&_&H&_).
  exact H.
Defined.

(** ** Ancestry *)

Lemma fresh_ids_ok seen ids :
  fresh_ids seen ids = Ok tt ↔ Forall (fun id => is_blank id = false) ids ∧ all_fresh seen ids.
Proof.
  revert seen. induction ids as [|id ids IH]; intros seen; cbn.
  - split; [|done]. intros _. split; [constructor|]. split; [constructor|by intros x Hx%not_elem_of_nil].
  - rewrite Forall_cons, all_fresh_cons. case_match eqn:E.
    + split; [done|]. intros ((Hb&_)&Hn&_). bool_prop. rewrite contains_spec, Hb in E.
      by destruct E.
    + bool_prop. rewrite contains_false in *. rewrite IH. tauto.
Qed.

(** A delegation is admitted exactly when the chain of ancestors, delegator
    and target is at most one ancestor long and has no blank and no repeated
    incarnation: delegation is acyclic and at most two levels deep. *)
Lemma ancestry_exact delegator ancestors target :
  validate_ancestry delegator ancestors target = Ok tt ↔
  length ancestors ≤ 1
  ∧ NoDup (ancestors ++ delegator :: option_list target)
  ∧ Forall (fun id => is_blank id = false) (ancestors ++ delegator :: option_list target).
Proof.
  unfold validate_ancestry, len. case_match eqn:E; [split; [done|]|].
  - intros (Hl&_&Hb). apply Forall_app in Hb as [_ [Hb _]%Forall_cons].
    apply orb_true_iff in E as [E|E]; bool_prop; [congruence|lia].
  - bool_prop. cbn [app]. rewrite fresh_ids_ok. unfold all_fresh.
    split; [intros (?&?&_)|intros (?&?&?)]; split_and?; try done; [lia|set_solver].
Qed.
