(* ===== verification/FlsBytes.v ===== *)
(** * Bytes of the container file

    What [crates/store/src/ferrostore/layout.rs] takes from the language: byte
    slices, little-endian integers, UTF-8 checking, the length-prefixed writer
    and the cursor that reads it back.

    A byte is an [ascii], so the bytes of a [string] are its characters, and a
    slice is a list. A cursor is the part of its buffer that is still ahead of
    its position: [take] returns what it read and what is left. The overflow
    test of [Cur::take] cannot fail where [usize] is 64 bits wide: positions
    are at most the length of the buffer, and a count is at most [u32::MAX]. *)

From S2P Require Import Prelude RustStr Ledger.

Abbreviation bytes := (list ascii).

Definition zero : ascii := ascii_of_N 0.
Definition zeros (n : nat) : bytes := replicate n zero.

(** [layout.rs]'s [backend] and [corrupt] *)
Definition backend (err : string) : StoreError := SBackend err.
Definition corrupt (detail : string) : StoreError := SBackend ("corrupt ferrostore data: " +:+ detail).

(** ** Slices *)

(** [buf[at..at + src.len()].copy_from_slice(src)], in range *)
Definition copy_at (buf : bytes) (at_ : nat) (src : bytes) : bytes :=
  take at_ buf ++ src ++ drop (at_ + length src) buf.

(** [buf.get(at..at + n)] *)
Definition get_range (buf : bytes) (at_ n : nat) : option bytes :=
  if decide (at_ + n ≤ length buf) then Some (take n (drop at_ buf)) else None.

(** ** Little-endian integers *)

(** [to_le_bytes] of an integer of [n] bytes *)
Fixpoint le_bytes (n : nat) (x : N) : bytes :=
  match n with
  | O => []
  | S n' => ascii_of_N (x mod 256) :: le_bytes n' (x / 256)
  end.

(** [from_le_bytes] *)
Definition le_value (l : bytes) : N := foldr (fun b acc => code b + 256 * acc)%N 0%N l.

Definition u32_bytes (x : N) : bytes := le_bytes 4 x.
Definition u64_bytes (x : N) : bytes := le_bytes 8 x.

(** [u32_at], [u64_at] *)
Definition u32_at (buf : bytes) (offset : nat) : option N := le_value <$> get_range buf offset 4.
Definition u64_at (buf : bytes) (offset : nat) : option N := le_value <$> get_range buf offset 8.

(** [u32::try_from(len)] *)
Definition u32_try (n : N) : option N := if (n <=? u32_max)%N then Some n else None.

(** ** UTF-8 *)

(** The well-formed byte sequences of the Unicode standard, as
    [String::from_utf8] accepts them. *)
Fixpoint utf8_valid (l : bytes) : bool :=
  match l with
  | [] => true
  | a :: l1 =>
      if in_range 0 127 a then utf8_valid l1 else
      match l1 with
      | [] => false
      | b :: l2 =>
          if in_range 194 223 a then in_range 128 191 b && utf8_valid l2 else
          match l2 with
          | [] => false
          | c :: l3 =>
              if in_range 224 224 a then in_range 160 191 b && in_range 128 191 c && utf8_valid l3
              else if in_range 225 236 a || in_range 238 239 a
              then in_range 128 191 b && in_range 128 191 c && utf8_valid l3
              else if in_range 237 237 a then in_range 128 159 b && in_range 128 191 c && utf8_valid l3
              else
              match l3 with
              | [] => false
              | d :: l4 =>
                  if in_range 240 240 a
                  then in_range 144 191 b && in_range 128 191 c && in_range 128 191 d && utf8_valid l4
                  else if in_range 241 243 a
                  then in_range 128 191 b && in_range 128 191 c && in_range 128 191 d && utf8_valid l4
                  else if in_range 244 244 a
                  then in_range 128 143 b && in_range 128 191 c && in_range 128 191 d && utf8_valid l4
                  else false
              end
          end
      end
  end.

(** ** Writing and reading length-prefixed records *)

(** [write_lp]: what it appends *)
Definition write_lp (b : bytes) : Result bytes StoreError :=
  let? n := ok_or (u32_try (len b)) (backend "length does not fit in u32") in
  Ok (u32_bytes n ++ b).

Definition write_str (s : string) : Result bytes StoreError := write_lp (chars s).

(** A reader: from the bytes ahead to a value and the bytes then ahead. *)
Definition Reader (A : Type) : Type := bytes → Result (A * bytes) StoreError.

Definition ret {A} (a : A) : Reader A := fun cur => Ok (a, cur).
Definition fail {A} (e : StoreError) : Reader A := fun _ => Err e.
Definition bind {A B} (r : Reader A) (k : A → Reader B) : Reader B :=
  fun cur => match r cur with Ok (a, cur') => k a cur' | Err e => Err e end.

Notation "'read' x := r 'in' k" := (bind r (fun x => k))
  (at level 10, x pattern, r at level 200, k at level 200) : rust_scope.

(** A pure step that may fail. *)
Definition lift {A} (r : Result A StoreError) : Reader A :=
  match r with Ok a => ret a | Err e => fail e end.

(** [Cur::remaining] *)
Definition cur_remaining : Reader N := fun cur => Ok (len cur, cur).

(** [Cur::take] *)
Definition cur_take (n : nat) : Reader bytes :=
  fun cur => if decide (n ≤ length cur) then Ok (take n cur, drop n cur)
             else Err (corrupt "truncated record").

(** [Cur::u8], [Cur::u32], [Cur::u64] *)
Definition cur_u8 : Reader N := read b := cur_take 1 in ret (le_value b).
Definition cur_u32 : Reader N := read b := cur_take 4 in ret (le_value b).
Definition cur_u64 : Reader N := read b := cur_take 8 in ret (le_value b).

(** [Cur::lp] *)
Definition cur_lp : Reader bytes :=
  read n := cur_u32 in
  read ahead := cur_remaining in
  if (ahead <? n)%N then fail (corrupt "length prefix exceeds the record")
  else cur_take (N.to_nat n).

(** [Cur::lp_str] *)
Definition cur_lp_str : Reader string :=
  read b := cur_lp in
  if utf8_valid b then ret (str b) else fail (corrupt "text is not utf-8").

(** [Cur::finish] *)
Definition cur_finish : Reader unit :=
  fun cur => match cur with
             | [] => Ok (tt, [])
             | _ => Err (corrupt "trailing bytes inside a committed record")
             end.

(** [for _ in 0..count], collecting *)
Fixpoint cur_many {A} (n : nat) (r : Reader A) : Reader (list A) :=
  match n with
  | O => ret []
  | S n' => read a := r in read l := cur_many n' r in ret (a :: l)
  end.

(** A [for] loop of writes, concatenated; the first error ends it. *)
Fixpoint write_many {A} (f : A → Result bytes StoreError) (l : list A) : Result bytes StoreError :=
  match l with
  | [] => Ok []
  | a :: l' => let? b := f a in let? rest := write_many f l' in Ok (b ++ rest)
  end.

(** ** Lemmas *)

Lemma code_ascii n : (n < 256)%N → code (ascii_of_N n) = n.
Proof. intros H. unfold code. by apply N_ascii_embedding. Qed.

Lemma code_lt b : (code b < 256)%N.
Proof. apply N_ascii_bounded. Qed.

Lemma ascii_code b : ascii_of_N (code b) = b.
Proof. apply ascii_N_embedding. Qed.

Lemma length_le_bytes n x : length (le_bytes n x) = n.
Proof. revert x. induction n; intros; cbn; [done|]. by rewrite IHn. Qed.

Lemma le_value_lt l : (le_value l < 256 ^ N.of_nat (length l))%N.
Proof.
  induction l as [|b l IH]; [done|].
  cbn [length]. rewrite Nat2N.inj_succ, N.pow_succ_r'. cbn [le_value foldr].
  change (foldr _ 0%N l) with (le_value l). pose proof (code_lt b). nia.
Qed.

Lemma le_value_bytes n x : (x < 256 ^ N.of_nat n)%N → le_value (le_bytes n x) = x.
Proof.
  revert x. induction n as [|n IH]; intros x Hx.
  - cbn in *. lia.
  - rewrite Nat2N.inj_succ, N.pow_succ_r' in Hx. cbn [le_bytes le_value foldr].
    change (foldr _ 0%N (le_bytes n (x / 256))) with (le_value (le_bytes n (x / 256))).
    pose proof (N.mod_lt x 256 ltac:(done)).
    rewrite IH, code_ascii by (try done; apply N.Div0.div_lt_upper_bound; lia).
    pose proof (N.div_mod x 256 ltac:(done)).
    generalize dependent (x / 256)%N. generalize dependent (x mod 256)%N. intros. lia.
Qed.

Lemma le_bytes_value l : le_bytes (length l) (le_value l) = l.
Proof.
  induction l as [|b l IH]; [done|]. cbn [length le_bytes le_value foldr].
  change (foldr _ 0%N l) with (le_value l). pose proof (code_lt b).
  assert ((code b + 256 * le_value l) mod 256 = code b)%N as ->.
  { symmetry. apply (N.mod_unique _ _ (le_value l)); lia. }
  assert ((code b + 256 * le_value l) / 256 = le_value l)%N as ->.
  { symmetry. apply (N.div_unique _ _ _ (code b)); lia. }
  by rewrite IH, ascii_code.
Qed.

Lemma le_value_u32 x : (x ≤ u32_max)%N → le_value (u32_bytes x) = x.
Proof. intros H. apply le_value_bytes. change (256 ^ N.of_nat 4)%N with (u32_max + 1)%N. lia. Qed.

Lemma le_value_u64 x : (x ≤ u64_max)%N → le_value (u64_bytes x) = x.
Proof. intros H. apply le_value_bytes. change (256 ^ N.of_nat 8)%N with (u64_max + 1)%N. lia. Qed.

Lemma length_copy_at buf i src :
  i + length src ≤ length buf → length (copy_at buf i src) = length buf.
Proof. intros H. unfold copy_at. rewrite !length_app, length_take, length_drop. lia. Qed.

Lemma copy_at_app_l a b i src :
  i + length src ≤ length a → copy_at (a ++ b) i src = copy_at a i src ++ b.
Proof.
  intros H. unfold copy_at. rewrite take_app_le, drop_app_le by lia.
  by rewrite <-!app_assoc.
Qed.

Lemma get_range_app_l a b i n : i + n ≤ length a → get_range (a ++ b) i n = get_range a i n.
Proof.
  intros H. unfold get_range. rewrite length_app, !decide_True by lia.
  rewrite drop_app_le by lia. rewrite take_app_le; [done|]. rewrite length_drop. lia.
Qed.

Lemma get_range_length buf i n l : get_range buf i n = Some l → length l = n.
Proof. unfold get_range. case_decide; intros [= <-]. rewrite length_take, length_drop. lia. Qed.

(** *** What a writer appends, the reader gives back *)

Definition reads {A} (r : Reader A) (b : bytes) (a : A) : Prop := ∀ rest, r (b ++ rest) = Ok (a, rest).

Lemma reads_ret {A} (a : A) : reads (ret a) [] a.
Proof. intros rest. done. Qed.

Lemma reads_bind {A B} (r : Reader A) (k : A → Reader B) b1 b2 a c :
  reads r b1 a → reads (k a) b2 c → reads (bind r k) (b1 ++ b2) c.
Proof. intros H1 H2 rest. unfold bind. rewrite <-app_assoc, H1. apply H2. Qed.

Lemma reads_take b : reads (cur_take (length b)) b b.
Proof.
  intros rest. unfold cur_take. rewrite decide_True by (rewrite length_app; lia).
  by rewrite take_app_length, drop_app_length.
Qed.

Lemma reads_u8 x : (x < 256)%N → reads cur_u8 [ascii_of_N x] x.
Proof.
  intros H rest. unfold cur_u8, bind, cur_take, ret.
  rewrite decide_True by (cbn; lia). cbn [app firstn skipn]. do 2 f_equal.
  unfold le_value. cbn [foldr]. rewrite code_ascii, take_0 by done. cbn. lia.
Qed.

Lemma reads_u32 x : (x ≤ u32_max)%N → reads cur_u32 (u32_bytes x) x.
Proof.
  intros H. rewrite <-(app_nil_r (u32_bytes x)). eapply reads_bind.
  - rewrite <-(length_le_bytes 4 x). apply reads_take.
  - rewrite le_value_u32 by done. apply reads_ret.
Qed.

Lemma reads_u64 x : (x ≤ u64_max)%N → reads cur_u64 (u64_bytes x) x.
Proof.
  intros H. rewrite <-(app_nil_r (u64_bytes x)). eapply reads_bind.
  - rewrite <-(length_le_bytes 8 x). apply reads_take.
  - rewrite le_value_u64 by done. apply reads_ret.
Qed.

Lemma write_lp_ok b w : write_lp b = Ok w → (len b ≤ u32_max)%N ∧ w = u32_bytes (len b) ++ b.
Proof. unfold write_lp, u32_try. case_match eqn:E; cbn; [|done]. intros [= <-]. bool_prop. done. Qed.

Lemma reads_lp b w : write_lp b = Ok w → reads cur_lp w b.
Proof.
  intros [Hl ->]%write_lp_ok rest. unfold cur_lp, bind at 1.
  rewrite <-app_assoc, (reads_u32 _ Hl). unfold bind, cur_remaining.
  rewrite (proj2 (N.ltb_ge _ _)) by (unfold len; rewrite length_app; lia).
  unfold len. rewrite Nat2N.id. apply reads_take.
Qed.

Lemma reads_str s w :
  write_str s = Ok w → utf8_valid (chars s) = true → reads cur_lp_str w s.
Proof.
  intros Hw Hu rest. unfold cur_lp_str, bind. rewrite (reads_lp _ _ Hw), Hu, str_chars. done.
Qed.

Lemma reads_many {A B} (f : A → Result bytes StoreError) (r : Reader B) (g : A → B) l w :
  (∀ a b, a ∈ l → f a = Ok b → reads r b (g a)) →
  write_many f l = Ok w → reads (cur_many (length l) r) w (map g l).
Proof.
  revert w. induction l as [|a l IH]; intros w Hr; cbn.
  - intros [= <-]. apply reads_ret.
  - destruct (f a) as [b|] eqn:Ea; cbn; [|done].
    destruct (write_many f l) as [w'|] eqn:El; cbn; [|done]. intros [= <-].
    eapply reads_bind; [apply Hr; [left|done]|].
    rewrite <-(app_nil_r w'). eapply reads_bind; [|apply reads_ret].
    apply IH; [|done]. intros. apply Hr; [by right|done].
Qed.

Lemma reads_all {A} (r : Reader A) b a : reads r b a → r b = Ok (a, []).
Proof. intros H. specialize (H []). by rewrite app_nil_r in H. Qed.

Create HintDb wire discriminated.
#[export] Hint Resolve reads_ret reads_u8 reads_u32 reads_u64 reads_lp reads_str reads_take : wire.
#[global] Arguments u32_bytes : simpl never.
#[global] Arguments u64_bytes : simpl never.
#[global] Arguments le_value : simpl never.
#[global] Arguments u32_at : simpl never.
#[global] Arguments u64_at : simpl never.
#[global] Arguments get_range : simpl never.
#[global] Arguments copy_at : simpl never.
