(* ===== verification/WireMsg.v ===== *)
(** * Messages between agents ([ferrowire.rs], [wire_delivery/c14n.rs])

    Addresses, messages, delivery receipts and their merge, the recipients an
    address resolves to, and the canonical bytes that a message's generation
    and a payload's digest are the hash of. SHA-256 is another crate's: a parameter
    of [Delivery]. *)

From S2P Require Import Prelude RustStr Wire Model At Iri Verdict Finding Agent Ledger FlsBytes.

Definition AgentId := Iri.
Definition MessageId := Iri.
Definition ThreadId := MessageId.

Definition MAX_SUBJECT_BYTES : N := 512.
Definition MAX_WIRE_BODY_BYTES : N := 262144.

(** [fallback_agent_iri]; [None]: the [expect] on the slug panics. A slug after
    [urn:fl:agent:] is an identifier in its normal form. *)
Definition fallback_agent_iri (name_key : string) : option Iri :=
  match validate_slug name_key with Ok norm => Some ("urn:fl:agent:" +:+ norm) | Err _ => None end.

Definition parse_role_selector (raw : string) : Result AgentRole StateError :=
  match AgentRole_from_wire raw with
  | Ok r => Ok r
  | Err _ => let? slug := validate_slug raw in Ok (Custom slug)
  end.

(** ** Addresses *)

Inductive WireAddress :=
| AgentName (name_key : string) | ToAgentId (id : AgentId) | All | Area (slug : string) | Role (role : AgentRole)
| AreaRole (area : string) (role : AgentRole) | Council | Group (key : string).

#[global] Instance WireAddress_eq_dec : EqDecision WireAddress.
Proof. solve_decision. Defined.

Definition COUNCIL_AREA : string := "council".

Definition WireAddress_parse (raw : string) : Result WireAddress StateError :=
  let bad {A} (r : Result A StateError) : Result A StateError := map_err (fun _ => InvalidAddress raw) r in
  let trimmed := trim raw in
  if is_empty_str trimmed then Err (InvalidAddress raw)
  else if eq_ignore_ascii_case trimmed "@all" || eq_ignore_ascii_case trimmed "all" then Ok All
  else if eq_ignore_ascii_case trimmed "@council" then Ok Council
  else
    match strip_prefix "urn:fl:agent:" trimmed with
    | Some rest => let? key := bad (validate_slug rest) in Ok (AgentName key)
    | None =>
        if starts_with "urn:uuid:" trimmed then
          match Iri_parse trimmed with Ok iri => Ok (ToAgentId iri) | Err _ => Err (InvalidAddress raw) end
        else
          match strip_prefix "@area:" trimmed with
          | Some rest =>
              match split_once "/"%char rest with
              | Some (area_raw, role_raw) =>
                  let? area := bad (validate_slug area_raw) in
                  let? role := bad (parse_role_selector role_raw) in
                  Ok (AreaRole area role)
              | None => let? area := bad (validate_slug rest) in Ok (Area area)
              end
          | None =>
              match strip_prefix "@role:" trimmed with
              | Some role_raw => let? role := bad (parse_role_selector role_raw) in Ok (Role role)
              | None =>
                  match strip_prefix "@" trimmed with
                  | Some group => let? key := bad (validate_slug group) in Ok (Group key)
                  | None => let? key := bad (validate_slug trimmed) in Ok (AgentName key)
                  end
              end
          end
    end.

Definition WireAddress_as_wire (a : WireAddress) : string :=
  match a with
  | AgentName n => n
  | ToAgentId id => id
  | All => "@all"
  | Area a => "@area:" +:+ a
  | Role r => "@role:" +:+ AgentRole_as_wire r
  | AreaRole area role => "@area:" +:+ area +:+ "/" +:+ AgentRole_as_wire role
  | Council => "@council"
  | Group g => "@" +:+ g
  end.

(** ** Messages *)

Inductive MessageKind := Mail | Ask | Reply | Handoff | TaskOffer | ApprovalRequest | System.

#[global] Instance MessageKind_eq_dec : EqDecision MessageKind.
Proof. solve_decision. Defined.

Definition MessageKind_as_wire (k : MessageKind) : string :=
  match k with
  | Mail => "mail" | Ask => "ask" | Reply => "reply" | Handoff => "handoff" | TaskOffer => "task_offer"
  | ApprovalRequest => "approval_request" | System => "system"
  end.

#[global] Program Instance MessageKind_wire : WireNames MessageKind := {
  wire_all := [Mail; Ask; Reply; Handoff; TaskOffer; ApprovalRequest; System]; as_wire := MessageKind_as_wire }.
Solve All Obligations with wire_instance.

Inductive MessageUrgency := Normal | Urgent.

#[global] Instance MessageUrgency_eq_dec : EqDecision MessageUrgency.
Proof. solve_decision. Defined.

Definition MessageUrgency_as_wire (u : MessageUrgency) : string := match u with Normal => "normal" | Urgent => "urgent" end.

#[global] Program Instance MessageUrgency_wire : WireNames MessageUrgency := {
  wire_all := [Normal; Urgent]; as_wire := MessageUrgency_as_wire }.
Solve All Obligations with wire_instance.

Definition validate_subject (raw : string) : Result string StateError :=
  if contains_char newline raw || contains_char carriage_return raw then Err InvalidMessageSubject
  else
    let trimmed := trim raw in
    if is_empty_str trimmed || (MAX_SUBJECT_BYTES <? str_len trimmed)%N then Err InvalidMessageSubject else Ok trimmed.

Definition validate_wire_body (raw : string) : Result string StateError :=
  if is_blank raw || (MAX_WIRE_BODY_BYTES <? str_len raw)%N then Err (InvalidMessageBody (str_len raw)) else Ok raw.

Definition validate_sender_name (raw : string) : Result string StateError :=
  let trimmed := trim raw in
  if eq_ignore_ascii_case trimmed "system" || eq_ignore_ascii_case trimmed "owner" || eq_ignore_ascii_case trimmed "unknown"
  then Ok (to_ascii_lowercase trimmed)
  else validate_slug trimmed.

Record WireMessage := {
  wm_id : MessageId; wm_thread_id : ThreadId; wm_reply_to : option MessageId; wm_correlation_id : option MessageId;
  wm_sender_id : option AgentId; wm_sender_name : string; wm_sender_host : option string; wm_to : WireAddress;
  wm_kind : MessageKind; wm_urgency : MessageUrgency; wm_durable : bool; wm_subject : string; wm_body : string;
  wm_created_at : At; wm_deadline_at : option At }.

#[global] Instance WireMessage_eq_dec : EqDecision WireMessage.
Proof. solve_decision. Defined.

Definition WireMessage_validate (m : WireMessage) : Result unit StateError :=
  let? _ := validate_subject (wm_subject m) in
  let? _ := validate_wire_body (wm_body m) in
  let? _ := validate_sender_name (wm_sender_name m) in
  if (wm_kind m == Reply) && (is_none (wm_reply_to m) || is_none (wm_correlation_id m)) then Err ReplyRequiresParent else Ok tt.

(** ** Receipts *)

Inductive DeliveryStatus := DsPending | DsDelivered | DsAcked | DsExpired.

#[global] Instance DeliveryStatus_eq_dec : EqDecision DeliveryStatus.
Proof. solve_decision. Defined.

Definition DeliveryStatus_as_wire (s : DeliveryStatus) : string :=
  match s with DsPending => "pending" | DsDelivered => "delivered" | DsAcked => "acked" | DsExpired => "expired" end.

#[global] Program Instance DeliveryStatus_wire : WireNames DeliveryStatus := {
  wire_all := [DsPending; DsDelivered; DsAcked; DsExpired]; as_wire := DeliveryStatus_as_wire }.
Solve All Obligations with wire_instance.

Definition status_rank (s : DeliveryStatus) : N := match s with DsPending => 0 | DsDelivered => 1 | DsExpired => 2 | DsAcked => 3 end.

Record DeliveryReceipt := {
  rp_message_id : MessageId; rp_recipient_id : Iri; rp_recipient_name : string; rp_status : DeliveryStatus;
  rp_attempts : N; rp_updated_at : At; rp_acked_at : option At }.

#[global] Instance DeliveryReceipt_eq_dec : EqDecision DeliveryReceipt.
Proof. solve_decision. Defined.

(** [Ord::max] and [Ord::min] of texts *)
Definition str_max (a b : string) : string := if str_ltb b a then a else b.
Definition str_min (a b : string) : string := if str_ltb b a then b else a.

Definition name_rank (n : string) : N := if is_empty_str n then 0 else if starts_with "urn:" n then 1 else 2.

Definition receipt_merge (a b : DeliveryReceipt) : DeliveryReceipt :=
  let status := if (status_rank (rp_status b) <=? status_rank (rp_status a))%N then rp_status a else rp_status b in
  let updated_at := str_max (rp_updated_at a) (rp_updated_at b) in
  let acked_at :=
    if status == DsAcked then
      match rp_acked_at a, rp_acked_at b with
      | Some x, Some y => Some (str_min x y)
      | Some x, None => Some x
      | None, Some y => Some y
      | None, None => Some updated_at
      end
    else None in
  let '(x, y) := (rp_recipient_name a, rp_recipient_name b) in
  let recipient_name :=
    match (name_rank x ?= name_rank y)%N with Gt => x | Lt => y | Eq => str_min x y end in
  {| rp_message_id := rp_message_id a; rp_recipient_id := rp_recipient_id a; rp_recipient_name := recipient_name; rp_status := status;
     rp_attempts := N.max (rp_attempts a) (rp_attempts b); rp_updated_at := updated_at; rp_acked_at := acked_at |}.

(** ** Recipients *)

(** The recipients that a test selects, in the order of their names *)
Definition sorted_recipients (l : list AgentRecord) : list (Iri * string) :=
  sort_by (fun a b => str_leb a.2 b.2) (map (fun a => (ag_id a, ag_name_key a)) l).

(** [resolve_recipients]; [None]: a name that is not a slug, of no agent, panics. *)
Definition resolve_recipients (to : WireAddress) (sender_id : option AgentId) (sender_name : string)
  (all_agents : list AgentRecord) (areas : list AreaRecord) : option (list (Iri * string)) :=
  let is_sender a := is_some_and sender_id (fun sid => sid == ag_id a) || (ag_name_key a == sender_name) in
  let active (test : AgentRecord → bool) :=
    sorted_recipients (List.filter (fun a => (ag_status a == Active) && test a && negb (is_sender a)) all_agents) in
  match to with
  | AgentName name_key =>
      match List.find (fun a => (ag_status a == Active) && (ag_name_key a == name_key)) all_agents with
      | Some agent => Some [(ag_id agent, ag_name_key agent)]
      | None => iri ← fallback_agent_iri name_key; Some [(iri, name_key)]
      end
  | ToAgentId id =>
      match List.find (fun a => ag_id a == id) all_agents with
      | Some agent => Some [(ag_id agent, ag_name_key agent)]
      | None => Some [(id, id)]
      end
  | All => Some (active (fun _ => true))
  | Area slug => Some (active (fun a => covers_area a slug))
  | Role role => Some (active (fun a => ag_role a == role))
  | Council => Some (active (fun a => covers_area a COUNCIL_AREA || (ag_role a == Strategist)))
  | Group key =>
      if existsb (fun a => (ar_area_key a == key) && is_virtual a) areas then Some (active (fun a => covers_area a key)) else Some []
  | AreaRole area role => Some (active (fun a => covers_area a area && (ag_role a == role)))
  end.

Definition check_group_address (to : WireAddress) (areas : list AreaRecord) : Result unit string :=
  match to with
  | Group key =>
      match List.find (fun a => ar_area_key a == key) areas with
      | Some a =>
          if is_virtual a then Ok tt
          else Err ("`@" +:+ key +:+ "` is not a virtual group: `" +:+ key +:+ "` is an area with a path. Use `@area:" +:+ key +:+ "`")
      | None =>
          Err ("`@" +:+ key +:+ "` names no virtual group: create one with `fl project create " +:+ key +:+ " --virtual`")
      end
  | _ => Ok tt
  end.

(** ** Canonical bytes *)

Definition GENERATION_DOMAIN : string := "FerroLoop/WireDelivery/generation/v1".
Definition PAYLOAD_DOMAIN : string := "FerroLoop/WireDelivery/payload/v1".

(** [to_be_bytes] of a [u64] *)
Definition be_bytes (n : N) : bytes := rev (u64_bytes n).

Definition encode_lp (out b : bytes) : Result bytes StoreError :=
  if (u64_max <? len b)%N then Err (SBackend "canonical field length exceeds u64") else Ok (out ++ be_bytes (len b) ++ b).

Definition encode_str (out : bytes) (s : string) : Result bytes StoreError := encode_lp out (chars s).

Definition encode_option (out : bytes) (value : option string) : Result bytes StoreError :=
  match value with
  | None => Ok (out ++ [ascii_of_N 0])
  | Some v => encode_str (out ++ [ascii_of_N 1]) v
  end.

Definition selector_parts (selector : WireAddress) : list string :=
  match selector with
  | AgentName name => ["agent_name"; name]
  | ToAgentId id => ["agent_id"; id]
  | All => ["all"]
  | Area area => ["area"; area]
  | Role role => ["role"; AgentRole_as_wire role]
  | AreaRole area role => ["area_role"; area; AgentRole_as_wire role]
  | Council => ["council"]
  | Group group => ["group"; group]
  end.

Definition encode_selector (out : bytes) (selector : WireAddress) : Result bytes StoreError :=
  for_fold encode_str out (selector_parts selector).

Definition generation_bytes (m : WireMessage) : Result bytes StoreError :=
  let? out := encode_str [] GENERATION_DOMAIN in
  let? out := encode_str out (wm_id m) in
  let? out := encode_str out (wm_thread_id m) in
  let? out := encode_option out (wm_reply_to m) in
  let? out := encode_option out (wm_correlation_id m) in
  let? out := encode_option out (wm_sender_id m) in
  let? out := encode_str out (wm_sender_name m) in
  let? out := encode_option out (wm_sender_host m) in
  let? out := encode_selector out (wm_to m) in
  let? out := encode_str out (as_wire (wm_kind m)) in
  let? out := encode_str out (as_wire (wm_urgency m)) in
  let out := out ++ [if wm_durable m then ascii_of_N 1 else ascii_of_N 0] in
  let? out := encode_str out (wm_subject m) in
  let? out := encode_str out (wm_body m) in
  let? out := encode_str out (wm_created_at m) in
  encode_option out (wm_deadline_at m).

Definition payload_bytes (generation : bytes) (renderer : string) (b : bytes) : Result bytes StoreError :=
  let? out := encode_str [] PAYLOAD_DOMAIN in
  let? out := encode_str out renderer in
  let out := out ++ be_bytes 1 in
  let? out := encode_lp out generation in
  encode_lp out b.

(** ** What the canonical bytes bind *)

Definition lp (b : bytes) : bytes := be_bytes (len b) ++ b.
Definition lps (s : string) : bytes := lp (chars s).
Definition lpo (o : option string) : bytes := match o with None => [ascii_of_N 0] | Some s => ascii_of_N 1 :: lps s end.

Definition fits (b : bytes) : Prop := (len b ≤ u64_max)%N.
Definition fits_opt (o : option string) : Prop := match o with None => True | Some s => fits (chars s) end.

(** A field's length is known, or computes. *)
Ltac fit := first [assumption | vm_compute; discriminate].

Lemma encode_lp_ok out b o : encode_lp out b = Ok o → fits b ∧ o = out ++ lp b.
Proof. unfold encode_lp. destruct (N.ltb_spec u64_max (len b)); [done|]. by intros [= <-]. Qed.

Lemma encode_option_ok out v o : encode_option out v = Ok o → fits_opt v ∧ o = out ++ lpo v.
Proof. destruct v; cbn; [|by intros [= <-]]. intros [? ->]%encode_lp_ok. by rewrite <- (assoc_L (++)). Qed.

Lemma encode_parts_ok parts : ∀ out o, for_fold encode_str out parts = Ok o → Forall (fun p => fits (chars p)) parts ∧ o = out ++ concat (map lps parts).
Proof.
  induction parts as [|p parts IH]; intros out o; cbn; [intros [= <-]; by rewrite app_nil_r|].
  intros (o'&[Hp ->]%encode_lp_ok&[Hf ->]%IH)%result_bind_ok. split; [by constructor|]. by rewrite <- (assoc_L (++)).
Qed.

Lemma be_bytes_inj a b : (a ≤ u64_max)%N → (b ≤ u64_max)%N → be_bytes a = be_bytes b → a = b.
Proof.
  unfold be_bytes, u64_bytes. intros Ha Hb E%(f_equal (fun l => le_value (rev l))). rewrite !rev_involutive in E.
  unfold u64_max in *. change (256 ^ N.of_nat 8)%N with 18446744073709551616%N in *. rewrite !le_value_bytes in E; [done|..]; change (256 ^ N.of_nat 8)%N with 18446744073709551616%N; lia.
Qed.

Lemma lp_cancel a b x y : fits a → fits b → lp a ++ x = lp b ++ y → a = b ∧ x = y.
Proof.
  unfold lp. rewrite <- !(assoc_L (++)). intros Ha Hb E.
  apply app_inj_1 in E as [E1 E2]; [|unfold be_bytes; rewrite !length_rev; unfold u64_bytes; by rewrite !length_le_bytes].
  apply be_bytes_inj in E1; [|fit..]. apply app_inj_1 in E2; [exact E2|]. unfold len in E1. apply Nat2N.inj in E1. exact E1.
Qed.

Lemma lps_cancel s t x y : fits (chars s) → fits (chars t) → lps s ++ x = lps t ++ y → s = t ∧ x = y.
Proof. intros Hs Ht E. destruct (lp_cancel (chars s) (chars t) x y Hs Ht E) as [E1 E2]. split; [by apply chars_inj|exact E2]. Qed.

Lemma lpo_cancel o p x y : fits_opt o → fits_opt p → lpo o ++ x = lpo p ++ y → o = p ∧ x = y.
Proof.
  destruct o as [s|], p as [t|]; intros Ho Hp E; try discriminate; [|by injection E].
  apply (f_equal (@tl ascii)) in E. change (lps s ++ x = lps t ++ y) in E. apply lps_cancel in E as [-> ->]; [done|fit..].
Qed.

Lemma role_wire_inj r r' : AgentRole_as_wire r = AgentRole_as_wire r' → r = r'.
Proof. destruct r, r'; cbn; try done. intros E%(str_app_inj_l "custom:"). by subst. Qed.

Lemma selector_cancel a b x y : Forall (fun p => fits (chars p)) (selector_parts a) → Forall (fun p => fits (chars p)) (selector_parts b) →
  concat (map lps (selector_parts a)) ++ x = concat (map lps (selector_parts b)) ++ y → a = b ∧ x = y.
Proof.
  intros Ha Hb E. destruct a, b; cbn [selector_parts map concat] in *; rewrite ?app_nil_r, <- ?(assoc_L (++)) in E;
    repeat match goal with H : Forall _ (_ :: _) |- _ => apply Forall_cons in H as [? H] end;
    repeat match goal with E : lps _ ++ _ = lps _ ++ _ |- _ => apply lps_cancel in E as [? E]; [|fit..] end;
    subst; try done; (split; [|done]); f_equal; by apply role_wire_inj.
Qed.

(** The canonical bytes of a message, field after field *)
Definition gen (m : WireMessage) : bytes :=
  lps GENERATION_DOMAIN ++ lps (wm_id m) ++ lps (wm_thread_id m) ++ lpo (wm_reply_to m) ++ lpo (wm_correlation_id m) ++ lpo (wm_sender_id m)
  ++ lps (wm_sender_name m) ++ lpo (wm_sender_host m) ++ concat (map lps (selector_parts (wm_to m))) ++ lps (as_wire (wm_kind m))
  ++ lps (as_wire (wm_urgency m)) ++ [if wm_durable m then ascii_of_N 1 else ascii_of_N 0] ++ lps (wm_subject m) ++ lps (wm_body m)
  ++ lps (wm_created_at m) ++ lpo (wm_deadline_at m).

Definition gen_fits (m : WireMessage) : Prop :=
  fits (chars (wm_id m)) ∧ fits (chars (wm_thread_id m)) ∧ fits_opt (wm_reply_to m) ∧ fits_opt (wm_correlation_id m) ∧ fits_opt (wm_sender_id m)
  ∧ fits (chars (wm_sender_name m)) ∧ fits_opt (wm_sender_host m) ∧ Forall (fun p => fits (chars p)) (selector_parts (wm_to m))
  ∧ fits (chars (as_wire (wm_kind m))) ∧ fits (chars (as_wire (wm_urgency m))) ∧ fits (chars (wm_subject m)) ∧ fits (chars (wm_body m))
  ∧ fits (chars (wm_created_at m)) ∧ fits_opt (wm_deadline_at m).

Ltac encoded H :=
  repeat match type of H with result_bind _ _ = Ok _ => apply result_bind_ok in H as (?&?&H) end;
  repeat match goal with
    | H : encode_lp _ _ = Ok _ |- _ => apply encode_lp_ok in H as [? ->]
    | H : encode_option _ _ = Ok _ |- _ => apply encode_option_ok in H as [? ->]
    | H : for_fold encode_str _ _ = Ok _ |- _ => apply encode_parts_ok in H as [? ->]
    end.

Lemma generation_bytes_ok m b : generation_bytes m = Ok b → gen_fits m ∧ b = gen m.
Proof.
  unfold generation_bytes, encode_str, encode_selector. cbv zeta. intros H. encoded H.
  split; [by split_and!|]. unfold gen, lps. by rewrite <- !(assoc_L (++)).
Qed.

Lemma payload_bytes_ok g r p b : payload_bytes g r p = Ok b →
  fits (chars r) ∧ fits g ∧ fits p ∧ b = lps PAYLOAD_DOMAIN ++ lps r ++ be_bytes 1 ++ lp g ++ lp p.
Proof.
  unfold payload_bytes, encode_str. cbv zeta. intros H. encoded H. split_and!; [done..|]. unfold lps. by rewrite <- !(assoc_L (++)).
Qed.

Lemma gen_inj m m' : gen_fits m → gen_fits m' → gen m = gen m' → m = m'.
Proof.
  intros (F1&F2&F3&F4&F5&F6&F7&F8&F9&F10&F11&F12&F13&F14) (G1&G2&G3&G4&G5&G6&G7&G8&G9&G10&G11&G12&G13&G14) E. unfold gen in E.
  apply lps_cancel in E as [_ E]; [|fit..]. apply lps_cancel in E as [E1 E]; [|fit..]. apply lps_cancel in E as [E2 E]; [|fit..].
  apply lpo_cancel in E as [E3 E]; [|fit..]. apply lpo_cancel in E as [E4 E]; [|fit..]. apply lpo_cancel in E as [E5 E]; [|fit..].
  apply lps_cancel in E as [E6 E]; [|fit..]. apply lpo_cancel in E as [E7 E]; [|fit..]. apply selector_cancel in E as [E8 E]; [|fit..].
  apply lps_cancel in E as [E9%wire_unique E]; [|fit..]. apply lps_cancel in E as [E10%wire_unique E]; [|fit..].
  apply app_inj_1 in E as [E11 E]; [|done]. apply lps_cancel in E as [E12 E]; [|fit..]. apply lps_cancel in E as [E13 E]; [|fit..].
  apply lps_cancel in E as [E14 E]; [|fit..]. rewrite <- (app_nil_r (lpo (wm_deadline_at m))), <- (app_nil_r (lpo (wm_deadline_at m'))) in E.
  apply lpo_cancel in E as [E15 _]; [|fit..]. assert (wm_durable m = wm_durable m') by (by destruct (wm_durable m), (wm_durable m')).
  destruct m, m'; cbn in *. by subst.
Qed.

(** A message's generation binds all of it, and a payload's digest all of
    that: two messages with the same canonical bytes are the same message, in
    every field and down to the kind of address; two payloads with the same
    bytes agree in generation, renderer and content. Only the hash stands
    between a message and its generation. *)
Theorem canonical_bytes_bind :
  (∀ m m' b, generation_bytes m = Ok b → generation_bytes m' = Ok b → m = m')
  ∧ (∀ g r p g' r' p' b, payload_bytes g r p = Ok b → payload_bytes g' r' p' = Ok b → g = g' ∧ r = r' ∧ p = p').
Proof.
  split.
  - intros m m' b [F ->]%generation_bytes_ok [G E]%generation_bytes_ok. by apply gen_inj.
  - intros g r p g' r' p' b (F1&F2&F3&->)%payload_bytes_ok (G1&G2&G3&E)%payload_bytes_ok.
    apply lps_cancel in E as [_ E]; [|fit..]. apply lps_cancel in E as [-> E]; [|fit..]. apply app_inj_1 in E as [_ E]; [|done].
    apply lp_cancel in E as [-> E]; [|fit..]. rewrite <- (app_nil_r (lp p)), <- (app_nil_r (lp p')) in E. by apply lp_cancel in E as [-> _].
Qed.

(** ** Receipts converge *)

Lemma str_leb_max a b c : str_leb (str_max a b) c = true ↔ str_leb a c = true ∧ str_leb b c = true.
Proof.
  unfold str_max. destruct (str_ltb b a) eqn:E.
  - split; [intros H; split; [done|]|by intros []]. eapply str_leb_trans; [|exact H]. apply str_leb_alt. right. by apply str_ltb_lt.
  - split; [intros H; split; [|done]|by intros []]. eapply str_leb_trans; [|exact H]. unfold str_leb, str_ltb in *. by rewrite E.
Qed.

Lemma str_min_leb a b c : str_leb c (str_min a b) = true ↔ str_leb c a = true ∧ str_leb c b = true.
Proof.
  unfold str_min. destruct (str_ltb b a) eqn:E.
  - split; [intros H; split; [|done]|by intros []]. eapply str_leb_trans; [exact H|]. apply str_leb_alt. right. by apply str_ltb_lt.
  - split; [intros H; split; [done|]|by intros []]. eapply str_leb_trans; [exact H|]. unfold str_leb, str_ltb in *. by rewrite E.
Qed.

Lemma str_leb_refl a : str_leb a a = true.
Proof. destruct (str_leb_total a a); done. Qed.

Lemma upper_eq a b : (∀ c, str_leb a c = true ↔ str_leb b c = true) → a = b.
Proof. intros H. apply str_leb_antisym; [apply H|apply H]; apply str_leb_refl. Qed.
Lemma lower_eq a b : (∀ c, str_leb c a = true ↔ str_leb c b = true) → a = b.
Proof. intros H. apply str_leb_antisym; [apply H|apply H]; apply str_leb_refl. Qed.

Lemma str_max_comm a b : str_max a b = str_max b a.
Proof. apply upper_eq. intros c. rewrite !str_leb_max. tauto. Qed.
Lemma str_max_assoc a b c : str_max (str_max a b) c = str_max a (str_max b c).
Proof. apply upper_eq. intros d. rewrite !str_leb_max. tauto. Qed.
Lemma str_max_idem a : str_max a a = a.
Proof. apply upper_eq. intros d. rewrite !str_leb_max. tauto. Qed.
Lemma str_min_comm a b : str_min a b = str_min b a.
Proof. apply lower_eq. intros c. rewrite !str_min_leb. tauto. Qed.
Lemma str_min_assoc a b c : str_min (str_min a b) c = str_min a (str_min b c).
Proof. apply lower_eq. intros d. rewrite !str_min_leb. tauto. Qed.
Lemma str_min_idem a : str_min a a = a.
Proof. apply lower_eq. intros d. rewrite !str_min_leb. tauto. Qed.
Lemma str_min_either a b : str_min a b = a ∨ str_min a b = b.
Proof. unfold str_min. destruct (str_ltb b a); auto. Qed.

(** The better of two recipient names *)
Definition pick_name (x y : string) : string := match (name_rank x ?= name_rank y)%N with Gt => x | Lt => y | Eq => str_min x y end.

Lemma pick_rank x y : name_rank (pick_name x y) = N.max (name_rank x) (name_rank y).
Proof.
  unfold pick_name. destruct (N.compare_spec (name_rank x) (name_rank y)) as [E|E|E]; [|lia..].
  destruct (str_min_either x y) as [-> | ->]; lia.
Qed.

Lemma pick_comm x y : pick_name x y = pick_name y x.
Proof.
  unfold pick_name. rewrite (N.compare_antisym (name_rank x)). destruct (_ ?= _)%N; cbn; [apply str_min_comm|done..].
Qed.

Lemma pick_assoc x y z : pick_name (pick_name x y) z = pick_name x (pick_name y z).
Proof.
  unfold pick_name at 1 3. rewrite !pick_rank. unfold pick_name.
  destruct (N.compare_spec (name_rank x) (name_rank y)) as [E|E|E], (N.compare_spec (name_rank y) (name_rank z)) as [F|F|F];
    destruct (N.compare_spec (N.max (name_rank x) (name_rank y)) (name_rank z)) as [G|G|G]; try lia;
    destruct (N.compare_spec (name_rank x) (N.max (name_rank y) (name_rank z))) as [I|I|I]; try lia; try done.
  apply str_min_assoc.
Qed.

Lemma pick_idem x : pick_name x x = x.
Proof. unfold pick_name. by rewrite N.compare_refl, str_min_idem. Qed.

Definition opt_min (a b : option string) : option string :=
  match a, b with Some x, Some y => Some (str_min x y) | Some x, None => Some x | None, o => o end.

Lemma opt_min_assoc a b c : opt_min (opt_min a b) c = opt_min a (opt_min b c).
Proof. destruct a, b, c; cbn; try done. by rewrite str_min_assoc. Qed.
Lemma opt_min_comm a b : opt_min a b = opt_min b a.
Proof. destruct a, b; cbn; try done. by rewrite str_min_comm. Qed.

Definition higher (s t : DeliveryStatus) : DeliveryStatus := if (status_rank t <=? status_rank s)%N then s else t.

(** A receipt tells when it was acknowledged exactly if it was. *)
Definition receipt_wf (r : DeliveryReceipt) : Prop := is_Some (rp_acked_at r) ↔ rp_status r = DsAcked.
Definition same_delivery (a b : DeliveryReceipt) : Prop := rp_message_id a = rp_message_id b ∧ rp_recipient_id a = rp_recipient_id b.

Lemma merge_alt a b : receipt_wf a → receipt_wf b → receipt_merge a b = {|
  rp_message_id := rp_message_id a; rp_recipient_id := rp_recipient_id a; rp_recipient_name := pick_name (rp_recipient_name a) (rp_recipient_name b);
  rp_status := higher (rp_status a) (rp_status b); rp_attempts := N.max (rp_attempts a) (rp_attempts b);
  rp_updated_at := str_max (rp_updated_at a) (rp_updated_at b); rp_acked_at := opt_min (rp_acked_at a) (rp_acked_at b) |}.
Proof.
  unfold receipt_wf, receipt_merge, higher, pick_name. intros Ha Hb. cbv zeta. f_equal.
  rewrite <- !not_eq_None_Some in Ha, Hb.
  destruct (rp_status a), (rp_status b), (rp_acked_at a) as [x|], (rp_acked_at b) as [y|]; cbn; try done; exfalso; naive_solver.
Qed.

Lemma merge_wf a b : receipt_wf a → receipt_wf b → receipt_wf (receipt_merge a b).
Proof.
  intros Ha Hb. rewrite merge_alt by done. unfold receipt_wf, higher in *. cbn.
  destruct (rp_status a), (rp_status b), (rp_acked_at a), (rp_acked_at b); cbn in *; try tauto; naive_solver.
Qed.

Lemma status_rank_inj s t : status_rank s = status_rank t → s = t.
Proof. by destruct s, t. Qed.

(** Replicas that exchange receipts converge. Over receipts of one delivery
    that tell when they were acknowledged exactly if they were, merging is
    commutative, associative and idempotent, keeps such receipts so, and never
    lowers the status: whatever the order in which receipts meet, and however
    often, the result is the same. *)
Theorem receipt_merge_converges a b c : receipt_wf a → receipt_wf b → receipt_wf c → same_delivery a b → same_delivery b c →
  receipt_merge a b = receipt_merge b a
  ∧ receipt_merge (receipt_merge a b) c = receipt_merge a (receipt_merge b c)
  ∧ receipt_merge a a = a ∧ receipt_wf (receipt_merge a b)
  ∧ (status_rank (rp_status a) ≤ status_rank (rp_status (receipt_merge a b)))%N.
Proof.
  intros Ha Hb Hc [E1 E2] [E3 E4].
  assert (∀ s t, higher s t = higher t s) as Hcomm by (intros [] []; done).
  assert (∀ s t u, higher (higher s t) u = higher s (higher t u)) as Hassoc by (intros [] [] []; done).
  split_and!.
  - rewrite !merge_alt by done. rewrite E1, E2, pick_comm, Hcomm, N.max_comm, str_max_comm, opt_min_comm. done.
  - rewrite (merge_alt _ c), (merge_alt a (receipt_merge b c)) by (done || by apply merge_wf). rewrite !merge_alt by done. cbn.
    by rewrite pick_assoc, Hassoc, N.max_assoc, str_max_assoc, opt_min_assoc.
  - rewrite merge_alt by done. rewrite pick_idem, N.max_id, str_max_idem.
    assert (higher (rp_status a) (rp_status a) = rp_status a) as -> by (by destruct (rp_status a)).
    assert (opt_min (rp_acked_at a) (rp_acked_at a) = rp_acked_at a) as -> by (destruct (rp_acked_at a); cbn; by rewrite ?str_min_idem).
    by destruct a.
  - by apply merge_wf.
  - rewrite merge_alt by done. cbn. unfold higher. destruct (N.leb_spec (status_rank (rp_status b)) (status_rank (rp_status a))); lia.
Qed.

(** ** Addresses read back as they are written *)

Definition slug_text (s : string) : Prop := Forall (fun b => slug_byte b = true) (chars s).

Lemma slug_facts raw s : validate_slug raw = Ok s → validate_slug s = Ok s ∧ slug_text s ∧ to_ascii_lowercase s = s ∧ is_empty_str s = false.
Proof.
  intros H. pose proof (validate_slug_idem _ _ H) as Hs. pose proof (validate_slug_ok _ _ Hs) as (_&Hf&Hl).
  split_and!; [done|done|by apply validate_slug_lower|]. destruct s; [cbn in Hl; lia|done].
Qed.

Lemma slug_no_prefix p s : slug_text s → existsb (fun b => negb (slug_byte b)) (chars p) = true → strip_prefix p s = None.
Proof.
  intros Hs Hp. destruct (strip_prefix p s) as [r|] eqn:E; [exfalso|done]. apply strip_prefix_spec in E as ->.
  unfold slug_text in Hs. rewrite chars_app in Hs. apply Forall_app in Hs as [Hs _]. rewrite Forall_forall in Hs.
  apply existsb_exists in Hp as (b&Hb&Hn). rewrite Hs in Hn; [done|]. by apply list_elem_of_In.
Qed.

Lemma slug_no_char c s : slug_text s → slug_byte c = false → contains_char c s = false.
Proof.
  intros Hs Hc. unfold contains_char, any_byte. apply not_true_iff_false. intros (b&Hb&->%bool_decide_eq_true)%existsb_exists.
  unfold slug_text in Hs. rewrite Forall_forall in Hs. apply list_elem_of_In, Hs in Hb. congruence.
Qed.

Lemma no_char_split c s : contains_char c s = false → split_once c s = None.
Proof.
  intros Hc. destruct (split_once c s) as [[l r]|] eqn:E; [exfalso|done]. apply split_once_spec in E as [-> _].
  unfold contains_char, any_byte in Hc. rewrite chars_app, existsb_app in Hc. apply orb_false_iff in Hc as [_ Hc].
  cbn in Hc. by rewrite bool_decide_eq_true_2 in Hc.
Qed.

Lemma slug_plain s : slug_text s → Forall (fun b => plain_byte b = true) (chars s).
Proof. intros H. eapply Forall_impl; [exact H|]. apply slug_byte_plain. Qed.

Lemma raw_slug_plain raw s : validate_slug raw = Ok s → trim raw = raw.
Proof.
  intros (->&Hf&_)%validate_slug_ok. apply trim_plain. rewrite chars_lower, Forall_map in Hf. eapply Forall_impl; [exact Hf|].
  intros b Hb%slug_byte_plain. revert Hb. unfold plain_byte. rewrite (proj1 (lower_ws b)). intros [H1%N.ltb_lt ->]%andb_true_iff.
  apply andb_true_iff. split; [|done]. apply N.ltb_lt. revert H1. unfold lower_byte, is_ascii_uppercase, in_range.
  destruct (_ && _) eqn:E; [|done]. apply andb_true_iff in E as [_ E%N.leb_le]. intros _. lia.
Qed.

(** What a role selector reads prints to what reads as the same role. *)
Lemma role_selector_canonical raw r : parse_role_selector raw = Ok r →
  parse_role_selector (AgentRole_as_wire r) = Ok r ∧ Forall (fun b => plain_byte b = true) (chars (AgentRole_as_wire r)).
Proof.
  intros H.
  assert (∀ s, validate_slug s = Ok s → Forall (fun b => plain_byte b = true) (chars (AgentRole_as_wire (Custom s)))) as Hplain.
  { intros s (_&Hf&_)%slug_facts. cbn [AgentRole_as_wire]. rewrite chars_app. apply Forall_app. split; [by repeat constructor|by apply slug_plain]. }
  unfold parse_role_selector in H. destruct (AgentRole_from_wire raw) as [r'|] eqn:E.
  - injection H as ->. pose proof (from_wire_canonical _ _ E) as Hc. unfold parse_role_selector. rewrite Hc. split; [done|].
    destruct r; try (by repeat constructor). apply Hplain. unfold AgentRole_from_wire in E. cbv zeta in E.
    repeat (match type of E with (if ?b then _ else _) = _ => destruct b; [done|] end).
    destruct (default_role _) as [d|] eqn:Ed.
    { destruct (default_role_parses _ _ Ed) as [_ Hn]. injection E as ->. by destruct (Hn s). }
    destruct (strip_prefix "custom:" _); [|done]. apply result_bind_ok in E as (slug&Hs&[= <-]). by eapply validate_slug_idem.
  - apply result_bind_ok in H as (slug&Hs&[= <-]). pose proof (slug_facts _ _ Hs) as (Hs'&Hf&Hlow&_).
    split; [|by apply Hplain]. unfold parse_role_selector. cbn [AgentRole_as_wire]. rewrite from_wire_custom; [done|done|].
    unfold AgentRole_from_wire in E. rewrite (raw_slug_plain _ _ Hs) in E. pose proof (validate_slug_ok _ _ Hs) as (Heq&_).
    cbv zeta in E. rewrite <- Heq in E. repeat (match type of E with (if ?b then _ else _) = _ => destruct b; [done|] end).
    rewrite (slug_no_prefix "custom:" slug Hf eq_refl) in E. cbn [unwrap_or] in E. by destruct (default_role slug).
Qed.

Lemma plain_at s : Forall (fun b => plain_byte b = true) (chars s) → trim ("@" +:+ s) = "@" +:+ s.
Proof. intros H. apply trim_plain. rewrite chars_app. apply Forall_app. split; [by repeat constructor|done]. Qed.

Lemma slug_not t s : slug_text s → existsb (fun b => negb (slug_byte b)) (chars t) = true → (s == t) = false.
Proof.
  intros Hs Ht. apply bool_decide_eq_false_2. intros ->. apply existsb_exists in Ht as (b&Hb%list_elem_of_In&Hn).
  unfold slug_text in Hs. rewrite Forall_forall in Hs. by rewrite (Hs _ Hb) in Hn.
Qed.

Lemma parse_agent_name key : validate_slug key = Ok key → key ≠ "all" → WireAddress_parse key = Ok (AgentName key).
Proof.
  intros (Hs&Hf&Hl&He)%slug_facts Hall. unfold WireAddress_parse. cbv zeta. rewrite (trim_plain _ (slug_plain _ Hf)), He.
  unfold eq_ignore_ascii_case, starts_with. rewrite Hl. change (to_ascii_lowercase "@all") with "@all". change (to_ascii_lowercase "all") with "all".
  change (to_ascii_lowercase "@council") with "@council". rewrite (slug_not "@all"), (slug_not "@council") by done. rewrite bool_decide_eq_false_2 by done. cbn [orb].
  rewrite !slug_no_prefix by done. cbn [is_some]. by rewrite Hs.
Qed.

Lemma lower_cons c s : to_ascii_lowercase (String c s) = String (lower_byte c) (to_ascii_lowercase s).
Proof. done. Qed.

Lemma parse_group key : validate_slug key = Ok key → key ≠ "all" → key ≠ "council" → WireAddress_parse ("@" +:+ key) = Ok (Group key).
Proof.
  intros (Hs&Hf&Hl&He)%slug_facts Hall Hcouncil. unfold WireAddress_parse. cbv zeta. rewrite (plain_at _ (slug_plain _ Hf)).
  unfold eq_ignore_ascii_case, starts_with. rewrite !str_app_cons. cbn [is_empty_str]. rewrite lower_cons.
  change (to_ascii_lowercase (EmptyString +:+ key)) with (to_ascii_lowercase key). change (EmptyString +:+ key) with key. rewrite Hl.
  change (lower_byte "@") with "@"%char. change (to_ascii_lowercase "@all") with "@all". change (to_ascii_lowercase "all") with "all".
  change (to_ascii_lowercase "@council") with "@council".
  rewrite !bool_decide_eq_false_2 by (let E := fresh in intros E; injection E as E || discriminate E; congruence). cbn [orb].
  change (strip_prefix "urn:fl:agent:" (String "@" key)) with (@None string). change (strip_prefix "urn:uuid:" (String "@" key)) with (@None string).
  change (strip_prefix "@area:" (String "@" key)) with (strip_prefix "area:" key). change (strip_prefix "@role:" (String "@" key)) with (strip_prefix "role:" key).
  change (strip_prefix "@" (String "@" key)) with (strip_prefix EmptyString key). rewrite !slug_no_prefix by done. cbn [is_some].
  assert (strip_prefix EmptyString key = Some key) as -> by (by destruct key). by rewrite Hs.
Qed.

Lemma parse_area rest : Forall (fun b => plain_byte b = true) (chars rest) → WireAddress_parse ("@area:" +:+ rest) =
  match split_once "/"%char rest with
  | Some (area_raw, role_raw) =>
      let? area := map_err (fun _ => InvalidAddress ("@area:" +:+ rest)) (validate_slug area_raw) in
      let? role := map_err (fun _ => InvalidAddress ("@area:" +:+ rest)) (parse_role_selector role_raw) in
      Ok (AreaRole area role)
  | None => let? area := map_err (fun _ => InvalidAddress ("@area:" +:+ rest)) (validate_slug rest) in Ok (Area area)
  end.
Proof.
  intros Hf. unfold WireAddress_parse. cbv zeta. rewrite (trim_plain ("@area:" +:+ rest)).
  2: { rewrite chars_app. apply Forall_app. split; [by repeat constructor|done]. }
  unfold eq_ignore_ascii_case, starts_with. rewrite lower_app. change (to_ascii_lowercase "@area:") with "@area:".
  rewrite strip_prefix_app. rewrite !str_app_cons. cbn [is_empty_str]. rewrite !bool_decide_eq_false_2 by (intros [=]). done.
Qed.

Lemma parse_role_address rest : Forall (fun b => plain_byte b = true) (chars rest) → WireAddress_parse ("@role:" +:+ rest) =
  let? role := map_err (fun _ => InvalidAddress ("@role:" +:+ rest)) (parse_role_selector rest) in Ok (Role role).
Proof.
  intros Hf. unfold WireAddress_parse. cbv zeta. rewrite (trim_plain ("@role:" +:+ rest)).
  2: { rewrite chars_app. apply Forall_app. split; [by repeat constructor|done]. }
  unfold eq_ignore_ascii_case, starts_with. rewrite lower_app. change (to_ascii_lowercase "@role:") with "@role:".
  rewrite strip_prefix_app. rewrite !str_app_cons. cbn [is_empty_str]. rewrite !bool_decide_eq_false_2 by (intros [=]). done.
Qed.

Lemma bad_ok {A} (e : StateError) (r : Result A StateError) x : map_err (fun _ => e) r = Ok x → r = Ok x.
Proof. by destruct r. Qed.

(** What a parsed address is made of *)
Definition address_wf (a : WireAddress) : Prop :=
  match a with
  | AgentName key | Area key => validate_slug key = Ok key
  | Group key => validate_slug key = Ok key ∧ key ≠ "all" ∧ key ≠ "council"
  | Role role => ∃ raw, parse_role_selector raw = Ok role
  | AreaRole area role => validate_slug area = Ok area ∧ ∃ raw, parse_role_selector raw = Ok role
  | ToAgentId _ | All | Council => True
  end.

Lemma parsed_wf raw a : WireAddress_parse raw = Ok a → address_wf a.
Proof.
  unfold WireAddress_parse. cbv zeta. set (t := trim raw). destruct (is_empty_str t); [done|].
  destruct (_ || _) eqn:Ea; [by intros [= <-]|]. destruct (eq_ignore_ascii_case t "@council") eqn:Ec; [by intros [= <-]|].
  destruct (strip_prefix "urn:fl:agent:" t).
  { intros (key&H%bad_ok&[= <-])%result_bind_ok. by eapply validate_slug_idem. }
  destruct (starts_with "urn:uuid:" t); [destruct (Iri_parse t); [by intros [= <-]|done]|].
  destruct (strip_prefix "@area:" t) as [rest|].
  { destruct (split_once _ rest) as [[x y]|].
    - intros (area&H%bad_ok&(role&Hr%bad_ok&[= <-])%result_bind_ok)%result_bind_ok. split; [by eapply validate_slug_idem|eauto].
    - intros (area&H%bad_ok&[= <-])%result_bind_ok. by eapply validate_slug_idem. }
  destruct (strip_prefix "@role:" t) as [rest|]; [intros (role&Hr%bad_ok&[= <-])%result_bind_ok; by exists rest|].
  destruct (strip_prefix "@" t) as [group|] eqn:Eg; [|intros (key&H%bad_ok&[= <-])%result_bind_ok; by eapply validate_slug_idem].
  intros (key&H%bad_ok&[= <-])%result_bind_ok. apply strip_prefix_spec in Eg. pose proof (validate_slug_ok _ _ H) as (->&_).
  apply orb_false_iff in Ea as [Ea _]. unfold eq_ignore_ascii_case in Ea, Ec. rewrite Eg, lower_app in Ea, Ec.
  apply bool_decide_eq_false in Ea, Ec. split_and!; [by eapply validate_slug_idem| |]; intros E; rewrite E in *; done.
Qed.

(** An address is read back as it was written, since messages are stored
    with the text of their address: whatever text was parsed, what it stands
    for prints to a text that parses to the same, but for an agent named by its
    own identifier, whose text is [iri.rs]'s, and for the persona [all], which
    only its [urn:fl:agent:] form can name. *)
Theorem address_roundtrip raw a : WireAddress_parse raw = Ok a → (∀ id, a ≠ ToAgentId id) → a ≠ AgentName "all" →
  WireAddress_parse (WireAddress_as_wire a) = Ok a.
Proof.
  intros Hw%parsed_wf Hid Hall. destruct a as [key|id| |slug|role|area role| |key]; cbn [WireAddress_as_wire address_wf] in *; [|by destruct (Hid id)|done| | | |done|].
  - apply parse_agent_name; [done|]. by intros ->.
  - pose proof (slug_facts _ _ Hw) as (_&Hf&_). rewrite parse_area by (by apply slug_plain).
    rewrite no_char_split by (by apply slug_no_char). by rewrite Hw.
  - destruct Hw as [t [Hc Hp]%role_selector_canonical]. rewrite parse_role_address by done. by rewrite Hc.
  - destruct Hw as [Ha [t [Hc Hp]%role_selector_canonical]]. pose proof (slug_facts _ _ Ha) as (_&Hf&_).
    rewrite parse_area.
    2: { rewrite !chars_app. apply Forall_app. split; [by apply slug_plain|]. apply Forall_app. split; [by repeat constructor|done]. }
    assert (split_once "/"%char (area +:+ "/" +:+ AgentRole_as_wire role) = Some (area, AgentRole_as_wire role)) as ->.
    { apply split_once_spec. split; [done|]. by apply slug_no_char. }
    by rewrite Ha, Hc.
  - destruct Hw as (Hs&H1&H2). by apply parse_group.
Qed.

(** The persona [all] reads back as everyone: the address that
    [urn:fl:agent:all] parses to is stored as [all], which parses to the broadcast. *)
Theorem persona_all_becomes_everyone :
  WireAddress_parse "urn:fl:agent:all" = Ok (AgentName "all") ∧ WireAddress_parse (WireAddress_as_wire (AgentName "all")) = Ok All.
Proof. by vm_compute. Qed.

Lemma address_roundtrip_witness :
  WireAddress_parse " @area:Core/UI_Developer " = Ok (AreaRole "core" UiDeveloper)
  ∧ WireAddress_parse (WireAddress_as_wire (AreaRole "core" UiDeveloper)) = Ok (AreaRole "core" UiDeveloper).
Proof.
  split; [by vm_compute|]. apply (address_roundtrip " @area:Core/UI_Developer "); [by vm_compute|done|done].
Defined.

Lemma receipt_merge_converges_witness :
  let r status name at_ acked := {| rp_message_id := "urn:m:1"; rp_recipient_id := "urn:a:1"; rp_recipient_name := name; rp_status := status;
    rp_attempts := 1; rp_updated_at := at_; rp_acked_at := acked |} in
  let a := r DsDelivered "urn:fl:agent:ferris" "2026-01-01T00:00:00.000Z" None in
  let b := r DsAcked "ferris" "2026-01-02T00:00:00.000Z" (Some "2026-01-02T00:00:00.000Z") in
  receipt_merge a b = receipt_merge b a ∧ rp_recipient_name (receipt_merge a b) = "ferris".
Proof.
  split; [|by vm_compute]. apply (receipt_merge_converges _ _ {| rp_message_id := "urn:m:1"; rp_recipient_id := "urn:a:1";
    rp_recipient_name := "x"; rp_status := DsPending; rp_attempts := 0; rp_updated_at := "2026-01-01T00:00:00.000Z"; rp_acked_at := None |}); try done;
    unfold receipt_wf; cbn; split; (done || by eexists || by intros [? [=]]).
Defined.
