(* ===== verification/Delivery.v ===== *)
(** * Delivery of a message to a peer ([wire_delivery.rs])

    A message to one recipient is prepared, armed, handed to a transport, and
    settled by what the transport answers. [transition] is the pure rule a store
    runs inside a transaction: it takes the rows it read and answers the rows to
    write. Bounds on the JSON of a summary and of a record, and SHA-256, come
    from other crates: the class [DeliveryCodec]. A record's [attempts[index]] is
    always in range, since each index is a found position or the last one. *)

From S2P Require Import Prelude RustStr Wire Model At Iri Verdict Finding Agent Ledger FlsBytes WireMsg.

Definition DELIVERY_SCHEMA_VERSION : N := 1.
Definition PEER_RENDERER_VERSION : string := "wire-peer-envelope-v1".

(** ** Data *)

Definition Digest := bytes.
Definition Revision := N.

Inductive Lane := Push | Hook.
Inductive Transport := Queue | Steer | Stdout.
Inductive Eligibility := ElEligible | ElPrepared | ElMutationArmed | ElSettled | ElHeld.
Inductive HoldReason :=
| HrDisabled | HrUnknownIdentity | HrAliasConflict | HrGenerationConflict | HrWrongHome | HrBudgetExhausted | HrCapacity | HrExpired
| HrUnsupportedVersion | HrUnsupportedBackend | HrLegacyUncertain | HrContinuityLost | HrCorrupt | HrUnconfirmed | HrEvidenceOverflow.
Inductive CapacityState := CsHeld | CsReleased | CsRetired.

Inductive DeliveryEvidence :=
| PreMutationRefused | DefinitiveNoMutation | MutationUnconfirmed | VendorQueued
| AppServerAccepted (thread turn : string) | HookEmissionCompleted.

Inductive IdentityResolution := Unresolved | Unique (recipient_id : AgentId) (binding_revision : Revision) | Conflict.

#[global] Instance Lane_eq_dec : EqDecision Lane. Proof. solve_decision. Defined.
#[global] Instance Transport_eq_dec : EqDecision Transport. Proof. solve_decision. Defined.
#[global] Instance Eligibility_eq_dec : EqDecision Eligibility. Proof. solve_decision. Defined.
#[global] Instance HoldReason_eq_dec : EqDecision HoldReason. Proof. solve_decision. Defined.
#[global] Instance CapacityState_eq_dec : EqDecision CapacityState. Proof. solve_decision. Defined.
#[global] Instance DeliveryEvidence_eq_dec : EqDecision DeliveryEvidence. Proof. solve_decision. Defined.
#[global] Instance IdentityResolution_eq_dec : EqDecision IdentityResolution. Proof. solve_decision. Defined.

Record DeliveryKey := { dk_original_id : MessageId; dk_recipient_id : AgentId }.

#[global] Instance DeliveryKey_eq_dec : EqDecision DeliveryKey. Proof. solve_decision. Defined.
#[global] Program Instance DeliveryKey_countable : Countable DeliveryKey :=
  inj_countable' (fun k => (dk_original_id k, dk_recipient_id k)) (fun p => {| dk_original_id := p.1; dk_recipient_id := p.2 |}) _.
Next Obligation. by intros []. Qed.

Record Binding := {
  bn_recipient_id : AgentId; bn_binding_revision : Revision; bn_authority_id : string; bn_local_epoch : N; bn_policy_hash : Digest }.

Record RoutePin := {
  ro_thread_id : string; ro_generation : N; ro_fingerprint : Digest; ro_executable : option string; ro_executable_digest : option Digest }.

Record LifetimeRegistration := {
  lr_id : Digest; lr_revision : Revision; lr_home : Digest; lr_boot : Digest; lr_instance : bytes; lr_worker : bytes;
  lr_connection : bytes; lr_emitter_scope : Digest }.

Record AttemptBinding := {
  ab_token : bytes; ab_daemon : bytes; ab_worker : bytes; ab_connection : bytes; ab_lane : Lane; ab_lifetime : LifetimeRegistration }.

Record FrozenPayload := {
  fz_renderer : string; fz_transport : Transport; fz_expected_turn : option string; fz_bytes : bytes; fz_digest : Digest }.

Record AcknowledgmentState := { ak_manual_at : option At; ak_legacy_unknown : bool }.

Record AttemptSummary := {
  am_binding : AttemptBinding; am_route : RoutePin; am_frozen : option FrozenPayload; am_prepared_at : At; am_armed_at : option At;
  am_evidence : option DeliveryEvidence; am_detail : string; am_capacity : CapacityState }.

#[global] Instance Binding_eq_dec : EqDecision Binding. Proof. solve_decision. Defined.
#[global] Instance RoutePin_eq_dec : EqDecision RoutePin. Proof. solve_decision. Defined.
#[global] Instance LifetimeRegistration_eq_dec : EqDecision LifetimeRegistration. Proof. solve_decision. Defined.
#[global] Instance AttemptBinding_eq_dec : EqDecision AttemptBinding. Proof. solve_decision. Defined.

Record DeliveryRecord := {
  dr_schema : N; dr_key : DeliveryKey; dr_generation : Digest; dr_binding : Binding; dr_revision : Revision; dr_eligibility : Eligibility;
  dr_prepares : N; dr_attempts : list AttemptSummary; dr_acknowledgment : AcknowledgmentState; dr_held : option HoldReason;
  dr_annotation : string }.

Record ActiveOwner := { ao_key : DeliveryKey; ao_attempt : AttemptBinding }.

#[global] Instance ActiveOwner_eq_dec : EqDecision ActiveOwner. Proof. solve_decision. Defined.

Record CapacityRetirementTarget := {
  ct_owner : ActiveOwner; ct_record_revision : Revision; ct_recipient_revision : Revision; ct_global_revision : Revision }.

Record RecipientControl := {
  rk_binding : Binding; rk_revision : Revision; rk_active : option ActiveOwner; rk_barrier : option DeliveryKey; rk_identity_conflict : bool }.

Record GlobalControl := { gl_revision : Revision; gl_active_attempts : N; gl_active_index : list ActiveOwner }.

Record Continuity := {
  cn_schema : N; cn_cutover : At; cn_policy_hash : Digest; cn_local_epoch : N; cn_enabled : bool; cn_intact : bool }.

Record IdReservation := { ir_original_id : MessageId; ir_generation : Digest }.

Record IdentityContext := { ic_registry : option AgentRecord; ic_selector : IdentityResolution; ic_receipt_alias : IdentityResolution }.

Record EvidenceView := {
  ev_lane : Lane; ev_route : RoutePin; ev_prepared_at : At; ev_armed_at : option At; ev_evidence : option DeliveryEvidence; ev_detail : string;
  ev_payload_digest : option Digest; ev_capacity : CapacityState }.

Record DeliveryView := {
  dv_key : DeliveryKey; dv_generation : Digest; dv_binding : Binding; dv_revision : Revision; dv_eligibility : Eligibility; dv_prepares : N;
  dv_attempts : list EvidenceView; dv_acknowledgment : AcknowledgmentState; dv_held : option HoldReason; dv_annotation : string;
  dv_barrier : option DeliveryKey }.

Record PrepareInput := {
  pi_key : DeliveryKey; pi_generation : Digest; pi_binding : Binding; pi_attempt : AttemptBinding; pi_route : RoutePin; pi_now : At }.
Record ArmInput := {
  ai_key : DeliveryKey; ai_revision : Revision; ai_attempt : AttemptBinding; ai_route : RoutePin; ai_frozen : FrozenPayload; ai_now : At }.
Record ReleaseInput := {
  ri_key : DeliveryKey; ri_revision : Revision; ri_attempt : AttemptBinding; ri_proof : DeliveryEvidence; ri_now : At }.
Record SettleInput := {
  st_key : DeliveryKey; st_revision : Revision; st_attempt : AttemptBinding; st_evidence : DeliveryEvidence; st_detail : string; st_now : At }.
Record ManualAckInput := { ma_key : DeliveryKey; ma_at : At }.

Record TransitionContext := {
  tc_key : DeliveryKey; tc_record : option DeliveryRecord; tc_reservation : option IdReservation; tc_recipient : RecipientControl;
  tc_global : GlobalControl; tc_continuity : Continuity; tc_message : option WireMessage; tc_receipt : option DeliveryReceipt;
  tc_identity : IdentityContext; tc_lifetime : option LifetimeRegistration }.

Inductive DeliveryResult :=
| RPrepared (record : DeliveryRecord) | RArmed (record : DeliveryRecord) | RApplied (view : DeliveryView) | RRefused (reason : HoldReason).

Record DeliveryDelta := {
  dd_record : option DeliveryRecord; dd_reservation : option IdReservation; dd_recipient : option RecipientControl;
  dd_global : option GlobalControl; dd_receipt : option DeliveryReceipt; dd_result : DeliveryResult }.

Inductive CapacityRetirementResult := CRetired (view : DeliveryView) | CAlreadyReleased (view : DeliveryView) | CUnproven | CStale.

Record CapacityRetirementDelta := {
  cd_record : option DeliveryRecord; cd_recipient : option RecipientControl; cd_global : option GlobalControl;
  cd_result : CapacityRetirementResult }.

Inductive DeliveryCommand :=
| Prepare (input : PrepareInput) | Arm (input : ArmInput) | Release (input : ReleaseInput) | Settle (input : SettleInput)
| ManualAck (input : ManualAckInput) | InvalidatePrepared (key : DeliveryKey) (revision : Revision) (now : At)
| Annotate (key : DeliveryKey) (text : string) | Close (key : DeliveryKey).

Definition command_key (c : DeliveryCommand) : DeliveryKey :=
  match c with
  | Prepare x => pi_key x | Arm x => ai_key x | Release x => ri_key x | Settle x => st_key x | ManualAck x => ma_key x
  | InvalidatePrepared key _ _ | Annotate key _ | Close key => key
  end.

(** ** Views and field writes *)

Definition record_view (r : DeliveryRecord) (recipient : RecipientControl) : DeliveryView := {|
  dv_key := dr_key r; dv_generation := dr_generation r; dv_binding := dr_binding r; dv_revision := dr_revision r;
  dv_eligibility := dr_eligibility r; dv_prepares := dr_prepares r;
  dv_attempts := map (fun a => {|
    ev_lane := ab_lane (am_binding a); ev_route := am_route a; ev_prepared_at := am_prepared_at a; ev_armed_at := am_armed_at a;
    ev_evidence := am_evidence a; ev_detail := am_detail a; ev_payload_digest := fz_digest <$> am_frozen a;
    ev_capacity := am_capacity a |}) (dr_attempts r);
  dv_acknowledgment := dr_acknowledgment r; dv_held := dr_held r; dv_annotation := dr_annotation r; dv_barrier := rk_barrier recipient |}.

Definition refused (reason : HoldReason) : DeliveryDelta := {|
  dd_record := None; dd_reservation := None; dd_recipient := None; dd_global := None; dd_receipt := None; dd_result := RRefused reason |}.

Definition bump (r : Revision) : Result Revision StoreError :=
  match checked_add64 r 1 with Some n => Ok n | None => Err (SBackend "delivery revision exhausted") end.

Definition dr_with (r : DeliveryRecord) (el : Eligibility) (held : option HoldReason) (attempts : list AttemptSummary) : DeliveryRecord := {|
  dr_schema := dr_schema r; dr_key := dr_key r; dr_generation := dr_generation r; dr_binding := dr_binding r; dr_revision := dr_revision r;
  dr_eligibility := el; dr_prepares := dr_prepares r; dr_attempts := attempts; dr_acknowledgment := dr_acknowledgment r; dr_held := held;
  dr_annotation := dr_annotation r |}.
Definition dr_state (r : DeliveryRecord) (el : Eligibility) (held : option HoldReason) : DeliveryRecord := dr_with r el held (dr_attempts r).
Definition dr_attempt (r : DeliveryRecord) (index : nat) (f : AttemptSummary → AttemptSummary) : DeliveryRecord :=
  dr_with r (dr_eligibility r) (dr_held r) (alter f index (dr_attempts r)).
Definition dr_noted (r : DeliveryRecord) (ack : AcknowledgmentState) (annotation : string) : DeliveryRecord := {|
  dr_schema := dr_schema r; dr_key := dr_key r; dr_generation := dr_generation r; dr_binding := dr_binding r; dr_revision := dr_revision r;
  dr_eligibility := dr_eligibility r; dr_prepares := dr_prepares r; dr_attempts := dr_attempts r; dr_acknowledgment := ack; dr_held := dr_held r;
  dr_annotation := annotation |}.
Definition dr_bump (r : DeliveryRecord) : Result DeliveryRecord StoreError :=
  let? revision := bump (dr_revision r) in
  Ok {| dr_schema := dr_schema r; dr_key := dr_key r; dr_generation := dr_generation r; dr_binding := dr_binding r; dr_revision := revision;
        dr_eligibility := dr_eligibility r; dr_prepares := dr_prepares r; dr_attempts := dr_attempts r;
        dr_acknowledgment := dr_acknowledgment r; dr_held := dr_held r; dr_annotation := dr_annotation r |}.

Definition am_with (a : AttemptSummary) (frozen : option FrozenPayload) (armed_at : option At) (evidence : option DeliveryEvidence)
  (detail : string) (capacity : CapacityState) : AttemptSummary := {|
  am_binding := am_binding a; am_route := am_route a; am_frozen := frozen; am_prepared_at := am_prepared_at a; am_armed_at := armed_at;
  am_evidence := evidence; am_detail := detail; am_capacity := capacity |}.
Definition am_unfreeze (a : AttemptSummary) : AttemptSummary := am_with a None (am_armed_at a) (am_evidence a) (am_detail a) (am_capacity a).
Definition am_hold (state : CapacityState) (a : AttemptSummary) : AttemptSummary :=
  am_with a (am_frozen a) (am_armed_at a) (am_evidence a) (am_detail a) state.

Definition rk_with (r : RecipientControl) (revision : Revision) (active : option ActiveOwner) (barrier : option DeliveryKey) : RecipientControl := {|
  rk_binding := rk_binding r; rk_revision := revision; rk_active := active; rk_barrier := barrier; rk_identity_conflict := rk_identity_conflict r |}.

(** ** Checks *)

Definition valid_global (g : GlobalControl) : bool :=
  (len (gl_active_index g) <=? 16)%N && (gl_active_attempts g =? len (gl_active_index g))%N
  && bool_decide (NoDup (map (fun o => dk_recipient_id (ao_key o)) (gl_active_index g))).

Definition count {A} (p : A → bool) (l : list A) : nat := length (List.filter p l).

Definition valid_record (r : DeliveryRecord) (key : DeliveryKey) : bool :=
  (dr_schema r =? DELIVERY_SCHEMA_VERSION)%N && (dr_key r == key) && (bn_recipient_id (dr_binding r) == dk_recipient_id key)
  && (length (dr_attempts r) <=? 3)%nat && (dr_prepares r =? len (dr_attempts r))%N
  && (negb (dr_eligibility r == ElPrepared)
      || is_some_and (last (dr_attempts r)) (fun a =>
           is_none (am_armed_at a) && is_none (am_frozen a) && is_none (am_evidence a) && (am_capacity a == CsHeld)))
  && (count (fun a => is_some (am_frozen a)) (dr_attempts r) <=? 1)%nat
  && (count (fun a => am_capacity a == CsHeld) (dr_attempts r) <=? 1)%nat.

Definition exact_lifetime (attempt : AttemptBinding) (admitted : option LifetimeRegistration) : bool :=
  (admitted == Some (ab_lifetime attempt)) && (ab_daemon attempt == lr_instance (ab_lifetime attempt))
  && (ab_worker attempt == lr_worker (ab_lifetime attempt)) && (ab_connection attempt == lr_connection (ab_lifetime attempt)).

Definition identity_reason (ctx : TransitionContext) : option HoldReason :=
  let id := tc_identity ctx in
  let expected := Unique (dk_recipient_id (tc_key ctx)) (bn_binding_revision (rk_binding (tc_recipient ctx))) in
  if rk_identity_conflict (tc_recipient ctx) then Some HrAliasConflict
  else if (ic_selector id == Conflict) || (ic_receipt_alias id == Conflict) then Some HrAliasConflict
  else if (ic_selector id != expected) || (ic_receipt_alias id != expected)
          || is_none_or (ic_registry id) (fun a => (ag_id a != dk_recipient_id (tc_key ctx)) || (ag_status a != Active))
  then Some HrUnknownIdentity
  else None.

(** What comes from [serde_json] (the length of a row, or its error) and from [sha2] *)
Class DeliveryCodec := {
  summary_json : AttemptSummary → Result N string;
  record_json : DeliveryRecord → Result N string;
  sha256 : bytes → Digest;
}.

Section Rules.
Context `{DeliveryCodec}.

Definition canonical_generation (m : WireMessage) : Result Digest StoreError := let? b := generation_bytes m in Ok (sha256 b).
Definition canonical_payload (generation : Digest) (renderer : string) (b : bytes) : Result Digest StoreError :=
  let? out := payload_bytes generation renderer b in Ok (sha256 out).

Definition selector_bounded (to : WireAddress) : bool :=
  let short s := (str_len s <=? 4096)%N in
  match to with
  | AgentName name | Area name | Group name => short name
  | ToAgentId id => short id
  | Role role => short (AgentRole_as_wire role)
  | AreaRole area role => short area && short (AgentRole_as_wire role)
  | All | Council => true
  end.

Definition immutable_reason (ctx : TransitionContext) (generation : Digest) (now : At) : Result (option HoldReason) StoreError :=
  let cont := tc_continuity ctx in
  let binding := rk_binding (tc_recipient ctx) in
  let key := tc_key ctx in
  let too_long s := (4096 <? str_len s)%N in
  if negb (cn_intact cont) then Ok (Some HrContinuityLost)
  else if negb (cn_schema cont =? DELIVERY_SCHEMA_VERSION)%N then Ok (Some HrUnsupportedVersion)
  else if negb (cn_enabled cont) then Ok (Some HrDisabled)
  else if (bn_authority_id binding != "ai-lab-0") || negb (bn_local_epoch binding =? cn_local_epoch cont)%N
          || (bn_policy_hash binding != cn_policy_hash cont)
  then Ok (Some HrWrongHome)
  else
    match identity_reason ctx with
    | Some reason => Ok (Some reason)
    | None =>
        match tc_message ctx, tc_receipt ctx with
        | Some message, Some receipt =>
            if (wm_id message != dk_original_id key) || (rp_message_id receipt != dk_original_id key)
               || (rp_recipient_id receipt != dk_recipient_id key)
            then Ok (Some HrCorrupt)
            else if negb (selector_bounded (wm_to message))
               || existsb too_long (omap id [Some (wm_id message); Some (wm_thread_id message); wm_reply_to message; wm_correlation_id message;
                                             wm_sender_id message; Some (dk_recipient_id key); Some (rp_recipient_name receipt)])
            then Ok (Some HrEvidenceOverflow)
            else
              let? found := canonical_generation message in
              if (found != generation)
                 || is_some_and (tc_reservation ctx) (fun r => (ir_original_id r != dk_original_id key) || (ir_generation r != generation))
              then Ok (Some HrGenerationConflict)
              else if str_leb (wm_created_at message) (cn_cutover cont) then Ok (Some HrLegacyUncertain)
              else if is_some_and (wm_deadline_at message) (fun d => str_leb d now) || (rp_status receipt == DsExpired) then Ok (Some HrExpired)
              else if (512 <? str_len (wm_subject message))%N || (262144 <? str_len (wm_body message))%N || too_long (wm_sender_name message)
                      || is_some_and (wm_sender_host message) too_long
              then Ok (Some HrEvidenceOverflow)
              else if rp_status receipt != DsPending then Ok (Some HrLegacyUncertain)
              else Ok None
        | _, _ => Ok (Some HrCorrupt)
        end
    end.

(** [summary_reservation]: the largest an attempt can become *)
Definition summary_reservation (a : AttemptSummary) : AttemptSummary :=
  let frozen := (fun f => {| fz_renderer := fz_renderer f; fz_transport := fz_transport f; fz_expected_turn := fz_expected_turn f; fz_bytes := [];
                             fz_digest := fz_digest f |}) <$> am_frozen a in
  let evidence :=
    match frozen with
    | Some f =>
        if fz_transport f == Steer then AppServerAccepted (ro_thread_id (am_route a)) (unwrap_or (fz_expected_turn f) EmptyString)
        else MutationUnconfirmed
    | None => MutationUnconfirmed
    end in
  am_with a frozen (am_armed_at a) (Some evidence) (str (replicate 300 (ascii_of_N 0))) (am_capacity a).

Definition bounded_summary (a : AttemptSummary) : Result bool StoreError :=
  let? n := map_err SBackend (summary_json (summary_reservation a)) in
  Ok ((n <=? 8192)%N && (str_len (ro_thread_id (am_route a)) <=? 4096)%N
      && is_none_or (ro_executable (am_route a)) (fun s => (str_len s <=? 4096)%N)).

Definition bounded_record (r : DeliveryRecord) : Result bool StoreError :=
  let? n := map_err SBackend (record_json (dr_with r (dr_eligibility r) (dr_held r) (map summary_reservation (dr_attempts r)))) in
  Ok (n <=? 32768 - 1024)%N.

(** ** What a command does to the rows it read *)

(** The rows, and which of them changed *)
Record Work := {
  wk_record : DeliveryRecord; wk_recipient : RecipientControl; wk_global : GlobalControl;
  wk_capacity_changed : bool; wk_recipient_changed : bool; wk_receipt : option DeliveryReceipt }.

Definition wk_with (w : Work) (record : DeliveryRecord) : Work := {|
  wk_record := record; wk_recipient := wk_recipient w; wk_global := wk_global w; wk_capacity_changed := wk_capacity_changed w;
  wk_recipient_changed := wk_recipient_changed w; wk_receipt := wk_receipt w |}.
Definition wk_projected (w : Work) (receipt : option DeliveryReceipt) : Work := {|
  wk_record := wk_record w; wk_recipient := wk_recipient w; wk_global := wk_global w; wk_capacity_changed := wk_capacity_changed w;
  wk_recipient_changed := wk_recipient_changed w; wk_receipt := receipt |}.

(** [release_capacity], and the two flags its callers set from its answer *)
Definition release_capacity (w : Work) (index : nat) (state : CapacityState) : Result Work StoreError :=
  let record := wk_record w in
  let recipient := wk_recipient w in
  let global := wk_global w in
  match dr_attempts record !! index with
  | None => Ok w
  | Some a =>
      if am_capacity a != CsHeld then Ok {|
        wk_record := record; wk_recipient := recipient; wk_global := global; wk_capacity_changed := false; wk_recipient_changed := false;
        wk_receipt := wk_receipt w |}
      else
        let owner := {| ao_key := dr_key record; ao_attempt := am_binding a |} in
        if (rk_active recipient != Some owner) || negb (contains (gl_active_index global) owner) || negb (valid_global global)
        then Err (SBackend "delivery capacity ownership is corrupt")
        else
          let? recipient_revision := bump (rk_revision recipient) in
          let? global_revision := bump (gl_revision global) in
          Ok {| wk_record := dr_attempt record index (am_hold state);
                wk_recipient := rk_with recipient recipient_revision None (rk_barrier recipient);
                wk_global := {| gl_revision := global_revision; gl_active_attempts := (gl_active_attempts global - 1)%N;
                                gl_active_index := List.filter (fun o => negb (o == owner)) (gl_active_index global) |};
                wk_capacity_changed := true; wk_recipient_changed := true; wk_receipt := wk_receipt w |}
  end.

(** The recipient's barrier is set to a new value; its revision moves once. *)
Definition move_barrier (w : Work) (barrier : option DeliveryKey) : Result Work StoreError :=
  let recipient := wk_recipient w in
  let? revision := if wk_recipient_changed w then Ok (rk_revision recipient) else bump (rk_revision recipient) in
  Ok {| wk_record := wk_record w; wk_recipient := rk_with recipient revision (rk_active recipient) barrier; wk_global := wk_global w;
        wk_capacity_changed := wk_capacity_changed w; wk_recipient_changed := true; wk_receipt := wk_receipt w |}.

Definition raise_barrier (w : Work) : Result Work StoreError :=
  if rk_barrier (wk_recipient w) != Some (dr_key (wk_record w)) then move_barrier w (Some (dr_key (wk_record w))) else Ok w.
Definition lower_barrier (w : Work) : Result Work StoreError :=
  if rk_barrier (wk_recipient w) == Some (dr_key (wk_record w)) then move_barrier w None else Ok w.

Definition applied (w : Work) : DeliveryDelta := {|
  dd_record := Some (wk_record w); dd_reservation := None;
  dd_recipient := if wk_recipient_changed w then Some (wk_recipient w) else None;
  dd_global := if wk_capacity_changed w then Some (wk_global w) else None;
  dd_receipt := wk_receipt w; dd_result := RApplied (record_view (wk_record w) (wk_recipient w)) |}.

(** The tail that every command but two shares *)
Definition conclude (w : Work) : Result DeliveryDelta StoreError := let? r := dr_bump (wk_record w) in Ok (applied (wk_with w r)).

(** Nothing changes, and the record is shown as it is. *)
Definition unchanged (w : Work) : DeliveryDelta := {|
  dd_record := None; dd_reservation := None; dd_recipient := None; dd_global := None; dd_receipt := None;
  dd_result := RApplied (record_view (wk_record w) (wk_recipient w)) |}.

Definition last_index (r : DeliveryRecord) : option nat :=
  match dr_attempts r with [] => None | l => Some (length l - 1) end.

Definition position {A} (p : A → bool) (l : list A) : option nat :=
  (fix go (l : list A) (i : nat) := match l with [] => None | a :: l' => if p a then Some i else go l' (S i) end) l 0.

(** A try is left, or the budget is spent. *)
Definition reopened (r : DeliveryRecord) : DeliveryRecord :=
  dr_state r (if (dr_prepares r <? 3)%N then ElEligible else ElHeld) (if (dr_prepares r <? 3)%N then None else Some HrBudgetExhausted).

Definition new_summary (input : PrepareInput) : AttemptSummary := {|
  am_binding := pi_attempt input; am_route := pi_route input; am_frozen := None; am_prepared_at := pi_now input; am_armed_at := None;
  am_evidence := None; am_detail := EmptyString; am_capacity := CsHeld |}.

Definition new_record (key : DeliveryKey) (input : PrepareInput) : DeliveryRecord := {|
  dr_schema := DELIVERY_SCHEMA_VERSION; dr_key := key; dr_generation := pi_generation input; dr_binding := pi_binding input; dr_revision := 0%N;
  dr_eligibility := ElEligible; dr_prepares := 0%N; dr_attempts := []; dr_acknowledgment := {| ak_manual_at := None; ak_legacy_unknown := false |};
  dr_held := None; dr_annotation := EmptyString |}.

(** The record with one more attempt *)
Definition with_attempt (r : DeliveryRecord) (a : AttemptSummary) : DeliveryRecord := {|
  dr_schema := dr_schema r; dr_key := dr_key r; dr_generation := dr_generation r; dr_binding := dr_binding r; dr_revision := dr_revision r;
  dr_eligibility := ElPrepared; dr_prepares := (dr_prepares r + 1)%N; dr_attempts := map am_unfreeze (dr_attempts r) ++ [a];
  dr_acknowledgment := dr_acknowledgment r; dr_held := None; dr_annotation := dr_annotation r |}.

Definition prepare (ctx : TransitionContext) (input : PrepareInput) : Result DeliveryDelta StoreError :=
  let refuse r := Ok (refused r) in
  let record := tc_record ctx in
  if is_some record && is_none (tc_reservation ctx) then refuse HrCorrupt
  else if is_some_and record (fun r => (3 <=? dr_prepares r)%N) then
    match record with
    | Some r =>
        if dr_eligibility r == ElEligible then
          let? r := dr_bump (dr_state r ElHeld (Some HrBudgetExhausted)) in
          Ok {| dd_record := Some r; dd_reservation := None; dd_recipient := None; dd_global := None; dd_receipt := None;
                dd_result := RRefused HrBudgetExhausted |}
        else refuse HrBudgetExhausted
    | None => refuse HrBudgetExhausted
    end
  else if is_some_and record (fun r => (dr_eligibility r != ElEligible) || is_some (ak_manual_at (dr_acknowledgment r))
                                       || ak_legacy_unknown (dr_acknowledgment r))
  then refuse HrUnconfirmed
  else if is_some_and record (fun r => existsb (fun a => is_some (am_armed_at a)
            && ((am_evidence a != Some DefinitiveNoMutation) || (am_capacity a != CsReleased))) (dr_attempts r))
  then refuse HrCorrupt
  else
    let? reason := immutable_reason ctx (pi_generation input) (pi_now input) in
    match reason with
    | Some reason => refuse reason
    | None =>
        if (pi_binding input != rk_binding (tc_recipient ctx))
           || is_some_and record (fun r => (dr_generation r != pi_generation input) || (dr_binding r != pi_binding input))
        then refuse HrGenerationConflict
        else if negb (exact_lifetime (pi_attempt input) (tc_lifetime ctx)) then refuse HrUnsupportedBackend
        else if is_some (rk_barrier (tc_recipient ctx)) then refuse HrUnconfirmed
        else if (16 <=? gl_active_attempts (tc_global ctx))%N || is_some (rk_active (tc_recipient ctx)) then refuse HrCapacity
        else
          let summary := new_summary input in
          let long := is_empty_str (ro_thread_id (am_route summary)) || (4096 <? str_len (bn_authority_id (pi_binding input)))%N in
          let? ok := if long then Ok false else bounded_summary summary in
          if negb ok then refuse HrEvidenceOverflow
          else
            let r := unwrap_or record (new_record (tc_key ctx) input) in
            if existsb (fun a => ab_token (am_binding a) == ab_token (pi_attempt input)) (dr_attempts r) then refuse HrCorrupt
            else
              let? r := dr_bump (with_attempt r summary) in
              let? fits := bounded_record r in
              if negb fits then refuse HrEvidenceOverflow
              else
                let owner := {| ao_key := tc_key ctx; ao_attempt := pi_attempt input |} in
                let? recipient_revision := bump (rk_revision (tc_recipient ctx)) in
                let? global_revision := bump (gl_revision (tc_global ctx)) in
                Ok {| dd_record := Some r;
                      dd_reservation := Some {| ir_original_id := dk_original_id (tc_key ctx); ir_generation := pi_generation input |};
                      dd_recipient := Some (rk_with (tc_recipient ctx) recipient_revision (Some owner) (rk_barrier (tc_recipient ctx)));
                      dd_global := Some {| gl_revision := global_revision; gl_active_attempts := (gl_active_attempts (tc_global ctx) + 1)%N;
                                           gl_active_index := gl_active_index (tc_global ctx) ++ [owner] |};
                      dd_receipt := None; dd_result := RPrepared r |}
    end.

(** [frozen] within its bounds, and on the transport of its lane *)
Definition frozen_bounded (lane : Lane) (f : FrozenPayload) : bool :=
  (len (fz_bytes f) <=? 1048576 + 14)%N && is_none_or (fz_expected_turn f) (fun s => (str_len s <=? 4096)%N)
  && Bool.eqb (lane == Hook) (fz_transport f == Stdout)
  && negb ((fz_transport f == Steer) && is_none_or (fz_expected_turn f) is_empty_str).

Definition arm_attempt (f : FrozenPayload) (now : At) (a : AttemptSummary) : AttemptSummary :=
  am_with a (Some f) (Some now) (am_evidence a) (am_detail a) (am_capacity a).

Definition arm (ctx : TransitionContext) (w : Work) (input : ArmInput) : Result DeliveryDelta StoreError :=
  let refuse r := Ok (refused r) in
  let record := wk_record w in
  let recipient := wk_recipient w in
  if negb (dr_revision record =? ai_revision input)%N || (dr_eligibility record != ElPrepared) then refuse HrCorrupt
  else
    match last_index record, last (dr_attempts record) with
    | Some index, Some attempt =>
        if is_some (am_armed_at attempt) || is_some (am_frozen attempt) || is_some (am_evidence attempt) || (am_capacity attempt != CsHeld)
        then refuse HrCorrupt
        else if (am_binding attempt != ai_attempt input) || (am_route attempt != ai_route input)
                || negb (exact_lifetime (ai_attempt input) (tc_lifetime ctx))
        then refuse HrCorrupt
        else if str_ltb (ai_now input) (am_prepared_at attempt)
                || (20000 <=? unix_millis (ai_now input) - unix_millis (am_prepared_at attempt))%N
        then refuse HrExpired
        else
          let? reason := immutable_reason ctx (dr_generation record) (ai_now input) in
          match reason with
          | Some reason => refuse reason
          | None =>
              let owner := {| ao_key := dr_key record; ao_attempt := ai_attempt input |} in
              let frozen := ai_frozen input in
              if (dr_binding record != rk_binding recipient) || is_some (rk_barrier recipient) then refuse HrGenerationConflict
              else if (rk_active recipient != Some owner) || negb (contains (gl_active_index (wk_global w)) owner) then refuse HrCorrupt
              else if fz_renderer frozen != PEER_RENDERER_VERSION then refuse HrUnsupportedVersion
              else if negb (frozen_bounded (ab_lane (ai_attempt input)) frozen) then refuse HrEvidenceOverflow
              else
                let? digest := canonical_payload (dr_generation record) (fz_renderer frozen) (fz_bytes frozen) in
                if digest != fz_digest frozen then refuse HrGenerationConflict
                else
                  let r := dr_state (dr_attempt record index (arm_attempt frozen (ai_now input))) ElMutationArmed (dr_held record) in
                  let? small := bounded_summary (arm_attempt frozen (ai_now input) attempt) in
                  let? fits := if small then bounded_record r else Ok false in
                  if negb fits then refuse HrEvidenceOverflow
                  else
                    let? recipient_revision := bump (rk_revision recipient) in
                    let? r := dr_bump r in
                    Ok {| dd_record := Some r; dd_reservation := None;
                          dd_recipient := Some (rk_with recipient recipient_revision (rk_active recipient) (Some (dr_key r)));
                          dd_global := None; dd_receipt := None; dd_result := RArmed r |}
          end
    | _, _ => refuse HrCorrupt
    end.

Definition release (w : Work) (input : ReleaseInput) : Result DeliveryDelta StoreError :=
  let refuse r := Ok (refused r) in
  let record := wk_record w in
  if negb (dr_revision record =? ri_revision input)%N then refuse HrCorrupt
  else
    match position (fun a => am_binding a == ri_attempt input) (dr_attempts record) with
    | None => refuse HrCorrupt
    | Some index =>
        match dr_attempts record !! index with
        | None => refuse HrCorrupt
        | Some a =>
            if negb (S index =? length (dr_attempts record))%nat
               || negb ((dr_eligibility record == ElPrepared) || (dr_eligibility record == ElMutationArmed))
               || negb ((ri_proof input == PreMutationRefused) || (ri_proof input == DefinitiveNoMutation))
               || (am_capacity a == CsRetired)
               || (is_some (am_armed_at a) && (ri_proof input != DefinitiveNoMutation))
            then refuse HrUnconfirmed
            else
              let proven a := am_with a None (am_armed_at a) (Some (ri_proof input)) (am_detail a) (am_capacity a) in
              let? w := release_capacity (wk_with w (dr_attempt record index proven)) index CsReleased in
              let? w := lower_barrier w in
              conclude (wk_with w (reopened (wk_record w)))
        end
    end.

(** [chars().take(n)] of valid UTF-8 *)
Fixpoint take_chars (n : nat) (l : list ascii) : list ascii :=
  match l with
  | [] => []
  | c :: l' =>
      if in_range 128 191 c then c :: take_chars n l'
      else match n with O => [] | S n' => c :: take_chars n' l' end
  end.

(** Whether the evidence can come from the transport that was used *)
Definition evidence_fits (a : AttemptSummary) (e : DeliveryEvidence) : bool :=
  match e, am_frozen a with
  | VendorQueued, Some f => fz_transport f == Queue
  | HookEmissionCompleted, Some f => fz_transport f == Stdout
  | AppServerAccepted thread turn, Some f =>
      (fz_transport f == Steer) && (thread == ro_thread_id (am_route a)) && (fz_expected_turn f == Some turn)
  | (MutationUnconfirmed | DefinitiveNoMutation), _ => true
  | _, _ => false
  end.

Definition evidence_long (e : DeliveryEvidence) : bool :=
  match e with AppServerAccepted thread turn => (4096 <? str_len thread)%N || (4096 <? str_len turn)%N | _ => false end.

(** The message was handed on. *)
Definition handed_on (e : DeliveryEvidence) : bool :=
  match e with VendorQueued | AppServerAccepted _ _ | HookEmissionCompleted => true | _ => false end.

Definition delivered_receipt (r : DeliveryReceipt) (prepares : N) (now : At) : DeliveryReceipt := {|
  rp_message_id := rp_message_id r; rp_recipient_id := rp_recipient_id r; rp_recipient_name := rp_recipient_name r;
  rp_status := if rp_status r == DsPending then DsDelivered else rp_status r; rp_attempts := N.max (rp_attempts r) prepares;
  rp_updated_at := str_max (rp_updated_at r) now; rp_acked_at := rp_acked_at r |}.

(** A second, different answer for an attempt: the whole key is fenced. *)
Definition contradict (w : Work) : Result Work StoreError :=
  let record := wk_record w in
  let? w :=
    match last_index record, last (dr_attempts record) with
    | Some current, Some a => if is_none (am_armed_at a) then release_capacity w current CsReleased else Ok w
    | _, _ => Ok w
    end in
  raise_barrier (wk_with w (dr_state (wk_record w) ElHeld (Some HrUnconfirmed))).

(** The first answer for an attempt *)
Definition first_answer (w : Work) (index : nat) (a : AttemptSummary) (input : SettleInput) (detail : string) : Result Work StoreError :=
  let record := wk_record w in
  let evidence := st_evidence input in
  let retired := am_capacity a == CsRetired in
  let uncertainty_fenced :=
    (dr_eligibility record == ElHeld) && ((dr_held record == Some HrUnconfirmed) || (dr_held record == Some HrEvidenceOverflow)) in
  let overflow := (300 <? char_count (st_detail input))%N || evidence_long evidence in
  let answered a := am_with a (am_frozen a) (am_armed_at a) (Some evidence) detail (am_capacity a) in
  let? w := release_capacity (wk_with w (dr_attempt record index answered)) index CsReleased in
  if retired || uncertainty_fenced then Ok w
  else if (evidence == MutationUnconfirmed) || overflow then
    raise_barrier (wk_with w (dr_state (wk_record w) ElHeld (Some (if overflow then HrEvidenceOverflow else HrUnconfirmed))))
  else
    let? w := lower_barrier w in
    let r := wk_record w in
    if evidence == DefinitiveNoMutation then
      let again := (dr_prepares r <? 3)%N && is_none (ak_manual_at (dr_acknowledgment r)) && negb (ak_legacy_unknown (dr_acknowledgment r)) in
      Ok (wk_with w (dr_state (dr_attempt r index am_unfreeze) (if again then ElEligible else ElHeld)
                       (if (3 <=? dr_prepares r)%N then Some HrBudgetExhausted else None)))
    else Ok (wk_with w (dr_state r ElSettled None)).

Definition settle (ctx : TransitionContext) (w : Work) (input : SettleInput) : Result DeliveryDelta StoreError :=
  let refuse r := Ok (refused r) in
  let record := wk_record w in
  match position (fun a => am_binding a == st_attempt input) (dr_attempts record) with
  | None => refuse HrCorrupt
  | Some index =>
      match dr_attempts record !! index with
      | None => refuse HrCorrupt
      | Some a =>
          let detail := str (take_chars 300 (chars (st_detail input))) in
          if is_none (am_armed_at a) || (st_evidence input == PreMutationRefused) then refuse HrUnconfirmed
          else if (am_evidence a == Some (st_evidence input)) && (am_detail a == detail) then Ok (unchanged w)
          else if negb (dr_revision record =? st_revision input)%N then refuse HrCorrupt
          else if is_some (am_evidence a) then let? w := contradict w in conclude w
          else if negb (evidence_fits a (st_evidence input)) then refuse HrUnconfirmed
          else
            let? w := first_answer w index a input detail in
            conclude
              (match tc_receipt ctx with
               | Some r =>
                   if handed_on (st_evidence input) then wk_projected w (Some (delivered_receipt r (dr_prepares (wk_record w)) (st_now input)))
                   else w
               | None => w
               end)
      end
  end.

(** A prepared attempt gives its slot back. *)
Definition release_prepared (w : Work) : Result Work StoreError :=
  match last_index (wk_record w) with Some index => release_capacity w index CsReleased | None => Ok w end.

Definition acked_receipt (r : DeliveryReceipt) (at_ : At) : DeliveryReceipt := {|
  rp_message_id := rp_message_id r; rp_recipient_id := rp_recipient_id r; rp_recipient_name := rp_recipient_name r; rp_status := DsAcked;
  rp_attempts := rp_attempts r; rp_updated_at := str_max (rp_updated_at r) at_; rp_acked_at := option_or (rp_acked_at r) (Some at_) |}.

Definition manual_ack (ctx : TransitionContext) (w : Work) (input : ManualAckInput) : Result DeliveryDelta StoreError :=
  let record := wk_record w in
  if is_some (ak_manual_at (dr_acknowledgment record)) then Ok (unchanged w)
  else
    let ack := {| ak_manual_at := Some (ma_at input); ak_legacy_unknown := ak_legacy_unknown (dr_acknowledgment record) |} in
    let w := wk_with w (dr_noted record ack (dr_annotation record)) in
    if (dr_eligibility record == ElPrepared) && is_none (last_index record) then Ok (refused HrCorrupt)
    else
      let? w :=
        if dr_eligibility record == ElPrepared
        then let? w := release_prepared w in Ok (wk_with w (dr_state (wk_record w) ElHeld (dr_held (wk_record w))))
        else Ok w in
      conclude (match tc_receipt ctx with Some r => wk_projected w (Some (acked_receipt r (ma_at input))) | None => w end).

Definition invalidate_prepared (w : Work) (revision : Revision) : Result DeliveryDelta StoreError :=
  let record := wk_record w in
  if negb (dr_revision record =? revision)%N || (dr_eligibility record != ElPrepared) then Ok (refused HrCorrupt)
  else if is_none (last_index record) then Ok (refused HrCorrupt)
  else let? w := release_prepared w in conclude (wk_with w (reopened (wk_record w))).

Definition annotate (w : Work) (text : string) : Result DeliveryDelta StoreError :=
  let record := wk_record w in
  let longer := dr_noted record (dr_acknowledgment record) (dr_annotation record +:+ text) in
  let? overflow :=
    if (4096 <? sat_add64 (str_len (dr_annotation record)) (str_len text))%N then Ok true
    else let? ok := bounded_record longer in Ok (negb ok) in
  if negb overflow then conclude (wk_with w longer)
  else if (dr_eligibility record == ElPrepared) && is_none (last_index record) then Ok (refused HrCorrupt)
  else
    let held := if dr_held record == Some HrUnconfirmed then dr_held record else Some HrEvidenceOverflow in
    let? w := if dr_eligibility record == ElPrepared then release_prepared w else Ok w in
    conclude (wk_with w (dr_state (wk_record w) ElHeld held)).

Definition close (w : Work) : Result DeliveryDelta StoreError :=
  let record := wk_record w in
  if (dr_eligibility record == ElPrepared) && is_none (last_index record) then Ok (refused HrCorrupt)
  else
    let? w := if dr_eligibility record == ElPrepared then release_prepared w else Ok w in
    conclude (wk_with w (dr_state (wk_record w) ElHeld (option_or (dr_held record) (Some HrDisabled)))).

Definition context_ok (ctx : TransitionContext) (c : DeliveryCommand) : bool :=
  let owners := List.filter (fun o => dk_recipient_id (ao_key o) == dk_recipient_id (tc_key ctx)) (gl_active_index (tc_global ctx)) in
  let capacity_consistent := match rk_active (tc_recipient ctx) with Some owner => owners == [owner] | None => owners == [] end in
  (command_key c == tc_key ctx) && (bn_recipient_id (rk_binding (tc_recipient ctx)) == dk_recipient_id (tc_key ctx)) && capacity_consistent
  && is_none_or (tc_record ctx) (fun r => valid_record r (tc_key ctx))
  && is_none_or (tc_message ctx) (fun m => wm_id m == dk_original_id (tc_key ctx))
  && is_none_or (tc_receipt ctx) (fun r => (rp_message_id r == dk_original_id (tc_key ctx)) && (rp_recipient_id r == dk_recipient_id (tc_key ctx))).

(** [transition] *)
Definition transition (ctx : TransitionContext) (c : DeliveryCommand) : Result DeliveryDelta StoreError :=
  if negb (valid_global (tc_global ctx)) then Ok (refused HrCorrupt)
  else if negb (context_ok ctx c) then Ok (refused HrCorrupt)
  else
    match c with
    | Prepare input => prepare ctx input
    | _ =>
        match tc_record ctx with
        | None => Ok (refused HrCorrupt)
        | Some record =>
            if is_none_or (tc_reservation ctx) (fun r => (ir_original_id r != dk_original_id (dr_key record)) || (ir_generation r != dr_generation record))
            then Ok (refused HrCorrupt)
            else
              let w := {| wk_record := record; wk_recipient := tc_recipient ctx; wk_global := tc_global ctx; wk_capacity_changed := false;
                          wk_recipient_changed := false; wk_receipt := None |} in
              match c with
              | Prepare _ => Ok (refused HrCorrupt)
              | Arm input => arm ctx w input
              | Release input => release w input
              | Settle input => settle ctx w input
              | ManualAck input => manual_ack ctx w input
              | InvalidatePrepared _ revision _ => invalidate_prepared w revision
              | Annotate _ text => annotate w text
              | Close _ => close w
              end
        end
    end.

(** [transition_capacity_retirement] *)
Definition transition_capacity_retirement (ctx : TransitionContext) (target : CapacityRetirementTarget)
  : Result CapacityRetirementDelta StoreError :=
  let same result := Ok {| cd_record := None; cd_recipient := None; cd_global := None; cd_result := result |} in
  let owner := ct_owner target in
  match tc_record ctx with
  | None => same CStale
  | Some record =>
      if (tc_key ctx != ao_key owner) || negb (valid_record record (tc_key ctx)) || negb (valid_global (tc_global ctx)) then same CStale
      else
        match position (fun a => am_binding a == ao_attempt owner) (dr_attempts record) with
        | None => same CStale
        | Some index =>
            match dr_attempts record !! index with
            | None => same CStale
            | Some a =>
                if am_capacity a != CsHeld then same (CAlreadyReleased (record_view record (tc_recipient ctx)))
                else if is_none (am_armed_at a) || negb (dr_revision record =? ct_record_revision target)%N
                        || negb (rk_revision (tc_recipient ctx) =? ct_recipient_revision target)%N
                        || negb (gl_revision (tc_global ctx) =? ct_global_revision target)%N
                        || (rk_active (tc_recipient ctx) != Some owner) || negb (contains (gl_active_index (tc_global ctx)) owner)
                then same CStale
                else
                  let w := {| wk_record := record; wk_recipient := tc_recipient ctx; wk_global := tc_global ctx; wk_capacity_changed := false;
                              wk_recipient_changed := false; wk_receipt := None |} in
                  let? w := release_capacity w index CsRetired in
                  let? r := dr_bump (wk_record w) in
                  Ok {| cd_record := Some r; cd_recipient := Some (wk_recipient w); cd_global := Some (wk_global w);
                        cd_result := CRetired (record_view r (wk_recipient w)) |}
            end
        end
  end.
End Rules.
