(* ===== verification/DeliveryWorld.v ===== *)
(** * A store of deliveries ([mem.rs]) and what no history of commands can break

    The rows of [MemStore]'s managed deliveries, and its operations in the build
    that has lifetime admissions; without them preparing and arming are refused.
    Messages, agents, identities, continuity and admissions are written by
    others: every step of a history reads them as it likes. The log of receipts
    is left out. *)

From S2P Require Import Prelude RustStr Wire Model At Iri Verdict Finding Agent Ledger FlsBytes WireMsg Delivery.

(** ** The store *)

Record Managed := {
  mm_records : gmap DeliveryKey DeliveryRecord; mm_reservations : gmap MessageId IdReservation;
  mm_recipients : gmap AgentId RecipientControl; mm_global : option GlobalControl; mm_inbox : gmap (Iri * MessageId) DeliveryReceipt }.

Record Surroundings := {
  su_continuity : option Continuity; su_messages : gmap MessageId WireMessage; su_receipt_keys : gmap DeliveryKey Iri;
  su_agents : gmap AgentId AgentRecord; su_identities : gmap string IdentityResolution;
  su_admissions : gmap Digest LifetimeRegistration; su_ended_scopes : gmap Digest LifetimeRegistration;
  (** [serde_json::to_string] of an address *)
  su_selector_key : WireAddress → Result string string }.

Section Store.
Context `{DeliveryCodec}.

Definition delivery_context (s : Managed) (e : Surroundings) (c : DeliveryCommand) : Result (option TransitionContext) StoreError :=
  let key := command_key c in
  let message := su_messages e !! dk_original_id key in
  let receipt := su_receipt_keys e !! key ≫= (fun id => mm_inbox s !! (id, dk_original_id key)) in
  let? selector_key :=
    match message with
    | Some m => let? k := map_err SBackend (su_selector_key e (wm_to m)) in Ok (Some k)
    | None => Ok None
    end in
  let selector := selector_key ≫= (fun k => su_identities e !! k) in
  let receipt_alias := receipt ≫= (fun r => su_identities e !! ("name:" +:+ rp_recipient_name r)) in
  let lifetime :=
    match c with
    | Prepare input => su_admissions e !! lr_id (ab_lifetime (pi_attempt input))
    | Arm input => su_admissions e !! lr_id (ab_lifetime (ai_attempt input))
    | _ => None
    end in
  match mm_recipients s !! dk_recipient_id key, mm_global s, su_continuity e, selector, receipt_alias with
  | Some recipient, Some global, Some continuity, Some selector, Some receipt_alias =>
      Ok (Some {| tc_key := key; tc_record := mm_records s !! key; tc_reservation := mm_reservations s !! dk_original_id key;
                  tc_recipient := recipient; tc_global := global; tc_continuity := continuity; tc_message := message; tc_receipt := receipt;
                  tc_identity := {| ic_registry := su_agents e !! dk_recipient_id key; ic_selector := selector; ic_receipt_alias := receipt_alias |};
                  tc_lifetime := lifetime |})
  | _, _, _, _, _ => Ok None
  end.

(** A row is written if there is one. *)
Definition put {K A} `{Countable K} (key : A → K) (o : option A) (m : gmap K A) : gmap K A :=
  match o with Some a => <[key a := a]> m | None => m end.

Definition commit_delivery (s : Managed) (d : DeliveryDelta) : Managed := {|
  mm_records := put dr_key (dd_record d) (mm_records s);
  mm_reservations := put ir_original_id (dd_reservation d) (mm_reservations s);
  mm_recipients := put (fun r => bn_recipient_id (rk_binding r)) (dd_recipient d) (mm_recipients s);
  mm_global := option_or (dd_global d) (mm_global s);
  mm_inbox := put (fun r => (rp_recipient_id r, rp_message_id r)) (dd_receipt d) (mm_inbox s) |}.

Definition apply_delivery (s : Managed) (e : Surroundings) (c : DeliveryCommand) : Result DeliveryResult StoreError * Managed :=
  match delivery_context s e c with
  | Err err => (Err err, s)
  | Ok None => (Ok (RRefused HrContinuityLost), s)
  | Ok (Some ctx) =>
      match transition ctx c with
      | Err err => (Err err, s)
      | Ok delta => (Ok (dd_result delta), commit_delivery s delta)
      end
  end.

Definition inspect_delivery (s : Managed) (key : DeliveryKey) : Result (option DeliveryView) StoreError :=
  match mm_records s !! key, mm_recipients s !! dk_recipient_id key with
  | Some record, Some recipient => Ok (Some (record_view record recipient))
  | None, _ => Ok None
  | _, _ => Err (SBackend "missing delivery recipient control")
  end.

Definition active_delivery_owners (s : Managed) : Result (list CapacityRetirementTarget) StoreError :=
  match mm_global s with
  | None => Err (SBackend "missing delivery global control")
  | Some global =>
      if negb (valid_global global) then Err (SBackend "corrupt delivery active index")
      else
        map_result (fun owner =>
          match mm_records s !! ao_key owner, mm_recipients s !! dk_recipient_id (ao_key owner) with
          | Some record, Some recipient =>
              if (rk_active recipient != Some owner)
                 || negb (existsb (fun a => (am_binding a == ao_attempt owner) && (am_capacity a == CsHeld)) (dr_attempts record))
              then Err (SBackend "corrupt active delivery owner")
              else Ok {| ct_owner := owner; ct_record_revision := dr_revision record; ct_recipient_revision := rk_revision recipient;
                         ct_global_revision := gl_revision global |}
          | _, _ => Err (SBackend "missing active delivery owner")
          end) (gl_active_index global)
  end.

Definition retire_orphan_capacity (s : Managed) (e : Surroundings) (target : CapacityRetirementTarget)
  : Result CapacityRetirementResult StoreError * Managed :=
  let lifetime := ab_lifetime (ao_attempt (ct_owner target)) in
  if su_ended_scopes e !! lr_id lifetime != Some lifetime then (Ok CUnproven, s)
  else
    match delivery_context s e (Close (ao_key (ct_owner target))) with
    | Err err => (Err err, s)
    | Ok None => (Ok CStale, s)
    | Ok (Some ctx) =>
        match transition_capacity_retirement ctx target with
        | Err err => (Err err, s)
        | Ok delta =>
            (Ok (cd_result delta),
             {| mm_records := put dr_key (cd_record delta) (mm_records s); mm_reservations := mm_reservations s;
                mm_recipients := put (fun r => bn_recipient_id (rk_binding r)) (cd_recipient delta) (mm_recipients s);
                mm_global := option_or (cd_global delta) (mm_global s); mm_inbox := mm_inbox s |})
        end
    end.

(** ** Histories *)

Definition no_deliveries (s : Managed) : Prop :=
  mm_records s = ∅ ∧ mm_recipients s = ∅ ∧ mm_global s = Some {| gl_revision := 0%N; gl_active_attempts := 0%N; gl_active_index := [] |}.

(** A recipient is enrolled, or bound anew: that moves neither slot nor barrier. *)
Definition with_recipient (s : Managed) (r : RecipientControl) : Managed := {|
  mm_records := mm_records s; mm_reservations := mm_reservations s;
  mm_recipients := <[bn_recipient_id (rk_binding r) := r]> (mm_recipients s); mm_global := mm_global s; mm_inbox := mm_inbox s |}.

Definition enrolls (s : Managed) (r : RecipientControl) : Prop :=
  match mm_recipients s !! bn_recipient_id (rk_binding r) with
  | None => rk_active r = None ∧ rk_barrier r = None
  | Some old => rk_active r = rk_active old ∧ rk_barrier r = rk_barrier old
  end.

Inductive delivery_step (s : Managed) : Managed → Prop :=
| ds_apply e c : delivery_step s (apply_delivery s e c).2
| ds_retire e target : delivery_step s (retire_orphan_capacity s e target).2
| ds_enroll r : enrolls s r → delivery_step s (with_recipient s r)
| ds_receipts inbox : delivery_step s {|
    mm_records := mm_records s; mm_reservations := mm_reservations s; mm_recipients := mm_recipients s; mm_global := mm_global s;
    mm_inbox := inbox |}.

Inductive delivery_reachable : Managed → Prop :=
| dr_first s : no_deliveries s → delivery_reachable s
| dr_next s s' : delivery_reachable s → delivery_step s s' → delivery_reachable s'.
End Store.

(** ** What a record tells *)

(** An attempt that another one followed: nothing of it can still happen. *)
Definition settled_past (a : AttemptSummary) : Prop :=
  am_frozen a = None ∧ am_capacity a ≠ CsHeld ∧ am_evidence a ≠ Some MutationUnconfirmed
  ∧ (is_Some (am_armed_at a) → am_evidence a = Some DefinitiveNoMutation).

(** The last attempt, in the state its record is in *)
Definition current_ok (el : Eligibility) (a : AttemptSummary) : Prop :=
  (am_evidence a = Some MutationUnconfirmed → is_Some (am_armed_at a))
  ∧ (el = ElPrepared → am_armed_at a = None ∧ am_frozen a = None ∧ am_evidence a = None ∧ am_capacity a = CsHeld)
  ∧ (el = ElMutationArmed → is_Some (am_armed_at a) ∧ (am_evidence a = None ∨ am_capacity a = CsRetired)).

Definition attempts_ok (el : Eligibility) (l : list AttemptSummary) : Prop :=
  (l = [] ∧ el ≠ ElPrepared ∧ el ≠ ElMutationArmed) ∨ ∃ front a, l = front ++ [a] ∧ Forall settled_past front ∧ current_ok el a.

Record record_ok (k : DeliveryKey) (r : DeliveryRecord) : Prop := {
  rok_schema : dr_schema r = DELIVERY_SCHEMA_VERSION;
  rok_key : dr_key r = k;
  rok_recipient : bn_recipient_id (dr_binding r) = dk_recipient_id k;
  rok_budget : length (dr_attempts r) ≤ 3;
  rok_prepares : dr_prepares r = len (dr_attempts r);
  rok_attempts : attempts_ok (dr_eligibility r) (dr_attempts r);
}.

(** The slot it holds; whether it is in flight, for ever uncertain, or can move on *)
Definition owner_of (r : DeliveryRecord) : option AttemptBinding :=
  a ← last (dr_attempts r); if am_capacity a == CsHeld then Some (am_binding a) else None.
Definition in_flight (r : DeliveryRecord) : Prop :=
  ∃ a, last (dr_attempts r) = Some a ∧ is_Some (am_armed_at a) ∧ am_evidence a = None.
Definition uncertain (r : DeliveryRecord) : Prop := ∃ a, last (dr_attempts r) = Some a ∧ am_evidence a = Some MutationUnconfirmed.
Definition stuck (r : DeliveryRecord) : Prop :=
  (dr_eligibility r = ElHeld ∧ (dr_held r = Some HrUnconfirmed ∨ dr_held r = Some HrEvidenceOverflow))
  ∨ ∃ a, last (dr_attempts r) = Some a ∧ am_capacity a = CsRetired.

Lemma count_app {A} (p : A → bool) l l' : count p (l ++ l') = count p l + count p l'.
Proof. unfold count. by rewrite List.filter_app, length_app. Qed.

Lemma count_none {A} (p : A → bool) l : Forall (fun a => p a = false) l → count p l = 0.
Proof. unfold count. induction 1 as [|a l Ha _ IH]; [done|]. cbn. by rewrite Ha. Qed.

(** The rows of a good record pass the checks of every transition. *)
Lemma record_ok_valid k r : record_ok k r → valid_record r k = true.
Proof.
  intros [H1 H2 H3 H4 H5 H6]. unfold valid_record. rewrite H1, H2, H3, H5.
  rewrite N.eqb_refl, !bool_decide_eq_true_2, N.eqb_refl, (proj2 (Nat.leb_le _ _) H4) by done. cbn [andb].
  destruct H6 as [(->&Hp&_)|(front&a&->&Hf&_&Hp&_)].
  - cbn. rewrite bool_decide_eq_false_2 by done. done.
  - rewrite last_snoc, !count_app. rewrite (count_none _ front), (count_none _ front); cycle 1.
    { eapply Forall_impl; [exact Hf|]. intros x (_&Hc&_). by apply bool_decide_eq_false_2. }
    { eapply Forall_impl; [exact Hf|]. by intros x (->&_). }
    assert (∀ p : AttemptSummary → bool, (0 + count p [a] <=? 1)%nat = true) as -> by (intros p; cbn; by destruct (p a)).
    assert (∀ p : AttemptSummary → bool, (0 + count p [a] <=? 1)%nat = true) as -> by (intros p; cbn; by destruct (p a)).
    rewrite !andb_true_r. destruct (decide (dr_eligibility r = ElPrepared)) as [E|E]; [|by rewrite bool_decide_eq_false_2].
    destruct (Hp E) as (E1&E2&E3&E4). cbn. rewrite E1, E2, E3, E4. by rewrite orb_true_r.
Qed.

(** ** What a change of a record and its recipient may do *)

(** Slots: as before, one taken, or one given back *)
Inductive slots (k : DeliveryKey) (old new : option AttemptBinding) (rc rc' : RecipientControl) (g g' : GlobalControl) : Prop :=
| slots_same : new = old → rk_active rc' = rk_active rc → gl_active_index g' = gl_active_index g → slots k old new rc rc' g g'
| slots_taken b : old = None → new = Some b → rk_active rc = None → rk_active rc' = Some {| ao_key := k; ao_attempt := b |} →
    gl_active_index g' = gl_active_index g ++ [{| ao_key := k; ao_attempt := b |}] → slots k old new rc rc' g g'
| slots_given b : old = Some b → new = None → rk_active rc = Some {| ao_key := k; ao_attempt := b |} → rk_active rc' = None →
    gl_active_index g' = List.filter (fun o => negb (o == {| ao_key := k; ao_attempt := b |})) (gl_active_index g) →
    slots k old new rc rc' g g'.

(** The barrier: as before, set by an armed attempt, lowered, or raised for good *)
Inductive fence (k : DeliveryKey) (old : option DeliveryRecord) (new : DeliveryRecord) (b b' : option DeliveryKey) : Prop :=
| fence_same : b' = b → (in_flight new → ∃ r, old = Some r ∧ in_flight r) →
    (b = Some k → ∃ r, old = Some r ∧ (stuck r → stuck new) ∧ (in_flight r → stuck new ∨ in_flight new)) →
    (uncertain new → ∃ r, old = Some r ∧ (uncertain r ∨ in_flight r ∧ stuck new)) → fence k old new b b'
| fence_set : b = None → b' = Some k → in_flight new → fence k old new b b'
| fence_lowered r : b = Some k → b' = None → old = Some r → ¬ stuck r → ¬ in_flight new → ¬ uncertain new → fence k old new b b'
| fence_raised : b' = Some k → stuck new → (in_flight new → ∃ r, old = Some r ∧ in_flight r) → fence k old new b b'.

Definition old_owner (o : option DeliveryRecord) : option AttemptBinding := o ≫= owner_of.

Record good_change (k : DeliveryKey) (old : option DeliveryRecord) (new : DeliveryRecord) (rc rc' : RecipientControl) (g g' : GlobalControl) : Prop := {
  gc_record : record_ok k new;
  gc_binding : bn_recipient_id (rk_binding rc') = bn_recipient_id (rk_binding rc);
  gc_count : gl_active_attempts g' = len (gl_active_index g') ∧ (len (gl_active_index g') ≤ 16)%N;
  gc_slots : slots k (old_owner old) (owner_of new) rc rc' g g';
  gc_fence : fence k old new (rk_barrier rc) (rk_barrier rc');
  gc_kept : ∀ r, old = Some r → uncertain r → uncertain new;
}.

(** ** The invariant *)

Record deliveries_ok (s : Managed) (g : GlobalControl) : Prop := {
  do_global : mm_global s = Some g;
  do_valid : valid_global g = true;
  do_records : ∀ k r, mm_records s !! k = Some r → record_ok k r ∧ is_Some (mm_recipients s !! dk_recipient_id k);
  do_recipients : ∀ id rc, mm_recipients s !! id = Some rc → bn_recipient_id (rk_binding rc) = id
    ∧ (∀ o, rk_active rc = Some o ↔ o ∈ gl_active_index g ∧ dk_recipient_id (ao_key o) = id);
  do_owners : ∀ o, o ∈ gl_active_index g ↔ ∃ r, mm_records s !! ao_key o = Some r ∧ owner_of r = Some (ao_attempt o);
  do_flight : ∀ k r rc, mm_records s !! k = Some r → mm_recipients s !! dk_recipient_id k = Some rc → in_flight r → is_Some (rk_barrier rc);
  do_barrier : ∀ id rc k, mm_recipients s !! id = Some rc → rk_barrier rc = Some k →
    dk_recipient_id k = id ∧ ∃ r, mm_records s !! k = Some r ∧ (stuck r ∨ in_flight r);
  do_alone : ∀ k r k' r', mm_records s !! k = Some r → mm_records s !! k' = Some r' → dk_recipient_id k = dk_recipient_id k' →
    in_flight r → in_flight r' → k = k';
  do_uncertain : ∀ k r rc, mm_records s !! k = Some r → mm_recipients s !! dk_recipient_id k = Some rc → uncertain r →
    ∃ k0 r0, rk_barrier rc = Some k0 ∧ mm_records s !! k0 = Some r0 ∧ stuck r0;
}.

(** The rows after a change *)
Definition changed (s : Managed) (new : DeliveryRecord) (rc' : RecipientControl) (g' : GlobalControl) (s' : Managed) : Prop :=
  mm_records s' = <[dr_key new := new]> (mm_records s) ∧ mm_recipients s' = <[bn_recipient_id (rk_binding rc') := rc']> (mm_recipients s)
  ∧ mm_global s' = Some g'.

Section Change.
Context (s : Managed) (g : GlobalControl) (k : DeliveryKey) (rc : RecipientControl) (new : DeliveryRecord) (rc' : RecipientControl) (g' : GlobalControl).
Hypothesis Hs : deliveries_ok s g.
Hypothesis Hrc : mm_recipients s !! dk_recipient_id k = Some rc.
Hypothesis Hgood : good_change k (mm_records s !! k) new rc rc' g g'.

Lemma active_iff o : rk_active rc = Some o ↔ o ∈ gl_active_index g ∧ dk_recipient_id (ao_key o) = dk_recipient_id k.
Proof. by destruct (do_recipients _ _ Hs _ _ Hrc). Qed.

Lemma owner_iff b : old_owner (mm_records s !! k) = Some b ↔ {| ao_key := k; ao_attempt := b |} ∈ gl_active_index g.
Proof.
  rewrite (do_owners _ _ Hs). cbn. unfold old_owner. destruct (mm_records s !! k) as [r|]; cbn; [|split; [done|by intros (?&[=]&_)]].
  split; [by exists r|]. by intros (r'&[= <-]&?).
Qed.

(** Slots of other records stay, and this record's slot is the new one. *)
Lemma slots_index o : o ∈ gl_active_index g' ↔
  (ao_key o ≠ k ∧ o ∈ gl_active_index g) ∨ (ao_key o = k ∧ owner_of new = Some (ao_attempt o)).
Proof.
  assert (∀ b, ao_key o = k → {| ao_key := k; ao_attempt := b |} = o ↔ b = ao_attempt o) as Ho by (intros b <-; destruct o; cbn; naive_solver).
  assert (ao_key o = k → o ∈ gl_active_index g ↔ old_owner (mm_records s !! k) = Some (ao_attempt o)) as Hold.
  { intros E. rewrite owner_iff. by rewrite (proj2 (Ho (ao_attempt o) E) eq_refl). }
  destruct (gc_slots _ _ _ _ _ _ _ Hgood) as [-> _ ->|b E1 -> E2 _ ->|b E1 -> E2 _ ->].
  - destruct (decide (ao_key o = k)) as [E|E]; [rewrite (Hold E)|]; naive_solver.
  - rewrite elem_of_app, list_elem_of_singleton. destruct (decide (ao_key o = k)) as [E|E].
    + rewrite (Hold E), E1. specialize (Ho b E). naive_solver.
    + split; [intros [?| ->]; [by left|done]|]. naive_solver.
  - rewrite filter_elem. destruct (decide (ao_key o = k)) as [E|E].
    + rewrite (Hold E), E1. split; [|naive_solver]. intros [[= Hb] Hn]. apply (Ho b E) in Hb. rewrite Hb, bool_decide_eq_true_2 in Hn by done. done.
    + split; [naive_solver|]. intros [[_ Hin]|?]; [|naive_solver]. split; [done|]. rewrite bool_decide_eq_false_2; [done|]. by intros ->.
Qed.

Lemma change_valid : valid_global g' = true.
Proof.
  pose proof (do_valid _ _ Hs) as Hv. unfold valid_global in *. apply andb_true_iff in Hv as [_ Hv%bool_decide_eq_true].
  destruct (gc_count _ _ _ _ _ _ _ Hgood) as [-> Hc]. rewrite (proj2 (N.leb_le _ _) Hc), N.eqb_refl. cbn [andb]. apply bool_decide_eq_true_2.
  destruct (gc_slots _ _ _ _ _ _ _ Hgood) as [_ _ ->|b _ _ E _ ->|b _ _ _ _ ->]; [done| |].
  - rewrite map_app. apply NoDup_app. split_and!; [done| |apply NoDup_singleton].
    intros id (o&->&Ho)%list_elem_of_fmap Hid%list_elem_of_singleton. cbn in Hid. pose proof (proj2 (active_iff o) (conj Ho Hid)). congruence.
  - eapply sublist_NoDup; [exact Hv|]. apply fmap_sublist. generalize (gl_active_index g). intros l. induction l as [|o l IH]; cbn [List.filter]; [done|].
    destruct (negb _); [apply sublist_skip, IH|apply sublist_cons, IH].
Qed.

Lemma change_active o : rk_active rc' = Some o ↔ o ∈ gl_active_index g' ∧ dk_recipient_id (ao_key o) = dk_recipient_id k.
Proof.
  rewrite slots_index. destruct (gc_slots _ _ _ _ _ _ _ Hgood) as [E E1 Hg|b E E1 E2 E3 Hg|b E E1 E2 E3 Hg].
  - rewrite E1, active_iff, E. split.
    + intros [Hin Hid]. split; [|done]. destruct (decide (ao_key o = k)) as [Ek|]; [right|by left]. split; [done|]. apply owner_iff. rewrite <- Ek. by destruct o.
    + intros [[[_ ?]|[Ek Ho]] ?]; [done|]. split; [|done]. apply owner_iff in Ho. rewrite <- Ek in Ho. by destruct o.
  - rewrite E1, E3. split; [intros [= <-]; split; [by right|done]|]. intros [[[_ Hin]|[Ek [= ->]]] Hid]; [|rewrite <- Ek; by destruct o].
    pose proof (proj2 (active_iff o) (conj Hin Hid)). congruence.
  - rewrite E1, E3. split; [done|]. intros [[[Hk Hin]|[_ ?]] Hid]; [|done]. pose proof (proj2 (active_iff o) (conj Hin Hid)) as Ho. rewrite E2 in Ho.
    injection Ho as <-. done.
Qed.
End Change.

(** In flight after the change, and only this record's change counts: so before. *)
Lemma fence_flight k old new b b' : fence k old new b b' → in_flight new → b = None ∨ ∃ r, old = Some r ∧ in_flight r.
Proof. destruct 1; intros; try tauto; naive_solver. Qed.

Lemma good_change_keeps s g k rc new rc' g' s' : deliveries_ok s g → mm_recipients s !! dk_recipient_id k = Some rc →
  good_change k (mm_records s !! k) new rc rc' g g' → changed s new rc' g' s' → deliveries_ok s' g'.
Proof.
  intros Hs Hrc Hgood (Er&Ec&Eg). pose proof (rok_key _ _ (gc_record _ _ _ _ _ _ _ Hgood)) as Hk. rewrite Hk in Er.
  destruct (do_recipients _ _ Hs _ _ Hrc) as [Hid _]. rewrite (gc_binding _ _ _ _ _ _ _ Hgood), Hid in Ec.
  pose proof (gc_fence _ _ _ _ _ _ _ Hgood) as Hfence.
  assert (∀ k' r, mm_records s' !! k' = Some r → k' = k ∧ r = new ∨ k' ≠ k ∧ mm_records s !! k' = Some r) as Hrec.
  { intros k' r. rewrite Er. intros [[-> ->]|[? ?]]%lookup_insert_Some; [by left|by right]. }
  assert (∀ id r, mm_recipients s' !! id = Some r → id = dk_recipient_id k ∧ r = rc' ∨ id ≠ dk_recipient_id k ∧ mm_recipients s !! id = Some r) as Hrcp.
  { intros id r. rewrite Ec. intros [[-> ->]|[? ?]]%lookup_insert_Some; [by left|by right]. }
  split.
  - done.
  - by eapply change_valid.
  - intros k' r [[-> ->]|[Hn Hr]]%Hrec; (split; [|rewrite Ec; apply lookup_insert_is_Some'; auto]).
    + by apply Hgood.
    + by apply (do_records _ _ Hs).
    + right. by apply (do_records _ _ Hs _ _ Hr).
  - intros id r [[-> ->]|[Hn Hr]]%Hrcp.
    + split; [by rewrite (gc_binding _ _ _ _ _ _ _ Hgood)|]. intros o. by eapply change_active.
    + destruct (do_recipients _ _ Hs _ _ Hr) as [Hi Ha]. split; [done|]. intros o. rewrite Ha. rewrite (slots_index s g k rc new rc' g' Hs Hrc Hgood).
      split; [intros [Ho E]; split; [left; split; [|done]|done]; intros Ek; rewrite Ek in E; congruence|].
      intros [[[? ?]|[Ek ?]] E]; [done|]. rewrite Ek in E. congruence.
  - intros o. rewrite (slots_index s g k rc new rc' g' Hs Hrc Hgood), (do_owners _ _ Hs). split.
    + intros [[Hn (r&Hr&Ho)]|[-> Ho]]; [exists r; rewrite Er, lookup_insert_ne by done; done|]. exists new. rewrite Er. by rewrite lookup_insert_eq.
    + intros (r&[[-> ->]|[Hn Hr]]%Hrec&Ho); [by right|left]. eauto.
  - intros k' r rc2 [[-> ->]|[Hn Hr]]%Hrec [[Ei ->]|[Ei Hc]]%Hrcp Hfl; [|done| |by eapply (do_flight _ _ Hs)].
    + destruct Hfence as [-> Hf _ _|_ -> _|r _ _ _ _ Hf _| -> _ _]; [|done|done|done]. destruct (Hf Hfl) as (r&Hr&Hf'). by eapply (do_flight _ _ Hs).
    + rewrite <- Ei in Hrc. pose proof (do_flight _ _ Hs _ _ _ Hr Hrc Hfl) as Hb.
      destruct Hfence as [-> _ _ _|E _ _|r0 E _ Hr0 Hst _ _| -> _ _]; [done|by rewrite E in Hb; destruct Hb|exfalso|done].
      destruct (do_barrier _ _ Hs _ _ _ Hrc E) as [_ (r1&Hr1&[?|Hf])]; [congruence|].
      destruct Hn. symmetry. eapply (do_alone _ _ Hs); done.
  - intros id r k0 [[-> ->]|[Hn Hr]]%Hrcp Hb.
    + destruct Hfence as [Hbb _ Hk0 _|_ Hbb Hf|? _ Hbb _ _ _ _|Hbb Hst _]; rewrite Hbb in Hb.
      * destruct (do_barrier _ _ Hs _ _ _ Hrc Hb) as [Hd (r&Hr&Hsf)]. split; [done|]. rewrite Er. destruct (decide (k0 = k)) as [->|Hne].
        -- rewrite lookup_insert_eq. destruct (Hk0 Hb) as (r'&Hr'&H1&H2). exists new. split; [done|]. replace r' with r in * by congruence. tauto.
        -- rewrite lookup_insert_ne by done. eauto.
      * injection Hb as <-. split; [done|]. exists new. rewrite Er, lookup_insert_eq. auto.
      * done.
      * injection Hb as <-. split; [done|]. exists new. rewrite Er, lookup_insert_eq. auto.
    + destruct (do_barrier _ _ Hs _ _ _ Hr Hb) as [Hd (r'&Hr'&Hsf)]. split; [done|]. exists r'. rewrite Er, lookup_insert_ne by (by intros <-). done.
  - assert (∀ k' r', mm_records s !! k' = Some r' → k' ≠ k → dk_recipient_id k' = dk_recipient_id k → in_flight r' → in_flight new → False) as Hone.
    { intros k' r' Hr' Hne Hd Hf' Hf. destruct (fence_flight _ _ _ _ _ Hfence Hf) as [E|(r&Hr&Hfr)].
      - rewrite <- Hd in Hrc. destruct (do_flight _ _ Hs _ _ _ Hr' Hrc Hf'). congruence.
      - destruct Hne. eapply (do_alone _ _ Hs); done. }
    intros k1 r1 k2 r2 [[-> ->]|[Hn1 Hr1]]%Hrec [[-> ->]|[Hn2 Hr2]]%Hrec Hd Hf1 Hf2; [done| | |by eapply (do_alone _ _ Hs)].
    + by destruct (Hone k2 r2 Hr2 Hn2).
    + by destruct (Hone k1 r1 Hr1 Hn1).
  - assert ((∃ k0 r0, rk_barrier rc = Some k0 ∧ mm_records s !! k0 = Some r0 ∧ stuck r0) →
      ∃ k0 r0, rk_barrier rc' = Some k0 ∧ mm_records s' !! k0 = Some r0 ∧ stuck r0) as Hkeep.
    { intros (k0&r0&Hb&Hr0&Hst). rewrite Er. destruct Hfence as [-> _ Hk0 _|E _ _|r E _ Hr Hns _ _| -> Hst' _]; [|congruence| |].
      - destruct (decide (k0 = k)) as [->|Hne]; [|exists k0, r0; by rewrite lookup_insert_ne].
        exists k, new. rewrite lookup_insert_eq. destruct (Hk0 Hb) as (r'&Hr'&H1&_). replace r' with r0 in * by congruence. auto.
      - destruct Hns. replace r with r0; [done|]. assert (k0 = k) as -> by congruence. congruence.
      - exists k, new. by rewrite lookup_insert_eq. }
    intros k' r rc2 [[-> ->]|[Hn Hr]]%Hrec [[Ei ->]|[Ei Hc]]%Hrcp Hun; [|done| |].
    + destruct Hfence as [Hbb _ _ Hu|_ _ Hf|? _ _ _ _ _ Hu| -> Hst _]; [|exfalso|done|].
      * destruct (Hu Hun) as (r&Hr&[Hur|[Hfr Hst]]); [apply Hkeep; by eapply (do_uncertain _ _ Hs)|].
        rewrite Hbb. destruct (do_flight _ _ Hs _ _ _ Hr Hrc Hfr) as [k0 Hb]. exists k0. rewrite Er. destruct (decide (k0 = k)) as [->|Hne].
        -- exists new. by rewrite lookup_insert_eq.
        -- rewrite lookup_insert_ne by done. destruct (do_barrier _ _ Hs _ _ _ Hrc Hb) as [Hd (r0&Hr0&[Hst0|Hf0])]; [eauto|].
           destruct Hne. eapply (do_alone _ _ Hs); done.
      * destruct Hun as (a&Ha&He), Hf as (a'&Ha'&_&He'). congruence.
      * exists k, new. by rewrite Er, lookup_insert_eq.
    + apply Hkeep. rewrite <- Ei in Hrc. by eapply (do_uncertain _ _ Hs).
    + destruct (do_uncertain _ _ Hs _ _ _ Hr Hc Hun) as (k0&r0&Hb&Hr0&Hst). destruct (do_barrier _ _ Hs _ _ _ Hc Hb) as [Hd _].
      exists k0, r0. rewrite Er, lookup_insert_ne by (by intros <-). done.
Qed.

(** ** Slots, step by step *)

(** Where a command has got to: the slots moved rightly, and rows not flagged are as read. *)
Record moved (k : DeliveryKey) (r0 : DeliveryRecord) (rc : RecipientControl) (g : GlobalControl) (w : Work) : Prop := {
  mv_slots : slots k (owner_of r0) (owner_of (wk_record w)) rc (wk_recipient w) g (wk_global w);
  mv_binding : bn_recipient_id (rk_binding (wk_recipient w)) = bn_recipient_id (rk_binding rc);
  mv_count : gl_active_attempts (wk_global w) = len (gl_active_index (wk_global w)) ∧ (len (gl_active_index (wk_global w)) ≤ 16)%N;
  mv_recipient : wk_recipient_changed w = false → wk_recipient w = rc;
  mv_global : wk_capacity_changed w = false → wk_global w = g;
}.

Lemma valid_global_count g : valid_global g = true →
  (gl_active_attempts g = len (gl_active_index g) ∧ (len (gl_active_index g) ≤ 16)%N) ∧ NoDup (gl_active_index g).
Proof.
  unfold valid_global. intros [[H1%N.leb_le H2%N.eqb_eq]%andb_true_iff H3%bool_decide_eq_true]%andb_true_iff.
  split; [done|]. by eapply NoDup_fmap_1.
Qed.

Lemma filter_other {A} `{EqDecision A} (l : list A) (x : A) : NoDup l → x ∈ l → len (List.filter (fun y => negb (y == x)) l) = (len l - 1)%N.
Proof.
  intros Hn Hx. assert (∀ l, x ∉ l → List.filter (fun y => negb (y == x)) l = l) as Hout.
  { clear. induction l as [|y l IH]; [done|]. intros [Hy Hl]%not_elem_of_cons. cbn. rewrite bool_decide_eq_false_2 by done. cbn. by rewrite IH. }
  induction Hn as [|y l Hy Hn IH]; [by apply elem_of_nil in Hx|]. cbn. case_bool_decide as E; cbn.
  - subst y. rewrite Hout by done. unfold len. cbn [length]. lia.
  - apply elem_of_cons in Hx as [?|Hx]; [done|]. specialize (IH Hx). assert (0 < length l)%nat by (destruct l; [by apply elem_of_nil in Hx|cbn; lia]).
    unfold len in *. cbn [length]. lia.
Qed.

Lemma alter_last {A} (f : A → A) (front : list A) a : alter f (length front) (front ++ [a]) = front ++ [f a].
Proof. induction front as [|b front IH]; [done|]. cbn. f_equal. exact IH. Qed.

Lemma owner_last r front a : dr_attempts r = front ++ [a] → owner_of r = if am_capacity a == CsHeld then Some (am_binding a) else None.
Proof. intros E. unfold owner_of. by rewrite E, last_snoc. Qed.

Section Moves.
Context (k : DeliveryKey) (r0 : DeliveryRecord) (rc : RecipientControl) (g : GlobalControl).
Hypothesis Hg : valid_global g = true.

Lemma moved_start r : owner_of r = owner_of r0 →
  moved k r0 rc g {| wk_record := r; wk_recipient := rc; wk_global := g; wk_capacity_changed := false; wk_recipient_changed := false; wk_receipt := None |}.
Proof. intros E. split; cbn; [by apply slots_same|done|by apply valid_global_count|done|done]. Qed.

Lemma moved_with w r : moved k r0 rc g w → owner_of r = owner_of (wk_record w) → moved k r0 rc g (wk_with w r).
Proof. intros [H1 H2 H3 H4 H5] E. split; cbn; [by rewrite E|done..]. Qed.

Lemma moved_projected w o : moved k r0 rc g w → moved k r0 rc g (wk_projected w o).
Proof. by intros []. Qed.

Lemma release_moved r front a state w : dr_key r = k → dr_attempts r = front ++ [a] → owner_of r = owner_of r0 → state ≠ CsHeld →
  release_capacity {| wk_record := r; wk_recipient := rc; wk_global := g; wk_capacity_changed := false; wk_recipient_changed := false;
                      wk_receipt := None |} (length front) state = Ok w →
  moved k r0 rc g w ∧ rk_barrier (wk_recipient w) = rk_barrier rc
  ∧ wk_record w = dr_with r (dr_eligibility r) (dr_held r) (front ++ [if am_capacity a == CsHeld then am_hold state a else a]).
Proof.
  intros Hk Ha Ho Hst. unfold release_capacity. cbn [wk_record wk_recipient wk_global wk_receipt].
  rewrite Ha, list_lookup_middle by done. rewrite (owner_last _ _ _ Ha) in Ho. destruct (am_capacity a == CsHeld) eqn:Ec; cbn [negb].
  - destruct (_ || _) eqn:E; [done|]. apply orb_false_iff in E as [[E1%negb_false_iff E2%negb_false_iff]%orb_false_iff _].
    apply bool_decide_eq_true in E1. apply contains_spec in E2.
    intros (n&_&(m&_&[= <-])%result_bind_ok)%result_bind_ok. destruct (valid_global_count _ Hg) as [[Hc Hl] Hn].
    cbn [wk_record wk_recipient wk_global]. split_and!; [|done|unfold dr_attempt; by rewrite Ha, alter_last]. rewrite Hk in *. split; cbn.
    + eapply slots_given; [by rewrite <- Ho|unfold owner_of; cbn; rewrite Ha, alter_last, last_snoc; cbn; by rewrite bool_decide_eq_false_2|done..].
    + done.
    + rewrite filter_other by done. split; lia.
    + done.
    + done.
  - intros [= <-]. cbn. split_and!; [|done|rewrite <- Ha; by destruct r]. apply moved_start. by rewrite (owner_last _ _ _ Ha), Ec.
Qed.

Lemma move_barrier_ok w b w' : moved k r0 rc g w → move_barrier w b = Ok w' →
  moved k r0 rc g w' ∧ rk_barrier (wk_recipient w') = b ∧ wk_record w' = wk_record w.
Proof.
  intros [H1 H2 H3 H4 H5] (n&_&[= <-])%result_bind_ok. split_and!; [|done|done]. split; cbn; [|done..].
  destruct H1; [by apply slots_same|by eapply slots_taken|by eapply slots_given].
Qed.

Lemma raise_barrier_ok w w' : moved k r0 rc g w → dr_key (wk_record w) = k → raise_barrier w = Ok w' →
  moved k r0 rc g w' ∧ rk_barrier (wk_recipient w') = Some k ∧ wk_record w' = wk_record w.
Proof.
  intros Hw Hk. unfold raise_barrier. rewrite Hk. case_bool_decide; cbn [negb]; [by intros [= <-]|]. by apply move_barrier_ok.
Qed.

Lemma lower_barrier_ok w w' : moved k r0 rc g w → dr_key (wk_record w) = k → lower_barrier w = Ok w' →
  moved k r0 rc g w' ∧ wk_record w' = wk_record w
  ∧ rk_barrier (wk_recipient w') = (if rk_barrier (wk_recipient w) == Some k then None else rk_barrier (wk_recipient w)).
Proof.
  intros Hw Hk. unfold lower_barrier. rewrite Hk. case_bool_decide; [|by intros [= <-]]. intros (?&?&?)%move_barrier_ok; done.
Qed.
End Moves.

(** ** What a transition answers *)

Definition delta_good (k : DeliveryKey) (old : option DeliveryRecord) (rc : RecipientControl) (g : GlobalControl) (d : DeliveryDelta) : Prop :=
  match dd_record d with
  | None => dd_recipient d = None ∧ dd_global d = None
  | Some new => good_change k old new rc (unwrap_or (dd_recipient d) rc) g (unwrap_or (dd_global d) g)
  end.

Lemma dr_bump_ok r r' : dr_bump r = Ok r' → ∃ n, r' = {|
  dr_schema := dr_schema r; dr_key := dr_key r; dr_generation := dr_generation r; dr_binding := dr_binding r; dr_revision := n;
  dr_eligibility := dr_eligibility r; dr_prepares := dr_prepares r; dr_attempts := dr_attempts r; dr_acknowledgment := dr_acknowledgment r;
  dr_held := dr_held r; dr_annotation := dr_annotation r |}.
Proof. intros (n&_&[= <-])%result_bind_ok. by exists n. Qed.

(** The revision plays no part in what a record tells. *)
Lemma bumped_good k old r r' rc rc' g g' : dr_bump r = Ok r' → good_change k old r rc rc' g g' → good_change k old r' rc rc' g g'.
Proof.
  intros [n ->]%dr_bump_ok [[H1 H2 H3 H4 H5 H6] Hb Hc Hs Hf Hu]. split; [by split|done..| |exact Hu].
  destruct Hf as [E F1 F2 F3|E E' F1|r1 E E' Ho F1 F2 F3|E F1 F2];
    [by apply fence_same|by apply fence_set|by eapply fence_lowered|by apply fence_raised].
Qed.

Lemma conclude_good k r0 rc g w d : record_ok k (wk_record w) → moved k r0 rc g w →
  fence k (Some r0) (wk_record w) (rk_barrier rc) (rk_barrier (wk_recipient w)) → (uncertain r0 → uncertain (wk_record w)) →
  conclude w = Ok d → delta_good k (Some r0) rc g d.
Proof.
  intros Hr [H1 H2 H3 H4 H5] Hf Hu (r'&Hb&[= <-])%result_bind_ok. unfold delta_good, applied. cbn.
  eapply bumped_good; [exact Hb|].
  assert (unwrap_or (if wk_recipient_changed w then Some (wk_recipient w) else None) rc = wk_recipient w) as ->.
  { destruct (wk_recipient_changed w); [done|]. cbn. by rewrite H4. }
  assert (unwrap_or (if wk_capacity_changed w then Some (wk_global w) else None) g = wk_global w) as ->.
  { destruct (wk_capacity_changed w); [done|]. cbn. by rewrite H5. }
  split; try done. by intros r [= <-].
Qed.

(** ** Records by their last attempt *)

Lemma flight_last r front a : dr_attempts r = front ++ [a] → in_flight r ↔ is_Some (am_armed_at a) ∧ am_evidence a = None.
Proof. intros E. unfold in_flight. rewrite E, last_snoc. naive_solver. Qed.
Lemma uncertain_last r front a : dr_attempts r = front ++ [a] → uncertain r ↔ am_evidence a = Some MutationUnconfirmed.
Proof. intros E. unfold uncertain. rewrite E, last_snoc. naive_solver. Qed.
Lemma stuck_last r front a : dr_attempts r = front ++ [a] → stuck r ↔
  (dr_eligibility r = ElHeld ∧ (dr_held r = Some HrUnconfirmed ∨ dr_held r = Some HrEvidenceOverflow)) ∨ am_capacity a = CsRetired.
Proof. intros E. unfold stuck. rewrite E, last_snoc. naive_solver. Qed.

Lemma record_with k r el held l : record_ok k r → length l = length (dr_attempts r) → attempts_ok el l → record_ok k (dr_with r el held l).
Proof. intros [H1 H2 H3 H4 H5 H6] Hl Ha. split; cbn; [done..|by rewrite Hl|rewrite H5; unfold len; by rewrite Hl|done]. Qed.

Lemma record_noted k r ack note : record_ok k r → record_ok k (dr_noted r ack note).
Proof. by intros []. Qed.

(** Out of the states that promise something of it, an attempt is only what it is. *)
Lemma held_ok l : attempts_ok ElHeld l ↔ l = [] ∨ ∃ front a, l = front ++ [a] ∧ Forall settled_past front
  ∧ (am_evidence a = Some MutationUnconfirmed → is_Some (am_armed_at a)).
Proof.
  unfold attempts_ok, current_ok. split.
  - intros [(->&_)|(front&a&->&?&?&_)]; [by left|right; eauto].
  - intros [->|(front&a&->&?&?)]; [by left|right]. exists front, a. done.
Qed.

Lemma attempts_ok_held el l : attempts_ok el l → attempts_ok ElHeld l.
Proof. rewrite held_ok. intros [(->&_)|(front&a&->&?&?&_)]; [by left|right; eauto]. Qed.

Lemma attempts_ok_last el front a : attempts_ok el (front ++ [a]) → Forall settled_past front ∧ current_ok el a.
Proof. intros [[E _]|(front'&a'&[-> ->]%List.app_inj_tail&?&?)]; [by apply app_nil in E as [_ ?]|done]. Qed.

Lemma prepared_last k r : record_ok k r → dr_eligibility r = ElPrepared → ∃ front a, dr_attempts r = front ++ [a] ∧ Forall settled_past front
  ∧ am_armed_at a = None ∧ am_frozen a = None ∧ am_evidence a = None ∧ am_capacity a = CsHeld.
Proof. intros Hr E. destruct (rok_attempts _ _ Hr) as [(_&?&_)|(front&a&Ha&Hf&_&Hp&_)]; [done|]. exists front, a. destruct (Hp E). naive_solver. Qed.

Lemma last_index_snoc r front a : dr_attempts r = front ++ [a] → last_index r = Some (length front).
Proof.
  unfold last_index. intros ->. destruct front as [|b front]; [done|]. cbn. rewrite length_app. cbn [length]. f_equal. lia.
Qed.

Lemma attempts_split {A} (l : list A) : l = [] ∨ ∃ front a, l = front ++ [a].
Proof. destruct l as [|a l] using rev_ind; [by left|right; eauto]. Qed.

(** ** Fences *)

Lemma fence_calm k r new b : dr_attempts new = dr_attempts r → (stuck r → stuck new) → fence k (Some r) new b b.
Proof.
  intros E Hs. apply fence_same; [done| | |].
  - unfold in_flight. rewrite E. intros H. exists r. split; [done|]. exact H.
  - intros _. exists r. split_and!; [done|done|]. right. unfold in_flight. by rewrite E.
  - unfold uncertain. rewrite E. intros H. exists r. split; [done|]. by left.
Qed.

(** A prepared attempt was never in flight; giving it up moves no fence. *)
Lemma fence_prepared k r new b front a a' : dr_eligibility r = ElPrepared → dr_attempts r = front ++ [a] → dr_attempts new = front ++ [a'] →
  am_armed_at a = None → am_capacity a = CsHeld → am_armed_at a' = None → am_evidence a' ≠ Some MutationUnconfirmed → fence k (Some r) new b b.
Proof.
  intros He Ha Ha' H1 H2 H3 H4. apply fence_same; [done| | |].
  - rewrite (flight_last _ _ _ Ha'), H3. by intros [[] _].
  - intros _. exists r. split_and!; [done| |].
    + rewrite (stuck_last _ _ _ Ha), He, H2. by intros [[]|].
    + rewrite (flight_last _ _ _ Ha), H1. by intros [[] _].
  - by rewrite (uncertain_last _ _ _ Ha').
Qed.

(** ** Each command *)

Section Commands.
Context `{DeliveryCodec} (k : DeliveryKey) (r : DeliveryRecord) (rc : RecipientControl) (g : GlobalControl).
Hypothesis Hr : record_ok k r.
Hypothesis Hg : valid_global g = true.

Definition start : Work := {|
  wk_record := r; wk_recipient := rc; wk_global := g; wk_capacity_changed := false; wk_recipient_changed := false; wk_receipt := None |}.

Lemma refused_good reason : delta_good k (Some r) rc g (refused reason).
Proof. done. Qed.

(** A record whose attempts stay as they are *)
Lemma calm_good r1 o d : record_ok k r1 → dr_attempts r1 = dr_attempts r → (stuck r → stuck r1) →
  conclude (wk_projected (wk_with start r1) o) = Ok d → delta_good k (Some r) rc g d.
Proof.
  intros Hr1 Ha Hs. apply conclude_good; cbn; [done| |by apply fence_calm|unfold uncertain; by rewrite Ha].
  apply moved_projected, moved_with; [by apply moved_start|]. unfold owner_of. cbn. by rewrite Ha.
Qed.

(** A prepared attempt that gives its slot back *)
Lemma given_up r1 w el held o d : dr_eligibility r = ElPrepared → dr_attempts r1 = dr_attempts r → record_ok k r1 →
  el ≠ ElPrepared → el ≠ ElMutationArmed → release_prepared (wk_with start r1) = Ok w →
  conclude (wk_projected (wk_with w (dr_state (wk_record w) el held)) o) = Ok d → delta_good k (Some r) rc g d.
Proof.
  intros He Ha1 Hr1 E1 E2. destruct (prepared_last _ _ Hr He) as (front&a&Ha&Hf&H1&H2&H3&H4). unfold release_prepared. cbn [wk_with wk_record].
  rewrite (last_index_snoc r1 front a) by congruence.
  intros (Hm&Hb&Hw)%(release_moved k r rc g Hg _ _ a); [|by apply Hr1|congruence|unfold owner_of; by rewrite Ha1|done].
  rewrite H4, bool_decide_eq_true_2 in Hw by done. rewrite Hw. apply conclude_good; cbn.
  - apply (record_with k r1); [done|cbn; rewrite Ha1, Ha, !length_app; reflexivity|]. right. exists front, (am_hold CsReleased a).
    split_and!; [done|done|]. split_and!; cbn; [by rewrite H3|done|done].
  - apply moved_projected, moved_with; [done|]. by rewrite Hw.
  - rewrite Hb. eapply fence_prepared; [done|exact Ha|reflexivity|done|done|done|]. cbn. by rewrite H3.
  - by rewrite (uncertain_last _ _ _ Ha), H3.
Qed.

Lemma invalidate_good revision d : invalidate_prepared start revision = Ok d → delta_good k (Some r) rc g d.
Proof.
  unfold invalidate_prepared. cbn [start wk_record]. destruct (_ || _) eqn:E; [by intros [= <-]|].
  apply orb_false_iff in E as [_ E%negb_false_iff%bool_decide_eq_true]. destruct (is_none _); [by intros [= <-]|].
  intros (w&Hw&Hc)%result_bind_ok. refine (given_up r w _ _ (wk_receipt w) d _ _ _ _ _ Hw Hc); [done|done|done|..]; by destruct (_ <? _)%N.
Qed.

Lemma close_good d : close start = Ok d → delta_good k (Some r) rc g d.
Proof.
  unfold close. cbn [start wk_record]. destruct (_ && _); [by intros [= <-]|]. intros (w&Hw&Hc)%result_bind_ok. case_bool_decide as E.
  - by refine (given_up r w _ _ (wk_receipt w) d _ _ _ _ _ Hw Hc).
  - injection Hw as <-. eapply (calm_good (dr_state r ElHeld _) None); [| | |exact Hc]; [|done|].
    + apply record_with; [done|done|]. by eapply attempts_ok_held, Hr.
    + intros [[_ Hh]|Hh]; [left|by right]. cbn. by destruct Hh as [-> | ->]; auto.
Qed.

Lemma annotate_good text d : annotate start text = Ok d → delta_good k (Some r) rc g d.
Proof.
  unfold annotate. cbn [start wk_record]. intros (over&_&Hc)%result_bind_ok. destruct over; cbn [negb] in Hc.
  - destruct (_ && _); [by injection Hc as <-|]. apply result_bind_ok in Hc as (w&Hw&Hc). destruct (decide (dr_eligibility r = ElPrepared)) as [E|E]; [rewrite bool_decide_eq_true_2 in Hw by done|rewrite bool_decide_eq_false_2 in Hw by done].
    + by refine (given_up r w _ _ (wk_receipt w) d _ _ _ _ _ Hw Hc).
    + injection Hw as <-. eapply (calm_good (dr_state r ElHeld _) None); [| | |exact Hc]; [|done|].
      * apply record_with; [done|done|]. by eapply attempts_ok_held, Hr.
      * intros [[_ Hh]|Hh]; [left|by right]. cbn. case_bool_decide; auto.
  - eapply (calm_good _ None); [| | |exact Hc]; [by apply record_noted|done|done].
Qed.

Lemma manual_ack_good ctx input d : manual_ack ctx start input = Ok d → delta_good k (Some r) rc g d.
Proof.
  unfold manual_ack. cbn [start wk_record]. destruct (is_some _); [by intros [= <-]|]. destruct (_ && _); [by intros [= <-]|].
  intros (w&Hw&Hc)%result_bind_ok. set (r1 := dr_noted r _ _) in *. case_bool_decide as E.
  - apply result_bind_ok in Hw as (w1&Hw&[= <-]). destruct (tc_receipt ctx);
      [refine (given_up r1 w1 _ _ (Some _) d E eq_refl _ _ _ Hw Hc)|refine (given_up r1 w1 _ _ (wk_receipt w1) d E eq_refl _ _ _ Hw Hc)];
      by try apply record_noted.
  - injection Hw as <-. destruct (tc_receipt ctx); [eapply (calm_good r1 (Some _))|eapply (calm_good r1 None)]; try exact Hc; by try apply record_noted.
Qed.

(** The last attempt is found by its place. *)
Lemma last_place {A} (l : list A) i a : l !! i = Some a → S i = length l → ∃ front, l = front ++ [a] ∧ length front = i.
Proof.
  intros Hi Hl. destruct (attempts_split l) as [->|(front&x&->)]; [done|]. rewrite length_app in Hl. cbn in Hl.
  assert (i = length front) as -> by lia. rewrite list_lookup_middle in Hi by done. injection Hi as ->. by exists front.
Qed.

Lemma fence_answered new b front a front' a' e : dr_attempts r = front ++ [a] → ¬ stuck r → dr_attempts new = front' ++ [a'] →
  am_evidence a' = Some e → e ≠ MutationUnconfirmed → fence k (Some r) new b (if b == Some k then None else b).
Proof.
  intros Ha Hs Ha' He Hn.
  assert (¬ in_flight new) by (rewrite (flight_last _ _ _ Ha'), He; by intros [_ ?]).
  assert (¬ uncertain new) by (rewrite (uncertain_last _ _ _ Ha'), He; congruence).
  case_bool_decide; [by eapply fence_lowered|]. by apply fence_same.
Qed.

(** An attempt that is settled, where it was the last one *)
Definition closed (a a' : AttemptSummary) (e : DeliveryEvidence) : Prop :=
  am_binding a' = am_binding a ∧ am_armed_at a' = am_armed_at a ∧ am_evidence a' = Some e
  ∧ am_capacity a' = if am_capacity a == CsHeld then CsReleased else am_capacity a.

Lemma answer_moved f front a w e : dr_attempts r = front ++ [a] → am_binding (f a) = am_binding a → am_armed_at (f a) = am_armed_at a →
  am_capacity (f a) = am_capacity a → am_evidence (f a) = Some e →
  release_capacity (wk_with start (dr_attempt r (length front) f)) (length front) CsReleased = Ok w →
  moved k r rc g w ∧ rk_barrier (wk_recipient w) = rk_barrier rc
  ∧ ∃ a', wk_record w = dr_with r (dr_eligibility r) (dr_held r) (front ++ [a']) ∧ closed a a' e.
Proof.
  intros Ha F1 F2 F3 F4. intros (Hm&Hb&Hw)%(release_moved k r rc g Hg _ front (f a)); [|by apply Hr|cbn; by rewrite Ha, alter_last| |done].
  - split_and!; [done|done|]. rewrite Hw. exists (if am_capacity (f a) == CsHeld then am_hold CsReleased (f a) else f a). split; [done|]. unfold closed.
    rewrite <- F3. case_bool_decide; cbn; split_and!; congruence.
  - unfold owner_of. cbn. rewrite Ha, alter_last, !last_snoc. cbn. by rewrite F1, F3.
Qed.

(** A record whose last attempt was answered, in a state that promises nothing of it *)
Lemma record_closed front a a' e el held : dr_attempts r = front ++ [a] → closed a a' e → (e = MutationUnconfirmed → is_Some (am_armed_at a)) →
  el ≠ ElPrepared → (el = ElMutationArmed → is_Some (am_armed_at a) ∧ am_capacity a = CsRetired) → record_ok k (dr_with r el held (front ++ [a'])).
Proof.
  intros Ha (Hb&Hm&He&Hc) Hmu Hp Hma. apply record_with; [done|rewrite Ha, !length_app; reflexivity|]. right. exists front, a'.
  pose proof (rok_attempts _ _ Hr) as Hok. rewrite Ha in Hok. apply attempts_ok_last in Hok as [Hf _]. split_and!; [done|done|].
  split_and!; [rewrite He, Hm; by intros [= ->]; auto|done|]. intros E. destruct (Hma E) as [H1 H2]. rewrite Hm, Hc, H2. auto.
Qed.

Lemma release_good input d : release start input = Ok d → delta_good k (Some r) rc g d.
Proof.
  unfold release. cbn [start wk_record]. destruct (negb _); [by intros [= <-]|]. destruct (position _ _) as [i|]; [|by intros [= <-]].
  destruct (dr_attempts r !! i) as [a|] eqn:Ei; [|by intros [= <-]]. destruct (_ || _) eqn:E; [by intros [= <-]|].
  apply orb_false_iff in E as [[[[E1 E2]%orb_false_iff E3]%orb_false_iff E4]%orb_false_iff E5].
  apply negb_false_iff, Nat.eqb_eq in E1. destruct (last_place _ _ _ Ei E1) as (front&Ha&<-).
  apply negb_false_iff, orb_true_iff in E2. rewrite !bool_decide_eq_true in E2. apply negb_false_iff, orb_true_iff in E3.
  rewrite !bool_decide_eq_true in E3. apply bool_decide_eq_false in E4.
  intros (w&Hw&(w'&Hw'&Hc)%result_bind_ok)%result_bind_ok.
  apply (answer_moved _ front a w (ri_proof input)) in Hw as (Hm&Hb&a'&Hrec&Hcl); [|done..].
  assert (¬ stuck r) as Hst by (rewrite (stuck_last _ _ _ Ha); intros [[? _]|?]; [destruct E2; congruence|done]).
  apply (lower_barrier_ok k r rc g w w' Hm) in Hw' as (Hm'&Hrec'&Hb'); [|rewrite Hrec; by apply Hr].
  revert Hc. apply conclude_good; cbn.
  - rewrite Hrec', Hrec. unfold reopened, dr_state. cbn.
    apply (record_closed front a a' (ri_proof input)); [done|done|destruct E3; congruence|by destruct (_ <? _)%N..].
  - by apply moved_with.
  - rewrite Hb', Hb, Hrec', Hrec. eapply fence_answered; [done|done|reflexivity|apply Hcl|destruct E3; congruence].
  - rewrite (uncertain_last _ _ _ Ha). pose proof (rok_attempts _ _ Hr) as Hok. rewrite Ha in Hok. apply attempts_ok_last in Hok as [_ (_&C2&C3)].
    intros Hun. exfalso. destruct E2 as [E2|E2]; [destruct (C2 E2) as (_&_&?&_); congruence|]. destruct (C3 E2) as [_ [?|?]]; congruence.
Qed.

Lemma dr_with_self r1 : dr_with r1 (dr_eligibility r1) (dr_held r1) (dr_attempts r1) = r1.
Proof. by destruct r1. Qed.

Lemma held_record r1 front a held : record_ok k r1 → length (dr_attempts r1) = length (front ++ [a]) → Forall settled_past front →
  (am_evidence a = Some MutationUnconfirmed → is_Some (am_armed_at a)) → record_ok k (dr_with r1 ElHeld held (front ++ [a])).
Proof. intros H1 Hl Hf Hmu. apply record_with; [done|done|]. apply held_ok. right. eauto. Qed.

(** A contradicted record is held for good, behind the barrier. *)
Lemma contradict_good w d : dr_attempts r ≠ [] → contradict start = Ok w → conclude w = Ok d → delta_good k (Some r) rc g d.
Proof.
  intros Hne. destruct (attempts_split (dr_attempts r)) as [?|(front&a&Ha)]; [done|]. clear Hne.
  pose proof (rok_attempts _ _ Hr) as Hok. rewrite Ha in Hok. apply attempts_ok_last in Hok as [Hf [Hmu _]].
  unfold contradict. cbn [start wk_record]. rewrite (last_index_snoc _ _ _ Ha), Ha, last_snoc. intros (w1&Hw1&Hw)%result_bind_ok.
  assert (moved k r rc g w1 ∧ ∃ a', wk_record w1 = dr_with r (dr_eligibility r) (dr_held r) (front ++ [a'])
    ∧ am_armed_at a' = am_armed_at a ∧ am_evidence a' = am_evidence a) as (Hm&a'&Hrec&E1&E2).
  { destruct (is_none _).
    - apply (release_moved k r rc g Hg r front a) in Hw1 as (Hm&_&Hrec); [|by apply Hr|done..]. split; [done|]. eexists. split; [exact Hrec|].
      by case_bool_decide.
    - injection Hw1 as <-. split; [by apply moved_start|]. exists a. rewrite <- Ha. by rewrite dr_with_self. }
  apply (raise_barrier_ok k r rc g) in Hw as (Hm'&Hb&Hrec'); [|apply moved_with; [done|by rewrite Hrec]|cbn; rewrite Hrec; by apply Hr].
  cbn in Hrec'. rewrite Hrec in Hrec'. apply conclude_good; [|done|..]; rewrite Hrec'.
  - apply (held_record r); [done|rewrite Ha, !length_app; reflexivity|done|]. rewrite E1, E2. exact Hmu.
  - rewrite Hb. apply fence_raised; [done|left; cbn; auto|]. rewrite (flight_last _ front a'), E1, E2 by done. intros Hfl. exists r.
    split; [done|]. by rewrite (flight_last _ _ _ Ha).
  - by rewrite (uncertain_last _ _ _ Ha), (uncertain_last _ front a'), E2.
Qed.

(** What is armed and not answered, or holds a slot, can only be the last attempt. *)
Lemma open_is_last i a : dr_attempts r !! i = Some a → ¬ settled_past a → ∃ front, dr_attempts r = front ++ [a] ∧ length front = i.
Proof.
  intros Hi Ho. apply last_place; [done|]. destruct (attempts_split (dr_attempts r)) as [E|(front&x&Ha)]; [by rewrite E in Hi|].
  pose proof (rok_attempts _ _ Hr) as Hok. rewrite Ha in Hok, Hi |- *. apply attempts_ok_last in Hok as [Hf _]. rewrite length_app. cbn.
  apply lookup_app_Some in Hi as [Hi|[Hl Hi]].
  - rewrite Forall_forall in Hf. by destruct Ho; apply Hf; eapply list_elem_of_lookup_2.
  - apply list_lookup_singleton_Some in Hi as [? _]. lia.
Qed.

Lemma first_answer_good front a input detail w o d : dr_attempts r = front ++ [a] → is_Some (am_armed_at a) → am_evidence a = None →
  st_evidence input ≠ PreMutationRefused → first_answer start (length front) a input detail = Ok w →
  conclude (wk_projected w o) = Ok d → delta_good k (Some r) rc g d.
Proof.
  intros Ha Harm Hev Hpre. unfold first_answer. cbn [start wk_record]. generalize ((300 <? char_count (st_detail input))%N || evidence_long (st_evidence input)). intros over (w1&Hw1&Hw)%result_bind_ok.
  apply (answer_moved _ front a w1 (st_evidence input)) in Hw1 as (Hm&Hb&a'&Hrec&Hcl); [|done..].
  assert (am_evidence a' = Some (st_evidence input)) as Ea' by apply Hcl.
  assert (in_flight r) as Hfl by (rewrite (flight_last _ _ _ Ha); done).
  assert (∀ new, uncertain r → uncertain new) as Hun by (intros new; by rewrite (uncertain_last _ _ _ Ha), Hev).
  assert (dr_eligibility r ≠ ElPrepared) as Hnp.
  { intros E. destruct (prepared_last _ _ Hr E) as (f'&x&Hx&_&Hx1&_). rewrite Ha in Hx. apply List.app_inj_tail in Hx as [_ ->]. rewrite Hx1 in Harm. by destruct Harm. }
  destruct (_ || (_ && _)) eqn:E; [|destruct ((st_evidence input == MutationUnconfirmed) || _) eqn:E'].
  - injection Hw as <-. apply orb_true_iff in E. rewrite andb_true_iff, orb_true_iff, !bool_decide_eq_true in E.
    apply conclude_good; cbn; [|by apply moved_projected|rewrite Hb|apply Hun]; rewrite Hrec.
    + apply (record_closed front a a' (st_evidence input)); [done..|]. intros Em. split; [done|]. destruct E as [?|[? _]]; [done|congruence].
    + assert (stuck (dr_with r (dr_eligibility r) (dr_held r) (front ++ [a']))) as Hst.
      { apply (stuck_last _ front a'); [done|]. destruct E as [E|E]; [right|by left]. destruct Hcl as (_&_&_&->). by rewrite E. }
      apply fence_same; [done| | |].
      * rewrite (flight_last _ front a'), Ea' by done. by intros [_ ?].
      * intros _. exists r. auto.
      * intros _. exists r. auto.
  - apply (raise_barrier_ok k r rc g) in Hw as (Hm'&Hb'&Hrec'); [|apply moved_with; [done|by rewrite Hrec]|cbn; rewrite Hrec; by apply Hr].
    cbn in Hrec'. rewrite Hrec in Hrec'. apply conclude_good; cbn; [|by apply moved_projected|rewrite Hb'|apply Hun]; rewrite Hrec'.
    + apply (record_closed front a a' (st_evidence input)); done.
    + apply fence_raised; [done|left; cbn; split; [done|]; by destruct over; auto|].
      rewrite (flight_last _ front a'), Ea' by done. by intros [_ ?].
  - apply orb_false_iff in E as [E1%bool_decide_eq_false E2], E' as [E3%bool_decide_eq_false _].
    assert (¬ stuck r) as Hst.
    { rewrite (stuck_last _ _ _ Ha). intros [[H1 H2]|?]; [|done]. rewrite H1 in E2. destruct H2 as [H2|H2]; by rewrite H2 in E2. }
    apply result_bind_ok in Hw as (w2&Hw2&Hw). apply (lower_barrier_ok k r rc g w1 w2 Hm) in Hw2 as (Hm2&Hrec2&Hb2); [|rewrite Hrec; by apply Hr].
    rewrite Hrec2, Hrec in Hw. rewrite Hb in Hb2.
    assert (∃ el held x, w = wk_with w2 (dr_with r el held (front ++ [x])) ∧ el ≠ ElPrepared ∧ el ≠ ElMutationArmed ∧ closed a x (st_evidence input))
      as (el&held&x&->&G1&G2&G3).
    { case_bool_decide; injection Hw as <-; eexists _, _, _; (split; [unfold dr_state, dr_attempt; cbn; rewrite ?alter_last; reflexivity|]);
        split_and!; try done; by repeat case_match. }
    apply conclude_good; cbn; [|apply moved_projected, moved_with; [done|]|rewrite Hb2|apply Hun].
    + by apply (record_closed front a x (st_evidence input)).
    + rewrite Hrec2, Hrec. rewrite !(owner_last _ front x), !(owner_last _ front a') by done. destruct G3 as (->&_&_&->), Hcl as (->&_&_&->). done.
    + destruct G3 as (_&_&G3&_). by eapply fence_answered.
Qed.

Lemma settle_good ctx input d : settle ctx start input = Ok d → delta_good k (Some r) rc g d.
Proof.
  unfold settle. cbn [start wk_record]. destruct (position _ _) as [i|]; [|by intros [= <-]].
  destruct (dr_attempts r !! i) as [a|] eqn:Ei; [|by intros [= <-]]. destruct (_ || _) eqn:E; [by intros [= <-]|].
  apply orb_false_iff in E as [E1 E2%bool_decide_eq_false]. destruct (_ && _); [by intros [= <-]|]. destruct (negb _); [by intros [= <-]|].
  destruct (am_evidence a) as [e|] eqn:Ee; cbn [is_some].
  - intros (w&Hw&Hc)%result_bind_ok. eapply contradict_good; [|exact Hw|exact Hc]. intros E. by rewrite E in Ei.
  - destruct (negb _); [by intros [= <-]|]. intros (w&Hw&Hc)%result_bind_ok.
    assert (is_Some (am_armed_at a)) as Harm by (destruct (am_armed_at a); done).
    destruct (open_is_last i a Ei) as (front&Ha&<-); [intros (_&_&_&Hp); specialize (Hp Harm); congruence|].
    destruct (tc_receipt ctx) as [p|]; [destruct (handed_on _)|];
      [eapply (first_answer_good front a input _ w (Some _))|eapply (first_answer_good front a input _ w (wk_receipt w))..]; by try exact Hc.
Qed.

Lemma arm_good ctx input d : arm ctx start input = Ok d → delta_good k (Some r) rc g d.
Proof.
  unfold arm. cbn [start wk_record wk_recipient wk_global]. destruct (_ || _) eqn:E; [by intros [= <-]|].
  apply orb_false_iff in E as [_ E%negb_false_iff%bool_decide_eq_true]. destruct (prepared_last _ _ Hr E) as (front&a&Ha&Hf&H1&H2&H3&H4).
  rewrite (last_index_snoc _ _ _ Ha), Ha, last_snoc. destruct (_ || _); [by intros [= <-]|]. destruct (_ || _); [by intros [= <-]|].
  destruct (_ || _); [by intros [= <-]|]. intros (reason&_&Hd)%result_bind_ok. destruct reason; [by injection Hd as <-|].
  destruct (_ || is_some (rk_barrier rc)) eqn:E2; [by injection Hd as <-|]. apply orb_false_iff in E2 as [_ Hb].
  destruct (_ || _); [by injection Hd as <-|]. destruct (_ != _); [by injection Hd as <-|]. destruct (negb _); [by injection Hd as <-|].
  apply result_bind_ok in Hd as (digest&_&Hd). destruct (_ != _); [by injection Hd as <-|].
  apply result_bind_ok in Hd as (small&_&Hd). apply result_bind_ok in Hd as (fits&_&Hd). destruct (negb _); [by injection Hd as <-|].
  apply result_bind_ok in Hd as (n&_&Hd). apply result_bind_ok in Hd as (r'&Hr'&[= <-]). unfold delta_good. cbn.
  assert (dr_key r' = k) as -> by (apply dr_bump_ok in Hr' as [m ->]; exact (rok_key _ _ Hr)).
  eapply bumped_good; [exact Hr'|]. unfold dr_state, dr_attempt. rewrite Ha, alter_last. split.
  - apply (record_with k r); [done|cbn; rewrite Ha, !length_app; reflexivity|]. right. exists front, (arm_attempt (ai_frozen input) (ai_now input) a).
    split_and!; [done|done|]. split_and!; cbn; [by rewrite H3|done|]. intros _. split; [done|by left].
  - done.
  - by apply valid_global_count.
  - apply slots_same; [|done|done]. change (old_owner (Some r)) with (owner_of r). by rewrite (owner_last _ _ _ Ha), (owner_last _ front (arm_attempt (ai_frozen input) (ai_now input) a)).
  - cbn. apply fence_set; [by destruct (rk_barrier rc)|done|]. by rewrite (flight_last _ front (arm_attempt (ai_frozen input) (ai_now input) a)).
  - intros r0 [= <-]. by rewrite (uncertain_last _ _ _ Ha), H3.
Qed.

(** [transition_capacity_retirement] *)
Lemma retire_good ctx target d : tc_record ctx = Some r → tc_recipient ctx = rc → tc_global ctx = g →
  transition_capacity_retirement ctx target = Ok d →
  match cd_record d with
  | None => cd_recipient d = None ∧ cd_global d = None
  | Some new => ∃ rc' g', cd_recipient d = Some rc' ∧ cd_global d = Some g' ∧ good_change k (Some r) new rc rc' g g'
  end.
Proof.
  intros Er Erc Eg. unfold transition_capacity_retirement. rewrite Er, Erc, Eg. destruct (_ || _); [by intros [= <-]|].
  destruct (position _ _) as [i|]; [|by intros [= <-]]. destruct (dr_attempts r !! i) as [a|] eqn:Ei; [|by intros [= <-]].
  destruct (_ != CsHeld) eqn:Ec; [by intros [= <-]|]. apply negb_false_iff, bool_decide_eq_true in Ec.
  destruct (_ || _) eqn:E; [by intros [= <-]|]. apply orb_false_iff in E as [E _]. do 4 apply orb_false_iff in E as [E _].
  assert (is_Some (am_armed_at a)) as Harm by (destruct (am_armed_at a); done).
  destruct (open_is_last i a Ei) as (front&Ha&<-); [by intros (_&?&_)|]. intros (w&Hw&(r'&Hr'&[= <-])%result_bind_ok)%result_bind_ok. cbn.
  apply (release_moved k r rc g Hg r front a) in Hw as ([M1 M2 M3 _ _]&Hb&Hrec); [|by apply Hr|done..].
  rewrite bool_decide_eq_true_2 in Hrec by done. exists (wk_recipient w), (wk_global w). split_and!; [done|done|].
  eapply bumped_good; [exact Hr'|]. rewrite Hrec in *. pose proof (rok_attempts _ _ Hr) as Hok. rewrite Ha in Hok.
  apply attempts_ok_last in Hok as [Hf (C1&C2&C3)]. split; [|done|done|done| |].
  - apply record_with; [done|cbn; rewrite Ha, !length_app; reflexivity|]. right. exists front, (am_hold CsRetired a). split_and!; [done|done|].
    split_and!; cbn; [done| |by intros _; auto]. intros Ep. destruct (C2 Ep) as [E1 _]. rewrite E1 in Harm. by destruct Harm.
  - rewrite Hb. apply fence_same; [done| | |].
    + rewrite (flight_last _ front (am_hold CsRetired a)) by done. intros Hfl. exists r. by rewrite (flight_last _ _ _ Ha).
    + intros _. exists r. assert (stuck (dr_with r (dr_eligibility r) (dr_held r) (front ++ [am_hold CsRetired a]))); [|by auto].
      rewrite (stuck_last _ front (am_hold CsRetired a)) by done. by right.
    + rewrite (uncertain_last _ front (am_hold CsRetired a)) by done. intros Hun. exists r. rewrite (uncertain_last _ _ _ Ha). auto.
  - intros r0 [= <-]. by rewrite (uncertain_last _ _ _ Ha), (uncertain_last _ front (am_hold CsRetired a)).
Qed.
End Commands.

(** [prepare], which may have no record yet *)
Section Preparing.
Context `{DeliveryCodec} (ctx : TransitionContext).
Hypothesis Hold : ∀ r, tc_record ctx = Some r → record_ok (tc_key ctx) r
  ∧ ∀ b, owner_of r = Some b → rk_active (tc_recipient ctx) = Some {| ao_key := tc_key ctx; ao_attempt := b |}.
Hypothesis Hg : valid_global (tc_global ctx) = true.

Lemma past_settled r : record_ok (tc_key ctx) r → owner_of r = None →
  existsb (fun a => is_some (am_armed_at a) && ((am_evidence a != Some DefinitiveNoMutation) || (am_capacity a != CsReleased))) (dr_attempts r) = false →
  Forall settled_past (map am_unfreeze (dr_attempts r)).
Proof.
  intros Hr Ho Hx. destruct (rok_attempts _ _ Hr) as [(->&_)|(front&a&Ha&Hf&Hmu&_)]; [by constructor|]. rewrite Ha in Hx |- *.
  rewrite map_app. apply Forall_app. split.
  - apply Forall_map. eapply Forall_impl; [exact Hf|]. by intros x (?&?&?&?).
  - rewrite existsb_app in Hx. apply orb_false_iff in Hx as [_ Hx]. cbn in Hx. rewrite orb_false_r in Hx. rewrite (owner_last _ _ _ Ha) in Ho.
    constructor; [|by constructor].
    assert (is_Some (am_armed_at a) → am_evidence a = Some DefinitiveNoMutation) as Harm.
    { intros [t E]. rewrite E in Hx. cbn in Hx. apply orb_false_iff in Hx as [Hx _]. by apply negb_false_iff, bool_decide_eq_true in Hx. }
    split_and!; cbn; [done| | |exact Harm].
    + intros Ec. rewrite Ec in Ho. done.
    + intros Em. specialize (Harm (Hmu Em)). congruence.
Qed.

Lemma prepare_good input d : bn_recipient_id (rk_binding (tc_recipient ctx)) = dk_recipient_id (tc_key ctx) → prepare ctx input = Ok d →
  delta_good (tc_key ctx) (tc_record ctx) (tc_recipient ctx) (tc_global ctx) d.
Proof.
  intros Hid. unfold prepare. destruct (_ && _); [by intros [= <-]|].
  destruct (is_some_and (tc_record ctx) (fun r => (3 <=? dr_prepares r)%N)) eqn:E3.
  { destruct (tc_record ctx) as [r|] eqn:Er; [|by intros [= <-]]. case_bool_decide as E; [|by intros [= <-]].
    destruct (Hold r eq_refl) as [Hr _]. intros (r'&Hr'&[= <-])%result_bind_ok. eapply bumped_good; [exact Hr'|]. cbn. split.
    - apply record_with; [done|done|]. by eapply attempts_ok_held, Hr.
    - done.
    - by apply valid_global_count.
    - by apply slots_same.
    - apply fence_calm; [done|]. intros [[? _]|?]; [congruence|by right].
    - by intros r0 [= <-]. }
  match goal with |- (if ?b then _ else _) = Ok _ → _ => destruct b; [by intros [= <-]|] end.
  destruct (is_some_and (tc_record ctx) (fun r => existsb _ _)) eqn:Epast; [by intros [= <-]|].
  intros (reason&_&Hd)%result_bind_ok. destruct reason; [by injection Hd as <-|].
  destruct (_ || _) eqn:Ebind; [by injection Hd as <-|]. apply orb_false_iff in Ebind as [Ebind%negb_false_iff%bool_decide_eq_true _].
  destruct (negb _); [by injection Hd as <-|]. destruct (is_some (rk_barrier _)) eqn:Eb; [by injection Hd as <-|].
  destruct (_ || _) eqn:Ecap; [by injection Hd as <-|]. apply orb_false_iff in Ecap as [Ecap%N.leb_gt Eact].
  apply result_bind_ok in Hd as (ok&_&Hd). destruct (negb _); [by injection Hd as <-|]. destruct (existsb _ _); [by injection Hd as <-|].
  apply result_bind_ok in Hd as (r'&Hr'&Hd). apply result_bind_ok in Hd as (fits&_&Hd). destruct (negb _); [by injection Hd as <-|].
  apply result_bind_ok in Hd as (n&_&Hd). apply result_bind_ok in Hd as (m&_&[= <-]). unfold delta_good. cbn.
  assert (rk_active (tc_recipient ctx) = None) as Hact by (by destruct (rk_active _)).
  assert (rk_barrier (tc_recipient ctx) = None) as Hbar by (by destruct (rk_barrier _)).
  set (r := unwrap_or (tc_record ctx) _) in *. 
  assert (old_owner (tc_record ctx) = None ∧ record_ok (tc_key ctx) r ∧ (dr_prepares r < 3)%N ∧ Forall settled_past (map am_unfreeze (dr_attempts r))
    ∧ ∀ r0, tc_record ctx = Some r0 → r0 = r) as (Ho&Hr&Hp&Hpast&Hr0).
  { unfold old_owner, r. destruct (tc_record ctx) as [r0|] eqn:Er; cbn [unwrap_or].
    - destruct (Hold r0 eq_refl) as [Hr0 Hown]. assert (owner_of r0 = None) as E by (destruct (owner_of r0); [by rewrite (Hown _ eq_refl) in Hact|done]).
      cbn in E3. apply N.leb_gt in E3. split_and!; [exact E|done|done|by apply past_settled|by intros ? [= <-]].
    - split_and!; [done| |done|by constructor|done]. split; cbn; [done|done|congruence|lia|done|by left]. }
  eapply bumped_good; [exact Hr'|]. rewrite (rok_prepares _ _ Hr) in Hp. split.
  - destruct Hr as [R1 R2 R3 R4 R5 R6]. split; cbn; [done|done|done| | |].
    + rewrite length_app, length_map. unfold len in Hp. cbn. lia.
    + rewrite R5. unfold len. rewrite length_app, length_map. cbn. lia.
    + right. eexists _, _. split_and!; [reflexivity|done|]. split_and!; cbn; done.
  - done.
  - cbn. destruct (valid_global_count _ Hg) as [[Hc Hl] _]. rewrite Hc in *. unfold len in *. rewrite length_app. cbn. lia.
  - eapply slots_taken; [done| |done|done|done]. by rewrite (owner_last _ (map am_unfreeze (dr_attempts r)) (new_summary input)).
  - cbn [rk_barrier rk_with]. rewrite Hbar. apply fence_same; [done| |done|].
    + rewrite (flight_last _ (map am_unfreeze (dr_attempts r)) (new_summary input)) by done. by intros [[] _].
    + by rewrite (uncertain_last _ (map am_unfreeze (dr_attempts r)) (new_summary input)).
  - intros r0 Er0 (a&Ha&He). rewrite (Hr0 r0 Er0) in Ha. rewrite Forall_map, Forall_forall in Hpast.
    destruct (Hpast a) as (_&_&Hmu&_); [by apply last_Some_elem_of|done].
Qed.
End Preparing.

(** ** Every command *)

Section Histories.
Context `{DeliveryCodec}.

(** The rows a command reads, where the invariant holds *)
Record reads (s : Managed) (g : GlobalControl) (ctx : TransitionContext) : Prop := {
  rd_record : tc_record ctx = mm_records s !! tc_key ctx;
  rd_recipient : mm_recipients s !! dk_recipient_id (tc_key ctx) = Some (tc_recipient ctx);
  rd_global : tc_global ctx = g;
}.

Lemma delivery_context_reads s g e c ctx : deliveries_ok s g → delivery_context s e c = Ok (Some ctx) → reads s g ctx ∧ tc_key ctx = command_key c.
Proof.
  intros Hs. unfold delivery_context. intros (sk&_&Hc)%result_bind_ok.
  destruct (mm_recipients s !! _) as [rc|] eqn:Erc; [|done]. rewrite (do_global _ _ Hs) in Hc.
  repeat (case_match; [|done..]). injection Hc as <-. by split.
Qed.

Lemma reads_old s g ctx r : deliveries_ok s g → reads s g ctx → tc_record ctx = Some r → record_ok (tc_key ctx) r
  ∧ ∀ b, owner_of r = Some b → rk_active (tc_recipient ctx) = Some {| ao_key := tc_key ctx; ao_attempt := b |}.
Proof.
  intros Hs [H1 H2 H3] Er. rewrite Er in H1. symmetry in H1. split; [by apply (do_records _ _ Hs)|]. intros b Hb.
  apply (proj2 (do_recipients _ _ Hs _ _ H2)). split; [|done]. apply (do_owners _ _ Hs). eauto.
Qed.

Lemma transition_good s g ctx c d : deliveries_ok s g → reads s g ctx → transition ctx c = Ok d →
  delta_good (tc_key ctx) (tc_record ctx) (tc_recipient ctx) (tc_global ctx) d.
Proof.
  intros Hs Hrd. assert (valid_global (tc_global ctx) = true) as Hg by (rewrite (rd_global _ _ _ Hrd); by apply (do_valid _ _ Hs)).
  assert (∀ reason, delta_good (tc_key ctx) (tc_record ctx) (tc_recipient ctx) (tc_global ctx) (refused reason)) as Href by done.
  unfold transition. rewrite Hg. cbn [negb]. destruct (negb _); [by intros [= <-]|].
  destruct c as [input|c|c|c|c|k n t|k t|k].
  { apply prepare_good; [by intros r; apply (reads_old s g)|done|]. by apply (do_recipients _ _ Hs _ _ (rd_recipient _ _ _ Hrd)). }
  all: destruct (tc_record ctx) as [r|] eqn:Er; [|by intros [= <-]]; destruct (is_none_or _ _); [by intros [= <-]|].
  all: destruct (reads_old s g ctx r Hs Hrd Er) as [Hr _].
  - by apply arm_good.
  - by apply release_good.
  - by apply settle_good.
  - by apply manual_ack_good.
  - by apply invalidate_good.
  - by apply annotate_good.
  - by apply close_good.
Qed.

(** What is never undone: a record stays, and stays uncertain. *)
Definition uncertainty_kept (s s' : Managed) : Prop :=
  ∀ k r, mm_records s !! k = Some r → uncertain r → ∃ r', mm_records s' !! k = Some r' ∧ uncertain r'.

Lemma rows_same s s' g : deliveries_ok s g → mm_records s' = mm_records s → mm_recipients s' = mm_recipients s → mm_global s' = mm_global s →
  deliveries_ok s' g ∧ uncertainty_kept s s'.
Proof. intros [] E1 E2 E3. split; [by split; rewrite ?E1, ?E2, ?E3|]. intros k r. rewrite E1. eauto. Qed.

Lemma change_kept s g k rc new rc' g' s' : deliveries_ok s g → mm_recipients s !! dk_recipient_id k = Some rc →
  good_change k (mm_records s !! k) new rc rc' g g' → changed s new rc' g' s' → deliveries_ok s' g' ∧ uncertainty_kept s s'.
Proof.
  intros Hs Hrc Hgood Hch. split; [by eapply good_change_keeps|]. destruct Hch as (Er&_). rewrite (rok_key _ _ (gc_record _ _ _ _ _ _ _ Hgood)) in Er.
  intros k' r Hr Hu. rewrite Er. destruct (decide (k = k')) as [<-|Hne].
  - rewrite lookup_insert_eq. exists new. split; [done|]. by eapply (gc_kept _ _ _ _ _ _ _ Hgood).
  - rewrite lookup_insert_ne by done. eauto.
Qed.

Lemma put_optional {K A} `{Countable K} (f : A → K) (o : option A) (a : A) (m : gmap K A) : m !! f a = Some a →
  put f o m = <[f (unwrap_or o a) := unwrap_or o a]> m.
Proof. intros Ha. destruct o; [done|]. cbn. by rewrite insert_id. Qed.

Lemma apply_keeps s g e c : deliveries_ok s g → ∃ g', deliveries_ok (apply_delivery s e c).2 g' ∧ uncertainty_kept s (apply_delivery s e c).2.
Proof.
  intros Hs. unfold apply_delivery. destruct (delivery_context s e c) as [[ctx|]|err] eqn:Ectx; [|exists g; by apply rows_same..].
  destruct (delivery_context_reads _ _ _ _ _ Hs Ectx) as [Hrd _]. destruct (transition ctx c) as [d|err] eqn:Et; [|exists g; by apply rows_same].
  pose proof (transition_good _ _ _ _ _ Hs Hrd Et) as Hd. destruct Hrd as [H1 H2 H3]. unfold delta_good in Hd. cbn. destruct (dd_record d) as [new|] eqn:Ed.
  - rewrite H1, H3 in Hd. eexists. eapply change_kept; [done|exact H2|exact Hd|]. unfold changed, commit_delivery. rewrite Ed. cbn. split_and!; [done| |].
    + apply (put_optional (fun r => bn_recipient_id (rk_binding r))). by rewrite (proj1 (do_recipients _ _ Hs _ _ H2)).
    + rewrite (do_global _ _ Hs). by destruct (dd_global d).
  - exists g. destruct Hd as [E1 E2]. apply rows_same; [done|..]; cbn; rewrite ?Ed, ?E1, ?E2; done.
Qed.

Lemma retire_keeps s g e t : deliveries_ok s g →
  ∃ g', deliveries_ok (retire_orphan_capacity s e t).2 g' ∧ uncertainty_kept s (retire_orphan_capacity s e t).2.
Proof.
  intros Hs. unfold retire_orphan_capacity. destruct (_ != _); [exists g; by apply rows_same|].
  destruct (delivery_context s e _) as [[ctx|]|err] eqn:Ectx; [|exists g; by apply rows_same..].
  destruct (delivery_context_reads _ _ _ _ _ Hs Ectx) as [Hrd _]. destruct (transition_capacity_retirement ctx t) as [d|err] eqn:Et; [|exists g; by apply rows_same].
  destruct (tc_record ctx) as [r|] eqn:Er; cycle 1.
  { unfold transition_capacity_retirement in Et. rewrite Er in Et. injection Et as <-. exists g. by apply rows_same. }
  destruct (reads_old s g ctx r Hs Hrd Er) as [Hr _]. destruct Hrd as [H1 H2 H3]. rewrite Er in H1.
  pose proof (retire_good _ _ _ _ Hr (do_valid _ _ Hs) _ _ _ Er eq_refl H3 Et) as Hd. cbn. destruct (cd_record d) as [new|] eqn:Ed.
  - destruct Hd as (rc'&g'&E1&E2&Hd). rewrite H1 in Hd. eexists. eapply change_kept; [done|exact H2|exact Hd|]. rewrite E1, E2. done.
  - exists g. destruct Hd as [E1 E2]. apply rows_same; [done|..]; cbn; rewrite ?E1, ?E2; done.
Qed.

Lemma enroll_keeps s g r : deliveries_ok s g → enrolls s r → deliveries_ok (with_recipient s r) g ∧ uncertainty_kept s (with_recipient s r).
Proof.
  intros Hs He. split; [|intros k r' Hr' Hu; exists r'; done]. unfold enrolls in He. remember (bn_recipient_id (rk_binding r)) as id eqn:Eid.
  assert (∀ id' rc, mm_recipients (with_recipient s r) !! id' = Some rc → (id' = id ∧ rc = r) ∨ mm_recipients s !! id' = Some rc) as Hrc.
  { intros id' rc. cbn. rewrite <- Eid. intros [[<- <-]|[_ ?]]%lookup_insert_Some; [by left|by right]. }
  assert (∀ k r', mm_records s !! k = Some r' → dk_recipient_id k = id → ∃ old, mm_recipients s !! id = Some old ∧ rk_barrier r = rk_barrier old) as Hold.
  { intros k r' Hk Ek. destruct (do_records _ _ Hs _ _ Hk) as [_ [old Ho]]. rewrite Ek in Ho. exists old. split; [done|]. rewrite Ho in He. apply He. }
  destruct Hs as [D1 D2 D3 D4 D5 D6 D7 D8 D9]. split; try done.
  - intros k r' Hk. destruct (D3 _ _ Hk) as [? ?]. split; [done|]. cbn. apply lookup_insert_is_Some'. by right.
  - intros id' rc [[-> ->]|Hid]%Hrc; [|by apply D4]. split; [done|]. intros o.
    destruct (mm_recipients s !! id) as [old|] eqn:Eo.
    + destruct He as [-> _]. by apply (D4 _ _ Eo).
    + destruct He as [-> _]. split; [done|]. intros [Hin Ho]. apply D5 in Hin as (r'&Hr'&_). destruct (D3 _ _ Hr') as [_ [? ?]]. congruence.
  - intros k r' rc Hk [[Ei ->]|Hid]%Hrc Hf; [|by eapply D6]. destruct (Hold _ _ Hk Ei) as (old&Ho&->). rewrite <- Ei in Ho. by eapply D6.
  - intros id' rc k [[-> ->]|Hid]%Hrc Hb; [|by eapply D7].
    destruct (mm_recipients s !! id) as [old|] eqn:Eo; [|by destruct He as [_ He]; rewrite He in Hb]. destruct He as [_ He]. rewrite He in Hb. by eapply D7.
  - intros k r' rc Hk [[Ei ->]|Hid]%Hrc Hu; [|by eapply D9]. destruct (Hold _ _ Hk Ei) as (old&Ho&->). rewrite <- Ei in Ho. by eapply D9.
Qed.

Lemma step_keeps s s' g : deliveries_ok s g → delivery_step s s' → ∃ g', deliveries_ok s' g' ∧ uncertainty_kept s s'.
Proof.
  intros Hs [e c|e t|r Hr|inbox]; [by eapply apply_keeps|by eapply retire_keeps|exists g; by apply enroll_keeps|exists g; by apply rows_same].
Qed.

Lemma none_ok s : no_deliveries s → ∃ g, deliveries_ok s g.
Proof.
  intros (E1&E2&E3). eexists. split; [exact E3|reflexivity|..]; rewrite ?E1, ?E2; intros *; rewrite ?lookup_empty; try done.
  cbn. split; [by intros ?%elem_of_nil|]. by intros (?&?&_).
Qed.

Lemma delivery_reachable_ok s : delivery_reachable s → ∃ g, deliveries_ok s g.
Proof. induction 1 as [s Hs|s s' _ [g IH] Hstep]; [by apply none_ok|]. destruct (step_keeps _ _ _ IH Hstep) as (g'&?&_). eauto. Qed.

Lemma later_keeps s s' g : rtc delivery_step s s' → deliveries_ok s g → ∃ g', deliveries_ok s' g' ∧ uncertainty_kept s s'.
Proof.
  intros Hst. revert g. induction Hst as [s|s s1 s' Hstep _ IH]; intros g Hs; [exists g; by apply rows_same|].
  destruct (step_keeps _ _ _ Hs Hstep) as (g1&Hs1&Hk1). destruct (IH g1 Hs1) as (g'&?&Hk2). exists g'. split; [done|].
  intros k r Hr Hu. destruct (Hk1 _ _ Hr Hu) as (r1&Hr1&Hu1). eauto.
Qed.

(** ** What holds after any history *)

(** The message may have reached the recipient by this attempt; its answer is still out. *)
Definition may_have_reached (a : AttemptSummary) : Prop := is_Some (am_armed_at a) ∧ am_evidence a ≠ Some DefinitiveNoMutation.
Definition unanswered (a : AttemptSummary) : Prop := is_Some (am_armed_at a) ∧ am_evidence a = None.

Lemma in_attempts k r a : record_ok k r → a ∈ dr_attempts r → ¬ settled_past a → last (dr_attempts r) = Some a.
Proof.
  intros Hr [i Hi]%list_elem_of_lookup Ho. destruct (open_is_last k r Hr i a Hi Ho) as (front&->&_). apply last_snoc.
Qed.

Lemma reached_once k r i j a b : record_ok k r → dr_attempts r !! i = Some a → dr_attempts r !! j = Some b →
  may_have_reached a → may_have_reached b → i = j.
Proof.
  intros Hr Hi Hj [A1 A2] [B1 B2]. destruct (open_is_last k r Hr i a Hi) as (f&E&<-); [by intros (_&_&_&Hp); apply A2, Hp|].
  destruct (open_is_last k r Hr j b Hj) as (f'&E'&<-); [by intros (_&_&_&Hp); apply B2, Hp|]. rewrite E in E'. by apply List.app_inj_tail in E' as [-> _].
Qed.

Lemma unanswered_flight k r a : record_ok k r → a ∈ dr_attempts r → unanswered a → in_flight r.
Proof.
  intros Hr Ha [H1 H2]. exists a. split; [|done]. eapply in_attempts; [done|done|]. intros (_&_&_&Hp). specialize (Hp H1). congruence.
Qed.

Lemma owner_of_held k r b : record_ok k r → owner_of r = Some b ↔ ∃ a, a ∈ dr_attempts r ∧ am_binding a = b ∧ am_capacity a = CsHeld.
Proof.
  intros Hr. split.
  - unfold owner_of. destruct (last (dr_attempts r)) as [a|] eqn:E; cbn; [|done]. case_bool_decide; [|done]. intros [= <-]. exists a.
    split; [by apply last_Some_elem_of|done].
  - intros (a&Ha&<-&Hc). unfold owner_of. rewrite (in_attempts k r a Hr Ha) by (by intros (_&?&_)). cbn. by rewrite bool_decide_eq_true_2.
Qed.

Lemma owners_listed s g : deliveries_ok s g → ∃ l, active_delivery_owners s = Ok l ∧ map ct_owner l = gl_active_index g.
Proof.
  intros Hs. unfold active_delivery_owners. rewrite (do_global _ _ Hs), (do_valid _ _ Hs). cbn [negb].
  assert (∀ o, o ∈ gl_active_index g → ∃ r rc, mm_records s !! ao_key o = Some r ∧ mm_recipients s !! dk_recipient_id (ao_key o) = Some rc
    ∧ rk_active rc = Some o ∧ existsb (fun a => (am_binding a == ao_attempt o) && (am_capacity a == CsHeld)) (dr_attempts r) = true) as Hin.
  { intros o Ho. destruct (proj1 (do_owners _ _ Hs o) Ho) as (r&Hr&Hb). destruct (do_records _ _ Hs _ _ Hr) as [Hok [rc Hrc]]. exists r, rc.
    split_and!; [done|done|by apply (do_recipients _ _ Hs _ _ Hrc)|]. apply (owner_of_held _ _ _ Hok) in Hb as (a&Ha&E1&E2). apply existsb_exists. exists a.
    split; [by apply list_elem_of_In|]. by rewrite E1, E2, !bool_decide_eq_true_2. }
  generalize dependent (gl_active_index g). intros l. induction l as [|o l IH]; intros Hin; [by exists []|].
  destruct (Hin o) as (r&rc&E1&E2&E3&E4); [by left|]. destruct IH as (l'&E5&E6); [intros o' Ho'; apply Hin; by right|].
  cbn [map_result]. rewrite E1, E2, E3, E4, bool_decide_eq_true_2 by done. cbn [negb orb result_bind]. rewrite E5. cbn. eexists. split; [done|]. cbn. by rewrite E6.
Qed.

(** After any history of commands, retirements, enrolments and receipts, on any surroundings: the shared count of active attempts is the
    length of the index and at most sixteen; the index lists exactly the attempts that hold a slot, and the sweep over it never finds it corrupt;
    every record passes the checks a transition makes of it, and at most one of its attempts may have reached the recipient; and of all the
    messages to a recipient at most one has an attempt that was armed and is not answered. *)
Theorem delivery_exclusive s : delivery_reachable s → ∃ g, mm_global s = Some g
  ∧ gl_active_attempts g = len (gl_active_index g) ∧ (len (gl_active_index g) ≤ 16)%N
  ∧ (∀ o, o ∈ gl_active_index g ↔ ∃ r a, mm_records s !! ao_key o = Some r ∧ a ∈ dr_attempts r ∧ am_binding a = ao_attempt o ∧ am_capacity a = CsHeld)
  ∧ (∃ l, active_delivery_owners s = Ok l ∧ map ct_owner l = gl_active_index g)
  ∧ (∀ k r, mm_records s !! k = Some r → valid_record r k = true
      ∧ ∀ i j a b, dr_attempts r !! i = Some a → dr_attempts r !! j = Some b → may_have_reached a → may_have_reached b → i = j)
  ∧ (∀ k k' r r' a a', mm_records s !! k = Some r → mm_records s !! k' = Some r' → dk_recipient_id k = dk_recipient_id k' →
      a ∈ dr_attempts r → a' ∈ dr_attempts r' → unanswered a → unanswered a' → k = k').
Proof.
  intros [g Hs]%delivery_reachable_ok. exists g. destruct (valid_global_count _ (do_valid _ _ Hs)) as [[Hc Hl] _].
  assert (∀ k r, mm_records s !! k = Some r → record_ok k r) as Hok by (intros k r Hr; by apply (do_records _ _ Hs)).
  split_and!; [by apply Hs|done|done| |by apply owners_listed| |].
  - intros o. rewrite (do_owners _ _ Hs). split.
    + intros (r&Hr&(a&?&?&?)%(owner_of_held _ _ _ (Hok _ _ Hr))). eauto 10.
    + intros (r&a&Hr&?&?&?). exists r. split; [done|]. apply (owner_of_held _ _ _ (Hok _ _ Hr)). eauto.
  - intros k r Hr%Hok. split; [by apply record_ok_valid|]. intros i j a b. by eapply reached_once.
  - intros k k' r r' a a' Hr Hr' Hk Ha Ha' Hu Hu'. eapply (do_alone _ _ Hs); [exact Hr|exact Hr'|done|..]; eapply unanswered_flight; eauto.
Qed.

(** A delta that grants nothing to send *)
Definition grants (d : DeliveryDelta) : bool := match dd_result d with RPrepared _ | RArmed _ => true | _ => false end.

Lemma conclude_grants w d : conclude w = Ok d → grants d = false.
Proof. by intros (r&_&[= <-])%result_bind_ok. Qed.

Ltac ungranted := repeat match goal with
  | |- Ok _ = Ok _ → _ => by intros [= <-]
  | |- conclude _ = Ok _ → _ => apply conclude_grants
  | |- (if ?b then _ else _) = Ok _ → _ => destruct b
  | |- match ?o with Some _ => _ | None => _ end = Ok _ → _ => destruct o
  | |- result_bind _ _ = Ok _ → _ => let x := fresh in let Hx := fresh in intros (x&_&Hx)%result_bind_ok; revert Hx
  end.

(** Only preparing and arming can, and not past a barrier. *)
Lemma barred ctx c d : is_Some (rk_barrier (tc_recipient ctx)) → transition ctx c = Ok d → grants d = false.
Proof.
  intros Hb. assert (is_some (rk_barrier (tc_recipient ctx)) = true) as Eb by (by destruct Hb as [? ->]).
  unfold transition. destruct (negb _); [by intros [= <-]|]. destruct (negb _); [by intros [= <-]|].
  destruct c as [input|c|c|c|c|k n t|k t|k]; [|destruct (tc_record ctx) as [r|]; [|by intros [= <-]]; destruct (is_none_or _ _); [by intros [= <-]|]..].
  - unfold prepare. rewrite Eb. ungranted.
  - unfold arm. cbn [wk_record wk_recipient wk_global]. rewrite Eb, orb_true_r. ungranted.
  - unfold release. ungranted.
  - unfold settle. ungranted.
  - unfold manual_ack. ungranted.
  - unfold invalidate_prepared. ungranted.
  - unfold annotate. ungranted.
  - unfold close. ungranted.
Qed.

(** Once an attempt's outcome is recorded as unconfirmed, its recipient is fenced: after any further history no command to it, for this
    message or another, is answered with an attempt to prepare or to arm. *)
Theorem uncertain_never_resent s s' k r a e c : delivery_reachable s → mm_records s !! k = Some r → a ∈ dr_attempts r →
  am_evidence a = Some MutationUnconfirmed → rtc delivery_step s s' → dk_recipient_id (command_key c) = dk_recipient_id k →
  match (apply_delivery s' e c).1 with Ok (RPrepared _ | RArmed _) => False | _ => True end.
Proof.
  intros [g Hs]%delivery_reachable_ok Hr Ha Hev Hst Hc. destruct (later_keeps _ _ _ Hst Hs) as (g'&Hs'&Hkept).
  assert (uncertain r) as Hu. { exists a. split; [|done]. eapply in_attempts; [by apply (do_records _ _ Hs)|done|]. by intros (_&_&?&_). }
  destruct (Hkept _ _ Hr Hu) as (r'&Hr'&Hu'). unfold apply_delivery. destruct (delivery_context s' e c) as [[ctx|]|] eqn:Ectx; [|done..].
  destruct (transition ctx c) as [d|] eqn:Et; [|done]. destruct (delivery_context_reads _ _ _ _ _ Hs' Ectx) as [[_ Hrc _] Hk].
  rewrite Hk, Hc in Hrc. destruct (do_uncertain _ _ Hs' _ _ _ Hr' Hrc Hu') as (k0&r0&Hb&_).
  assert (grants d = false) as Hg by (eapply barred; [by eexists|exact Et]). unfold grants in Hg. cbn. by destruct (dd_result d).
Qed.
End Histories.

(** ** A message that may or may not have arrived *)

Module Demo.
(** Rows are short, and a digest is what it digests. *)
#[local] Instance codec : DeliveryCodec := {| summary_json _ := Ok 100%N; record_json _ := Ok 1000%N; sha256 b := b |}.

Definition key : DeliveryKey := {| dk_original_id := "urn:uuid:m1"; dk_recipient_id := "urn:uuid:a1" |}.
Definition binding : Binding := {|
  bn_recipient_id := "urn:uuid:a1"; bn_binding_revision := 1%N; bn_authority_id := "ai-lab-0"; bn_local_epoch := 1%N; bn_policy_hash := [] |}.
Definition lifetime : LifetimeRegistration := {|
  lr_id := chars "l"; lr_revision := 1%N; lr_home := []; lr_boot := []; lr_instance := chars "d"; lr_worker := chars "w";
  lr_connection := chars "c"; lr_emitter_scope := [] |}.
Definition attempt_binding : AttemptBinding := {|
  ab_token := chars "t"; ab_daemon := chars "d"; ab_worker := chars "w"; ab_connection := chars "c"; ab_lane := Push; ab_lifetime := lifetime |}.
Definition route_pin : RoutePin := {|
  ro_thread_id := "thread"; ro_generation := 1%N; ro_fingerprint := []; ro_executable := None; ro_executable_digest := None |}.
Definition message : WireMessage := {|
  wm_id := "urn:uuid:m1"; wm_thread_id := "urn:uuid:m1"; wm_reply_to := None; wm_correlation_id := None; wm_sender_id := None;
  wm_sender_name := "bob"; wm_sender_host := None; wm_to := AgentName "ann"; wm_kind := Mail; wm_urgency := Normal; wm_durable := true;
  wm_subject := "hello"; wm_body := "there"; wm_created_at := "2026-01-02T00:00:00.000Z"; wm_deadline_at := None |}.
Definition receipt : DeliveryReceipt := {|
  rp_message_id := "urn:uuid:m1"; rp_recipient_id := "urn:uuid:a1"; rp_recipient_name := "ann"; rp_status := DsPending; rp_attempts := 0;
  rp_updated_at := "2026-01-02T00:00:00.000Z"; rp_acked_at := None |}.
Definition ann : AgentRecord := {|
  ag_id := "urn:uuid:a1"; ag_name_key := "ann"; ag_display_name := "Ann"; ag_email := "ann@example.com"; ag_project := "p"; ag_role := UiDeveloper;
  ag_extra_areas := []; ag_status := Active; ag_updated_at := "2026-01-01T00:00:00.000Z"; ag_by := "bob" |}.

Definition world : Surroundings := {|
  su_continuity := Some {| cn_schema := 1%N; cn_cutover := "2026-01-01T00:00:00.000Z"; cn_policy_hash := []; cn_local_epoch := 1%N; cn_enabled := true;
                           cn_intact := true |};
  su_messages := {[ "urn:uuid:m1" := message ]}; su_receipt_keys := {[ key := "urn:uuid:a1" ]}; su_agents := {[ "urn:uuid:a1" := ann ]};
  su_identities := <["sel" := Unique "urn:uuid:a1" 1%N]> {[ "name:ann" := Unique "urn:uuid:a1" 1%N ]};
  su_admissions := {[ chars "l" := lifetime ]}; su_ended_scopes := ∅; su_selector_key := fun _ => Ok "sel" |}.

Definition generation : Digest := match generation_bytes message with Ok b => b | Err _ => [] end.
Definition frozen : FrozenPayload := {|
  fz_renderer := PEER_RENDERER_VERSION; fz_transport := Queue; fz_expected_turn := None; fz_bytes := chars "hi";
  fz_digest := match payload_bytes generation PEER_RENDERER_VERSION (chars "hi") with Ok b => b | Err _ => [] end |}.

Definition prepare_it : DeliveryCommand := Prepare {|
  pi_key := key; pi_generation := generation; pi_binding := binding; pi_attempt := attempt_binding; pi_route := route_pin;
  pi_now := "2026-01-03T00:00:00.000Z" |}.
Definition arm_it : DeliveryCommand := Arm {|
  ai_key := key; ai_revision := 1%N; ai_attempt := attempt_binding; ai_route := route_pin; ai_frozen := frozen; ai_now := "2026-01-03T00:00:01.000Z" |}.
Definition settle_it : DeliveryCommand := Settle {|
  st_key := key; st_revision := 2%N; st_attempt := attempt_binding; st_evidence := MutationUnconfirmed; st_detail := "no answer";
  st_now := "2026-01-03T00:00:02.000Z" |}.

Definition before : Managed := {|
  mm_records := ∅; mm_reservations := ∅; mm_recipients := ∅;
  mm_global := Some {| gl_revision := 0%N; gl_active_attempts := 0%N; gl_active_index := [] |}; mm_inbox := {[ ("urn:uuid:a1", "urn:uuid:m1") := receipt ]} |}.
Definition enrolled : Managed := with_recipient before {|
  rk_binding := binding; rk_revision := 0%N; rk_active := None; rk_barrier := None; rk_identity_conflict := false |}.
Definition prepared : Managed := (apply_delivery enrolled world prepare_it).2.
Definition armed : Managed := (apply_delivery prepared world arm_it).2.
Definition unsure : Managed := (apply_delivery armed world settle_it).2.

(** The three commands are granted, the answer is kept, and the slot is back. *)
Example unsure_rows :
  match (apply_delivery enrolled world prepare_it).1, (apply_delivery prepared world arm_it).1, (apply_delivery armed world settle_it).1 with
  | Ok (RPrepared _), Ok (RArmed _), Ok (RApplied view) =>
      map ev_evidence (dv_attempts view) = [Some MutationUnconfirmed] ∧ dv_eligibility view = ElHeld ∧ dv_barrier view = Some key
  | _, _, _ => False
  end ∧ (gl_active_attempts <$> mm_global armed) = Some 1%N ∧ (gl_active_attempts <$> mm_global unsure) = Some 0%N.
Proof. vm_compute. repeat split. Qed.

Lemma armed_reachable : delivery_reachable armed.
Proof.
  eapply dr_next; [|apply ds_apply]. eapply dr_next; [|apply ds_apply]. eapply dr_next; [apply (dr_first before); done|]. apply ds_enroll.
  unfold enrolls. cbn. rewrite lookup_empty. done.
Qed.

Lemma delivery_exclusive_witness : ∃ g, mm_global armed = Some g ∧ (len (gl_active_index g) ≤ 16)%N ∧ active_delivery_owners armed = Ok
  [{| ct_owner := {| ao_key := key; ao_attempt := attempt_binding |}; ct_record_revision := 2%N; ct_recipient_revision := 2%N; ct_global_revision := 1%N |}].
Proof.
  destruct (delivery_exclusive armed armed_reachable) as (g & Hg & _ & Hl & _). exists g. split; [exact Hg|]. split; [exact Hl|].
  vm_compute. reflexivity.
Defined.

Lemma uncertain_never_resent_witness :
  match (apply_delivery unsure world prepare_it).1 with Ok (RPrepared _ | RArmed _) => False | _ => True end.
Proof.
  destruct (mm_records unsure !! key) as [r|] eqn:Er; [|vm_compute in Er; discriminate].
  destruct (dr_attempts r) as [|a l] eqn:Ea; [vm_compute in Er; injection Er as <-; discriminate|].
  apply (uncertain_never_resent unsure unsure key r a world prepare_it).
  - eapply dr_next; [apply armed_reachable|apply ds_apply].
  - exact Er.
  - rewrite Ea. by left.
  - vm_compute in Er. injection Er as <-. cbn in Ea. injection Ea as <- _. reflexivity.
  - apply rtc_refl.
  - reflexivity.
Defined.
End Demo.
