(* ===== verification/FlsCrc.v ===== *)
(** * CRC-32 of the container ([layout.rs], lines 50-124)

    The container checks its slots, frames and snapshots with a CRC computed
    eight bytes per step from eight tables. [crc32_bitwise] is the loop over
    single bits, which the source keeps as the reference. Both are over [u32]
    registers, here numbers below [2^32]. *)

From S2P Require Import Prelude RustStr Ledger FlsBytes.

Definition POLY : N := 3988292384.
Definition REG : N := 4294967295.

(** One bit: the inner loop of [crc_tables] and of [crc32_bitwise]. *)
Definition crc_bit (crc : N) : N :=
  if (N.land crc 1 =? 1)%N then N.lxor (N.shiftr crc 1) POLY else N.shiftr crc 1.

Definition crc_bits8 (crc : N) : N := Nat.iter 8 crc_bit crc.

(** [crc_tables]: the first table, then each from the one before. *)
Definition table0 : list N := map (fun byte => crc_bits8 (N.of_nat byte)) (seq 0 256).

Definition at_byte (t : list N) (i : N) : N := nth (N.to_nat i) t 0%N.

Definition next_table (prev : list N) : list N :=
  map (fun p => N.lxor (N.shiftr p 8) (at_byte table0 (N.land p 255))) prev.

Fixpoint tables_from (k : nat) (t : list N) : list (list N) :=
  match k with
  | O => []
  | S k' => t :: tables_from k' (next_table t)
  end.

Definition crc_tables : list (list N) := tables_from 8 table0.

(** [t[k][i]] *)
Definition table_at (k : nat) (i : N) : N := at_byte (nth k crc_tables []) i.

(** One word of eight bytes. *)
Definition crc_word (crc : N) (w0 w1 w2 w3 w4 w5 w6 w7 : ascii) : N :=
  let lo := N.lxor crc (le_value [w0; w1; w2; w3]) in
  let hi := le_value [w4; w5; w6; w7] in
  N.lxor (N.lxor (N.lxor (N.lxor (N.lxor (N.lxor (N.lxor
    (table_at 7 (N.land lo 255))
    (table_at 6 (N.land (N.shiftr lo 8) 255)))
    (table_at 5 (N.land (N.shiftr lo 16) 255)))
    (table_at 4 (N.shiftr lo 24)))
    (table_at 3 (N.land hi 255)))
    (table_at 2 (N.land (N.shiftr hi 8) 255)))
    (table_at 1 (N.land (N.shiftr hi 16) 255)))
    (table_at 0 (N.shiftr hi 24)).

(** One byte of the tail. *)
Definition crc_byte (crc : N) (byte : ascii) : N :=
  N.lxor (N.shiftr crc 8) (table_at 0 (N.land (N.lxor crc (code byte)) 255)).

(** The two loops: words of [as_chunks::<8>], then its tail. *)
Fixpoint crc_loop (crc : N) (data : bytes) : N :=
  match data with
  | w0 :: w1 :: w2 :: w3 :: w4 :: w5 :: w6 :: w7 :: rest =>
      crc_loop (crc_word crc w0 w1 w2 w3 w4 w5 w6 w7) rest
  | tail => foldl crc_byte crc tail
  end.

(** [!crc] on 32 bits. *)
Definition crc32 (data : bytes) : N := N.lxor (crc_loop REG data) REG.

Definition crc32_bitwise (data : bytes) : N :=
  N.lxor (foldl (fun crc byte => crc_bits8 (N.lxor crc (code byte))) REG data) REG.

(** ** The register is linear *)

Section Linear.
Variable f : N → N.
Hypothesis f_lxor : ∀ a b, f (N.lxor a b) = N.lxor (f a) (f b).

Lemma iter_lxor n a b : Nat.iter n f (N.lxor a b) = N.lxor (Nat.iter n f a) (Nat.iter n f b).
Proof using f_lxor. induction n as [|n IH]; [done|]. by rewrite !Nat.iter_succ, IH, f_lxor. Qed.
End Linear.

Lemma lxor_AC a b c d : N.lxor (N.lxor a b) (N.lxor c d) = N.lxor (N.lxor a c) (N.lxor b d).
Proof. apply N.bits_inj. intros i. rewrite !N.lxor_spec. by destruct (N.testbit a i), (N.testbit b i), (N.testbit c i), (N.testbit d i). Qed.

Lemma crc_bit_odd c : crc_bit c = N.lxor (N.shiftr c 1) (if N.odd c then POLY else 0).
Proof.
  unfold crc_bit. rewrite (N.land_ones c 1 : N.land c 1 = _), <-N.bit0_mod, N.bit0_odd.
  destruct (N.odd c); cbn [N.b2n N.eqb]; [done|]. by rewrite N.lxor_0_r.
Qed.

Lemma crc_bit_lxor a b : crc_bit (N.lxor a b) = N.lxor (crc_bit a) (crc_bit b).
Proof.
  rewrite !crc_bit_odd, N.shiftr_lxor, lxor_AC. f_equal.
  rewrite <-!N.bit0_odd, N.lxor_spec.
  destruct (N.testbit a 0), (N.testbit b 0); cbn [xorb];
    by rewrite ?N.lxor_nilpotent, ?N.lxor_0_l, ?N.lxor_0_r.
Qed.

Lemma crc_bit_shift x : crc_bit (N.shiftl x 1) = x.
Proof.
  rewrite crc_bit_odd, <-N.bit0_odd, N.shiftl_spec_low by lia.
  rewrite N.lxor_0_r, N.shiftr_shiftl_l by lia. apply N.shiftl_0_r.
Qed.

Lemma crc_iter_shift n x : Nat.iter n crc_bit (N.shiftl x (N.of_nat n)) = x.
Proof.
  induction n as [|n IH]; [apply N.shiftl_0_r|].
  rewrite Nat.iter_succ_r, Nat2N.inj_succ, <-N.add_1_r, <-N.shiftl_shiftl, crc_bit_shift. exact IH.
Qed.

Lemma bits8_lxor a b : crc_bits8 (N.lxor a b) = N.lxor (crc_bits8 a) (crc_bits8 b).
Proof. apply iter_lxor, crc_bit_lxor. Qed.

Lemma bits8_shift x : crc_bits8 (N.shiftl x 8) = x.
Proof. apply (crc_iter_shift 8). Qed.

(** [k] bytes of zeros. *)
Definition zero_bytes (k : nat) (x : N) : N := Nat.iter k crc_bits8 x.

Lemma zero_bytes_lxor k a b : zero_bytes k (N.lxor a b) = N.lxor (zero_bytes k a) (zero_bytes k b).
Proof. apply iter_lxor, bits8_lxor. Qed.

Lemma zero_bytes_shift k x : zero_bytes (S k) (N.shiftl x 8) = zero_bytes k x.
Proof. unfold zero_bytes. by rewrite Nat.iter_succ_r, bits8_shift. Qed.

Lemma zero_bytes_S k x : zero_bytes (S k) x = crc_bits8 (zero_bytes k x).
Proof. apply Nat.iter_succ. Qed.

Lemma zero_bytes_0 x : zero_bytes 0 x = x.
Proof. done. Qed.

Lemma zero_bytes_add j k x : zero_bytes j (zero_bytes k x) = zero_bytes (j + k) x.
Proof. unfold zero_bytes. by rewrite Nat.iter_add. Qed.

Lemma low_byte x : x = N.lxor (N.land x 255) (N.shiftl (N.shiftr x 8) 8).
Proof.
  apply N.bits_inj. intros i. rewrite N.lxor_spec, N.land_spec.
  change 255%N with (N.ones 8). destruct (N.lt_ge_cases i 8) as [H|H].
  - rewrite N.ones_spec_low, N.shiftl_spec_low by done. by rewrite andb_true_r, xorb_false_r.
  - rewrite N.ones_spec_high, N.shiftl_spec_high', N.shiftr_spec' by done.
    rewrite N.sub_add by done. by rewrite andb_false_r, xorb_false_l.
Qed.

Lemma bits8_split x : crc_bits8 x = N.lxor (crc_bits8 (N.land x 255)) (N.shiftr x 8).
Proof. rewrite (low_byte x) at 1. by rewrite bits8_lxor, bits8_shift. Qed.

Lemma land255_lt x : (N.land x 255 < 256)%N.
Proof. change 255%N with (N.ones 8). rewrite N.land_ones. by apply N.mod_lt. Qed.

(** ** The tables *)

Lemma at_byte_map (g : N → N) t i : (N.to_nat i < length t) → at_byte (map g t) i = g (at_byte t i).
Proof.
  intros H. unfold at_byte. rewrite (nth_indep _ 0%N (g 0%N)) by (by rewrite length_map).
  apply map_nth.
Qed.

Lemma at_table0 i : (i < 256)%N → at_byte table0 i = crc_bits8 i.
Proof.
  intros H. unfold at_byte, table0.
  rewrite (nth_indep _ 0%N (crc_bits8 (N.of_nat 0))) by (rewrite length_map, length_seq; lia).
  rewrite (map_nth (fun b => crc_bits8 (N.of_nat b))), seq_nth by lia. cbn [Nat.add].
  by rewrite N2Nat.id.
Qed.

Lemma next_table_entry p :
  N.lxor (N.shiftr p 8) (at_byte table0 (N.land p 255)) = crc_bits8 p.
Proof. rewrite at_table0 by apply land255_lt. by rewrite (bits8_split p), N.lxor_comm. Qed.

Lemma tables_from_at k n t i :
  (k < n) → (N.to_nat i < length t) → at_byte (nth k (tables_from n t) []) i = zero_bytes k (at_byte t i).
Proof.
  revert n t. induction k as [|k IH]; intros [|n] t Hk Hi; try lia; [done|].
  cbn [tables_from nth]. rewrite IH by (unfold next_table; rewrite ?length_map; lia).
  unfold next_table. rewrite at_byte_map by done. rewrite next_table_entry.
  unfold zero_bytes. by rewrite Nat.iter_succ_r.
Qed.

Lemma table_at_spec k i : (k < 8) → (i < 256)%N → table_at k i = zero_bytes (S k) i.
Proof.
  intros Hk Hi. unfold table_at, crc_tables.
  rewrite tables_from_at by (unfold table0; rewrite ?length_map, ?length_seq; lia).
  rewrite at_table0 by done. unfold zero_bytes. by rewrite Nat.iter_succ_r.
Qed.

(** ** Words *)

Lemma below_pow2 x n : (x < 2 ^ n)%N ↔ N.shiftr x n = 0%N.
Proof.
  rewrite N.shiftr_div_pow2. split; intros H; [by apply N.div_small|].
  apply N.div_small_iff in H; [done|]. by apply N.pow_nonzero.
Qed.

Lemma lxor_below x y n : (x < 2 ^ n)%N → (y < 2 ^ n)%N → (N.lxor x y < 2 ^ n)%N.
Proof. rewrite !below_pow2, N.shiftr_lxor. intros -> ->. done. Qed.

Lemma bits8_lt x : (x < 2 ^ 32)%N → (crc_bits8 x < 2 ^ 32)%N.
Proof.
  assert (∀ y, (y < 2 ^ 32)%N → (crc_bit y < 2 ^ 32)%N) as Hb.
  { intros y Hy. rewrite crc_bit_odd. apply lxor_below; [|by destruct (N.odd y)].
    eapply N.le_lt_trans; [|exact Hy]. rewrite N.shiftr_div_pow2. by apply N.Div0.div_le_upper_bound, N.le_mul_l. }
  intros H. unfold crc_bits8. apply (Nat.iter_invariant 8 N crc_bit (fun y => (y < 2 ^ 32)%N)); auto.
Qed.

#[local] Opaque crc_bits8 zero_bytes table_at N.lxor N.shiftl N.shiftr N.land.

Lemma le_value_cons b l : le_value (b :: l) = N.lxor (code b) (N.shiftl (le_value l) 8).
Proof.
  unfold le_value. cbn [foldr]. change (foldr _ 0%N l) with (le_value l).
  rewrite N.mul_comm. change 256%N with (2 ^ 8)%N. rewrite <-N.shiftl_mul_pow2.
  apply N.add_nocarry_lxor. apply N.bits_inj_0. intros i. rewrite N.land_spec.
  destruct (N.lt_ge_cases i 8) as [H|H].
  - rewrite N.shiftl_spec_low by done. apply andb_false_r.
  - assert (N.testbit (code b) i = false) as ->; [|done].
    pose proof (proj1 (below_pow2 (code b) 8) (code_lt b)) as E.
    rewrite <-(N.sub_add 8 i) by done. rewrite N.add_comm, N.add_comm.
    by rewrite <-N.shiftr_spec', E, N.bits_0.
Qed.

(** Feeding four bytes is feeding their little-endian word to four zeros. *)
Lemma feed4 c b0 b1 b2 b3 :
  crc_bits8 (N.lxor (crc_bits8 (N.lxor (crc_bits8 (N.lxor (crc_bits8 (N.lxor c (code b0)))
    (code b1))) (code b2))) (code b3))
  = zero_bytes 4 (N.lxor c (le_value [b0; b1; b2; b3])).
Proof.
  rewrite !le_value_cons. change (le_value []) with 0%N. rewrite N.shiftl_0_l, N.lxor_0_r.
  rewrite <-!N.lxor_assoc, !N.shiftl_lxor, !zero_bytes_lxor, !zero_bytes_shift.
  rewrite !zero_bytes_S, !zero_bytes_0. rewrite !bits8_lxor, !N.lxor_assoc. reflexivity.
Qed.

(** A word below [2^32] byte by byte. *)
Lemma zero_bytes_word k x : (x < 2 ^ 32)%N →
  zero_bytes (4 + k) x =
  N.lxor (N.lxor (N.lxor (zero_bytes (4 + k) (N.land x 255))
    (zero_bytes (3 + k) (N.land (N.shiftr x 8) 255)))
    (zero_bytes (2 + k) (N.land (N.shiftr x 16) 255)))
    (zero_bytes (1 + k) (N.shiftr x 24)).
Proof.
  intros Hx. cbn [Nat.add]. rewrite (low_byte x) at 1. rewrite zero_bytes_lxor, zero_bytes_shift.
  rewrite (low_byte (N.shiftr x 8)) at 1. rewrite zero_bytes_lxor, zero_bytes_shift.
  rewrite N.shiftr_shiftr. change (8 + 8)%N with 16%N.
  rewrite (low_byte (N.shiftr x 16)) at 1. rewrite zero_bytes_lxor, zero_bytes_shift.
  rewrite N.shiftr_shiftr. change (16 + 8)%N with 24%N. rewrite !N.lxor_assoc. reflexivity.
Qed.

Lemma word_lt l : length l = 4 → (le_value l < 2 ^ 32)%N.
Proof. intros H. pose proof (le_value_lt l) as L. rewrite H in L. exact L. Qed.

Lemma shiftr24_lt x : (x < 2 ^ 32)%N → (N.shiftr x 24 < 256)%N.
Proof.
  intros H. change 256%N with (2 ^ 8)%N. apply below_pow2. rewrite N.shiftr_shiftr.
  by apply below_pow2.
Qed.

(** The reference over the same bytes. *)
Definition feed (crc : N) (byte : ascii) : N := crc_bits8 (N.lxor crc (code byte)).

Lemma feed_lt c b : (c < 2 ^ 32)%N → (feed c b < 2 ^ 32)%N.
Proof.
  intros H. apply bits8_lt, lxor_below; [done|]. eapply N.lt_trans; [apply code_lt|done].
Qed.

Lemma crc_byte_feed c b : crc_byte c b = feed c b.
Proof.
  unfold crc_byte, feed. rewrite table_at_spec by (try lia; apply land255_lt).
  rewrite (bits8_split (N.lxor c (code b))), N.shiftr_lxor.
  rewrite (proj1 (below_pow2 (code b) 8) (code_lt b)), N.lxor_0_r. apply N.lxor_comm.
Qed.

Lemma crc_word_feed c w0 w1 w2 w3 w4 w5 w6 w7 : (c < 2 ^ 32)%N →
  crc_word c w0 w1 w2 w3 w4 w5 w6 w7
  = foldl feed c [w0; w1; w2; w3; w4; w5; w6; w7].
Proof.
  intros Hc. cbn [foldl]. unfold feed. rewrite !feed4, zero_bytes_lxor.
  rewrite zero_bytes_add. change (4 + 4) with 8.
  unfold crc_word. set (lo := N.lxor c (le_value [w0; w1; w2; w3])).
  set (hi := le_value [w4; w5; w6; w7]).
  assert (lo < 2 ^ 32)%N as Hlo by (by apply lxor_below; [|apply word_lt]).
  assert (hi < 2 ^ 32)%N as Hhi by by apply word_lt.
  pose proof (zero_bytes_word 4 lo Hlo) as Elo. pose proof (zero_bytes_word 0 hi Hhi) as Ehi.
  cbn [Nat.add] in Elo, Ehi. rewrite Elo, Ehi.
  clearbody lo hi. rewrite !table_at_spec by
    (first [lia | apply land255_lt | by apply shiftr24_lt]).
  rewrite !N.lxor_assoc. reflexivity.
Qed.

Lemma crc_loop_feed n data : ∀ c, (length data ≤ n) → (c < 2 ^ 32)%N →
  crc_loop c data = foldl feed c data.
Proof.
  revert data. induction n as [n IH] using lt_wf_ind. intros data c Hl Hc.
  do 8 (destruct data as [|? data]; [cbn [crc_loop foldl]; rewrite ?crc_byte_feed; reflexivity|]).
  cbn [crc_loop]. rewrite (IH (length data)); [|cbn in Hl; lia|done|].
  - rewrite crc_word_feed by done. by rewrite <-foldl_app.
  - rewrite crc_word_feed by done. cbn [foldl]. repeat apply feed_lt. done.
Qed.

Lemma REG_lt : (REG < 2 ^ 32)%N.
Proof. done. Qed.

(** The checksum the container is protected with, computed eight bytes
    at a time from the eight precomputed tables, is for every byte string the
    CRC-32 of the bit-at-a-time loop that the tests keep as the reference. *)
Theorem crc32_is_bitwise data : crc32 data = crc32_bitwise data.
Proof.
  unfold crc32, crc32_bitwise. by rewrite (crc_loop_feed (length data)) by (done || apply REG_lt).
Qed.

Lemma crc32_lt data : (crc32 data ≤ u32_max)%N.
Proof.
  assert (crc32 data < 2 ^ 32)%N; [|unfold u32_max; lia].
  unfold crc32. rewrite (crc_loop_feed (length data)) by (done || apply REG_lt).
  apply lxor_below; [|apply REG_lt]. generalize REG_lt. generalize REG.
  induction data as [|b data IH]; intros c Hc; cbn; [done|]. by apply IH, feed_lt.
Qed.

(** The check value of CRC-32/ISO-HDLC. *)
Example crc32_check : crc32 (chars "123456789") = 3421780262%N.
Proof. vm_compute. reflexivity. Qed.

#[global] Arguments crc32 : simpl never.
