(* ===== verification/FlsFloat.v ===== *)
(** * Floats ([vector.rs], lines 313-402)

    A Rust [f32] is its bits, a [u32]; a [f64] is the value of the Standard
    Library's [spec_float] at precision 53, which computes IEEE 754 arithmetic
    with rounding to nearest even. [f64::total_cmp] compares a key. *)

From Stdlib Require Import ZArith.
From Stdlib Require Import SpecFloat.
From S2P Require Import Prelude RustStr Ledger FlsBytes.

(** ** [f64] *)

Abbreviation f64 := spec_float.

Definition f64_add (x y : f64) : f64 := SFadd 53 1024 x y.
Definition f64_sub (x y : f64) : f64 := SFsub 53 1024 x y.
Definition f64_mul (x y : f64) : f64 := SFmul 53 1024 x y.
Definition f64_div (x y : f64) : f64 := SFdiv 53 1024 x y.
Definition f64_sqrt (x : f64) : f64 := SFsqrt 53 1024 x.
Definition f64_neg (x : f64) : f64 := SFopp x.

(** An integer as a [f64], rounded to nearest even. *)
Definition f64_of_Z (z : Z) : f64 := binary_normalize 53 1024 z 0 false.

Definition f64_is_finite (x : f64) : bool :=
  match x with S754_infinity _ | S754_nan => false | _ => true end.

(** [iter().sum::<f64>()]: from negative zero. *)
Definition f64_sum (l : list f64) : f64 := fold_left f64_add l (S754_zero true).

(** The order of [f64::total_cmp]: negative zero before positive zero, the
    infinities around the finite values. A finite value is a multiple of
    [2^-1074]. *)
Definition f64_key (x : f64) : Z :=
  match x with
  | S754_zero s => if s then -1 else 0
  | S754_finite s m e =>
      let k := Z.shiftl (Zpos m) (e + 1074) in if s then -1 - k else k
  | S754_infinity s => if s then -1 - 2 ^ 2200 else 2 ^ 2200
  | S754_nan => 2 ^ 2201
  end%Z.

(** ** [f32] *)

(** [f32::from_bits] then [f64::from]: exact. *)
Definition f64_of_f32 (bits : N) : f64 :=
  let s := N.testbit bits 31 in
  let e := N.land (N.shiftr bits 23) 255 in
  let m := N.land bits 8388607 in
  let signed z := if s then (- z)%Z else z in
  if (e =? 255)%N then if (m =? 0)%N then S754_infinity s else S754_nan
  else if (e =? 0)%N then binary_normalize 53 1024 (signed (Z.of_N m)) (-149) s
  else binary_normalize 53 1024 (signed (Z.of_N (m + 8388608))) (Z.of_N e - 150) s.

(** [is_finite] of the bits: the exponent is not all ones. *)
Definition f32_finite (bits : N) : bool := negb (N.land bits 2139095040 =? 2139095040)%N.
Definition f16_finite (bits : N) : bool := negb (N.land bits 31744 =? 31744)%N.

(** A byte read as an [i8]. *)
Definition i8_of (b : ascii) : Z := let n := Z.of_N (code b) in if (n <? 128)%Z then n else (n - 256)%Z.

(** [n as f32] for an [i8]: exact. *)
Definition f32_of_i8 (z : Z) : N :=
  match z with
  | Z0 => 0
  | _ =>
      let n := Z.abs_N z in
      let e := N.log2 n in
      (if (z <? 0)%Z then 2147483648 else 0) + N.shiftl (e + 127) 23 + (N.shiftl n (23 - e) - 8388608)
  end%N.

(** [f16_to_f32]: the loop shifts a subnormal until its top bit is the tenth;
    ten turns do. *)
Fixpoint f16_normalize (fuel : nat) (m exp32 : N) : N * N :=
  match fuel with
  | O => (m, exp32)
  | S fuel => if (N.land m 1024 =? 0)%N then f16_normalize fuel (N.shiftl m 1) (exp32 - 1) else (m, exp32)
  end.

Definition f16_to_f32 (bits : N) : N :=
  let sign := N.shiftl (N.land bits 32768) 16 in
  let exp := N.land (N.shiftr bits 10) 31 in
  let mant := N.land bits 1023 in
  if (exp =? 0)%N then
    if (mant =? 0)%N then sign
    else
      let '(m, exp32) := f16_normalize 10 mant (127 - 15 + 1) in
      N.lor (N.lor sign (N.shiftl exp32 23)) (N.shiftl (N.land m 1023) 13)
  else if (exp =? 31)%N then N.lor (N.lor sign 2139095040) (N.shiftl mant 13)
  else N.lor (N.lor sign (N.shiftl (exp + (127 - 15)) 23)) (N.shiftl mant 13).

(** [f32_to_f16]; [exp] and [unbiased] are signed. *)
Definition f32_to_f16 (bits : N) : Result N StoreError :=
  let sign := N.land (N.shiftr bits 16) 32768 in
  let exp := N.land (N.shiftr bits 23) 255 in
  let mant := N.land bits 8388607 in
  if (exp =? 255)%N || negb (f32_finite bits) then Err (backend "vector component is not finite")
  else if (exp =? 0)%N then Ok sign
  else
    let unbiased := (Z.of_N exp - 127)%Z in
    if (15 <? unbiased)%Z then Err (backend "f16 vector component is out of range")
    else if (-14 <=? unbiased)%Z then
      let exp16 := Z.to_N (unbiased + 15) in
      let round_bit := N.land (N.shiftr mant 12) 1 in
      let sticky := N.land mant 4095 in
      let mant16 := N.shiftr mant 13 in
      if (round_bit =? 1)%N && (negb (sticky =? 0)%N || (N.land mant16 1 =? 1)%N) then
        let mant16 := (mant16 + 1)%N in
        if (mant16 =? 1024)%N then
          let exp16 := (exp16 + 1)%N in
          if (31 <=? exp16)%N then Err (backend "f16 vector component is out of range")
          else Ok (N.lor (N.lor sign (N.shiftl exp16 10)) 0)
        else Ok (N.lor (N.lor sign (N.shiftl exp16 10)) mant16)
      else Ok (N.lor (N.lor sign (N.shiftl exp16 10)) mant16)
    else if (unbiased <? -25)%Z then Ok sign
    else
      let sig := N.lor (N.shiftl 1 23) mant in
      let shift := Z.to_N (- unbiased - 1) in
      let mant16 := N.shiftr sig shift in
      let round_bit := if (shift =? 0)%N then 0%N else N.land (N.shiftr sig (shift - 1)) 1 in
      let sticky := if (shift <=? 1)%N then 0%N else N.land sig (N.shiftl 1 (shift - 1) - 1) in
      let round_up := (round_bit =? 1)%N && (negb (sticky =? 0)%N || (N.land mant16 1 =? 1)%N) in
      let mant16 := if round_up then N.min (mant16 + 1) 65535 else mant16 in
      if (mant16 =? 1024)%N then Ok (N.lor sign (N.shiftl 1 10)) else Ok (N.lor sign mant16).

(** [value.round().clamp(-128.0, 127.0) as i8] as a byte; a half goes away from
    zero. *)
Definition quantize_i8 (bits : N) : ascii :=
  let z := match f64_of_f32 bits with
           | S754_finite s m e =>
               let n := if (0 <=? e)%Z then Z.shiftl (Zpos m) e
                        else Z.shiftr (Zpos m + Z.shiftl 1 (- e - 1)) (- e) in
               if s then (- n)%Z else n
           | S754_infinity true => (-128)%Z
           | S754_infinity false => 127%Z
           | _ => 0%Z
           end in
  ascii_of_N (Z.to_N ((Z.max (-128) (Z.min 127 z)) mod 256)).

(** ** All the half floats *)

Definition all_u16 (p : N → bool) : bool := N.recursion true (fun n acc => acc && p n) 65536.

Lemma all_u16_spec p : all_u16 p = true → ∀ n, (n < 65536)%N → p n = true.
Proof.
  unfold all_u16. intros Hall n Hn. revert Hall. generalize 65536%N as k, Hn. clear Hn.
  intros k. induction k as [|k IH] using N.peano_ind; [lia|]. intros Hn.
  rewrite N.recursion_succ; [|done|intros ? ? -> ? ? ->; done].
  intros [Hk Hp]%andb_true_iff. destruct (decide (n = k)) as [->|]; [done|]. apply IH; [lia|done].
Qed.

(** A finite half float is a finite single, and comes back as it was. *)
Lemma f16_exact bits : (bits < 65536)%N → f16_finite bits = true →
  f32_finite (f16_to_f32 bits) = true ∧ f32_to_f16 (f16_to_f32 bits) = Ok bits.
Proof.
  intros Hb Hf. assert (implb (f16_finite bits) (f32_finite (f16_to_f32 bits)
    && match f32_to_f16 (f16_to_f32 bits) with Ok b => (b =? bits)%N | Err _ => false end) = true) as Hall.
  { refine (all_u16_spec (fun bits => implb (f16_finite bits) (f32_finite (f16_to_f32 bits)
      && match f32_to_f16 (f16_to_f32 bits) with Ok b => (b =? bits)%N | Err _ => false end)) _ bits Hb).
    vm_compute. reflexivity. }
  rewrite Hf in Hall. cbn [implb] in Hall. apply andb_true_iff in Hall as [H1 H2]. split; [done|].
  destruct (f32_to_f16 _) as [b|]; [|done]. by apply N.eqb_eq in H2 as ->.
Qed.
