(* ===== verification/FlsModel.v ===== *)
(** * Data of the FerroStore container

    The types that [layout.rs] writes and [state.rs] holds: documents, column
    tables ([columnar.rs]) and vector collections ([vector.rs]), with the
    checks of those two files that decide what may enter a store.

    A [BTreeMap<String, T>] is a [gmap string T]; where its order shows,
    [btree_iter] lists it in key order. [Arc]s are their contents.

    [Json] is [serde_json]: a type of values, its printer and its parser.
    [Engine] is the rest of what the container calls and does not have: the
    debug printer of a string, SHA-256, the natural logarithm, and the sizes the
    compiler gives a cell and the header of a row. No law is asked of them. *)

From Stdlib Require Import SpecFloat.
From S2P Require Import Prelude RustStr Ledger FlsBytes FlsFloat.

(** ** Ordered maps *)

Definition key_leb {A} (a b : string * A) : bool := str_leb a.1 b.1.

(** Iteration of a [BTreeMap<String, _>]: in key order. *)
Definition btree_iter {A} (m : gmap string A) : list (string * A) := sort_by key_leb (map_to_list m).

Class Json := {
  Value : Type;
  Value_eq_dec :: EqDecision Value;
  to_vec : Value → Result bytes string;
  from_slice : bytes → option Value;
  (** [json!(n)] *)
  json_num : N → Value;
}.

(** ** Column tables *)

Inductive ColumnType := CInt64 | CFloat64 | CBool | CUtf8 | CBytes | CTimestampMs.

Record ColumnDef := { cd_name : string; cd_ty : ColumnType }.

Record ColumnTable := { tb_columns : list ColumnDef; tb_groups : list bytes }.

Definition type_tag (ty : ColumnType) : N :=
  match ty with
  | CInt64 => 1 | CFloat64 => 2 | CBool => 3 | CUtf8 => 4 | CBytes => 5 | CTimestampMs => 6
  end.

Definition type_from_tag (tag : N) : Result ColumnType StoreError :=
  match tag with
  | 1 => Ok CInt64 | 2 => Ok CFloat64 | 3 => Ok CBool | 4 => Ok CUtf8 | 5 => Ok CBytes
  | 6 => Ok CTimestampMs
  | _ => Err (corrupt ("unknown column type tag " +:+ pretty tag))
  end%N.

Definition NAME_MAX : N := 128.

(** ** Vector collections *)

Inductive VectorStorage := F32 | F16 | I8.
Inductive VectorMetric := Cosine | L2 | DotProduct.

Definition storage_tag (s : VectorStorage) : N := match s with F32 => 1 | F16 => 2 | I8 => 3 end.

Definition storage_from_tag (tag : N) : Result VectorStorage StoreError :=
  match tag with
  | 1 => Ok F32 | 2 => Ok F16 | 3 => Ok I8
  | _ => Err (corrupt ("unknown vector storage tag " +:+ pretty tag))
  end%N.

Definition metric_tag (m : VectorMetric) : N := match m with Cosine => 1 | L2 => 2 | DotProduct => 3 end.

Definition metric_from_tag (tag : N) : Result VectorMetric StoreError :=
  match tag with
  | 1 => Ok Cosine | 2 => Ok L2 | 3 => Ok DotProduct
  | _ => Err (corrupt ("unknown vector metric tag " +:+ pretty tag))
  end%N.

Record VectorRecord `{Json} := {
  vr_bytes : bytes;
  vr_metadata : option Value;
  vr_level : N;
  vr_neighbors : list (list string);
}.

Record VectorCollection `{Json} := {
  vc_dim : N;
  vc_storage : VectorStorage;
  vc_metric : VectorMetric;
  vc_m : N;
  vc_ef_construction : N;
  vc_ef_search : N;
  vc_vectors : gmap string VectorRecord;
  vc_entry : option string;
}.

(** [VectorCollection::empty] *)
Definition VectorCollection_empty `{Json} (dim : N) (storage : VectorStorage) (metric : VectorMetric)
    (m ef_construction ef_search : N) : VectorCollection :=
  {| vc_dim := dim; vc_storage := storage; vc_metric := metric; vc_m := m;
     vc_ef_construction := ef_construction; vc_ef_search := ef_search;
     vc_vectors := ∅; vc_entry := None |}.

Definition MAX_VECTOR_BYTES : N := 8 * 1024 * 1024.
Definition MAX_LEVEL : N := 16.
Definition ID_MAX : N := 1024.

Definition bytes_per_value (s : VectorStorage) : N := match s with F32 => 4 | F16 => 2 | I8 => 1 end.

Definition stored_len (dim : N) (storage : VectorStorage) : Result N StoreError :=
  if (dim =? 0)%N then Err (backend "vector dimension must be greater than zero")
  else
    let? n := ok_or (checked_mul u32_max dim (bytes_per_value storage))
                    (backend "vector dimension overflows") in
    if (MAX_VECTOR_BYTES <? n)%N then Err (backend "vector dimension exceeds 8MiB") else Ok n.

(** [as_chunks::<2>] and [as_chunks::<4>] without their tails, under [all]. *)
Fixpoint all_chunks2 (p : N → bool) (l : bytes) : bool :=
  match l with
  | a :: b :: l' => p (le_value [a; b]) && all_chunks2 p l'
  | _ => true
  end.

Fixpoint all_chunks4 (p : N → bool) (l : bytes) : bool :=
  match l with
  | a :: b :: c :: d :: l' => p (le_value [a; b; c; d]) && all_chunks4 p l'
  | _ => true
  end.

Definition check_stored (storage : VectorStorage) (dim : N) (b : bytes) : Result unit StoreError :=
  let? expected := stored_len dim storage in
  if negb (len b =? expected)%N
  then Err (backend ("stored vector has length " +:+ pretty (len b) +:+ ", expected " +:+ pretty expected))
  else
    let finite := match storage with
                  | F32 => all_chunks4 f32_finite b
                  | F16 => all_chunks2 f16_finite b
                  | I8 => true
                  end in
    if finite then Ok tt else Err (backend "stored vector component is not finite").

(** [max_links]; a [u32] fits a [usize] and twice it does not saturate. *)
Definition max_links (m : N) (layer : nat) : N := match layer with O => m * 2 | _ => m end.

(** [canonical_entry]: [max_by] keeps the last maximum, and no two ids are equal. *)
Definition entry_le `{Json} (a b : string * VectorRecord) : bool :=
  (vr_level a.2 <? vr_level b.2)%N || ((vr_level a.2 =? vr_level b.2)%N && str_leb b.1 a.1).

Definition canonical_entry `{Json} (vectors : gmap string VectorRecord) : option string :=
  fst <$> foldl (fun best x => match best with
                               | None => Some x
                               | Some y => if entry_le y x then Some x else Some y
                               end) None (btree_iter vectors).

(** ** What the container asks of code it does not have *)

Class Engine `{Json} := {
  (** [{:?}] of a string *)
  debug_str : string → string;
  (** [size_of::<ColumnValue>()] and [size_of::<Vec<ColumnValue>>()] *)
  size_of_value : N;
  size_of_row : N;
  (** [Sha256::digest] *)
  sha256 : bytes → bytes;
  (** [f64::ln] *)
  f64_ln : f64 → f64;
}.

Section Checks.
Context `{Engine}.

(** [vector_level]: the floor of a finite positive value, as a [u8] that stops
    at [MAX_LEVEL]. *)
Definition vector_level (id : string) (m : N) : N :=
  let x := le_value (take 8 (sha256 (chars id))) in
  let x := if (x =? 0)%N then 1%N else x in
  let u := f64_div (f64_of_Z (Z.of_N x)) (f64_of_Z (Z.of_N u64_max)) in
  let level := f64_mul (f64_neg (f64_ln u)) (f64_div (f64_of_Z 1) (f64_ln (f64_of_Z (Z.of_N m)))) in
  match level with
  | S754_finite false k e =>
      N.min (if (0 <=? e)%Z then N.shiftl (Npos k) (Z.to_N e) else N.shiftr (Npos k) (Z.to_N (- e))) MAX_LEVEL
  | _ => 0%N
  end.

Definition check_name (kind name : string) : Result unit StoreError :=
  if is_empty_str name then Err (backend (kind +:+ " name is empty"))
  else if (NAME_MAX <? str_len name)%N || contains_char "/"%char name || contains_char zero name
  then Err (backend ("invalid " +:+ kind +:+ " name " +:+ debug_str name))
  else Ok tt.

(** The loop of [check_new_table]. *)
Fixpoint check_columns (seen : list string) (columns : list ColumnDef) : Result unit StoreError :=
  match columns with
  | [] => Ok tt
  | column :: rest =>
      let? _ := check_name "column" (cd_name column) in
      if contains seen (cd_name column)
      then Err (backend ("duplicate column `" +:+ cd_name column +:+ "`"))
      else check_columns (cd_name column :: seen) rest
  end.

Definition check_new_table (taken : bool) (name : string) (columns : list ColumnDef)
    : Result unit StoreError :=
  let? _ := check_name "table" name in
  if taken then Err (backend ("column table `" +:+ name +:+ "` already exists"))
  else check_columns [] columns.

Definition check_create (name : string) (dim : N) (storage : VectorStorage)
    (m ef_construction ef_search : N) : Result unit StoreError :=
  let? _ := check_name "vector collection" name in
  let? _ := stored_len dim storage in
  if negb ((2 <=? m)%N && (m <=? 128)%N) then Err (backend "vector M is out of range")
  else if (ef_construction <? m)%N || (100000 <? ef_construction)%N
  then Err (backend "vector ef_construction is out of range")
  else if negb ((1 <=? ef_search)%N && (ef_search <=? 100000)%N)
  then Err (backend "vector ef_search is out of range")
  else Ok tt.

Definition check_vector_id (id : string) : Result unit StoreError :=
  if is_empty_str id then Err (backend "vector id is empty")
  else if (ID_MAX <? str_len id)%N || contains_char zero id
  then Err (backend ("invalid vector id " +:+ debug_str id))
  else Ok tt.

Definition as_corrupt {A} (r : Result A StoreError) : Result A StoreError :=
  map_err (fun e => corrupt (store_display e)) r.

(** The loop over one neighbor list. [seen] holds the indices already in it;
    [index] is the position of an id in the collection's order. *)
Fixpoint check_links (ids : list string) (levels : list N) (node layer : nat) (id : string)
    (seen : list nat) (nids : list string) : Result (list nat) StoreError :=
  match nids with
  | [] => Ok []
  | nid :: rest =>
      match list_find (fun x => x = nid) ids with
      | None => Err (corrupt ("vector neighbor `" +:+ nid +:+ "` is not live"))
      | Some (at_, _) =>
          if bool_decide (at_ = node)
          then Err (corrupt ("vector `" +:+ id +:+ "` links to itself"))
          else if contains seen at_
          then Err (corrupt ("vector `" +:+ id +:+ "` repeats neighbor `" +:+ nid +:+ "`"))
          else if (nth at_ levels 0 <? N.of_nat layer)%N
          then Err (corrupt ("vector neighbor `" +:+ nid +:+ "` does not exist on layer "
                             +:+ pretty (N.of_nat layer)))
          else let? others := check_links ids levels node layer id (at_ :: seen) rest in
               Ok (at_ :: others)
      end
  end.

(** The loop over the layers of one vector: its links as indices, per layer. *)
Fixpoint check_layers (col : VectorCollection) (ids : list string) (levels : list N)
    (node : nat) (id : string) (layer : nat) (lists : list (list string))
    : Result (list (list nat)) StoreError :=
  match lists with
  | [] => Ok []
  | nids :: rest =>
      if (max_links (vc_m col) layer <? len nids)%N
      then Err (corrupt ("vector `" +:+ id +:+ "` has too many neighbors on layer "
                         +:+ pretty (N.of_nat layer)))
      else
        let? links := check_links ids levels node layer id [] nids in
        let? others := check_layers col ids levels node id (S layer) rest in
        Ok (links :: others)
  end.

(** The loop over the vectors: the graph as indices. *)
Fixpoint check_nodes (col : VectorCollection) (ids : list string) (levels : list N) (node : nat)
    (vectors : list (string * VectorRecord)) : Result (list (list (list nat))) StoreError :=
  match vectors with
  | [] => Ok []
  | (id, record) :: rest =>
      let? _ := as_corrupt (check_vector_id id) in
      let? _ := as_corrupt (check_stored (vc_storage col) (vc_dim col) (vr_bytes record)) in
      if negb (vr_level record =? vector_level id (vc_m col))%N || (MAX_LEVEL <? vr_level record)%N
      then Err (corrupt ("vector `" +:+ id +:+ "` level does not match"))
      else if negb (len (vr_neighbors record) =? vr_level record + 1)%N
      then Err (corrupt ("vector `" +:+ id +:+ "` layer count does not match its level"))
      else
        let? layers := check_layers col ids levels node id 0 (vr_neighbors record) in
        let? others := check_nodes col ids levels (S node) rest in
        Ok (layers :: others)
  end.

(** [graph.list(node, layer)] *)
Definition graph_list (graph : list (list (list nat))) (node layer : nat) : list nat :=
  nth layer (nth node graph []) [].

(** The last loop of [checked_graph]: every link goes both ways. *)
Definition check_reciprocal (ids : list string) (graph : list (list (list nat)))
    : Result unit StoreError :=
  for_each (fun node =>
    for_each (fun layer =>
      for_each (fun other =>
        if contains (graph_list graph other layer) node then Ok tt
        else Err (corrupt ("vector link `" +:+ nth node ids EmptyString +:+ "` -> `"
                           +:+ nth other ids EmptyString +:+ "` is not bidirectional")))
        (graph_list graph node layer))
      (seq 0 (length (nth node graph []))))
    (seq 0 (length ids)).

(** [checked_graph], without the index it returns. *)
Definition validate_graph (name : string) (col : VectorCollection) : Result unit StoreError :=
  let? _ := as_corrupt (check_create name (vc_dim col) (vc_storage col) (vc_m col)
                          (vc_ef_construction col) (vc_ef_search col)) in
  if bool_decide (vc_vectors col = ∅) then
    if is_some (vc_entry col) then Err (corrupt "empty vector collection has an entry point") else Ok tt
  else match vc_entry col with
  | None => Err (corrupt "vector collection is missing an entry point")
  | Some entry =>
      if is_none (vc_vectors col !! entry) then Err (corrupt "vector entry point is not live")
      else if vc_entry col != canonical_entry (vc_vectors col)
      then Err (corrupt "vector entry point is not canonical")
      else
        let vectors := btree_iter (vc_vectors col) in
        if (u32_max <? len vectors)%N then Err (corrupt "too many vectors in one collection")
        else
          let ids := map fst vectors in
          let? graph := check_nodes col ids (map (fun x => vr_level x.2) vectors) 0 vectors in
          check_reciprocal ids graph
  end.
End Checks.

(** ** Documents *)

(** [Docs]: collection, id, document. A collection with no document is not
    kept. *)
Abbreviation Collection := (gmap string Value) (only parsing).
Abbreviation Docs := (gmap string (gmap string Value)) (only parsing).
Abbreviation Tables := (gmap string ColumnTable) (only parsing).
Abbreviation Vectors := (gmap string VectorCollection) (only parsing).

(** [Docs::iter]: in [(collection, id)] order. *)
Definition docs_iter `{Json} (docs : Docs) : list (string * string * Value) :=
  concat (map (fun '(collection, ds) => map (fun '(id, doc) => (collection, id, doc)) (btree_iter ds))
              (btree_iter docs)).

(** [Docs::len] *)
Definition docs_len `{Json} (docs : Docs) : N :=
  sum_list_N (map (fun '(_, ds) => len (btree_iter ds)) (btree_iter docs)).

(** [Docs::from_nested]: an empty collection is dropped. *)
Definition from_nested `{Json} (nested : Docs) : Docs :=
  filter (fun '(_, ds) => ds ≠ ∅) nested.

Record DocState `{Json} := {
  st_docs : Docs;
  st_tables : Tables;
  st_vectors : Vectors;
  st_last_seq : N;
}.

(** [layout.rs]'s [Op] *)
Inductive Op `{Json} :=
| Put (collection id : string) (doc : Value)
| Delete (collection id : string)
| CreateColumnTable (name : string) (columns : list ColumnDef)
| AppendColumnGroup (name : string) (group : bytes)
| CreateVectorCollection (name : string) (dim : N) (storage : VectorStorage) (metric : VectorMetric)
    (m ef_construction ef_search : N)
| UpsertVector (collection id : string) (vector : bytes) (metadata : option Value)
| DeleteVector (collection id : string).

(** ** Lemmas *)

Lemma key_leb_total {A} (x y : string * A) : key_leb x y = true ∨ key_leb y x = true.
Proof. apply str_leb_total. Qed.

Lemma key_leb_trans {A} (x y z : string * A) : key_leb x y = true → key_leb y z = true → key_leb x z = true.
Proof. apply str_leb_trans. Qed.


Lemma btree_iter_perm {A} (m : gmap string A) : btree_iter m ≡ₚ map_to_list m.
Proof. apply sort_by_perm. Qed.

Lemma btree_iter_elem {A} (m : gmap string A) k a : (k, a) ∈ btree_iter m ↔ m !! k = Some a.
Proof. rewrite btree_iter_perm. apply elem_of_map_to_list. Qed.

Lemma btree_iter_NoDup {A} (m : gmap string A) : NoDup (map fst (btree_iter m)).
Proof.
  change (NoDup ((btree_iter m).*1)). rewrite btree_iter_perm. apply NoDup_fst_map_to_list.
Qed.

Lemma btree_iter_of_list {A} (m : gmap string A) : list_to_map (btree_iter m) = m.
Proof.
  rewrite <-(list_to_map_to_list m) at 2. apply list_to_map_proper; [|apply btree_iter_perm].
  apply btree_iter_NoDup.
Qed.

Lemma btree_iter_length {A} (m : gmap string A) : length (btree_iter m) = size m.
Proof. rewrite btree_iter_perm. apply length_map_to_list. Qed.

Lemma type_tag_inv ty : type_from_tag (type_tag ty) = Ok ty.
Proof. by destruct ty. Qed.
Lemma storage_tag_inv s : storage_from_tag (storage_tag s) = Ok s.
Proof. by destruct s. Qed.
Lemma metric_tag_inv m : metric_from_tag (metric_tag m) = Ok m.
Proof. by destruct m. Qed.
Lemma type_tag_lt ty : (type_tag ty < 256)%N.
Proof. by destruct ty. Qed.
Lemma storage_tag_lt s : (storage_tag s < 256)%N.
Proof. by destruct s. Qed.
Lemma metric_tag_lt m : (metric_tag m < 256)%N.
Proof. by destruct m. Qed.
