(* ===== verification/FlsColumns.v ===== *)
(** * Row groups ([columnar.rs], lines 13-131, 133-231, 286-1461 and 1554-1616)

    A column table is a list of immutable row groups, each a blob: a row count,
    then for every column a zone map, a codec, and a body of a null bitset and
    the values that are not null. The codecs are plain, run-length, dictionary,
    and deltas with or without runs. What is written here: the writer, the
    reader with its budget, the scan that skips groups by their zone maps, and
    the chunked scan of rows in memory.

    An [i64] is a [Z] in range, a [f64] is its bits, and the partial order of
    floats compares the bits as sign and magnitude. The sizes of the types a
    budget counts are the compiler's: parameters ([Engine]). *)

From S2P Require Import Prelude RustStr Ledger FlsBytes FlsModel.

(** ** Data *)

Inductive ColumnValue :=
| VNull
| VInt64 (n : Z)
| VFloat64 (bits : N)
| VBool (b : bool)
| VUtf8 (s : string)
| VBytes (b : bytes)
| VTimestampMs (n : Z).

#[global] Instance ColumnValue_eq_dec : EqDecision ColumnValue.
Proof. solve_decision. Defined.
#[global] Instance ColumnType_eq_dec : EqDecision ColumnType.
Proof. solve_decision. Defined.

Inductive ColumnPredicate :=
| PEq (v : ColumnValue) | PLt (v : ColumnValue) | PLe (v : ColumnValue)
| PGt (v : ColumnValue) | PGe (v : ColumnValue) | PBetween (low high : ColumnValue).

Record ColumnFilter := { cf_column : string; cf_predicate : ColumnPredicate }.

Record ZoneMap := { zm_null_count : N; zm_min : option ColumnValue; zm_max : option ColumnValue }.

Record ColumnScan := { cs_rows : list (list ColumnValue); cs_total : N; cs_skipped : N }.

Record Limits := { lm_max_rows : N; lm_max_bytes : N }.

Definition MAX_ROWS_PER_GROUP : N := 4194304.
Definition MAX_DECODE_BYTES : N := 1073741824.

(** [Limits::DEFAULT] *)
Definition Limits_DEFAULT : Limits := {| lm_max_rows := MAX_ROWS_PER_GROUP; lm_max_bytes := MAX_DECODE_BYTES |}.

Definition CODEC_DELTA : N := 1.
Definition CODEC_DELTA_RLE : N := 2.
Definition CODEC_PLAIN : N := 3.
Definition CODEC_DICT : N := 4.
Definition CODEC_RLE : N := 5.

(** ** Signed integers *)

Definition i64_modulus : Z := 18446744073709551616.
Definition i64_half : Z := 9223372036854775808.

(** Wrap-around to [i64], and [as u64]. *)
Definition i64_wrap (z : Z) : Z := ((z + i64_half) mod i64_modulus - i64_half)%Z.
Definition u64_of_i64 (z : Z) : N := Z.to_N (z mod i64_modulus).
Definition i64_of_u64 (n : N) : Z := i64_wrap (Z.of_N n).

Definition zigzag_encode (value : Z) : N :=
  N.lxor (N.land (N.shiftl (u64_of_i64 value) 1) u64_max) (u64_of_i64 (Z.shiftr value 63)).

Definition zigzag_decode (value : N) : Z :=
  Z.lxor (i64_of_u64 (N.shiftr value 1)) (- Z.of_N (N.land value 1)).

(** ** Floats *)

Definition f64_sign_bit : N := 9223372036854775808.
Definition f64_infinity : N := 9218868437227405312.

Definition f64_is_nan (bits : N) : bool := (f64_infinity <? N.land bits (f64_sign_bit - 1))%N.

(** The value of a number, up to order: zero for both zeros. *)
Definition f64_order (bits : N) : Z :=
  let magnitude := Z.of_N (N.land bits (f64_sign_bit - 1)) in
  if (f64_sign_bit <=? bits)%N then (- magnitude)%Z else magnitude.

Definition f64_partial_cmp (a b : N) : option comparison :=
  if f64_is_nan a || f64_is_nan b then None else Some (f64_order a ?= f64_order b)%Z.

(** ** The order of values *)

(** [Ord] of byte strings *)
Definition str_cmp (a b : string) : comparison :=
  if str_ltb a b then Lt else if str_ltb b a then Gt else Eq.

Definition bool_cmp (a b : bool) : comparison :=
  match a, b with false, true => Lt | true, false => Gt | _, _ => Eq end.

Definition rel (left right : ColumnValue) : option comparison :=
  match left, right with
  | VInt64 a, VInt64 b => Some (a ?= b)%Z
  | VTimestampMs a, VTimestampMs b => Some (a ?= b)%Z
  | VFloat64 a, VFloat64 b => f64_partial_cmp a b
  | VBool a, VBool b => Some (bool_cmp a b)
  | VUtf8 a, VUtf8 b => Some (str_cmp a b)
  | VBytes a, VBytes b => Some (str_cmp (str a) (str b))
  | _, _ => None
  end.

Definition is_lt (left right : ColumnValue) : bool := match rel left right with Some Lt => true | _ => false end.
Definition is_gt (left right : ColumnValue) : bool := match rel left right with Some Gt => true | _ => false end.
Definition is_le (left right : ColumnValue) : bool :=
  match rel left right with Some (Lt | Eq) => true | _ => false end.
Definition is_ge (left right : ColumnValue) : bool :=
  match rel left right with Some (Gt | Eq) => true | _ => false end.
Definition is_eq (left right : ColumnValue) : bool := match rel left right with Some Eq => true | _ => false end.

Definition is_null (v : ColumnValue) : bool := match v with VNull => true | _ => false end.

Definition is_nan_value (v : ColumnValue) : bool := match v with VFloat64 n => f64_is_nan n | _ => false end.

Definition value_type (v : ColumnValue) : option ColumnType :=
  match v with
  | VNull => None
  | VInt64 _ => Some CInt64
  | VFloat64 _ => Some CFloat64
  | VBool _ => Some CBool
  | VUtf8 _ => Some CUtf8
  | VBytes _ => Some CBytes
  | VTimestampMs _ => Some CTimestampMs
  end.

Definition cell_matches (ty : ColumnType) (v : ColumnValue) : bool :=
  match ty, v with
  | _, VNull | CInt64, VInt64 _ | CFloat64, VFloat64 _ | CBool, VBool _ | CUtf8, VUtf8 _
  | CBytes, VBytes _ | CTimestampMs, VTimestampMs _ => true
  | _, _ => false
  end.

(** ** Zone maps *)

(** One value seen by [zone_map]. *)
Definition zone_step (s : N * option (ColumnValue * ColumnValue)) (v : ColumnValue)
    : N * option (ColumnValue * ColumnValue) :=
  let '(null_count, bounds) := s in
  if is_null v then (sat_add64 null_count 1, bounds)
  else if is_nan_value v then s
  else
    (null_count, Some match bounds with
                      | None => (v, v)
                      | Some (min, max) => (if is_lt v min then v else min, if is_gt v max then v else max)
                      end).

Definition zone_map (values : list ColumnValue) : ZoneMap :=
  let '(null_count, bounds) := foldl zone_step (0%N, None) values in
  {| zm_null_count := null_count; zm_min := fst <$> bounds; zm_max := snd <$> bounds |}.

(** [ZoneMap::excludes] *)
Definition excludes (z : ZoneMap) (p : ColumnPredicate) : bool :=
  match zm_min z, zm_max z with
  | Some min, Some max =>
      match p with
      | PEq v => negb (is_ge v min && is_le v max)
      | PLt v => negb (is_lt min v)
      | PLe v => negb (is_le min v)
      | PGt v => negb (is_gt max v)
      | PGe v => negb (is_ge max v)
      | PBetween low high => negb (is_le low high && is_ge max low && is_le min high)
      end
  | _, _ => true
  end.

Definition matches_predicate (v : ColumnValue) (p : ColumnPredicate) : bool :=
  if is_null v then false
  else
    match p with
    | PEq bound => is_eq v bound
    | PLt bound => is_lt v bound
    | PLe bound => is_le v bound
    | PGt bound => is_gt v bound
    | PGe bound => is_ge v bound
    | PBetween low high => is_ge v low && is_le v high
    end.

(** The derived [==]: floats by their order, and NaN differs from itself. *)
Definition value_eq (left right : ColumnValue) : bool :=
  match left, right with
  | VFloat64 _, VFloat64 _ => is_eq left right
  | _, _ => left == right
  end.

Definition same_value (left right : ColumnValue) : bool :=
  match left, right with
  | VFloat64 a, VFloat64 b => (a =? b)%N
  | _, _ => value_eq left right
  end.

Definition same_bound (left right : option ColumnValue) : bool :=
  match left, right with
  | None, None => true
  | Some a, Some b => same_value a b
  | _, _ => false
  end.

Definition same_zone (stored computed : ZoneMap) : bool :=
  (zm_null_count stored =? zm_null_count computed)%N
  && same_bound (zm_min stored) (zm_min computed) && same_bound (zm_max stored) (zm_max computed).

(** ** The writer: values of one column *)

Definition collect {A} (err : string) (f : ColumnValue → option A) (values : list ColumnValue)
    : Result (list A) StoreError :=
  map_result (fun v => ok_or (f v) (backend err)) values.

Definition collect_i64 (ty : ColumnType) : list ColumnValue → Result (list Z) StoreError :=
  collect "integer column has a non-integer value"
    (fun v => match ty, v with CInt64, VInt64 n | CTimestampMs, VTimestampMs n => Some n | _, _ => None end).
Definition collect_f64 : list ColumnValue → Result (list N) StoreError :=
  collect "float column has a non-float value" (fun v => match v with VFloat64 n => Some n | _ => None end).
Definition collect_bool : list ColumnValue → Result (list bool) StoreError :=
  collect "bool column has a non-bool value" (fun v => match v with VBool b => Some b | _ => None end).
Definition collect_utf8 : list ColumnValue → Result (list string) StoreError :=
  collect "utf8 column has a non-string value" (fun v => match v with VUtf8 s => Some s | _ => None end).
Definition collect_bytes : list ColumnValue → Result (list bytes) StoreError :=
  collect "bytes column has a non-bytes value" (fun v => match v with VBytes b => Some b | _ => None end).

(** [write_i64] and [Cur::i64] *)
Definition i64_bytes (z : Z) : bytes := u64_bytes (u64_of_i64 z).
Definition cur_i64 : Reader Z := read n := cur_u64 in ret (i64_of_u64 n).

Definition i64_sub (a b : Z) : Z := i64_wrap (a - b).
Definition i64_add (a b : Z) : Z := i64_wrap (a + b).

(** The differences of neighbors, from [prev] on. *)
Fixpoint deltas_from (prev : Z) (values : list Z) : list Z :=
  match values with
  | [] => []
  | next :: rest => i64_sub next prev :: deltas_from next rest
  end.

Definition int_deltas (values : list Z) : list Z :=
  match values with [] => [] | first :: rest => deltas_from first rest end.

(** The loop of [has_run_at_least]: the run so far, and its value. *)
Fixpoint run_at_least (min run : nat) (prev : option Z) (deltas : list Z) : bool :=
  match deltas with
  | [] => false
  | delta :: rest =>
      let run := if Some delta == prev then S run else 1 in
      if min <=? run then true else run_at_least min run (Some delta) rest
  end.

Definition has_run_at_least (deltas : list Z) (min : nat) : bool := run_at_least min 0 None deltas.

(** [iter().all(|x| x == first)] *)
Definition all_same {A} `{EqDecision A} (values : list A) : bool :=
  match values with [] => true | first :: _ => forallb (fun v => v == first) values end.

Definition utf8_codec (texts : list string) : N :=
  if (3 <=? length texts) && all_same texts then CODEC_RLE
  else if (2 <=? length texts) && (size (list_to_set texts : gset string) <=? length texts / 2) then CODEC_DICT
  else CODEC_PLAIN.

Definition choose_codec (ty : ColumnType) (values : list ColumnValue) : Result N StoreError :=
  match ty with
  | CInt64 | CTimestampMs =>
      let? ints := collect_i64 ty values in
      Ok (if has_run_at_least (int_deltas ints) 3 then CODEC_DELTA_RLE else CODEC_DELTA)
  | CBool => Ok CODEC_RLE
  | CFloat64 =>
      let? nums := collect_f64 values in
      Ok (if (3 <=? length nums) && all_same nums then CODEC_RLE else CODEC_PLAIN)
  | CBytes =>
      let? blobs := collect_bytes values in
      Ok (if (3 <=? length blobs) && all_same blobs then CODEC_RLE else CODEC_PLAIN)
  | CUtf8 => let? texts := collect_utf8 values in Ok (utf8_codec texts)
  end.

(** The loops of [write_delta_rle] and [write_bool_rle]: the runs, with their
    lengths; a length is a [u32] and [+= 1] wraps. *)
Fixpoint runs_from {A} `{EqDecision A} (current : A) (count : N) (values : list A) : list (A * N) :=
  match values with
  | [] => [(current, count)]
  | v :: rest => if v == current then runs_from current (wrap_add32 count 1) rest
                 else (current, count) :: runs_from v 1 rest
  end.

Definition runs {A} `{EqDecision A} (values : list A) : list (A * N) :=
  match values with [] => [] | first :: rest => runs_from first 1 rest end.

Definition write_delta (values : list Z) : bytes :=
  match values with
  | [] => []
  | first :: rest => i64_bytes first ++ concat (map (fun d => u64_bytes (zigzag_encode d)) (deltas_from first rest))
  end.

Definition write_delta_rle (values : list Z) : bytes :=
  match values with
  | [] => []
  | first :: _ =>
      i64_bytes first
      ++ concat (map (fun r => u64_bytes (zigzag_encode r.1) ++ u32_bytes r.2) (runs (int_deltas values)))
  end.

(** The dictionary, the index of each entry, and the indexes so far. *)
Definition dict_step (s : list string * gmap string N * list N) (v : string)
    : Result (list string * gmap string N * list N) StoreError :=
  let '(dict, index_of, indexes) := s in
  match index_of !! v with
  | Some index => Ok (dict, index_of, indexes ++ [index])
  | None =>
      let? index := ok_or (u32_try (len dict)) (backend "dictionary exceeds u32") in
      Ok (dict ++ [v], <[v := index]> index_of, indexes ++ [index])
  end.

Definition write_dict (values : list string) : Result bytes StoreError :=
  let? (dict, _, indexes) := for_fold dict_step ([], ∅, []) values in
  let? n := ok_or (u32_try (len dict)) (backend "dictionary exceeds u32") in
  let? entries := write_many write_str dict in
  Ok (u32_bytes n ++ entries ++ concat (map u32_bytes indexes)).

Definition bool_byte (b : bool) : ascii := ascii_of_N (if b then 1 else 0).

Definition write_bool_rle (values : list bool) : bytes :=
  concat (map (fun r => bool_byte r.1 :: u32_bytes r.2) (runs values)).

(** [if let Some(first) = values.first()] *)
Definition write_first {A} (f : A → Result bytes StoreError) (values : list A) : Result bytes StoreError :=
  match values with [] => Ok [] | first :: _ => f first end.

Definition write_payload (ty : ColumnType) (codec : N) (values : list ColumnValue) : Result bytes StoreError :=
  match ty, codec with
  | (CInt64 | CTimestampMs), 1 => let? ints := collect_i64 ty values in Ok (write_delta ints)
  | (CInt64 | CTimestampMs), 2 => let? ints := collect_i64 ty values in Ok (write_delta_rle ints)
  | CUtf8, 3 => let? texts := collect_utf8 values in write_many write_str texts
  | CUtf8, 4 => let? texts := collect_utf8 values in write_dict texts
  | CUtf8, 5 => let? texts := collect_utf8 values in write_first write_str texts
  | CBytes, 3 => let? blobs := collect_bytes values in write_many write_lp blobs
  | CBytes, 5 => let? blobs := collect_bytes values in write_first write_lp blobs
  | CFloat64, 3 => let? nums := collect_f64 values in Ok (concat (map u64_bytes nums))
  | CFloat64, 5 => let? nums := collect_f64 values in write_first (fun n => Ok (u64_bytes n)) nums
  | CBool, 5 => let? bits := collect_bool values in Ok (write_bool_rle bits)
  | _, _ => Err (backend ("codec " +:+ pretty codec +:+ " does not match the column type"))
  end%N.

(** [bits[index / 8] |= 1 << (index % 8)] for a null. *)
Definition set_null_bit (bits : list N) (x : nat * ColumnValue) : list N :=
  if is_null x.2 then alter (fun b => N.lor b (N.shiftl 1 (N.of_nat (x.1 mod 8)))) (x.1 / 8) bits else bits.

Definition div_ceil8 (n : nat) : nat := (n + 7) / 8.

Definition null_bits (values : list ColumnValue) : list N :=
  foldl set_null_bit (replicate (div_ceil8 (length values)) 0%N) (imap pair values).

Definition write_bitset (values : list ColumnValue) : bytes := map ascii_of_N (null_bits values).

Definition write_typed (ty : ColumnType) (v : ColumnValue) : Result bytes StoreError :=
  match ty, v with
  | CInt64, VInt64 n | CTimestampMs, VTimestampMs n => Ok (i64_bytes n)
  | CFloat64, VFloat64 n => Ok (u64_bytes n)
  | CBool, VBool b => Ok [bool_byte b]
  | CUtf8, VUtf8 s => write_str s
  | CBytes, VBytes b => write_lp b
  | _, _ => Err (backend "zone map bound does not match the column type")
  end.

Definition write_zone (ty : ColumnType) (z : ZoneMap) : Result bytes StoreError :=
  let count := u64_bytes (zm_null_count z) in
  match zm_min z, zm_max z with
  | None, None => Ok (count ++ [ascii_of_N 0])
  | Some min, Some max =>
      let? low := write_typed ty min in
      let? high := write_typed ty max in
      Ok (count ++ [ascii_of_N 1] ++ low ++ high)
  | _, _ => Err (backend "zone map has only one bound")
  end.

Definition write_chunk (ty : ColumnType) (values : list ColumnValue) : Result bytes StoreError :=
  let? zone := write_zone ty (zone_map values) in
  let non_null := List.filter (fun v => negb (is_null v)) values in
  let? codec := choose_codec ty non_null in
  let? payload := write_payload ty codec non_null in
  let body := write_bitset values ++ payload in
  let? n := ok_or (u32_try (len body)) (backend "column chunk exceeds u32") in
  Ok (zone ++ [ascii_of_N codec] ++ u32_bytes n ++ body).

(** ** The writer: a group *)

Section Groups.
Context `{Engine}.
Implicit Types (columns : list ColumnDef) (limits : Limits).

(** [CELL_BYTES], [ROW_BYTES] *)
Definition CELL_BYTES : N := 3 * size_of_value.
Definition ROW_BYTES : N := size_of_row.

Definition cell_heap (v : ColumnValue) : N :=
  match v with VUtf8 s => sat_add64 (str_len s) 4 | VBytes b => sat_add64 (len b) 4 | _ => 0 end.

Definition estimated_decode_bytes columns (rows : list (list ColumnValue)) : N :=
  let per_row := sat_add64 ROW_BYTES (sat_mul64 (len columns) CELL_BYTES) in
  let heap := foldl sat_add64 0%N (map cell_heap (concat rows)) in
  sat_add64 (sat_mul64 (len rows) per_row) heap.

Definition validate_cell (row_index : nat) (x : ColumnDef * ColumnValue) : Result unit StoreError :=
  if cell_matches (cd_ty x.1) x.2 then Ok tt
  else Err (backend ("row " +:+ pretty (N.of_nat row_index) +:+ " column `" +:+ cd_name x.1 +:+ "` has the wrong type")).

Definition validate_rows columns (rows : list (list ColumnValue)) : Result unit StoreError :=
  for_each (fun '(row_index, row) =>
    if negb (length row =? length columns)
    then Err (backend ("row " +:+ pretty (N.of_nat row_index) +:+ " width " +:+ pretty (len row)
                +:+ " does not match table width " +:+ pretty (len columns)))
    else for_each (validate_cell row_index) (zip columns row)) (imap pair rows).

(** [rows.iter().map(|row| row[index].clone())]; the rows have the width. *)
Definition column_values (rows : list (list ColumnValue)) (index : nat) : list ColumnValue :=
  map (fun row => nth index row VNull) rows.

Definition encode_row_group_with columns (rows : list (list ColumnValue)) limits : Result bytes StoreError :=
  if (lm_max_rows limits <? len rows)%N
  then Err (backend (pretty (len rows) +:+ " rows in one group; the limit is " +:+ pretty (lm_max_rows limits)
              +:+ ", append in several groups"))
  else
    let? _ := validate_rows columns rows in
    if (lm_max_bytes limits <? estimated_decode_bytes columns rows)%N
    then Err (backend ("row group would decode to more than " +:+ pretty (lm_max_bytes limits)
                +:+ " bytes; append in several groups"))
    else
      let? row_count := ok_or (u32_try (len rows)) (backend "too many rows in one group") in
      let? chunks := write_many (fun '(index, column) => write_chunk (cd_ty column) (column_values rows index))
                       (imap pair columns) in
      Ok (u32_bytes row_count ++ chunks).

Definition encode_row_group columns (rows : list (list ColumnValue)) : Result bytes StoreError :=
  encode_row_group_with columns rows Limits_DEFAULT.

(** ** The budget *)

Record Budget := { bg_left : N; bg_limit : N }.

Definition Budget_new (limit : N) : Budget := {| bg_left := limit; bg_limit := limit |}.

Definition charge (b : Budget) (n : N) (what : string) : Result Budget StoreError :=
  if (bg_left b <? n)%N
  then Err (corrupt ("row group would decode to more than " +:+ pretty (bg_limit b) +:+ " bytes (" +:+ what +:+ ")"))
  else Ok {| bg_left := bg_left b - n; bg_limit := bg_limit b |}.

Definition mul (a b : N) (what : string) : Result N StoreError :=
  ok_or (checked_mul64 a b) (corrupt (what +:+ " overflows")).

(** ** The reader: values of one column *)

(** [Cur::new(payload)], then [finish]. *)
Definition on_payload {A} (r : Reader A) (payload : bytes) : Result A StoreError :=
  let? (a, _) := (read a := r in read _ := cur_finish in ret a) payload in Ok a.

Definition empty_payload (payload : bytes) (codec : string) : Result (list ColumnValue) StoreError :=
  match payload with [] => Ok [] | _ => Err (corrupt (codec +:+ " payload is not empty")) end.

Definition check_plain_count (payload : bytes) (n : nat) (min_each : N) : Result unit StoreError :=
  let? need := mul (N.of_nat n) min_each "value count" in
  if (len payload <? need)%N
  then Err (corrupt (pretty (N.of_nat n) +:+ " values need at least " +:+ pretty min_each
              +:+ " bytes each but the payload has " +:+ pretty (len payload)))
  else Ok tt.

Definition int_value (ty : ColumnType) (z : Z) : ColumnValue :=
  match ty with CTimestampMs => VTimestampMs z | _ => VInt64 z end.

Fixpoint delta_values (ty : ColumnType) (prev : Z) (n : nat) : Reader (list ColumnValue) :=
  match n with
  | O => ret []
  | S n =>
      read d := cur_u64 in
      let prev := i64_add prev (zigzag_decode d) in
      read rest := delta_values ty prev n in
      ret (int_value ty prev :: rest)
  end.

Definition decode_delta (ty : ColumnType) (payload : bytes) (n : nat) : Result (list ColumnValue) StoreError :=
  match n with
  | O => empty_payload payload "delta"
  | S n' =>
      let? _ := check_plain_count payload n 8 in
      on_payload (read first := cur_i64 in read rest := delta_values ty first n' in ret (int_value ty first :: rest)) payload
  end.

(** [len] more values, each [delta] after the one before. *)
Fixpoint delta_run (ty : ColumnType) (delta prev : Z) (len : nat) : list ColumnValue * Z :=
  match len with
  | O => ([], prev)
  | S len =>
      let prev := i64_add prev delta in
      let '(rest, last) := delta_run ty delta prev len in (int_value ty prev :: rest, last)
  end.

(** [while out.len() < n]: [left] values are missing; every turn adds one at
    least, so [left] turns are enough. *)
Fixpoint delta_runs (fuel : nat) (ty : ColumnType) (prev : Z) (left : nat) : Reader (list ColumnValue) :=
  match fuel, left with
  | _, O => ret []
  | O, _ => fail (corrupt "delta runs out of fuel")
  | S fuel, _ =>
      read d := cur_u64 in
      read len := cur_u32 in
      if (len =? 0)%N || (N.of_nat left <? len)%N then fail (corrupt "delta run length is outside the column")
      else
        let '(values, prev) := delta_run ty (zigzag_decode d) prev (N.to_nat len) in
        read rest := delta_runs fuel ty prev (left - N.to_nat len) in
        ret (values ++ rest)
  end.

Definition decode_delta_rle (ty : ColumnType) (payload : bytes) (n : nat) : Result (list ColumnValue) StoreError :=
  match n with
  | O => empty_payload payload "delta_rle"
  | S n' =>
      on_payload (read first := cur_i64 in read rest := delta_runs n' ty first n' in ret (int_value ty first :: rest)) payload
  end.

Definition decode_plain (min_each : N) (r : Reader ColumnValue) (payload : bytes) (n : nat)
    : Result (list ColumnValue) StoreError :=
  let? _ := check_plain_count payload n min_each in on_payload (cur_many n r) payload.

Definition cur_utf8 : Reader ColumnValue := read s := cur_lp_str in ret (VUtf8 s).
Definition cur_blob : Reader ColumnValue := read b := cur_lp in ret (VBytes b).
Definition cur_f64 : Reader ColumnValue := read n := cur_u64 in ret (VFloat64 n).

Definition decode_plain_text : bytes → nat → Result (list ColumnValue) StoreError := decode_plain 4 cur_utf8.
Definition decode_plain_bytes : bytes → nat → Result (list ColumnValue) StoreError := decode_plain 4 cur_blob.
Definition decode_plain_f64 : bytes → nat → Result (list ColumnValue) StoreError := decode_plain 8 cur_f64.

(** [Cur::take] of a count that may be large *)
Definition cur_take_N (n : N) : Reader bytes :=
  read ahead := cur_remaining in
  if (ahead <? n)%N then fail (corrupt "truncated record") else cur_take (N.to_nat n).

(** The dictionary and the bytes of the indexes. *)
Definition read_dict (n : nat) : Reader (list string * bytes) :=
  read dict_len := cur_u32 in
  read need := lift (mul dict_len 4 "dictionary count") in
  read ahead := cur_remaining in
  if (ahead <? need)%N then fail (corrupt "dictionary count exceeds the payload")
  else
    read dict := cur_many (N.to_nat dict_len) cur_lp_str in
    read size := lift (mul (N.of_nat n) 4 "value count") in
    read index_bytes := cur_take_N size in
    ret (dict, index_bytes).

(** One index, range-checked; the code makes two passes over the same indexes. *)
Definition dict_text (dict : list string) : Reader string :=
  read index := cur_u32 in
  match dict !! N.to_nat index with
  | Some text => ret text
  | None => fail (corrupt "dictionary index is out of range")
  end.

Definition decode_dict_text (payload : bytes) (n : nat) (budget : Budget)
    : Result (list ColumnValue * Budget) StoreError :=
  let? (dict, index_bytes) := on_payload (read_dict n) payload in
  let? (texts, _) := cur_many n (dict_text dict) index_bytes in
  let? budget := charge budget (foldl sat_add64 0%N (map str_len texts)) "dictionary text" in
  Ok (map VUtf8 texts, budget).

(** [decode_rle_text], [decode_rle_bytes] *)
Definition decode_rle (r : Reader ColumnValue) (size : ColumnValue → N) (what : string) (payload : bytes) (n : nat)
    (budget : Budget) : Result (list ColumnValue * Budget) StoreError :=
  match n with
  | O => let? vs := empty_payload payload "rle" in Ok (vs, budget)
  | _ =>
      let? v := on_payload r payload in
      let? total := mul (size v) (N.of_nat n) "run length" in
      let? budget := charge budget total what in
      Ok (replicate n v, budget)
  end.

Definition value_len (v : ColumnValue) : N := match v with VUtf8 s => str_len s | VBytes b => len b | _ => 0 end.

Definition decode_rle_text : bytes → nat → Budget → Result (list ColumnValue * Budget) StoreError :=
  decode_rle cur_utf8 value_len "repeated text".
Definition decode_rle_bytes : bytes → nat → Budget → Result (list ColumnValue * Budget) StoreError :=
  decode_rle cur_blob value_len "repeated bytes".

Definition decode_rle_f64 (payload : bytes) (n : nat) : Result (list ColumnValue) StoreError :=
  match n with
  | O => empty_payload payload "rle"
  | _ => let? v := on_payload cur_f64 payload in Ok (replicate n v)
  end.

Fixpoint bool_runs (fuel left : nat) : Reader (list ColumnValue) :=
  match fuel, left with
  | _, O => ret []
  | O, _ => fail (corrupt "bool runs out of fuel")
  | S fuel, _ =>
      read bit := cur_u8 in
      if (1 <? bit)%N then fail (corrupt "bool run is not 0 or 1")
      else
        read len := cur_u32 in
        if (len =? 0)%N || (N.of_nat left <? len)%N then fail (corrupt "bool run length is outside the column")
        else
          read rest := bool_runs fuel (left - N.to_nat len) in
          ret (replicate (N.to_nat len) (VBool (bit =? 1)%N) ++ rest)
  end.

Definition decode_rle_bool (payload : bytes) (n : nat) : Result (list ColumnValue) StoreError :=
  on_payload (bool_runs n n) payload.

Definition unbudgeted (budget : Budget) (r : Result (list ColumnValue) StoreError)
    : Result (list ColumnValue * Budget) StoreError :=
  let? vs := r in Ok (vs, budget).

Definition decode_non_null (ty : ColumnType) (codec : N) (payload : bytes) (n : nat) (budget : Budget)
    : Result (list ColumnValue * Budget) StoreError :=
  let? size := mul (N.of_nat n) size_of_value "value count" in
  let? budget := charge budget size "values" in
  match ty, codec with
  | (CInt64 | CTimestampMs), 1 => unbudgeted budget (decode_delta ty payload n)
  | (CInt64 | CTimestampMs), 2 => unbudgeted budget (decode_delta_rle ty payload n)
  | CUtf8, 3 => unbudgeted budget (decode_plain_text payload n)
  | CUtf8, 4 => decode_dict_text payload n budget
  | CUtf8, 5 => decode_rle_text payload n budget
  | CBytes, 3 => unbudgeted budget (decode_plain_bytes payload n)
  | CBytes, 5 => decode_rle_bytes payload n budget
  | CFloat64, 3 => unbudgeted budget (decode_plain_f64 payload n)
  | CFloat64, 5 => unbudgeted budget (decode_rle_f64 payload n)
  | CBool, 5 => unbudgeted budget (decode_rle_bool payload n)
  | _, _ => Err (corrupt ("codec " +:+ pretty codec +:+ " does not match the column type"))
  end%N.

(** [bits[index / 8] & (1 << (index % 8)) != 0] *)
Definition null_bit (bits : bytes) (index : nat) : bool :=
  N.testbit (code (nth (index / 8) bits zero)) (N.of_nat (index mod 8)).

Definition count_ones (b : ascii) : N := sum_list_N (map (fun k => if N.testbit (code b) (N.of_nat k) then 1%N else 0%N) (seq 0 8)).

(** The loop that puts the nulls back between the values. *)
Fixpoint interleave (nulls : list bool) (values : list ColumnValue) : Result (list ColumnValue) StoreError :=
  match nulls, values with
  | [], [] => Ok []
  | [], _ => Err (corrupt "column has unused non-null values")
  | true :: nulls, _ => let? rest := interleave nulls values in Ok (VNull :: rest)
  | false :: nulls, [] => Err (corrupt "column ran out of non-null values")
  | false :: nulls, v :: values => let? rest := interleave nulls values in Ok (v :: rest)
  end.

Definition unused_bits (row_count : nat) (bits : bytes) : bool :=
  negb (row_count mod 8 =? 0)
  && negb (N.shiftr (code (nth (length bits - 1) bits zero)) (N.of_nat (row_count mod 8)) =? 0)%N.

Definition decode_column (ty : ColumnType) (row_count : nat) (zone : ZoneMap) (codec : N) (body : bytes)
    (budget : Budget) : Result (list ColumnValue * Budget) StoreError :=
  let bit_len := div_ceil8 row_count in
  if length body <? bit_len then Err (corrupt "null bitset is truncated")
  else
    let bits := take bit_len body in
    let payload := drop bit_len body in
    if unused_bits row_count bits then Err (corrupt "null bitset has unused bits set")
    else if negb (sum_list_N (map count_ones bits) =? zm_null_count zone)%N
    then Err (corrupt "null bitset does not match null_count")
    else if (N.of_nat row_count <? zm_null_count zone)%N then Err (corrupt "null count exceeds the row count")
    else
      let non_null_count := row_count - N.to_nat (zm_null_count zone) in
      let? (non_null, budget) := decode_non_null ty codec payload non_null_count budget in
      let? size := mul (N.of_nat row_count) size_of_value "row count" in
      let? budget := charge budget size "column" in
      let? out := interleave (map (null_bit bits) (seq 0 row_count)) non_null in
      Ok (out, budget).

(** ** The reader: a group *)

Record IndexedColumn := { ic_zone : ZoneMap; ic_codec : N; ic_body : bytes }.
Record IndexedGroup := { ig_row_count : nat; ig_columns : list IndexedColumn }.

Definition read_typed (ty : ColumnType) : Reader ColumnValue :=
  match ty with
  | CInt64 => read n := cur_i64 in ret (VInt64 n)
  | CTimestampMs => read n := cur_i64 in ret (VTimestampMs n)
  | CFloat64 => cur_f64
  | CBool => read b := cur_u8 in
             match b with 0 => ret (VBool false) | 1 => ret (VBool true) | _ => fail (corrupt "bool bound is not 0 or 1") end%N
  | CUtf8 => cur_utf8
  | CBytes => cur_blob
  end.

Definition read_zone (ty : ColumnType) : Reader ZoneMap :=
  read null_count := cur_u64 in
  read flag := cur_u8 in
  match flag with
  | 0 => ret {| zm_null_count := null_count; zm_min := None; zm_max := None |}
  | 1 => read min := read_typed ty in
         read max := read_typed ty in
         if negb (is_le min max) then fail (corrupt "zone map bounds are not ordered")
         else ret {| zm_null_count := null_count; zm_min := Some min; zm_max := Some max |}
  | _ => fail (corrupt "zone map flag is not 0 or 1")
  end%N.

Definition index_column (row_count : N) (column : ColumnDef) : Reader IndexedColumn :=
  read zone := read_zone (cd_ty column) in
  if (row_count <? zm_null_count zone)%N then fail (corrupt "null count exceeds the row count")
  else
    read codec := cur_u8 in
    read body_len := cur_u32 in
    read body := cur_take_N body_len in
    ret {| ic_zone := zone; ic_codec := codec; ic_body := body |}.

Fixpoint index_columns (row_count : N) columns : Reader (list IndexedColumn) :=
  match columns with
  | [] => ret []
  | column :: rest =>
      read indexed := index_column row_count column in
      read others := index_columns row_count rest in
      ret (indexed :: others)
  end.

Definition index_group_with (blob : bytes) columns limits : Result IndexedGroup StoreError :=
  on_payload (
    read row_count := cur_u32 in
    if (row_count =? 0)%N then fail (corrupt "row group has no rows")
    else if (lm_max_rows limits <? row_count)%N
    then fail (corrupt ("row group claims " +:+ pretty row_count +:+ " rows; the limit is " +:+ pretty (lm_max_rows limits)))
    else
      read indexed := index_columns row_count columns in
      ret {| ig_row_count := N.to_nat row_count; ig_columns := indexed |}) blob.

Definition index_group (blob : bytes) columns : Result IndexedGroup StoreError :=
  index_group_with blob columns Limits_DEFAULT.

(** [group_row_count] *)
Definition group_row_count (blob : bytes) : Result N StoreError := let? (n, _) := cur_u32 blob in Ok n.

Fixpoint decode_columns (row_count : nat) (work : list (ColumnDef * IndexedColumn)) (budget : Budget)
    : Result (list (list ColumnValue)) StoreError :=
  match work with
  | [] => Ok []
  | (column, indexed) :: rest =>
      let? (values, budget) :=
        decode_column (cd_ty column) row_count (ic_zone indexed) (ic_codec indexed) (ic_body indexed) budget in
      if negb (same_zone (ic_zone indexed) (zone_map values))
      then Err (corrupt "zone map does not match the column values")
      else let? others := decode_columns row_count rest budget in Ok (values :: others)
  end.

(** [for (row, value) in rows.iter_mut().zip(column)] *)
Definition push_column (rows : list (list ColumnValue)) (column : list ColumnValue) : list (list ColumnValue) :=
  imap (fun i row => match column !! i with Some v => row ++ [v] | None => row end) rows.

Definition decode_indexed_with columns (indexed : IndexedGroup) limits : Result (list (list ColumnValue)) StoreError :=
  let row_count := ig_row_count indexed in
  let row_size := wrap_add64 ROW_BYTES ((len columns * size_of_value) mod (u64_max + 1)) in
  let? size := mul (N.of_nat row_count) row_size "row count" in
  let? budget := charge (Budget_new (lm_max_bytes limits)) size "rows" in
  let? decoded := decode_columns row_count (zip columns (ig_columns indexed)) budget in
  Ok (foldl push_column (replicate row_count []) decoded).

Definition decode_indexed columns (indexed : IndexedGroup) : Result (list (list ColumnValue)) StoreError :=
  decode_indexed_with columns indexed Limits_DEFAULT.

Definition validate_row_group_with columns (b : bytes) limits : Result unit StoreError :=
  let? indexed := index_group_with b columns limits in
  let? _ := decode_indexed_with columns indexed limits in
  Ok tt.

Definition validate_row_group columns (b : bytes) : Result unit StoreError :=
  validate_row_group_with columns b Limits_DEFAULT.

(** ** Scans *)

Definition predicate_matches_type (ty : ColumnType) (p : ColumnPredicate) : bool :=
  match p with
  | PEq v | PLt v | PLe v | PGt v | PGe v => value_type v == Some ty
  | PBetween low high => (value_type low == Some ty) && (value_type high == Some ty)
  end.

Definition bind_filter columns (f : ColumnFilter) : Result (nat * ColumnPredicate) StoreError :=
  match list_find (fun c => cd_name c = cf_column f) columns with
  | None => Err (backend ("no column `" +:+ cf_column f +:+ "`"))
  | Some (index, column) =>
      if predicate_matches_type (cd_ty column) (cf_predicate f) then Ok (index, cf_predicate f)
      else Err (backend ("predicate type does not match column `" +:+ cf_column f +:+ "`"))
  end.

Definition bind_filters columns (filters : list ColumnFilter) : Result (list (nat * ColumnPredicate)) StoreError :=
  map_result (bind_filter columns) filters.

(** [indexed.columns[filter.index].zone.excludes(..)]; an index is in range. *)
Definition group_excluded (bound : list (nat * ColumnPredicate)) (indexed : IndexedGroup) : bool :=
  existsb (fun f => is_some_and (ig_columns indexed !! f.1) (fun c => excludes (ic_zone c) f.2)) bound.

Definition row_matches (bound : list (nat * ColumnPredicate)) (row : list ColumnValue) : bool :=
  forallb (fun f => matches_predicate (nth f.1 row VNull) f.2) bound.

Definition scan_group columns (bound : list (nat * ColumnPredicate)) (s : list (list ColumnValue) * N) (group : bytes)
    : Result (list (list ColumnValue) * N) StoreError :=
  let '(rows, skipped) := s in
  let? indexed := index_group group columns in
  if group_excluded bound indexed then Ok (rows, sat_add64 skipped 1)
  else
    let? decoded := decode_indexed columns indexed in
    Ok (rows ++ List.filter (row_matches bound) decoded, skipped).

Definition scan_groups columns (groups : list bytes) (filters : list ColumnFilter) : Result ColumnScan StoreError :=
  let? bound := bind_filters columns filters in
  let? (rows, skipped) := for_fold (scan_group columns bound) ([], 0%N) groups in
  Ok {| cs_rows := rows; cs_total := len groups; cs_skipped := skipped |}.

(** ** Scans of rows in memory *)

(** The inner loop: how many rows the chunk takes. *)
Fixpoint chunk_rows columns limits (taken spent : N) (rows : list (list ColumnValue)) : nat :=
  match rows with
  | [] => 0
  | row :: rest =>
      if (lm_max_rows limits <=? taken)%N then 0
      else
        let cost := estimated_decode_bytes columns [row] in
        if (0 <? taken)%N && (lm_max_bytes limits <? sat_add64 spent cost)%N then 0
        else S (chunk_rows columns limits (taken + 1) (sat_add64 spent cost) rest)
  end.

(** A turn takes a row at least when [max_rows] is positive, so as many turns
    as rows are enough. *)
Fixpoint scan_chunks (fuel : nat) columns (filters : list ColumnFilter) limits (merged : ColumnScan)
    (rows : list (list ColumnValue)) : Result ColumnScan StoreError :=
  match fuel, rows with
  | _, [] => Ok merged
  | O, _ => Err (backend "scan out of fuel")
  | S fuel, _ =>
      let n := chunk_rows columns limits 0 0 rows in
      let? blob := encode_row_group_with columns (take n rows) limits in
      let? scan := scan_groups columns [blob] filters in
      scan_chunks fuel columns filters limits
        {| cs_rows := cs_rows merged ++ cs_rows scan;
           cs_total := sat_add64 (cs_total merged) (cs_total scan);
           cs_skipped := sat_add64 (cs_skipped merged) (cs_skipped scan) |} (drop n rows)
  end.

Definition scan_projected_with columns (rows : list (list ColumnValue)) (filters : list ColumnFilter) limits
    : Result ColumnScan StoreError :=
  scan_chunks (length rows) columns filters limits {| cs_rows := []; cs_total := 0; cs_skipped := 0 |} rows.

Definition SCAN_CHUNK_ROWS : N := 262144.

Definition scan_projected columns (rows : list (list ColumnValue)) (filters : list ColumnFilter)
    : Result ColumnScan StoreError :=
  scan_projected_with columns rows filters
    {| lm_max_rows := N.min SCAN_CHUNK_ROWS MAX_ROWS_PER_GROUP; lm_max_bytes := MAX_DECODE_BYTES |}.
End Groups.
