(* ===== verification/FlsVector.v ===== *)
(** * The vector index ([vector.rs], lines 285-311, 406-760, 747-1260, 1391-1453)

    A vector collection is a graph: every vector has, on each layer up to its
    level, a list of neighbors, and a search walks the lists from the entry
    point. [VectorCollection::upsert] and [delete_id] change the lists; what
    [stage] and a replay call is what is here. A stored vector is bytes, a
    value of it is the bits of a [f32], a distance is a [f64].

    The heap of [search_layer] is a list in rank order, and its loop runs on
    fuel: a vector enters the heap once, so one turn for each vector and one
    more end it. Running out of fuel is an error no branch of the code has;
    [FlsGraph] shows it does not happen. *)

From Stdlib Require Import SpecFloat.
From S2P Require Import Prelude RustStr Ledger FlsBytes FlsFloat FlsModel.

(** Iteration of a [BTreeSet<String>]. *)
Definition btree_set_iter (s : gset string) : list string := sort_by str_leb (elements s).

(** ** Values and distances *)

(** [as_chunks], read as little-endian integers. *)
Fixpoint chunks2 (l : bytes) : list N :=
  match l with a :: b :: l' => le_value [a; b] :: chunks2 l' | _ => [] end.

Fixpoint chunks4 (l : bytes) : list N :=
  match l with a :: b :: c :: d :: l' => le_value [a; b; c; d] :: chunks4 l' | _ => [] end.

Definition finite_component (err : string) (bits : N) : Result N StoreError :=
  if f32_finite bits then Ok bits else Err (backend err).

Definition quantize (storage : VectorStorage) (values : list N) : Result bytes StoreError :=
  let finite := finite_component "vector component is not finite" in
  match storage with
  | F32 => let? vs := map_result finite values in Ok (concat (map u32_bytes vs))
  | F16 => let? vs := map_result (fun v => let? v := finite v in f32_to_f16 v) values in
           Ok (concat (map (le_bytes 2) vs))
  | I8 => let? vs := map_result finite values in Ok (map quantize_i8 vs)
  end.

Definition dequantize (storage : VectorStorage) (b : bytes) : Result (list N) StoreError :=
  let finite := finite_component "stored vector component is not finite" in
  match storage with
  | F32 => if negb (length b mod 4 =? 0) then Err (backend "stored f32 vector length is not a multiple of 4")
           else map_result finite (chunks4 b)
  | F16 => if negb (length b mod 2 =? 0) then Err (backend "stored f16 vector length is not a multiple of 2")
           else map_result finite (map f16_to_f32 (chunks2 b))
  | I8 => Ok (map (fun x => f32_of_i8 (i8_of x)) b)
  end.

Definition products (left right : list N) : list f64 :=
  zip_with (fun a b => f64_mul (f64_of_f32 a) (f64_of_f32 b)) left right.

Definition dot (left right : list N) : f64 := f64_sum (products left right).

Definition euclidean (left right : list N) : f64 :=
  f64_sqrt (f64_sum (zip_with (fun a b =>
    let delta := f64_sub (f64_of_f32 a) (f64_of_f32 b) in f64_mul delta delta) left right)).

Definition dot_self (values : list N) : f64 := dot values values.

Definition cosine (left right : list N) : f64 :=
  let dot := dot left right in
  let left_norm := f64_sqrt (dot_self left) in
  let right_norm := f64_sqrt (dot_self right) in
  let zero := S754_zero false in
  if SFeqb left_norm zero || SFeqb right_norm zero then zero
  else f64_div dot (f64_mul left_norm right_norm).

Definition f64_one : f64 := f64_of_Z 1.

Definition similarity (metric : VectorMetric) (left right : list N) : f64 :=
  match metric with
  | L2 => f64_div f64_one (f64_add f64_one (euclidean left right))
  | Cosine => cosine left right
  | DotProduct => dot left right
  end.

Definition graph_distance (metric : VectorMetric) (left right : list N) : f64 :=
  match metric with
  | L2 => euclidean left right
  | Cosine => f64_sub f64_one (cosine left right)
  | DotProduct => f64_neg (dot left right)
  end.

(** ** Ranks: a distance, then an id *)

Abbreviation Rank := (f64 * string)%type.

(** [cmp_distance_then_id] and [Ord for Rank]: less or equal, and less. *)
Definition rank_leb (a b : Rank) : bool :=
  (f64_key a.1 <? f64_key b.1)%Z || ((f64_key a.1 =? f64_key b.1)%Z && str_leb a.2 b.2).

Definition rank_ltb (a b : Rank) : bool := negb (rank_leb b a).

Section Index.
Context `{Engine}.
Implicit Types (c : VectorCollection) (id : string) (layer : nat).

(** ** The lists of the graph *)

Definition with_records c (vectors : gmap string VectorRecord) : VectorCollection :=
  {| vc_dim := vc_dim c; vc_storage := vc_storage c; vc_metric := vc_metric c; vc_m := vc_m c;
     vc_ef_construction := vc_ef_construction c; vc_ef_search := vc_ef_search c;
     vc_vectors := vectors; vc_entry := vc_entry c |}.

Definition with_entry c (entry : option string) : VectorCollection :=
  {| vc_dim := vc_dim c; vc_storage := vc_storage c; vc_metric := vc_metric c; vc_m := vc_m c;
     vc_ef_construction := vc_ef_construction c; vc_ef_search := vc_ef_search c;
     vc_vectors := vc_vectors c; vc_entry := entry |}.

(** [vectors.get(id).and_then(|rec| rec.neighbors.get(layer))] *)
Definition slot c id layer : option (list string) :=
  record ← vc_vectors c !! id; vr_neighbors record !! layer.

Definition set_neighbors (r : VectorRecord) (neighbors : list (list string)) : VectorRecord :=
  {| vr_bytes := vr_bytes r; vr_metadata := vr_metadata r; vr_level := vr_level r; vr_neighbors := neighbors |}.

(** [if let Some(slot) = vectors.get_mut(id).and_then(|rec| rec.neighbors.get_mut(layer))] *)
Definition with_slot c id layer (f : list string → list string) : VectorCollection :=
  with_records c (alter (fun r => set_neighbors r (alter f layer (vr_neighbors r))) id (vc_vectors c)).

Definition retain_not (gone : string) (l : list string) : list string := List.filter (fun other => other != gone) l.

(** ** Distances of stored vectors *)

Definition stored c id : Result (list N) StoreError :=
  match vc_vectors c !! id with
  | None => Err (backend ("vector `" +:+ id +:+ "` is missing"))
  | Some record => dequantize (vc_storage c) (vr_bytes record)
  end.

(** [distance_to], [pair_distance] *)
Definition distance_to c (query : list N) id : Result f64 StoreError :=
  let? values := stored c id in Ok (graph_distance (vc_metric c) query values).

Definition rank_of c (query : list N) id : Result Rank StoreError :=
  let? distance := distance_to c query id in Ok (distance, id).

(** The loop that ranks candidates, then [sort_by]. *)
Definition ranked c (origin : list N) (ids : list string) : Result (list Rank) StoreError :=
  let? ranks := map_result (rank_of c origin) ids in Ok (sort_by rank_leb ranks).

(** ** Keeping a list short, mutual and in order *)

Definition sort_layer c id layer : Result VectorCollection StoreError :=
  let current := default [] (slot c id layer) in
  if length current <? 2 then Ok c
  else
    let? origin := stored c id in
    let? ranks := ranked c origin current in
    Ok (with_slot c id layer (fun _ => map snd ranks)).

(** [dedup_by] on the ids. *)
Fixpoint dedup_ids (l : list Rank) : list Rank :=
  match l with
  | a :: ((b :: _) as l') => if a.2 == b.2 then
                               match dedup_ids l' with _ :: rest => a :: rest | [] => [a] end
                             else a :: dedup_ids l'
  | _ => l
  end.

Definition prune c id layer : Result VectorCollection StoreError :=
  let current := default [] (slot c id layer) in
  let max := N.to_nat (max_links (vc_m c) layer) in
  if length current <=? max then sort_layer c id layer
  else
    let? origin := stored c id in
    let? ranks := ranked c origin current in
    let ids := map snd (dedup_ids ranks) in
    let c := with_slot c id layer (fun _ => take max ids) in
    Ok (foldl (fun c nid => with_slot c nid layer (retain_not id)) c (drop max ids)).

Definition links_back c id layer (nid : string) : bool :=
  is_some_and (slot c nid layer) (fun slot => contains slot id).

Definition ensure_reciprocal c id layer : VectorCollection :=
  let keep := List.filter (links_back c id layer) (default [] (slot c id layer)) in
  with_slot c id layer (fun _ => keep).

(** ** Search *)

(** One neighbor of the popped vector: [visited], the heap and [best]. *)
Record Search := { sr_visited : gset string; sr_candidates : list Rank; sr_best : list Rank }.

(** [best.insert(best.partition_point(|held| *held < rank), rank)] *)
Fixpoint insert_rank (rank : Rank) (best : list Rank) : list Rank :=
  match best with
  | [] => [rank]
  | held :: rest => if rank_ltb held rank then held :: insert_rank rank rest else rank :: best
  end.

Definition full (ef : N) (best : list Rank) : bool := (ef <=? len best)%N.
Definition truncate (ef : N) (best : list Rank) : list Rank := take (N.to_nat ef) best.

Definition visit_neighbor c (query : list N) (ef : N) (s : Search) (nid : string) : Result Search StoreError :=
  if bool_decide (nid ∈ sr_visited s) then Ok s
  else
    let visited := {[nid]} ∪ sr_visited s in
    let? rank := rank_of c query nid in
    let fits := match last (sr_best s) with
                | Some worst => if full ef (sr_best s) then rank_ltb rank worst else true
                | None => true
                end in
    if fits
    then Ok {| sr_visited := visited; sr_candidates := insert_rank rank (sr_candidates s);
               sr_best := truncate ef (insert_rank rank (sr_best s)) |}
    else Ok {| sr_visited := visited; sr_candidates := sr_candidates s; sr_best := sr_best s |}.

Fixpoint search_loop (fuel : nat) c (query : list N) (ef : N) layer (s : Search) : Result (list Rank) StoreError :=
  match fuel with
  | O => Err (backend "search out of fuel")
  | S fuel =>
      match sr_candidates s with
      | [] => Ok (sr_best s)
      | current :: candidates =>
          let stop := match last (sr_best s) with
                      | Some worst => full ef (sr_best s) && (f64_key worst.1 <? f64_key current.1)%Z
                      | None => false
                      end in
          if stop then Ok (sr_best s)
          else
            let neighbors := default [] (slot c current.2 layer) in
            let? s := for_fold (visit_neighbor c query ef)
                        {| sr_visited := sr_visited s; sr_candidates := candidates; sr_best := sr_best s |} neighbors in
            search_loop fuel c query ef layer s
      end
  end.

(** One entry point: skipped when it was seen or is not stored. *)
Definition enter c (query : list N) (s : Search) id : Result Search StoreError :=
  if bool_decide (id ∈ sr_visited s) then Ok s
  else
    let visited := {[id]} ∪ sr_visited s in
    if is_none (vc_vectors c !! id)
    then Ok {| sr_visited := visited; sr_candidates := sr_candidates s; sr_best := sr_best s |}
    else
      let? rank := rank_of c query id in
      Ok {| sr_visited := visited; sr_candidates := insert_rank rank (sr_candidates s);
            sr_best := sr_best s ++ [rank] |}.

Definition search_layer c (query : list N) (entry_ids : list string) (ef : N) layer
    : Result (list Rank) StoreError :=
  if (ef =? 0)%N || bool_decide (entry_ids = []) then Ok []
  else
    let? s := for_fold (enter c query) {| sr_visited := ∅; sr_candidates := []; sr_best := [] |} entry_ids in
    if bool_decide (sr_best s = []) then Ok []
    else
      search_loop (S (size (vc_vectors c))) c query ef layer
        {| sr_visited := sr_visited s; sr_candidates := sr_candidates s;
           sr_best := truncate ef (sort_by rank_leb (sr_best s)) |}.

(** ** Repair after a removal *)

Definition enumerate {A} (l : list A) : list (nat * A) := imap pair l.

(** The second loop of a relink: the closest candidates, while there is room. *)
Fixpoint fill (max : nat) (candidates keep : list string) : list string :=
  match candidates with
  | [] => keep
  | candidate :: rest =>
      if max <=? length keep then keep
      else fill max rest (if contains keep candidate then keep else keep ++ [candidate])
  end.

Definition protected c layer (current : list string) (candidate : string) : bool :=
  contains current candidate && is_some_and (slot c candidate layer) (fun slot => length slot <=? 2).

(** [if let Some(slot) = .. && !slot.contains(nid) { slot.push(nid); touched.insert(candidate) }] *)
Definition push_link (nid : string) layer (s : VectorCollection * gset string) (candidate : string)
    : VectorCollection * gset string :=
  let '(c, touched) := s in
  match slot c candidate layer with
  | Some l => if contains l nid then s
              else (with_slot c candidate layer (fun l => l ++ [nid]), {[candidate]} ∪ touched)
  | None => s
  end.

Definition relink (max layer : nat) (present : list string) (s : VectorCollection * gset string) (nid : string)
    : Result (VectorCollection * gset string) StoreError :=
  let '(c, touched) := s in
  let current := default [] (slot c nid layer) in
  let pool := btree_set_iter (list_to_set (current ++ List.filter (fun o => o != nid) present)) in
  let? origin := stored c nid in
  let? ranks := ranked c origin pool in
  let ids := map snd ranks in
  let keep := fill max ids (List.filter (protected c layer current) ids) in
  let dropped := List.filter (fun other => negb (contains keep other)) current in
  let c := foldl (fun c other => with_slot c other layer (retain_not nid)) c dropped in
  let '(c, touched) := foldl (push_link nid layer) (c, touched) keep in
  Ok (with_slot c nid layer (fun _ => keep), {[nid]} ∪ touched).

(** [make_room]: [None] when it cannot, else whom it evicted. *)
Definition make_room c (x keep : string) layer (touched : gset string)
    : Result (option (option string) * VectorCollection * gset string) StoreError :=
  match slot c x layer with
  | None => Ok (None, c, touched)
  | Some current =>
      if length current <? N.to_nat (max_links (vc_m c) layer) then Ok (Some None, c, touched)
      else
        let? origin := stored c x in
        let? ranks := map_result (rank_of c origin) current in
        let farthest := map snd (sort_by (fun left right => rank_leb right left) ranks) in
        match List.find (fun nid => (nid != keep)
                   && is_some_and (slot c nid layer) (fun slot => 2 <? length slot)) farthest with
        | None => Ok (None, c, touched)
        | Some victim =>
            let evict (s : VectorCollection * gset string) (p : string * string) :=
              let '(c, touched) := s in
              if is_some (slot c p.1 layer)
              then (with_slot c p.1 layer (retain_not p.2), {[p.1]} ∪ touched) else s in
            let '(c, touched) := foldl evict (c, touched) [(x, victim); (victim, x)] in
            Ok (Some (Some victim), c, touched)
        end
  end.

Definition linked c layer (x y : string) : bool :=
  is_some_and (slot c x layer) (fun slot => contains slot y).

Definition ensure_edge layer (s : VectorCollection * gset string) (a b : string)
    : Result (VectorCollection * gset string) StoreError :=
  let '(c, touched) := s in
  if a == b then Ok s
  else if linked c layer a b then Ok s
  else
    let? (evicted_for_a, c, touched) := make_room c a b layer touched in
    match evicted_for_a with
    | None => Ok (c, touched)
    | Some evicted_for_a =>
        let? (room_for_b, c, touched) := make_room c b a layer touched in
        match room_for_b with
        | None =>
            match evicted_for_a with
            | None => Ok (c, touched)
            | Some victim =>
                Ok (foldl (fun c p => with_slot c p.1 layer (fun l => l ++ [p.2])) c [(a, victim); (victim, a)],
                    touched)
            end
        | Some _ =>
            let add (s : VectorCollection * gset string) (p : string * string) :=
              let '(c, touched) := s in
              if is_some (slot c p.1 layer)
              then (with_slot c p.1 layer (fun l => l ++ [p.2]), {[p.1]} ∪ touched) else s in
            Ok (foldl add (c, touched) [(a, b); (b, a)])
        end
    end.

(** [chain.windows(2)] *)
Fixpoint windows2 {A} (l : list A) : list (A * A) :=
  match l with a :: ((b :: _) as l') => (a, b) :: windows2 l' | _ => [] end.

Definition on_layer c layer (nid : string) : bool :=
  is_some_and (vc_vectors c !! nid) (fun rec => layer <? length (vr_neighbors rec)).

Definition repair_layer c (orphans : list string) layer : Result VectorCollection StoreError :=
  let max := N.to_nat (max_links (vc_m c) layer) in
  let present := List.filter (on_layer c layer) orphans in
  let? (c, touched) := for_fold (relink max layer present) (c, ∅) present in
  let? c := for_fold (fun c nid => prune c nid layer) c (btree_set_iter touched) in
  let c := foldl (fun c nid => ensure_reciprocal c nid layer) c (btree_set_iter touched) in
  let chain := sort_by str_leb present in
  let? (c, touched) := for_fold (fun s p => ensure_edge layer s p.1 p.2) (c, touched) (windows2 chain) in
  for_fold (fun c nid => sort_layer c nid layer) c (btree_set_iter touched).

Definition recompute_entry c : VectorCollection := with_entry c (canonical_entry (vc_vectors c)).

(** Take [id] out of the lists of its neighbors. *)
Definition unlink c id (neighbors : list (list string)) : VectorCollection :=
  foldl (fun c '(layer, nids) => foldl (fun c nid => with_slot c nid layer (retain_not id)) c nids)
    c (enumerate neighbors).

Definition remove_node c id : Result VectorCollection StoreError :=
  match vc_vectors c !! id with
  | None => Ok c
  | Some record =>
      let neighbors := vr_neighbors record in
      let c := unlink c id neighbors in
      let c := with_records c (delete id (vc_vectors c)) in
      let? c := for_fold (fun c '(layer, nids) => repair_layer c nids layer) c (enumerate neighbors) in
      Ok (if vc_entry c == Some id then recompute_entry c else c)
  end.

(** ** Insertion and removal *)

Definition admit_entry c id (level : N) : VectorCollection :=
  match entry ← vc_entry c; record ← vc_vectors c !! entry; Some (entry, vr_level record) with
  | Some (entry, entry_level) =>
      if (entry_level <? level)%N || ((level =? entry_level)%N && String.ltb id entry)
      then with_entry c (Some id) else c
  | None => recompute_entry c
  end.

Definition link_layer id (query : list N) (s : VectorCollection * list string) layer
    : Result (VectorCollection * list string) StoreError :=
  let '(c, eps) := s in
  let? found := search_layer c query eps (vc_ef_construction c) layer in
  let others := List.filter (fun nid => nid != id) (map snd found) in
  let selected := take (N.to_nat (max_links (vc_m c) layer)) others in
  let c := with_slot c id layer (fun _ => selected) in
  let c := foldl (fun c nid =>
             match slot c nid layer with
             | Some l => if contains l id then c else with_slot c nid layer (fun l => l ++ [id])
             | None => c
             end) c selected in
  let? c := for_fold (fun c nid => prune c nid layer) c selected in
  let c := ensure_reciprocal c id layer in
  let? c := sort_layer c id layer in
  Ok (c, if bool_decide (others = []) then eps else others).

(** The descent to [bottom + 1] with the closest vector of each layer. *)
Definition descend c (query : list N) (eps : list string) (bottom top : nat) : Result (list string) StoreError :=
  for_fold (fun eps layer =>
    let? found := search_layer c query eps 1 layer in
    Ok (match found with rank :: _ => [rank.2] | [] => eps end))
    eps (rev (seq (S bottom) (top - bottom))).

Definition new_record (b : bytes) (metadata : option Value) (level : N) : VectorRecord :=
  {| vr_bytes := b; vr_metadata := metadata; vr_level := level;
     vr_neighbors := replicate (N.to_nat level + 1) [] |}.

Definition live_entry c : option string :=
  entry ← vc_entry c; if is_some (vc_vectors c !! entry) then Some entry else None.

Definition vc_upsert c id (b : bytes) (metadata : option Value) : Result VectorCollection StoreError :=
  let? _ := check_vector_id id in
  let? _ := check_stored (vc_storage c) (vc_dim c) b in
  let? c := (if is_some (vc_vectors c !! id) then remove_node c id else Ok c) in
  let level := vector_level id (vc_m c) in
  let? query := dequantize (vc_storage c) b in
  if bool_decide (vc_vectors c = ∅)
  then Ok (with_entry (with_records c (<[id := new_record b metadata level]> (vc_vectors c))) (Some id))
  else
    let? entry_id := ok_or (live_entry c) (backend "vector collection is missing an entry point") in
    let entry_level := default 0%N (vr_level <$> vc_vectors c !! entry_id) in
    let? eps := descend c query [entry_id] (N.to_nat level) (N.to_nat entry_level) in
    let c := with_records c (<[id := new_record b metadata level]> (vc_vectors c)) in
    let top := N.to_nat (N.min level entry_level) in
    let? (c, _) := for_fold (link_layer id query) (c, eps) (rev (seq 0 (S top))) in
    Ok (admit_entry c id level).

Definition vc_delete_id c id : Result VectorCollection StoreError :=
  let? _ := check_vector_id id in
  if is_some (vc_vectors c !! id) then remove_node c id else Ok c.

(** ** Queries *)

Definition prepare_query c (values : list N) : Result (list N) StoreError :=
  if negb (len values =? vc_dim c)%N || (u32_max <? len values)%N
  then Err (backend ("vector values have length " +:+ pretty (len values) +:+ ", expected " +:+ pretty (vc_dim c)))
  else let? b := quantize (vc_storage c) values in dequantize (vc_storage c) b.

(** The order of the hits: a higher score, then a lower id. *)
Definition hit_leb (a b : string * f64) : bool :=
  (f64_key b.2 <? f64_key a.2)%Z || ((f64_key a.2 =? f64_key b.2)%Z && str_leb a.1 b.1).

Definition score_of c (query : list N) (rank : Rank) : Result (string * f64) StoreError :=
  let? values := stored c rank.2 in
  let score := similarity (vc_metric c) query values in
  if f64_is_finite score then Ok (rank.2, score) else Err (backend "vector score is not finite").

Definition vector_search c (values : list N) (limit : N) (ef : option N) : Result (list (string * f64)) StoreError :=
  let? query := prepare_query c values in
  if (limit =? 0)%N || (ef == Some 0%N) then Ok []
  else if bool_decide (vc_vectors c = ∅) then Ok []
  else
    let? entry := ok_or (live_entry c) (backend "vector collection is missing an entry point") in
    let entry_level := default 0%N (vr_level <$> vc_vectors c !! entry) in
    let? eps := descend c query [entry] 0 (N.to_nat entry_level) in
    let width := N.max (default (vc_ef_search c) ef) limit in
    let? found := search_layer c query eps width 0 in
    let? scored := map_result (score_of c query) (take (N.to_nat limit) found) in
    Ok (sort_by hit_leb scored).

(** ** The full check of a snapshot *)

(** The order of one list: each rank below the next. *)
Fixpoint check_list_order c id layer (origin : list N) (previous : option Rank) (nids : list string)
    : Result unit StoreError :=
  match nids with
  | [] => Ok tt
  | other :: rest =>
      let? rank := as_corrupt (rank_of c origin other) in
      match previous with
      | Some prev =>
          if rank_ltb prev rank then check_list_order c id layer origin (Some rank) rest
          else Err (corrupt ("vector `" +:+ id +:+ "` neighbors on layer " +:+ pretty (N.of_nat layer)
                 +:+ " are not ordered by distance: the collection's neighbor order is not canonical and must be rebuilt (re-sort needed)"))
      | None => check_list_order c id layer origin (Some rank) rest
      end
  end.

(** [check_order]: first every vector is read, then the lists. *)
Definition check_order c : Result unit StoreError :=
  let vectors := btree_iter (vc_vectors c) in
  let? _ := for_each (fun x => as_corrupt (let? _ := stored c x.1 in Ok tt)) vectors in
  for_each (fun x =>
    let? origin := as_corrupt (stored c x.1) in
    for_each (fun '(layer, nids) => check_list_order c x.1 layer origin None nids)
      (enumerate (vr_neighbors x.2))) vectors.

Definition validate_graph_full (name : string) c : Result unit StoreError :=
  let? _ := validate_graph name c in
  if bool_decide (vc_vectors c = ∅) then Ok tt else check_order c.
End Index.
