(* ===== verification/FlsGraph.v ===== *)
(** * The graph of a vector collection stays one ([vector.rs])

    What [checked_graph] and [check_order] ask of a collection, as an invariant;
    that the two checks decide it; and that [vc_upsert] and [vc_delete_id] on a
    collection that has it succeed and keep it.

    Every change of [FlsVector] to the lists of one layer is, seen from outside,
    one move: a vector [x] takes a new list, the vectors that join the list get
    [x] at the end of theirs, and those that leave it lose [x]. [relist] is the
    invariant under that move; the operations are shown to be such moves. *)

From Stdlib Require Import SpecFloat.
From S2P Require Import Prelude RustStr Ledger FlsBytes FlsFloat FlsModel FlsVector.

(** ** Ranks are ordered *)

Lemma rank_leb_total a b : rank_leb a b = true ∨ rank_leb b a = true.
Proof.
  unfold rank_leb. destruct (Z.ltb_spec (f64_key a.1) (f64_key b.1)); [by left|].
  destruct (Z.ltb_spec (f64_key b.1) (f64_key a.1)); [by right|].
  destruct (Z.eqb_spec (f64_key a.1) (f64_key b.1)); [|lia]. destruct (Z.eqb_spec (f64_key b.1) (f64_key a.1)); [|lia].
  cbn. apply str_leb_total.
Qed.

Lemma rank_leb_spec a b : rank_leb a b = true ↔
  (f64_key a.1 < f64_key b.1)%Z ∨ f64_key a.1 = f64_key b.1 ∧ str_leb a.2 b.2 = true.
Proof.
  unfold rank_leb. destruct (Z.ltb_spec (f64_key a.1) (f64_key b.1)), (Z.eqb_spec (f64_key a.1) (f64_key b.1)); cbn; naive_solver lia.
Qed.

Lemma rank_leb_trans a b c : rank_leb a b = true → rank_leb b c = true → rank_leb a c = true.
Proof. rewrite !rank_leb_spec. pose proof (str_leb_trans a.2 b.2 c.2). intuition lia. Qed.

Lemma rank_leb_antisym a b : rank_leb a b = true → rank_leb b a = true → a.2 = b.2.
Proof. rewrite !rank_leb_spec. pose proof (str_leb_antisym a.2 b.2). intuition lia. Qed.

Lemma rank_ltb_spec a b : a.2 ≠ b.2 → rank_ltb a b = rank_leb a b.
Proof.
  intros Hne. unfold rank_ltb. destruct (rank_leb b a) eqn:E1, (rank_leb a b) eqn:E2; cbn; try done.
  - exfalso. by apply Hne, rank_leb_antisym.
  - destruct (rank_leb_total a b); congruence.
Qed.

Lemma rank_ltb_irrefl a : rank_ltb a a = false.
Proof. unfold rank_ltb. destruct (rank_leb_total a a) as [->| ->]; done. Qed.

(** ** Lists without an element *)

Lemma retain_elem x y l : y ∈ retain_not x l ↔ y ∈ l ∧ y ≠ x.
Proof. unfold retain_not. rewrite filter_elem, negb_true_iff, bool_decide_eq_false. done. Qed.

Lemma retain_absent x l : x ∉ l → retain_not x l = l.
Proof.
  intros Hx. unfold retain_not. induction l as [|y l IH]; cbn; [done|].
  rewrite bool_decide_false by set_solver. cbn. rewrite IH by set_solver. done.
Qed.

Lemma retain_NoDup x l : NoDup l → NoDup (retain_not x l).
Proof. apply NoDup_filter_bool. Qed.

Lemma retain_length x l : NoDup l → x ∈ l → S (length (retain_not x l)) = length l.
Proof.
  induction 1 as [|y l Hy Hnd IH]; [by intros ?%not_elem_of_nil|]. intros Hx. unfold retain_not in *. cbn.
  destruct (decide (y = x)) as [->|Hne].
  - rewrite bool_decide_true by done. cbn. f_equal. f_equal. by apply (retain_absent x l).
  - rewrite bool_decide_false by done. cbn. rewrite IH; [done|set_solver].
Qed.

Lemma retain_length_le x l : length (retain_not x l) ≤ length l.
Proof. unfold retain_not. induction l as [|y l IH]; cbn; [done|]. destruct (negb _); cbn; lia. Qed.

Lemma filter_sublist {A} (p : A → bool) l : List.filter p l `sublist_of` l.
Proof. induction l as [|x l IH]; cbn; [done|]. destruct (p x); by constructor. Qed.

Lemma sorted_sublist {A} (R : A → A → Prop) l k : l `sublist_of` k → StronglySorted R k → StronglySorted R l.
Proof.
  induction 1 as [|x l k Hs IH|x l k Hs IH]; intros Hk; [done| |].
  - apply StronglySorted_cons in Hk as [Hx Hk]. apply StronglySorted_cons. split; [|auto].
    rewrite Forall_forall in Hx |- *. intros y Hy. apply Hx. by eapply elem_of_sublist.
  - apply StronglySorted_cons in Hk as [_ Hk]. auto.
Qed.

Section Slots.
Context `{Engine}.
Implicit Types (c : VectorCollection) (x y z id : string) (layer : nat).

(** ** Collections that differ in their lists only *)

Definition record_frame (r r' : VectorRecord) : Prop :=
  vr_bytes r' = vr_bytes r ∧ vr_metadata r' = vr_metadata r ∧ vr_level r' = vr_level r
  ∧ length (vr_neighbors r') = length (vr_neighbors r).

Record frame c c' : Prop := {
  fr_dim : vc_dim c' = vc_dim c;
  fr_storage : vc_storage c' = vc_storage c;
  fr_metric : vc_metric c' = vc_metric c;
  fr_m : vc_m c' = vc_m c;
  fr_efc : vc_ef_construction c' = vc_ef_construction c;
  fr_efs : vc_ef_search c' = vc_ef_search c;
  fr_entry : vc_entry c' = vc_entry c;
  fr_records : map_Forall2 (fun _ => record_frame) (vc_vectors c) (vc_vectors c');
}.

(** And in those of one layer only. *)
Record near layer c c' : Prop := {
  nr_frame : frame c c';
  nr_slots : ∀ y k, k ≠ layer → slot c' y k = slot c y k;
}.

#[global] Instance record_frame_pre : PreOrder record_frame.
Proof. split; [done|]. intros r1 r2 r3 (?&?&?&?) (?&?&?&?). repeat split; congruence. Qed.

#[global] Instance frame_pre : PreOrder frame.
Proof.
  split.
  - intros c. split; try done. intros i. destruct (vc_vectors c !! i); by constructor.
  - intros c1 c2 c3 [] []. split; try congruence. intros i.
    pose proof (fr_records0 i) as Hi. pose proof (fr_records1 i) as Hj.
    destruct Hi; inversion Hj; constructor; by etransitivity.
Qed.

#[global] Instance near_pre layer : PreOrder (near layer).
Proof.
  split; [by split|]. intros c1 c2 c3 [F1 S1] [F2 S2]. split; [by etransitivity|].
  intros y k Hk. by rewrite S2, S1.
Qed.

Lemma slot_with_slot c x l f y k :
  slot (with_slot c x l f) y k = if decide (x = y ∧ l = k) then f <$> slot c y k else slot c y k.
Proof.
  unfold slot, with_slot. cbn [with_records vc_vectors]. rewrite lookup_alter.
  destruct (decide (x = y)) as [->|Hne]; [|by rewrite decide_False by tauto].
  destruct (vc_vectors c !! y) as [r|]; cbn; [|by case_decide]. 
  destruct (decide (l = k)) as [->|Hl]; [rewrite decide_True by done|rewrite decide_False by tauto].
  - by rewrite list_lookup_alter_eq.
  - by rewrite list_lookup_alter_ne.
Qed.

Lemma slot_with_slot_same c x l f : slot (with_slot c x l f) x l = f <$> slot c x l.
Proof. rewrite slot_with_slot. by rewrite decide_True. Qed.

Lemma slot_with_slot_ne c x l f y : x ≠ y → slot (with_slot c x l f) y l = slot c y l.
Proof. intros. rewrite slot_with_slot. rewrite decide_False by tauto. done. Qed.

Lemma with_slot_near c x layer f : near layer c (with_slot c x layer f).
Proof.
  split; [|intros y k Hk; rewrite slot_with_slot, decide_False by naive_solver; done].
  split; try done. intros i. cbn [with_slot with_records vc_vectors]. rewrite lookup_alter.
  destruct (decide (x = i)) as [->|]; destruct (vc_vectors c !! i) as [r|]; cbn; constructor; try done.
  repeat split; cbn. apply length_alter.
Qed.

Lemma foldl_near {A} layer (f : VectorCollection → A → VectorCollection) l :
  (∀ c a, near layer c (f c a)) → ∀ c, near layer c (foldl f c l).
Proof. intros Hf. induction l as [|a l IH]; intros c; cbn; [done|]. etransitivity; [apply Hf|apply IH]. Qed.

Lemma frame_lookup c c' id : frame c c' → is_Some (vc_vectors c' !! id) ↔ is_Some (vc_vectors c !! id).
Proof. intros F. pose proof (fr_records _ _ F id) as Hi. inversion Hi; split; intros [? ?]; (done || by eexists). Qed.

Lemma frame_slot c c' id k : frame c c' → is_Some (slot c' id k) ↔ is_Some (slot c id k).
Proof.
  intros F. unfold slot. pose proof (fr_records _ _ F id) as Hi. inversion Hi as [r r' (_&_&_&Hl) Ei Ei'|]; cbn; [|done].
  rewrite !lookup_lt_is_Some. by rewrite Hl.
Qed.

Lemma frame_stored c c' id : frame c c' → stored c' id = stored c id.
Proof.
  intros F. unfold stored. rewrite (fr_storage _ _ F). pose proof (fr_records _ _ F id) as Hi.
  inversion Hi as [r r' (Hb&_) Ei Ei'|]; [|done]. by rewrite Hb.
Qed.

Lemma frame_rank_of c c' query id : frame c c' → rank_of c' query id = rank_of c query id.
Proof. intros F. unfold rank_of, distance_to. by rewrite (frame_stored _ _ _ F), (fr_metric _ _ F). Qed.
End Slots.

(** ** The invariant of one layer *)

Section Tidy.
Context `{Engine}.
Implicit Types (c : VectorCollection) (x y z id : string) (layer : nat) (B S : string → Prop).

(** Every stored vector decodes. *)
Definition readable c : Prop := ∀ x, is_Some (vc_vectors c !! x) → ∃ values, stored c x = Ok values.

(** The rank of [y] seen from [x]. *)
Definition key_of c x y : Rank :=
  (match stored c x with
   | Ok origin => match distance_to c origin y with Ok d => d | Err _ => S754_nan end
   | Err _ => S754_nan
   end, y).

Definition closer c x y z : bool := rank_leb (key_of c x y) (key_of c x z).

Definition ordered c x (l : list string) : Prop := StronglySorted (closer c x) l.

Definition max_of c layer : nat := N.to_nat (max_links (vc_m c) layer).

(** A list of the graph; [B] are exempt from the bound, [S] from the order. *)
Record list_ok B S layer c x (l : list string) : Prop := {
  lk_nodup : NoDup l;
  lk_self : x ∉ l;
  lk_mutual : ∀ y, y ∈ l → ∃ ly, slot c y layer = Some ly ∧ x ∈ ly;
  lk_bound : B x ∨ length l ≤ max_of c layer;
  lk_order : S x ∨ ordered c x l;
}.

Definition tidy B S layer c : Prop := ∀ x l, slot c x layer = Some l → list_ok B S layer c x l.

Lemma frame_key c c' x y : frame c c' → key_of c' x y = key_of c x y.
Proof.
  intros F. unfold key_of, distance_to. by rewrite !(frame_stored _ _ _ F), (fr_metric _ _ F).
Qed.

Lemma frame_ordered c c' x l : frame c c' → ordered c' x l ↔ ordered c x l.
Proof.
  intros F. assert (∀ y z, closer c' x y z = closer c x y z) as Hc.
  { intros. unfold closer. by rewrite !(frame_key _ _ _ _ F). }
  unfold ordered. split; induction 1 as [|y l Hl IH Hy]; constructor; try done;
    (eapply Forall_impl; [exact Hy|]; intros z; cbn; by rewrite Hc).
Qed.

Lemma frame_readable c c' : frame c c' → readable c → readable c'.
Proof. intros F Hr x Hx. rewrite (frame_stored _ _ _ F). by apply Hr, (frame_lookup _ _ _ F). Qed.

Lemma frame_max c c' layer : frame c c' → max_of c' layer = max_of c layer.
Proof. intros F. unfold max_of. by rewrite (fr_m _ _ F). Qed.

Lemma slot_live c x layer : is_Some (slot c x layer) → is_Some (vc_vectors c !! x).
Proof. unfold slot. destruct (vc_vectors c !! x); cbn; [done|by intros [? ?]]. Qed.

Lemma closer_total c x y z : closer c x y z = true ∨ closer c x z y = true.
Proof. apply rank_leb_total. Qed.

Lemma closer_trans c x y z w : closer c x y z = true → closer c x z w = true → closer c x y w = true.
Proof. apply rank_leb_trans. Qed.

Lemma sort_ordered c x l : ordered c x (sort_by (closer c x) l).
Proof. apply sort_by_sorted; [apply closer_total|apply closer_trans]. Qed.

Lemma tidy_weaken B S B' S' layer c : tidy B S layer c → (∀ x, B x → B' x) → (∀ x, S x → S' x) → tidy B' S' layer c.
Proof. intros Ht HB HS x l Hl. destruct (Ht x l Hl). split; intuition. Qed.

(** ** One move *)

(** What the move does to the list of another vector [y]. *)
Definition adjust x (l' : list string) y (ly : list string) : list string :=
  if contains l' y then (if contains ly x then ly else ly ++ [x]) else retain_not x ly.

Record move layer x (l' : list string) c c' : Prop := {
  mv_near : near layer c c';
  mv_own : slot c' x layer = Some l';
  mv_other : ∀ y, y ≠ x → slot c' y layer = adjust x l' y <$> slot c y layer;
}.

Lemma adjust_elem x l' y ly z : z ≠ x → z ∈ adjust x l' y ly ↔ z ∈ ly.
Proof.
  intros Hz. unfold adjust. destruct (contains l' y); [|rewrite retain_elem; tauto].
  destruct (contains ly x); [done|]. rewrite elem_of_app, list_elem_of_singleton. tauto.
Qed.

Lemma adjust_self x l' y ly : x ∈ adjust x l' y ly ↔ y ∈ l'.
Proof.
  unfold adjust. destruct (contains l' y) eqn:E.
  - apply contains_spec in E. destruct (contains ly x) eqn:E2; [apply contains_spec in E2; tauto|].
    rewrite elem_of_app, list_elem_of_singleton. tauto.
  - apply contains_false in E. rewrite retain_elem. tauto.
Qed.

Lemma adjust_NoDup x l' y ly : NoDup ly → NoDup (adjust x l' y ly).
Proof.
  intros Hn. unfold adjust. destruct (contains l' y); [|by apply retain_NoDup].
  destruct (contains ly x) eqn:E; [done|]. apply contains_false in E. apply NoDup_app.
  split; [done|]. split; [|apply NoDup_singleton]. intros z Hz ->%list_elem_of_singleton. done.
Qed.

Lemma relist B S B' S' layer c c' x l l' :
  tidy B S layer c → slot c x layer = Some l → move layer x l' c c' →
  NoDup l' → x ∉ l' → (∀ y, y ∈ l' → is_Some (slot c y layer)) →
  (B' x ∨ length l' ≤ max_of c layer) → (S' x ∨ ordered c x l') →
  (∀ y, y ≠ x → B y → B' y) → (∀ y, y ≠ x → S y → S' y) →
  (∀ y ly, y ∈ l' → slot c y layer = Some ly → x ∉ ly → S' y ∧ (B' y ∨ length ly < max_of c layer)) →
  tidy B' S' layer c'.
Proof.
  intros Ht Hx [Hn Hown Hother] Hnd Hself Hlive Hbx Hsx HB HS Hnew y k Hk.
  pose proof (nr_frame _ _ _ Hn) as F.
  destruct (decide (y = x)) as [->|Hne].
  - rewrite Hown in Hk. injection Hk as <-. split; try done.
    + intros y Hy. assert (y ≠ x) as Hyx by (intros ->; done). destruct (Hlive y Hy) as [ly Hly].
      exists (adjust x l' y ly). rewrite (Hother y Hyx), Hly. split; [done|]. by apply adjust_self.
    + by rewrite (frame_max _ _ _ F).
    + by rewrite (frame_ordered _ _ _ _ F).
  - rewrite (Hother y Hne) in Hk. destruct (slot c y layer) as [ly|] eqn:Ely; [|done]. injection Hk as <-.
    destruct (Ht y ly Ely) as [Hnd' Hself' Hmut Hb Hs]. split.
    + by apply adjust_NoDup.
    + by rewrite adjust_elem.
    + intros z Hz. destruct (decide (z = x)) as [->|Hzx].
      * apply adjust_self in Hz. by exists l'.
      * rewrite adjust_elem in Hz by done. destruct (Hmut z Hz) as (lz&Hlz&Hyz).
        exists (adjust x l' z lz). rewrite (Hother z Hzx), Hlz. split; [done|]. by apply adjust_elem.
    + rewrite (frame_max _ _ _ F). unfold adjust. destruct (contains l' y) eqn:E1.
      * apply contains_spec in E1. destruct (contains ly x) eqn:E2; [naive_solver|]. apply contains_false in E2.
        destruct (Hnew y ly E1 Ely E2) as [_ [?|?]]; [by left|right]. rewrite length_app. cbn. lia.
      * destruct Hb as [?|?]; [left; auto|right]. pose proof (retain_length_le x ly). lia.
    + rewrite (frame_ordered _ _ _ _ F). unfold adjust. destruct (contains l' y) eqn:E1.
      * apply contains_spec in E1. destruct (contains ly x) eqn:E2; [naive_solver|]. apply contains_false in E2.
        left. by destruct (Hnew y ly E1 Ely E2).
      * destruct Hs as [?|?]; [left; auto|right]. eapply sorted_sublist; [apply filter_sublist|done].
Qed.
End Tidy.

(** ** Ranking, sorting and pruning a list *)

Lemma insert_by_map {A B} (f : A → B) (leb : B → B → bool) x l :
  insert_by leb (f x) (map f l) = map f (insert_by (fun a b => leb (f a) (f b)) x l).
Proof. induction l as [|y l IH]; cbn; [done|]. destruct (leb (f x) (f y)); cbn; [done|]. by rewrite IH. Qed.

Lemma sort_by_map {A B} (f : A → B) (leb : B → B → bool) l :
  sort_by leb (map f l) = map f (sort_by (fun a b => leb (f a) (f b)) l).
Proof. induction l as [|x l IH]; [done|]. unfold sort_by in *. cbn [map foldr]. by rewrite IH, insert_by_map. Qed.

Lemma dedup_ids_NoDup (l : list Rank) : NoDup (map snd l) → dedup_ids l = l.
Proof.
  induction l as [|a [|b l] IH]; cbn; [done..|]. intros [Ha Hn]%NoDup_cons.
  rewrite bool_decide_false by (cbn in Ha; set_solver). f_equal. by apply IH.
Qed.

Section Lists.
Context `{Engine}.
Implicit Types (c : VectorCollection) (x y z id : string) (layer : nat) (B S : string → Prop) (l : list string).

Lemma map_key c x l : map snd (map (key_of c x) l) = l.
Proof. rewrite map_map. apply map_id. Qed.

Lemma rank_of_key c x origin y : readable c → stored c x = Ok origin → is_Some (vc_vectors c !! y) →
  rank_of c origin y = Ok (key_of c x y).
Proof.
  intros Hr Hx Hy. unfold rank_of, key_of, distance_to. rewrite Hx. destruct (Hr y Hy) as [v ->]. done.
Qed.

Lemma ranked_sorted c x origin l : readable c → stored c x = Ok origin →
  (∀ y, y ∈ l → is_Some (vc_vectors c !! y)) →
  ranked c origin l = Ok (map (key_of c x) (sort_by (closer c x) l)).
Proof.
  intros Hr Hx Hl. unfold ranked. rewrite (map_result_ok _ (key_of c x)); [|intros y Hy; by apply rank_of_key; auto].
  cbn [result_bind]. by rewrite sort_by_map.
Qed.

Lemma with_slot_id c x layer f : (∀ l, slot c x layer = Some l → f l = l) → with_slot c x layer f = c.
Proof.
  intros Hf. unfold with_slot, with_records. destruct c as [d s m mm e1 e2 vs en]. cbn. f_equal.
  apply map_eq. intros i. rewrite lookup_alter. case_decide as Hi; [subst i|done].
  unfold slot in Hf. cbn in Hf. destruct (vs !! x) as [r|]; cbn in *; [|done]. f_equal. destruct r as [b md lv ns].
  unfold set_neighbors. cbn in *. f_equal. apply list_eq. intros k. rewrite list_lookup_alter.
  case_decide; [subst k|done]. destruct (ns !! layer) as [l|]; cbn; [|done]. by rewrite (Hf l).
Qed.

Lemma tidy_live B S layer c x l y : tidy B S layer c → slot c x layer = Some l → y ∈ l →
  is_Some (slot c y layer) ∧ is_Some (vc_vectors c !! y).
Proof.
  intros Ht Hx Hy. destruct (lk_mutual _ _ _ _ _ _ (Ht x l Hx) y Hy) as (ly&Hly&_).
  assert (is_Some (slot c y layer)) as Hs by (by exists ly). split; [done|]. by eapply slot_live.
Qed.

(** What a move does not change. *)
Lemma adjust_keep B S layer c x l l' y : tidy B S layer c → slot c x layer = Some l → y ≠ x →
  (y ∈ l' ↔ y ∈ l) → adjust x l' y <$> slot c y layer = slot c y layer.
Proof.
  intros Ht Hx Hne Hiff. destruct (slot c y layer) as [ly|] eqn:Ely; cbn; [|done]. f_equal. unfold adjust.
  destruct (contains l' y) eqn:E.
  - apply contains_spec in E. apply Hiff in E. destruct (lk_mutual _ _ _ _ _ _ (Ht x l Hx) y E) as (k&Hk&Hin).
    rewrite Ely in Hk. injection Hk as <-. by rewrite (proj2 (contains_spec _ _) Hin).
  - apply contains_false in E. apply retain_absent. intros Hin. apply E, Hiff.
    destruct (lk_mutual _ _ _ _ _ _ (Ht y ly Ely) x Hin) as (k&Hk&?). rewrite Hx in Hk. by injection Hk as <-.
Qed.

Definition except (P : string → Prop) x : string → Prop := fun y => P y ∧ y ≠ x.

Lemma sort_layer_ok B S layer c x l : tidy B S layer c → readable c → slot c x layer = Some l →
  ∃ c', sort_layer c x layer = Ok c' ∧ near layer c c' ∧ tidy B (except S x) layer c'
    ∧ slot c' x layer = Some (sort_by (closer c x) l) ∧ (∀ y, y ≠ x → slot c' y layer = slot c y layer).
Proof.
  intros Ht Hr Hx. destruct (Ht x l Hx) as [Hnd Hself Hmut Hb Ho].
  assert (sort_layer c x layer = Ok (with_slot c x layer (fun _ => sort_by (closer c x) l))) as ->.
  { unfold sort_layer. rewrite Hx. cbn [default from_option id]. destruct (Nat.ltb_spec (length l) 2) as [Hlen|Hlen].
    - f_equal. symmetry. apply with_slot_id. rewrite Hx. intros k [= <-]. destruct l as [|a [|b l]]; [done..|cbn in Hlen; lia].
    - destruct (Hr x) as [origin Horg]; [by eapply slot_live; rewrite Hx|]. rewrite Horg. cbn [result_bind].
      rewrite (ranked_sorted c x origin l); [|done..|intros y Hy; by eapply tidy_live]. cbn [result_bind].
      by rewrite map_key. }
  eexists. split; [reflexivity|]. split; [apply with_slot_near|].
  assert (slot (with_slot c x layer (λ _ : list string, sort_by (closer c x) l)) x layer = Some (sort_by (closer c x) l)) as Hown.
  { by rewrite slot_with_slot_same, Hx. }
  assert (∀ y, y ≠ x → slot (with_slot c x layer (λ _ : list string, sort_by (closer c x) l)) y layer = slot c y layer) as Hne.
  { intros y Hy. by rewrite slot_with_slot_ne. }
  split; [|done]. eapply (relist B S _ _ _ _ _ x l (sort_by (closer c x) l)); [exact Ht|exact Hx| | | | | | | | |].
  - split; [apply with_slot_near|done|]. intros y Hy. rewrite Hne by done. symmetry.
    eapply adjust_keep; [exact Ht|exact Hx|done|]. apply sort_by_elem.
  - by rewrite sort_by_perm.
  - by rewrite sort_by_elem.
  - intros y Hy. rewrite sort_by_elem in Hy. by eapply tidy_live.
  - by rewrite sort_by_perm.
  - right. apply sort_ordered.
  - tauto.
  - intros y Hy HS. by split.
  - intros y ly Hy Hly Hnin. exfalso. rewrite sort_by_elem in Hy. destruct (Hmut y Hy) as (k&Hk&Hin). naive_solver.
Qed.

Lemma retain_idem x l : retain_not x (retain_not x l) = retain_not x l.
Proof. apply retain_absent. rewrite retain_elem. tauto. Qed.

(** Taking [x] out of many lists. *)
Lemma foldl_retain_slot x layer ds : ∀ c y,
  slot (foldl (fun c nid => with_slot c nid layer (retain_not x)) c ds) y layer
  = if contains ds y then retain_not x <$> slot c y layer else slot c y layer.
Proof.
  induction ds as [|d ds IH]; intros c y; [done|]. cbn [foldl]. rewrite IH, slot_with_slot.
  unfold contains at 2. cbn [existsb]. fold (contains ds y). destruct (decide (d = y)) as [->|Hne].
  - rewrite decide_True by done. rewrite bool_decide_true by done. cbn [orb].
    destruct (contains ds y), (slot c y layer) as [l|]; cbn; try done. by rewrite retain_idem.
  - rewrite decide_False by tauto. rewrite bool_decide_false by (by intros ->). done.
Qed.

Lemma foldl_retain_near x layer ds c :
  near layer c (foldl (fun c nid => with_slot c nid layer (retain_not x)) c ds).
Proof. apply foldl_near. intros. apply with_slot_near. Qed.

Lemma prune_ok B S layer c x l : tidy B S layer c → readable c → slot c x layer = Some l →
  ∃ c', prune c x layer = Ok c' ∧ near layer c c' ∧ tidy (except B x) (except S x) layer c'.
Proof.
  intros Ht Hr Hx. destruct (Ht x l Hx) as [Hnd Hself Hmut Hb Ho].
  unfold prune. rewrite Hx. cbn [default from_option id]. fold (max_of c layer).
  destruct (Nat.leb_spec (length l) (max_of c layer)) as [Hlen|Hlen].
  - destruct (sort_layer_ok B S layer c x l Ht Hr Hx) as (c'&He&Hn&Ht'&Hown&_). exists c'. split; [done|]. split; [done|].
    intros y k Hk. destruct (Ht' y k Hk) as [? ? ? Hb' ?]. split; try done.
    destruct (decide (y = x)) as [->|]; [|by destruct Hb'; [left|right]].
    right. rewrite Hown in Hk. injection Hk as <-. rewrite sort_by_perm.
    by rewrite (frame_max _ _ _ (nr_frame _ _ _ Hn)).
  - destruct (Hr x) as [origin Horg]; [by eapply slot_live; rewrite Hx|]. rewrite Horg. cbn [result_bind].
    rewrite (ranked_sorted c x origin l); [|done..|intros y Hy; by eapply tidy_live]. cbn [result_bind].
    rewrite dedup_ids_NoDup by (rewrite map_key; by rewrite sort_by_perm). rewrite map_key.
    set (s := sort_by (closer c x) l). assert (NoDup s) as Hs by (by unfold s; rewrite sort_by_perm).
    assert (∀ y, y ∈ s ↔ y ∈ l) as Hsl by (intros; apply sort_by_elem).
    assert (∀ y, y ∈ s ↔ y ∈ take (max_of c layer) s ∨ y ∈ drop (max_of c layer) s) as Hsplit.
    { intros y. rewrite <-elem_of_app, take_drop. done. }
    assert (∀ y, y ∈ take (max_of c layer) s → y ∈ drop (max_of c layer) s → False) as Hdisj.
    { rewrite <-(take_drop (max_of c layer) s) in Hs. apply NoDup_app in Hs as (_&Hd&_). exact Hd. }
    eexists. split; [reflexivity|].
    match goal with |- near _ _ ?c' ∧ _ => assert (near layer c c') as Hn by
      (etransitivity; [apply with_slot_near|apply foldl_retain_near]) end.
    split; [exact Hn|].
    assert (x ∉ drop (max_of c layer) s) as Hxd by (intros ?; apply Hself, Hsl, Hsplit; by right).
    eapply (relist B S _ _ _ _ _ x l (take (max_of c layer) s)); [exact Ht|exact Hx| | | | | | | | |].
    + split; [exact Hn| |].
      * rewrite foldl_retain_slot, (proj2 (contains_false _ _) Hxd), slot_with_slot_same, Hx. done.
      * intros y Hy. rewrite foldl_retain_slot, slot_with_slot_ne by done.
        destruct (contains (drop (max_of c layer) s) y) eqn:E.
        -- apply contains_spec in E. unfold adjust.
           assert (contains (take (max_of c layer) s) y = false) as ->; [|done].
           apply contains_false. intros ?. by eapply Hdisj.
        -- apply contains_false in E. symmetry. eapply adjust_keep; [exact Ht|exact Hx|done|].
           rewrite <-Hsl, Hsplit. tauto.
    + rewrite <-(take_drop (max_of c layer) s) in Hs. by apply NoDup_app in Hs as (?&_).
    + intros ?. apply Hself, Hsl, Hsplit. by left.
    + intros y Hy. eapply tidy_live; [exact Ht|exact Hx|]. apply Hsl, Hsplit. by left.
    + right. rewrite length_take. lia.
    + right. eapply sorted_sublist; [apply sublist_take|]. apply sort_ordered.
    + intros y ? ?. by split.
    + intros y ? ?. by split.
    + intros y ly Hy Hly Hnin. exfalso. assert (y ∈ l) as Hyl by (apply Hsl, Hsplit; by left).
      destruct (Hmut y Hyl) as (k&Hk&Hin). naive_solver.
Qed.

Lemma filter_all {A} (p : A → bool) (l : list A) : (∀ a, a ∈ l → p a = true) → List.filter p l = l.
Proof. induction l as [|a l IH]; intros Hp; cbn; [done|]. rewrite Hp by set_solver. rewrite IH by set_solver. done. Qed.

(** In a tidy layer every link goes back already. *)
Lemma ensure_reciprocal_id B S layer c x : tidy B S layer c → ensure_reciprocal c x layer = c.
Proof.
  intros Ht. unfold ensure_reciprocal. apply with_slot_id. intros l Hl. rewrite Hl. cbn [default from_option id].
  apply filter_all. intros y Hy.
  destruct (lk_mutual _ _ _ _ _ _ (Ht x l Hl) y Hy) as (ly&Hly&Hin). unfold links_back. rewrite Hly. cbn.
  by apply contains_spec.
Qed.
End Lists.

(** ** Relinking the neighbors of a removed vector *)

Lemma btree_set_iter_elem (s : gset string) x : x ∈ btree_set_iter s ↔ x ∈ s.
Proof. unfold btree_set_iter. by rewrite sort_by_elem, elem_of_elements. Qed.

Lemma btree_set_iter_NoDup (s : gset string) : NoDup (btree_set_iter s).
Proof. unfold btree_set_iter. rewrite sort_by_perm. apply NoDup_elements. Qed.

Lemma fill_spec max cands : ∀ keep, NoDup keep →
  NoDup (fill max cands keep) ∧ (∀ y, y ∈ fill max cands keep → y ∈ keep ∨ y ∈ cands).
Proof.
  induction cands as [|a cands IH]; intros keep Hk; cbn [fill]; [by split; [|left]|].
  destruct (max <=? length keep); [by split; [|left]|]. destruct (contains keep a) eqn:E.
  - destruct (IH keep Hk) as [H1 H2]. split; [done|]. intros y Hy. destruct (H2 y Hy); set_solver.
  - apply contains_false in E. assert (NoDup (keep ++ [a])) as Hka.
    { apply NoDup_app. split; [done|]. split; [|apply NoDup_singleton]. intros z Hz ->%list_elem_of_singleton. done. }
    destruct (IH _ Hka) as [H1 H2]. split; [done|]. intros y Hy. destruct (H2 y Hy); set_solver.
Qed.

Section Relink.
Context `{Engine}.
Implicit Types (c : VectorCollection) (x y z : string) (layer : nat) (l : list string) (T : gset string).

Definition joined x (ly : list string) : list string := if contains ly x then ly else ly ++ [x].

Lemma joined_elem x ly : x ∈ joined x ly.
Proof. unfold joined. destruct (contains ly x) eqn:E; [by apply contains_spec|]. set_solver. Qed.

Lemma joined_idem x ly : joined x (joined x ly) = joined x ly.
Proof. unfold joined at 1. by rewrite (proj2 (contains_spec _ _) (joined_elem x ly)). Qed.

Lemma foldl_push x layer keep : ∀ c T c' T', foldl (push_link x layer) (c, T) keep = (c', T') →
  near layer c c'
  ∧ (∀ y, slot c' y layer = if contains keep y then joined x <$> slot c y layer else slot c y layer)
  ∧ T ⊆ T'
  ∧ (∀ y ly, y ∈ keep → slot c y layer = Some ly → x ∉ ly → y ∈ T')
  ∧ (∀ y, y ∈ T' → y ∈ T ∨ is_Some (slot c y layer)).
Proof.
  induction keep as [|d keep IH]; intros c T c' T'; cbn [foldl].
  { intros [= <- <-]. split_and!; try done. - set_solver. - by left. }
  assert (∃ c1 T1, push_link x layer (c, T) d = (c1, T1) ∧ near layer c c1
    ∧ (∀ y, slot c1 y layer = if decide (d = y) then joined x <$> slot c y layer else slot c y layer)
    ∧ T ⊆ T1 ∧ (∀ ly, slot c d layer = Some ly → x ∉ ly → d ∈ T1)
    ∧ (∀ y, y ∈ T1 → y ∈ T ∨ is_Some (slot c y layer))) as (c1&T1&->&Hn1&Hs1&HT1&Hin1&Hout1).
  { unfold push_link. destruct (slot c d layer) as [ld|] eqn:Ed.
    - destruct (contains ld x) eqn:Ec.
      + exists c, T. split_and!; try done.
        * intros y. case_decide as Hdy; [subst y|done]. rewrite Ed. cbn. unfold joined. by rewrite Ec.
        * intros ly [= <-] Hnin. by apply contains_spec in Ec.
        * by left.
      + eexists _, _. split; [reflexivity|]. split; [apply with_slot_near|]. split_and!.
        * intros y. rewrite slot_with_slot. case_decide as Hdy.
          -- destruct Hdy as [<- _]. rewrite decide_True by done. rewrite Ed. cbn. unfold joined. by rewrite Ec.
          -- rewrite decide_False by tauto. done.
        * set_solver.
        * set_solver.
        * intros y [->%elem_of_singleton|?]%elem_of_union; [right; by exists ld|by left].
    - exists c, T. split_and!; try done.
      + intros y. case_decide as Hdy; [subst y|done]. by rewrite Ed.
      + by left. }
  intros He. destruct (IH _ _ _ _ He) as (Hn&Hs&HT&Hin&Hout). split_and!.
  - by etransitivity.
  - intros y. rewrite Hs, !Hs1. unfold contains at 2. cbn [existsb]. fold (contains keep y).
    destruct (decide (d = y)) as [->|Hne].
    + rewrite bool_decide_true by done. cbn [orb]. destruct (contains keep y), (slot c y layer); cbn; try done.
      by rewrite joined_idem.
    + rewrite bool_decide_false by (by intros ->). done.
  - set_solver.
  - intros y ly Hy Hly Hnin. destruct (decide (d = y)) as [->|Hne]; [set_solver|].
    apply (Hin y ly); [set_solver| |done]. rewrite Hs1, decide_False by done. done.
  - intros y Hy. destruct (Hout y Hy) as [Hy1|Hy1]; [by apply Hout1|right].
    rewrite Hs1 in Hy1. case_decide; [|done]. destruct (slot c y layer); [done|]. by destruct Hy1.
Qed.

Lemma relink_ok c T layer present x : tidy (.∈ T) (.∈ T) layer c → readable c →
  (∀ y, y ∈ present → is_Some (slot c y layer)) → x ∈ present →
  ∃ c' T', relink (max_of c layer) layer present (c, T) x = Ok (c', T') ∧ near layer c c'
    ∧ tidy (.∈ T') (.∈ T') layer c' ∧ (∀ y, y ∈ T' → y ∈ T ∨ is_Some (slot c y layer)).
Proof.
  intros Ht Hr Hp Hx. destruct (Hp x Hx) as [l Hl]. destruct (Ht x l Hl) as [Hnd Hself Hmut Hb Ho].
  unfold relink. rewrite Hl. cbn [default from_option id].
  set (pool := btree_set_iter _). assert (∀ y, y ∈ pool ↔ y ∈ l ∨ y ∈ present ∧ y ≠ x) as Hpool.
  { intros y. unfold pool. rewrite btree_set_iter_elem, elem_of_list_to_set, elem_of_app, filter_elem.
    rewrite negb_true_iff, bool_decide_eq_false. done. }
  assert (∀ y, y ∈ pool → is_Some (slot c y layer)) as Hslots.
  { intros y [Hy|[Hy _]]%Hpool; [|by apply Hp]. by eapply tidy_live. }
  destruct (Hr x) as [origin Horg]; [by eapply slot_live; rewrite Hl|]. rewrite Horg. cbn [result_bind].
  rewrite (ranked_sorted c x origin pool); [|done..|intros y Hy; eapply slot_live; by apply Hslots].
  cbn [result_bind]. rewrite map_key. set (ids := sort_by (closer c x) pool).
  set (keep0 := List.filter _ ids). assert (NoDup ids) as Hids.
  { unfold ids. rewrite sort_by_perm. apply btree_set_iter_NoDup. }
  destruct (fill_spec (max_of c layer) ids keep0) as [Hkn Hke]; [by apply NoDup_filter_bool|].
  set (keep := fill (max_of c layer) ids keep0) in *.
  assert (∀ y, y ∈ keep → y ∈ pool) as Hkp.
  { intros y [Hy|Hy]%Hke; [apply filter_elem in Hy as [Hy _]|]; by apply sort_by_elem in Hy. }
  assert (x ∉ keep) as Hxk by (intros [?|[_ ?]]%Hkp%Hpool; done).
  set (dropped := List.filter _ l). assert (∀ y, y ∈ dropped ↔ y ∈ l ∧ y ∉ keep) as Hdrop.
  { intros y. unfold dropped. rewrite filter_elem, negb_true_iff. by rewrite contains_false. }
  set (c1 := foldl _ c dropped).
  destruct (foldl (push_link x layer) (c1, T) keep) as [c2 T2] eqn:Ef.
  destruct (foldl_push _ _ _ _ _ _ _ Ef) as (Hn&Hs&HT&Hin&Hout).
  assert (near layer c c1) as Hn1 by apply foldl_retain_near.
  assert (near layer c (with_slot c2 x layer (λ _, keep))) as Hn2.
  { etransitivity; [exact Hn1|]. etransitivity; [exact Hn|]. apply with_slot_near. }
  assert (∀ y, slot c1 y layer = if contains dropped y then retain_not x <$> slot c y layer else slot c y layer) as Hs1
    by (intros; apply foldl_retain_slot).
  assert (∀ y, y ∈ T2 → y ∈ T ∨ is_Some (slot c y layer)) as Hout'.
  { intros y Hy. destruct (Hout y Hy) as [|Hc]; [by left|right]. by apply (frame_slot _ _ _ _ (nr_frame _ _ _ Hn1)). }
  assert (∀ y ly, y ∈ keep → slot c y layer = Some ly → x ∉ ly → y ∈ T2) as Hnew.
  { intros y ly Hy Hly Hnin. apply (Hin y ly); [done| |done]. rewrite Hs1.
    assert (contains dropped y = false) as ->; [|done]. apply contains_false. rewrite Hdrop. tauto. }
  exists (with_slot c2 x layer (λ _, keep)), ({[x]} ∪ T2). split; [done|]. split; [exact Hn2|]. split.
  - eapply (relist _ _ _ _ _ c _ x l keep Ht Hl); [|done|done| |left; set_solver|left; set_solver|set_solver|set_solver|].
    + split; [exact Hn2| |].
      * rewrite slot_with_slot_same, Hs, (proj2 (contains_false _ _) Hxk), Hs1.
        assert (contains dropped x = false) as ->; [|by rewrite Hl]. apply contains_false. rewrite Hdrop. tauto.
      * intros y Hy. rewrite slot_with_slot_ne, Hs, !Hs1 by done. destruct (contains keep y) eqn:Ek.
        -- apply contains_spec in Ek. assert (contains dropped y = false) as ->.
           { apply contains_false. rewrite Hdrop. tauto. }
           unfold adjust. by rewrite (proj2 (contains_spec _ _) Ek).
        -- apply contains_false in Ek. destruct (contains dropped y) eqn:Ed.
           ++ unfold adjust. by rewrite (proj2 (contains_false _ _) Ek).
           ++ apply contains_false in Ed. symmetry. eapply adjust_keep; [exact Ht|exact Hl|done|].
              rewrite Hdrop in Ed. split; [done|]. intros Hyl. exfalso. tauto.
    + intros y Hy. by apply Hslots, Hkp.
    + intros y ly Hy Hly Hnin. assert (y ∈ T2) by (by eapply Hnew). set_solver.
  - intros y [->%elem_of_singleton|Hy]%elem_of_union; [right; by exists l|by apply Hout'].
Qed.

Lemma relinks_ok layer present max : ∀ rest c T, tidy (.∈ T) (.∈ T) layer c → readable c → max_of c layer = max →
  (∀ y, y ∈ present → is_Some (slot c y layer)) → (∀ y, y ∈ rest → y ∈ present) →
  ∃ c' T', for_fold (relink max layer present) (c, T) rest = Ok (c', T') ∧ near layer c c'
    ∧ tidy (.∈ T') (.∈ T') layer c' ∧ (∀ y, y ∈ T' → y ∈ T ∨ is_Some (slot c y layer)).
Proof.
  induction rest as [|x rest IH]; intros c T Ht Hr Hm Hp Hrest; cbn [for_fold].
  { exists c, T. split_and!; try done. by left. }
  destruct (relink_ok c T layer present x Ht Hr Hp (Hrest x ltac:(left))) as (c1&T1&He&Hn1&Ht1&Hout1).
  rewrite Hm in He. rewrite He. cbn [result_bind]. pose proof (nr_frame _ _ _ Hn1) as F.
  destruct (IH c1 T1 Ht1) as (c2&T2&He2&Hn2&Ht2&Hout2).
  - by eapply frame_readable.
  - by rewrite (frame_max _ _ _ F).
  - intros y Hy. apply (frame_slot _ _ _ _ F). by apply Hp.
  - intros y Hy. apply Hrest. by right.
  - exists c2, T2. split; [done|]. split; [by etransitivity|]. split; [done|].
    intros y Hy. destruct (Hout2 y Hy) as [Hy1|Hy1]; [by apply Hout1|right]. by apply (frame_slot _ _ _ _ F).
Qed.

(** Pruning, or sorting, every touched list. *)
Lemma prunes_ok layer : ∀ rest c (B S : string → Prop), tidy B S layer c → readable c →
  (∀ y, y ∈ rest → is_Some (slot c y layer)) →
  ∃ c', for_fold (fun c nid => prune c nid layer) c rest = Ok c' ∧ near layer c c'
    ∧ tidy (fun y => B y ∧ y ∉ rest) (fun y => S y ∧ y ∉ rest) layer c'.
Proof.
  induction rest as [|x rest IH]; intros c B S Ht Hr Hrest; cbn [for_fold].
  { exists c. split; [done|]. split; [done|]. eapply tidy_weaken; [exact Ht|..]; set_solver. }
  destruct (Hrest x ltac:(left)) as [l Hl]. destruct (prune_ok B S layer c x l Ht Hr Hl) as (c1&He&Hn1&Ht1).
  rewrite He. cbn [result_bind]. pose proof (nr_frame _ _ _ Hn1) as F.
  destruct (IH c1 _ _ Ht1) as (c2&He2&Hn2&Ht2).
  - by eapply frame_readable.
  - intros y Hy. apply (frame_slot _ _ _ _ F), Hrest. by right.
  - exists c2. split; [done|]. split; [by etransitivity|].
    eapply tidy_weaken; [exact Ht2|..]; unfold except; set_solver.
Qed.

Lemma sorts_ok layer : ∀ rest c (B S : string → Prop), tidy B S layer c → readable c →
  (∀ y, y ∈ rest → is_Some (slot c y layer)) →
  ∃ c', for_fold (fun c nid => sort_layer c nid layer) c rest = Ok c' ∧ near layer c c'
    ∧ tidy B (fun y => S y ∧ y ∉ rest) layer c'.
Proof.
  induction rest as [|x rest IH]; intros c B S Ht Hr Hrest; cbn [for_fold].
  { exists c. split; [done|]. split; [done|]. eapply tidy_weaken; [exact Ht|..]; set_solver. }
  destruct (Hrest x ltac:(left)) as [l Hl]. destruct (sort_layer_ok B S layer c x l Ht Hr Hl) as (c1&He&Hn1&Ht1&_&_).
  rewrite He. cbn [result_bind]. pose proof (nr_frame _ _ _ Hn1) as F.
  destruct (IH c1 _ _ Ht1) as (c2&He2&Hn2&Ht2).
  - by eapply frame_readable.
  - intros y Hy. apply (frame_slot _ _ _ _ F), Hrest. by right.
  - exists c2. split; [done|]. split; [by etransitivity|].
    eapply tidy_weaken; [exact Ht2|..]; unfold except; set_solver.
Qed.
End Relink.

(** ** Edges between the neighbors, and the whole repair of a layer *)

Section Repair.
Context `{Engine}.
Implicit Types (c : VectorCollection) (x y z : string) (layer : nat) (l : list string) (T : gset string).

(** Bounded everywhere, in order but at the touched lists. *)
Abbreviation bounded T := (tidy (fun _ => False) (.∈ T)).

Lemma join_ok T layer c x y lx ly : bounded T layer c → slot c x layer = Some lx → slot c y layer = Some ly →
  y ∉ lx → x ≠ y → length lx < max_of c layer → length ly < max_of c layer → x ∈ T → y ∈ T →
  let c' := with_slot (with_slot c x layer (fun l => l ++ [y])) y layer (fun l => l ++ [x]) in
  near layer c c' ∧ bounded T layer c'.
Proof.
  intros Ht Hx Hy Hyx Hne Hlx Hly HxT HyT c'. destruct (Ht x lx Hx) as [Hnd Hself Hmut Hb Ho].
  assert (near layer c c') as Hn by (etransitivity; apply with_slot_near). split; [exact Hn|].
  assert (x ∉ ly) as Hxy.
  { intros Hin. destruct (lk_mutual _ _ _ _ _ _ (Ht y ly Hy) x Hin) as (k&Hk&?). naive_solver. }
  eapply (relist _ _ _ _ _ c c' x lx (lx ++ [y]) Ht Hx); [| | | | | | | |].
  - split; [exact Hn| |].
    + unfold c'. rewrite slot_with_slot_ne by done. by rewrite slot_with_slot_same, Hx.
    + intros z Hz. destruct (decide (z = y)) as [->|Hzy].
      * unfold c'. rewrite slot_with_slot_same, slot_with_slot_ne, Hy by done. cbn. f_equal. unfold adjust.
        rewrite (proj2 (contains_spec (lx ++ [y]) y)) by set_solver. by rewrite (proj2 (contains_false ly x)).
      * unfold c'. rewrite !slot_with_slot_ne by done. symmetry.
        eapply adjust_keep; [exact Ht|exact Hx|done|set_solver].
  - apply NoDup_app. split; [done|]. split; [|apply NoDup_singleton]. intros z Hz Hzy%list_elem_of_singleton. by rewrite Hzy in Hz.
  - set_solver.
  - intros z [Hz|Hz%list_elem_of_singleton]%elem_of_app; [|rewrite Hz; by exists ly].
    exact (proj1 (tidy_live _ _ _ _ _ _ _ Ht Hx Hz)).
  - right. rewrite length_app. cbn. lia.
  - by left.
  - tauto.
  - tauto.
  - intros z lz [Hz|Hz%list_elem_of_singleton]%elem_of_app Hlz Hnin.
    + exfalso. destruct (Hmut z Hz) as (k&Hk&?). naive_solver.
    + rewrite Hz, Hy in Hlz. rewrite Hz. injection Hlz as <-. by split; [|right].
Qed.

(** What [make_room] did. *)
Record room T layer c x keep (evicted : option string) c' T' : Prop := {
  rm_near : near layer c c';
  rm_tidy : bounded T' layer c';
  rm_sub : T ⊆ T';
  rm_live : ∀ y, y ∈ T' → y ∈ T ∨ is_Some (slot c y layer);
  rm_room : ∃ l l', slot c x layer = Some l ∧ slot c' x layer = Some l' ∧ length l' < max_of c layer ∧ l' `sublist_of` l;
  rm_keep : slot c' keep layer = slot c keep layer;
  rm_victim : match evicted with
              | None => True
              | Some v => x ≠ v ∧ x ∈ T' ∧ v ∈ T' ∧ ∃ lx lv, slot c' x layer = Some lx ∧ slot c' v layer = Some lv
                  ∧ v ∉ lx ∧ length lv < max_of c layer
              end;
}.

Lemma evict_ok T layer c x keep v l : bounded T layer c → slot c x layer = Some l → v ∈ l → v ≠ keep → x ≠ keep →
  room T layer c x keep (Some v) (with_slot (with_slot c x layer (retain_not v)) v layer (retain_not x))
    ({[v]} ∪ ({[x]} ∪ T)).
Proof.
  intros Ht Hx Hv Hvk Hxk. destruct (Ht x l Hx) as [Hnd Hself Hmut Hb Ho]. destruct (Hmut v Hv) as (lv&Hlv&Hxv).
  assert (x ≠ v) as Hne by (intros ->; done). set (c' := with_slot _ v layer _).
  assert (near layer c c') as Hn by (etransitivity; apply with_slot_near).
  assert (slot c' x layer = Some (retain_not v l)) as Hown.
  { unfold c'. rewrite slot_with_slot_ne by done. by rewrite slot_with_slot_same, Hx. }
  assert (slot c' v layer = Some (retain_not x lv)) as Hvict.
  { unfold c'. rewrite slot_with_slot_same, slot_with_slot_ne, Hlv by done. done. }
  destruct Hb as [[]|Hb]. pose proof (retain_length v l Hnd Hv) as Hlen.
  destruct (Ht v lv Hlv) as [Hndv _ _ [[]|Hbv] _]. pose proof (retain_length x lv Hndv Hxv) as Hlenv. split.
  - exact Hn.
  - eapply (relist _ _ _ _ _ c c' x l (retain_not v l) Ht Hx).
    + split; [exact Hn|exact Hown|]. intros y Hy. destruct (decide (y = v)) as [->|Hyv].
      * rewrite Hvict, Hlv. cbn. f_equal. unfold adjust.
        rewrite (proj2 (contains_false (retain_not v l) v)); [done|]. rewrite retain_elem. tauto.
      * unfold c'. rewrite !slot_with_slot_ne by done. symmetry.
        eapply adjust_keep; [exact Ht|exact Hx|done|]. rewrite retain_elem. tauto.
    + by apply retain_NoDup.
    + rewrite retain_elem. tauto.
    + intros y [Hy _]%retain_elem. exact (proj1 (tidy_live _ _ _ _ _ _ _ Ht Hx Hy)).
    + right. lia.
    + left. set_solver.
    + tauto.
    + intros y Hy HyT. set_solver.
    + intros y ly [Hy _]%retain_elem Hly Hnin. exfalso. destruct (Hmut y Hy) as (k&Hk&?). naive_solver.
  - set_solver.
  - intros y [->%elem_of_singleton|[->%elem_of_singleton|Hy]%elem_of_union]%elem_of_union;
      [right; by exists lv|right; by exists l|by left].
  - exists l, (retain_not v l). split_and!; [done|done|lia|apply filter_sublist].
  - unfold c'. rewrite !slot_with_slot_ne by done. done.
  - split; [done|]. split; [set_solver|]. split; [set_solver|]. exists (retain_not v l), (retain_not x lv).
    split_and!; [done|done|rewrite retain_elem; tauto|lia].
Qed.

Lemma make_room_ok T layer c x keep l : bounded T layer c → readable c → slot c x layer = Some l → x ≠ keep →
  ∃ r c' T', make_room c x keep layer T = Ok (r, c', T') ∧
    match r with
    | None => c' = c ∧ T' = T
    | Some evicted => room T layer c x keep evicted c' T'
    end.
Proof.
  intros Ht Hr Hx Hne. unfold make_room. rewrite Hx. fold (max_of c layer).
  destruct (Nat.ltb_spec (length l) (max_of c layer)) as [Hlen|Hlen].
  { exists (Some None), c, T. split; [done|]. split; try done. - by left. - by exists l, l. }
  destruct (Hr x) as [origin Horg]; [by eapply slot_live; rewrite Hx|]. rewrite Horg. cbn [result_bind].
  rewrite (map_result_ok _ (key_of c x)); [|intros y Hy; apply rank_of_key; [done..|by eapply tidy_live]].
  cbn [result_bind]. destruct (List.find _ _) as [v|] eqn:Ev; [|by exists None, c, T].
  apply find_elem in Ev as [Hv Hcond]. apply andb_true_iff in Hcond as [Hvk Hcond].
  apply negb_true_iff, bool_decide_eq_false in Hvk.
  assert (v ∈ l) as Hvl.
  { apply list_elem_of_fmap in Hv as (p&->&Hp). rewrite sort_by_elem in Hp.
    apply list_elem_of_fmap in Hp as (y&->&Hy). done. }
  destruct (lk_mutual _ _ _ _ _ _ (Ht x l Hx) v Hvl) as (lv&Hlv&Hxv).
  assert (x ≠ v) as Hxv' by (intros ->; by apply (lk_self _ _ _ _ _ _ (Ht v l Hx))).
  cbn [foldl fst snd]. rewrite Hx. cbn [is_some]. rewrite slot_with_slot_ne, Hlv by done. cbn [is_some].
  eexists _, _, _. split; [reflexivity|]. by eapply evict_ok.
Qed.

Lemma ensure_edge_ok T layer c a b la lb : bounded T layer c → readable c →
  slot c a layer = Some la → slot c b layer = Some lb →
  ∃ c' T', ensure_edge layer (c, T) a b = Ok (c', T') ∧ near layer c c' ∧ bounded T' layer c'
    ∧ (∀ y, y ∈ T' → y ∈ T ∨ is_Some (slot c y layer)).
Proof.
  intros Ht Hr Ha Hb. unfold ensure_edge. case_bool_decide as Hab.
  { exists c, T. split_and!; try done. by left. }
  unfold linked at 1. rewrite Ha. cbn [is_some_and]. destruct (contains la b) eqn:Eab.
  { exists c, T. split_and!; try done. by left. }
  apply contains_false in Eab.
  destruct (make_room_ok T layer c a b la Ht Hr Ha Hab) as (r1&c1&T1&He1&H1). rewrite He1. cbn [result_bind].
  destruct r1 as [ev|]; [|destruct H1 as [-> ->]; exists c, T; split_and!; try done; by left].
  pose proof (nr_frame _ _ _ (rm_near _ _ _ _ _ _ _ _ H1)) as F1.
  pose proof (rm_keep _ _ _ _ _ _ _ _ H1) as Hk1. rewrite Hb in Hk1.
  destruct (make_room_ok T1 layer c1 b a lb) as (r2&c2&T2&He2&H2);
    [apply H1|exact (frame_readable _ _ F1 Hr)|exact Hk1|done|]. rewrite He2. cbn [result_bind].
  destruct (rm_room _ _ _ _ _ _ _ _ H1) as (la0&la1&Hla0&Hla1&Hlen1&Hsub1).
  rewrite Ha in Hla0. injection Hla0 as <-.
  destruct r2 as [ev2|].
  - (* both have room *)
    pose proof (nr_frame _ _ _ (rm_near _ _ _ _ _ _ _ _ H2)) as F2.
    destruct (rm_room _ _ _ _ _ _ _ _ H2) as (lb0&lb1&_&Hlb1&Hlen2&_).
    pose proof (rm_keep _ _ _ _ _ _ _ _ H2) as Hk2. rewrite Hla1 in Hk2.
    cbn [foldl fst snd]. rewrite Hk2. cbn [is_some]. rewrite slot_with_slot_ne, Hlb1 by done. cbn [is_some].
    destruct (join_ok ({[b]} ∪ ({[a]} ∪ T2)) layer c2 a b la1 lb1) as [Hnj Htj]; try done.
    + eapply tidy_weaken; [apply H2|done|set_solver].
    + intros Hin. apply Eab. by eapply elem_of_sublist.
    + by rewrite (frame_max _ _ _ F2), (frame_max _ _ _ F1).
    + by rewrite (frame_max _ _ _ F2).
    + set_solver.
    + set_solver.
    + eexists _, _. split; [reflexivity|]. split.
      { etransitivity; [apply H1|]. etransitivity; [apply H2|exact Hnj]. }
      split; [exact Htj|].
      intros y [->%elem_of_singleton|[->%elem_of_singleton|Hy]%elem_of_union]%elem_of_union;
        [right; by exists lb|right; by exists la|].
      destruct (rm_live _ _ _ _ _ _ _ _ H2 y Hy) as [Hy1|Hy1]; [by apply (rm_live _ _ _ _ _ _ _ _ H1)|right].
      by apply (frame_slot _ _ _ _ F1).
  - destruct H2 as [-> ->]. destruct ev as [v|].
    + (* the evicted link goes back *)
      destruct (rm_victim _ _ _ _ _ _ _ _ H1) as (Hav&HaT&HvT&lx&lv&Hlx&Hlv&Hvx&Hlenv).
      rewrite Hla1 in Hlx. injection Hlx as <-. cbn [foldl fst snd].
      destruct (join_ok T1 layer c1 a v la1 lv) as [Hnj Htj]; try done; [apply H1|by rewrite (frame_max _ _ _ F1)..|].
      eexists _, _. split; [reflexivity|]. split; [etransitivity; [apply H1|exact Hnj]|].
      split; [exact Htj|apply H1].
    + eexists _, _. split; [reflexivity|]. split; [apply H1|]. split; [apply H1|apply H1].
Qed.

Lemma ensure_edges_ok layer : ∀ pairs c T, bounded T layer c → readable c →
  (∀ p, p ∈ pairs → is_Some (slot c p.1 layer) ∧ is_Some (slot c p.2 layer)) →
  ∃ c' T', for_fold (fun s p => ensure_edge layer s p.1 p.2) (c, T) pairs = Ok (c', T')
    ∧ near layer c c' ∧ bounded T' layer c' ∧ (∀ y, y ∈ T' → y ∈ T ∨ is_Some (slot c y layer)).
Proof.
  induction pairs as [|p pairs IH]; intros c T Ht Hr Hp; cbn [for_fold].
  { exists c, T. split_and!; try done. by left. }
  destruct (Hp p ltac:(left)) as [[la Ha] [lb Hb]].
  destruct (ensure_edge_ok T layer c p.1 p.2 la lb Ht Hr Ha Hb) as (c1&T1&He&Hn&Ht1&Hout). rewrite He. cbn [result_bind].
  pose proof (nr_frame _ _ _ Hn) as F. destruct (IH c1 T1 Ht1) as (c2&T2&He2&Hn2&Ht2&Hout2).
  - by eapply frame_readable.
  - intros q Hq. rewrite !(frame_slot _ _ _ _ F). apply Hp. by right.
  - exists c2, T2. split; [done|]. split; [by etransitivity|]. split; [done|].
    intros y Hy. destruct (Hout2 y Hy) as [Hy1|Hy1]; [by apply Hout|right]. by apply (frame_slot _ _ _ _ F).
Qed.

Lemma windows2_elem {A} (l : list A) p : p ∈ windows2 l → p.1 ∈ l ∧ p.2 ∈ l.
Proof.
  induction l as [|a [|b l] IH]; cbn; [by intros ?%not_elem_of_nil..|].
  intros [->|Hp]%elem_of_cons; [set_solver|]. destruct (IH Hp). set_solver.
Qed.

Lemma foldl_reciprocal_id B S layer c l : tidy B S layer c → foldl (fun c nid => ensure_reciprocal c nid layer) c l = c.
Proof. intros Ht. induction l as [|x l IH]; cbn; [done|]. by rewrite (ensure_reciprocal_id B S). Qed.

(** The repair of a layer succeeds and leaves it tidy. *)
Lemma repair_layer_ok layer c orphans : tidy (fun _ => False) (fun _ => False) layer c → readable c →
  ∃ c', repair_layer c orphans layer = Ok c' ∧ near layer c c' ∧ tidy (fun _ => False) (fun _ => False) layer c'.
Proof.
  intros Ht Hr. unfold repair_layer. fold (max_of c layer). set (present := List.filter _ orphans).
  assert (∀ y, y ∈ present → is_Some (slot c y layer)) as Hp.
  { intros y [_ Hy]%filter_elem. unfold on_layer in Hy. unfold slot. destruct (vc_vectors c !! y) as [r|]; cbn in *; [|done].
    apply lookup_lt_is_Some. by apply Nat.ltb_lt. }
  destruct (relinks_ok layer present (max_of c layer) present c ∅) as (c1&T1&He1&Hn1&Ht1&Hout1); try done.
  { eapply tidy_weaken; [exact Ht|done..]. }
  rewrite He1. cbn [result_bind]. pose proof (nr_frame _ _ _ Hn1) as F1.
  destruct (prunes_ok layer (btree_set_iter T1) c1 _ _ Ht1) as (c2&He2&Hn2&Ht2).
  { by eapply frame_readable. }
  { intros y Hy. rewrite btree_set_iter_elem in Hy. apply (frame_slot _ _ _ _ F1). destruct (Hout1 y Hy); [set_solver|done]. }
  rewrite He2. cbn [result_bind]. rewrite (foldl_reciprocal_id _ _ _ _ _ Ht2).
  pose proof (nr_frame _ _ _ (transitivity Hn1 Hn2)) as F2.
  destruct (ensure_edges_ok layer (windows2 (sort_by str_leb present)) c2 T1) as (c3&T3&He3&Hn3&Ht3&Hout3).
  { eapply tidy_weaken; [exact Ht2|..]; intros y; cbv beta; rewrite btree_set_iter_elem; tauto. }
  { by eapply frame_readable. }
  { intros p Hpair. apply windows2_elem in Hpair as [Hp1 Hp2]. rewrite sort_by_elem in Hp1, Hp2.
    rewrite !(frame_slot _ _ _ _ F2). auto. }
  rewrite He3. cbn [result_bind]. pose proof (nr_frame _ _ _ Hn3) as F3.
  destruct (sorts_ok layer (btree_set_iter T3) c3 _ _ Ht3) as (c4&He4&Hn4&Ht4).
  { eapply frame_readable; [exact F3|]. by eapply frame_readable. }
  { intros y Hy. rewrite btree_set_iter_elem in Hy. apply (frame_slot _ _ _ _ F3).
    destruct (Hout3 y Hy) as [Hy1|]; [|done]. apply (frame_slot _ _ _ _ F2). destruct (Hout1 y Hy1); [set_solver|done]. }
  exists c4. split; [exact He4|]. split; [by repeat (etransitivity; [eassumption|])|].
  eapply tidy_weaken; [exact Ht4|done|]. intros y. cbv beta. rewrite btree_set_iter_elem. tauto.
Qed.
End Repair.

(** ** A search ends, and finds vectors of its layer *)

Lemma insert_rank_perm r l : insert_rank r l ≡ₚ r :: l.
Proof.
  induction l as [|h l IH]; cbn; [done|]. destruct (rank_ltb h r); [|done]. rewrite IH. apply Permutation_swap.
Qed.

Section Searches.
Context `{Engine}.
Implicit Types (c : VectorCollection) (x y z : string) (layer : nat) (s : Search).

Lemma rank_of_ok c query y : readable c → is_Some (vc_vectors c !! y) → ∃ d, rank_of c query y = Ok (d, y).
Proof.
  intros Hr Hy. unfold rank_of, distance_to. destruct (Hr y Hy) as [v ->]. by eexists.
Qed.

Abbreviation on c layer := (fun y => is_Some (slot c y layer)).

(** What has not been seen. *)
Definition unseen c (visited : gset string) : nat := size (dom (vc_vectors c) ∖ visited).

Record found_ok (P : string → Prop) (ef : N) (visited : gset string) (best : list Rank) : Prop := {
  fo_nodup : NoDup (map snd best);
  fo_seen : ∀ y, y ∈ map snd best → P y ∧ y ∈ visited;
  fo_len : (len best ≤ ef)%N;
}.

Record search_ok c layer (ef : N) (total : nat) s : Prop := {
  so_found : found_ok (on c layer) ef (sr_visited s) (sr_best s);
  so_cand : ∀ r, r ∈ sr_candidates s → is_Some (slot c r.2 layer);
  so_room : length (sr_candidates s) + unseen c (sr_visited s) ≤ total;
}.

Lemma truncate_ok P ef visited (best : list Rank) : NoDup (map snd best) →
  (∀ y, y ∈ map snd best → P y ∧ y ∈ visited) → found_ok P ef visited (truncate ef best).
Proof.
  intros Hn Hs. unfold truncate. assert (map snd best = map snd (take (N.to_nat ef) best) ++ map snd (drop (N.to_nat ef) best)) as E.
  { by rewrite <-map_app, take_drop. }
  split.
  - rewrite E in Hn. by apply NoDup_app in Hn as (?&_).
  - intros y Hy. apply Hs. rewrite E. set_solver.
  - unfold len. rewrite length_take. lia.
Qed.

Lemma unseen_visit c (visited : gset string) y : y ∉ visited → is_Some (vc_vectors c !! y) →
  S (unseen c ({[y]} ∪ visited)) = unseen c visited.
Proof.
  intros Hy Hl. unfold unseen. assert (dom (vc_vectors c) ∖ visited = {[y]} ∪ dom (vc_vectors c) ∖ ({[y]} ∪ visited)) as ->.
  { apply set_eq. intros z. rewrite elem_of_union, !elem_of_difference, elem_of_union, !elem_of_singleton, !elem_of_dom.
    destruct (decide (z = y)) as [->|]; naive_solver. }
  pose proof (size_union (A:=string) (C:=gset string) {[y]} (dom (vc_vectors c) ∖ ({[y]} ∪ visited))) as Hz.
  pose proof (size_singleton (A:=string) (C:=gset string) y) as H1. rewrite Hz by set_solver. lia.
Qed.

Lemma visit_neighbor_ok c query layer ef total s y : readable c → search_ok c layer ef total s →
  is_Some (slot c y layer) → ∃ s', visit_neighbor c query ef s y = Ok s' ∧ search_ok c layer ef total s'.
Proof.
  intros Hr [[Hn Hs Hl] Hc Hroom] Hy. unfold visit_neighbor. case_bool_decide as Hv; [by exists s|].
  destruct (rank_of_ok c query y Hr) as [d ->]; [by eapply slot_live|]. cbn [result_bind].
  pose proof (unseen_visit c (sr_visited s) y Hv ltac:(by eapply slot_live)) as Hu.
  assert (∀ z, z ∈ map snd (sr_best s) → z ∈ {[y]} ∪ sr_visited s) as Hs'.
  { intros z Hz. destruct (Hs z Hz). set_solver. }
  destruct (match last (sr_best s) with Some _ => _ | None => _ end).
  - eexists. split; [reflexivity|]. split; cbn [sr_visited sr_candidates sr_best].
    + apply truncate_ok.
      * rewrite (Permutation_map snd (insert_rank_perm (d, y) (sr_best s))). cbn. apply NoDup_cons. split; [|done].
        intros Hin. by destruct (Hs y Hin).
      * intros z Hz. rewrite (Permutation_map snd (insert_rank_perm (d, y) (sr_best s))) in Hz. cbn in Hz.
        apply elem_of_cons in Hz as [->|Hz]; [split; [done|set_solver]|]. split; [by apply Hs|by apply Hs'].
    + intros r Hin. rewrite insert_rank_perm in Hin. apply elem_of_cons in Hin as [->|Hin]; [done|by apply Hc].
    + rewrite insert_rank_perm. cbn. lia.
  - eexists. split; [reflexivity|]. split; cbn [sr_visited sr_candidates sr_best]; [|done|lia].
    split; [done| |done]. intros z Hz. split; [by apply Hs|by apply Hs'].
Qed.

Lemma visit_neighbors_ok c query layer ef total : readable c → ∀ l s, search_ok c layer ef total s →
  (∀ y, y ∈ l → is_Some (slot c y layer)) →
  ∃ s', for_fold (visit_neighbor c query ef) s l = Ok s' ∧ search_ok c layer ef total s'.
Proof.
  intros Hr. induction l as [|y l IH]; intros s Hs Hl; cbn [for_fold]; [by exists s|].
  destruct (visit_neighbor_ok c query layer ef total s y Hr Hs (Hl y ltac:(left))) as (s1&->&Hs1). cbn [result_bind].
  apply IH; [done|]. intros z Hz. apply Hl. by right.
Qed.

Lemma search_loop_ok c query ef layer : readable c → (∀ x l y, slot c x layer = Some l → y ∈ l → is_Some (slot c y layer)) →
  ∀ fuel s, search_ok c layer ef fuel s →
  ∃ best visited, search_loop (S fuel) c query ef layer s = Ok best ∧ found_ok (on c layer) ef visited best.
Proof.
  intros Hr Hlive. induction fuel as [|fuel IH]; intros s Hs; cbn [search_loop].
  all: assert (∃ best visited, @Ok (list Rank) StoreError (sr_best s) = Ok best ∧ found_ok (on c layer) ef visited best)
    as Hdone by (exists (sr_best s), (sr_visited s); split; [done|apply Hs]).
  all: destruct (sr_candidates s) as [|cur cands] eqn:Ec; [exact Hdone|].
  all: cbv zeta; match goal with |- context [if ?b then _ else _] => destruct b; [exact Hdone|] end.
  all: pose proof (so_room _ _ _ _ _ Hs) as Hroom; rewrite Ec in Hroom; cbn [length] in Hroom.
  { lia. }
  destruct (visit_neighbors_ok c query layer ef fuel Hr (default [] (slot c cur.2 layer))
    {| sr_visited := sr_visited s; sr_candidates := cands; sr_best := sr_best s |}) as (s1&He&Hs1).
  - split; cbn; [apply Hs| |lia]. intros r Hin. apply (so_cand _ _ _ _ _ Hs). rewrite Ec. by right.
  - intros y Hy. destruct (slot c cur.2 layer) as [l|] eqn:El; [|by apply not_elem_of_nil in Hy]. by eapply Hlive.
  - rewrite He. cbn [result_bind]. by apply IH.
Qed.

Record enter_inv c layer s : Prop := {
  ei_nodup : NoDup (map snd (sr_best s));
  ei_seen : ∀ y, y ∈ map snd (sr_best s) → is_Some (slot c y layer) ∧ y ∈ sr_visited s;
  ei_cand : ∀ r, r ∈ sr_candidates s → is_Some (slot c r.2 layer);
  ei_room : length (sr_candidates s) + unseen c (sr_visited s) ≤ size (vc_vectors c);
}.

Lemma enter_ok c query layer s y : readable c → enter_inv c layer s → is_Some (slot c y layer) →
  ∃ s', enter c query s y = Ok s' ∧ enter_inv c layer s'.
Proof.
  intros Hr [Hn Hs Hc Hroom] Hy. unfold enter. case_bool_decide as Hv; [by exists s|].
  assert (is_Some (vc_vectors c !! y)) as Hly by (by eapply slot_live). pose proof Hly as [r Hr0]. rewrite Hr0. cbn [is_none is_some negb].
  destruct (rank_of_ok c query y Hr Hly) as [d ->]. cbn [result_bind].
  pose proof (unseen_visit c (sr_visited s) y Hv Hly) as Hu.
  eexists. split; [reflexivity|]. split; cbn [sr_visited sr_candidates sr_best].
  - rewrite map_app. apply NoDup_app. split; [done|]. split; [|apply NoDup_singleton].
    intros z Hz ->%list_elem_of_singleton. by destruct (Hs _ Hz).
  - intros z Hz. rewrite map_app in Hz. apply elem_of_app in Hz as [Hz| ->%list_elem_of_singleton].
    + destruct (Hs z Hz). split; [done|set_solver].
    + split; [done|cbn; set_solver].
  - intros q Hq. rewrite insert_rank_perm in Hq. apply elem_of_cons in Hq as [->|Hq]; [done|by apply Hc].
  - rewrite insert_rank_perm. cbn. lia.
Qed.

(** The fuel is enough, nothing fails, and what is found is on the layer. *)
Lemma search_layer_ok B S c query eps ef layer : tidy B S layer c → readable c →
  (∀ y, y ∈ eps → is_Some (slot c y layer)) →
  ∃ found, search_layer c query eps ef layer = Ok found ∧ NoDup (map snd found) ∧ (len found ≤ ef)%N
    ∧ (∀ y, y ∈ map snd found → is_Some (slot c y layer)).
Proof.
  intros Ht Hr Heps. unfold search_layer.
  assert (∃ found : list Rank, @Ok (list Rank) StoreError [] = Ok found ∧ NoDup (map snd found) ∧ (len found ≤ ef)%N
    ∧ (∀ y, y ∈ map snd found → is_Some (slot c y layer))) as Hnil.
  { exists []. split_and!; [done|constructor|unfold len; cbn; lia|set_solver]. }
  destruct (_ || _); [done|].
  assert (∀ l s, enter_inv c layer s → (∀ y, y ∈ l → is_Some (slot c y layer)) →
    ∃ s', for_fold (enter c query) s l = Ok s' ∧ enter_inv c layer s') as Hent.
  { induction l as [|y l IH]; intros s Hs Hl; cbn [for_fold]; [by exists s|].
    destruct (enter_ok c query layer s y Hr Hs (Hl y ltac:(left))) as (s1&->&Hs1). cbn [result_bind].
    apply IH; [done|]. intros z Hz. apply Hl. by right. }
  destruct (Hent eps {| sr_visited := ∅; sr_candidates := []; sr_best := [] |}) as (s&He&Hs); [|done|].
  { split; cbn; [constructor|set_solver|set_solver|]. unfold unseen. rewrite difference_empty_L, size_dom. lia. }
  rewrite He. cbn [result_bind]. case_bool_decide; [done|]. destruct Hs as [Hn Hse Hc Hroom].
  destruct (search_loop_ok c query ef layer Hr) with (fuel := size (vc_vectors c))
    (s := {| sr_visited := sr_visited s; sr_candidates := sr_candidates s;
             sr_best := truncate ef (sort_by rank_leb (sr_best s)) |}) as (best&visited&Hb&[Hf1 Hf2 Hf3]).
  - intros x l y Hx Hy. by eapply tidy_live.
  - split; cbn; [|done|done]. pose proof (Permutation_map snd (sort_by_perm rank_leb (sr_best s))) as Hp.
    apply truncate_ok; [by rewrite Hp|]. intros y Hy. rewrite Hp in Hy. by apply Hse.
  - exists best. split; [exact Hb|]. split_and!; [done|done|]. intros y Hy. by apply Hf2.
Qed.
End Searches.
