(* ===== verification/FlsIndex.v ===== *)
(** * Upserts and deletes keep the graph ([vector.rs], lines 614-760 and 957-1027)

    What a whole collection must be, that the checks of [validate_graph] and
    [validate_graph_full] decide it, and that [vc_upsert] and [vc_delete_id]
    succeed on such a collection, keep it one, and store what they were given. *)

From Stdlib Require Import SpecFloat.
From S2P Require Import Prelude RustStr Ledger FlsBytes FlsFloat FlsModel FlsVector FlsGraph.

(** ** A checked vector decodes *)

Lemma all_chunks4_spec p l : all_chunks4 p l = true → ∀ v, v ∈ chunks4 l → p v = true.
Proof.
  revert l. fix IH 1. intros [|a [|b [|e [|d l]]]]; cbn; [by intros _ v ?%not_elem_of_nil..|].
  intros [H1 H2]%andb_true_iff v [->|Hv]%elem_of_cons; [done|]. by apply (IH l).
Qed.

Lemma all_chunks2_spec p l : all_chunks2 p l = true → ∀ v, v ∈ chunks2 l → p v = true.
Proof.
  revert l. fix IH 1. intros [|a [|b l]]; cbn; [by intros _ v ?%not_elem_of_nil..|].
  intros [H1 H2]%andb_true_iff v [->|Hv]%elem_of_cons; [done|]. by apply (IH l).
Qed.

Lemma chunks2_lt l : ∀ v, v ∈ chunks2 l → (v < 65536)%N.
Proof.
  revert l. fix IH 1. intros [|a [|b l]]; cbn; [by intros v ?%not_elem_of_nil..|]. intros v [->|Hv]%elem_of_cons; [|by apply (IH l)].
  pose proof (le_value_lt [a; b]) as Hl. cbn in Hl |- *. lia.
Qed.

Lemma dequantize_ok storage dim b : check_stored storage dim b = Ok tt → ∃ v, dequantize storage b = Ok v.
Proof.
  unfold check_stored. destruct (stored_len dim storage) as [n|] eqn:En; cbn [result_bind]; [|done].
  destruct (N.eqb_spec (len b) n) as [Hlen|]; cbn [negb]; [|done].
  assert (len b = dim * bytes_per_value storage)%N as Hb.
  { rewrite Hlen. unfold stored_len in En. destruct (dim =? 0)%N; [done|]. unfold checked_mul in En.
    destruct (N.leb_spec (dim * bytes_per_value storage) u32_max); cbn in En; [|done]. destruct (_ <? _)%N; [done|].
    by injection En. }
  destruct storage; cbn [bytes_per_value dequantize] in *.
  - destruct (all_chunks4 f32_finite b) eqn:Ef; [intros _|done].
    assert (length b mod 4 = 0) as ->. { replace (length b) with (N.to_nat dim * 4) by (unfold len in Hb; cbn in Hb; lia). by apply Nat.Div0.mod_mul. }
    cbn. exists (map (fun v => v) (chunks4 b)). apply map_result_ok. intros v Hv. unfold finite_component.
    by rewrite (all_chunks4_spec _ _ Ef v Hv).
  - destruct (all_chunks2 f16_finite b) eqn:Ef; [intros _|done].
    assert (length b mod 2 = 0) as ->. { replace (length b) with (N.to_nat dim * 2) by (unfold len in Hb; cbn in Hb; lia). by apply Nat.Div0.mod_mul. }
    cbn [Nat.eqb negb]. exists (map (fun v => v) (map f16_to_f32 (chunks2 b))). apply map_result_ok.
    intros v (h&->&Hh)%list_elem_of_fmap. unfold finite_component.
    destruct (f16_exact h) as [-> _]; [by eapply chunks2_lt|by eapply all_chunks2_spec|done].
  - by eexists.
Qed.

(** ** The canonical entry *)

Section Entry.
Context `{Json}.
Implicit Types (vs : gmap string VectorRecord).

Lemma entry_le_spec (a b : string * VectorRecord) : entry_le a b = true ↔
  (vr_level a.2 < vr_level b.2)%N ∨ vr_level a.2 = vr_level b.2 ∧ str_leb b.1 a.1 = true.
Proof.
  unfold entry_le. destruct (N.ltb_spec (vr_level a.2) (vr_level b.2)), (N.eqb_spec (vr_level a.2) (vr_level b.2)); cbn; naive_solver lia.
Qed.

Lemma entry_le_total a b : entry_le a b = true ∨ entry_le b a = true.
Proof.
  rewrite !entry_le_spec. destruct (N.lt_trichotomy (vr_level a.2) (vr_level b.2)) as [?|[?|?]]; [by left; left| |by right; left].
  destruct (str_leb_total a.1 b.1); [right|left]; by right.
Qed.

Lemma entry_le_trans a b c : entry_le a b = true → entry_le b c = true → entry_le a c = true.
Proof.
  rewrite !entry_le_spec. pose proof (str_leb_trans c.1 b.1 a.1). intros [?|[? ?]] [?|[? ?]]; [left; lia..|].
  right. split; [lia|auto].
Qed.

Lemma entry_le_antisym a b : entry_le a b = true → entry_le b a = true → a.1 = b.1.
Proof.
  rewrite !entry_le_spec. intros [?|[? ?]] [?|[? ?]]; [exfalso; lia..|]. by apply str_leb_antisym.
Qed.

Definition is_entry vs e : Prop := ∃ r, vs !! e = Some r ∧ ∀ e' r', vs !! e' = Some r' → entry_le (e', r') (e, r) = true.

Definition max_entry (best : option (string * VectorRecord)) x : option (string * VectorRecord) :=
  match best with None => Some x | Some y => if entry_le y x then Some x else Some y end.

Lemma max_entry_foldl l : ∀ best, match foldl max_entry best l with
  | None => best = None ∧ l = []
  | Some m => (best = Some m ∨ m ∈ l) ∧ (∀ x, best = Some x ∨ x ∈ l → entry_le x m = true)
  end.
Proof.
  induction l as [|a l IH]; intros best; cbn [foldl].
  { destruct best as [b|]; [|done]. split; [by left|]. intros x [[= ->]|Hx]; [|by apply not_elem_of_nil in Hx].
    destruct (entry_le_total x x); done. }
  specialize (IH (max_entry best a)). destruct (foldl max_entry _ l) as [m|].
  - destruct IH as [Hm Hall]. destruct best as [b|]; cbn [max_entry] in *.
    + destruct (entry_le b a) eqn:Eba.
      * split; [destruct Hm as [[= ->]|?]; right; [left|by right]|]. intros x [[= <-]|[->|Hx]%elem_of_cons].
        -- eapply entry_le_trans; [exact Eba|]. apply Hall. by left.
        -- apply Hall. by left.
        -- apply Hall. by right.
      * split; [destruct Hm as [[= ->]|?]; [by left|right; by right]|]. intros x [[= <-]|[->|Hx]%elem_of_cons].
        -- apply Hall. by left.
        -- eapply entry_le_trans; [|apply Hall; by left]. destruct (entry_le_total a b); congruence.
        -- apply Hall. by right.
    + split; [destruct Hm as [[= ->]|?]; right; [left|by right]|]. intros x [?|[->|Hx]%elem_of_cons]; [done|..]; apply Hall; [by left|by right].
  - destruct IH as [He _]. destruct best as [b|]; cbn in He; [by destruct (entry_le b a)|done].
Qed.

Lemma canonical_spec vs e : canonical_entry vs = Some e ↔ is_entry vs e.
Proof.
  unfold canonical_entry. fold max_entry. pose proof (max_entry_foldl (btree_iter vs) None) as Hm.
  change (foldl _ None (btree_iter vs)) with (foldl max_entry None (btree_iter vs)).
  destruct (foldl max_entry None (btree_iter vs)) as [[e0 r0]|]; cbn.
  - destruct Hm as [[?|Hin] Hall]; [done|]. rewrite btree_iter_elem in Hin. split.
    + intros [= <-]. exists r0. split; [done|]. intros e' r' He'. apply Hall. right. by apply btree_iter_elem.
    + intros (r&Hr&Hmax). f_equal. apply (entry_le_antisym (e0, r0) (e, r)); [by apply Hmax|].
      apply Hall. right. by apply btree_iter_elem.
  - split; [done|]. intros (r&Hr&_). destruct Hm as [_ Hn]. apply btree_iter_elem in Hr. rewrite Hn in Hr. by apply not_elem_of_nil in Hr.
Qed.

Lemma canonical_none vs : canonical_entry vs = None ↔ vs = ∅.
Proof.
  unfold canonical_entry. pose proof (max_entry_foldl (btree_iter vs) None) as Hm.
  change (foldl _ None (btree_iter vs)) with (foldl max_entry None (btree_iter vs)).
  destruct (foldl max_entry None (btree_iter vs)) as [[e0 r0]|]; cbn.
  - split; [done|]. intros ->. destruct Hm as [[?|Hin] _]; [done|]. by rewrite btree_iter_elem, lookup_empty in Hin.
  - split; [|done]. intros _. destruct Hm as [_ Hn]. apply map_empty. intros i. apply eq_None_not_Some. intros [r Hr].
    apply btree_iter_elem in Hr. rewrite Hn in Hr. by apply not_elem_of_nil in Hr.
Qed.

(** The entry depends on the ids and their levels only. *)
Lemma is_entry_levels vs vs' e : map_Forall2 (fun _ r r' => vr_level r' = vr_level r) vs vs' → is_entry vs e → is_entry vs' e.
Proof.
  intros Hf (r&Hr&Hmax). pose proof (Hf e) as He. rewrite Hr in He. inversion He as [? r' Hl E1 E2|]; subst.
  exists r'. split; [done|]. intros e' q' Hq'. pose proof (Hf e') as He'. rewrite Hq' in He'.
  inversion He' as [q ? Hlq E3 E4|]; subst. specialize (Hmax e' q (eq_sym E3)).
  rewrite entry_le_spec in Hmax |- *. cbn in *. by rewrite Hl, Hlq.
Qed.

Lemma canonical_levels vs vs' : map_Forall2 (fun _ r r' => vr_level r' = vr_level r) vs vs' →
  canonical_entry vs' = canonical_entry vs.
Proof.
  intros Hf. destruct (canonical_entry vs) as [e|] eqn:E.
  - apply canonical_spec in E. apply canonical_spec. by eapply is_entry_levels.
  - apply canonical_none in E as ->. apply canonical_none. apply map_empty. intros i. pose proof (Hf i) as Hi.
    rewrite lookup_empty in Hi. by inversion Hi.
Qed.

Lemma canonical_entry_delete vs e id : canonical_entry vs = Some e → id ≠ e → canonical_entry (delete id vs) = Some e.
Proof.
  rewrite !canonical_spec. intros (r&Hr&Hmax) Hne. exists r. split; [by rewrite lookup_delete_ne|].
  intros e' r' He'. apply lookup_delete_Some in He' as [_ He']. by apply Hmax.
Qed.

Lemma canonical_entry_insert vs e id r : canonical_entry vs = Some e → vs !! id = None →
  ∃ re, vs !! e = Some re ∧ canonical_entry (<[id := r]> vs)
    = if (vr_level re <? vr_level r)%N || ((vr_level r =? vr_level re)%N && String.ltb id e) then Some id else Some e.
Proof.
  rewrite canonical_spec. intros (re&Hre&Hmax) Hid. exists re. split; [done|].
  assert (id ≠ e) as Hne by congruence.
  assert (entry_le (e, re) (id, r) = (vr_level re <? vr_level r)%N || ((vr_level r =? vr_level re)%N && String.ltb id e)) as Ht.
  { unfold entry_le. cbn. rewrite (N.eqb_sym (vr_level r)). f_equal. f_equal. apply eq_true_iff_eq.
    rewrite str_ltb_lt, str_leb_alt. naive_solver. }
  rewrite <-Ht. destruct (entry_le (e, re) (id, r)) eqn:E; apply canonical_spec.
  - exists r. split; [by rewrite lookup_insert_eq|]. intros e' r' [[<- <-]|[_ He']]%lookup_insert_Some.
    + destruct (entry_le_total (id, r) (id, r)); done.
    + eapply entry_le_trans; [by apply Hmax|done].
  - exists re. split; [by rewrite lookup_insert_ne|]. intros e' r' [[<- <-]|[_ He']]%lookup_insert_Some.
    + destruct (entry_le_total (id, r) (e, re)); congruence.
    + by apply Hmax.
Qed.
End Entry.

(** ** A whole collection *)

Section Graph.
Context `{Engine}.
Implicit Types (c : VectorCollection) (x y z id : string) (layer k : nat) (S : string → Prop).

Abbreviation none := (fun _ : string => False).

Definition record_ok c id (r : VectorRecord) : Prop :=
  check_vector_id id = Ok tt ∧ check_stored (vc_storage c) (vc_dim c) (vr_bytes r) = Ok tt
  ∧ vr_level r = vector_level id (vc_m c) ∧ length (vr_neighbors r) = N.to_nat (vr_level r) + 1.

(** The lists of [S] may be out of order. *)
Record graph_ok S c : Prop := {
  go_entry : vc_entry c = canonical_entry (vc_vectors c);
  go_records : map_Forall (record_ok c) (vc_vectors c);
  go_layers : ∀ k, tidy none S k c;
}.

Lemma records_readable c : map_Forall (record_ok c) (vc_vectors c) → readable c.
Proof. intros Hr x [r Hx]. unfold stored. rewrite Hx. eapply dequantize_ok. by apply (Hr x r Hx). Qed.

Lemma frame_levels c c' : frame c c' → map_Forall2 (fun _ r r' => vr_level r' = vr_level r) (vc_vectors c) (vc_vectors c').
Proof. intros F i. pose proof (fr_records _ _ F i) as Hi. inversion Hi as [r r' (_&_&?&_) E1 E2|E1 E2]; by constructor. Qed.

Lemma frame_canonical c c' : frame c c' → canonical_entry (vc_vectors c') = canonical_entry (vc_vectors c).
Proof. intros F. by apply canonical_levels, frame_levels. Qed.

Lemma frame_records c c' : frame c c' → map_Forall (record_ok c) (vc_vectors c) → map_Forall (record_ok c') (vc_vectors c').
Proof.
  intros F Hr id r' Hid. pose proof (fr_records _ _ F id) as Hi. rewrite Hid in Hi.
  inversion Hi as [r ? (Hb&_&Hl&Hn) E1 E2|]; subst. destruct (Hr id r (eq_sym E1)) as (H1&H2&H3&H4).
  unfold record_ok. rewrite (fr_storage _ _ F), (fr_dim _ _ F), (fr_m _ _ F), Hb, Hl, Hn. done.
Qed.

(** What is stored, and under which parameters. *)
Definition contents c : gmap string (bytes * option Value) := (fun r => (vr_bytes r, vr_metadata r)) <$> vc_vectors c.

Definition same_params c c' : Prop :=
  vc_dim c' = vc_dim c ∧ vc_storage c' = vc_storage c ∧ vc_metric c' = vc_metric c ∧ vc_m c' = vc_m c
  ∧ vc_ef_construction c' = vc_ef_construction c ∧ vc_ef_search c' = vc_ef_search c.

Lemma frame_params c c' : frame c c' → same_params c c'.
Proof. by intros []. Qed.

Lemma same_params_trans c1 c2 c3 : same_params c1 c2 → same_params c2 c3 → same_params c1 c3.
Proof. unfold same_params. intuition congruence. Qed.

Lemma frame_contents c c' : frame c c' → contents c' = contents c.
Proof.
  intros F. apply map_eq. intros i. unfold contents. rewrite !lookup_fmap. pose proof (fr_records _ _ F i) as Hi.
  inversion Hi as [r r' (Hb&Hm&_) E1 E2|E1 E2]; cbn; [by rewrite Hb, Hm|done].
Qed.

(** A change of one layer leaves the others tidy. *)
Lemma near_tidy B S layer k c c' : near layer c c' → k ≠ layer → tidy B S k c → tidy B S k c'.
Proof.
  intros [F Hs] Hk Ht x l Hl. rewrite (Hs x k Hk) in Hl. destruct (Ht x l Hl) as [H1 H2 H3 H4 H5]. split; try done.
  - intros y Hy. rewrite (Hs y k Hk). by apply H3.
  - by rewrite (frame_max _ _ _ F).
  - by rewrite (frame_ordered _ _ _ _ F).
Qed.

Lemma slot_down c x k k' : is_Some (slot c x k) → k' ≤ k → is_Some (slot c x k').
Proof.
  unfold slot. destruct (vc_vectors c !! x) as [r|]; cbn; [|done]. rewrite !lookup_lt_is_Some. lia.
Qed.

Lemma record_slot c id r k : map_Forall (record_ok c) (vc_vectors c) → vc_vectors c !! id = Some r →
  is_Some (slot c id k) ↔ k ≤ N.to_nat (vr_level r).
Proof.
  intros Hr Hid. destruct (Hr id r Hid) as (_&_&_&Hl). unfold slot. rewrite Hid. cbn. rewrite lookup_lt_is_Some. lia.
Qed.

(** ** Removal *)

Lemma enumerate_elem {A} (l : list A) k a : (k, a) ∈ enumerate l ↔ l !! k = Some a.
Proof.
  unfold enumerate. rewrite elem_of_lookup_imap. split.
  - intros (i&b&[= -> ->]&Hi). done.
  - intros Hk. by exists k, a.
Qed.

Lemma unlink_spec id : ∀ (lists : list (nat * list string)) c,
  let c' := foldl (fun c '(layer, nids) => foldl (fun c nid => with_slot c nid layer (retain_not id)) c nids) c lists in
  frame c c' ∧ ∀ y k, slot c' y k
    = if existsb (fun p => (p.1 =? k) && contains p.2 y) lists then retain_not id <$> slot c y k else slot c y k.
Proof.
  induction lists as [|[layer nids] lists IH]; intros c; cbn [foldl existsb]; [done|].
  destruct (IH (foldl (fun c nid => with_slot c nid layer (retain_not id)) c nids)) as [F Hs]. cbv zeta.
  pose proof (foldl_retain_near id layer nids c) as Hn. split; [by etransitivity; [apply Hn|]|].
  intros y k. rewrite Hs. cbn [fst snd]. destruct (Nat.eqb_spec layer k) as [->|Hne]; cbn [andb].
  - rewrite foldl_retain_slot. destruct (contains nids y); cbn [orb]; [|done].
    destruct (existsb _ _), (slot c y k); cbn; try done. by rewrite retain_idem.
  - rewrite (nr_slots _ _ _ Hn) by done. done.
Qed.

(** The graph without [id], before the repairs. *)
Definition without c id (neighbors : list (list string)) : VectorCollection :=
  let c1 := unlink c id neighbors in with_records c1 (delete id (vc_vectors c1)).

Lemma ordered_same c c' x l : (∀ y, y ∈ l → key_of c' x y = key_of c x y) → ordered c x l → ordered c' x l.
Proof.
  intros Hk. unfold ordered. induction 1 as [|y l Hl IH Hy]; constructor.
  - apply IH. intros z Hz. apply Hk. by right.
  - rewrite Forall_forall in Hy |- *. intros z Hz. unfold closer. rewrite !Hk by set_solver. by apply Hy.
Qed.

Lemma without_ok c id r : graph_ok none c → vc_vectors c !! id = Some r →
  let c2 := without c id (vr_neighbors r) in
  (∀ k, tidy none none k c2) ∧ map_Forall (record_ok c2) (vc_vectors c2) ∧ same_params c c2
  ∧ contents c2 = delete id (contents c) ∧ vc_entry c2 = vc_entry c
  ∧ canonical_entry (vc_vectors c2) = canonical_entry (delete id (vc_vectors c)).
Proof.
  intros [Hentry Hrec Htidy] Hid. cbv zeta. unfold without, unlink.
  destruct (unlink_spec id (enumerate (vr_neighbors r)) c) as [F Hs]. cbv zeta in F, Hs.
  set (c1 := foldl _ c _) in *. set (c2 := with_records c1 _).
  assert (∀ y k, slot c2 y k = if decide (y = id) then None else retain_not id <$> slot c y k) as Hs2.
  { intros y k. unfold slot at 1. cbn [c2 with_records vc_vectors]. case_decide as Hy.
    - subst y. by rewrite lookup_delete_eq.
    - rewrite lookup_delete_ne by done. fold (slot c1 y k). rewrite Hs. destruct (existsb _ _) eqn:E; [done|].
      destruct (slot c y k) as [ly|] eqn:Ely; [|done]. cbn. f_equal. symmetry. apply retain_absent. intros Hin.
      destruct (lk_mutual _ _ _ _ _ _ (Htidy k y ly Ely) id Hin) as (lid&Hlid&Hy').
      rewrite existsb_elem_false in E. unfold slot in Hlid. rewrite Hid in Hlid. cbn in Hlid.
      specialize (E (k, lid) (proj2 (enumerate_elem _ _ _) Hlid)). cbn [fst snd] in E.
      rewrite Nat.eqb_refl, (proj2 (contains_spec lid y) Hy') in E. done. }
  assert (∀ y, y ≠ id → stored c2 y = stored c y) as Hst.
  { intros y Hy. unfold stored at 1. cbn [c2 with_records vc_vectors vc_storage]. rewrite lookup_delete_ne by done.
    change (stored c1 y = stored c y). by apply frame_stored. }
  assert (∀ x y, x ≠ id → y ≠ id → key_of c2 x y = key_of c x y) as Hkey.
  { intros x y Hx Hy. unfold key_of, distance_to. rewrite !Hst by done.
    by rewrite (fr_metric _ _ F : vc_metric c2 = vc_metric c). }
  split; [|split; [|split; [|split; [|split]]]].
  - intros k y l Hl. rewrite Hs2 in Hl. case_decide as Hy; [done|]. destruct (slot c y k) as [ly|] eqn:Ely; [|done].
    injection Hl as <-. destruct (Htidy k y ly Ely) as [H1 H2 H3 [[]|H4] [[]|H5]]. split.
    + by apply retain_NoDup.
    + rewrite retain_elem. tauto.
    + intros z [Hz Hzi]%retain_elem. destruct (H3 z Hz) as (lz&Hlz&Hin). exists (retain_not id lz).
      rewrite Hs2, decide_False, Hlz by done. split; [done|]. by apply retain_elem.
    + right. rewrite (frame_max _ _ _ F : max_of c2 k = max_of c k). pose proof (retain_length_le id ly). lia.
    + right. eapply (ordered_same c); [|eapply sorted_sublist; [apply filter_sublist|done]].
      intros z [_ Hz]%retain_elem. by apply Hkey.
  - pose proof (frame_records _ _ F Hrec) as Hr1. intros y q Hq. cbn [c2 with_records vc_vectors] in Hq.
    apply lookup_delete_Some in Hq as [_ Hq]. exact (Hr1 y q Hq).
  - exact (frame_params _ _ F).
  - apply map_eq. intros i. rewrite <-(frame_contents _ _ F). unfold contents. cbn [c2 with_records vc_vectors].
    by rewrite fmap_delete.
  - apply F.
  - apply canonical_levels. intros i. cbn [c2 with_records vc_vectors]. destruct (decide (i = id)) as [->|Hi].
    + rewrite !lookup_delete_eq. constructor.
    + rewrite !lookup_delete_ne by done. by apply frame_levels.
Qed.

Lemma repairs_ok : ∀ (lists : list (nat * list string)) c, (∀ k, tidy none none k c) → readable c →
  ∃ c', for_fold (fun c '(layer, nids) => repair_layer c nids layer) c lists = Ok c' ∧ frame c c'
    ∧ ∀ k, tidy none none k c'.
Proof.
  induction lists as [|[layer nids] lists IH]; intros c Ht Hr; cbn [for_fold]; [by exists c|].
  destruct (repair_layer_ok layer c nids (Ht layer) Hr) as (c1&He&Hn&Ht1). rewrite He. cbn [result_bind].
  destruct (IH c1) as (c2&He2&F2&Ht2).
  - intros k. destruct (decide (k = layer)) as [->|Hk]; [done|]. by eapply near_tidy.
  - by eapply frame_readable; [apply Hn|].
  - exists c2. split; [done|]. split; [|done]. etransitivity; [apply Hn|done].
Qed.

Lemma remove_node_ok c id : graph_ok none c → is_Some (vc_vectors c !! id) →
  ∃ c', remove_node c id = Ok c' ∧ graph_ok none c' ∧ same_params c c' ∧ contents c' = delete id (contents c).
Proof.
  intros Hg [r Hid]. pose proof (without_ok c id r Hg Hid) as Hw. cbv zeta in Hw. unfold remove_node. rewrite Hid.
  change (with_records (unlink c id (vr_neighbors r)) (delete id (vc_vectors (unlink c id (vr_neighbors r)))))
    with (without c id (vr_neighbors r)).
  set (c2 := without c id (vr_neighbors r)) in *. destruct Hw as (Ht&Hrec&Hp&Hcon&Hent&Hcan).
  destruct (repairs_ok (enumerate (vr_neighbors r)) c2 Ht (records_readable _ Hrec)) as (c3&He&F&Ht3).
  rewrite He. cbn [result_bind]. eexists. split; [reflexivity|].
  assert (map_Forall (record_ok c3) (vc_vectors c3)) as Hrec3 by (by eapply frame_records).
  assert (canonical_entry (vc_vectors c3) = canonical_entry (delete id (vc_vectors c))) as Hcan3.
  { by rewrite (frame_canonical _ _ F). }
  assert (same_params c c3) as Hp3 by (eapply same_params_trans; [exact Hp|by apply frame_params]).
  assert (contents c3 = delete id (contents c)) as Hcon3 by (by rewrite (frame_contents _ _ F)).
  case_bool_decide as Hen.
  - split; [split; [done|exact Hrec3|]|done]. intros k x l Hl. destruct (Ht3 k x l Hl). by split.
  - split; [|done]. split; [|exact Hrec3|exact Ht3].
    rewrite Hcan3, (fr_entry _ _ F), Hent, (go_entry _ _ Hg).
    destruct (canonical_entry (vc_vectors c)) as [e|] eqn:Ee.
    + symmetry. apply canonical_entry_delete; [done|]. intros ->. apply Hen. rewrite (fr_entry _ _ F), Hent, (go_entry _ _ Hg). done.
    + apply canonical_none in Ee. by rewrite Ee, lookup_empty in Hid.
Qed.
End Graph.

(** ** Insertion *)

Section Insert.
Context `{Engine}.
Implicit Types (c : VectorCollection) (x y z id : string) (layer k n : nat) (eps : list string).

Abbreviation none := (fun _ : string => False).

Definition with_new c id (b : bytes) (metadata : option Value) : VectorCollection :=
  with_records c (<[id := new_record b metadata (vector_level id (vc_m c))]> (vc_vectors c)).

Lemma slot_with_new c id b md y k : slot (with_new c id b md) y k
  = if decide (y = id) then (if decide (k ≤ N.to_nat (vector_level id (vc_m c))) then Some [] else None) else slot c y k.
Proof.
  unfold slot, with_new. cbn [with_records vc_vectors]. case_decide as Hy.
  - subst y. rewrite lookup_insert_eq. cbn. case_decide as Hk.
    + apply lookup_replicate. split; [done|lia].
    + apply lookup_ge_None. rewrite length_replicate. lia.
  - by rewrite lookup_insert_ne.
Qed.

Lemma with_new_ok c id b md : graph_ok none c → vc_vectors c !! id = None →
  check_vector_id id = Ok tt → check_stored (vc_storage c) (vc_dim c) b = Ok tt →
  let c1 := with_new c id b md in (∀ k, tidy none none k c1) ∧ map_Forall (record_ok c1) (vc_vectors c1).
Proof.
  intros [Hentry Hrec Htidy] Hid Hck Hst c1. split.
  - intros k y l Hl. unfold c1 in Hl. rewrite slot_with_new in Hl. case_decide as Hy.
    + case_decide; [|done]. injection Hl as <-. split; [constructor|set_solver|set_solver|right; cbn; lia|right; constructor].
    + destruct (Htidy k y l Hl) as [H1 H2 H3 H4 H5].
      assert (∀ z, z ∈ l → z ≠ id) as Hz.
      { intros z Hz ->. destruct (H3 id Hz) as (lz&Hlz&_). unfold slot in Hlz. by rewrite Hid in Hlz. }
      split; try done.
      * intros z Hin. destruct (H3 z Hin) as (lz&Hlz&?). exists lz. unfold c1. rewrite slot_with_new, decide_False by auto. done.
      * destruct H5 as [[]|H5]. right. eapply (ordered_same c); [|exact H5]. intros z Hin.
        assert (∀ w, w ≠ id → stored c1 w = stored c w) as Hw.
        { intros w Hw. unfold stored, c1, with_new. cbn [with_records vc_vectors vc_storage]. by rewrite lookup_insert_ne. }
        unfold key_of, distance_to. rewrite !Hw by auto. done.
  - intros y r Hy. unfold c1, with_new in Hy. cbn [with_records vc_vectors] in Hy.
    apply lookup_insert_Some in Hy as [[<- <-]|[_ Hy]]; [|exact (Hrec y r Hy)].
    split; [done|]. split; [done|]. split; [done|]. cbn. apply length_replicate.
Qed.

Lemma foldl_push_fst id layer l : ∀ c (T : gset string),
  foldl (fun c nid => match slot c nid layer with
                      | Some l => if contains l id then c else with_slot c nid layer (fun l => l ++ [id])
                      | None => c
                      end) c l = (foldl (push_link id layer) (c, T) l).1.
Proof.
  induction l as [|y l IH]; intros c T; [done|]. cbn [foldl push_link]. destruct (slot c y layer) as [ly|]; [|apply IH].
  destruct (contains ly id); apply IH.
Qed.

Lemma link_layer_ok c id query eps layer : tidy none none layer c → readable c → slot c id layer = Some [] →
  (∀ y, y ∈ eps → is_Some (slot c y layer)) →
  ∃ c' eps', link_layer id query (c, eps) layer = Ok (c', eps') ∧ near layer c c' ∧ tidy none none layer c'
    ∧ (∀ y, y ∈ eps' → is_Some (slot c y layer)).
Proof.
  intros Ht Hr Hid Heps. unfold link_layer.
  destruct (search_layer_ok _ _ c query eps (vc_ef_construction c) layer Ht Hr Heps) as (found&->&Hnd&_&Hon). cbn [result_bind].
  set (others := List.filter _ (map snd found)). fold (max_of c layer). set (selected := take (max_of c layer) others).
  assert (∀ y, y ∈ others → y ≠ id ∧ is_Some (slot c y layer)) as Hoth.
  { intros y [Hy Hne]%filter_elem. apply negb_true_iff, bool_decide_eq_false in Hne. auto. }
  assert (∀ y, y ∈ selected → y ∈ others) as Hsel by (intros y Hy; apply elem_of_take in Hy as (i&Hi&_); by eapply list_elem_of_lookup_2).
  assert (NoDup selected) as Hns.
  { assert (NoDup others) as Hno by (by apply NoDup_filter_bool). unfold selected.
    rewrite <-(take_drop (max_of c layer) others) in Hno. by apply NoDup_app in Hno as (?&_). }
  assert (id ∉ selected) as Hids by (intros Hy; by apply Hsel, Hoth in Hy as [? _]).
  set (c1 := with_slot c id layer (λ _, selected)). rewrite (foldl_push_fst id layer selected c1 ∅).
  destruct (foldl (push_link id layer) (c1, ∅) selected) as [c2 T] eqn:Ef. cbn [fst].
  destruct (foldl_push _ _ _ _ _ _ _ Ef) as (Hn2&Hs2&_&_&_).
  assert (near layer c c2) as Hn by (etransitivity; [apply with_slot_near|exact Hn2]).
  pose proof (nr_frame _ _ _ Hn) as F.
  assert (tidy (.∈ selected) (fun y => y ∈ selected ∨ y = id) layer c2) as Ht2.
  { eapply (relist _ _ _ _ _ c c2 id [] selected Ht Hid).
    - split; [exact Hn| |].
      + rewrite Hs2, (proj2 (contains_false _ _) Hids). unfold c1. by rewrite slot_with_slot_same, Hid.
      + intros y Hy. rewrite Hs2. unfold c1. rewrite slot_with_slot_ne by done. destruct (contains selected y) eqn:E.
        * unfold adjust. rewrite E. done.
        * apply contains_false in E. symmetry. eapply adjust_keep; [exact Ht|exact Hid|done|]. set_solver.
    - done.
    - done.
    - intros y Hy. by apply Hoth, Hsel.
    - right. unfold selected. rewrite length_take. lia.
    - left. by right.
    - by intros ? ? [].
    - by intros ? ? [].
    - intros y ly Hy _ _. split; [by left|by left]. }
  destruct (prunes_ok layer selected c2 _ _ Ht2) as (c3&->&Hn3&Ht3).
  { by eapply frame_readable. }
  { intros y Hy. apply (frame_slot _ _ _ _ F). by apply Hoth, Hsel. }
  cbn [result_bind]. rewrite (ensure_reciprocal_id _ _ _ _ _ Ht3).
  pose proof (nr_frame _ _ _ Hn3) as F3.
  assert (is_Some (slot c3 id layer)) as [l3 Hl3].
  { apply (frame_slot _ _ _ _ F3), (frame_slot _ _ _ _ F). by exists []. }
  destruct (sort_layer_ok _ _ layer c3 id l3 Ht3) as (c4&->&Hn4&Ht4&_&_); [|done|].
  { eapply frame_readable; [exact F3|]. by eapply frame_readable. }
  cbn [result_bind]. eexists _, _. split; [reflexivity|].
  split; [etransitivity; [exact Hn|]; by etransitivity|]. split.
  - eapply tidy_weaken; [exact Ht4|..]; unfold except; cbv beta; tauto.
  - intros y Hy. case_bool_decide; [by apply Heps|by apply Hoth].
Qed.

Lemma rev_seq_S n : rev (seq 0 (S n)) = n :: rev (seq 0 n).
Proof. rewrite seq_S, rev_app_distr. done. Qed.

(** The layers from [n - 1] down to [0]. *)
Lemma links_ok id query : ∀ n c eps, (∀ k, tidy none none k c) → readable c →
  (∀ k, k < n → slot c id k = Some []) → (∀ y k, y ∈ eps → k < n → is_Some (slot c y k)) →
  ∃ c' eps', for_fold (link_layer id query) (c, eps) (rev (seq 0 n)) = Ok (c', eps') ∧ frame c c'
    ∧ ∀ k, tidy none none k c'.
Proof.
  induction n as [|n IH]; intros c eps Ht Hr Hid Heps.
  { cbn. by exists c, eps. }
  rewrite rev_seq_S. cbn [for_fold].
  destruct (link_layer_ok c id query eps n (Ht n) Hr (Hid n ltac:(lia))) as (c1&eps1&->&Hn&Ht1&Heps1).
  { intros y Hy. apply Heps; [done|lia]. }
  cbn [result_bind]. pose proof (nr_frame _ _ _ Hn) as F. destruct (IH c1 eps1) as (c2&eps2&->&F2&Ht2).
  - intros k. destruct (decide (k = n)) as [->|Hk]; [done|]. by eapply near_tidy.
  - by eapply frame_readable.
  - intros k Hk. rewrite (nr_slots _ _ _ Hn) by lia. apply Hid. lia.
  - intros y k Hy Hk. apply (frame_slot _ _ _ _ F). apply (slot_down c y n); [by apply Heps1|lia].
  - exists c2, eps2. split; [done|]. split; [by etransitivity|done].
Qed.

Lemma descend_ok (P Q : string → Prop) c query bottom : (∀ k, tidy P Q k c) → readable c →
  ∀ n eps, (∀ y, y ∈ eps → is_Some (slot c y (bottom + n))) →
  ∃ eps', descend c query eps bottom (bottom + n) = Ok eps' ∧ (∀ y, y ∈ eps' → is_Some (slot c y bottom)).
Proof.
  intros Ht Hr. unfold descend. induction n as [|n IH]; intros eps Heps.
  { replace (bottom + 0 - bottom) with 0 by lia. cbn. exists eps. split; [done|]. intros y Hy.
    apply (slot_down c y (bottom + 0)); [by apply Heps|lia]. }
  replace (bottom + S n - bottom) with (S n) by lia. rewrite seq_S, rev_app_distr. cbn [app rev for_fold].
  destruct (search_layer_ok _ _ c query eps 1 (S bottom + n) (Ht _) Hr) as (found&->&_&_&Hon).
  { intros y Hy. replace (S bottom + n) with (bottom + S n) by lia. by apply Heps. }
  cbn [result_bind]. replace (bottom + n - bottom) with n in IH by lia. apply IH.
  intros y Hy. destruct found as [|rank found].
  - apply (slot_down c y (bottom + S n)); [by apply Heps|lia].
  - apply list_elem_of_singleton in Hy as ->. apply (slot_down c _ (S bottom + n)); [apply Hon; cbn; set_solver|lia].
Qed.

Lemma admit_entry_ok c c0 id level : vc_entry c = canonical_entry (vc_vectors c0) → vc_vectors c0 ≠ ∅ → vc_vectors c0 !! id = None →
  (∃ r, vr_level r = level ∧ map_Forall2 (fun _ r r' => vr_level r' = vr_level r) (<[id := r]> (vc_vectors c0)) (vc_vectors c)) →
  ∃ e, admit_entry c id level = with_entry c e ∧ e = canonical_entry (vc_vectors c).
Proof.
  intros He Hne Hid (r&<-&Hlev).
  destruct (canonical_entry (vc_vectors c0)) as [e|] eqn:Ee; [|by apply canonical_none in Ee].
  destruct (canonical_entry_insert _ _ id r Ee Hid) as (re&Hre&Hcan). assert (id ≠ e) as Hie by congruence.
  pose proof (Hlev e) as Hle. rewrite lookup_insert_ne, Hre in Hle by done. inversion Hle as [? re' Hl E1 E2|]; subst.
  unfold admit_entry. rewrite He. cbn [mbind option_bind]. rewrite <-E2. cbn [mbind option_bind]. rewrite Hl.
  pose proof (canonical_levels _ _ Hlev) as Hcl. rewrite Hcan in Hcl.
  destruct (_ || _); eexists; (split; [|symmetry; exact Hcl]); [done|]. by destruct c; cbn in *; subst.
Qed.
End Insert.

(** ** The operations *)

Section Operations.
Context `{Engine}.
Implicit Types (c : VectorCollection) (x y z id : string) (k : nat).

Abbreviation none := (fun _ : string => False).

Lemma graph_with_entry S c e : (∀ k, tidy none S k c) → map_Forall (record_ok c) (vc_vectors c) →
  e = canonical_entry (vc_vectors c) → graph_ok S (with_entry c e).
Proof.
  intros Ht Hr He. split; [done|exact Hr|]. intros k x l Hl. destruct (Ht k x l Hl). by split.
Qed.

Lemma contents_none c id : contents c !! id = None → vc_vectors c !! id = None.
Proof. unfold contents. rewrite lookup_fmap. by destruct (vc_vectors c !! id). Qed.

(** Without the old version of [id], if there is one. *)
Lemma cleared_ok c id : graph_ok none c →
  ∃ c0, (if is_some (vc_vectors c !! id) then remove_node c id else Ok c) = Ok c0 ∧ graph_ok none c0
    ∧ same_params c c0 ∧ contents c0 = delete id (contents c) ∧ vc_vectors c0 !! id = None.
Proof.
  intros Hg. destruct (vc_vectors c !! id) as [r|] eqn:E; cbn [is_some].
  - destruct (remove_node_ok c id Hg) as (c0&He&Hg0&Hp&Hc); [by rewrite E|]. exists c0. split_and!; try done.
    apply contents_none. by rewrite Hc, lookup_delete_eq.
  - exists c. split_and!; try done. rewrite delete_id; [done|]. unfold contents. by rewrite lookup_fmap, E.
Qed.

(** Insertion where [id] is not stored. *)
Lemma insert_ok c id b md : graph_ok none c → vc_vectors c !! id = None →
  check_vector_id id = Ok tt → check_stored (vc_storage c) (vc_dim c) b = Ok tt → vc_vectors c ≠ ∅ → ∀ query,
  ∃ eps c2 eps2 c3, let level := vector_level id (vc_m c) in
    (∃ e, live_entry c = Some e
      ∧ descend c query [e] (N.to_nat level) (N.to_nat (default 0%N (vr_level <$> vc_vectors c !! e))) = Ok eps
      ∧ for_fold (link_layer id query) (with_new c id b md, eps)
          (rev (seq 0 (S (N.to_nat (N.min level (default 0%N (vr_level <$> vc_vectors c !! e))))))) = Ok (c2, eps2))
    ∧ admit_entry c2 id level = c3 ∧ graph_ok none c3 ∧ same_params c c3 ∧ contents c3 = <[id := (b, md)]> (contents c).
Proof.
  intros Hg Hid Hck Hst Hne query. cbv zeta. set (level := vector_level id (vc_m c)).
  pose proof (go_records _ _ Hg) as Hrec. pose proof (records_readable _ Hrec) as Hr.
  pose proof (go_entry _ _ Hg) as Hent.
  destruct (canonical_entry (vc_vectors c)) as [e|] eqn:Ecan; [|by apply canonical_none in Ecan].
  pose proof (proj1 (canonical_spec _ _) Ecan) as (re&Hre&_).
  assert (live_entry c = Some e) as Hlive by (unfold live_entry; rewrite Hent; cbn; by rewrite Hre).
  assert (default 0%N (vr_level <$> vc_vectors c !! e) = vr_level re) as Hlevel by (by rewrite Hre).
  rewrite <-Ecan in Hent.
  assert (∀ k, k ≤ N.to_nat (vr_level re) → is_Some (slot c e k)) as He by (intros k; by apply record_slot).
  assert (∃ eps, descend c query [e] (N.to_nat level) (N.to_nat (vr_level re)) = Ok eps
    ∧ ∀ y, y ∈ eps → is_Some (slot c y (N.to_nat (N.min level (vr_level re))))) as (eps&Hdesc&Heps).
  { destruct (N.leb_spec level (vr_level re)) as [Hle|Hlt].
    - destruct (descend_ok _ _ c query (N.to_nat level) (go_layers _ _ Hg) Hr (N.to_nat (vr_level re) - N.to_nat level) [e])
        as (eps&Hd&Heps).
      { intros y ->%list_elem_of_singleton. apply He. lia. }
      exists eps. replace (N.to_nat level + (N.to_nat (vr_level re) - N.to_nat level)) with (N.to_nat (vr_level re)) in Hd by lia.
      split; [done|]. intros y Hy. rewrite N.min_l by done. by apply Heps.
    - exists [e]. unfold descend. replace (N.to_nat (vr_level re) - N.to_nat level) with 0 by lia. cbn.
      split; [done|]. intros y ->%list_elem_of_singleton. apply He. lia. }
  destruct (with_new_ok c id b md Hg Hid Hck Hst) as [Ht1 Hr1]. set (c1 := with_new c id b md) in *.
  set (top := N.to_nat (N.min level (vr_level re))) in *.
  destruct (links_ok id query (S top) c1 eps Ht1 (records_readable _ Hr1)) as (c2&eps2&Hlinks&F&Ht2).
  { intros k Hk. unfold c1. rewrite slot_with_new, decide_True by done. rewrite decide_True; [done|]. fold level. lia. }
  { intros y k Hy Hk. specialize (Heps y Hy). unfold c1. rewrite slot_with_new.
    rewrite decide_False by (intros ->; apply slot_live in Heps; rewrite Hid in Heps; by destruct Heps).
    apply (slot_down c y top); [done|lia]. }
  assert (vc_entry c2 = canonical_entry (vc_vectors c)) as He2 by (by rewrite (fr_entry _ _ F)).
  destruct (admit_entry_ok c2 c id level He2 Hne Hid) as (e'&Hadm&He').
  { exists (new_record b md level). split; [done|]. exact (frame_levels _ _ F). }
  exists eps, c2, eps2, (with_entry c2 e'). split.
  { exists e. rewrite Hlevel. done. }
  split; [exact Hadm|]. split; [apply graph_with_entry; [exact Ht2|by eapply frame_records|done]|].
  split; [exact (frame_params _ _ F)|].
  change (contents (with_entry c2 e')) with (contents c2). rewrite (frame_contents _ _ F). unfold c1, contents, with_new.
  cbn [with_records vc_vectors]. by rewrite fmap_insert.
Qed.

Lemma upsert_graph c id b md : graph_ok none c →
  check_vector_id id = Ok tt → check_stored (vc_storage c) (vc_dim c) b = Ok tt →
  ∃ c', vc_upsert c id b md = Ok c' ∧ graph_ok none c' ∧ same_params c c' ∧ contents c' = <[id := (b, md)]> (contents c).
Proof.
  intros Hg Hck Hst. unfold vc_upsert. rewrite Hck, Hst. cbn [result_bind].
  destruct (cleared_ok c id Hg) as (c0&He&Hg0&Hp&Hcon&Hid). rewrite He. cbn [result_bind].
  assert (check_stored (vc_storage c0) (vc_dim c0) b = Ok tt) as Hst0.
  { destruct Hp as (Hd&Hs&_). by rewrite Hd, Hs. }
  assert (same_params c c0 ∧ <[id := (b, md)]> (contents c0) = <[id := (b, md)]> (contents c)) as [Hp0 Hcon0].
  { split; [done|]. by rewrite Hcon, insert_delete_eq. }
  destruct (dequantize_ok _ _ _ Hst0) as [query ->]. cbn [result_bind]. case_bool_decide as Hempty.
  - eexists. split; [reflexivity|]. destruct (with_new_ok c0 id b md Hg0 Hid Hck Hst0) as [Ht1 Hr1].
    split; [|split; [exact Hp0|]].
    + apply (graph_with_entry none (with_new c0 id b md)); [done|done|]. symmetry. apply canonical_spec.
      eexists. split; [by apply lookup_insert_eq|]. intros e' r'. unfold with_new. cbn [with_records vc_vectors]. rewrite Hempty.
      intros [[<- <-]|[_ ?]]%lookup_insert_Some; [|done]. by destruct (entry_le_total (id, new_record b md (vector_level id (vc_m c0)))
        (id, new_record b md (vector_level id (vc_m c0)))).
    + rewrite <-Hcon0. unfold contents. cbn [with_entry with_records vc_vectors]. by rewrite fmap_insert.
  - destruct (insert_ok c0 id b md Hg0 Hid Hck Hst0 Hempty query) as (eps&c2&eps2&c3&(e&Hlive&Hd&Hl)&Hadm&Hg3&Hp3&Hc3).
    rewrite Hlive. cbn [ok_or result_bind]. rewrite Hd. cbn [result_bind].
    change (with_records c0 _) with (with_new c0 id b md). rewrite Hl. cbn [result_bind]. rewrite Hadm.
    exists c3. split; [done|]. split; [done|]. split; [by eapply same_params_trans|]. by rewrite Hc3.
Qed.

Lemma delete_graph c id : graph_ok none c → check_vector_id id = Ok tt →
  ∃ c', vc_delete_id c id = Ok c' ∧ graph_ok none c' ∧ same_params c c' ∧ contents c' = delete id (contents c).
Proof.
  intros Hg Hck. unfold vc_delete_id. rewrite Hck. cbn [result_bind].
  destruct (cleared_ok c id Hg) as (c0&He&Hg0&Hp&Hcon&_). exists c0. done.
Qed.
End Operations.
