(* ===== verification/FlsValid.v ===== *)
(** * The graph checks decide the graph ([vector.rs], lines 1379-1562)

    [validate_graph], run on every collection a snapshot decodes, accepts
    exactly the collections that are a graph; [validate_graph_full], run before
    a snapshot is written, those whose lists are in order as well. With
    [FlsIndex] this gives the theorems on [upsert] and [delete_id]. *)

From Stdlib Require Import SpecFloat.
From S2P Require Import Prelude RustStr Ledger FlsBytes FlsFloat FlsModel FlsVector FlsGraph FlsIndex.

(** ** The lists as indices *)

Section Links.
Context (ids : list string) (levels : list N) (Hids : NoDup ids).

(** What the loop over one list accepts, and what it returns. *)
Definition links_of (node layer : nat) (seen : list nat) (nids : list string) (links : list nat) : Prop :=
  Forall2 (fun nid i => ids !! i = Some nid) nids links ∧ NoDup links
  ∧ Forall (fun i => i ≠ node ∧ (i ∉ seen) ∧ (N.of_nat layer ≤ nth i levels 0)%N) links.

Lemma index_some nid i : ids !! i = Some nid → list_find (fun x => x = nid) ids = Some (i, nid).
Proof.
  intros Hi. apply list_find_Some. split_and!; [done..|]. intros j y Hj Hlt ->.
  pose proof (NoDup_lookup _ _ _ _ Hids Hi Hj). lia.
Qed.

Lemma check_links_spec node layer id nids : ∀ seen links,
  check_links ids levels node layer id seen nids = Ok links ↔ links_of node layer seen nids links.
Proof.
  unfold links_of. induction nids as [|nid nids IH]; intros seen links; cbn [check_links].
  { split; [intros [= <-]; by repeat constructor|]. intros (H1%Forall2_nil_inv_l&_). by subst. }
  destruct (list_find (fun x => x = nid) ids) as [[i y]|] eqn:Ef.
  2: { split; [done|]. intros ((i&links'&Hi&_&->)%Forall2_cons_inv_l&_).
       rewrite list_find_None, Forall_forall in Ef. exfalso. apply (Ef nid); [|done]. by eapply list_elem_of_lookup_2. }
  apply list_find_Some in Ef as (Hi&->&_).
  split.
  - case_bool_decide as Hn; [done|]. destruct (contains seen i) eqn:Es; [done|]. apply contains_false in Es.
    destruct (N.ltb_spec (nth i levels 0%N) (N.of_nat layer)) as [|Hl]; [done|].
    destruct (check_links _ _ _ _ _ (i :: seen) nids) as [others|] eqn:Eo; cbn [result_bind]; [|done]. intros [= <-].
    apply IH in Eo as (H1&H2&H3). split_and!.
    + by constructor.
    + constructor; [|done]. intros Hin. rewrite Forall_forall in H3. destruct (H3 i Hin) as (_&Hs&_). set_solver.
    + constructor; [done|]. eapply Forall_impl; [exact H3|]. cbn. set_solver.
  - intros ((j&links'&Hj&H1&->)%Forall2_cons_inv_l&[Hjn H2]%NoDup_cons&[(Hn&Hs&Hl) H3]%Forall_cons).
    assert (j = i) as -> by exact (NoDup_lookup _ _ _ _ Hids Hj Hi).
    rewrite bool_decide_false by done. rewrite (proj2 (contains_false seen i) Hs), (proj2 (N.ltb_ge _ _) Hl).
    assert (check_links ids levels node layer id (i :: seen) nids = Ok links') as ->; [|done].
    apply IH. split_and!; [done|done|]. rewrite Forall_forall in H3 |- *. intros k Hk. destruct (H3 k Hk) as (?&?&?).
    split_and!; [done| |done]. set_solver.
Qed.

Section Layers.
Context `{Engine} (c : VectorCollection).

Definition layers_of (node layer : nat) (lists : list (list string)) (out : list (list nat)) : Prop :=
  Forall2 (fun _ _ => True) lists out ∧ ∀ k nids links, lists !! k = Some nids → out !! k = Some links →
    (len nids ≤ max_links (vc_m c) (layer + k))%N ∧ links_of node (layer + k) [] nids links.

Lemma check_layers_spec node id lists : ∀ layer out,
  check_layers c ids levels node id layer lists = Ok out ↔ layers_of node layer lists out.
Proof.
  unfold layers_of. induction lists as [|nids lists IH]; intros layer out; cbn [check_layers].
  { split; [intros [= <-]; split; [constructor|done]|]. intros [H1%Forall2_nil_inv_l _]. by subst. }
  destruct (N.ltb_spec (max_links (vc_m c) layer) (len nids)) as [Hl|Hl].
  { split; [done|]. intros [(l0&out'&_&_&->)%Forall2_cons_inv_l Hall]. destruct (Hall 0 nids l0 eq_refl eq_refl) as [Hle _].
    rewrite Nat.add_0_r in Hle. lia. }
  split.
  - destruct (check_links _ _ _ _ _ _ nids) as [links|] eqn:E1; cbn [result_bind]; [|done].
    destruct (check_layers _ _ _ _ _ (S layer) lists) as [others|] eqn:E2; cbn [result_bind]; [|done]. intros [= <-].
    apply IH in E2 as [H1 H2]. apply check_links_spec in E1. split; [by constructor|].
    intros [|k] n0 l0; cbn; [|rewrite Nat.add_succ_r; apply H2]. intros [= <-] [= <-]. by rewrite Nat.add_0_r.
  - intros [(links&out'&_&H1&->)%Forall2_cons_inv_l Hall].
    destruct (Hall 0 nids links eq_refl eq_refl) as [_ Hlk]. rewrite Nat.add_0_r in Hlk. apply check_links_spec with (id := id) in Hlk as ->.
    cbn [result_bind]. assert (check_layers c ids levels node id (S layer) lists = Ok out') as ->; [|done].
    apply IH. split; [done|]. intros k n0 l0 Hn Hl0. rewrite Nat.add_succ_l, <-Nat.add_succ_r. by apply (Hall (S k)).
Qed.

Definition nodes_of (node : nat) (vectors : list (string * VectorRecord)) (graph : list (list (list nat))) : Prop :=
  Forall2 (fun _ _ => True) vectors graph ∧ ∀ k id r layers, vectors !! k = Some (id, r) → graph !! k = Some layers →
    record_ok c id r ∧ layers_of (node + k) 0 (vr_neighbors r) layers.

Lemma as_corrupt_ok {A} (r : Result A StoreError) a : as_corrupt r = Ok a ↔ r = Ok a.
Proof. unfold as_corrupt. by destruct r. Qed.

Lemma level_max id m : (vector_level id m ≤ MAX_LEVEL)%N.
Proof. unfold vector_level. cbv zeta. destruct (f64_mul _ _) as [|[]| |[] ? ?]; unfold MAX_LEVEL; lia. Qed.

Lemma check_nodes_spec vectors : ∀ node graph,
  check_nodes c ids levels node vectors = Ok graph ↔ nodes_of node vectors graph.
Proof.
  unfold nodes_of. induction vectors as [|[id r] vectors IH]; intros node graph; cbn [check_nodes].
  { split; [intros [= <-]; split; [constructor|done]|]. intros [H1%Forall2_nil_inv_l _]. by subst. }
  split.
  - destruct (as_corrupt (check_vector_id id)) as [[]|] eqn:E1; cbn [result_bind]; [|done].
    destruct (as_corrupt (check_stored _ _ _)) as [[]|] eqn:E2; cbn [result_bind]; [|done].
    apply (proj1 (as_corrupt_ok _ _)) in E1, E2.
    destruct (N.eqb_spec (vr_level r) (vector_level id (vc_m c))) as [E3|]; cbn [negb orb]; [|done].
    destruct (N.ltb_spec MAX_LEVEL (vr_level r)); [done|].
    destruct (N.eqb_spec (len (vr_neighbors r)) (vr_level r + 1)) as [E4|]; cbn [negb]; [|done].
    destruct (check_layers _ _ _ _ _ _ _) as [layers|] eqn:E5; cbn [result_bind]; [|done].
    destruct (check_nodes _ _ _ _ vectors) as [others|] eqn:E6; cbn [result_bind]; [|done]. intros [= <-].
    apply IH in E6 as [G1 G2]. apply check_layers_spec in E5. split; [by constructor|].
    intros [|k] i0 r0 l0; cbn; [|rewrite Nat.add_succ_r; apply G2]. intros [= <- <-] [= <-]. rewrite Nat.add_0_r.
    split; [|done]. unfold record_ok. unfold len in E4. split_and!; [exact E1|exact E2|exact E3|lia].
  - intros [(layers&out'&_&H1&->)%Forall2_cons_inv_l Hall].
    destruct (Hall 0 id r layers eq_refl eq_refl) as [(E1&E2&E3&E4) Hlay]. rewrite Nat.add_0_r in Hlay.
    apply as_corrupt_ok in E1 as ->. apply as_corrupt_ok in E2 as ->. cbn [result_bind].
    rewrite (proj2 (N.eqb_eq _ _) E3). cbn [negb orb]. rewrite (proj2 (N.ltb_ge MAX_LEVEL (vr_level r))) by (rewrite E3; apply level_max).
    rewrite (proj2 (N.eqb_eq _ _)) by (unfold len; lia). cbn [negb].
    apply check_layers_spec with (id := id) in Hlay as ->. cbn [result_bind].
    assert (check_nodes c ids levels (S node) vectors = Ok out') as ->; [|done].
    apply IH. split; [done|]. intros k i0 r0 l0 Hn Hl0. rewrite Nat.add_succ_l, <-Nat.add_succ_r. by apply (Hall (S k)).
Qed.
End Layers.
End Links.

(** ** The structural check *)

Section Structure.
Context `{Engine}.
Implicit Types (c : VectorCollection) (x y : string) (k i j : nat).

Abbreviation none := (fun _ : string => False).
Abbreviation any := (fun _ : string => True).
Abbreviation vectors c := (btree_iter (vc_vectors c)).
Abbreviation ids_of c := (map fst (btree_iter (vc_vectors c))).
Abbreviation levels_of c := (map (fun p => vr_level p.2) (btree_iter (vc_vectors c))).

Lemma ids_NoDup c : NoDup (ids_of c).
Proof.
  unfold btree_iter. rewrite (Permutation_map fst (sort_by_perm key_leb (map_to_list (vc_vectors c)))).
  apply NoDup_fst_map_to_list.
Qed.

Lemma ids_lookup c i x : ids_of c !! i = Some x ↔ ∃ r, vectors c !! i = Some (x, r) ∧ vc_vectors c !! x = Some r.
Proof.
  change (map fst (vectors c)) with (fst <$> vectors c). rewrite list_lookup_fmap_Some. split.
  - intros ([x0 r]&->&Hi). exists r. split; [done|]. apply btree_iter_elem. by eapply list_elem_of_lookup_2.
  - intros (r&Hi&_). by exists (x, r).
Qed.

Lemma vectors_lookup c x r : vc_vectors c !! x = Some r → ∃ i, vectors c !! i = Some (x, r) ∧ ids_of c !! i = Some x.
Proof.
  intros Hx. apply btree_iter_elem, list_elem_of_lookup in Hx as [i Hi]. exists i. split; [done|].
  change (map fst (vectors c)) with (fst <$> vectors c). by rewrite list_lookup_fmap, Hi.
Qed.

Lemma levels_lookup c i x r : vectors c !! i = Some (x, r) → nth i (levels_of c) 0%N = vr_level r.
Proof. intros Hi. apply (nth_lookup_Some _ _ _ _). change (((fun p => vr_level p.2) <$> vectors c) !! i = Some (vr_level r)). by rewrite list_lookup_fmap, Hi. Qed.

(** The last loop: every link of the index goes both ways. *)
Lemma reciprocal_spec ids graph : check_reciprocal ids graph = Ok tt ↔
  ∀ i k j, i < length ids → j ∈ graph_list graph i k → i ∈ graph_list graph j k.
Proof.
  unfold check_reciprocal. rewrite for_each_ok. split.
  - intros Hall i k j Hi Hj. specialize (Hall i (proj2 (elem_of_seq _ _ _) (conj (Nat.le_0_l _) Hi))).
    rewrite for_each_ok in Hall. assert (k < length (nth i graph [])) as Hk.
    { unfold graph_list in Hj. destruct (Nat.lt_ge_cases k (length (nth i graph []))); [done|].
      rewrite nth_overflow in Hj by done. by apply not_elem_of_nil in Hj. }
    specialize (Hall k (proj2 (elem_of_seq _ _ _) (conj (Nat.le_0_l _) Hk))). rewrite for_each_ok in Hall.
    specialize (Hall j Hj). destruct (contains _ i) eqn:E; [|done]. by apply contains_spec.
  - intros Hall i [_ Hi]%elem_of_seq. apply for_each_ok. intros k _. apply for_each_ok. intros j Hj.
    assert (contains (graph_list graph j k) i = true) as ->; [|done]. apply contains_spec. by apply Hall.
Qed.

Lemma pairs_elem (ids : list string) nids links y : Forall2 (fun nid i => ids !! i = Some nid) nids links →
  (y ∈ nids ↔ ∃ j, j ∈ links ∧ ids !! j = Some y).
Proof.
  induction 1 as [|nid i nids links Hi HF IH].
  - split; [by intros Hy%not_elem_of_nil|]. intros (j&Hj&_). by apply not_elem_of_nil in Hj.
  - rewrite elem_of_cons, IH. split.
    + intros [->|(j&?&?)]; [exists i|exists j]; (split; [|done]); [left|by right].
    + intros (j&[->|Hj]%elem_of_cons&Hy); [left; congruence|right; eauto].
Qed.

Lemma pairs_NoDup (ids : list string) nids links : NoDup ids →
  Forall2 (fun nid i => ids !! i = Some nid) nids links → (NoDup nids ↔ NoDup links).
Proof.
  intros Hids. induction 1 as [|nid i nids links Hi HF IH]; [split; constructor|]. rewrite !NoDup_cons, IH, (pairs_elem _ _ _ _ HF).
  split; intros [Hn ?]; (split; [|done]).
  - intros Hin. apply Hn. by exists i.
  - intros (j&Hj&Hy). apply Hn. by rewrite (NoDup_lookup _ _ _ _ Hids Hi Hy).
Qed.

Section Index.
Context (c : VectorCollection) (graph : list (list (list nat))).
Context (Hn : nodes_of (ids_of c) (levels_of c) c 0 (vectors c) graph).

(** A list of the collection and its list of indices. *)
Lemma index_list x k l i r : vectors c !! i = Some (x, r) → vc_vectors c !! x = Some r → slot c x k = Some l →
  links_of (ids_of c) (levels_of c) i k [] l (graph_list graph i k) ∧ (len l ≤ max_links (vc_m c) k)%N.
Proof.
  intros Hi Hx Hl. destruct Hn as [Hlen Hnodes]. pose proof (Forall2_lookup_l _ _ _ _ _ Hlen Hi) as (layers&Hg&_).
  destruct (Hnodes i x r layers Hi Hg) as [Hrec [Hlen2 Hlay]]. unfold slot in Hl. rewrite Hx in Hl. cbn in Hl.
  pose proof (Forall2_lookup_l _ _ _ _ _ Hlen2 Hl) as (links&Hlk&_). destruct (Hlay k l links Hl Hlk) as [Hb Hof].
  cbn [Nat.add] in *. unfold graph_list. rewrite (nth_lookup_Some _ _ _ _ Hg), (nth_lookup_Some _ _ _ _ Hlk). done.
Qed.

Lemma nodes_records : map_Forall (record_ok c) (vc_vectors c).
Proof.
  intros x r Hx. destruct (vectors_lookup c x r Hx) as (i&Hi&_). destruct Hn as [Hlen Hnodes].
  pose proof (Forall2_lookup_l _ _ _ _ _ Hlen Hi) as (layers&Hg&_). by destruct (Hnodes i x r layers Hi Hg).
Qed.

Lemma nodes_tidy : check_reciprocal (ids_of c) graph = Ok tt → ∀ k, tidy none any k c.
Proof.
  rewrite reciprocal_spec. intros Hrec k x l Hl. pose proof (ids_NoDup c) as Hids.
  destruct (slot_live c x k) as [r Hx]; [by rewrite Hl|]. destruct (vectors_lookup c x r Hx) as (i&Hi&Hidi).
  destruct (index_list x k l i r Hi Hx Hl) as [(HF&Hnd&Hok) Hb]. rewrite Forall_forall in Hok. split.
  - by apply (pairs_NoDup _ _ _ Hids HF).
  - intros Hin. apply (pairs_elem _ _ _ _ HF) in Hin as (j&Hj&Hjx). destruct (Hok j Hj) as [Hne _].
    apply Hne. exact (NoDup_lookup _ _ _ _ Hids Hjx Hidi).
  - intros y Hy. apply (pairs_elem _ _ _ _ HF) in Hy as (j&Hj&Hjy). destruct (Hok j Hj) as (_&_&Hlev).
    apply ids_lookup in Hjy as (ry&Hvj&Hvy). rewrite (levels_lookup _ _ _ _ Hvj) in Hlev.
    assert (is_Some (slot c y k)) as [ly Hly].
    { apply (record_slot c y ry k nodes_records Hvy). lia. }
    exists ly. split; [done|]. destruct (index_list y k ly j ry Hvj Hvy Hly) as [(HFy&_&_) _].
    apply (pairs_elem _ _ _ _ HFy). exists i. split; [|done]. apply Hrec; [|done]. by eapply lookup_lt_Some.
  - right. unfold max_of. unfold len in Hb. lia.
  - by left.
Qed.
End Index.

(** The index of a graph. *)
Definition index_in (ids : list string) (nid : string) : nat := default 0 (fst <$> list_find (fun x => x = nid) ids).

Definition index_graph c : list (list (list nat)) :=
  map (fun p => map (map (index_in (ids_of c))) (vr_neighbors p.2)) (vectors c).

Lemma index_in_lookup c y : is_Some (vc_vectors c !! y) → ids_of c !! index_in (ids_of c) y = Some y.
Proof.
  intros [r Hy]. destruct (vectors_lookup c y r Hy) as (i&_&Hi). unfold index_in.
  by rewrite (index_some _ (ids_NoDup c) y i Hi).
Qed.

Lemma index_pairs c l : (∀ y, y ∈ l → is_Some (vc_vectors c !! y)) →
  Forall2 (fun nid i => ids_of c !! i = Some nid) l (map (index_in (ids_of c)) l).
Proof.
  induction l as [|y l IH]; intros Hl; [constructor|]. constructor; [apply index_in_lookup, Hl; left|].
  apply IH. intros z Hz. apply Hl. by right.
Qed.

Lemma graph_list_index c i x r k l : vectors c !! i = Some (x, r) → vr_neighbors r !! k = Some l →
  graph_list (index_graph c) i k = map (index_in (ids_of c)) l.
Proof.
  intros Hi Hl. unfold graph_list, index_graph.
  set (f := fun p : string * VectorRecord => map (map (index_in (ids_of c))) (vr_neighbors p.2)).
  assert (map f (vectors c) !! i = Some (f (x, r))) as Hf.
  { change ((f <$> vectors c) !! i = Some (f (x, r))). by rewrite list_lookup_fmap, Hi. }
  rewrite (nth_lookup_Some _ _ _ _ Hf). unfold f. cbn [snd]. apply (nth_lookup_Some _ _ _ _).
  change ((map (index_in (ids_of c)) <$> vr_neighbors r) !! k = Some (map (index_in (ids_of c)) l)).
  by rewrite list_lookup_fmap, Hl.
Qed.

Lemma tidy_nodes S c : map_Forall (record_ok c) (vc_vectors c) → (∀ k, tidy none S k c) →
  nodes_of (ids_of c) (levels_of c) c 0 (vectors c) (index_graph c)
  ∧ check_reciprocal (ids_of c) (index_graph c) = Ok tt.
Proof.
  intros Hrec Ht. pose proof (ids_NoDup c) as Hids. split.
  - split; [apply Forall2_fmap_r, Forall_Forall2_diag, Forall_forall; done|].
    intros i x r layers Hi Hg. assert (vc_vectors c !! x = Some r) as Hx.
    { apply btree_iter_elem. by eapply list_elem_of_lookup_2. }
    assert (layers = map (map (index_in (ids_of c))) (vr_neighbors r)) as ->.
    { unfold index_graph in Hg. change (map ?f (vectors c)) with (f <$> vectors c) in Hg.
      rewrite list_lookup_fmap, Hi in Hg. by injection Hg as <-. }
    split; [by apply Hrec|]. split; [apply Forall2_fmap_r, Forall_Forall2_diag, Forall_forall; done|].
    intros k l links Hl Hlk. change (map ?f (vr_neighbors r)) with (f <$> vr_neighbors r) in Hlk.
    rewrite list_lookup_fmap, Hl in Hlk. injection Hlk as <-. cbn [Nat.add].
    assert (slot c x k = Some l) as Hs by (unfold slot; by rewrite Hx).
    destruct (Ht k x l Hs) as [Hnd Hself Hmut [[]|Hb] _]. split; [unfold len, max_of in *; lia|].
    assert (Forall2 (fun nid i => ids_of c !! i = Some nid) l (map (index_in (ids_of c)) l)) as HF.
    { apply index_pairs. intros y Hy. by eapply tidy_live; [apply Ht|exact Hs|]. }
    split; [done|]. split; [by apply (pairs_NoDup _ _ _ Hids HF)|]. apply Forall_forall.
    intros j (y&->&Hy)%list_elem_of_fmap. destruct (Hmut y Hy) as (ly&Hly&_).
    destruct (slot_live c y k) as [ry Hry]; [by rewrite Hly|].
    pose proof (index_in_lookup c y (ex_intro _ ry Hry)) as Hj. split_and!.
    + intros Heq. rewrite Heq in Hj. apply ids_lookup in Hj as (r'&Hr'&_). rewrite Hi in Hr'. injection Hr' as -> _. done.
    + by intros ?%not_elem_of_nil.
    + apply ids_lookup in Hj as (r'&Hr'&Hry'). rewrite (levels_lookup _ _ _ _ Hr').
      assert (k ≤ N.to_nat (vr_level r')) as Hk; [|lia]. apply (record_slot c y r' k Hrec Hry'). by exists ly.
  - apply reciprocal_spec. intros i k j Hi Hj. apply lookup_lt_is_Some in Hi as [x Hx].
    apply ids_lookup in Hx as (r&Hvi&Hx).
    destruct (vr_neighbors r !! k) as [l|] eqn:El.
    2: { exfalso. unfold graph_list in Hj. rewrite nth_overflow in Hj; [by apply not_elem_of_nil in Hj|].
         apply lookup_ge_None in El. unfold index_graph.
         set (f := fun p : string * VectorRecord => map (map (index_in (ids_of c))) (vr_neighbors p.2)).
         assert (map f (vectors c) !! i = Some (f (x, r))) as Hf.
         { change ((f <$> vectors c) !! i = Some (f (x, r))). by rewrite list_lookup_fmap, Hvi. }
         rewrite (nth_lookup_Some _ _ _ _ Hf). unfold f. cbn [snd]. by rewrite length_map. }
    rewrite (graph_list_index c i x r k l Hvi El) in Hj. apply list_elem_of_fmap in Hj as (y&->&Hy).
    assert (slot c x k = Some l) as Hs by (unfold slot; by rewrite Hx).
    destruct (lk_mutual _ _ _ _ _ _ (Ht k x l Hs) y Hy) as (ly&Hly&Hxy).
    destruct (slot_live c y k) as [ry Hry]; [by rewrite Hly|].
    pose proof (index_in_lookup c y (ex_intro _ ry Hry)) as Hj. apply ids_lookup in Hj as (r'&Hr'&Hry').
    rewrite Hry in Hry'. injection Hry' as <-. unfold slot in Hly. rewrite Hry in Hly. cbn in Hly.
    rewrite (graph_list_index c _ y ry k ly Hr' Hly). apply list_elem_of_fmap. exists x. split; [|done].
    assert (ids_of c !! i = Some x) as Hxi by (apply ids_lookup; by exists r).
    symmetry. eapply NoDup_lookup; [exact Hids| |exact Hxi]. by apply index_in_lookup; exists r.
Qed.
End Structure.

(** ** The order check *)

Section Order.
Context `{Engine}.
Implicit Types (c : VectorCollection) (x y id : string) (k : nat).

Abbreviation none := (fun _ : string => False).
Abbreviation any := (fun _ : string => True).

Fixpoint chain c x (prev : option Rank) (nids : list string) : Prop :=
  match nids with
  | [] => True
  | y :: rest => match prev with Some p => rank_ltb p (key_of c x y) = true | None => True end
                 ∧ chain c x (Some (key_of c x y)) rest
  end.

Lemma check_list_order_spec c x layer origin : readable c → stored c x = Ok origin → ∀ nids prev,
  (∀ y, y ∈ nids → is_Some (vc_vectors c !! y)) →
  check_list_order c x layer origin prev nids = Ok tt ↔ chain c x prev nids.
Proof.
  intros Hr Hx. induction nids as [|y nids IH]; intros prev Hl; cbn [check_list_order chain]; [done|].
  rewrite (rank_of_key c x origin y Hr Hx) by (apply Hl; left). unfold as_corrupt. cbn [map_err result_bind].
  rewrite <-(IH (Some (key_of c x y))) by (intros z Hz; apply Hl; by right).
  destruct prev as [p|]; [|tauto]. destruct (rank_ltb p (key_of c x y)); [tauto|]. split; [done|]. by intros [? _].
Qed.

Lemma chain_ordered c x l : NoDup l → chain c x None l ↔ ordered c x l.
Proof.
  assert (∀ l p, NoDup l → p ∉ l → chain c x (Some (key_of c x p)) l ↔ StronglySorted (closer c x) (p :: l)) as Hsome.
  { clear l. induction l as [|y l IH]; intros p Hnd Hp; cbn [chain].
    - split; [|done]. intros _. by repeat constructor.
    - apply NoDup_cons in Hnd as [Hy Hnd]. rewrite (IH y Hnd Hy).
      rewrite rank_ltb_spec by (cbn; set_solver). split.
      + intros [Hpy Hs]. constructor; [exact Hs|]. constructor; [by apply Is_true_true|].
        apply StronglySorted_inv in Hs as [_ Hall]. eapply Forall_impl; [exact Hall|]. intros z Hz.
        apply Is_true_true in Hz. apply Is_true_true. by eapply closer_trans.
      + intros Hs. apply StronglySorted_inv in Hs as [Hs Hall]. apply Forall_cons in Hall as [Hpy _].
        split; [by apply Is_true_true in Hpy|exact Hs]. }
  intros Hnd. destruct l as [|y l]; cbn [chain].
  - split; [|done]. intros _. constructor.
  - apply NoDup_cons in Hnd as [Hy Hnd]. rewrite (Hsome l y Hnd Hy). unfold ordered. tauto.
Qed.

Lemma check_order_spec c : graph_ok any c → check_order c = Ok tt ↔ ∀ k, tidy none none k c.
Proof.
  intros [Hent Hrec Ht]. pose proof (records_readable _ Hrec) as Hr. unfold check_order.
  assert (for_each (fun p => as_corrupt (let? _ := stored c p.1 in Ok tt)) (btree_iter (vc_vectors c)) = Ok tt) as ->.
  { apply for_each_ok. intros [x r] Hx. apply btree_iter_elem in Hx. cbn [fst]. destruct (Hr x) as [v ->]; [by exists r|]. done. }
  cbn [result_bind]. rewrite for_each_ok. split.
  - intros Hall k x l Hl. destruct (slot_live c x k) as [r Hx]; [by rewrite Hl|].
    destruct (Ht k x l Hl) as [H1 H2 H3 H4 _]. split; try done. right.
    specialize (Hall (x, r) (proj2 (btree_iter_elem _ _ _) Hx)). cbn [fst snd] in Hall.
    destruct (Hr x) as [v Hv]; [by exists r|]. rewrite Hv in Hall. cbn [as_corrupt map_err result_bind] in Hall.
    unfold as_corrupt in Hall. cbn [map_err result_bind] in Hall. rewrite for_each_ok in Hall.
    unfold slot in Hl. rewrite Hx in Hl. cbn in Hl. specialize (Hall (k, l) (proj2 (enumerate_elem _ _ _) Hl)). cbn in Hall.
    apply chain_ordered; [done|]. apply (check_list_order_spec c x k v Hr Hv l None) in Hall; [done|].
    intros y Hy. destruct (H3 y Hy) as (ly&Hly&_). eapply slot_live. by rewrite Hly.
  - intros Htn [x r] Hx. apply btree_iter_elem in Hx. cbn [fst snd]. destruct (Hr x) as [v Hv]; [by exists r|].
    rewrite Hv. unfold as_corrupt. cbn [map_err result_bind]. apply for_each_ok. intros [k l] Hl.
    apply enumerate_elem in Hl. assert (slot c x k = Some l) as Hs by (unfold slot; by rewrite Hx).
    destruct (Htn k x l Hs) as [H1 H2 H3 _ [[]|Ho]].
    apply (check_list_order_spec c x k v Hr Hv l None); [|by apply chain_ordered].
    intros y Hy. destruct (H3 y Hy) as (ly&Hly&_). eapply slot_live. by rewrite Hly.
Qed.

(** ** The two checks *)

Definition params_ok (name : string) c : Prop :=
  check_create name (vc_dim c) (vc_storage c) (vc_m c) (vc_ef_construction c) (vc_ef_search c) = Ok tt.

Lemma as_corrupt_unit (r : Result unit StoreError) : as_corrupt r = Ok tt ↔ r = Ok tt.
Proof. apply as_corrupt_ok. Qed.

Lemma validate_graph_spec name c : validate_graph name c = Ok tt ↔
  params_ok name c ∧ (N.of_nat (size (vc_vectors c)) ≤ u32_max)%N ∧ graph_ok any c.
Proof.
  unfold validate_graph, params_ok. set (params := check_create _ _ _ _ _ _).
  destruct (as_corrupt params) as [[]|] eqn:Ep; cbn [result_bind].
  2: { split; [done|]. intros (Hp&_). apply as_corrupt_unit in Hp. congruence. }
  apply (proj1 (as_corrupt_unit _)) in Ep. rewrite Ep. case_bool_decide as Hempty.
  - destruct (vc_entry c) as [e|] eqn:Ee; cbn [is_some].
    + split; [done|]. intros (_&_&[He _ _]). rewrite Ee, Hempty in He. by rewrite (proj2 (canonical_none ∅) eq_refl) in He.
    + split; [|done]. intros _. rewrite Hempty, map_size_empty. split; [done|]. split; [by unfold u32_max|]. split.
      * rewrite Ee, Hempty. symmetry. by apply canonical_none.
      * rewrite Hempty. apply map_Forall_empty.
      * intros k x l Hl. unfold slot in Hl. by rewrite Hempty, lookup_empty in Hl.
  - assert (len (btree_iter (vc_vectors c)) = N.of_nat (size (vc_vectors c))) as Hlen.
    { unfold len, btree_iter. rewrite (Permutation_length (sort_by_perm key_leb _)). by rewrite length_map_to_list. }
    rewrite Hlen. split.
    + destruct (vc_entry c) as [e|] eqn:Ee; [|done]. destruct (is_none _); [done|].
      case_bool_decide as Hc; cbn [negb]; [|done]. destruct (N.ltb_spec u32_max (N.of_nat (size (vc_vectors c)))); [done|].
      destruct (check_nodes _ _ _ _ _) as [graph|] eqn:En; cbn [result_bind]; [|done]. intros Hrec.
      apply (check_nodes_spec _ _ (ids_NoDup c)) in En. split; [done|]. split; [done|]. split.
      * by rewrite Ee.
      * by eapply nodes_records.
      * by eapply nodes_tidy.
    + intros (_&Hsize&[He Hrec Ht]). destruct (canonical_entry (vc_vectors c)) as [e|] eqn:Ecan; [|by apply canonical_none in Ecan].
      rewrite He. pose proof (proj1 (canonical_spec _ _) Ecan) as (re&Hre&_). rewrite Hre. cbn [is_none is_some negb].
      rewrite bool_decide_true by done. cbn [negb]. rewrite (proj2 (N.ltb_ge _ _)) by done.
      destruct (tidy_nodes _ c Hrec Ht) as [Hn Hrc]. apply (check_nodes_spec _ _ (ids_NoDup c)) in Hn as ->. exact Hrc.
Qed.

Lemma validate_full_spec name c : validate_graph_full name c = Ok tt ↔
  params_ok name c ∧ (N.of_nat (size (vc_vectors c)) ≤ u32_max)%N ∧ graph_ok none c.
Proof.
  unfold validate_graph_full. assert (graph_ok none c → graph_ok any c) as Hweak.
  { intros [He Hr Ht]. split; [done|done|]. intros k. eapply tidy_weaken; [apply Ht|done|done]. }
  destruct (validate_graph name c) as [[]|] eqn:Ev; cbn [result_bind].
  - apply validate_graph_spec in Ev as (Hp&Hs&Hg). case_bool_decide as Hempty.
    + split; [|done]. intros _. split; [done|]. split; [done|]. destruct Hg as [He Hr _]. split; [done|done|].
      intros k x l Hl. unfold slot in Hl. by rewrite Hempty, lookup_empty in Hl.
    + rewrite check_order_spec by done. split; [|by intros (_&_&[])]. intros Ht. split; [done|]. split; [done|].
      destruct Hg. by split.
  - split; [done|]. intros (Hp&Hs&Hg). assert (validate_graph name c = Ok tt) as Hv; [|congruence].
    apply validate_graph_spec. auto.
Qed.
End Order.

(** ** What the index does *)

Section Theorems.
Context `{Engine}.
Implicit Types (c : VectorCollection).

Lemma same_params_ok name c c' : same_params c c' → params_ok name c → params_ok name c'.
Proof. unfold params_ok. by intros (->&->&_&->&->&->). Qed.

Lemma contents_size c : size (vc_vectors c) = size (contents c).
Proof. unfold contents. by rewrite map_size_fmap. Qed.

(** The check of a decoded snapshot accepts exactly the graphs: legal
    parameters, at most [u32::MAX] vectors, the canonical entry point, every
    record of the right length, level and number of layers, and on each layer
    lists without repeats and self links, within the bound, of vectors of that
    layer that link back. The check before a snapshot is written accepts
    exactly those whose lists are also in order of distance. *)
Theorem graph_checks_decide name c :
  (validate_graph name c = Ok tt ↔
    params_ok name c ∧ (N.of_nat (size (vc_vectors c)) ≤ u32_max)%N ∧ graph_ok (fun _ => True) c)
  ∧ (validate_graph_full name c = Ok tt ↔
    params_ok name c ∧ (N.of_nat (size (vc_vectors c)) ≤ u32_max)%N ∧ graph_ok (fun _ => False) c).
Proof. split; [apply validate_graph_spec|apply validate_full_spec]. Qed.

(** (C36) On a collection that passes the full check, inserting or replacing a
    vector and deleting one succeed, the result passes the full check, and it
    stores exactly what was given: the repairs of the lists never fail, never
    overfill a list and never leave a link one way. *)
Theorem index_keeps_graph name c id b md :
  validate_graph_full name c = Ok tt → check_vector_id id = Ok tt →
  check_stored (vc_storage c) (vc_dim c) b = Ok tt → (N.of_nat (size (vc_vectors c)) < u32_max)%N →
  (∃ c', vc_upsert c id b md = Ok c' ∧ validate_graph_full name c' = Ok tt ∧ contents c' = <[id := (b, md)]> (contents c))
  ∧ (∃ c', vc_delete_id c id = Ok c' ∧ validate_graph_full name c' = Ok tt ∧ contents c' = delete id (contents c)).
Proof.
  intros Hv Hck Hst Hsize. apply validate_full_spec in Hv as (Hp&_&Hg). rewrite contents_size in Hsize. split.
  - destruct (upsert_graph c id b md Hg Hck Hst) as (c'&He&Hg'&Hp'&Hc'). exists c'. split; [done|]. split; [|done].
    apply validate_full_spec. split; [by eapply same_params_ok|]. split; [|done].
    rewrite contents_size, Hc', map_size_insert. destruct (contents c !! id); cbn; lia.
  - destruct (delete_graph c id Hg Hck) as (c'&He&Hg'&Hp'&Hc'). exists c'. split; [done|]. split; [|done].
    apply validate_full_spec. split; [by eapply same_params_ok|]. split; [|done].
    rewrite contents_size, Hc', map_size_delete. destruct (contents c !! id); cbn; lia.
Qed.

Lemma hit_leb_total a b : hit_leb a b = true ∨ hit_leb b a = true.
Proof.
  unfold hit_leb. destruct (Z.ltb_spec (f64_key b.2) (f64_key a.2)); [by left|].
  destruct (Z.ltb_spec (f64_key a.2) (f64_key b.2)); [by right|].
  destruct (Z.eqb_spec (f64_key a.2) (f64_key b.2)); [|lia]. destruct (Z.eqb_spec (f64_key b.2) (f64_key a.2)); [|lia].
  cbn. apply str_leb_total.
Qed.

Lemma hit_leb_spec a b : hit_leb a b = true ↔
  (f64_key b.2 < f64_key a.2)%Z ∨ f64_key a.2 = f64_key b.2 ∧ str_leb a.1 b.1 = true.
Proof.
  unfold hit_leb. destruct (Z.ltb_spec (f64_key b.2) (f64_key a.2)), (Z.eqb_spec (f64_key a.2) (f64_key b.2)); cbn; naive_solver lia.
Qed.

Lemma hit_leb_trans a b d : hit_leb a b = true → hit_leb b d = true → hit_leb a d = true.
Proof. rewrite !hit_leb_spec. pose proof (str_leb_trans a.1 b.1 d.1). intuition lia. Qed.

(** (C37) A search of a collection that passes the check of a decode ends, and
    either refuses a score that is not finite or answers at most [limit] hits:
    distinct stored vectors, each with its own similarity to the query, the
    best first and equal scores by id. *)
Theorem search_answers name c values query limit ef :
  validate_graph name c = Ok tt → prepare_query c values = Ok query →
  match vector_search c values limit ef with
  | Err e => e = backend "vector score is not finite"
  | Ok hits =>
      NoDup (map fst hits) ∧ (len hits ≤ limit)%N ∧ StronglySorted hit_leb hits
      ∧ ∀ id score, (id, score) ∈ hits → f64_is_finite score = true
          ∧ ∃ v, stored c id = Ok v ∧ score = similarity (vc_metric c) query v
  end.
Proof.
  intros Hv Hq. apply validate_graph_spec in Hv as (_&_&[He Hrec Ht]). pose proof (records_readable _ Hrec) as Hr.
  unfold vector_search. rewrite Hq. cbn [result_bind].
  assert (NoDup (map fst (@nil (string * f64))) ∧ (len (@nil (string * f64)) ≤ limit)%N ∧ StronglySorted hit_leb []
    ∧ ∀ id score, (id, score) ∈ (@nil (string * f64)) → f64_is_finite score = true
        ∧ ∃ v, stored c id = Ok v ∧ score = similarity (vc_metric c) query v) as Hnil.
  { split_and!; [constructor|unfold len; cbn; lia|constructor|]. intros ? ? Hin. by apply not_elem_of_nil in Hin. }
  destruct (_ || _); [exact Hnil|]. case_bool_decide as Hempty; [exact Hnil|].
  destruct (canonical_entry (vc_vectors c)) as [e|] eqn:Ecan; [|by apply canonical_none in Ecan].
  pose proof (proj1 (canonical_spec _ _) Ecan) as (re&Hre&_).
  assert (live_entry c = Some e) as -> by (unfold live_entry; rewrite He; cbn; by rewrite Hre).
  cbn [ok_or result_bind]. rewrite Hre. cbn [fmap option_fmap option_map default from_option id].
  destruct (descend_ok _ _ c query 0 Ht Hr (N.to_nat (vr_level re)) [e]) as (eps&Hd&Heps).
  { intros y ->%list_elem_of_singleton. by apply (record_slot c e re). }
  cbn [Nat.add] in Hd. rewrite Hd. cbn [result_bind].
  destruct (search_layer_ok _ _ c query eps (N.max (default (vc_ef_search c) ef) limit) 0 (Ht 0) Hr Heps)
    as (found&->&Hnd&_&Hon). cbn [result_bind].
  destruct (map_result_inv (score_of c query) (take (N.to_nat limit) found)) as [(scored&->&HF)|(rank&err&Hin&Herr&->)];
    cbn [result_bind].
  - assert (map fst scored = map snd (take (N.to_nat limit) found)) as Hids.
    { revert HF. clear. induction 1 as [|rank hit l hs Hs HF IH]; [done|]. cbn. f_equal; [|done].
      unfold score_of in Hs. destruct (stored c rank.2); cbn [result_bind] in Hs; [|done].
      destruct (f64_is_finite _); [|done]. by injection Hs as <-. }
    split_and!.
    + rewrite (Permutation_map fst (sort_by_perm hit_leb scored)), Hids.
      rewrite <-(take_drop (N.to_nat limit) found), map_app in Hnd. by apply NoDup_app in Hnd as (?&_).
    + unfold len. rewrite (Permutation_length (sort_by_perm hit_leb scored)), <-(length_map fst scored), Hids, length_map, length_take. lia.
    + apply sort_by_sorted; [apply hit_leb_total|apply hit_leb_trans].
    + intros id score Hin. rewrite sort_by_elem in Hin. apply list_elem_of_lookup in Hin as [i Hi].
      pose proof (Forall2_lookup_r _ _ _ _ _ HF Hi) as (rank&_&Hs). unfold score_of in Hs.
      destruct (stored c rank.2) as [v|] eqn:Ev; cbn [result_bind] in Hs; [|done].
      destruct (f64_is_finite _) eqn:Ef; [|done]. injection Hs as <- <-. split; [done|]. by exists v.
  - unfold score_of in Herr. apply elem_of_take in Hin as (i&Hi&_).
    destruct (Hr rank.2) as [v Hv].
    { apply (slot_live c rank.2 0), Hon. apply list_elem_of_fmap. exists rank. split; [done|]. by eapply list_elem_of_lookup_2. }
    rewrite Hv in Herr. cbn [result_bind] in Herr. destruct (f64_is_finite _); [done|]. by injection Herr as <-.
Qed.
End Theorems.
