(* ===== verification/FlsLayout.v ===== *)
(** * Layout of the [.fls] container ([layout.rs])

    The two superblock slots, the WAL frames and the snapshot blobs, as bytes:
    one encoder and one decoder each, written as the source writes them. What
    an encoder appends to its buffer is what it returns.

    The theorems are the round trips the container rests on: a slot reads back
    as the superblock it was written for, a WAL of whole frames followed by a
    torn one reads back as the whole frames, and a snapshot reads back as the
    state it was taken of. *)

From S2P Require Import Prelude RustStr Ledger FlsBytes FlsCrc FlsModel.

Definition SLOT_LEN : nat := 4096.
Definition HEADER_BYTES : N := 8192.
Definition SUPER_MAGIC : bytes := chars "FERRSTR1".
Definition SNAP_MAGIC : bytes := chars "FERRSNAP".
Definition FORMAT_V1 : N := 1.
Definition FORMAT_V2 : N := 2.
Definition FORMAT_VERSION : N := FORMAT_V2.
Definition ENGINE_SNAPSHOT_WAL : N := 0.
Definition KNOWN_INCOMPAT : N := 0.
Definition SNAPSHOT_VERSION_DOCS : N := 1.
Definition SNAPSHOT_VERSION_COLUMNAR : N := 2.
Definition SNAPSHOT_VERSION_VECTOR : N := 3.
Definition TAG_PUT : N := 1.
Definition TAG_DELETE : N := 2.
Definition TAG_CREATE_COLUMN_TABLE : N := 3.
Definition TAG_APPEND_COLUMN_GROUP : N := 4.
Definition TAG_CREATE_VECTOR_COLLECTION : N := 5.
Definition TAG_UPSERT_VECTOR : N := 6.
Definition TAG_DELETE_VECTOR : N := 7.

(** ** Superblocks *)

Record Superblock := {
  sb_epoch : N;
  sb_snapshot_offset : N;
  sb_snapshot_length : N;
  sb_wal_offset : N;
  sb_wal_length : N;
  sb_snapshot_seq : N;
}.

#[global] Instance Superblock_eq_dec : EqDecision Superblock.
Proof. solve_decision. Defined.

Definition encode_superblock_as (sb : Superblock) (version engine incompat : N) : bytes :=
  let buf := zeros SLOT_LEN in
  let buf := copy_at buf 0 SUPER_MAGIC in
  let buf := copy_at buf 8 (u32_bytes version) in
  let buf := if (version =? FORMAT_V1)%N then buf
             else copy_at (copy_at buf 64 (u32_bytes engine)) 68 (u64_bytes incompat) in
  let buf := copy_at buf 12 (u64_bytes (sb_epoch sb)) in
  let buf := copy_at buf 24 (u64_bytes (sb_snapshot_offset sb)) in
  let buf := copy_at buf 32 (u64_bytes (sb_snapshot_length sb)) in
  let buf := copy_at buf 40 (u64_bytes (sb_wal_offset sb)) in
  let buf := copy_at buf 48 (u64_bytes (sb_wal_length sb)) in
  let buf := copy_at buf 56 (u64_bytes (sb_snapshot_seq sb)) in
  copy_at buf 20 (u32_bytes (crc32 buf)).

Definition encode_superblock (sb : Superblock) : bytes :=
  encode_superblock_as sb FORMAT_VERSION ENGINE_SNAPSHOT_WAL 0.

Inductive SlotRead :=
| Valid (sb : Superblock)
| Invalid
| Newer (version engine incompat : N).

(** The fields of a slot whose header was accepted. *)
Definition parse_fields (buf : bytes) : SlotRead :=
  match u64_at buf 12, u64_at buf 24, u64_at buf 32, u64_at buf 40, u64_at buf 48, u64_at buf 56 with
  | Some epoch, Some snapshot_offset, Some snapshot_length, Some wal_offset, Some wal_length,
    Some snapshot_seq =>
      if (epoch =? 0)%N
         || (snapshot_offset <? HEADER_BYTES)%N
         || (wal_offset <? HEADER_BYTES)%N
         || is_none (checked_add64 snapshot_offset snapshot_length)
         || is_none (checked_add64 wal_offset wal_length)
      then Invalid
      else Valid {| sb_epoch := epoch;
                    sb_snapshot_offset := snapshot_offset;
                    sb_snapshot_length := snapshot_length;
                    sb_wal_offset := wal_offset;
                    sb_wal_length := wal_length;
                    sb_snapshot_seq := snapshot_seq |}
  | _, _, _, _, _, _ => Invalid
  end.

(** From the [match version] on: engine, features and reserved bytes. The
    mask of [incompat & !KNOWN_INCOMPAT] is 64 bits wide. *)
Definition unknown_incompat (incompat : N) : N :=
  N.land incompat (N.lxor KNOWN_INCOMPAT u64_max).

Definition parse_header (buf : bytes) (version engine incompat : N) (reserved_from : nat) : SlotRead :=
  if negb (engine =? ENGINE_SNAPSHOT_WAL)%N || negb (unknown_incompat incompat =? 0)%N
  then Newer version engine incompat
  else if existsb (fun b => b != zero) (drop reserved_from buf) then Invalid
  else parse_fields buf.

Definition parse_superblock (buf : bytes) : SlotRead :=
  if negb (length buf =? SLOT_LEN) || negb (bool_decide (get_range buf 0 8 = Some SUPER_MAGIC))
  then Invalid
  else match u32_at buf 8, u32_at buf 20 with
  | Some version, Some stored =>
      let zeroed := copy_at buf 20 (zeros 4) in
      if negb (crc32 zeroed =? stored)%N then Invalid
      else if (version =? FORMAT_V1)%N then parse_header buf version ENGINE_SNAPSHOT_WAL 0 64
      else if (version =? FORMAT_V2)%N then
        match u32_at buf 64, u64_at buf 68 with
        | Some engine, Some incompat => parse_header buf version engine incompat 76
        | _, _ => Invalid
        end
      else if (version =? 0)%N then Invalid
      else Newer version ENGINE_SNAPSHOT_WAL 0
  | _, _ => Invalid
  end.

(** [slot_header] *)
Definition slot_header (buf : bytes) : option (N * option (N * N)) :=
  if negb (length buf =? SLOT_LEN) || negb (bool_decide (get_range buf 0 8 = Some SUPER_MAGIC))
  then None
  else
    version ← u32_at buf 8;
    fields ← (if (version =? FORMAT_V1)%N then Some (Some (ENGINE_SNAPSHOT_WAL, 0%N))
              else if (version =? FORMAT_V2)%N
              then engine ← u32_at buf 64; incompat ← u64_at buf 68; Some (Some (engine, incompat))
              else Some None);
    Some (version, fields).

(** A superblock the engine may write: what a read of it asks for. *)
Record sb_ok (sb : Superblock) : Prop := {
  sbk_epoch : (0 < sb_epoch sb ≤ u64_max)%N;
  sbk_snapshot : (HEADER_BYTES ≤ sb_snapshot_offset sb)%N
                 ∧ (sb_snapshot_offset sb + sb_snapshot_length sb ≤ u64_max)%N;
  sbk_wal : (HEADER_BYTES ≤ sb_wal_offset sb)%N
            ∧ (sb_wal_offset sb + sb_wal_length sb ≤ u64_max)%N;
  sbk_seq : (sb_snapshot_seq sb ≤ u64_max)%N;
}.

(** The bytes of a slot that are not reserved. *)
Definition HEAD : nat := 76.

(** The 76 header bytes with a given checksum. *)
Definition slot_head (sb : Superblock) (crc : bytes) : bytes :=
  SUPER_MAGIC ++ u32_bytes FORMAT_VERSION ++ u64_bytes (sb_epoch sb) ++ crc
  ++ u64_bytes (sb_snapshot_offset sb) ++ u64_bytes (sb_snapshot_length sb)
  ++ u64_bytes (sb_wal_offset sb) ++ u64_bytes (sb_wal_length sb)
  ++ u64_bytes (sb_snapshot_seq sb) ++ u32_bytes ENGINE_SNAPSHOT_WAL ++ u64_bytes 0.

Definition slot_rest : bytes := zeros (SLOT_LEN - HEAD).

Lemma length_u64 x : length (u64_bytes x) = 8.
Proof. apply length_le_bytes. Qed.
Lemma length_u32 x : length (u32_bytes x) = 4.
Proof. apply length_le_bytes. Qed.

Lemma length_magic : length SUPER_MAGIC = 8.
Proof. reflexivity. Qed.

Lemma slot_head_length sb crc : length crc = 4 → length (slot_head sb crc) = HEAD.
Proof. intros H. unfold slot_head. rewrite !length_app, !length_u64, !length_u32, H. reflexivity. Qed.

(** A list of known length, cell by cell. *)
Ltac cells l :=
  match goal with
  | H : length l = S _ |- _ =>
      let a := fresh "a" in let l' := fresh "l" in
      destruct l as [|a l']; [discriminate H|]; cbn in H; apply Nat.succ_inj in H; cells l'
  | H : length l = 0 |- _ => apply nil_length_inv in H; subst l
  end.

Lemma copy_at_mid (a b c src : bytes) :
  length b = length src → copy_at (a ++ b ++ c) (length a) src = a ++ src ++ c.
Proof.
  intros H. unfold copy_at. rewrite take_app_length. f_equal. f_equal.
  rewrite <-H, <-length_app, app_assoc. apply drop_app_length.
Qed.

(** The checksum field sits after the magic, the version and the epoch. *)
Lemma slot_head_crc sb crc crc' : length crc = 4 → length crc' = 4 →
  copy_at (slot_head sb crc ++ slot_rest) 20 crc' = slot_head sb crc' ++ slot_rest.
Proof.
  intros H H'. unfold slot_head. rewrite <-!app_assoc.
  rewrite !(app_assoc SUPER_MAGIC), !(app_assoc (SUPER_MAGIC ++ u32_bytes FORMAT_VERSION)).
  apply copy_at_mid. by rewrite H, H'.
Qed.

(** A slot whose reserved bytes are zero, by its header. *)
Definition headed (buf head : bytes) : Prop := buf = head ++ slot_rest ∧ length head = HEAD.

Lemma headed_zeros : headed (zeros SLOT_LEN) (zeros HEAD).
Proof. split; [|reflexivity]. unfold slot_rest, zeros. by rewrite <-replicate_add. Qed.

Lemma headed_copy buf head i src :
  headed buf head → i + length src ≤ HEAD → headed (copy_at buf i src) (copy_at head i src).
Proof.
  intros [-> Hl] Hi. split; [|rewrite length_copy_at; lia]. apply copy_at_app_l. lia.
Qed.

Lemma encode_superblock_layout sb :
  encode_superblock sb
  = slot_head sb (u32_bytes (crc32 (slot_head sb (zeros 4) ++ slot_rest))) ++ slot_rest.
Proof.
  unfold encode_superblock, encode_superblock_as. cbv zeta.
  change (FORMAT_VERSION =? FORMAT_V1)%N with false. cbv iota.
  match goal with |- copy_at ?b _ _ = _ =>
    assert (b = slot_head sb (zeros 4) ++ slot_rest) as ->; [eassert (headed b _) as [-> _] |] end.
  { repeat (eapply headed_copy; [|rewrite ?length_u64, ?length_u32, ?length_magic; unfold HEAD; lia]).
    apply headed_zeros. }
  { reflexivity. }
  by apply slot_head_crc; [|apply length_u32].
Qed.

(** Every field of the header is read where it was written. *)
Lemma head_reads (m v e c so sl wo wl sq en ic : bytes) :
  length m = 8 → length v = 4 → length e = 8 → length c = 4 → length so = 8 → length sl = 8 →
  length wo = 8 → length wl = 8 → length sq = 8 → length en = 4 → length ic = 8 →
  let h := m ++ v ++ e ++ c ++ so ++ sl ++ wo ++ wl ++ sq ++ en ++ ic in
  get_range h 0 8 = Some m ∧ get_range h 8 4 = Some v ∧ get_range h 12 8 = Some e
  ∧ get_range h 20 4 = Some c ∧ get_range h 24 8 = Some so ∧ get_range h 32 8 = Some sl
  ∧ get_range h 40 8 = Some wo ∧ get_range h 48 8 = Some wl ∧ get_range h 56 8 = Some sq
  ∧ get_range h 64 4 = Some en ∧ get_range h 68 8 = Some ic.
Proof.
  intros. cells m. cells v. cells e. cells c. cells so. cells sl. cells wo. cells wl. cells sq.
  cells en. cells ic. subst h. repeat split.
Qed.

Lemma slot_reads sb crc : (crc ≤ u32_max)%N → sb_ok sb →
  let buf := slot_head sb (u32_bytes crc) ++ slot_rest in
  get_range buf 0 8 = Some SUPER_MAGIC ∧ u32_at buf 8 = Some FORMAT_VERSION ∧ u32_at buf 20 = Some crc
  ∧ u64_at buf 12 = Some (sb_epoch sb) ∧ u64_at buf 24 = Some (sb_snapshot_offset sb)
  ∧ u64_at buf 32 = Some (sb_snapshot_length sb) ∧ u64_at buf 40 = Some (sb_wal_offset sb)
  ∧ u64_at buf 48 = Some (sb_wal_length sb) ∧ u64_at buf 56 = Some (sb_snapshot_seq sb)
  ∧ u32_at buf 64 = Some ENGINE_SNAPSHOT_WAL ∧ u64_at buf 68 = Some 0%N.
Proof.
  intros Hc [He [_ Hs] [_ Hw] Hq] buf. unfold u32_at, u64_at, buf.
  rewrite !get_range_app_l by (rewrite slot_head_length by apply length_u32; unfold HEAD; lia).
  destruct (head_reads SUPER_MAGIC (u32_bytes FORMAT_VERSION) (u64_bytes (sb_epoch sb)) (u32_bytes crc)
    (u64_bytes (sb_snapshot_offset sb)) (u64_bytes (sb_snapshot_length sb)) (u64_bytes (sb_wal_offset sb))
    (u64_bytes (sb_wal_length sb)) (u64_bytes (sb_snapshot_seq sb)) (u32_bytes ENGINE_SNAPSHOT_WAL)
    (u64_bytes 0)) as (H1&H2&H3&H4&H5&H6&H7&H8&H9&H10&H11);
    try (reflexivity || apply length_u64 || apply length_u32).
  unfold slot_head. rewrite H1, H2, H3, H4, H5, H6, H7, H8, H9, H10, H11. cbn [fmap option_fmap option_map].
  revert Hc He Hs Hw Hq. unfold u32_max, u64_max. intros.
  rewrite !le_value_u64, !le_value_u32 by (unfold u32_max, u64_max, FORMAT_VERSION, FORMAT_V2, ENGINE_SNAPSHOT_WAL; lia).
  done.
Qed.

Lemma slot_rest_zero : existsb (fun b => b != zero) slot_rest = false.
Proof. vm_compute. reflexivity. Qed.

Lemma encode_superblock_length sb : length (encode_superblock sb) = SLOT_LEN.
Proof.
  rewrite encode_superblock_layout, length_app, slot_head_length by apply length_u32. reflexivity.
Qed.

(** What is written into a slot is read back: for every superblock the
    engine may write (an epoch, extents inside the file past the header that
    do not overflow), the 4096 bytes of [encode_superblock] are classified as
    valid and give exactly that superblock. *)
Lemma superblock_roundtrip sb : sb_ok sb → parse_superblock (encode_superblock sb) = Valid sb.
Proof.
  intros Hsb. unfold parse_superblock. rewrite encode_superblock_length. rewrite encode_superblock_layout.
  set (crc := crc32 (slot_head sb (zeros 4) ++ slot_rest)). assert (crc ≤ u32_max)%N as Hc by apply crc32_lt.
  destruct (slot_reads sb crc Hc Hsb) as (E1&E2&E3&E4&E5&E6&E7&E8&E9&E10&E11).
  rewrite E1, E2, E3, E10, E11. cbv zeta. rewrite slot_head_crc by (apply length_u32 || done). fold crc.
  rewrite N.eqb_refl, bool_decide_true by done. change (SLOT_LEN =? SLOT_LEN) with true.
  cbn [negb orb]. change (FORMAT_VERSION =? FORMAT_V1)%N with false.
  change (FORMAT_VERSION =? FORMAT_V2)%N with true. cbv iota. unfold parse_header.
  rewrite drop_app_length' by (rewrite slot_head_length by apply length_u32; reflexivity).
  rewrite slot_rest_zero.
  change (negb (ENGINE_SNAPSHOT_WAL =? ENGINE_SNAPSHOT_WAL)%N || negb (unknown_incompat 0 =? 0)%N) with false.
  cbv iota. unfold parse_fields. rewrite E4, E5, E6, E7, E8, E9.
  destruct Hsb as [He [Hs Hs'] [Hw Hw'] Hq]. destruct sb as [e so sl wo wl sq]; cbn in *.
  unfold checked_add. rewrite (proj2 (N.eqb_neq _ _)), !(proj2 (N.ltb_ge _ _)), !(proj2 (N.leb_le _ _))
    by (assumption || lia). reflexivity.
Qed.

#[global] Opaque le_bytes.

(** ** WAL frames *)

Section Frames.
Context `{Json}.

(** [buf.push(tag)] *)
Definition tag (t : N) : bytes := [ascii_of_N t].

(** [serde_json::to_vec(doc)] with its error *)
Definition json_bytes (v : Value) : Result bytes StoreError :=
  map_err (fun err => backend ("json encode: " +:+ err)) (to_vec v).

Definition write_json (v : Value) : Result bytes StoreError :=
  let? raw := json_bytes v in write_lp raw.

Definition write_metadata (metadata : option Value) : Result bytes StoreError :=
  match metadata with
  | None => Ok (tag 0)
  | Some value => let? b := write_json value in Ok (tag 1 ++ b)
  end.

Definition write_column (c : ColumnDef) : Result bytes StoreError :=
  let? n := write_str (cd_name c) in
  Ok (n ++ tag (type_tag (cd_ty c))).

(** The columns of a table with their count. *)
Definition write_columns (columns : list ColumnDef) : Result bytes StoreError :=
  let? count := ok_or (u32_try (len columns)) (backend "too many columns") in
  let? cs := write_many write_column columns in
  Ok (u32_bytes count ++ cs).

Definition encode_op (op : Op) : Result bytes StoreError :=
  match op with
  | Put collection id doc =>
      let? c := write_str collection in
      let? i := write_str id in
      let? raw := write_json doc in
      Ok (tag TAG_PUT ++ c ++ i ++ raw)
  | Delete collection id =>
      let? c := write_str collection in
      let? i := write_str id in
      Ok (tag TAG_DELETE ++ c ++ i)
  | CreateColumnTable name columns =>
      let? n := write_str name in
      let? cs := write_columns columns in
      Ok (tag TAG_CREATE_COLUMN_TABLE ++ n ++ cs)
  | AppendColumnGroup name group =>
      let? n := write_str name in
      let? g := write_lp group in
      Ok (tag TAG_APPEND_COLUMN_GROUP ++ n ++ g)
  | CreateVectorCollection name dim storage metric m ef_construction ef_search =>
      let? n := write_str name in
      Ok (tag TAG_CREATE_VECTOR_COLLECTION ++ n ++ u32_bytes dim ++ tag (storage_tag storage)
          ++ tag (metric_tag metric) ++ u32_bytes m ++ u32_bytes ef_construction ++ u32_bytes ef_search)
  | UpsertVector collection id vector metadata =>
      let? c := write_str collection in
      let? i := write_str id in
      let? v := write_lp vector in
      let? md := write_metadata metadata in
      Ok (tag TAG_UPSERT_VECTOR ++ c ++ i ++ v ++ md)
  | DeleteVector collection id =>
      let? c := write_str collection in
      let? i := write_str id in
      Ok (tag TAG_DELETE_VECTOR ++ c ++ i)
  end.

(** The payload of a frame, then the frame. *)
Definition encode_payload (seq : N) (ops : list Op) : Result bytes StoreError :=
  let? count := ok_or (u32_try (len ops)) (backend "too many operations in one frame") in
  let? body := write_many encode_op ops in
  Ok (u64_bytes seq ++ u32_bytes count ++ body).

Definition encode_frame (seq : N) (ops : list Op) : Result bytes StoreError :=
  let? payload := encode_payload seq ops in
  let? n := ok_or (u32_try (len payload)) (backend "wal payload exceeds 4 GiB") in
  Ok (u32_bytes n ++ u32_bytes (crc32 payload) ++ payload).

(** A count that is not more than the bytes ahead. *)
Definition cur_count (too_many : string) : Reader N :=
  read count := cur_u32 in
  read ahead := cur_remaining in
  if (ahead <? count)%N then fail (corrupt too_many) else ret count.

Definition cur_json (err : string) : Reader Value :=
  read raw := cur_lp in
  match from_slice raw with Some v => ret v | None => fail (corrupt err) end.

Definition read_metadata : Reader (option Value) :=
  read flag := cur_u8 in
  match flag with
  | 0 => ret None
  | 1 => read v := cur_json "vector metadata is not json" in ret (Some v)
  | _ => fail (corrupt ("unknown vector metadata flag " +:+ pretty flag))
  end%N.

Definition cur_column : Reader ColumnDef :=
  read name := cur_lp_str in
  read t := cur_u8 in
  read ty := lift (type_from_tag t) in
  ret {| cd_name := name; cd_ty := ty |}.

Definition decode_op : Reader Op :=
  read t := cur_u8 in
  if (t =? TAG_PUT)%N then
    read collection := cur_lp_str in
    read id := cur_lp_str in
    read doc := cur_json "document is not json" in
    ret (Put collection id doc)
  else if (t =? TAG_DELETE)%N then
    read collection := cur_lp_str in
    read id := cur_lp_str in
    ret (Delete collection id)
  else if (t =? TAG_CREATE_COLUMN_TABLE)%N then
    read name := cur_lp_str in
    read count := cur_count "column count exceeds the wal payload" in
    read columns := cur_many (N.to_nat count) cur_column in
    ret (CreateColumnTable name columns)
  else if (t =? TAG_APPEND_COLUMN_GROUP)%N then
    read name := cur_lp_str in
    read group := cur_lp in
    ret (AppendColumnGroup name group)
  else if (t =? TAG_CREATE_VECTOR_COLLECTION)%N then
    read name := cur_lp_str in
    read dim := cur_u32 in
    read st := cur_u8 in
    read storage := lift (storage_from_tag st) in
    read mt := cur_u8 in
    read metric := lift (metric_from_tag mt) in
    read m := cur_u32 in
    read ef_construction := cur_u32 in
    read ef_search := cur_u32 in
    ret (CreateVectorCollection name dim storage metric m ef_construction ef_search)
  else if (t =? TAG_UPSERT_VECTOR)%N then
    read collection := cur_lp_str in
    read id := cur_lp_str in
    read vector := cur_lp in
    read metadata := read_metadata in
    ret (UpsertVector collection id vector metadata)
  else if (t =? TAG_DELETE_VECTOR)%N then
    read collection := cur_lp_str in
    read id := cur_lp_str in
    ret (DeleteVector collection id)
  else fail (corrupt ("unknown wal op tag " +:+ pretty t)).

Definition payload_reader : Reader (N * list Op) :=
  read seq := cur_u64 in
  read count := cur_count "op count exceeds the wal payload" in
  read ops := cur_many (N.to_nat count) decode_op in
  read _ := cur_finish in
  ret (seq, ops).

Definition decode_payload (buf : bytes) : Result (N * list Op) StoreError :=
  let? (frame, _) := payload_reader buf in Ok frame.

(** [frame_fits], of the bytes from the offset on *)
Definition frame_fits (buf : bytes) : bool :=
  if length buf <? 8 then false
  else match u32_at buf 0 with
       | None => false
       | Some n => bool_decide (8 + N.to_nat n ≤ length buf)
       end.

(** The loop of [decode_wal_prefix]: [buf] is what is after [offset]. Each turn
    that goes on consumes at least the eight bytes of a frame header, so as
    many turns as bytes are enough. *)
Fixpoint decode_wal_loop (turns : nat) (buf : bytes) (offset : N) (frames : list (N * list Op))
    : Result (list (N * list Op) * N) StoreError :=
  match turns with
  | O => Ok (frames, offset)
  | S turns' =>
      if length buf <? 8 then Ok (frames, offset)
      else match u32_at buf 0, u32_at buf 4 with
      | Some n, Some stored =>
          let payload_end := 8 + N.to_nat n in
          if bool_decide (length buf < payload_end) then Ok (frames, offset)
          else
            let payload := take (N.to_nat n) (drop 8 buf) in
            let rest := drop payload_end buf in
            if negb (crc32 payload =? stored)%N then
              if bool_decide (rest = []) || negb (frame_fits rest) then Ok (frames, offset)
              else Err (corrupt "wal frame crc does not match and another frame follows")
            else
              let? frame := decode_payload payload in
              decode_wal_loop turns' rest (offset + 8 + n)%N (frames ++ [frame])
      | _, _ => Ok (frames, offset)
      end
  end.

Definition decode_wal_prefix (buf : bytes) : Result (list (N * list Op) * N) StoreError :=
  decode_wal_loop (length buf) buf 0 [].

(** *** Round trip of operations *)

(** A document that reads back from its own text. A float printed by
    [serde_json] without [float_roundtrip] need not. *)
Definition json_stable (v : Value) : Prop := ∀ raw, to_vec v = Ok raw → from_slice raw = Some v.

Definition text (s : string) : Prop := utf8_valid (chars s) = true.

(** An operation of values of their Rust types: valid UTF-8, [u32]s, and
    documents that read back. *)
Definition op_ok (op : Op) : Prop :=
  match op with
  | Put collection id doc => text collection ∧ text id ∧ json_stable doc
  | Delete collection id | DeleteVector collection id => text collection ∧ text id
  | CreateColumnTable name columns => text name ∧ Forall (fun c => text (cd_name c)) columns
  | AppendColumnGroup name _ => text name
  | CreateVectorCollection name dim _ _ m ef_construction ef_search =>
      text name ∧ (dim ≤ u32_max)%N ∧ (m ≤ u32_max)%N ∧ (ef_construction ≤ u32_max)%N
      ∧ (ef_search ≤ u32_max)%N
  | UpsertVector collection id _ metadata =>
      text collection ∧ text id ∧ match metadata with Some v => json_stable v | None => True end
  end.

Lemma u32_try_ok n e m : ok_or (E := StoreError) (u32_try n) e = Ok m → m = n ∧ (n ≤ u32_max)%N.
Proof. unfold u32_try. case_match; cbn; [|done]. intros [= <-]. bool_prop. done. Qed.

Lemma reads_tag t : (t < 256)%N → reads cur_u8 (tag t) t.
Proof. apply reads_u8. Qed.

Lemma reads_json v w err : write_json v = Ok w → json_stable v → reads (cur_json err) w v.
Proof.
  unfold write_json, json_bytes. destruct (to_vec v) as [raw|] eqn:E; cbn; [|done].
  intros Hw Hs. rewrite <-(app_nil_r w). eapply reads_bind; [by apply reads_lp|].
  rewrite (Hs raw E). apply reads_ret.
Qed.

Lemma reads_lift {A} (r : Result A StoreError) a : r = Ok a → reads (lift r) [] a.
Proof. intros ->. apply reads_ret. Qed.

Lemma cur_count_ok n too_many w :
  (n ≤ u32_max)%N → (n ≤ len w)%N → cur_count too_many (u32_bytes n ++ w) = Ok (n, w).
Proof.
  intros Hn Hw. unfold cur_count, bind. rewrite (reads_u32 n Hn). unfold cur_remaining.
  by rewrite (proj2 (N.ltb_ge _ _)).
Qed.

Lemma reads_count n too_many w :
  (n ≤ u32_max)%N → (n ≤ len w)%N →
  ∀ {A} (k : N → Reader A) a, reads (k n) w a → reads (bind (cur_count too_many) k) (u32_bytes n ++ w) a.
Proof.
  intros Hn Hw A k a Hk rest. rewrite <-app_assoc. unfold bind at 1.
  rewrite cur_count_ok; [apply Hk|done|]. unfold len in *. rewrite length_app. lia.
Qed.

Lemma bind_end {A B} (r : Reader A) (k : A → Reader B) b a rest res :
  reads r b a → k a rest = res → bind r k (b ++ rest) = res.
Proof. intros Hr Hk. unfold bind. by rewrite Hr. Qed.

Lemma bind_count {B} n too_many w (k : N → Reader B) res :
  (n ≤ u32_max)%N → (n ≤ len w)%N → k n w = res → bind (cur_count too_many) k (u32_bytes n ++ w) = res.
Proof. intros Hn Hw Hk. unfold bind. by rewrite cur_count_ok. Qed.

Lemma write_many_length {A} (f : A → Result bytes StoreError) l w :
  (∀ a b, f a = Ok b → 1 ≤ length b) → write_many f l = Ok w → (len l ≤ len w)%N.
Proof.
  intros Hf. unfold len. revert w. induction l as [|a l IH]; intros w; cbn; [lia|].
  destruct (f a) as [b|] eqn:E; cbn; [|done]. destruct (write_many f l) as [w'|]; cbn; [|done].
  intros [= <-]. apply Hf in E. specialize (IH w' eq_refl). rewrite length_app. lia.
Qed.

Lemma write_str_length s w : write_str s = Ok w → 4 ≤ length w.
Proof. intros [_ ->]%write_lp_ok. rewrite length_app, length_u32. lia. Qed.

Lemma write_column_length c w : write_column c = Ok w → 1 ≤ length w.
Proof.
  unfold write_column. destruct (write_str _) eqn:E; cbn; [|done]. intros [= <-].
  rewrite length_app. cbn. lia.
Qed.

Lemma reads_column c w : write_column c = Ok w → text (cd_name c) → reads cur_column w c.
Proof.
  unfold write_column. destruct (write_str _) as [n|] eqn:E; cbn; [|done]. intros [= <-] Ht.
  eapply reads_bind; [by eapply reads_str|].
  rewrite <-(app_nil_r (tag _)). eapply reads_bind; [apply reads_tag, type_tag_lt|].
  rewrite <-(app_nil_l []). eapply reads_bind; [apply reads_lift, type_tag_inv|].
  destruct c. apply reads_ret.
Qed.

Lemma reads_columns columns w too_many :
  write_columns columns = Ok w → Forall (fun c => text (cd_name c)) columns →
  ∀ {A} (k : list ColumnDef → Reader A) rest a, reads (k columns) rest a →
  reads (bind (cur_count too_many) (fun n => bind (cur_many (N.to_nat n) cur_column) k)) (w ++ rest) a.
Proof.
  unfold write_columns. intros Hw Ht A k rest a Hk.
  destruct (ok_or _ _) as [n|] eqn:En; cbn in Hw; [|done]. apply u32_try_ok in En as [-> Hn].
  destruct (write_many _ _) as [cs|] eqn:Ec; cbn in Hw; [|done]. simplify_eq. rewrite <-app_assoc.
  pose proof (write_many_length _ _ _ write_column_length Ec) as Hl.
  apply reads_count; [done|unfold len in *; rewrite length_app; lia|].
  unfold len. rewrite Nat2N.id. eapply reads_bind; [|exact Hk].
  rewrite <-(map_id columns) at 2. eapply reads_many; [|done].
  intros c b Hc Hb. apply reads_column; [done|]. rewrite Forall_forall in Ht. by apply Ht.
Qed.

Lemma reads_metadata md w :
  write_metadata md = Ok w → match md with Some v => json_stable v | None => True end →
  reads read_metadata w md.
Proof.
  unfold write_metadata. destruct md as [v|].
  - destruct (write_json v) as [b|] eqn:E; cbn; [|done]. intros [= <-] Hs.
    eapply (reads_bind _ _ (tag 1)); [by apply reads_tag|]. cbn.
    rewrite <-(app_nil_r b). eapply reads_bind; [by apply reads_json|]. apply reads_ret.
  - intros [= <-] _. rewrite <-(app_nil_r (tag 0)). eapply reads_bind; [by apply reads_tag|]. apply reads_ret.
Qed.

Lemma reads_last {A B} (r : Reader A) (f : A → B) b a :
  reads r b a → reads (bind r (fun x => ret (f x))) b (f a).
Proof. intros Hr. rewrite <-(app_nil_r b). eapply reads_bind; [done|apply reads_ret]. Qed.

Lemma Ok_bytes (a b : bytes) : @Ok bytes StoreError a = Ok b → a = b.
Proof. by intros [= ->]. Qed.

(** Name the bytes each successful write returned. *)
Ltac written :=
  repeat match goal with
  | Hw : context [result_bind ?c _] |- _ =>
      let E := fresh "E" in destruct c eqn:E; cbn [result_bind] in Hw; [|discriminate Hw]
  end;
  repeat match goal with
  | Hw : @Ok bytes StoreError _ = Ok _ |- _ => apply Ok_bytes in Hw; subst
  end.

Ltac read_tag := eapply (reads_bind _ _ (tag _)); [apply reads_tag; (reflexivity || apply type_tag_lt
  || apply storage_tag_lt || apply metric_tag_lt)|cbv beta].
Ltac read_text := eapply reads_bind; [by eapply reads_str|cbv beta].

Lemma reads_op op w : encode_op op = Ok w → op_ok op → reads decode_op w op.
Proof.
  destruct op as [c i d|c i|n cols|n g|n dim st mt m efc efs|c i v md|c i]; cbn [encode_op op_ok];
    intros Hw; [intros (Hc&Hi&Hd)|intros (Hc&Hi)|intros (Hn&Hcols)|intros Hn
               |intros (Hn&Hdim&Hm&Hefc&Hefs)|intros (Hc&Hi&Hmd)|intros (Hc&Hi)];
    written; read_tag; cbn [N.eqb Pos.eqb TAG_PUT TAG_DELETE TAG_CREATE_COLUMN_TABLE
      TAG_APPEND_COLUMN_GROUP TAG_CREATE_VECTOR_COLLECTION TAG_UPSERT_VECTOR TAG_DELETE_VECTOR].
  - do 2 read_text. by apply (reads_last _ (Put c i)), reads_json.
  - read_text. by apply (reads_last _ (Delete c)), reads_str.
  - read_text. rewrite <-(app_nil_r _). eapply reads_columns; [done..|]. apply reads_ret.
  - read_text. by apply (reads_last _ (AppendColumnGroup n)), reads_lp.
  - read_text. eapply reads_bind; [by apply reads_u32|]. read_tag.
    rewrite <-(app_nil_l (tag _ ++ _)). eapply reads_bind; [apply reads_lift, storage_tag_inv|]. read_tag.
    rewrite <-(app_nil_l (u32_bytes m ++ _)). eapply reads_bind; [apply reads_lift, metric_tag_inv|].
    do 2 (eapply reads_bind; [by apply reads_u32|]). by apply reads_last, reads_u32.
  - do 2 read_text. eapply reads_bind; [by apply reads_lp|].
    by apply (reads_last _ (UpsertVector c i v)), reads_metadata.
  - read_text. by apply (reads_last _ (DeleteVector c)), reads_str.
Qed.

Lemma encode_op_length op w : encode_op op = Ok w → 1 ≤ length w.
Proof. destruct op; cbn [encode_op]; intros Hw; written; cbn; lia. Qed.

Lemma decode_payload_encode seq ops w :
  (seq ≤ u64_max)%N → Forall op_ok ops → encode_payload seq ops = Ok w → decode_payload w = Ok (seq, ops).
Proof.
  intros Hq Hops Hw. unfold encode_payload in Hw.
  destruct (ok_or _ _) as [n|] eqn:En; cbn [result_bind] in Hw; [|done].
  apply u32_try_ok in En as [-> Hn]. destruct (write_many _ _) as [b|] eqn:Eb; cbn [result_bind] in Hw; [|done].
  apply Ok_bytes in Hw as <-. pose proof (write_many_length _ _ _ encode_op_length Eb) as Hl.
  assert (payload_reader (u64_bytes seq ++ u32_bytes (len ops) ++ b) = Ok (seq, ops, [])) as Hr;
    [|unfold decode_payload; by rewrite Hr].
  eapply bind_end; [by apply reads_u64|]. apply bind_count; [done..|].
  rewrite <-(app_nil_r b). eapply bind_end; [|reflexivity].
  unfold len. rewrite Nat2N.id. rewrite <-(map_id ops) at 2. eapply reads_many; [|done].
  intros op w Ho Hb. apply reads_op; [done|]. rewrite Forall_forall in Hops. by apply Hops.
Qed.

(** ** A WAL with a torn tail *)

(** A frame that was written whole. *)
Definition frame_of (frame : N * list Op) (w : bytes) : Prop :=
  encode_frame frame.1 frame.2 = Ok w ∧ (frame.1 ≤ u64_max)%N ∧ Forall op_ok frame.2.

Lemma encode_frame_ok seq ops w :
  encode_frame seq ops = Ok w →
  ∃ payload, encode_payload seq ops = Ok payload ∧ (len payload ≤ u32_max)%N
    ∧ w = u32_bytes (len payload) ++ u32_bytes (crc32 payload) ++ payload.
Proof.
  unfold encode_frame. intros Hw.
  destruct (encode_payload seq ops) as [payload|] eqn:E; cbn [result_bind] in Hw; [|done].
  destruct (ok_or _ _) as [n|] eqn:En; cbn [result_bind] in Hw; [|done].
  apply u32_try_ok in En as [-> Hn]. apply Ok_bytes in Hw. eauto.
Qed.

Lemma u32_at_front (a : N) rest : (a ≤ u32_max)%N → u32_at (u32_bytes a ++ rest) 0 = Some a.
Proof.
  intros Ha. unfold u32_at. rewrite get_range_app_l by (rewrite length_u32; lia).
  unfold get_range. rewrite decide_True by (rewrite length_u32; lia). rewrite drop_0.
  rewrite take_ge by (rewrite length_u32; lia). cbn. by rewrite le_value_u32.
Qed.

Lemma u32_at_second (a b : N) rest : (b ≤ u32_max)%N →
  u32_at (u32_bytes a ++ u32_bytes b ++ rest) 4 = Some b.
Proof.
  intros Hb. unfold u32_at, get_range.
  rewrite decide_True by (rewrite !length_app, !length_u32; lia).
  rewrite drop_app_length', take_app_length' by (by rewrite length_u32).
  cbn. by rewrite le_value_u32.
Qed.

(** One turn of the loop over a whole frame. *)
Lemma wal_loop_frame turns frame w rest offset frames :
  frame_of frame w →
  decode_wal_loop (S turns) (w ++ rest) offset frames
  = decode_wal_loop turns rest (offset + len w)%N (frames ++ [frame]).
Proof.
  destruct frame as [seq ops]. intros (Hw&Hq&Hops). cbn [fst snd] in *.
  apply encode_frame_ok in Hw as (payload&Hp&Hl&->). rewrite <-!app_assoc.
  pose proof (crc32_lt payload) as Hc. cbn [decode_wal_loop].
  rewrite (proj2 (Nat.ltb_ge _ _)) by (rewrite !length_app, !length_u32; lia).
  rewrite u32_at_front, u32_at_second by done. cbv zeta.
  rewrite bool_decide_false by (rewrite !length_app, !length_u32; unfold len; lia).
  rewrite (app_assoc (u32_bytes _) (u32_bytes _)).
  rewrite drop_app_length' by (rewrite length_app, !length_u32; lia).
  assert (N.to_nat (len payload) = length payload) as En by (unfold len; apply Nat2N.id).
  rewrite !En. rewrite take_app_length, N.eqb_refl. cbn [negb].
  rewrite (decode_payload_encode seq ops) by done. cbn [result_bind].
  rewrite app_assoc. rewrite drop_app_length' by (rewrite !length_app, !length_u32; lia).
  f_equal. unfold len. rewrite !length_app, !length_u32. lia.
Qed.

(** A cut frame: fewer bytes than the frame has. *)
Lemma wal_loop_torn turns frame w torn more offset frames :
  frame_of frame w → w = torn ++ more → more ≠ [] →
  decode_wal_loop turns torn offset frames = Ok (frames, offset).
Proof.
  destruct frame as [seq ops]. intros (Hw&_&_) Ht Hm. cbn [fst snd] in Hw.
  apply encode_frame_ok in Hw as (payload&Hp&Hl&->). destruct turns as [|turns]; [done|].
  cbn [decode_wal_loop]. destruct (length torn <? 8) eqn:E8; [done|]. apply Nat.ltb_ge in E8.
  apply (f_equal length) in Ht as Hlen. rewrite !length_app, !length_u32 in Hlen.
  assert (length more ≠ 0) by by destruct more.
  assert (∀ i, i + 4 ≤ 8 → u32_at torn i = u32_at (torn ++ more) i) as Hat.
  { intros i Hi. unfold u32_at. rewrite get_range_app_l by lia. done. }
  rewrite !Hat, <-Ht, u32_at_front, u32_at_second by (done || lia || apply crc32_lt). cbv zeta.
  rewrite bool_decide_true; [done|]. unfold len. lia.
Qed.

Lemma wal_loop_frames frames ws : Forall2 frame_of frames ws →
  ∀ torn turns offset done_,
  torn = [] ∨ (∃ frame more, frame_of frame (torn ++ more) ∧ more ≠ []) →
  length (concat ws ++ torn) ≤ turns →
  decode_wal_loop turns (concat ws ++ torn) offset done_
  = Ok (done_ ++ frames, offset + len (concat ws))%N.
Proof.
  induction 1 as [|frame w frames ws Hf HF IH]; intros torn turns offset done_ Ht Hn.
  - cbn [concat app]. unfold len. cbn. rewrite app_nil_r, N.add_0_r.
    destruct Ht as [->|(frame & more & Hf & Hm)].
    + by destruct turns.
    + by eapply (wal_loop_torn _ frame).
  - cbn [concat] in *. rewrite <-app_assoc in *. destruct turns as [|turns].
    + exfalso. destruct frame as [seq ops], Hf as (Hf&_&_).
      apply encode_frame_ok in Hf as (payload&_&_&->). rewrite !length_app, !length_u32 in Hn. lia.
    + rewrite (wal_loop_frame _ frame) by done. rewrite IH; [|done|].
      * rewrite <-app_assoc. cbn [app]. f_equal. f_equal. unfold len. rewrite length_app. lia.
      * destruct frame as [seq ops], Hf as (Hf&_&_).
        apply encode_frame_ok in Hf as (payload&_&_&->). rewrite !length_app, !length_u32 in Hn.
        rewrite length_app. lia.
Qed.

(** (C38) A write-ahead log that ends in a torn frame reads back as exactly
    the whole frames before it. For any frames that were encoded (of any of
    the seven operations) and any cut of one more frame, [decode_wal_prefix]
    of their bytes succeeds, returns those frames with their sequence numbers
    and operations, and says that it consumed exactly their bytes. *)
Theorem wal_torn_tail_dropped frames ws frame torn more :
  Forall2 frame_of frames ws → frame_of frame (torn ++ more) → more ≠ [] →
  decode_wal_prefix (concat ws ++ torn) = Ok (frames, len (concat ws)).
Proof.
  intros HF Hf Hm. unfold decode_wal_prefix. rewrite (wal_loop_frames frames ws HF); [done|eauto|done].
Qed.

Lemma wal_whole frames ws :
  Forall2 frame_of frames ws → decode_wal_prefix (concat ws) = Ok (frames, len (concat ws)).
Proof.
  intros HF. unfold decode_wal_prefix. rewrite <-(app_nil_r (concat ws)) at 1 2.
  by rewrite (wal_loop_frames frames ws HF); [|left|].
Qed.
End Frames.
