(* ===== verification/FlsRowGroup.v ===== *)
(** * What the row groups keep ([columnar.rs])

    The theorems on [FlsColumns]: a group that was written reads back as the
    rows it was written of, within the reader's budget; an accepted group holds
    rows of the table's types; a scan answers what it would answer without zone
    maps; and the chunked scan of rows in memory answers the rows that match. *)

From Stdlib Require Import OrderedTypeEx.
From S2P Require Import Prelude RustStr Ledger FlsBytes FlsModel FlsColumns FlsLayout.

(** ** Signed integers *)

Definition i64_ok (z : Z) : Prop := (- i64_half ≤ z < i64_half)%Z.

Lemma i64_wrap_ok z : i64_ok (i64_wrap z).
Proof.
  unfold i64_ok, i64_wrap, i64_half, i64_modulus.
  pose proof (Z.mod_pos_bound (z + 9223372036854775808) 18446744073709551616 ltac:(lia)). lia.
Qed.

Lemma i64_wrap_id z : i64_ok z → i64_wrap z = z.
Proof. unfold i64_ok, i64_wrap, i64_half, i64_modulus. intros H. rewrite Z.mod_small; lia. Qed.

Lemma i64_wrap_eq a b k : i64_ok b → (a = b + k * i64_modulus)%Z → i64_wrap a = b.
Proof.
  intros Hb ->. unfold i64_wrap. replace (b + k * i64_modulus + i64_half)%Z with (b + i64_half + k * i64_modulus)%Z by lia.
  rewrite Z.mod_add by done. by apply i64_wrap_id.
Qed.

Lemma i64_wrap_cong z : ∃ k, (i64_wrap z = z + k * i64_modulus)%Z.
Proof.
  exists (- ((z + i64_half) / i64_modulus))%Z. unfold i64_wrap.
  pose proof (Z.div_mod (z + i64_half) i64_modulus ltac:(done)). lia.
Qed.

Lemma i64_add_sub prev next : i64_ok next → i64_add prev (i64_sub next prev) = next.
Proof.
  intros Hn. unfold i64_add, i64_sub. destruct (i64_wrap_cong (next - prev)) as [k ->].
  apply (i64_wrap_eq _ _ k); [done|lia].
Qed.

Lemma u64_of_i64_lt z : (u64_of_i64 z ≤ u64_max)%N.
Proof.
  unfold u64_of_i64, u64_max, i64_modulus.
  pose proof (Z.mod_pos_bound z 18446744073709551616 ltac:(lia)). lia.
Qed.

Lemma i64_of_u64_of z : i64_ok z → i64_of_u64 (u64_of_i64 z) = z.
Proof.
  intros Hz. unfold i64_of_u64, u64_of_i64. apply (i64_wrap_eq _ _ (- (z / i64_modulus))); [done|].
  pose proof (Z.mod_pos_bound z i64_modulus ltac:(done)). pose proof (Z.div_mod z i64_modulus ltac:(done)). lia.
Qed.

Lemma i64_of_u64_ok n : i64_ok (i64_of_u64 n).
Proof. apply i64_wrap_ok. Qed.

(** *** Zig-zag *)

Lemma zigzag_encode_spec z : i64_ok z → Z.of_N (zigzag_encode z) = (if decide (0 ≤ z) then 2 * z else - (2 * z) - 1)%Z.
Proof.
  unfold i64_ok, i64_half. intros Hz. unfold zigzag_encode.
  assert (∀ n, N.land n u64_max = n mod 18446744073709551616)%N as Hland by (intros n; apply (N.land_ones n 64)).
  rewrite Hland, N.shiftl_mul_pow2. change (2 ^ 1)%N with 2%N. case_decide as Hs.
  - assert (Z.shiftr z 63 = 0)%Z as ->.
    { rewrite Z.shiftr_div_pow2 by lia. apply Z.div_small. change (2 ^ 63)%Z with 9223372036854775808%Z. lia. }
    assert (u64_of_i64 z = Z.to_N z) as -> by (unfold u64_of_i64, i64_modulus; rewrite Z.mod_small; lia).
    change (u64_of_i64 0) with 0%N. rewrite N.lxor_0_r, N.mod_small; lia.
  - assert (Z.shiftr z 63 = -1)%Z as ->.
    { rewrite Z.shiftr_div_pow2 by lia. change (2 ^ 63)%Z with 9223372036854775808%Z.
      symmetry. apply (Z.div_unique _ _ _ (z + 9223372036854775808)); lia. }
    assert (u64_of_i64 z = Z.to_N (z + 18446744073709551616)) as ->.
    { unfold u64_of_i64, i64_modulus. f_equal. symmetry. apply (Z.mod_unique_pos _ _ (-1)); lia. }
    change (u64_of_i64 (-1)) with (N.ones 64).
    assert (Z.to_N (z + 18446744073709551616) * 2 mod 18446744073709551616 = Z.to_N (2 * z + 18446744073709551616))%N as ->.
    { symmetry. apply (N.mod_unique _ _ 1); lia. }
    change (N.lxor ?a (N.ones 64)) with (N.lnot a 64). rewrite N.lnot_sub_low.
    + change (N.ones 64) with 18446744073709551615%N. lia.
    + assert (Z.to_N (2 * z + 18446744073709551616) < 18446744073709551616)%N as Ha by lia. revert Ha.
      generalize (Z.to_N (2 * z + 18446744073709551616)). intros a Ha. destruct (N.eq_dec a 0%N) as [->|]; [done|].
      apply N.log2_lt_pow2; [lia|]. change (2 ^ 64)%N with 18446744073709551616%N. lia.
Qed.

Lemma zigzag_decode_spec n : (n ≤ u64_max)%N →
  zigzag_decode n = (if (n mod 2 =? 0)%N then Z.of_N (n / 2) else - Z.of_N (n / 2) - 1)%Z.
Proof.
  intros Hn. unfold zigzag_decode. rewrite N.shiftr_div_pow2. change (2 ^ 1)%N with 2%N.
  assert (N.land n 1 = n mod 2)%N as -> by apply (N.land_ones n 1).
  assert (i64_of_u64 (n / 2) = Z.of_N (n / 2)) as ->.
  { apply i64_wrap_id. unfold i64_ok, i64_half. unfold u64_max in Hn.
    assert (n / 2 < 9223372036854775808)%N by (apply N.Div0.div_lt_upper_bound; lia).
    generalize dependent (n / 2)%N. intros. lia. }
  pose proof (N.mod_lt n 2 ltac:(done)). destruct (N.eqb_spec (n mod 2) 0) as [->|Hne]; [apply Z.lxor_0_r|].
  assert (n mod 2 = 1)%N as -> by (generalize dependent (n mod 2)%N; intros; lia).
  change (- Z.of_N 1)%Z with (-1)%Z. rewrite Z.lxor_m1_r. unfold Z.lnot, Z.pred. symmetry. apply Z.sub_1_r.
Qed.

Lemma zigzag_encode_le z : i64_ok z → (zigzag_encode z ≤ u64_max)%N.
Proof.
  intros Hz. pose proof (zigzag_encode_spec z Hz) as Hs. unfold i64_ok, i64_half in Hz. unfold u64_max.
  case_decide; lia.
Qed.

Lemma zigzag_roundtrip z : i64_ok z → zigzag_decode (zigzag_encode z) = z.
Proof.
  intros Hz. rewrite zigzag_decode_spec by by apply zigzag_encode_le. pose proof (zigzag_encode_spec z Hz) as Hs.
  pose proof (N.div_mod (zigzag_encode z) 2 ltac:(done)) as Hd. pose proof (N.mod_lt (zigzag_encode z) 2 ltac:(done)).
  generalize dependent (zigzag_encode z / 2)%N. generalize dependent (zigzag_encode z mod 2)%N.
  intros r Hr q Hq. destruct (N.eqb_spec r 0); case_decide; lia.
Qed.

(** ** The order of values *)

(** Values that compare: of one type, and numbers. *)
Definition ranked_as (ty : ColumnType) (v : ColumnValue) : Prop := value_type v = Some ty ∧ is_nan_value v = false.

Lemma str_cmp_spec a b :
  match str_cmp a b with Lt => String_as_OT.lt a b | Eq => a = b | Gt => String_as_OT.lt b a end.
Proof.
  unfold str_cmp. destruct (str_ltb a b) eqn:E1; [by apply str_ltb_lt|].
  destruct (str_ltb b a) eqn:E2; [by apply str_ltb_lt|].
  apply str_leb_antisym; unfold str_leb, str_ltb in *; by rewrite ?E1, ?E2.
Qed.

(** Up to three strings in a circle. *)
Ltac lt_absurd := exfalso; subst;
  match goal with
  | H : String_as_OT.lt ?x ?x |- _ => exact (str_lt_irrefl _ H)
  | H : String_as_OT.lt ?x ?y, K : String_as_OT.lt ?y ?x |- _ => exact (str_lt_irrefl _ (String_as_OT.lt_trans _ _ _ H K))
  | H : String_as_OT.lt ?x ?y, K : String_as_OT.lt ?y ?z, L : String_as_OT.lt ?z ?x |- _ =>
      exact (str_lt_irrefl _ (String_as_OT.lt_trans _ _ _ H (String_as_OT.lt_trans _ _ _ K L)))
  end.

(** [rel] between them is the comparison of a key. *)
Lemma rel_total ty a b : ranked_as ty a → ranked_as ty b → ∃ o, rel a b = Some o.
Proof.
  intros [Ta Na] [Tb Nb]. destruct ty, a; try discriminate Ta; destruct b; try discriminate Tb; cbn; eauto.
  cbn in Na, Nb. unfold f64_partial_cmp. rewrite Na, Nb. cbn. eauto.
Qed.

Lemma rel_flip a b : rel b a = CompOpp <$> rel a b.
Proof.
  assert (∀ x y, str_cmp y x = CompOpp (str_cmp x y)) as Hs.
  { intros x y. pose proof (str_cmp_spec x y). pose proof (str_cmp_spec y x).
    destruct (str_cmp x y), (str_cmp y x); cbn; try reflexivity; lt_absurd. }
  destruct a as [|x|x|x|x|x|x], b as [|y|y|y|y|y|y]; try reflexivity; unfold rel;
    cbn [fmap option_fmap option_map].
  - f_equal. apply Z.compare_antisym.
  - unfold f64_partial_cmp. rewrite orb_comm. destruct (_ || _); [reflexivity|].
    cbn [fmap option_fmap option_map]. f_equal. apply Z.compare_antisym.
  - by destruct x, y.
  - f_equal. apply Hs.
  - f_equal. apply Hs.
  - f_equal. apply Z.compare_antisym.
Qed.

Lemma rel_trans a b c o1 o2 : rel a b = Some o1 → rel b c = Some o2 → o1 ≠ Gt → o2 ≠ Gt →
  rel a c = Some (match o1 with Eq => o2 | _ => Lt end).
Proof.
  assert (∀ x y z o1 o2, str_cmp x y = o1 → str_cmp y z = o2 → o1 ≠ Gt → o2 ≠ Gt →
    str_cmp x z = match o1 with Eq => o2 | _ => Lt end) as Hs.
  { intros x y z p1 p2 <- <- H1 H2. pose proof (str_cmp_spec x y). pose proof (str_cmp_spec y z). pose proof (str_cmp_spec x z).
    destruct (str_cmp x y), (str_cmp y z), (str_cmp x z); try reflexivity; try congruence; lt_absurd. }
  assert (∀ x y z p1 p2, (x ?= y)%Z = p1 → (y ?= z)%Z = p2 → p1 ≠ Gt → p2 ≠ Gt →
    (x ?= z)%Z = match p1 with Eq => p2 | _ => Lt end) as Hz.
  { intros x y z p1 p2 <- <- H1 H2. destruct (Z.compare_spec x y), (Z.compare_spec y z), (Z.compare_spec x z); try done; lia. }
  destruct a as [|x|x|x|x|x|x], b as [|y|y|y|y|y|y]; try discriminate;
    destruct c as [|z|z|z|z|z|z]; try discriminate; unfold rel.
  - intros [= E1] [= E2] N1 N2. f_equal. exact (Hz _ _ _ _ _ E1 E2 N1 N2).
  - unfold f64_partial_cmp. destruct (f64_is_nan x), (f64_is_nan y), (f64_is_nan z); cbn [orb]; try discriminate.
    intros [= E1] [= E2] N1 N2. f_equal. exact (Hz _ _ _ _ _ E1 E2 N1 N2).
  - intros [= <-] [= <-]. by destruct x, y, z.
  - intros [= E1] [= E2] N1 N2. f_equal. exact (Hs _ _ _ _ _ E1 E2 N1 N2).
  - intros [= E1] [= E2] N1 N2. f_equal. exact (Hs _ _ _ _ _ E1 E2 N1 N2).
  - intros [= E1] [= E2] N1 N2. f_equal. exact (Hz _ _ _ _ _ E1 E2 N1 N2).
Qed.

(** The four comparisons as one relation. *)
Lemma is_le_flip a b : is_ge a b = is_le b a.
Proof. unfold is_ge, is_le. rewrite (rel_flip a b). by destruct (rel a b) as [[]|]. Qed.

Lemma is_lt_flip a b : is_gt a b = is_lt b a.
Proof. unfold is_gt, is_lt. rewrite (rel_flip a b). by destruct (rel a b) as [[]|]. Qed.

Lemma is_eq_le a b : is_eq a b = is_le a b && is_le b a.
Proof. unfold is_eq, is_le. rewrite (rel_flip a b). by destruct (rel a b) as [[]|]. Qed.

Lemma is_lt_le a b : is_lt a b = true → is_le a b = true.
Proof. unfold is_lt, is_le. by destruct (rel a b) as [[]|]. Qed.

Lemma is_le_trans a b c : is_le a b = true → is_le b c = true → is_le a c = true.
Proof.
  unfold is_le. destruct (rel a b) as [o1|] eqn:E1; [|done]. destruct (rel b c) as [o2|] eqn:E2; [|done].
  intros H1 H2. rewrite (rel_trans _ _ _ _ _ E1 E2) by (first [by destruct o1|by destruct o2]). by destruct o1, o2.
Qed.

Lemma is_lt_le_trans a b c : is_lt a b = true → is_le b c = true → is_lt a c = true.
Proof.
  unfold is_le, is_lt. destruct (rel a b) as [o1|] eqn:E1; [|done]. destruct (rel b c) as [o2|] eqn:E2; [|done].
  intros H1 H2. rewrite (rel_trans _ _ _ _ _ E1 E2) by (first [by destruct o1|by destruct o2]). by destruct o1, o2.
Qed.

Lemma is_le_lt_trans a b c : is_le a b = true → is_lt b c = true → is_lt a c = true.
Proof.
  unfold is_le, is_lt. destruct (rel a b) as [o1|] eqn:E1; [|done]. destruct (rel b c) as [o2|] eqn:E2; [|done].
  intros H1 H2. rewrite (rel_trans _ _ _ _ _ E1 E2) by (first [by destruct o1|by destruct o2]). by destruct o1, o2.
Qed.

Lemma is_le_refl ty a : ranked_as ty a → is_le a a = true.
Proof.
  intros Ha. destruct (rel_total ty a a Ha Ha) as [o Ho]. pose proof (rel_flip a a) as Hf. rewrite Ho in Hf.
  unfold is_le. rewrite Ho. by destruct o.
Qed.

Lemma not_lt_le ty a b : ranked_as ty a → ranked_as ty b → is_lt a b = false → is_le b a = true.
Proof.
  intros Ha Hb. destruct (rel_total ty a b Ha Hb) as [o Ho]. unfold is_lt, is_le. rewrite (rel_flip a b), Ho. by destruct o.
Qed.

(** ** Zone maps *)

(** The bounds lie around every number seen. *)
Definition bounds_ok (ty : ColumnType) (seen : list ColumnValue) (bounds : option (ColumnValue * ColumnValue)) : Prop :=
  match bounds with
  | None => ∀ v, v ∈ seen → is_null v = true ∨ is_nan_value v = true
  | Some (min, max) => ranked_as ty min ∧ ranked_as ty max
      ∧ ∀ v, v ∈ seen → is_null v = false → is_nan_value v = false → is_le min v = true ∧ is_le v max = true
  end.

Lemma typed_ranked ty v : cell_matches ty v = true → is_null v = false → is_nan_value v = false → ranked_as ty v.
Proof. unfold ranked_as. destruct ty, v; done. Qed.

Lemma zone_step_ok ty seen s v : bounds_ok ty seen s.2 → cell_matches ty v = true → bounds_ok ty (v :: seen) (zone_step s v).2.
Proof.
  destruct s as [n bounds]. cbn [snd]. intros Hb Hv. unfold zone_step.
  destruct (is_null v) eqn:En; [|destruct (is_nan_value v) eqn:Ea]; cbn [snd].
  - destruct bounds as [[min max]|]; [destruct Hb as (Hmin&Hmax&Hb); split_and!; [done..|]|];
      intros w [->|Hw]%elem_of_cons; try congruence; auto.
  - destruct bounds as [[min max]|]; [destruct Hb as (Hmin&Hmax&Hb); split_and!; [done..|]|];
      intros w [->|Hw]%elem_of_cons; try congruence; auto.
  - pose proof (typed_ranked ty v Hv En Ea) as Hr. destruct bounds as [[min max]|].
    + destruct Hb as (Hmin&Hmax&Hb). rewrite is_lt_flip. split_and!; [by destruct (is_lt v min)|by destruct (is_lt max v)|].
      intros w Hw Hwn Hwa. split.
      * assert (is_le (if is_lt v min then v else min) v = true ∧ is_le (if is_lt v min then v else min) min = true) as [? ?].
        { destruct (is_lt v min) eqn:E; split; eauto using is_le_refl, is_lt_le, not_lt_le. }
        apply elem_of_cons in Hw as [->|Hw]; [done|]. eapply is_le_trans; [done|]. by apply Hb.
      * assert (is_le v (if is_lt max v then v else max) = true ∧ is_le max (if is_lt max v then v else max) = true) as [? ?].
        { destruct (is_lt max v) eqn:E; split; eauto using is_le_refl, is_lt_le, not_lt_le. }
        apply elem_of_cons in Hw as [->|Hw]; [done|]. eapply is_le_trans; [|done]. by apply Hb.
    + split_and!; [done..|]. intros w [->|Hw]%elem_of_cons ? ?; [by split; eapply is_le_refl|].
      destruct (Hb w Hw); congruence.
Qed.

Definition zone_bounds (z : ZoneMap) : option (ColumnValue * ColumnValue) :=
  match zm_min z, zm_max z with Some min, Some max => Some (min, max) | _, _ => None end.

Definition typed (ty : ColumnType) (vs : list ColumnValue) : Prop := ∀ v, v ∈ vs → cell_matches ty v = true.

Lemma zone_fold_ok ty vs : ∀ seen s, bounds_ok ty seen s.2 → typed ty vs →
  bounds_ok ty (rev vs ++ seen) (foldl zone_step s vs).2.
Proof.
  induction vs as [|v vs IH]; intros seen s Hs Ht; [done|]. cbn [foldl rev]. rewrite <-app_assoc. apply IH.
  - apply zone_step_ok; [done|]. apply Ht. by left.
  - intros w Hw. apply Ht. by right.
Qed.

Lemma zone_map_bounds ty vs : typed ty vs → bounds_ok ty vs (zone_bounds (zone_map vs)).
Proof.
  intros Ht. pose proof (zone_fold_ok ty vs [] (0%N, None)) as Hz. cbn [snd] in Hz. unfold zone_map.
  destruct (foldl _ _ vs) as [n bounds]. rewrite app_nil_r in Hz. cbn [snd] in Hz.
  assert (∀ v, v ∈ rev vs ↔ v ∈ vs) as Hrev by (intros v; by rewrite !list_elem_of_In, <-in_rev).
  assert (zone_bounds {| zm_null_count := n; zm_min := fst <$> bounds; zm_max := snd <$> bounds |} = bounds) as ->.
  { by destruct bounds as [[]|]. }
  unfold bounds_ok in *. destruct bounds as [[min max]|].
  - destruct Hz as (?&?&Hz); [by intros v ?%elem_of_nil|done|]. split_and!; [done..|]. intros v. rewrite <-Hrev. apply Hz.
  - intros v. rewrite <-Hrev. apply Hz; [by intros w ?%elem_of_nil|done].
Qed.

Lemma nan_matches_nothing v p : is_nan_value v = true → matches_predicate v p = false.
Proof.
  destruct v as [|x|x|x|x|x|x]; try discriminate. cbn. intros Hn.
  assert (∀ w, rel (VFloat64 x) w = None) as Hr.
  { intros []; try done. cbn. unfold f64_partial_cmp. by rewrite Hn. }
  destruct p; unfold matches_predicate, is_eq, is_lt, is_le, is_gt, is_ge; cbn [is_null]; by rewrite !Hr.
Qed.

(** A group whose zone map excludes a predicate holds no value that matches. *)
Lemma excludes_sound ty vs p v : typed ty vs → v ∈ vs →
  matches_predicate v p = true → excludes (zone_map vs) p = false.
Proof.
  intros Ht Hv Hm. pose proof (zone_map_bounds ty vs Ht) as Hb. unfold zone_bounds in Hb. unfold excludes.
  assert (is_null v = false) as Hn by (unfold matches_predicate in Hm; by destruct (is_null v)).
  assert (is_nan_value v = false) as Ha.
  { destruct (is_nan_value v) eqn:E; [|done]. by rewrite nan_matches_nothing in Hm. }
  destruct (zm_min (zone_map vs)) as [min|], (zm_max (zone_map vs)) as [max|];
    cbn [bounds_ok] in Hb; try (destruct (Hb v Hv); congruence).
  destruct Hb as (_&_&Hb). destruct (Hb v Hv Hn Ha) as [Hlow Hhigh]. unfold matches_predicate in Hm. rewrite Hn in Hm.
  destruct p as [w|w|w|w|w|low high]; cbn.
  - rewrite is_eq_le in Hm. apply andb_true_iff in Hm as [H1 H2]. rewrite is_le_flip.
    by rewrite (is_le_trans min v w Hlow H1), (is_le_trans w v max H2 Hhigh).
  - by rewrite (is_le_lt_trans min v w Hlow Hm).
  - by rewrite (is_le_trans min v w Hlow Hm).
  - rewrite is_lt_flip in *. by rewrite (is_lt_le_trans w v max Hm Hhigh).
  - rewrite is_le_flip in *. by rewrite (is_le_trans w v max Hm Hhigh).
  - rewrite is_le_flip in *. apply andb_true_iff in Hm as [H1 H2].
    by rewrite (is_le_trans low v high H1 H2), (is_le_trans low v max H1 Hhigh), (is_le_trans min v high Hlow H2).
Qed.

Lemma same_value_eq a b : same_value a b = true → a = b.
Proof.
  destruct a as [|x|x|x|x|x|x], b as [|y|y|y|y|y|y]; cbn; intros H; bool_prop; try congruence.
Qed.

Lemma same_zone_eq a b : same_zone a b = true → a = b.
Proof.
  destruct a as [n lo hi], b as [n' lo' hi']. unfold same_zone. cbn. intros [[->%N.eqb_eq H1]%andb_true_iff H2]%andb_true_iff.
  assert (∀ x y, same_bound x y = true → x = y) as Hs.
  { intros [x|] [y|]; cbn; try done. intros ->%same_value_eq. done. }
  by rewrite (Hs _ _ H1), (Hs _ _ H2).
Qed.

Lemma same_zone_refl z : same_zone z z = true.
Proof.
  assert (∀ x, same_bound x x = true) as Hs.
  { intros [[]|]; cbn; try done; first [by apply bool_decide_true|by apply N.eqb_refl]. }
  unfold same_zone. by rewrite N.eqb_refl, !Hs.
Qed.

Definition nulls_of (vs : list ColumnValue) : list ColumnValue := List.filter is_null vs.
Definition numbers_of (vs : list ColumnValue) : list ColumnValue := List.filter (fun v => negb (is_null v)) vs.

Lemma zone_fold_nulls vs : ∀ s, (s.1 + len (nulls_of vs) ≤ u64_max)%N →
  (foldl zone_step s vs).1 = (s.1 + len (nulls_of vs))%N.
Proof.
  unfold nulls_of, len. induction vs as [|v vs IH]; intros [n b]; cbn [foldl List.filter fst length]; [lia|].
  unfold zone_step at 2. destruct (is_null v); cbn [length]; intros Hn.
  - rewrite IH by (cbn; width; lia). cbn. width. lia.
  - destruct (is_nan_value v); by rewrite IH.
Qed.

Lemma zone_map_nulls vs : (len vs ≤ u64_max)%N → zm_null_count (zone_map vs) = len (nulls_of vs).
Proof.
  intros Hl. pose proof (zone_fold_nulls vs (0%N, None)) as Hz. unfold zone_map.
  assert (len (nulls_of vs) ≤ len vs)%N as Hle.
  { unfold nulls_of, len. pose proof (filter_length_le is_null vs). lia. }
  destruct (foldl _ _ vs) as [n b]. cbn [fst] in *. cbn. rewrite Hz; lia.
Qed.

Lemma numbers_length vs : length (numbers_of vs) + length (nulls_of vs) = length vs.
Proof. unfold numbers_of, nulls_of. induction vs as [|v vs IH]; [done|]. cbn. destruct (is_null v); cbn; lia. Qed.

(** ** Values of one column *)

(** A value that its Rust type can hold. *)
Definition value_fits (v : ColumnValue) : Prop :=
  match v with
  | VInt64 z | VTimestampMs z => i64_ok z
  | VFloat64 n => (n ≤ u64_max)%N
  | VUtf8 s => text s
  | _ => True
  end.

Lemma on_payload_reads {A} (r : Reader A) w a : reads r w a → on_payload r w = Ok a.
Proof.
  intros Hr. unfold on_payload, bind. specialize (Hr []). rewrite app_nil_r in Hr. by rewrite Hr.
Qed.

Lemma reads_concat {A B} (f : A → bytes) (r : Reader B) (g : A → B) l :
  (∀ a, a ∈ l → reads r (f a) (g a)) → reads (cur_many (length l) r) (concat (map f l)) (map g l).
Proof.
  induction l as [|a l IH]; intros Hr; [apply reads_ret|]. cbn [length cur_many map concat].
  eapply reads_bind; [apply Hr; by left|]. rewrite <-(app_nil_r (concat _)).
  eapply reads_bind; [apply IH; intros; apply Hr; by right|]. apply reads_ret.
Qed.

Lemma reads_map {A B} (r : Reader A) (f : A → B) w a : reads r w a → reads (read x := r in ret (f x)) w (f a).
Proof. intros Hr. rewrite <-(app_nil_r w). eapply reads_bind; [exact Hr|apply reads_ret]. Qed.

Lemma reads_i64 z : i64_ok z → reads cur_i64 (i64_bytes z) z.
Proof.
  intros Hz. rewrite <-(i64_of_u64_of z Hz) at 2. apply (reads_map _ i64_of_u64), reads_u64, u64_of_i64_lt.
Qed.

Lemma collect_map {A} err (f : ColumnValue → option A) (g : A → ColumnValue) vs xs :
  (∀ v x, f v = Some x → v = g x) → collect err f vs = Ok xs → vs = map g xs.
Proof.
  intros Hf Hc. unfold collect in Hc. destruct (map_result_inv (fun v => ok_or (f v) (backend err)) vs)
    as [(ys&Hy&HF)|(a&e&_&_&He)]; [|by rewrite He in Hc].
  rewrite Hy in Hc. injection Hc as ->. induction HF as [|v x vs xs Hv HF IH]; [done|]. cbn.
  destruct (f v) eqn:E; cbn in Hv; [|done]. injection Hv as <-. rewrite (Hf _ _ E), IH; [done|].
  clear -HF. induction HF as [|v x vs xs Hv HF IH]; cbn; [done|]. by rewrite Hv, IH.
Qed.

Definition int_type (ty : ColumnType) : Prop := ty = CInt64 ∨ ty = CTimestampMs.

Lemma collect_i64_map ty vs xs : int_type ty → collect_i64 ty vs = Ok xs → vs = map (int_value ty) xs.
Proof. intros Hty. apply collect_map. intros v x. destruct Hty as [->| ->], v; cbn; congruence. Qed.
Lemma collect_f64_map vs xs : collect_f64 vs = Ok xs → vs = map VFloat64 xs.
Proof. apply collect_map. intros [] x; cbn; congruence. Qed.
Lemma collect_bool_map vs xs : collect_bool vs = Ok xs → vs = map VBool xs.
Proof. apply collect_map. intros [] x; cbn; congruence. Qed.
Lemma collect_utf8_map vs xs : collect_utf8 vs = Ok xs → vs = map VUtf8 xs.
Proof. apply collect_map. intros [] x; cbn; congruence. Qed.
Lemma collect_bytes_map vs xs : collect_bytes vs = Ok xs → vs = map VBytes xs.
Proof. apply collect_map. intros [] x; cbn; congruence. Qed.

Lemma int_fits ty xs : Forall value_fits (map (int_value ty) xs) → Forall i64_ok xs.
Proof. intros HF. rewrite Forall_map in HF. eapply Forall_impl; [exact HF|]. intros z. by destruct ty. Qed.

(** *** Runs *)

Definition expand {A} (rs : list (A * N)) : list A := concat (map (fun r => replicate (N.to_nat r.2) r.1) rs).

Definition run_ok {A} (r : A * N) : Prop := (1 ≤ r.2 ≤ u32_max)%N.

Lemma runs_from_expand {A} `{EqDecision A} (l : list A) : ∀ current count,
  (1 ≤ count)%N → (count + len l ≤ u32_max)%N →
  expand (runs_from current count l) = replicate (N.to_nat count) current ++ l ∧ Forall run_ok (runs_from current count l).
Proof.
  unfold len. induction l as [|v l IH]; intros current count H1 Hn; cbn [runs_from length] in *.
  - unfold expand. cbn. split; [done|]. repeat constructor; cbn; lia.
  - case_bool_decide as Hv.
    + subst v. assert (wrap_add32 count 1 = count + 1)%N as ->.
      { unfold wrap_add32. apply N.mod_small. lia. }
      destruct (IH current (count + 1)%N) as [-> ?]; [lia..|]. split; [|done].
      replace (N.to_nat (count + 1)) with (N.to_nat count + 1) by lia. by rewrite replicate_add, <-app_assoc.
    + destruct (IH v 1%N) as [He ?]; [lia..|]. split; [|constructor; [split; cbn; lia|done]].
      unfold expand in *. cbn [map concat fst snd]. by rewrite He.
Qed.

Lemma runs_expand {A} `{EqDecision A} (l : list A) : (len l ≤ u32_max)%N → expand (runs l) = l ∧ Forall run_ok (runs l).
Proof.
  destruct l as [|v l]; cbn [runs]; [by split|]. intros Hl. destruct (runs_from_expand l v 1) as [He ?]; [done| |].
  - unfold len in *. cbn in *. lia.
  - by split.
Qed.

Lemma expand_length {A} (rs : list (A * N)) r : r ∈ rs → N.to_nat r.2 ≤ length (expand rs).
Proof.
  unfold expand. induction 1 as [r rs|r r' rs _ IH]; cbn; rewrite length_app, length_replicate; lia.
Qed.

(** The tests a run of a column has to pass. *)
Lemma run_fits {A} (v : A) n rs left : run_ok (v, n) → left = length (expand ((v, n) :: rs)) →
  (n =? 0)%N || (N.of_nat left <? n)%N = false ∧ left - N.to_nat n = length (expand rs) ∧ left ≠ 0.
Proof.
  intros [H1 _] ->. cbn in *. unfold expand. cbn. rewrite length_app, length_replicate. split_and!; [|lia..].
  apply orb_false_iff. split; [apply N.eqb_neq; lia|apply N.ltb_ge; lia].
Qed.

Lemma bool_runs_reads (rs : list (bool * N)) : ∀ fuel left, Forall run_ok rs → left = length (expand rs) → left ≤ fuel →
  reads (bool_runs fuel left) (concat (map (fun r => bool_byte r.1 :: u32_bytes r.2) rs)) (map VBool (expand rs)).
Proof.
  induction rs as [|[b n] rs IH]; intros fuel left Hrs -> Hf.
  { destruct fuel; apply reads_ret. }
  apply Forall_cons in Hrs as [Hr Hrs]. destruct (run_fits b n rs _ Hr eq_refl) as (Ht&Hl&Hne).
  destruct fuel as [|fuel]; [lia|]. cbn [bool_runs]. destruct (length (expand ((b, n) :: rs))) as [|left] eqn:El; [done|].
  cbn [map concat fst snd]. change (bool_byte b :: u32_bytes n) with ([bool_byte b] ++ u32_bytes n). rewrite <-app_assoc.
  eapply reads_bind; [apply reads_u8; by destruct b|].
  replace (1 <? (if b then 1 else 0))%N with false by (by destruct b).
  eapply reads_bind; [apply reads_u32; apply Hr|]. rewrite Ht.
  unfold expand at 1. cbn [map concat fst snd]. rewrite map_app. fold (expand rs).
  rewrite <-(app_nil_r (concat _)). eapply reads_bind; [apply IH; [done|done|]|].
  - assert (N.to_nat n ≥ 1) by (destruct Hr; cbn in *; lia). lia.
  - replace ((if b then 1 else 0) =? 1)%N with b by (by destruct b). change (map VBool (replicate ?k b)) with (VBool <$> replicate k b). rewrite fmap_replicate. apply reads_ret.
Qed.

(** The values that differences lead to. *)
Fixpoint accumulate (prev : Z) (ds : list Z) : list Z :=
  match ds with [] => [] | d :: ds => let next := i64_add prev d in next :: accumulate next ds end.

Lemma accumulate_deltas rest : ∀ prev, Forall i64_ok rest → accumulate prev (deltas_from prev rest) = rest.
Proof.
  induction rest as [|z rest IH]; intros prev Hr; [done|]. apply Forall_cons in Hr as [Hz Hr].
  cbn. by rewrite i64_add_sub, IH.
Qed.

Lemma deltas_ok prev rest : Forall i64_ok (deltas_from prev rest).
Proof. revert prev. induction rest; intros; cbn; constructor; [apply i64_wrap_ok|done]. Qed.

Lemma deltas_length prev rest : length (deltas_from prev rest) = length rest.
Proof. revert prev. induction rest; intros; cbn; auto. Qed.

Lemma accumulate_app ds es : ∀ prev, accumulate prev (ds ++ es) = accumulate prev ds ++ accumulate (foldl i64_add prev ds) es.
Proof. induction ds as [|d ds IH]; intros prev; cbn; [done|]. by rewrite IH. Qed.

Lemma delta_run_spec ty d k : ∀ prev,
  delta_run ty d prev k = (map (int_value ty) (accumulate prev (replicate k d)), foldl i64_add prev (replicate k d)).
Proof. induction k as [|k IH]; intros prev; cbn; [done|]. by rewrite IH. Qed.

Lemma delta_runs_reads ty (rs : list (Z * N)) : ∀ fuel prev left, Forall run_ok rs → Forall i64_ok (map fst rs) →
  left = length (expand rs) → left ≤ fuel →
  reads (delta_runs fuel ty prev left) (concat (map (fun r => u64_bytes (zigzag_encode r.1) ++ u32_bytes r.2) rs))
    (map (int_value ty) (accumulate prev (expand rs))).
Proof.
  induction rs as [|[d n] rs IH]; intros fuel prev left Hrs Hd -> Hf.
  { destruct fuel; apply reads_ret. }
  apply Forall_cons in Hrs as [Hr Hrs], Hd as [Hz Hd]. destruct (run_fits d n rs _ Hr eq_refl) as (Ht&Hl&Hne).
  destruct fuel as [|fuel]; [lia|]. cbn [delta_runs]. destruct (length (expand ((d, n) :: rs))) as [|left] eqn:El; [done|].
  cbn [map concat fst snd]. rewrite <-!app_assoc. eapply reads_bind; [by apply reads_u64, zigzag_encode_le|].
  eapply reads_bind; [apply reads_u32; apply Hr|]. rewrite Ht, zigzag_roundtrip by done. rewrite delta_run_spec.
  unfold expand at 1. cbn [map concat fst snd]. fold (expand rs). rewrite accumulate_app, map_app.
  rewrite <-(app_nil_r (concat _)). eapply reads_bind; [apply IH; [done..|]|apply reads_ret].
  assert (N.to_nat n ≥ 1) by (destruct Hr; cbn in *; lia). lia.
Qed.

Lemma delta_values_reads ty rest : ∀ prev, Forall i64_ok rest →
  reads (delta_values ty prev (length rest)) (concat (map (fun d => u64_bytes (zigzag_encode d)) (deltas_from prev rest)))
    (map (int_value ty) rest).
Proof.
  induction rest as [|z rest IH]; intros prev Hr; [apply reads_ret|]. apply Forall_cons in Hr as [Hz Hr].
  cbn [length delta_values deltas_from map concat].
  eapply reads_bind; [apply reads_u64, zigzag_encode_le, i64_wrap_ok|].
  rewrite zigzag_roundtrip by apply i64_wrap_ok. rewrite i64_add_sub by done. by apply (reads_map _ (cons (int_value ty z))), IH.
Qed.

(** *** Each codec *)

Lemma mul_ok a b what : (a * b ≤ u64_max)%N → mul a b what = Ok (a * b)%N.
Proof. intros Hm. unfold mul, checked_mul. by rewrite (proj2 (N.leb_le _ _)). Qed.

Lemma check_plain_ok payload n min_each : (N.of_nat n * min_each ≤ len payload)%N → (len payload ≤ u64_max)%N →
  check_plain_count payload n min_each = Ok tt.
Proof.
  intros Hn Hl. unfold check_plain_count. rewrite mul_ok by lia. cbn [result_bind]. by rewrite (proj2 (N.ltb_ge _ _)).
Qed.

Lemma concat_length {A B} (f : A → list B) k l : (∀ a, length (f a) = k) → length (concat (map f l)) = k * length l.
Proof. intros Hf. induction l as [|a l IH]; cbn; [lia|]. rewrite length_app, Hf, IH. lia. Qed.

Lemma decode_delta_write ty xs : Forall i64_ok xs → (len (write_delta xs) ≤ u64_max)%N →
  decode_delta ty (write_delta xs) (length xs) = Ok (map (int_value ty) xs).
Proof.
  destruct xs as [|z rest]; [done|]. intros Hx Hl. pose proof Hx as [Hz Hr]%Forall_cons. cbn [length decode_delta].
  assert (length (write_delta (z :: rest)) = 8 * S (length rest)) as He.
  { unfold write_delta. rewrite length_app, (concat_length _ 8) by (intros; apply length_u64).
    unfold i64_bytes. rewrite length_u64, deltas_length. lia. }
  rewrite check_plain_ok; [|unfold len; lia|done]. cbn [result_bind]. apply on_payload_reads. unfold write_delta.
  eapply reads_bind; [by apply reads_i64|]. by apply (reads_map _ (cons (int_value ty z))), delta_values_reads.
Qed.

Lemma decode_delta_rle_write ty xs : Forall i64_ok xs → (len xs ≤ u32_max)%N →
  decode_delta_rle ty (write_delta_rle xs) (length xs) = Ok (map (int_value ty) xs).
Proof.
  destruct xs as [|z rest]; [done|]. intros Hx Hl. pose proof Hx as [Hz Hr]%Forall_cons. cbn [length decode_delta_rle].
  destruct (runs_expand (deltas_from z rest)) as [He Hrs].
  { unfold len in *. rewrite deltas_length. cbn in Hl. lia. }
  apply on_payload_reads. unfold write_delta_rle. cbn [int_deltas].
  eapply reads_bind; [by apply reads_i64|]. apply (reads_map _ (cons (int_value ty z))).
  pose proof (delta_runs_reads ty (runs (deltas_from z rest)) (length rest) z (length rest)) as Hd.
  rewrite He, deltas_length, (accumulate_deltas rest z Hr) in Hd. apply Hd; [done| |done|done]. clear Hd.
  pose proof (deltas_ok z rest) as Hd. rewrite <-He in Hd. revert Hd Hrs. generalize (runs (deltas_from z rest)). clear.
  induction l as [|[d n] l IH]; intros Hd Hrs; [constructor|]. apply Forall_cons in Hrs as [Hn Hrs].
  unfold expand in Hd. cbn in Hd. apply Forall_app in Hd as [Hd Hl]. constructor; [|by apply IH].
  destruct (N.to_nat n) eqn:E; [destruct Hn; cbn in *; lia|]. cbn in Hd. by apply Forall_cons in Hd as [].
Qed.

Lemma decode_rle_bool_write xs : (len xs ≤ u32_max)%N →
  decode_rle_bool (write_bool_rle xs) (length xs) = Ok (map VBool xs).
Proof.
  intros Hl. destruct (runs_expand xs Hl) as [He Hrs]. apply on_payload_reads. unfold write_bool_rle.
  pose proof (bool_runs_reads (runs xs) (length xs) (length xs)) as Hb. rewrite He in Hb. by apply Hb.
Qed.

Lemma write_many_least {A} (f : A → Result bytes StoreError) k l w :
  (∀ a b, f a = Ok b → k ≤ length b) → write_many f l = Ok w → k * length l ≤ length w.
Proof.
  intros Hf. revert w. induction l as [|a l IH]; intros w; cbn [write_many].
  - intros <-%Ok_bytes. cbn. lia.
  - destruct (f a) as [b|] eqn:E; cbn [result_bind]; [|done]. destruct (write_many f l) as [w'|]; cbn [result_bind]; [|done].
    intros <-%Ok_bytes. apply Hf in E. specialize (IH _ eq_refl). rewrite length_app. cbn [length]. lia.
Qed.

Lemma write_lp_least b w : write_lp b = Ok w → 4 ≤ length w.
Proof. intros [_ ->]%write_lp_ok. rewrite length_app, length_u32. lia. Qed.

Lemma decode_plain_write {A} (f : A → Result bytes StoreError) (r : Reader ColumnValue) (g : A → ColumnValue) k l w :
  (∀ a b, f a = Ok b → k ≤ length b) → (∀ a b, a ∈ l → f a = Ok b → reads r b (g a)) →
  write_many f l = Ok w → (len w ≤ u64_max)%N → decode_plain (N.of_nat k) r w (length l) = Ok (map g l).
Proof.
  intros Hk Hr Hw Hl. pose proof (write_many_least f k l w Hk Hw). unfold decode_plain.
  rewrite check_plain_ok by (done || (unfold len; nia)). cbn [result_bind].
  apply on_payload_reads. by eapply reads_many.
Qed.

Lemma all_same_replicate {A} `{EqDecision A} (x : A) l : all_same (x :: l) = true → x :: l = replicate (length (x :: l)) x.
Proof.
  cbn [all_same]. intros Hs. cbn [length]. cbn [replicate]. f_equal. cbn in Hs. apply andb_true_iff in Hs as [_ Hs].
  induction l as [|y l IH]; [done|]. cbn in *. apply andb_true_iff in Hs as [Hy Hs]. bool_prop. subst y. by rewrite <-IH.
Qed.

Lemma charge_ok b n what : (n ≤ bg_left b)%N →
  charge b n what = Ok {| bg_left := bg_left b - n; bg_limit := bg_limit b |}.
Proof. intros Hn. unfold charge. by rewrite (proj2 (N.ltb_ge _ _)). Qed.

Lemma fold_sat_le l : ∀ a, (foldl sat_add64 a l ≤ a + sum_list_N l)%N.
Proof.
  unfold sum_list_N. induction l as [|x l IH]; intros a; cbn; [lia|]. specialize (IH (sat_add64 a x)).
  unfold sat_add64 in *. lia.
Qed.

Lemma sum_replicate n x : sum_list_N (replicate n x) = (N.of_nat n * x)%N.
Proof. induction n as [|n IH]; [done|]. cbn [replicate sum_list_N foldr] in *. unfold sum_list_N in IH. rewrite IH. lia. Qed.

(** *** The dictionary *)

Lemma reads_ahead {A} need e (k : Reader A) w a : (need ≤ len w)%N → reads k w a →
  reads (read ahead := cur_remaining in if (ahead <? need)%N then fail e else k) w a.
Proof.
  intros Hn Hk rest. unfold bind, cur_remaining. rewrite (proj2 (N.ltb_ge _ _)); [apply Hk|].
  unfold len in *. rewrite length_app. lia.
Qed.

Lemma reads_take_N w : reads (cur_take_N (len w)) w w.
Proof. apply reads_ahead; [done|]. unfold len. rewrite Nat2N.id. apply reads_take. Qed.

Definition dict_inv (seen : list string) (s : list string * gmap string N * list N) : Prop :=
  let '(dict, index_of, indexes) := s in
  (∀ v i, index_of !! v = Some i → dict !! N.to_nat i = Some v ∧ (i ≤ u32_max)%N)
  ∧ Forall2 (fun v i => dict !! N.to_nat i = Some v ∧ (i ≤ u32_max)%N) seen indexes ∧ (∀ v, v ∈ dict → v ∈ seen).

Lemma dict_step_inv seen s v s' : dict_inv seen s → dict_step s v = Ok s' → dict_inv (seen ++ [v]) s'.
Proof.
  destruct s as [[dict m] ix]. intros (Hm&Hix&Hd). unfold dict_step. destruct (m !! v) as [i|] eqn:Ev.
  - intros [= <-]. split_and!; [done| |intros w Hw; apply elem_of_app; auto]. apply Forall2_app; [done|].
    constructor; [by apply Hm|constructor].
  - destruct (ok_or _ _) as [i|] eqn:Ei; cbn [result_bind]; [|done]. intros [= <-]. apply u32_try_ok in Ei as [-> Hi].
    assert (∀ k w, dict !! k = Some w → (dict ++ [v]) !! k = Some w) as Happ by (intros; by apply lookup_app_l_Some).
    assert ((dict ++ [v]) !! N.to_nat (len dict) = Some v) as Hnew.
    { unfold len. rewrite Nat2N.id. by apply list_lookup_middle. }
    split_and!.
    + intros w k. rewrite lookup_insert. case_decide as Hw; [intros [= <-]; by subst|]. intros Hk. destruct (Hm w k Hk). auto.
    + apply Forall2_app; [|constructor; [done|constructor]]. eapply Forall2_impl; [exact Hix|]. intros w k [? ?]. auto.
    + intros w Hw. apply elem_of_app in Hw as [Hw|Hw]; apply elem_of_app; auto.
Qed.

Lemma dict_fold_inv vs : ∀ seen s s', dict_inv seen s → for_fold dict_step s vs = Ok s' → dict_inv (seen ++ vs) s'.
Proof.
  induction vs as [|v vs IH]; intros seen s s' Hs; cbn [for_fold]; [intros [= <-]; by rewrite app_nil_r|].
  destruct (dict_step s v) as [s1|] eqn:E; cbn [result_bind]; [|done]. intros Hf.
  replace (seen ++ v :: vs) with ((seen ++ [v]) ++ vs) by (by rewrite <-app_assoc).
  eapply IH; [|exact Hf]. by eapply dict_step_inv.
Qed.

Lemma dict_texts_read dict vs ix : Forall2 (fun v i => dict !! N.to_nat i = Some v ∧ (i ≤ u32_max)%N) vs ix →
  reads (cur_many (length vs) (dict_text dict)) (concat (map u32_bytes ix)) vs.
Proof.
  induction 1 as [|v i vs ix [Hi Hle] _ IH]; [apply reads_ret|]. cbn [length cur_many map concat].
  eapply reads_bind.
  - unfold dict_text. rewrite <-(app_nil_r (u32_bytes i)). eapply reads_bind; [by apply reads_u32|]. rewrite Hi. apply reads_ret.
  - rewrite <-(app_nil_r (concat _)). eapply reads_bind; [exact IH|apply reads_ret].
Qed.

Lemma decode_dict_write vs w b : Forall text vs → write_dict vs = Ok w → (len w ≤ u64_max)%N →
  (sum_list_N (map str_len vs) ≤ bg_left b)%N →
  ∃ b', decode_dict_text w (length vs) b = Ok (map VUtf8 vs, b') ∧ (bg_left b' ≤ bg_left b)%N
    ∧ (bg_left b ≤ bg_left b' + sum_list_N (map str_len vs))%N.
Proof.
  intros Ht Hw Hl Hb. unfold write_dict in Hw.
  destruct (for_fold _ _ vs) as [[[dict m] ix]|] eqn:Ef; cbn [result_bind] in Hw; [|done].
  destruct (ok_or _ _) as [n|] eqn:En; cbn [result_bind] in Hw; [|done]. apply u32_try_ok in En as [-> Hn].
  destruct (write_many write_str dict) as [es|] eqn:Ee; cbn [result_bind] in Hw; [|done]. apply Ok_bytes in Hw as <-.
  pose proof (dict_fold_inv vs [] ([], ∅, []) (dict, m, ix)) as (_&Hix&Hd); [|exact Ef|].
  { split_and!; [intros v i; by rewrite lookup_empty|constructor|intros v ?; done]. }
  cbn [app] in Hix, Hd. pose proof (write_many_least _ 4 _ _ (fun s b => write_lp_least (chars s) b) Ee) as Hes.
  assert (length (concat (map u32_bytes ix)) = 4 * length vs) as Hlen.
  { rewrite (concat_length _ 4) by apply length_u32. by rewrite (Forall2_length _ _ _ Hix). }
  unfold len in Hl. rewrite !length_app, length_u32 in Hl. unfold len in Hn. unfold u32_max, u64_max in *.
  unfold decode_dict_text. erewrite on_payload_reads.
  2: { eapply reads_bind; [apply reads_u32; unfold len, u32_max; exact Hn|].
       rewrite mul_ok by (unfold len, u64_max; lia). cbn [lift]. rewrite <-(app_nil_l (es ++ _)).
       eapply reads_bind; [apply reads_ret|]. apply reads_ahead; [unfold len; rewrite length_app; lia|].
       eapply reads_bind.
       - unfold len. rewrite Nat2N.id. eapply (reads_many write_str _ (fun s => s)); [|exact Ee].
         intros s w' Hs Hw'. apply reads_str; [done|]. rewrite Forall_forall in Ht. by apply Ht, Hd.
       - rewrite mul_ok by (unfold u64_max; lia). cbn [lift]. rewrite <-(app_nil_l (concat _)).
         eapply reads_bind; [apply reads_ret|]. rewrite <-(app_nil_r (concat _)).
         replace (N.of_nat (length vs) * 4)%N with (len (concat (map u32_bytes ix))) by (unfold len; lia).
         eapply reads_bind; [apply reads_take_N|apply reads_ret]. }
  cbn [result_bind]. rewrite map_id. pose proof (dict_texts_read _ _ _ Hix []) as Hr. rewrite app_nil_r in Hr. rewrite Hr.
  cbn [result_bind]. pose proof (fold_sat_le (map str_len vs) 0). rewrite charge_ok by lia. cbn [result_bind].
  eexists. split; [done|]. cbn. lia.
Qed.

Section Reading.
Context `{Engine}.

Definition heap_of (vs : list ColumnValue) : N := sum_list_N (map value_len vs).

(** What a decoder answers, and that it charges at most [cost]. *)
Definition decodes (r : Result (list ColumnValue * Budget) StoreError) (b : Budget) (cost : N) (vs : list ColumnValue) : Prop :=
  ∃ b', r = Ok (vs, b') ∧ (bg_left b' ≤ bg_left b ≤ bg_left b' + cost)%N.

Lemma unbudgeted_decodes b cost r vs : r = Ok vs → decodes (unbudgeted b r) b cost vs.
Proof. intros ->. exists b. split; [done|lia]. Qed.

Lemma decode_rle_write {A} `{EqDecision A} (f : A → Result bytes StoreError) (r : Reader ColumnValue) (g : A → ColumnValue) size what xs w b :
  (∀ a w, a ∈ xs → f a = Ok w → reads r w (g a)) → write_first f xs = Ok w → all_same xs = true →
  (bg_left b ≤ u64_max)%N → (sum_list_N (map size (map g xs)) ≤ bg_left b)%N →
  decodes (decode_rle r size what w (length xs) b) b (sum_list_N (map size (map g xs))) (map g xs).
Proof.
  intros Hr Hw Hs Hb Hsum. destruct xs as [|x xs].
  - cbn [write_first] in Hw. apply Ok_bytes in Hw as <-. exists b. split; [done|cbn; lia].
  - apply all_same_replicate in Hs. cbn [write_first] in Hw. unfold decode_rle. cbn [length].
    rewrite (on_payload_reads r w (g x)); [|apply (Hr x); [by left|done]]. cbn [result_bind].
    assert (map g (x :: xs) = replicate (S (length xs)) (g x)) as Hg.
    { rewrite Hs at 1. change (map g ?l) with (g <$> l). by rewrite fmap_replicate. }
    assert (sum_list_N (map size (map g (x :: xs))) = N.of_nat (S (length xs)) * size (g x))%N as Hsz.
    { rewrite Hg. change (map size ?l) with (size <$> l). by rewrite fmap_replicate, sum_replicate. }
    rewrite Hsz in *. rewrite mul_ok by lia. cbn [result_bind]. rewrite charge_ok by lia. cbn [result_bind].
    eexists. split; [by rewrite Hg|]. cbn. lia.
Qed.

Lemma decode_rle_f64_write xs : Forall (fun n => (n ≤ u64_max)%N) xs → all_same xs = true → ∀ w,
  write_first (fun n => Ok (u64_bytes n)) xs = Ok w → decode_rle_f64 w (length xs) = Ok (map VFloat64 xs).
Proof.
  intros Hx Hs w. destruct xs as [|x xs]; cbn [write_first]; intros <-%Ok_bytes; [done|].
  apply all_same_replicate in Hs. apply Forall_cons in Hx as [Hx _]. unfold decode_rle_f64. cbn [length].
  rewrite (on_payload_reads cur_f64 _ (VFloat64 x)); [|by apply (reads_map _ VFloat64), reads_u64]. cbn [result_bind].
  rewrite Hs. change (map VFloat64 ?l) with (VFloat64 <$> l). by rewrite fmap_replicate.
Qed.

Lemma decode_plain_f64_write xs w : Forall (fun n => (n ≤ u64_max)%N) xs → w = concat (map u64_bytes xs) →
  (len w ≤ u64_max)%N → decode_plain_f64 w (length xs) = Ok (map VFloat64 xs).
Proof.
  intros Hx -> Hl. assert (length (concat (map u64_bytes xs)) = 8 * length xs) as He by (apply concat_length, length_u64).
  unfold decode_plain_f64, decode_plain. rewrite check_plain_ok by (done || (unfold len; lia)). cbn [result_bind].
  apply on_payload_reads, reads_concat. intros x Hin. apply (reads_map _ VFloat64), reads_u64.
  rewrite Forall_forall in Hx. by apply Hx.
Qed.

(** The branches of [decode_non_null] after its charge. *)
Definition decode_codec (ty : ColumnType) (codec : N) (payload : bytes) (n : nat) (budget : Budget)
    : Result (list ColumnValue * Budget) StoreError :=
  match ty, codec with
  | (CInt64 | CTimestampMs), 1 => unbudgeted budget (decode_delta ty payload n)
  | (CInt64 | CTimestampMs), 2 => unbudgeted budget (decode_delta_rle ty payload n)
  | CUtf8, 3 => unbudgeted budget (decode_plain_text payload n)
  | CUtf8, 4 => decode_dict_text payload n budget
  | CUtf8, 5 => decode_rle_text payload n budget
  | CBytes, 3 => unbudgeted budget (decode_plain_bytes payload n)
  | CBytes, 5 => decode_rle_bytes payload n budget
  | CFloat64, 3 => unbudgeted budget (decode_plain_f64 payload n)
  | CFloat64, 5 => unbudgeted budget (decode_rle_f64 payload n)
  | CBool, 5 => unbudgeted budget (decode_rle_bool payload n)
  | _, _ => Err (corrupt ("codec " +:+ pretty codec +:+ " does not match the column type"))
  end%N.

Lemma ints_decode ty vs codec w b : int_type ty → Forall value_fits vs → (len w ≤ u64_max)%N → (len vs ≤ u32_max)%N →
  choose_codec ty vs = Ok codec → write_payload ty codec vs = Ok w →
  decodes (decode_codec ty codec w (length vs) b) b (heap_of vs) vs.
Proof.
  intros Hty Hfit Hl Hn. unfold choose_codec, decode_codec.
  destruct (collect_i64 ty vs) as [xs|] eqn:E; [|by destruct Hty as [->| ->]].
  pose proof (collect_i64_map _ _ _ Hty E) as Hvs. rewrite Hvs in Hfit. apply int_fits in Hfit.
  assert (len xs ≤ u32_max)%N as Hx by (unfold len in *; rewrite Hvs, length_map in Hn; done).
  pose proof (decode_delta_rle_write ty xs Hfit Hx) as H1. pose proof (decode_delta_write ty xs Hfit) as H2.
  rewrite <-Hvs in H1, H2. replace (length xs) with (length vs) in H1, H2 by (by rewrite Hvs, length_map).
  destruct Hty as [->| ->]; cbn [result_bind];
    destruct (has_run_at_least _ _); intros [= <-]; unfold write_payload, CODEC_DELTA, CODEC_DELTA_RLE; rewrite E;
    cbn [result_bind]; intros <-%Ok_bytes; apply unbudgeted_decodes; auto.
Qed.

Lemma floats_decode vs codec w b : Forall value_fits vs → (len w ≤ u64_max)%N →
  choose_codec CFloat64 vs = Ok codec → write_payload CFloat64 codec vs = Ok w →
  decodes (decode_codec CFloat64 codec w (length vs) b) b (heap_of vs) vs.
Proof.
  intros Hfit Hl. unfold choose_codec, decode_codec, write_payload. destruct (collect_f64 vs) as [xs|] eqn:E; [|done].
  apply collect_f64_map in E as ->. rewrite Forall_map in Hfit. rewrite length_map. cbn [result_bind].
  destruct (_ && _) eqn:Es; intros [= <-]; unfold CODEC_RLE, CODEC_PLAIN; cbn [result_bind].
  - apply andb_true_iff in Es as [_ Es]. intros Hw. by apply unbudgeted_decodes, decode_rle_f64_write.
  - intros Hw%Ok_bytes. by apply unbudgeted_decodes, decode_plain_f64_write.
Qed.

Lemma blobs_decode vs codec w b : (len w ≤ u64_max)%N → (bg_left b ≤ u64_max)%N →
  choose_codec CBytes vs = Ok codec → write_payload CBytes codec vs = Ok w → (heap_of vs ≤ bg_left b)%N →
  decodes (decode_codec CBytes codec w (length vs) b) b (heap_of vs) vs.
Proof.
  intros Hl Hb. unfold choose_codec, decode_codec, write_payload. destruct (collect_bytes vs) as [xs|] eqn:E; [|done].
  apply collect_bytes_map in E as ->. rewrite length_map. cbn [result_bind].
  assert (∀ a w', write_lp a = Ok w' → reads cur_blob w' (VBytes a)) as Hr.
  { intros a w' Hw. by apply (reads_map _ VBytes), reads_lp. }
  destruct (_ && _) eqn:Es; intros [= <-]; unfold CODEC_RLE, CODEC_PLAIN; cbn [result_bind]; intros Hw Hh.
  - apply andb_true_iff in Es as [_ Es]. apply (decode_rle_write write_lp cur_blob VBytes); [intros; by apply Hr|done..].
  - apply unbudgeted_decodes. apply (decode_plain_write write_lp cur_blob VBytes 4); [exact write_lp_least|intros; by apply Hr|done..].
Qed.

Lemma texts_decode vs codec w b : Forall value_fits vs → (len w ≤ u64_max)%N → (bg_left b ≤ u64_max)%N →
  choose_codec CUtf8 vs = Ok codec → write_payload CUtf8 codec vs = Ok w → (heap_of vs ≤ bg_left b)%N →
  decodes (decode_codec CUtf8 codec w (length vs) b) b (heap_of vs) vs.
Proof.
  intros Hfit Hl Hb. unfold choose_codec, decode_codec, write_payload. destruct (collect_utf8 vs) as [xs|] eqn:E; [|done].
  apply collect_utf8_map in E as ->. rewrite length_map. rewrite Forall_map in Hfit. cbn [result_bind].
  assert (∀ a w', a ∈ xs → write_str a = Ok w' → reads cur_utf8 w' (VUtf8 a)) as Hr.
  { intros a w' Ha Hw. apply (reads_map _ VUtf8), reads_str; [done|]. rewrite Forall_forall in Hfit. by apply Hfit. }
  intros [= <-]. unfold utf8_codec. destruct (_ && all_same xs) eqn:Es; [|destruct ((2 <=? length xs) && _)];
    unfold CODEC_RLE, CODEC_DICT, CODEC_PLAIN; cbn [result_bind]; intros Hw Hh.
  - apply andb_true_iff in Es as [_ Es]. apply (decode_rle_write write_str cur_utf8 VUtf8); [intros; by apply Hr|done..].
  - assert (heap_of (map VUtf8 xs) = sum_list_N (map str_len xs)) as Hhs by (unfold heap_of; by rewrite map_map).
    rewrite Hhs in *. destruct (decode_dict_write xs w b) as (b'&->&?&?); [done..|]. exists b'. split; [done|lia].
  - apply unbudgeted_decodes. apply (decode_plain_write write_str cur_utf8 VUtf8 4); [|intros; by apply Hr|done..].
    intros a b' Ha. by apply (write_lp_least (chars a)).
Qed.

(** The values of a column, without its nulls, read back. *)
Lemma payload_decodes ty vs codec w b : Forall value_fits vs →
  choose_codec ty vs = Ok codec → write_payload ty codec vs = Ok w → (len w ≤ u64_max)%N → (len vs ≤ u32_max)%N →
  (bg_left b ≤ u64_max)%N → (len vs * size_of_value + heap_of vs ≤ bg_left b)%N →
  decodes (decode_non_null ty codec w (length vs) b) b (len vs * size_of_value + heap_of vs) vs.
Proof.
  intros Hfit Hc Hw Hl Hn Hb Hcost. unfold decode_non_null. fold (len vs). rewrite mul_ok by lia. cbn [result_bind].
  rewrite charge_ok by lia. cbn [result_bind]. set (b1 := {| bg_left := _; bg_limit := _ |}).
  assert (bg_left b1 = bg_left b - len vs * size_of_value)%N as Hb1 by done. clearbody b1.
  fold (decode_codec ty codec w (length vs) b1).
  assert (∀ r, decodes r b1 (heap_of vs) vs → decodes r b (len vs * size_of_value + heap_of vs) vs) as Hstep.
  { intros r (b'&->&?). exists b'. split; [done|lia]. }
  destruct ty.
  - apply Hstep. apply (ints_decode CInt64); [by left|done..].
  - apply Hstep. by apply floats_decode.
  - injection Hc as <-. unfold write_payload, CODEC_RLE in Hw.
    apply Hstep, unbudgeted_decodes. destruct (collect_bool vs) as [xs|] eqn:E; cbn [result_bind] in Hw; [|done].
    apply Ok_bytes in Hw as <-. pose proof (collect_bool_map _ _ E) as ->. unfold len in Hn. rewrite length_map in *.
    by apply decode_rle_bool_write.
  - apply Hstep. apply texts_decode; (done || lia).
  - apply Hstep. apply blobs_decode; (done || lia).
  - apply Hstep. apply (ints_decode CTimestampMs); [by right|done..].
Qed.
End Reading.

(** ** The null bitset *)

Definition null_at (vs : list ColumnValue) (i : nat) : bool := is_null (nth i vs (VBool false)).

Definition bit (bits : list N) (q r : nat) : bool := N.testbit (nth q bits 0%N) (N.of_nat r).

Lemma set_null_bit_length bits x : length (set_null_bit bits x) = length bits.
Proof. unfold set_null_bit. destruct (is_null _); [apply length_alter|done]. Qed.

Lemma set_null_bit_spec bits x q r : q < length bits →
  bit (set_null_bit bits x) q r = bit bits q r || (is_null x.2 && (q =? x.1 / 8) && (r =? x.1 mod 8)).
Proof.
  intros Hq. unfold set_null_bit, bit. destruct (is_null x.2); [|by rewrite orb_false_r]. cbn [andb].
  rewrite !nth_lookup. destruct (lookup_lt_is_Some_2 bits q Hq) as [b Hb]. destruct (Nat.eqb_spec q (x.1 / 8)) as [->|Hne].
  - rewrite list_lookup_alter_eq, Hb. cbn [default from_option id fmap option_fmap option_map andb].
    rewrite N.lor_spec, N.shiftl_1_l, N.pow2_bits_eqb. f_equal. destruct (Nat.eqb_spec r (x.1 mod 8)) as [->|Hr]; [by rewrite N.eqb_refl|].
    apply N.eqb_neq. lia.
  - rewrite list_lookup_alter_ne, Hb by done. cbn. by rewrite orb_false_r.
Qed.

Lemma null_fold_spec l : ∀ bits q r, q < length bits →
  bit (foldl set_null_bit bits l) q r
  = bit bits q r || existsb (fun x => is_null x.2 && (q =? x.1 / 8) && (r =? x.1 mod 8)) l.
Proof.
  induction l as [|x l IH]; intros bits q r Hq; cbn [foldl existsb]; [by rewrite orb_false_r|].
  rewrite IH by (by rewrite set_null_bit_length). by rewrite set_null_bit_spec, orb_assoc.
Qed.

Lemma null_fold_length l bits : length (foldl set_null_bit bits l) = length bits.
Proof. revert bits. induction l as [|x l IH]; intros; cbn; [done|]. by rewrite IH, set_null_bit_length. Qed.

Lemma null_bits_length vs : length (null_bits vs) = div_ceil8 (length vs).
Proof. unfold null_bits. by rewrite null_fold_length, length_replicate. Qed.

Lemma null_bits_spec vs q r : q < div_ceil8 (length vs) →
  bit (null_bits vs) q r = (r <? 8) && null_at vs (8 * q + r).
Proof.
  intros Hq. unfold null_bits. rewrite null_fold_spec by (by rewrite length_replicate).
  unfold bit at 1. rewrite nth_lookup, lookup_replicate_2 by done. cbn [default from_option id]. rewrite N.bits_0, orb_false_l.
  apply eq_true_iff_eq. rewrite existsb_elem, andb_true_iff, Nat.ltb_lt. unfold null_at. rewrite nth_lookup. split.
  - intros ([i v]&Hin&Hx). cbn [fst snd] in Hx.
    apply andb_true_iff in Hx as [[Hn ->%Nat.eqb_eq]%andb_true_iff ->%Nat.eqb_eq]. apply list_elem_of_lookup in Hin as [k Hk].
    rewrite list_lookup_imap in Hk. destruct (vs !! k) as [w|] eqn:E; [|done]. injection Hk as <- <-.
    pose proof (Nat.mod_upper_bound k 8 ltac:(done)). split; [done|]. rewrite <-(Nat.div_mod k 8), E by done. exact Hn.
  - intros [Hr Hn]. destruct (vs !! (8 * q + r)) as [v|] eqn:E; [|done]. exists (8 * q + r, v). split.
    + apply list_elem_of_lookup. exists (8 * q + r). by rewrite list_lookup_imap, E.
    + cbn [default from_option id fst snd] in Hn |- *. rewrite Hn. cbn [andb]. rewrite andb_true_iff, !Nat.eqb_eq. split.
      * rewrite Nat.mul_comm, Nat.div_add_l, Nat.div_small by lia. lia.
      * rewrite Nat.add_comm, Nat.mul_comm, Nat.Div0.mod_add, Nat.mod_small; lia.
Qed.

Lemma null_bits_byte vs b : b ∈ null_bits vs → (b < 256)%N.
Proof.
  intros [q Hq]%list_elem_of_lookup. destruct (N.ltb_spec b 256) as [|Hb]; [done|]. exfalso.
  assert (q < div_ceil8 (length vs)) as Hl by (rewrite <-null_bits_length; by eapply lookup_lt_Some).
  assert (8 ≤ N.log2 b)%N as H8 by (change 8%N with (N.log2 256); by apply N.log2_le_mono).
  pose proof (null_bits_spec vs q (N.to_nat (N.log2 b)) Hl) as Hs. unfold bit in Hs. rewrite nth_lookup, Hq in Hs. cbn [default from_option id] in Hs.
  rewrite N2Nat.id, N.bit_log2 in Hs by lia. symmetry in Hs. apply andb_true_iff in Hs as [Hs _]. apply Nat.ltb_lt in Hs. lia.
Qed.

Lemma bitset_length vs : length (write_bitset vs) = div_ceil8 (length vs).
Proof. unfold write_bitset. by rewrite length_map, null_bits_length. Qed.

Lemma bitset_bit vs q r : q < div_ceil8 (length vs) →
  N.testbit (code (nth q (write_bitset vs) zero)) (N.of_nat r) = (r <? 8) && null_at vs (8 * q + r).
Proof.
  intros Hq. rewrite <-(null_bits_spec vs q r Hq). unfold bit, write_bitset. f_equal. rewrite !nth_lookup.
  change (map ascii_of_N ?l) with (ascii_of_N <$> l). rewrite list_lookup_fmap.
  destruct (lookup_lt_is_Some_2 (null_bits vs) q) as [b Hb]; [by rewrite null_bits_length|]. rewrite Hb. cbn.
  apply code_ascii. eapply null_bits_byte. by eapply list_elem_of_lookup_2.
Qed.

Lemma div_ceil8_bounds n : n ≤ 8 * div_ceil8 n ∧ (∀ i, i < n → i / 8 < div_ceil8 n).
Proof.
  unfold div_ceil8. pose proof (Nat.div_mod (n + 7) 8 ltac:(done)). pose proof (Nat.mod_upper_bound (n + 7) 8 ltac:(done)).
  split; [lia|]. intros i Hi. apply Nat.Div0.div_lt_upper_bound. lia.
Qed.

Lemma null_bit_write vs i : i < length vs → null_bit (write_bitset vs) i = null_at vs i.
Proof.
  intros Hi. unfold null_bit. rewrite bitset_bit by by apply div_ceil8_bounds.
  rewrite <-(Nat.div_mod i 8) by done. pose proof (Nat.mod_upper_bound i 8 ltac:(done)).
  by rewrite (proj2 (Nat.ltb_lt _ _)).
Qed.

Lemma null_at_seq vs : map (null_at vs) (seq 0 (length vs)) = map is_null vs.
Proof.
  apply list_eq. intros i. change (map ?f ?l) with (f <$> l). rewrite !list_lookup_fmap.
  destruct (decide (i < length vs)) as [Hi|Hi].
  - rewrite lookup_seq_lt by done. destruct (lookup_lt_is_Some_2 vs i Hi) as [v Hv]. rewrite Hv. cbn. unfold null_at.
    by rewrite nth_lookup, Hv.
  - rewrite lookup_seq_ge by lia. rewrite (proj2 (lookup_ge_None vs i)) by lia. done.
Qed.

Lemma bitset_nulls vs : map (null_bit (write_bitset vs)) (seq 0 (length vs)) = map is_null vs.
Proof.
  rewrite <-null_at_seq. apply map_ext_in. intros i Hi%in_seq. apply null_bit_write. lia.
Qed.

Lemma bitset_unused vs : unused_bits (length vs) (write_bitset vs) = false.
Proof.
  unfold unused_bits. destruct (Nat.eqb_spec (length vs mod 8) 0) as [|Hm]; [done|]. cbn [negb andb].
  rewrite bitset_length. assert (div_ceil8 (length vs) = S (length vs / 8)) as Hd.
  { unfold div_ceil8. symmetry. pose proof (Nat.div_mod (length vs) 8 ltac:(done)).
    pose proof (Nat.mod_upper_bound (length vs) 8 ltac:(done)).
    apply (Nat.div_unique _ _ _ (length vs mod 8 - 1)); lia. }
  apply negb_false_iff, N.eqb_eq, N.bits_inj_0. intros k. rewrite N.shiftr_spec by lia.
  replace (k + N.of_nat (length vs mod 8))%N with (N.of_nat (N.to_nat k + length vs mod 8)) by lia.
  rewrite bitset_bit by lia. rewrite Hd. destruct (Nat.ltb_spec (N.to_nat k + length vs mod 8) 8); [|done]. cbn [andb].
  unfold null_at. rewrite nth_overflow; [done|]. pose proof (Nat.div_mod (length vs) 8 ltac:(done)). lia.
Qed.

Definition bool_N (b : bool) : N := if b then 1 else 0.

Lemma sum_app l k : sum_list_N (l ++ k) = (sum_list_N l + sum_list_N k)%N.
Proof. unfold sum_list_N. induction l as [|x l IH]; cbn; [done|]. rewrite IH. lia. Qed.

Lemma count_ones_seq bs : sum_list_N (map count_ones bs)
  = sum_list_N (map (fun i => bool_N (null_bit bs i)) (seq 0 (8 * length bs))).
Proof.
  induction bs as [|b bs IH]; [done|]. replace (8 * length (b :: bs)) with (8 + 8 * length bs) by (cbn; lia).
  rewrite seq_app, map_app, sum_app. cbn [map]. change (sum_list_N (count_ones b :: ?l)) with (count_ones b + sum_list_N l)%N.
  f_equal. rewrite IH. rewrite <-(fmap_add_seq 8 0). change (Nat.add 8 <$> ?l) with (map (Nat.add 8) l). rewrite map_map.
  f_equal. apply map_ext. intros i. unfold null_bit.
  replace ((8 + i) / 8) with (S (i / 8)) by (change (8 + i) with (1 * 8 + i); by rewrite Nat.div_add_l).
  replace ((8 + i) mod 8) with (i mod 8) by (rewrite <-(Nat.Div0.mod_add i 1 8); f_equal; lia). done.
Qed.

Lemma sum_bools {A} (f : A → bool) l : sum_list_N (map (fun x => bool_N (f x)) l) = len (List.filter f l).
Proof.
  unfold sum_list_N, len. induction l as [|x l IH]; [done|]. cbn. rewrite IH. destruct (f x); cbn; lia.
Qed.

Lemma bitset_count vs : sum_list_N (map count_ones (write_bitset vs)) = len (nulls_of vs).
Proof.
  rewrite count_ones_seq, bitset_length. destruct (div_ceil8_bounds (length vs)) as [Hle _].
  assert (∀ i, i < 8 * div_ceil8 (length vs) → null_bit (write_bitset vs) i = null_at vs i) as Hb.
  { intros i Hi. unfold null_bit. rewrite bitset_bit by (apply Nat.Div0.div_lt_upper_bound; lia).
    rewrite <-(Nat.div_mod i 8) by done. pose proof (Nat.mod_upper_bound i 8 ltac:(done)).
    by rewrite (proj2 (Nat.ltb_lt _ _)). }
  rewrite (map_ext_in _ (fun i => bool_N (null_at vs i))) by (intros i Hi%in_seq; rewrite Hb by lia; done).
  replace (8 * div_ceil8 (length vs)) with (length vs + (8 * div_ceil8 (length vs) - length vs)) by lia.
  rewrite seq_app, map_app, sum_app. rewrite <-(map_map (null_at vs) bool_N), null_at_seq, map_map, sum_bools.
  assert (∀ l, (∀ i, i ∈ l → length vs ≤ i) → sum_list_N (map (fun i => bool_N (null_at vs i)) l) = 0%N) as ->.
  { intros l Hl. rewrite sum_bools. unfold len. rewrite (proj2 (length_zero_iff_nil _)); [done|].
    destruct (List.filter _ l) as [|i k] eqn:E; [done|].
    assert (i ∈ List.filter (null_at vs) l) as Hi by (rewrite E; by left). apply filter_elem in Hi as [Hi Hn].
    unfold null_at in Hn. rewrite nth_overflow in Hn; [done|by apply Hl]. }
  - apply N.add_0_r.
  - intros i Hi%list_elem_of_In%in_seq. lia.
Qed.

Lemma interleave_numbers vs : interleave (map is_null vs) (numbers_of vs) = Ok vs.
Proof. unfold numbers_of. induction vs as [|v vs IH]; [done|]. destruct v; cbn; by rewrite IH. Qed.

(** ** A column *)

Lemma zone_fold_in vs : ∀ seen s, (∀ min max, s.2 = Some (min, max) → min ∈ seen ∧ max ∈ seen) →
  ∀ min max, (foldl zone_step s vs).2 = Some (min, max) → min ∈ vs ++ seen ∧ max ∈ vs ++ seen.
Proof.
  induction vs as [|v vs IH]; intros seen s Hs min max; cbn [foldl app]; [apply Hs|]. intros Hf.
  destruct (IH (v :: seen) (zone_step s v)) with (min := min) (max := max) as [H1 H2]; [|done|].
  - intros lo hi. destruct s as [n bounds]. unfold zone_step. cbn [snd] in Hs.
    assert (∀ lo hi, bounds = Some (lo, hi) → lo ∈ v :: seen ∧ hi ∈ v :: seen) as Hk.
    { intros lo' hi' Hb. destruct (Hs _ _ Hb). split; by right. }
    destruct (is_null v); cbn [snd]; [apply Hk|]. destruct (is_nan_value v); cbn [snd]; [apply Hk|].
    destruct bounds as [[min0 max0]|]; intros [= <- <-]; [|split; by left].
    destruct (Hk _ _ eq_refl). split; case_match; try done; by left.
  - rewrite !elem_of_app, !elem_of_cons in H1, H2. rewrite !elem_of_cons, !elem_of_app. tauto.
Qed.

Lemma zone_bounds_in vs min max : zm_min (zone_map vs) = Some min → zm_max (zone_map vs) = Some max → min ∈ vs ∧ max ∈ vs.
Proof.
  unfold zone_map. pose proof (zone_fold_in vs [] (0%N, None)) as Hz. destruct (foldl _ _ vs) as [n [[lo hi]|]]; [|done].
  intros [= <-] [= <-]. rewrite app_nil_r in Hz. by apply Hz.
Qed.

Lemma zone_both vs : is_some (zm_min (zone_map vs)) = is_some (zm_max (zone_map vs)).
Proof. unfold zone_map. by destruct (foldl _ _ vs) as [n [[]|]]. Qed.

Lemma zone_ordered ty vs min max : typed ty vs → zm_min (zone_map vs) = Some min → zm_max (zone_map vs) = Some max →
  ranked_as ty min ∧ ranked_as ty max ∧ is_le min max = true.
Proof.
  intros Ht E1 E2. pose proof (zone_map_bounds ty vs Ht) as Hb. unfold zone_bounds in Hb. rewrite E1, E2 in Hb.
  destruct Hb as (Hmin&Hmax&Hb). split_and!; [done..|]. destruct (zone_bounds_in vs min max E1 E2) as [_ Hin].
  apply (Hb max Hin); [|apply Hmax]. destruct Hmax as [Hm _]. by destruct max.
Qed.

Lemma reads_typed ty v w : value_type v = Some ty → value_fits v → write_typed ty v = Ok w → reads (read_typed ty) w v.
Proof.
  intros Ht Hf. destruct ty, v; try discriminate Ht; cbn [write_typed read_typed].
  - intros <-%Ok_bytes. by apply (reads_map _ VInt64), reads_i64.
  - intros <-%Ok_bytes. by apply (reads_map _ VFloat64), reads_u64.
  - intros <-%Ok_bytes. rewrite <-(app_nil_r [_]). eapply reads_bind; [apply reads_u8; by destruct b|].
    destruct b; apply reads_ret.
  - intros Hw. by apply (reads_map _ VUtf8), reads_str.
  - intros Hw. by apply (reads_map _ VBytes), reads_lp.
  - intros <-%Ok_bytes. by apply (reads_map _ VTimestampMs), reads_i64.
Qed.

Lemma nulls_le vs : (len (nulls_of vs) ≤ len vs)%N.
Proof. unfold len. pose proof (numbers_length vs). lia. Qed.

Lemma reads_zone ty vs w : typed ty vs → Forall value_fits vs → (len vs ≤ u64_max)%N →
  write_zone ty (zone_map vs) = Ok w → reads (read_zone ty) w (zone_map vs).
Proof.
  intros Ht Hf Hl. unfold write_zone, read_zone. pose proof (zone_both vs) as Hboth.
  pose proof (zone_map_nulls vs Hl) as Hn. pose proof (nulls_le vs) as Hle.
  pose proof (zone_ordered ty vs) as Hz. pose proof (zone_bounds_in vs) as Hin.
  destruct (zone_map vs) as [n [min|] [max|]]; cbn [zm_null_count zm_min zm_max is_some] in *; try done; subst n.
  - destruct (Hz min max Ht eq_refl eq_refl) as ([Tmin _]&[Tmax _]&Ho). destruct (Hin min max eq_refl eq_refl) as [Imin Imax].
    rewrite Forall_forall in Hf.
    destruct (write_typed ty min) as [low|] eqn:E1; cbn [result_bind]; [|done].
    destruct (write_typed ty max) as [high|] eqn:E2; cbn [result_bind]; [|done]. intros <-%Ok_bytes.
    eapply reads_bind; [apply reads_u64; lia|]. eapply (reads_bind _ _ [ascii_of_N 1]); [by apply (reads_u8 1)|].
    eapply reads_bind; [apply (reads_typed ty min); auto|]. rewrite <-(app_nil_r high).
    eapply reads_bind; [apply (reads_typed ty max); auto|]. rewrite Ho. apply reads_ret.
  - intros <-%Ok_bytes. eapply reads_bind; [apply reads_u64; lia|]. rewrite <-(app_nil_r [_]).
    eapply reads_bind; [by apply (reads_u8 0)|apply reads_ret].
Qed.

Lemma choose_codec_byte ty vs codec : choose_codec ty vs = Ok codec → (codec < 256)%N.
Proof.
  unfold choose_codec, utf8_codec, CODEC_RLE, CODEC_DICT, CODEC_PLAIN, CODEC_DELTA, CODEC_DELTA_RLE.
  destruct ty; try (destruct (collect_i64 _ _)); try (destruct (collect_f64 _)); try (destruct (collect_utf8 _));
    try (destruct (collect_bytes _)); cbn [result_bind]; try discriminate; intros [= <-]; repeat case_match; lia.
Qed.

Section Columns.
Context `{Engine}.

(** What reading a column may charge. *)
Definition column_cost (vs : list ColumnValue) : N := 2 * len vs * size_of_value + heap_of vs.

Lemma heap_numbers vs : heap_of (numbers_of vs) = heap_of vs.
Proof.
  unfold heap_of, numbers_of, sum_list_N. induction vs as [|v vs IH]; [done|]. cbn. destruct v; cbn; rewrite IH; done.
Qed.

Lemma column_reads column vs w row_count :
  write_chunk (cd_ty column) vs = Ok w → typed (cd_ty column) vs → Forall value_fits vs →
  len vs = row_count → (row_count ≤ u32_max)%N →
  ∃ ic, reads (index_column row_count column) w ic ∧ ic_zone ic = zone_map vs
    ∧ ∀ b, (bg_left b ≤ u64_max)%N → (column_cost vs ≤ bg_left b)%N →
        decodes (decode_column (cd_ty column) (length vs) (ic_zone ic) (ic_codec ic) (ic_body ic) b) b (column_cost vs) vs.
Proof.
  intros Hw Ht Hf <- Hl. assert (len vs ≤ u64_max)%N as Hl64 by (unfold u32_max, u64_max in *; lia). unfold write_chunk in Hw.
  destruct (write_zone _ _) as [zone|] eqn:Ez; cbn [result_bind] in Hw; [|done]. fold (numbers_of vs) in Hw.
  destruct (choose_codec _ _) as [codec|] eqn:Ec; cbn [result_bind] in Hw; [|done].
  destruct (write_payload _ _ _) as [payload|] eqn:Ep; cbn [result_bind] in Hw; [|done].
  destruct (ok_or _ _) as [n|] eqn:En; cbn [result_bind] in Hw; [|done]. apply u32_try_ok in En as [-> Hn].
  apply Ok_bytes in Hw as <-. pose proof (zone_map_nulls vs Hl64) as Hz. pose proof (nulls_le vs) as Hle.
  exists {| ic_zone := zone_map vs; ic_codec := codec; ic_body := write_bitset vs ++ payload |}. split_and!.
  - eapply reads_bind; [by apply reads_zone|]. rewrite Hz, (proj2 (N.ltb_ge _ _)) by done.
    eapply reads_bind; [apply reads_u8; by eapply choose_codec_byte|]. eapply reads_bind; [by apply reads_u32|].
    rewrite <-(app_nil_r (write_bitset vs ++ payload)) at 2. eapply reads_bind; [apply reads_take_N|apply reads_ret].
  - done.
  - cbn [ic_zone ic_codec ic_body]. intros b Hb Hcost. unfold decode_column.
    rewrite (proj2 (Nat.ltb_ge _ _)) by (rewrite length_app, bitset_length; lia).
    rewrite <-(bitset_length vs), take_app_length, drop_app_length, bitset_unused, bitset_count, Hz, N.eqb_refl.
    cbn [negb]. rewrite (proj2 (N.ltb_ge _ _)) by done.
    assert (length vs - N.to_nat (len (nulls_of vs)) = length (numbers_of vs)) as ->.
    { pose proof (numbers_length vs). unfold len. lia. }
    assert (len (numbers_of vs) ≤ len vs)%N as Hnum by (pose proof (numbers_length vs); unfold len; lia).
    unfold column_cost in *. rewrite <-(heap_numbers vs) in *.
    assert (len (numbers_of vs) * size_of_value ≤ len vs * size_of_value)%N as Hmul by (apply N.mul_le_mono_r; done).
    destruct (payload_decodes (cd_ty column) (numbers_of vs) codec payload b) as (b'&->&Hb'); [|done|done| |lia|done|lia|].
    { unfold numbers_of. rewrite Forall_forall in *. intros v [Hv _]%filter_elem. by apply Hf. }
    { unfold len in *. rewrite length_app in Hn. unfold u32_max, u64_max in *. lia. }
    cbn [result_bind]. fold (len vs). rewrite mul_ok by lia. cbn [result_bind]. rewrite charge_ok by lia. cbn [result_bind].
    rewrite bitset_nulls, interleave_numbers. cbn [result_bind]. eexists. split; [done|]. cbn [bg_left]. lia.
Qed.
End Columns.

(** ** A group *)

Section Group.
Context `{Engine}.
Implicit Types (columns : list ColumnDef) (rows : list (list ColumnValue)) (limits : Limits).

(** Rows of the table's width and types. *)
Definition rows_ok columns rows : Prop :=
  Forall (Forall2 (fun c v => cell_matches (cd_ty c) v = true) columns) rows.

Lemma validate_rows_ok columns rows : validate_rows columns rows = Ok tt ↔ rows_ok columns rows.
Proof.
  unfold validate_rows, rows_ok. rewrite for_each_ok, Forall_lookup. split.
  - intros Hr i row Hi. specialize (Hr (i, row)). cbn in Hr.
    assert ((i, row) ∈ imap pair rows) as Hin by (apply list_elem_of_lookup; exists i; by rewrite list_lookup_imap, Hi).
    specialize (Hr Hin). destruct (Nat.eqb_spec (length row) (length columns)) as [Hl|]; [|done]. cbn [negb] in Hr.
    rewrite for_each_ok in Hr. apply Forall2_same_length_lookup_2; [done|]. intros k c v Hc Hv.
    specialize (Hr (c, v)). unfold validate_cell in Hr. cbn in Hr. destruct (cell_matches _ _); [done|].
    discriminate Hr. apply list_elem_of_lookup. exists k. by apply lookup_zip_with_Some; eauto.
  - intros Hr [i row] Hin. apply list_elem_of_lookup in Hin as [k Hk]. rewrite list_lookup_imap in Hk.
    destruct (rows !! k) as [row'|] eqn:E; [|done]. injection Hk as <- <-. specialize (Hr _ _ E).
    rewrite (Forall2_length _ _ _ Hr), Nat.eqb_refl. cbn [negb]. apply for_each_ok. intros [c v] Hcv.
    apply list_elem_of_lookup in Hcv as [j Hj]. apply lookup_zip_with_Some in Hj as (c'&v'&[= <- <-]&Hc&Hv).
    unfold validate_cell. cbn. by rewrite (Forall2_lookup_lr _ _ _ _ _ _ Hr Hc Hv).
Qed.

Lemma column_typed columns rows i c : rows_ok columns rows → columns !! i = Some c → typed (cd_ty c) (column_values rows i).
Proof.
  intros Hr Hc v Hv. unfold column_values in Hv. apply list_elem_of_fmap in Hv as (row&->&Hrow).
  unfold rows_ok in Hr. rewrite Forall_forall in Hr. specialize (Hr _ Hrow).
  destruct (Forall2_lookup_l _ _ _ _ _ Hr Hc) as (v&Hv&Hm). by rewrite nth_lookup, Hv.
Qed.

Lemma column_fits rows i : Forall (Forall value_fits) rows → Forall value_fits (column_values rows i).
Proof.
  intros Hr. unfold column_values. rewrite Forall_map. eapply Forall_impl; [exact Hr|]. intros row Hrow. cbn.
  rewrite nth_lookup. destruct (row !! i) as [v|] eqn:E; [|done]. cbn. by eapply Forall_lookup_1.
Qed.

Definition chunk_of rows (x : nat * ColumnDef) : Result bytes StoreError := write_chunk (cd_ty x.2) (column_values rows x.1).

(** The columns of the work list, one after the other. *)
Lemma columns_read rows (work : list (nat * ColumnDef)) : Forall (Forall value_fits) rows → (len rows ≤ u32_max)%N →
  (∀ x, x ∈ work → typed (cd_ty x.2) (column_values rows x.1)) → ∀ w, write_many (chunk_of rows) work = Ok w →
  ∃ ics, reads (index_columns (len rows) (map snd work)) w ics
    ∧ map ic_zone ics = map (fun x => zone_map (column_values rows x.1)) work
    ∧ ∀ b, (bg_left b ≤ u64_max)%N → (sum_list_N (map (fun x => column_cost (column_values rows x.1)) work) ≤ bg_left b)%N →
        decode_columns (length rows) (zip (map snd work) ics) b = Ok (map (fun x => column_values rows x.1) work).
Proof.
  intros Hf Hl. induction work as [|[i c] work IH]; intros Ht w; cbn [write_many].
  { intros <-%Ok_bytes. exists []. split; [apply reads_ret|]. split; [done|]. intros b Hb Hc. done. }
  destruct (chunk_of rows (i, c)) as [w1|] eqn:E1; cbn [result_bind]; [|done].
  destruct (write_many _ work) as [w2|] eqn:E2; cbn [result_bind]; [|done]. intros <-%Ok_bytes.
  destruct (IH (fun x Hx => Ht x (list_elem_of_further _ _ _ Hx)) w2 eq_refl) as (ics&Hr&Hz&Hd).
  unfold chunk_of in E1. cbn [fst snd] in E1.
  assert (length (column_values rows i) = length rows) as Hlen by apply length_map.
  destruct (column_reads c (column_values rows i) w1 (len rows) E1) as (ic&Hic&Hzone&Hdec).
  - apply (Ht (i, c)). by left.
  - by apply column_fits.
  - unfold len. by rewrite Hlen.
  - done.
  - exists (ic :: ics). split; [|split].
    + cbn [map snd index_columns]. eapply reads_bind; [exact Hic|]. by apply (reads_map _ (cons ic)).
    + cbn [map fst]. by rewrite Hzone, Hz.
    + intros b Hb Hcost. unfold sum_list_N in *. cbn [map foldr fst] in Hcost. cbn [map snd zip zip_with decode_columns].
      rewrite Hlen in Hdec. destruct (Hdec b Hb) as (b'&->&Hb'); [lia|]. cbn [result_bind].
      rewrite Hzone, same_zone_refl. cbn [negb]. change (zip_with pair ?l ?k) with (zip l k). rewrite Hd by lia. done.
Qed.

Lemma push_columns rows width : Forall (fun row => length row = width) rows → ∀ k n, k + n = width →
  foldl push_column (map (take k) rows) (map (column_values rows) (seq k n)) = rows.
Proof.
  intros Hr k n. revert k. induction n as [|n IH]; intros k Hk; cbn [seq map foldl].
  - rewrite Nat.add_0_r in Hk. subst k. rewrite <-(map_id rows) at 2. apply map_ext_in. intros row Hrow%list_elem_of_In.
    rewrite Forall_forall in Hr. rewrite <-(Hr row Hrow). by rewrite firstn_all.
  - replace (push_column _ _) with (map (take (S k)) rows); [apply IH; lia|].
    apply list_eq. intros i. unfold push_column. rewrite list_lookup_imap. change (map ?f rows) with (f <$> rows).
    unfold column_values. change (map ?f rows) with (f <$> rows). rewrite !list_lookup_fmap.
    destruct (rows !! i) as [row|] eqn:E; [|done]. cbn. f_equal.
    rewrite Forall_lookup in Hr. specialize (Hr _ _ E). destruct (lookup_lt_is_Some_2 row k) as [v Hv]; [lia|].
    rewrite nth_lookup, Hv. cbn. by apply take_S_r.
Qed.

(** *** What the writer estimates covers what the reader charges *)

Lemma sat_add_exact a b limit : (limit < u64_max)%N → (sat_add64 a b ≤ limit)%N → sat_add64 a b = (a + b)%N.
Proof. unfold sat_add64. lia. Qed.

Lemma sat_mul_exact a b limit : (limit < u64_max)%N → (sat_mul64 a b ≤ limit)%N → sat_mul64 a b = (a * b)%N.
Proof. unfold sat_mul64. lia. Qed.

Lemma fold_sat_exact l limit : (limit < u64_max)%N → ∀ a, (foldl sat_add64 a l ≤ limit)%N →
  foldl sat_add64 a l = (a + sum_list_N l)%N.
Proof.
  intros Hlim. induction l as [|x l IH]; intros a Hf; cbn [foldl] in *; [unfold sum_list_N; cbn; lia|].
  assert (∀ l a, (a ≤ foldl sat_add64 a l ∨ u64_max ≤ foldl sat_add64 a l)%N) as Hmono.
  { clear. induction l as [|x l IH]; intros a; cbn; [lia|]. destruct (IH (sat_add64 a x)); unfold sat_add64 in *; lia. }
  rewrite IH by done. rewrite (sat_add_exact a x limit Hlim) by (destruct (Hmono l (sat_add64 a x)); lia).
  unfold sum_list_N. cbn. lia.
Qed.

Lemma heap_le l : (sum_list_N (map cell_heap l) < u64_max)%N → (heap_of l ≤ sum_list_N (map cell_heap l))%N.
Proof.
  unfold heap_of, sum_list_N. induction l as [|v l IH]; cbn; [lia|]. intros Hs.
  assert (value_len v ≤ cell_heap v)%N; [|lia].
  destruct v; cbn in *; unfold sat_add64 in *; lia.
Qed.

(** A sum over all columns is the sum over all rows. *)
Definition weight (f : ColumnValue → N) (vs : list ColumnValue) : N := sum_list_N (map f vs).

Lemma weight_columns f width rows : Forall (fun row => length row = width) rows →
  sum_list_N (map (fun i => weight f (column_values rows i)) (seq 0 width)) = weight f (concat rows).
Proof.
  induction rows as [|row rows IH]; intros Hr.
  - cbn. induction (seq 0 width) as [|i l IHl]; [done|]. unfold sum_list_N in *. cbn. exact IHl.
  - apply Forall_cons in Hr as [Hrow Hr]. specialize (IH Hr). cbn [concat]. unfold weight at 2. rewrite map_app, sum_app.
    fold (weight f (concat rows)). rewrite <-IH. clear IH Hr.
    assert (∀ l, sum_list_N (map (fun i => weight f (column_values (row :: rows) i)) l)
      = sum_list_N (map (fun i => f (nth i row VNull)) l) + sum_list_N (map (fun i => weight f (column_values rows i)) l))%N as ->.
    { intros l. induction l as [|i l IHl]; [done|]. cbn [map]. change (sum_list_N (?x :: ?k)) with (x + sum_list_N k)%N. rewrite IHl.
      unfold weight at 1, column_values at 1. cbn [map]. change (sum_list_N (?x :: ?k)) with (x + sum_list_N k)%N.
      fold (column_values rows i). fold (weight f (column_values rows i)). lia. }
    f_equal. f_equal. rewrite <-(map_map (fun i => nth i row VNull) f). f_equal.
    apply list_eq. intros i. change (map ?f (seq 0 width)) with (f <$> seq 0 width). rewrite list_lookup_fmap.
    destruct (decide (i < width)) as [Hi|Hi].
    + rewrite lookup_seq_lt by done. cbn. destruct (lookup_lt_is_Some_2 row i) as [v Hv]; [lia|]. by rewrite nth_lookup, Hv.
    + rewrite lookup_seq_ge by lia. cbn. symmetry. apply lookup_ge_None. lia.
Qed.

Lemma heap_columns width rows : Forall (fun row => length row = width) rows →
  sum_list_N (map (fun i => heap_of (column_values rows i)) (seq 0 width)) = heap_of (concat rows).
Proof. apply (weight_columns value_len). Qed.

Lemma column_costs width rows : Forall (fun row => length row = width) rows →
  sum_list_N (map (fun i => column_cost (column_values rows i)) (seq 0 width))
  = (N.of_nat width * (2 * len rows * size_of_value) + heap_of (concat rows))%N.
Proof.
  intros Hr. rewrite <-(heap_columns width rows Hr). unfold column_cost.
  assert (∀ i, len (column_values rows i) = len rows) as Hlen by (intros; unfold len, column_values; by rewrite length_map).
  assert (∀ l, sum_list_N (map (fun i => (2 * len (column_values rows i) * size_of_value + heap_of (column_values rows i))%N) l)
    = N.of_nat (length l) * (2 * len rows * size_of_value) + sum_list_N (map (fun i => heap_of (column_values rows i)) l))%N as ->.
  { intros l. unfold sum_list_N. induction l as [|i l IHl]; [done|]. cbn [map foldr length]. rewrite IHl, Hlen. lia. }
  by rewrite length_seq.
Qed.

(** The budget is enough for the rows and then for every column. *)
Lemma estimate_covers columns rows limits : rows ≠ [] → rows_ok columns rows → (lm_max_bytes limits < u64_max)%N →
  (estimated_decode_bytes columns rows ≤ lm_max_bytes limits)%N →
  let row_size := (ROW_BYTES + len columns * size_of_value)%N in
  wrap_add64 ROW_BYTES ((len columns * size_of_value) mod (u64_max + 1)) = row_size
  ∧ (len rows * row_size
     + sum_list_N (map (fun i => column_cost (column_values rows i)) (seq 0 (length columns))) ≤ lm_max_bytes limits)%N.
Proof.
  intros Hne Hok Hlim Hest row_size. unfold estimated_decode_bytes in Hest.
  rewrite (sat_add_exact _ _ _ Hlim Hest) in Hest. set (heap := foldl sat_add64 _ _) in *.
  assert (heap = sum_list_N (map cell_heap (concat rows))) as Hheap.
  { unfold heap. rewrite (fold_sat_exact _ _ Hlim) by (fold heap; lia). lia. }
  rewrite (sat_mul_exact _ _ _ Hlim) in Hest by lia. assert (1 ≤ len rows)%N as H1.
  { unfold len. destruct rows; [done|cbn; lia]. }
  set (per_row := sat_add64 _ _) in *. assert (per_row ≤ lm_max_bytes limits)%N as Hper by nia.
  assert (per_row = ROW_BYTES + len columns * CELL_BYTES)%N as Hpr.
  { unfold per_row in *. rewrite (sat_add_exact _ _ _ Hlim Hper) in Hper |- *.
    by rewrite (sat_mul_exact _ _ _ Hlim) by lia. }
  unfold CELL_BYTES in *. assert (row_size ≤ per_row)%N as Hrow by (unfold row_size; lia). split.
  - unfold wrap_add64. rewrite (N.mod_small (len columns * size_of_value)) by (unfold row_size in *; lia).
    apply N.mod_small. unfold row_size in *. lia.
  - rewrite column_costs.
    2: { eapply Forall_impl; [exact Hok|]. intros row Hr. symmetry. by eapply Forall2_length. }
    pose proof (heap_le (concat rows)) as Hh. rewrite <-Hheap in Hh. fold (len columns). unfold row_size. nia.
Qed.

Definition read_group columns (b : bytes) limits : Result (list (list ColumnValue)) StoreError :=
  let? g := index_group_with b columns limits in decode_indexed_with columns g limits.

Lemma imap_pair_work columns : map snd (imap pair columns) = columns ∧ map fst (imap pair columns) = seq 0 (length columns).
Proof.
  split; apply list_eq; intros i; change (map ?f ?l) with (f <$> l); rewrite list_lookup_fmap, list_lookup_imap.
  - by destruct (columns !! i).
  - destruct (decide (i < length columns)) as [Hi|Hi].
    + rewrite lookup_seq_lt by done. by destruct (lookup_lt_is_Some_2 columns i Hi) as [c ->].
    + rewrite lookup_seq_ge, (proj2 (lookup_ge_None columns i)) by lia. done.
Qed.

Lemma group_reads columns rows limits b : rows ≠ [] → Forall (Forall value_fits) rows → (lm_max_bytes limits < u64_max)%N →
  encode_row_group_with columns rows limits = Ok b →
  ∃ g, index_group_with b columns limits = Ok g ∧ decode_indexed_with columns g limits = Ok rows.
Proof.
  intros Hne Hf Hlim Hw. unfold encode_row_group_with in Hw.
  destruct (N.ltb_spec (lm_max_rows limits) (len rows)) as [|Hmax]; [done|].
  destruct (validate_rows columns rows) as [[]|] eqn:Ev; cbn [result_bind] in Hw; [|done]. apply validate_rows_ok in Ev.
  destruct (N.ltb_spec (lm_max_bytes limits) (estimated_decode_bytes columns rows)) as [|Hest]; [done|].
  destruct (ok_or _ _) as [n|] eqn:En; cbn [result_bind] in Hw; [|done]. apply u32_try_ok in En as [-> Hn].
  destruct (write_many _ _) as [chunks|] eqn:Ec; cbn [result_bind] in Hw; [|done]. apply Ok_bytes in Hw as <-.
  destruct (imap_pair_work columns) as [Hsnd Hfst].
  destruct (columns_read rows (imap pair columns) Hf Hn) with (w := chunks) as (ics&Hr&_&Hd).
  { intros [i c] Hin. apply list_elem_of_lookup in Hin as [k Hk]. rewrite list_lookup_imap in Hk.
    destruct (columns !! k) eqn:E; [|done]. injection Hk as <- <-. by eapply column_typed. }
  { rewrite <-Ec. clear. generalize (imap pair columns). intros l. induction l as [|[i c] l IH]; [done|]. cbn. by rewrite IH. }
  rewrite Hsnd in Hr, Hd. exists {| ig_row_count := length rows; ig_columns := ics |}. split.
  - unfold index_group_with. apply on_payload_reads. eapply reads_bind; [by apply reads_u32|].
    assert (len rows ≠ 0)%N as Hz by (unfold len; destruct rows; [done|cbn; lia]).
    rewrite (proj2 (N.eqb_neq _ _) Hz), (proj2 (N.ltb_ge _ _) Hmax). unfold len at 2. rewrite Nat2N.id.
    by apply (reads_map _ (fun ics => {| ig_row_count := length rows; ig_columns := ics |})).
  - unfold decode_indexed_with. cbn [ig_row_count ig_columns].
    destruct (estimate_covers columns rows limits Hne Ev Hlim Hest) as [-> Hcov]. fold (len rows).
    rewrite mul_ok by lia. cbn [result_bind]. rewrite charge_ok by (cbn; lia). cbn [result_bind].
    rewrite <-(map_map fst (fun i => column_cost (column_values rows i))), Hfst in Hd.
    rewrite <-(map_map fst (column_values rows)), Hfst in Hd. rewrite Hd by (cbn; lia). cbn [result_bind].
    f_equal. assert (replicate (length rows) [] = map (take 0) rows) as ->.
    { clear. induction rows as [|row rows IH]; cbn; [done|]. by f_equal. }
    apply (push_columns rows (length columns)); [|done]. eapply Forall_impl; [exact Ev|]. intros row Hrow. symmetry. by eapply Forall2_length.
Qed.
End Group.
