(* ===== verification/FlsEncode.v ===== *)
(** * The writer of row groups is total within its limits ([columnar.rs], lines 302-340 and 375-654)

    A group of typed rows, no more than [max_rows] and no heavier than
    [max_bytes] by the writer's own estimate, is written: no codec refuses its
    column, every length prefix fits its 32 bits, and no column's body exceeds
    4 GiB. With what the reader gives back ([FlsRowGroup]) that is a
    characterisation: the groups that survive a write and a read are exactly
    the typed ones within the limits. *)

From S2P Require Import Prelude RustStr Ledger FlsBytes FlsModel FlsColumns FlsLayout FlsRowGroup.

Lemma collect_total {A} err (f : ColumnValue → option A) (g : A → ColumnValue) (P : ColumnValue → Prop) vs :
  (∀ v, P v → ∃ x, f v = Some x ∧ v = g x) → Forall P vs → ∃ xs, collect err f vs = Ok xs ∧ vs = map g xs.
Proof.
  intros Hf. unfold collect. induction 1 as [|v vs Hv _ (xs&Hc&->)]; [by exists []|].
  destruct (Hf v Hv) as (x&Hx&->). exists (x :: xs). cbn. by rewrite Hx, Hc.
Qed.

Definition of_type (ty : ColumnType) (v : ColumnValue) : Prop := value_type v = Some ty.

Lemma collect_i64_total ty vs : int_type ty → Forall (of_type ty) vs → ∃ xs, collect_i64 ty vs = Ok xs ∧ vs = map (int_value ty) xs.
Proof. intros Hty. apply collect_total. unfold of_type. destruct Hty as [->| ->]; intros [] Ht; try discriminate Ht; eauto. Qed.
Lemma collect_f64_total vs : Forall (of_type CFloat64) vs → ∃ xs, collect_f64 vs = Ok xs ∧ vs = map VFloat64 xs.
Proof. apply collect_total. intros [] Ht; try discriminate Ht; eauto. Qed.
Lemma collect_bool_total vs : Forall (of_type CBool) vs → ∃ xs, collect_bool vs = Ok xs ∧ vs = map VBool xs.
Proof. apply collect_total. intros [] Ht; try discriminate Ht; eauto. Qed.
Lemma collect_utf8_total vs : Forall (of_type CUtf8) vs → ∃ xs, collect_utf8 vs = Ok xs ∧ vs = map VUtf8 xs.
Proof. apply collect_total. intros [] Ht; try discriminate Ht; eauto. Qed.
Lemma collect_bytes_total vs : Forall (of_type CBytes) vs → ∃ xs, collect_bytes vs = Ok xs ∧ vs = map VBytes xs.
Proof. apply collect_total. intros [] Ht; try discriminate Ht; eauto. Qed.

(** A length prefix and its bytes. *)
Lemma write_lp_total b : (len b ≤ u32_max)%N → ∃ w, write_lp b = Ok w ∧ len w = (len b + 4)%N.
Proof.
  intros Hb. unfold write_lp, u32_try. rewrite (proj2 (N.leb_le _ _)) by done. cbn. eexists. split; [done|].
  unfold len. rewrite length_app, length_u32. lia.
Qed.

Lemma write_many_total {A} (f : A → Result bytes StoreError) (cost : A → N) l :
  (∀ a, a ∈ l → ∃ w, f a = Ok w ∧ (len w ≤ cost a)%N) →
  ∃ w, write_many f l = Ok w ∧ (len w ≤ sum_list_N (map cost l))%N.
Proof.
  induction l as [|a l IH]; intros Hf; [by exists []|]. destruct (Hf a) as (w1&E1&H1); [by left|].
  destruct IH as (w2&E2&H2); [intros; apply Hf; by right|]. exists (w1 ++ w2). cbn [write_many]. rewrite E1. cbn [result_bind].
  rewrite E2. cbn [result_bind]. split; [done|]. unfold len in *. rewrite length_app. cbn [map].
  change (sum_list_N (?x :: ?k)) with (x + sum_list_N k)%N. lia.
Qed.

Definition max_heap : N := 1073741824.

Lemma runs_from_length {A} `{EqDecision A} (l : list A) : ∀ current count, length (runs_from current count l) ≤ S (length l).
Proof. induction l as [|v l IH]; intros; cbn; [lia|]. case_bool_decide; cbn; [specialize (IH current (wrap_add32 count 1))|specialize (IH v 1%N)]; lia. Qed.

Lemma runs_length {A} `{EqDecision A} (l : list A) : length (runs l) ≤ length l.
Proof. destruct l as [|v l]; [done|]. apply runs_from_length. Qed.

(** The dictionary of the values: no heavier than they are. *)
Lemma dict_total (cost : string → N) vs : ∀ dict m ix, (len dict + len vs ≤ u32_max)%N →
  ∃ dict' m' ix', for_fold dict_step (dict, m, ix) vs = Ok (dict', m', ix') ∧ (len dict' ≤ len dict + len vs)%N
    ∧ length ix' = length ix + length vs ∧ (∀ v, v ∈ dict' → v ∈ dict ∨ v ∈ vs)
    ∧ (sum_list_N (map cost dict') ≤ sum_list_N (map cost dict) + sum_list_N (map cost vs))%N.
Proof.
  induction vs as [|v vs IH]; intros dict m ix Hl.
  { exists dict, m, ix. cbn. unfold len in *. cbn in *. split_and!; [done|lia|lia|auto|unfold sum_list_N; cbn; lia]. }
  unfold len in Hl. cbn [length for_fold map] in *. unfold dict_step at 1.
  change (sum_list_N (cost v :: ?k)) with (cost v + sum_list_N k)%N.
  destruct (m !! v) as [i|].
  - destruct (IH dict m (ix ++ [i])) as (d'&m'&ix'&Hf&Hd&Hi&Hin&Hc); [unfold len in *; lia|]. cbn [result_bind]. exists d', m', ix'.
    rewrite length_app in Hi. unfold len in *. cbn in Hi |- *. split_and!; [done|lia|lia| |lia].
    intros w Hw. destruct (Hin w Hw); [by left|right; by right].
  - assert (u32_try (len dict) = Some (len dict)) as -> by (unfold u32_try; rewrite (proj2 (N.leb_le _ _)); [done|unfold len; lia]).
    cbn [ok_or result_bind]. destruct (IH (dict ++ [v]) (<[v:=len dict]> m) (ix ++ [len dict])) as (d'&m'&ix'&Hf&Hd&Hi&Hin&Hc).
    { unfold len in *. rewrite length_app. cbn. lia. }
    exists d', m', ix'. rewrite length_app in Hi. unfold len in *. rewrite length_app in Hd. rewrite map_app, sum_app in Hc.
    unfold sum_list_N at 3 in Hc. cbn in Hi, Hd, Hc |- *. split_and!; [done|lia|lia| |lia].
    intros w Hw. specialize (Hin w Hw). rewrite elem_of_app, list_elem_of_singleton in Hin. rewrite elem_of_cons. tauto.
Qed.

(** What a column of [n] values may take in the body, apart from its null bits. *)
Definition payload_max (vs : list ColumnValue) : N := 16 + 12 * len vs + weight cell_heap vs.

Lemma concat_le {A} (f : A → bytes) k l : (∀ a, length (f a) = k) → len (concat (map f l)) = (N.of_nat k * len l)%N.
Proof. intros Hf. unfold len. rewrite (concat_length f k) by done. lia. Qed.

Definition payload_total_at (ty : ColumnType) (vs : list ColumnValue) : Prop :=
  ∃ codec w, choose_codec ty vs = Ok codec ∧ write_payload ty codec vs = Ok w ∧ (len w ≤ payload_max vs)%N.

Lemma ints_total ty vs : int_type ty → Forall (of_type ty) vs → payload_total_at ty vs.
Proof.
  intros Hty Ht. destruct (collect_i64_total ty vs Hty Ht) as (xs&Hc&Hvs).
  assert (len vs = len xs) as Hlen by (rewrite Hvs; unfold len; by rewrite length_map).
  assert (len (write_delta xs) ≤ 16 + 12 * len xs ∧ len (write_delta_rle xs) ≤ 16 + 12 * len xs)%N as [H1 H2].
  { destruct xs as [|x xs]; [unfold len; cbn; lia|]. unfold write_delta, write_delta_rle, len, i64_bytes.
    rewrite !length_app, !length_u64, (concat_length _ 8) by (intros; apply length_u64).
    rewrite (concat_length _ 12) by (intros; by rewrite length_app, length_u64, length_u32).
    pose proof (runs_length (int_deltas (x :: xs))) as Hr. cbn [int_deltas] in *. rewrite deltas_length in *. cbn [length]. lia. }
  unfold payload_total_at, payload_max, choose_codec, write_payload. destruct Hty as [->| ->]; rewrite Hc; cbn [result_bind];
    (destruct (has_run_at_least _ _); do 2 eexists; (split; [done|]); unfold CODEC_DELTA, CODEC_DELTA_RLE; cbn [result_bind]; (split; [done|]); lia).
Qed.

Lemma floats_total vs : Forall (of_type CFloat64) vs → payload_total_at CFloat64 vs.
Proof.
  intros Ht. destruct (collect_f64_total vs Ht) as (xs&Hc&Hvs).
  assert (len vs = len xs) as Hlen by (rewrite Hvs; unfold len; by rewrite length_map).
  unfold payload_total_at, payload_max, choose_codec, write_payload. rewrite Hc. cbn [result_bind].
  destruct (_ && _); [destruct xs as [|x xs]|]; do 2 eexists; (split; [done|]); unfold CODEC_RLE, CODEC_PLAIN;
    cbn [result_bind write_first].
  - split; [done|]. unfold len in *. cbn. lia.
  - split; [done|]. unfold len in *. rewrite length_u64. cbn. lia.
  - split; [done|]. rewrite (concat_le _ 8) by apply length_u64. lia.
Qed.

Lemma bools_total vs : Forall (of_type CBool) vs → payload_total_at CBool vs.
Proof.
  intros Ht. destruct (collect_bool_total vs Ht) as (xs&Hc&Hvs).
  assert (len vs = len xs) as Hlen by (rewrite Hvs; unfold len; by rewrite length_map).
  unfold payload_total_at, payload_max, choose_codec, write_payload. do 2 eexists. split; [done|]. unfold CODEC_RLE.
  rewrite Hc. cbn [result_bind]. split; [done|]. unfold write_bool_rle.
  rewrite (concat_le _ 5) by (intros; cbn; by rewrite length_u32). pose proof (runs_length xs). unfold len in *. lia.
Qed.

Lemma weight_elem f vs v : v ∈ vs → (f v ≤ weight f vs)%N.
Proof. unfold weight, sum_list_N. induction 1 as [v vs|v w vs _ IH]; cbn; lia. Qed.

(** A value whose length prefix is counted. *)
Lemma heap_fits n : (sat_add64 n 4 ≤ max_heap)%N → (n ≤ u32_max)%N ∧ (n + 4 = sat_add64 n 4)%N.
Proof. unfold sat_add64, max_heap, u64_max, u32_max. lia. Qed.

Lemma lp_fits vs v b : (weight cell_heap vs ≤ max_heap)%N → v ∈ vs → cell_heap v = sat_add64 (len b) 4 →
  ∃ w, write_lp b = Ok w ∧ (len w ≤ cell_heap v)%N.
Proof.
  intros Hw Hv Hc. rewrite Hc. destruct (heap_fits (len b)) as [H1 H2].
  { rewrite <-Hc. etrans; [by apply weight_elem|exact Hw]. }
  destruct (write_lp_total b H1) as (w&He&Hl). exists w. split; [exact He|]. rewrite Hl, H2. reflexivity.
Qed.

Lemma blobs_total vs : Forall (of_type CBytes) vs → (weight cell_heap vs ≤ max_heap)%N → payload_total_at CBytes vs.
Proof.
  intros Ht Hh. destruct (collect_bytes_total vs Ht) as (xs&Hc&Hvs).
  assert (∀ x, x ∈ xs → ∃ w, write_lp x = Ok w ∧ (len w ≤ cell_heap (VBytes x))%N) as Hlp.
  { intros x Hx. apply (lp_fits vs); [done| |done]. rewrite Hvs. apply list_elem_of_fmap. by exists x. }
  assert (sum_list_N (map (fun x => cell_heap (VBytes x)) xs) = weight cell_heap vs) as Hsum.
  { rewrite Hvs. unfold weight. by rewrite map_map. }
  unfold payload_total_at, payload_max, choose_codec, write_payload. rewrite Hc. cbn [result_bind].
  destruct (_ && _); unfold CODEC_RLE, CODEC_PLAIN.
  - destruct xs as [|x xs]; cbn [write_first].
    + do 2 eexists. split; [done|]. split; [done|]. cbn. unfold len. cbn. lia.
    + destruct (Hlp x) as (w&Hw&Hl); [by left|]. exists 5%N, w. split; [done|]. split; [done|].
      cbn [map] in Hsum. unfold sum_list_N in Hsum. cbn [foldr] in Hsum. lia.
  - destruct (write_many_total write_lp (fun x => cell_heap (VBytes x)) xs Hlp) as (w&Hw&Hl).
    exists 3%N, w. split; [done|]. split; [done|]. lia.
Qed.

Lemma texts_total vs : Forall (of_type CUtf8) vs → (weight cell_heap vs ≤ max_heap)%N → (len vs ≤ MAX_ROWS_PER_GROUP)%N →
  payload_total_at CUtf8 vs.
Proof.
  intros Ht Hh Hn. destruct (collect_utf8_total vs Ht) as (xs&Hc&Hvs).
  assert (len vs = len xs) as Hlen by (rewrite Hvs; unfold len; by rewrite length_map).
  assert (∀ x, x ∈ xs → ∃ w, write_str x = Ok w ∧ (len w ≤ cell_heap (VUtf8 x))%N) as Hlp.
  { intros x Hx. apply (lp_fits vs); [done| |]. { rewrite Hvs. apply list_elem_of_fmap. by exists x. }
    cbn. unfold str_len, len. by rewrite chars_length. }
  assert (sum_list_N (map (fun x => cell_heap (VUtf8 x)) xs) = weight cell_heap vs) as Hsum.
  { rewrite Hvs. unfold weight. by rewrite map_map. }
  unfold payload_total_at, payload_max, choose_codec, write_payload. rewrite Hc. cbn [result_bind].
  unfold utf8_codec. destruct (_ && all_same xs); [|destruct ((2 <=? length xs) && _)]; unfold CODEC_RLE, CODEC_DICT, CODEC_PLAIN.
  - destruct xs as [|x xs]; cbn [write_first].
    + do 2 eexists. split; [done|]. split; [done|]. cbn. unfold len. cbn. lia.
    + destruct (Hlp x) as (w&Hw&Hl); [by left|]. exists 5%N, w. split; [done|]. split; [done|].
      cbn [map] in Hsum. unfold sum_list_N in Hsum. cbn [foldr] in Hsum. lia.
  - destruct (dict_total (fun x => cell_heap (VUtf8 x)) xs [] ∅ []) as (dict&m&ix&Hf&Hd&Hix&Hin&Hcost).
    { unfold len in *. cbn. unfold MAX_ROWS_PER_GROUP, u32_max in *. lia. }
    destruct (write_many_total write_str (fun x => cell_heap (VUtf8 x)) dict) as (es&Hes&Hel).
    { intros x Hx. destruct (Hin x Hx) as [?%elem_of_nil|Hx']; [done|]. by apply Hlp. }
    assert (u32_try (len dict) = Some (len dict)) as Ht32.
    { unfold u32_try. rewrite (proj2 (N.leb_le _ _)); [done|]. unfold len, MAX_ROWS_PER_GROUP, u32_max in *. cbn in Hd. lia. }
    exists 4%N. unfold write_dict. rewrite Hf. cbn [result_bind]. rewrite Ht32. cbn [ok_or result_bind]. rewrite Hes. cbn [result_bind].
    eexists. split; [done|]. split; [done|]. unfold len in *. rewrite !length_app, length_u32, (concat_length _ 4) by apply length_u32.
    rewrite Hsum in Hcost. cbn [map length] in Hcost, Hix. change (sum_list_N []) with 0%N in Hcost. clear -Hel Hcost Hix Hlen. lia.
  - destruct (write_many_total write_str (fun x => cell_heap (VUtf8 x)) xs Hlp) as (w&Hw&Hl).
    exists 3%N, w. split; [done|]. split; [done|]. lia.
Qed.

Lemma payload_total ty vs : Forall (of_type ty) vs → (weight cell_heap vs ≤ max_heap)%N → (len vs ≤ MAX_ROWS_PER_GROUP)%N →
  payload_total_at ty vs.
Proof.
  intros Ht Hh Hn. destruct ty.
  - by apply ints_total; [left|].
  - by apply floats_total.
  - by apply bools_total.
  - by apply texts_total.
  - by apply blobs_total.
  - by apply ints_total; [right|].
Qed.

(** ** A column *)

Lemma write_typed_total ty v vs : value_type v = Some ty → v ∈ vs → (weight cell_heap vs ≤ max_heap)%N →
  ∃ w, write_typed ty v = Ok w.
Proof.
  intros Ht Hv Hw. destruct v; cbn in Ht; try discriminate Ht; injection Ht as <-; cbn [write_typed]; eauto.
  - destruct (lp_fits vs (VUtf8 s) (chars s) Hw Hv) as (w&He&_); [|by exists w].
    cbn. unfold str_len, len. by rewrite chars_length.
  - destruct (lp_fits vs (VBytes b) b Hw Hv) as (w&He&_); [done|by exists w].
Qed.

Lemma write_zone_total ty vs : typed ty vs → (weight cell_heap vs ≤ max_heap)%N → ∃ w, write_zone ty (zone_map vs) = Ok w.
Proof.
  intros Ht Hw. pose proof (zone_map_bounds ty vs Ht) as Hb. pose proof (zone_both vs) as Hboth.
  pose proof (zone_bounds_in vs) as Hin. unfold write_zone. unfold zone_bounds in Hb.
  destruct (zm_min (zone_map vs)) as [min|], (zm_max (zone_map vs)) as [max|]; try discriminate Hboth; [|by eexists].
  destruct (Hin min max eq_refl eq_refl) as [Hmin Hmax]. destruct Hb as ([Hm1 _]&[Hm2 _]&_).
  destruct (write_typed_total ty min vs Hm1 Hmin Hw) as (w1&->). cbn [result_bind].
  destruct (write_typed_total ty max vs Hm2 Hmax Hw) as (w2&->). cbn [result_bind]. by eexists.
Qed.

Lemma numbers_typed ty vs : typed ty vs → Forall (of_type ty) (numbers_of vs).
Proof.
  intros Ht. apply Forall_forall. intros v [Hv Hn]%filter_elem. specialize (Ht v Hv).
  destruct v, ty; cbn in Ht, Hn; try discriminate; done.
Qed.

Lemma weight_numbers vs : weight cell_heap (numbers_of vs) = weight cell_heap vs.
Proof.
  unfold weight, numbers_of, sum_list_N. induction vs as [|v vs IH]; [done|]. cbn. destruct v; cbn; by rewrite IH.
Qed.

Lemma write_chunk_total ty vs : typed ty vs → (weight cell_heap vs ≤ max_heap)%N → (len vs ≤ MAX_ROWS_PER_GROUP)%N →
  ∃ w, write_chunk ty vs = Ok w.
Proof.
  intros Ht Hw Hn. unfold write_chunk. destruct (write_zone_total ty vs Ht Hw) as (z&->). cbn [result_bind].
  fold (numbers_of vs). pose proof (numbers_length vs) as Hl.
  destruct (payload_total ty (numbers_of vs)) as (codec&w&->&Hp&Hle).
  - by apply numbers_typed.
  - by rewrite weight_numbers.
  - unfold len in *. lia.
  - cbn [result_bind]. rewrite Hp. cbn [result_bind]. unfold u32_try. rewrite (proj2 (N.leb_le _ _)); [by eexists|].
    unfold payload_max in Hle. rewrite weight_numbers in Hle. unfold len in *. rewrite length_app, bitset_length.
    assert (div_ceil8 (length vs) ≤ length vs + 7) as Hd by (unfold div_ceil8; apply Nat.Div0.div_le_upper_bound; lia).
    unfold max_heap, MAX_ROWS_PER_GROUP, u32_max in *. lia.
Qed.

(** ** A group *)

Section Encoding.
Context `{Engine}.
Implicit Types (columns : list ColumnDef) (rows : list (list ColumnValue)) (limits : Limits).

(** What a group may be. *)
Record group_within columns rows limits : Prop := {
  gw_rows : rows_ok columns rows;
  gw_count : (len rows ≤ lm_max_rows limits)%N;
  gw_bytes : (estimated_decode_bytes columns rows ≤ lm_max_bytes limits)%N;
}.

(** Limits no wider than the format's. *)
Definition limits_ok limits : Prop := (lm_max_rows limits ≤ MAX_ROWS_PER_GROUP ∧ lm_max_bytes limits ≤ MAX_DECODE_BYTES)%N.

Lemma sum_elem {A} (f : A → N) l a : a ∈ l → (f a ≤ sum_list_N (map f l))%N.
Proof. unfold sum_list_N. induction 1 as [a l|a b l _ IH]; cbn; lia. Qed.

Lemma column_weight columns rows i limits : rows_ok columns rows → limits_ok limits → i < length columns →
  (estimated_decode_bytes columns rows ≤ lm_max_bytes limits)%N → (weight cell_heap (column_values rows i) ≤ max_heap)%N.
Proof.
  intros Hr [_ Hl] Hi He. unfold estimated_decode_bytes in He. unfold MAX_DECODE_BYTES in Hl.
  assert (lm_max_bytes limits < u64_max)%N as Hlim by (unfold u64_max; lia).
  rewrite (sat_add_exact _ _ _ Hlim He) in He.
  assert (foldl sat_add64 0 (map cell_heap (concat rows)) ≤ lm_max_bytes limits)%N as Hh by lia.
  rewrite (fold_sat_exact _ _ Hlim _ Hh) in He.
  fold (weight cell_heap (concat rows)) in He.
  assert (Forall (fun row => length row = length columns) rows) as Hw.
  { eapply Forall_impl; [exact Hr|]. intros row Hrow. symmetry. by eapply Forall2_length. }
  rewrite <-(weight_columns cell_heap _ _ Hw) in He.
  pose proof (sum_elem (fun i => weight cell_heap (column_values rows i)) (seq 0 (length columns)) i) as Hs.
  rewrite list_elem_of_In, in_seq in Hs. cbn beta in Hs. unfold max_heap. lia.
Qed.

Lemma encode_total columns rows limits : limits_ok limits → group_within columns rows limits →
  ∃ b, encode_row_group_with columns rows limits = Ok b.
Proof.
  intros Hl [Hr Hc He]. unfold encode_row_group_with. rewrite (proj2 (N.ltb_ge _ _) Hc), (proj2 (validate_rows_ok _ _) Hr).
  cbn [result_bind]. rewrite (proj2 (N.ltb_ge _ _) He). destruct Hl as [Hl1 Hl2].
  assert (u32_try (len rows) = Some (len rows)) as ->.
  { unfold u32_try. rewrite (proj2 (N.leb_le _ _)); [done|]. unfold MAX_ROWS_PER_GROUP, u32_max in *. lia. }
  cbn [ok_or result_bind].
  destruct (write_many_total (fun '(index, column) => write_chunk (cd_ty column) (column_values rows index))
    (fun x => match write_chunk (cd_ty x.2) (column_values rows x.1) with Ok w => len w | _ => 0%N end) (imap pair columns))
    as (w&->&_); [|by eexists].
  intros [i c] Hin. apply list_elem_of_lookup in Hin as [k Hk]. rewrite list_lookup_imap in Hk.
  destruct (columns !! k) as [c'|] eqn:E; [|done]. injection Hk as <- <-. cbn [fst snd].
  destruct (write_chunk_total (cd_ty c') (column_values rows k)) as (w&->).
  - by eapply column_typed.
  - eapply (column_weight columns); [done|by split|by eapply lookup_lt_Some|done].
  - unfold len. unfold column_values. rewrite length_map. fold (len rows). lia.
  - by exists w.
Qed.

Lemma encode_within columns rows limits b : encode_row_group_with columns rows limits = Ok b → group_within columns rows limits.
Proof.
  unfold encode_row_group_with. destruct (N.ltb_spec (lm_max_rows limits) (len rows)); [done|].
  destruct (validate_rows columns rows) as [[]|] eqn:Ev; cbn [result_bind]; [|done]. apply validate_rows_ok in Ev.
  by destruct (N.ltb_spec (lm_max_bytes limits) (estimated_decode_bytes columns rows)).
Qed.

(** The bytes do not depend on the limits. *)
Lemma encode_widen columns rows l1 l2 b : encode_row_group_with columns rows l1 = Ok b → group_within columns rows l2 →
  encode_row_group_with columns rows l2 = Ok b.
Proof.
  intros He [Hr Hc Hb]. destruct (encode_within _ _ _ _ He) as [_ Hc' Hb']. unfold encode_row_group_with in *.
  by rewrite (proj2 (N.ltb_ge _ _) Hc), (proj2 (N.ltb_ge _ _) Hb) by done;
     rewrite (proj2 (N.ltb_ge _ _) Hc'), (proj2 (N.ltb_ge _ _) Hb') in He by done.
Qed.

Lemma encoded_reads columns rows limits b : rows ≠ [] → Forall (Forall value_fits) rows → limits_ok limits →
  encode_row_group_with columns rows limits = Ok b → read_group columns b limits = Ok rows.
Proof.
  intros Hne Hf [_ Hl] He. destruct (group_reads columns rows limits b Hne Hf) as (g&Hi&Hd); [|done|].
  { unfold MAX_DECODE_BYTES, u64_max in *. lia. }
  unfold read_group. by rewrite Hi.
Qed.

(** (C19) Rows survive a write and a read exactly when they are rows of the
    table within the limits: the writer refuses any others, writes these, and
    the reader, with its budget, gives back what was written, value for value. *)
Theorem row_group_roundtrip columns rows : rows ≠ [] → Forall (Forall value_fits) rows →
  (∃ b, encode_row_group columns rows = Ok b ∧ read_group columns b Limits_DEFAULT = Ok rows)
  ↔ rows_ok columns rows ∧ (len rows ≤ MAX_ROWS_PER_GROUP ∧ estimated_decode_bytes columns rows ≤ MAX_DECODE_BYTES)%N.
Proof.
  intros Hne Hf. split.
  - intros (b&He&_). apply encode_within in He as [? ? ?]. done.
  - intros (Hr&Hc&Hb). destruct (encode_total columns rows Limits_DEFAULT) as (b&He); [by split|by constructor|].
    exists b. split; [exact He|]. by apply encoded_reads.
Qed.
End Encoding.
