(* ===== verification/FlsScan.v ===== *)
(** * What the scans answer ([columnar.rs], lines 288-300, 666-757 and 1556-1616)

    A group that the reader accepts, whoever wrote it, holds rows of the table's
    types; its zone maps are those of its values. So a scan that skips groups
    by their zone maps answers the rows a scan of everything would. The writer
    accepts every group within the limits, so the chunked scan of rows in memory
    answers exactly the rows that match. *)

From S2P Require Import Prelude RustStr Ledger FlsBytes FlsModel FlsColumns FlsLayout FlsRowGroup FlsEncode.

(** ** What a decoder yields *)

Definition yields {A} (P : A → Prop) (r : Reader A) : Prop := ∀ cur a rest, r cur = Ok (a, rest) → P a.

Lemma yields_ret {A} (P : A → Prop) a : P a → yields P (ret a).
Proof. intros Hp cur x rest [= <- _]. exact Hp. Qed.

Lemma yields_fail {A} (P : A → Prop) e : yields P (fail e).
Proof. by intros cur a rest. Qed.

Lemma yields_bind {A B} (P : A → Prop) (Q : B → Prop) r k :
  yields P r → (∀ a, P a → yields Q (k a)) → yields Q (bind r k).
Proof.
  intros Hr Hk cur b rest. unfold bind. destruct (r cur) as [[a cur']|] eqn:E; [|done]. apply Hk. by eapply Hr.
Qed.

Lemma yields_any {A} (r : Reader A) : yields (fun _ => True) r.
Proof. done. Qed.

Lemma yields_if {A} (P : A → Prop) (b : bool) r1 r2 : yields P r1 → yields P r2 → yields P (if b then r1 else r2).
Proof. by destruct b. Qed.

Lemma yields_many {A} (P : A → Prop) n r : yields P r → yields (Forall P) (cur_many n r).
Proof.
  intros Hr. induction n as [|n IH]; cbn [cur_many]; [by apply yields_ret|].
  eapply yields_bind; [exact Hr|]. intros a Ha. eapply yields_bind; [exact IH|]. intros l Hl. apply yields_ret. by constructor.
Qed.

Lemma on_payload_yields {A} (P : A → Prop) r w a : yields P r → on_payload r w = Ok a → P a.
Proof.
  intros Hr. unfold on_payload, bind. destruct (r w) as [[x cur]|] eqn:E; cbn [result_bind]; [|done].
  destruct cur; cbn [cur_finish result_bind ret]; [|done]. intros [= <-]. by eapply Hr.
Qed.

(** A value of a column: of its type, and one its Rust type can hold. *)
Definition cell_ok (ty : ColumnType) (v : ColumnValue) : Prop := value_type v = Some ty ∧ value_fits v.

Lemma u64_yields : yields (fun n => (n ≤ u64_max)%N) cur_u64.
Proof.
  unfold cur_u64, cur_take. intros cur n rest. unfold bind. case_decide as Hd; [|done]. intros [= <- _].
  pose proof (le_value_lt (take 8 cur)) as Hl. rewrite length_take, Nat.min_l in Hl by done.
  unfold u64_max. change (256 ^ N.of_nat 8)%N with 18446744073709551616%N in Hl. lia.
Qed.

Lemma i64_yields : yields i64_ok cur_i64.
Proof. eapply yields_bind; [apply yields_any|]. intros n _. apply yields_ret, i64_of_u64_ok. Qed.

Lemma lp_str_yields : yields text cur_lp_str.
Proof.
  eapply yields_bind; [apply yields_any|]. intros b _. destruct (utf8_valid b) eqn:E; [|apply yields_fail].
  apply yields_ret. unfold text. by rewrite chars_str.
Qed.

Lemma utf8_yields : yields (cell_ok CUtf8) cur_utf8.
Proof. eapply (yields_bind text); [apply lp_str_yields|]. intros s Hs. by apply yields_ret. Qed.

Lemma blob_yields : yields (cell_ok CBytes) cur_blob.
Proof. eapply yields_bind; [apply yields_any|]. intros b _. by apply yields_ret. Qed.

Lemma f64_yields : yields (cell_ok CFloat64) cur_f64.
Proof. eapply yields_bind; [apply u64_yields|]. intros n Hn. by apply yields_ret. Qed.

Lemma int_cell ty z : int_type ty → i64_ok z → cell_ok ty (int_value ty z).
Proof. by intros [->| ->]. Qed.

Lemma delta_values_yields ty n : int_type ty → ∀ prev, yields (Forall (cell_ok ty)) (delta_values ty prev n).
Proof.
  intros Hty. induction n as [|n IH]; intros prev; cbn [delta_values]; [by apply yields_ret|].
  eapply yields_bind; [apply yields_any|]. intros d _. eapply yields_bind; [apply IH|]. intros l Hl.
  apply yields_ret. constructor; [by apply int_cell, i64_wrap_ok|done].
Qed.

Lemma delta_run_cells ty d n : int_type ty → ∀ prev, Forall (cell_ok ty) (delta_run ty d prev n).1.
Proof.
  intros Hty. induction n as [|n IH]; intros prev; cbn [delta_run]; [constructor|].
  specialize (IH (i64_add prev d)). destruct (delta_run ty d (i64_add prev d) n) as [l last].
  constructor; [by apply int_cell, i64_wrap_ok|exact IH].
Qed.

Lemma delta_runs_yields ty fuel : int_type ty → ∀ prev left, yields (Forall (cell_ok ty)) (delta_runs fuel ty prev left).
Proof.
  intros Hty. induction fuel as [|fuel IH]; intros prev [|left]; cbn [delta_runs];
    [by apply yields_ret|apply yields_fail|by apply yields_ret|].
  eapply yields_bind; [apply yields_any|]. intros d _. eapply yields_bind; [apply yields_any|]. intros n _.
  apply yields_if; [apply yields_fail|]. pose proof (delta_run_cells ty (zigzag_decode d) (N.to_nat n) Hty prev) as Hc.
  destruct (delta_run _ _ _ _) as [l last]. eapply yields_bind; [apply IH|]. intros l' Hl'. apply yields_ret.
  by apply Forall_app.
Qed.

Lemma bool_runs_yields fuel : ∀ left, yields (Forall (cell_ok CBool)) (bool_runs fuel left).
Proof.
  induction fuel as [|fuel IH]; intros [|left]; cbn [bool_runs]; [by apply yields_ret|apply yields_fail|by apply yields_ret|].
  eapply yields_bind; [apply yields_any|]. intros b _. apply yields_if; [apply yields_fail|].
  eapply yields_bind; [apply yields_any|]. intros n _. apply yields_if; [apply yields_fail|].
  eapply yields_bind; [apply IH|]. intros l Hl. apply yields_ret. apply Forall_app. split; [|done].
  by apply Forall_replicate.
Qed.

Lemma empty_payload_cells P w codec vs : empty_payload w codec = Ok vs → Forall P vs.
Proof. destruct w; [|done]. intros [= <-]. constructor. Qed.

Lemma decode_plain_cells ty k r w n vs : yields (cell_ok ty) r → decode_plain k r w n = Ok vs → Forall (cell_ok ty) vs.
Proof.
  intros Hr. unfold decode_plain. destruct (check_plain_count _ _ _); cbn [result_bind]; [|done].
  apply on_payload_yields. by apply yields_many.
Qed.

Lemma decode_ints_cells ty w n vs : int_type ty →
  (decode_delta ty w n = Ok vs → Forall (cell_ok ty) vs) ∧ (decode_delta_rle ty w n = Ok vs → Forall (cell_ok ty) vs).
Proof.
  intros Hty. destruct n as [|n]; cbn [decode_delta decode_delta_rle]; [split; apply empty_payload_cells|].
  assert (∀ k, (∀ z, yields (Forall (cell_ok ty)) (k z)) →
    yields (Forall (cell_ok ty)) (read first := cur_i64 in read rest := k first in ret (int_value ty first :: rest))) as Hc.
  { intros k Hk. eapply yields_bind; [apply i64_yields|]. intros z Hz. eapply yields_bind; [apply Hk|]. intros l Hl.
    apply yields_ret. constructor; [by apply int_cell|done]. }
  split.
  - destruct (check_plain_count _ _ _); cbn [result_bind]; [|done]. apply on_payload_yields, Hc. intros z. by apply delta_values_yields.
  - apply on_payload_yields, (Hc (fun z => delta_runs n ty z n)). intros z. by apply delta_runs_yields.
Qed.

Section Decoding.
Context `{Engine}.
Implicit Types (columns : list ColumnDef) (rows : list (list ColumnValue)) (limits : Limits).

Lemma decode_rle_cells ty r size what w n b vs b' : yields (cell_ok ty) r →
  decode_rle r size what w n b = Ok (vs, b') → Forall (cell_ok ty) vs.
Proof.
  intros Hr. destruct n as [|n]; cbn [decode_rle].
  - destruct (empty_payload _ _) eqn:E; cbn [result_bind]; [|done]. intros [= <- _]. by eapply empty_payload_cells.
  - destruct (on_payload r w) as [v|] eqn:E; cbn [result_bind]; [|done]. apply (on_payload_yields _ _ _ _ Hr) in E.
    destruct (mul _ _ _); cbn [result_bind]; [|done]. destruct (charge _ _ _); cbn [result_bind]; [|done].
    intros [= <- _]. change (v :: replicate n v) with (replicate (S n) v). by apply Forall_replicate.
Qed.

Lemma decode_dict_cells w n b vs b' : decode_dict_text w n b = Ok (vs, b') → Forall (cell_ok CUtf8) vs.
Proof.
  unfold decode_dict_text. destruct (on_payload (read_dict n) w) as [[dict ix]|] eqn:E; cbn [result_bind]; [|done].
  assert (Forall text dict) as Hd.
  { apply (on_payload_yields (fun p => Forall text p.1) _ _ _) in E; [exact E|]. unfold read_dict.
    do 3 (eapply yields_bind; [apply yields_any|]; intros ? _). apply yields_if; [apply yields_fail|].
    eapply yields_bind; [apply yields_many, lp_str_yields|].
    intros l Hl. do 2 (eapply yields_bind; [apply yields_any|]; intros ? _). by apply yields_ret. }
  destruct (cur_many n (dict_text dict) ix) as [[texts rest]|] eqn:Et; cbn [result_bind]; [|done].
  destruct (charge _ _ _); cbn [result_bind]; [|done]. intros [= <- _]. rewrite Forall_map.
  apply (yields_many text) in Et.
  - eapply Forall_impl; [exact Et|]. intros s Hs. done.
  - unfold dict_text. eapply yields_bind; [apply yields_any|]. intros i _. destruct (dict !! N.to_nat i) eqn:Ei; [|apply yields_fail].
    apply yields_ret. by eapply Forall_lookup_1.
Qed.

Lemma decode_rle_f64_cells w n vs : decode_rle_f64 w n = Ok vs → Forall (cell_ok CFloat64) vs.
Proof.
  destruct n as [|n]; cbn [decode_rle_f64]; [apply empty_payload_cells|].
  destruct (on_payload cur_f64 w) as [v|] eqn:E; cbn [result_bind]; [|done]. apply (on_payload_yields _ _ _ _ f64_yields) in E.
  intros [= <-]. change (v :: replicate n v) with (replicate (S n) v). by apply Forall_replicate.
Qed.

Lemma unbudgeted_inv b r vs b' : unbudgeted b r = Ok (vs, b') → r = Ok vs.
Proof. unfold unbudgeted. destruct r; cbn; [|done]. by intros [= -> _]. Qed.

Lemma decode_codec_cells ty codec w n b vs b' : decode_codec ty codec w n b = Ok (vs, b') → Forall (cell_ok ty) vs.
Proof.
  unfold decode_codec. intros Hd.
  destruct ty; repeat (case_match; try discriminate Hd); try (apply unbudgeted_inv in Hd);
    first [by eapply decode_dict_cells
          |by eapply decode_rle_cells; [apply utf8_yields|exact Hd]
          |by eapply decode_rle_cells; [apply blob_yields|exact Hd]
          |by eapply decode_plain_cells; [apply utf8_yields|exact Hd]
          |by eapply decode_plain_cells; [apply blob_yields|exact Hd]
          |by eapply decode_plain_cells; [apply f64_yields|exact Hd]
          |by apply (decode_ints_cells _ _ _ _ (or_introl eq_refl)) in Hd
          |by apply (decode_ints_cells _ _ _ _ (or_intror eq_refl)) in Hd
          |by eapply decode_rle_f64_cells
          |by apply (on_payload_yields (Forall (cell_ok CBool)) _ _ _ (bool_runs_yields n n)) in Hd].
Qed.

Lemma interleave_ok nulls : ∀ values out, interleave nulls values = Ok out →
  length out = length nulls ∧ ∀ v, v ∈ out → v = VNull ∨ v ∈ values.
Proof.
  induction nulls as [|b nulls IH]; intros values out; cbn [interleave].
  - destruct values; [|done]. intros [= <-]. split; [done|]. by intros v ?%elem_of_nil.
  - destruct b.
    + destruct (interleave nulls values) as [rest|] eqn:E; cbn [result_bind]; [|done]. intros [= <-].
      destruct (IH _ _ E) as [Hl Hin]. split; [cbn; lia|]. intros v [->|Hv]%elem_of_cons; auto.
    + destruct values as [|w values]; [done|].
      destruct (interleave nulls values) as [rest|] eqn:E; cbn [result_bind]; [|done]. intros [= <-].
      destruct (IH _ _ E) as [Hl Hin]. split; [cbn; lia|]. intros v [->|Hv]%elem_of_cons; [right; by left|].
      destruct (Hin v Hv); [by left|right; by right].
Qed.

(** A cell of a column: null, or a value of its type. *)
Definition cell_or_null (ty : ColumnType) (v : ColumnValue) : Prop := cell_matches ty v = true ∧ value_fits v.

Lemma cell_ok_or_null ty v : cell_ok ty v → cell_or_null ty v.
Proof. intros [Ht Hf]. split; [|done]. destruct v; cbn in Ht; try discriminate; injection Ht as <-; done. Qed.

Lemma decode_column_cells ty n zone codec body b vs b' : decode_column ty n zone codec body b = Ok (vs, b') →
  length vs = n ∧ Forall (cell_or_null ty) vs.
Proof.
  unfold decode_column. repeat (case_match; [done|]).
  destruct (decode_non_null _ _ _ _ _) as [[values b1]|] eqn:Ed; cbn [result_bind]; [|done].
  destruct (mul _ _ _); cbn [result_bind]; [|done]. destruct (charge _ _ _); cbn [result_bind]; [|done].
  destruct (interleave _ values) as [out|] eqn:Ei; cbn [result_bind]; [|done]. intros [= <- _].
  destruct (interleave_ok _ _ _ Ei) as [Hl Hin]. rewrite length_map, length_seq in Hl. split; [done|].
  assert (Forall (cell_ok ty) values) as Hv.
  { unfold decode_non_null in Ed. destruct (mul _ _ _); cbn [result_bind] in Ed; [|done].
    destruct (charge _ _ _) as [b2|]; cbn [result_bind] in Ed; [|done]. by apply (decode_codec_cells _ _ _ _ _ _ _ Ed). }
  rewrite Forall_forall in *. intros v Hv'. destruct (Hin v Hv') as [->|Hv'']; [by destruct ty|].
  apply cell_ok_or_null. by apply Hv.
Qed.

Lemma decode_columns_cells n (work : list (ColumnDef * IndexedColumn)) : ∀ b cols, decode_columns n work b = Ok cols →
  Forall2 (fun x vs => length vs = n ∧ Forall (cell_or_null (cd_ty x.1)) vs ∧ ic_zone x.2 = zone_map vs) work cols.
Proof.
  induction work as [|[c ic] work IH]; intros b cols; cbn [decode_columns]; [intros [= <-]; constructor|].
  destruct (decode_column _ _ _ _ _ _) as [[vs b']|] eqn:E; cbn [result_bind]; [|done].
  destruct (same_zone _ _) eqn:Ez; cbn [negb]; [|done].
  destruct (decode_columns n work b') as [others|] eqn:Eo; cbn [result_bind]; [|done]. intros [= <-].
  constructor; [|by eapply IH]. cbn. apply same_zone_eq in Ez. destruct (decode_column_cells _ _ _ _ _ _ _ _ E). done.
Qed.

(** Rows put together from columns. *)
Lemma push_all n cols : Forall (fun vs => length vs = n) cols → ∀ acc, length acc = n →
  foldl push_column acc cols = imap (fun r row => row ++ map (fun vs => nth r vs VNull) cols) acc.
Proof.
  induction cols as [|vs cols IH]; intros Hc acc Ha; cbn [foldl map].
  - apply list_eq. intros i. rewrite list_lookup_imap. destruct (acc !! i); cbn; [by rewrite app_nil_r|done].
  - apply Forall_cons in Hc as [Hv Hc]. rewrite IH; [|done|unfold push_column; by rewrite length_imap].
    apply list_eq. intros i. unfold push_column. rewrite !list_lookup_imap.
    destruct (acc !! i) as [row|] eqn:E; [|done]. cbn. destruct (lookup_lt_is_Some_2 vs i) as [v Hvi].
    { rewrite Hv, <-Ha. by eapply lookup_lt_Some. }
    rewrite Hvi, nth_lookup, Hvi. cbn. by rewrite <-app_assoc.
Qed.

Section Rows.
Context (n : nat) (cols : list (list ColumnValue)).
Hypothesis Hlen : Forall (fun vs => length vs = n) cols.
Let rows := foldl push_column (replicate n []) cols.

Lemma rows_row r row : rows !! r = Some row → r < n ∧ row = map (fun vs => nth r vs VNull) cols.
Proof.
  unfold rows. rewrite (push_all n cols Hlen) by apply length_replicate. intros Hr.
  rewrite list_lookup_imap in Hr. apply fmap_Some in Hr as (e&He&->). by apply lookup_replicate in He as [-> Hn].
Qed.

Lemma rows_length : length rows = n.
Proof. unfold rows. rewrite (push_all n cols Hlen) by apply length_replicate. by rewrite length_imap, length_replicate. Qed.

Lemma rows_column i vs : cols !! i = Some vs → column_values rows i = vs.
Proof.
  intros Hvs. pose proof (proj1 (Forall_lookup _ _) Hlen _ _ Hvs) as Hvl. cbn in Hvl. apply list_eq. intros r. unfold column_values.
  change (map ?f rows) with (f <$> rows). rewrite list_lookup_fmap. destruct (rows !! r) as [row|] eqn:Er.
  - destruct (rows_row r row Er) as [Hr ->]. cbn. rewrite nth_lookup. change (map ?f cols) with (f <$> cols).
    rewrite list_lookup_fmap, Hvs. cbn. destruct (lookup_lt_is_Some_2 vs r) as [v Hv]; [lia|]. by rewrite nth_lookup, Hv.
  - cbn. symmetry. apply lookup_ge_None. apply lookup_ge_None in Er. rewrite rows_length in Er. lia.
Qed.
End Rows.

(** What an accepted group is. *)
Record group_is columns (g : IndexedGroup) rows limits : Prop := {
  gi_count : length rows = ig_row_count g;
  gi_bounds : (1 ≤ N.of_nat (ig_row_count g) ≤ lm_max_rows limits)%N;
  gi_rows : rows_ok columns rows;
  gi_fits : Forall (Forall value_fits) rows;
  gi_zones : map ic_zone (ig_columns g) = map (fun i => zone_map (column_values rows i)) (seq 0 (length columns));
}.

Lemma index_columns_length row_count columns : yields (fun ics => length ics = length columns) (index_columns row_count columns).
Proof.
  induction columns as [|c columns IH]; cbn [index_columns]; [by apply yields_ret|].
  eapply yields_bind; [apply yields_any|]. intros ic _. eapply yields_bind; [apply IH|]. intros l Hl.
  apply yields_ret. cbn. by rewrite Hl.
Qed.

Lemma index_group_ok columns limits b g : index_group_with b columns limits = Ok g →
  (1 ≤ N.of_nat (ig_row_count g) ≤ lm_max_rows limits)%N ∧ length (ig_columns g) = length columns.
Proof.
  apply (on_payload_yields (fun g => (1 ≤ N.of_nat (ig_row_count g) ≤ lm_max_rows limits)%N ∧ length (ig_columns g) = length columns)).
  eapply yields_bind; [apply yields_any|]. intros n _.
  destruct (N.eqb_spec n 0); [apply yields_fail|]. destruct (N.ltb_spec (lm_max_rows limits) n); [apply yields_fail|].
  eapply yields_bind; [apply index_columns_length|]. intros ics Hl. apply yields_ret. cbn. split; [lia|done].
Qed.

Lemma group_columns columns g b cols : length (ig_columns g) = length columns →
  decode_columns (ig_row_count g) (zip columns (ig_columns g)) b = Ok cols →
  length cols = length columns ∧ Forall (fun vs => length vs = ig_row_count g) cols
  ∧ ∀ i vs, cols !! i = Some vs → ∃ c ic, columns !! i = Some c ∧ ig_columns g !! i = Some ic
    ∧ Forall (cell_or_null (cd_ty c)) vs ∧ ic_zone ic = zone_map vs.
Proof.
  intros Hl Ec. apply decode_columns_cells in Ec.
  assert (∀ i vs, cols !! i = Some vs → ∃ c ic, columns !! i = Some c ∧ ig_columns g !! i = Some ic
    ∧ length vs = ig_row_count g ∧ Forall (cell_or_null (cd_ty c)) vs ∧ ic_zone ic = zone_map vs) as Hcols.
  { intros i vs Hvs. destruct (Forall2_lookup_r _ _ _ _ _ Ec Hvs) as ([c ic]&Hx&Hp).
    apply lookup_zip_with_Some in Hx as (c'&ic'&[= <- <-]&?&?). by exists c, ic. }
  split_and!.
  - rewrite <-(Forall2_length _ _ _ Ec), length_zip, Hl. lia.
  - apply Forall_lookup. intros i vs Hvs. by destruct (Hcols i vs Hvs) as (?&?&_&_&?&_).
  - intros i vs Hvs. destruct (Hcols i vs Hvs) as (c&ic&?&?&_&?&?). by exists c, ic.
Qed.

Lemma group_accepted columns limits b g rows : index_group_with b columns limits = Ok g →
  decode_indexed_with columns g limits = Ok rows → group_is columns g rows limits.
Proof.
  intros Hi Hd. destruct (index_group_ok _ _ _ _ Hi) as [Hb Hl]. unfold decode_indexed_with in Hd.
  destruct (mul _ _ _); cbn [result_bind] in Hd; [|done]. destruct (charge _ _ _) as [b0|]; cbn [result_bind] in Hd; [|done].
  destruct (decode_columns _ _ _) as [cols|] eqn:Ec; cbn [result_bind] in Hd; [|done]. injection Hd as <-.
  destruct (group_columns _ _ _ _ Hl Ec) as (Hlc&Hlen&Hcols). set (n := ig_row_count g) in *.
  pose proof (rows_row n cols Hlen) as Hrows. pose proof (rows_column n cols Hlen) as Hcv.
  pose proof (rows_length n cols Hlen) as Hrl. set (rows := foldl _ _ _) in *.
  assert (∀ r row i v, rows !! r = Some row → row !! i = Some v →
    ∃ c, columns !! i = Some c ∧ cell_or_null (cd_ty c) v) as Hcells.
  { intros r row i v Hr Hv. destruct (Hrows r row Hr) as [Hrn ->]. apply list_lookup_fmap_Some in Hv as (vs&->&Hvs).
    destruct (Hcols i vs Hvs) as (c&_&Hc&_&Hvc&_). exists c. split; [done|].
    rewrite Forall_lookup in Hlen. pose proof (Hlen _ _ Hvs).
    destruct (lookup_lt_is_Some_2 vs r) as [v Hv]; [lia|]. rewrite nth_lookup, Hv. cbn. by eapply Forall_lookup_1. }
  constructor; [done|done| | |].
  - apply Forall_lookup. intros r row Hr. apply Forall2_same_length_lookup_2.
    + destruct (Hrows r row Hr) as [_ ->]. by rewrite length_map.
    + intros i c v Hc Hv. destruct (Hcells r row i v Hr Hv) as (c'&Hc'&Hm&_). congruence.
  - apply Forall_lookup. intros r row Hr. apply Forall_lookup. intros i v Hv.
    by destruct (Hcells r row i v Hr Hv) as (c&_&_&Hf).
  - apply list_eq. intros i. change (map ?f ?l) with (f <$> l). rewrite !list_lookup_fmap.
    destruct (decide (i < length columns)) as [Hi'|Hi'].
    + rewrite lookup_seq_lt by done. destruct (lookup_lt_is_Some_2 cols i) as [vs Hvs]; [lia|].
      destruct (Hcols i vs Hvs) as (c&ic&_&->&_&Hz). cbn. by rewrite Hz, (Hcv i vs Hvs).
    + rewrite lookup_seq_ge by lia. rewrite (proj2 (lookup_ge_None _ i)) by lia. done.
Qed.
End Decoding.

(** ** Scans *)

Section Scans.
Context `{Engine}.
Implicit Types (columns : list ColumnDef) (rows : list (list ColumnValue)) (limits : Limits).

Lemma validate_reads columns b limits : validate_row_group_with columns b limits = Ok tt ↔
  ∃ g rows, index_group_with b columns limits = Ok g ∧ decode_indexed_with columns g limits = Ok rows.
Proof.
  unfold validate_row_group_with. destruct (index_group_with _ _ _) as [g|]; cbn [result_bind]; [|by split; [|intros (?&?&[=]&?)]].
  destruct (decode_indexed_with columns g limits) as [rows|] eqn:Ed; cbn [result_bind]; [|split; [done|intros (?&?&[= <-]&?); congruence]].
  split; [|done]. intros _. by exists g, rows.
Qed.

(** (C20) A group that is accepted, whoever wrote its bytes, holds at least one
    row and at most [MAX_ROWS_PER_GROUP]; every row has a cell for each column,
    null or a value of the column's type that the type can hold; and each
    column's zone map is the one of its values. *)
Theorem accepted_group_typed columns b : validate_row_group columns b = Ok tt →
  ∃ g rows, index_group b columns = Ok g ∧ decode_indexed columns g = Ok rows
    ∧ (1 ≤ len rows ≤ MAX_ROWS_PER_GROUP)%N
    ∧ Forall (Forall2 (fun c v => cell_matches (cd_ty c) v = true ∧ value_fits v) columns) rows
    ∧ map ic_zone (ig_columns g) = map (fun i => zone_map (column_values rows i)) (seq 0 (length columns)).
Proof.
  intros Hv. apply validate_reads in Hv as (g&rows&Hi&Hd). destruct (group_accepted _ _ _ _ _ Hi Hd) as [Hc Hb Hr Hf Hz].
  exists g, rows. split; [done|]. split; [done|]. split; [unfold len; rewrite Hc; exact Hb|]. split; [|done].
  unfold rows_ok in Hr. rewrite Forall_forall in *. intros row Hrow. specialize (Hr row Hrow). specialize (Hf row Hrow).
  apply Forall2_same_length_lookup_2; [by apply Forall2_length in Hr|]. intros i c v Hc' Hv'.
  split; [by apply (Forall2_lookup_lr _ _ _ _ _ _ Hr Hc' Hv')|]. by eapply Forall_lookup_1.
Qed.

Lemma bind_filters_in columns filters bound : bind_filters columns filters = Ok bound →
  ∀ f, f ∈ bound → f.1 < length columns.
Proof.
  intros Hb f Hf. unfold bind_filters in Hb.
  destruct (map_result_inv (bind_filter columns) filters) as [(bs&Hm&HF)|(?&?&_&_&He)]; [|by rewrite He in Hb].
  rewrite Hm in Hb. injection Hb as ->. apply list_elem_of_lookup in Hf as [k Hk].
  destruct (Forall2_lookup_r _ _ _ _ _ HF Hk) as (cf&_&Hc). unfold bind_filter in Hc.
  destruct (list_find _ columns) as [[i c]|] eqn:E; [|done]. destruct (predicate_matches_type _ _); [|done].
  injection Hc as <-. apply list_find_Some in E as (E&_). cbn. by eapply lookup_lt_Some.
Qed.

(** A group that the zone maps exclude has no row that matches. *)
Lemma excluded_none columns g rows limits bound : group_is columns g rows limits →
  (∀ f, f ∈ bound → f.1 < length columns) → group_excluded bound g = true → List.filter (row_matches bound) rows = [].
Proof.
  intros [Hc Hb Hr Hf Hz] Hin Hex. apply existsb_elem in Hex as (f&Hfin&Hex). pose proof (Hin f Hfin) as Hl.
  destruct (List.filter (row_matches bound) rows) as [|row l] eqn:E; [done|]. exfalso.
  assert (row ∈ List.filter (row_matches bound) rows) as Hrow by (rewrite E; by left).
  apply filter_elem in Hrow as [Hrow Hm]. unfold row_matches in Hm. rewrite forallb_elem in Hm. specialize (Hm f Hfin).
  destruct (lookup_lt_is_Some_2 columns f.1 Hl) as [c Hcol].
  assert (nth f.1 row VNull ∈ column_values rows f.1) as Hv by (apply list_elem_of_fmap; by exists row).
  pose proof (excludes_sound (cd_ty c) _ _ _ (column_typed columns rows f.1 c Hr Hcol) Hv Hm) as Hs.
  destruct (ig_columns g !! f.1) as [ic|] eqn:Eic; [|done]. cbn in Hex.
  assert (map ic_zone (ig_columns g) !! f.1 = Some (ic_zone ic)) as Hzl.
  { change (map ?h ?l) with (h <$> l). by rewrite list_lookup_fmap, Eic. }
  rewrite Hz in Hzl. change (map ?h ?l) with (h <$> l) in Hzl. rewrite list_lookup_fmap, lookup_seq_lt in Hzl by done.
  cbn in Hzl. injection Hzl as Hzl. rewrite <-Hzl in Hex. congruence.
Qed.

Lemma scan_group_ok columns bound limits b g rows acc skipped : limits = Limits_DEFAULT →
  index_group_with b columns limits = Ok g → decode_indexed_with columns g limits = Ok rows →
  (∀ f, f ∈ bound → f.1 < length columns) → (skipped < u64_max)%N →
  ∃ skipped', scan_group columns bound (acc, skipped) b = Ok (acc ++ List.filter (row_matches bound) rows, skipped')
    ∧ (skipped' ≤ skipped + 1)%N.
Proof.
  intros -> Hi Hd Hb Hs. unfold scan_group, index_group, decode_indexed. rewrite Hi. cbn [result_bind].
  destruct (group_excluded bound g) eqn:E.
  - rewrite (excluded_none _ _ _ _ _ (group_accepted _ _ _ _ _ Hi Hd) Hb E), app_nil_r.
    exists (sat_add64 skipped 1). split; [done|]. unfold sat_add64. lia.
  - rewrite Hd. cbn [result_bind]. exists skipped. split; [done|lia].
Qed.

Lemma scan_fold_ok columns bound groups decoded :
  Forall2 (fun b rows => read_group columns b Limits_DEFAULT = Ok rows) groups decoded →
  (∀ f, f ∈ bound → f.1 < length columns) → ∀ acc skipped, (skipped + len groups ≤ u64_max)%N →
  ∃ skipped', for_fold (scan_group columns bound) (acc, skipped) groups
      = Ok (acc ++ List.filter (row_matches bound) (concat decoded), skipped') ∧ (skipped' ≤ skipped + len groups)%N.
Proof.
  intros HF Hb. induction HF as [|b rows groups decoded Hr HF IH]; intros acc skipped Hl; cbn [for_fold concat List.filter].
  - exists skipped. split; [by rewrite app_nil_r|unfold len; cbn; lia].
  - unfold read_group in Hr. destruct (index_group_with _ _ _) as [g|] eqn:Ei; cbn [result_bind] in Hr; [|done].
    unfold len in *. cbn [length] in *.
    destruct (scan_group_ok columns bound Limits_DEFAULT b g rows acc skipped eq_refl Ei Hr Hb) as (s1&->&Hs1); [lia|].
    cbn [result_bind]. destruct (IH (acc ++ List.filter (row_matches bound) rows) s1) as (s2&->&Hs2); [lia|].
    exists s2. split; [|lia]. by rewrite List.filter_app, app_assoc.
Qed.

(** (C18) Over groups that were accepted, a scan refuses a filter that names no
    column or compares with another type, and otherwise answers the rows of all
    groups that match, in their order: what the zone maps skip would not have
    matched. *)
Theorem scan_is_filter columns groups filters : (len groups ≤ u64_max)%N →
  Forall (fun b => validate_row_group columns b = Ok tt) groups →
  match bind_filters columns filters with
  | Err e => scan_groups columns groups filters = Err e
  | Ok bound => ∃ decoded skipped,
      Forall2 (fun b rows => read_group columns b Limits_DEFAULT = Ok rows) groups decoded
      ∧ scan_groups columns groups filters
        = Ok {| cs_rows := List.filter (row_matches bound) (concat decoded); cs_total := len groups; cs_skipped := skipped |}
      ∧ (skipped ≤ len groups)%N
  end.
Proof.
  intros Hl Hv. unfold scan_groups. destruct (bind_filters columns filters) as [bound|e] eqn:Eb; cbn [result_bind]; [|done].
  assert (∃ decoded, Forall2 (fun b rows => read_group columns b Limits_DEFAULT = Ok rows) groups decoded) as [decoded HF].
  { clear Hl. induction Hv as [|b groups Hv _ [decoded HF]]; [by exists []|].
    apply validate_reads in Hv as (g&rows&Hi&Hd). exists (rows :: decoded). constructor; [|done].
    unfold read_group. by rewrite Hi. }
  destruct (scan_fold_ok columns bound groups decoded HF (bind_filters_in _ _ _ Eb) [] 0%N) as (skipped&->&Hs); [lia|].
  cbn [result_bind]. by exists decoded, skipped.
Qed.
End Scans.

(** ** Scans of rows in memory *)

Section Projected.
Context `{Engine}.
Implicit Types (columns : list ColumnDef) (rows : list (list ColumnValue)) (limits : Limits).

Definition row_cost columns (row : list ColumnValue) : N := estimated_decode_bytes columns [row].

Definition rows_cost columns rows : N := sum_list_N (map (row_cost columns) rows).

(** Rows together are no heavier than each for itself. *)
Lemma estimate_rows columns rows : Forall (fun row => (row_cost columns row < u64_max)%N) rows →
  (estimated_decode_bytes columns rows ≤ rows_cost columns rows)%N.
Proof.
  intros Hr. unfold estimated_decode_bytes. set (per_row := sat_add64 ROW_BYTES _).
  assert (∀ l a, (foldl sat_add64 a (map cell_heap l) ≤ a + weight cell_heap l)%N) as Hfold by (intros; apply fold_sat_le).
  assert (len rows * per_row + weight cell_heap (concat rows) ≤ rows_cost columns rows)%N as Hs.
  { induction Hr as [|row rows Hrow _ IH]; [done|]. unfold rows_cost in *. cbn [map concat].
    change (sum_list_N (?x :: ?k)) with (x + sum_list_N k)%N. unfold weight in *. rewrite map_app, sum_app.
    assert (per_row + sum_list_N (map cell_heap row) ≤ row_cost columns row)%N.
    2: { replace (len (row :: rows)) with (len rows + 1)%N by (unfold len; cbn [length]; lia).
      rewrite N.mul_add_distr_r. lia. }
    unfold row_cost, estimated_decode_bytes in *. fold per_row in Hrow |- *. cbn [concat] in *. rewrite app_nil_r in *.
    change (len [row]) with 1%N in *.
    assert (sat_mul64 1 per_row = per_row) as E by (unfold sat_mul64, per_row, sat_add64; lia). rewrite E in *.
    assert (u64_max - 1 < u64_max)%N as Hlim by (unfold u64_max; lia).
    assert (∀ x, x < u64_max → x ≤ u64_max - 1)%N as Hpred by lia. apply Hpred in Hrow.
    rewrite (sat_add_exact _ _ _ Hlim Hrow) in Hrow |- *. rewrite (fold_sat_exact _ _ Hlim) by lia. lia. }
  specialize (Hfold (concat rows) 0%N). unfold sat_add64 at 1, sat_mul64. lia.
Qed.

Section Chunks.
Context (columns : list ColumnDef) (limits : Limits).
Hypothesis Hlimits : limits_ok limits.
Hypothesis Hsome : (1 ≤ lm_max_rows limits)%N.

Definition light rows : Prop := Forall (fun row => (row_cost columns row ≤ lm_max_bytes limits)%N) rows.

Lemma chunk_rows_spec rows : light rows → ∀ taken spent, (taken = 0 → spent = 0)%N → (taken ≤ lm_max_rows limits)%N →
  (spent ≤ lm_max_bytes limits)%N →
  let n := chunk_rows columns limits taken spent rows in
  n ≤ length rows ∧ (taken + N.of_nat n ≤ lm_max_rows limits)%N ∧ (spent + rows_cost columns (take n rows) ≤ lm_max_bytes limits)%N
  ∧ (taken = 0%N → rows ≠ [] → n ≠ 0).
Proof.
  destruct Hlimits as [_ Hb]. unfold MAX_DECODE_BYTES in Hb. unfold rows_cost.
  induction 1 as [|row rows Hrow _ IH]; intros taken spent Hz Ht Hs; cbn [chunk_rows].
  { cbn. unfold sum_list_N. cbn. split_and!; [lia..|done]. }
  assert (let n := 0 in n ≤ S (length rows) ∧ (taken + N.of_nat n ≤ lm_max_rows limits)%N
    ∧ (spent + sum_list_N (map (row_cost columns) (take n (row :: rows))) ≤ lm_max_bytes limits)%N) as Hzero.
  { cbn. unfold sum_list_N. cbn. split_and!; lia. }
  destruct (N.leb_spec (lm_max_rows limits) taken) as [Hfull|Hmore].
  { destruct Hzero as (?&?&?). split_and!; [done..|]. intros ->. lia. }
  fold (row_cost columns row). destruct ((0 <? taken) && (lm_max_bytes limits <? _))%N eqn:E.
  { destruct Hzero as (?&?&?). split_and!; [done..|]. intros ->. by rewrite andb_false_l in E. }
  assert (sat_add64 spent (row_cost columns row) ≤ lm_max_bytes limits)%N as Hs'.
  { apply andb_false_iff in E as [E|E]; [|by apply N.ltb_ge in E].
    apply N.ltb_ge in E. rewrite Hz by lia. unfold sat_add64. lia. }
  assert (sat_add64 spent (row_cost columns row) = spent + row_cost columns row)%N as Hadd.
  { apply (sat_add_exact _ _ (lm_max_bytes limits)); [unfold u64_max; lia|done]. }
  destruct (IH (taken + 1)%N (sat_add64 spent (row_cost columns row))) as (H1&H2&H3&_); [lia|lia|done|].
  cbn [length take map]. change (sum_list_N (?x :: ?k)) with (x + sum_list_N k)%N. rewrite Hadd in H3.
  split_and!; [lia|lia| |done]. rewrite Hadd. lia.
Qed.

(** A chunk is written, and a scan of it is the filter of its rows. *)
Lemma chunk_scans rows filters : rows ≠ [] → Forall (Forall value_fits) rows → group_within columns rows limits →
  ∃ blob, encode_row_group_with columns rows limits = Ok blob
  ∧ match bind_filters columns filters with
    | Err e => scan_groups columns [blob] filters = Err e
    | Ok bound => ∃ skipped, (skipped ≤ 1)%N ∧ scan_groups columns [blob] filters
        = Ok {| cs_rows := List.filter (row_matches bound) rows; cs_total := 1; cs_skipped := skipped |}
    end.
Proof.
  intros Hne Hf Hw. destruct (encode_total _ _ _ Hlimits Hw) as (blob&He). exists blob. split; [done|].
  assert (encode_row_group_with columns rows Limits_DEFAULT = Ok blob) as He'.
  { apply (encode_widen _ _ _ _ _ He). destruct Hw as [Hr Hc Hb], Hlimits. constructor; [done|cbn; lia..]. }
  assert (read_group columns blob Limits_DEFAULT = Ok rows) as Hread by (apply encoded_reads; [done..|by split|done]).
  unfold scan_groups. destruct (bind_filters columns filters) as [bound|e] eqn:Eb; cbn [result_bind]; [|done].
  destruct (scan_fold_ok columns bound [blob] [rows]) with (acc := @nil (list ColumnValue)) (skipped := 0%N) as (skipped&->&Hs).
  - by repeat constructor.
  - by eapply bind_filters_in.
  - done.
  - exists skipped. split; [exact Hs|]. cbn [result_bind]. by rewrite app_nil_l, concat_cons, app_nil_r.
Qed.

Lemma chunk_within rows n : rows_ok columns rows → light rows → n = chunk_rows columns limits 0 0 rows → rows ≠ [] →
  n ≠ 0 ∧ n ≤ length rows ∧ group_within columns (take n rows) limits.
Proof.
  intros Hr Hl -> Hne. destruct (chunk_rows_spec rows Hl 0 0) as (H1&H2&H3&H4); [done|lia..|]. split_and!; [by apply H4|done|].
  destruct Hlimits as [_ Hb]. unfold MAX_DECODE_BYTES in Hb. constructor.
  - by apply Forall_take.
  - unfold len. rewrite length_take. lia.
  - etrans; [apply estimate_rows|lia]. apply Forall_take. eapply Forall_impl; [exact Hl|]. unfold u64_max. cbn. lia.
Qed.

Lemma scan_chunks_ok filters fuel : ∀ rows merged, length rows ≤ fuel → Forall (Forall value_fits) rows →
  rows_ok columns rows → light rows → (cs_skipped merged ≤ cs_total merged)%N → (cs_total merged + len rows ≤ u64_max)%N →
  match bind_filters columns filters with
  | Err e => rows ≠ [] → scan_chunks fuel columns filters limits merged rows = Err e
  | Ok bound => ∃ total skipped, scan_chunks fuel columns filters limits merged rows
        = Ok {| cs_rows := cs_rows merged ++ List.filter (row_matches bound) rows; cs_total := total; cs_skipped := skipped |}
      ∧ (skipped ≤ total ≤ cs_total merged + len rows)%N
  end.
Proof.
  induction fuel as [|fuel IH]; intros [|row rows] merged Hfuel Hf Hr Hl Hs Ht; try (cbn in Hfuel; lia).
  1, 2: destruct (bind_filters columns filters); [|done]; exists (cs_total merged), (cs_skipped merged); cbn;
    (split; [by destruct merged; rewrite app_nil_r|]; unfold len in *; lia).
  set (l := row :: rows) in *. assert (l ≠ []) as Hne by done. cbn [scan_chunks]. fold l.
  change (match l with [] => _ | _ :: _ => ?x end) with x. set (n := chunk_rows _ _ _ _ _).
  destruct (chunk_within l n Hr Hl eq_refl Hne) as (Hn0&Hn&Hw). clearbody n.
  assert (take n l ≠ []) as Htake by (destruct n; [done|by unfold l]).
  destruct (chunk_scans (take n l) filters Htake (Forall_take _ _ _ Hf) Hw) as (blob&->&Hscan). cbn [result_bind].
  destruct (bind_filters columns filters) as [bound|e] eqn:Eb; [|by rewrite Hscan].
  destruct Hscan as (k&Hk&->). cbn [result_bind cs_rows cs_total cs_skipped].
  assert (length (drop n l) = length l - n) as Hd by apply length_drop.
  assert (sat_add64 (cs_total merged) 1 = cs_total merged + 1)%N as Et by (unfold sat_add64, len in *; unfold l in *; cbn [length] in *; lia).
  assert (sat_add64 (cs_skipped merged) k ≤ cs_skipped merged + k)%N as Es by (unfold sat_add64; lia).
  match goal with |- context [scan_chunks fuel _ _ _ ?m _] => destruct (IH (drop n l) m) as (total&skipped&->&Hts) end.
  - lia.
  - by apply Forall_drop.
  - by apply Forall_drop.
  - by apply Forall_drop.
  - cbn [cs_total cs_skipped]. lia.
  - cbn [cs_total]. rewrite Et. unfold len in *. rewrite Hd. lia.
  - exists total, skipped. cbn [cs_rows cs_total] in *. rewrite <-app_assoc, <-List.filter_app, take_drop. split; [done|].
    rewrite Et in Hts. unfold len in *. rewrite Hd in Hts. lia.
Qed.
End Chunks.

Lemma scan_chunks_default columns rows filters : Forall (Forall value_fits) rows → rows_ok columns rows → (len rows ≤ u64_max)%N →
  light columns Limits_DEFAULT rows →
  match bind_filters columns filters with
  | Err e => rows ≠ [] → scan_projected columns rows filters = Err e
  | Ok bound => ∃ total skipped, scan_projected columns rows filters
        = Ok {| cs_rows := [] ++ List.filter (row_matches bound) rows; cs_total := total; cs_skipped := skipped |}
      ∧ (skipped ≤ total ≤ 0 + len rows)%N
  end.
Proof.
  intros Hf Hr Hn Hl. unfold scan_projected, scan_projected_with. set (limits := {| lm_max_rows := _ |}).
  apply (scan_chunks_ok columns limits) with (merged := {| cs_rows := []; cs_total := 0; cs_skipped := 0 |}); done.
Qed.

(** The scan of typed rows in memory answers exactly the rows that match,
    in their order, however it cuts them into chunks: no chunk is refused,
    every chunk is read back, and no skipped chunk held a match. A row alone
    must be within a group's budget; a filter that does not bind is refused. *)
Theorem scan_projected_is_filter columns rows filters :
  Forall (Forall value_fits) rows → rows_ok columns rows → (len rows ≤ u64_max)%N →
  Forall (fun row => (estimated_decode_bytes columns [row] ≤ MAX_DECODE_BYTES)%N) rows →
  match bind_filters columns filters with
  | Err e => rows ≠ [] → scan_projected columns rows filters = Err e
  | Ok bound => ∃ total skipped, scan_projected columns rows filters
        = Ok {| cs_rows := List.filter (row_matches bound) rows; cs_total := total; cs_skipped := skipped |}
      ∧ (skipped ≤ total ≤ len rows)%N
  end.
Proof.
  intros Hf Hr Hn Hl. pose proof (scan_chunks_default columns rows filters Hf Hr Hn Hl) as Hs.
  destruct (bind_filters columns filters) as [bound|e]; [|exact Hs]. destruct Hs as (total&skipped&Hs&Hc). by exists total, skipped.
Qed.
End Projected.
