(* ===== verification/FlsRollup.v ===== *)
(** * Ledger rollups ([columnar.rs], lines 189-206, 1464-1552 and 1620-1687)

    The totals of the attempts and of the gate runs that a ledger holds. The
    entries become rows, the rows are scanned as a column table is
    ([scan_projected]), and what the scan answers is added up in 64 bits. The
    entries are those the document layer reads ([doc::scan_u64]), in its order. *)

From S2P Require Import Prelude RustStr Model Verdict Ledger FlsBytes FlsModel FlsColumns FlsLayout FlsRowGroup FlsEncode FlsScan.

(** ** Totals *)

Record AttemptRollup := { ar_count : N; ar_cost_usd_micros : N; ar_tokens_in : N; ar_tokens_out : N; ar_duration_ms : N }.

Record GateRunRollup := { gu_pass : N; gu_fail : N; gu_error : N; gu_duration_ms : N; gu_cost_usd_micros : N }.

Definition AttemptRollup_default : AttemptRollup :=
  {| ar_count := 0; ar_cost_usd_micros := 0; ar_tokens_in := 0; ar_tokens_out := 0; ar_duration_ms := 0 |}.
Definition GateRunRollup_default : GateRunRollup :=
  {| gu_pass := 0; gu_fail := 0; gu_error := 0; gu_duration_ms := 0; gu_cost_usd_micros := 0 |}.

Definition attempt_columns : list ColumnDef :=
  [{| cd_name := "project"; cd_ty := CUtf8 |}; {| cd_name := "cost_usd_micros"; cd_ty := CInt64 |};
   {| cd_name := "tokens_in"; cd_ty := CInt64 |}; {| cd_name := "tokens_out"; cd_ty := CInt64 |};
   {| cd_name := "duration_ms"; cd_ty := CInt64 |}].

Definition gate_columns : list ColumnDef :=
  [{| cd_name := "gate"; cd_ty := CUtf8 |}; {| cd_name := "verdict"; cd_ty := CUtf8 |};
   {| cd_name := "duration_ms"; cd_ty := CInt64 |}; {| cd_name := "cost_usd_micros"; cd_ty := CInt64 |}].

Definition verdict_name (v : Verdict) : string :=
  match v with VPass _ => "pass" | VFail _ _ => "fail" | VError _ => "error" end.

Definition i64_max : N := 9223372036854775807.

Definition u_to_i (value : N) : Result Z StoreError :=
  if (value <=? i64_max)%N then Ok (Z.of_N value) else Err (backend "ledger value does not fit in i64").

Definition rollup_overflow : StoreError := backend "rollup overflow".

Definition add_cell (slot : N) (v : ColumnValue) : Result N StoreError :=
  match v with
  | VInt64 number =>
      if (number <? 0)%Z then Err (backend "rollup value is negative")
      else ok_or (checked_add64 slot (Z.to_N number)) rollup_overflow
  | _ => Err (backend "rollup column is not an int64")
  end.

Definition incr (slot : N) : Result N StoreError := ok_or (checked_add64 slot 1) rollup_overflow.

(** [row[i]]; every row has the width of its table. *)
Definition cell (row : list ColumnValue) (i : nat) : ColumnValue := nth i row VNull.

(** ** Attempts *)

Definition attempt_row (a : Attempt) : Result (list ColumnValue) StoreError :=
  let? cost := u_to_i (at_cost_usd_micros a) in
  let? tokens_in := u_to_i (at_tokens_in a) in
  let? tokens_out := u_to_i (at_tokens_out a) in
  let? duration := u_to_i (at_duration_ms a) in
  Ok [VUtf8 (at_project a); VInt64 cost; VInt64 tokens_in; VInt64 tokens_out; VInt64 duration].

Definition named_filter (column : string) (name : option string) : list ColumnFilter :=
  match name with
  | None => []
  | Some name => [{| cf_column := column; cf_predicate := PEq (VUtf8 name) |}]
  end.

Definition attempt_add (r : AttemptRollup) (row : list ColumnValue) : Result AttemptRollup StoreError :=
  let? count := incr (ar_count r) in
  let? cost := add_cell (ar_cost_usd_micros r) (cell row 1) in
  let? tokens_in := add_cell (ar_tokens_in r) (cell row 2) in
  let? tokens_out := add_cell (ar_tokens_out r) (cell row 3) in
  let? duration := add_cell (ar_duration_ms r) (cell row 4) in
  Ok {| ar_count := count; ar_cost_usd_micros := cost; ar_tokens_in := tokens_in; ar_tokens_out := tokens_out;
        ar_duration_ms := duration |}.

(** ** Gate runs *)

Definition gate_row (run : GateRun) : Result (list ColumnValue) StoreError :=
  let? duration := u_to_i (gr_duration_ms run) in
  let? cost := u_to_i (gr_cost_usd_micros run) in
  Ok [VUtf8 (gr_gate run); VUtf8 (verdict_name (gr_verdict run)); VInt64 duration; VInt64 cost].

Definition count_verdict (r : GateRunRollup) (v : ColumnValue) : Result GateRunRollup StoreError :=
  let set p f e := {| gu_pass := p; gu_fail := f; gu_error := e; gu_duration_ms := gu_duration_ms r;
                      gu_cost_usd_micros := gu_cost_usd_micros r |} in
  match v with
  | VUtf8 name =>
      if name == "pass" then let? n := incr (gu_pass r) in Ok (set n (gu_fail r) (gu_error r))
      else if name == "fail" then let? n := incr (gu_fail r) in Ok (set (gu_pass r) n (gu_error r))
      else if name == "error" then let? n := incr (gu_error r) in Ok (set (gu_pass r) (gu_fail r) n)
      else Err (backend "gate verdict column is not pass, fail, or error")
  | _ => Err (backend "gate verdict column is not pass, fail, or error")
  end.

Definition gate_add (r : GateRunRollup) (row : list ColumnValue) : Result GateRunRollup StoreError :=
  let? r := count_verdict r (cell row 1) in
  let? duration := add_cell (gu_duration_ms r) (cell row 2) in
  let? cost := add_cell (gu_cost_usd_micros r) (cell row 3) in
  Ok {| gu_pass := gu_pass r; gu_fail := gu_fail r; gu_error := gu_error r; gu_duration_ms := duration;
        gu_cost_usd_micros := cost |}.

Section Rollups.
Context `{Engine}.

Definition attempt_rollup (attempts : list Attempt) (project : option ProjectId) : Result AttemptRollup StoreError :=
  let? rows := map_result attempt_row attempts in
  let? scan := scan_projected attempt_columns rows (named_filter "project" project) in
  for_fold attempt_add AttemptRollup_default (cs_rows scan).

Definition gate_run_rollup (runs : list GateRun) (gate : option GateId) : Result GateRunRollup StoreError :=
  let? rows := map_result gate_row runs in
  let? scan := scan_projected gate_columns rows (named_filter "gate" gate) in
  for_fold gate_add GateRunRollup_default (cs_rows scan).
End Rollups.

(** ** Totals *)

Lemma map_result_if {A B} (b : A → bool) (g : A → B) (e : StoreError) f l :
  (∀ a, f a = if b a then Ok (g a) else Err e) → map_result f l = if forallb b l then Ok (map g l) else Err e.
Proof.
  intros Hf. induction l as [|a l IH]; [done|]. cbn [map_result forallb map]. rewrite Hf. destruct (b a); [|done].
  cbn [result_bind andb]. rewrite IH. by destruct (forallb b l).
Qed.

(** Adding entries one by one, in 64 bits. *)
Section Folding.
Context {A R : Type} (plus : R → R → R) (fits : R → bool) (entry : A → R) (cells : A → list ColumnValue).
Context (add : R → list ColumnValue → Result R StoreError).
Hypothesis fits_plus : ∀ r s, fits (plus r s) = true → fits r = true.
Hypothesis add_spec : ∀ r a, fits r = true → add r (cells a) = if fits (plus r (entry a)) then Ok (plus r (entry a)) else Err rollup_overflow.

Lemma fits_total l : ∀ r, fits (foldl (fun r a => plus r (entry a)) r l) = true → fits r = true.
Proof. induction l as [|a l IH]; intros r Hr; [done|]. eapply fits_plus, IH, Hr. Qed.

Lemma fold_total l : ∀ r, fits r = true → for_fold add r (map cells l)
  = let t := foldl (fun r a => plus r (entry a)) r l in if fits t then Ok t else Err rollup_overflow.
Proof.
  induction l as [|a l IH]; intros r Hr; cbn; [by rewrite Hr|]. rewrite add_spec by done.
  destruct (fits (plus r (entry a))) eqn:E; cbn [result_bind]; [by apply IH|].
  destruct (fits (foldl _ (plus r (entry a)) l)) eqn:Et; [|done]. apply fits_total in Et. congruence.
Qed.
End Folding.

Lemma add_cell_spec slot n : add_cell slot (VInt64 (Z.of_N n)) = if (slot + n <=? u64_max)%N then Ok (slot + n)%N else Err rollup_overflow.
Proof.
  unfold add_cell. rewrite (proj2 (Z.ltb_ge _ _)) by lia. rewrite N2Z.id. unfold checked_add. by destruct (_ <=? _)%N.
Qed.

Lemma incr_spec slot : incr slot = if (slot + 1 <=? u64_max)%N then Ok (slot + 1)%N else Err rollup_overflow.
Proof. unfold incr, checked_add. by destruct (_ <=? _)%N. Qed.

(** The entries of one name. *)
Definition chosen {A} (name_of : A → string) (name : option string) (l : list A) : list A :=
  List.filter (fun a => match name with None => true | Some n => name_of a == n end) l.

Definition fits64 : N → bool := fun n => (n <=? u64_max)%N.

Definition total {A} (f : A → N) (l : list A) : N := sum_list_N (map f l).

(** The scan of rows whose first cell is a name. *)
Section Named.
Context `{Engine} {A : Type} (columns : list ColumnDef) (column : string) (name_of : A → string) (cells : A → list ColumnValue).
Hypothesis Hcolumn : ∃ rest, columns = {| cd_name := column; cd_ty := CUtf8 |} :: rest.
Hypothesis Hcells : ∀ a, ∃ rest, cells a = VUtf8 (name_of a) :: rest.

Lemma named_scan name l : Forall (fun a => Forall value_fits (cells a)) l → rows_ok columns (map cells l) →
  (len l ≤ u64_max)%N → Forall (fun a => (estimated_decode_bytes columns [cells a] ≤ MAX_DECODE_BYTES)%N) l →
  ∃ scan, scan_projected columns (map cells l) (named_filter column name) = Ok scan
    ∧ cs_rows scan = map cells (chosen name_of name l).
Proof.
  intros Hf Hr Hn Hl. destruct Hcolumn as (rest&->).
  pose proof (scan_chunks_default _ (map cells l) (named_filter column name) ltac:(by apply Forall_map) Hr) as Hs.
  specialize (Hs ltac:(unfold len in *; by rewrite length_map) ltac:(by apply Forall_map)).
  set (bound := match name with None => [] | Some n => [(0, PEq (VUtf8 n))] end).
  assert (bind_filters ({| cd_name := column; cd_ty := CUtf8 |} :: rest) (named_filter column name) = Ok bound) as Hb.
  { unfold bound. destruct name as [n|]; [|done]. unfold bind_filters, named_filter, bind_filter. cbn [map_result list_find cf_column].
    by rewrite decide_True. }
  rewrite Hb in Hs. destruct Hs as (t&k&->&_). eexists. split; [done|]. cbn [cs_rows app]. clear -Hcells. unfold chosen.
  assert (∀ a, row_matches bound (cells a) = match name with None => true | Some n => name_of a == n end) as Hm.
  { intros a. destruct (Hcells a) as (cs&->). unfold bound, row_matches. destruct name as [n|]; [|done]. cbn [forallb fst snd nth].
    rewrite andb_true_r. unfold matches_predicate, is_eq. cbn. pose proof (str_cmp_spec (name_of a) n) as Hc.
    destruct (str_cmp (name_of a) n); symmetry; case_bool_decide; try done; subst; lt_absurd. }
  induction l as [|a l IH]; [done|]. cbn [map List.filter]. rewrite Hm, IH. destruct name; [by case_bool_decide|done].
Qed.
End Named.

(** ** Attempts *)

Definition attempt_fits (a : Attempt) : bool :=
  (at_cost_usd_micros a <=? i64_max)%N && (at_tokens_in a <=? i64_max)%N && (at_tokens_out a <=? i64_max)%N
  && (at_duration_ms a <=? i64_max)%N.

Definition attempt_cells (a : Attempt) : list ColumnValue :=
  [VUtf8 (at_project a); VInt64 (Z.of_N (at_cost_usd_micros a)); VInt64 (Z.of_N (at_tokens_in a));
   VInt64 (Z.of_N (at_tokens_out a)); VInt64 (Z.of_N (at_duration_ms a))].

Lemma attempt_row_spec a : attempt_row a
  = if attempt_fits a then Ok (attempt_cells a) else Err (backend "ledger value does not fit in i64").
Proof.
  unfold attempt_row, attempt_fits, u_to_i. repeat (case_match; cbn [result_bind andb]; [|done]). done.
Qed.

Definition attempt_plus (r s : AttemptRollup) : AttemptRollup :=
  {| ar_count := ar_count r + ar_count s; ar_cost_usd_micros := ar_cost_usd_micros r + ar_cost_usd_micros s;
     ar_tokens_in := ar_tokens_in r + ar_tokens_in s; ar_tokens_out := ar_tokens_out r + ar_tokens_out s;
     ar_duration_ms := ar_duration_ms r + ar_duration_ms s |}.

Definition attempt_rollup_fits (r : AttemptRollup) : bool :=
  fits64 (ar_count r) && fits64 (ar_cost_usd_micros r) && fits64 (ar_tokens_in r) && fits64 (ar_tokens_out r)
  && fits64 (ar_duration_ms r).

(** The sums. *)
Definition attempt_totals (l : list Attempt) : AttemptRollup :=
  {| ar_count := len l; ar_cost_usd_micros := total at_cost_usd_micros l; ar_tokens_in := total at_tokens_in l;
     ar_tokens_out := total at_tokens_out l; ar_duration_ms := total at_duration_ms l |}.

Definition attempt_entry (a : Attempt) : AttemptRollup := attempt_totals [a].

Lemma attempt_fits_plus r s : attempt_rollup_fits (attempt_plus r s) = true → attempt_rollup_fits r = true.
Proof. unfold attempt_rollup_fits, fits64. cbn. rewrite !andb_true_iff, !N.leb_le. lia. Qed.

Lemma total_one {A} (f : A → N) a : total f [a] = f a.
Proof. unfold total, sum_list_N. cbn. lia. Qed.

Lemma total_cons {A} (f : A → N) a l : total f (a :: l) = (f a + total f l)%N.
Proof. done. Qed.

Lemma attempt_add_spec r a : attempt_add r (attempt_cells a)
  = if attempt_rollup_fits (attempt_plus r (attempt_entry a)) then Ok (attempt_plus r (attempt_entry a)) else Err rollup_overflow.
Proof.
  unfold attempt_add, attempt_cells, attempt_rollup_fits, attempt_plus, attempt_entry, attempt_totals, fits64, cell, incr.
  cbn [ar_count ar_cost_usd_micros ar_tokens_in ar_tokens_out ar_duration_ms nth]. rewrite !total_one, !add_cell_spec.
  change (len [a]) with 1%N. fold (incr (ar_count r)). rewrite incr_spec.
  repeat (destruct (_ <=? _)%N; cbn [result_bind andb]; [|done]). done.
Qed.

Lemma attempt_fold l : ∀ r, foldl (fun r a => attempt_plus r (attempt_entry a)) r l = attempt_plus r (attempt_totals l).
Proof.
  induction l as [|a l IH]; intros r; cbn [foldl].
  - destruct r. unfold attempt_plus, attempt_totals, total, len, sum_list_N. cbn. by rewrite !N.add_0_r.
  - rewrite IH. unfold attempt_plus, attempt_entry, attempt_totals, total, sum_list_N, len. cbn. f_equal; lia.
Qed.

Section Theorems.
Context `{Engine}.

(** (C21) The attempt rollup is the exact totals of the attempts of the project,
    or of all: it is refused exactly when some attempt's number does not fit
    63 bits or a total does not fit 64. *)
Theorem attempt_rollup_exact attempts project :
  (len attempts ≤ u64_max)%N → Forall (fun a => text (at_project a)) attempts →
  Forall (fun a => (estimated_decode_bytes attempt_columns [attempt_cells a] ≤ MAX_DECODE_BYTES)%N) attempts →
  attempt_rollup attempts project =
    if forallb attempt_fits attempts
    then let totals := attempt_totals (chosen at_project project attempts) in
         if attempt_rollup_fits totals then Ok totals else Err (backend "rollup overflow")
    else Err (backend "ledger value does not fit in i64").
Proof.
  intros Hn Ht Hl. unfold attempt_rollup.
  rewrite (map_result_if attempt_fits attempt_cells (backend "ledger value does not fit in i64") _ _ attempt_row_spec).
  destruct (forallb attempt_fits attempts) eqn:Ef; [|done]. cbn [result_bind].
  destruct (named_scan attempt_columns "project" at_project attempt_cells) with (name := project) (l := attempts) as (scan&->&Hrows);
    [by eexists|by eexists| |apply Forall_map, Forall_true; repeat constructor|done|done|].
  - rewrite forallb_elem in Ef. rewrite Forall_forall in Ht |- *. intros a Ha. specialize (Ef a Ha). specialize (Ht a Ha).
    unfold attempt_fits in Ef. rewrite !andb_true_iff, !N.leb_le in Ef. unfold i64_max in Ef.
    repeat constructor; [done|cbn; unfold i64_half; lia..].
  - cbn [result_bind]. rewrite Hrows.
    rewrite (fold_total attempt_plus attempt_rollup_fits attempt_entry attempt_cells attempt_add attempt_fits_plus
      (fun r a _ => attempt_add_spec r a)) by done.
    by rewrite attempt_fold.
Qed.
End Theorems.

(** ** Gate runs *)

Definition gate_fits (run : GateRun) : bool := (gr_duration_ms run <=? i64_max)%N && (gr_cost_usd_micros run <=? i64_max)%N.

Definition gate_cells (run : GateRun) : list ColumnValue :=
  [VUtf8 (gr_gate run); VUtf8 (verdict_name (gr_verdict run)); VInt64 (Z.of_N (gr_duration_ms run));
   VInt64 (Z.of_N (gr_cost_usd_micros run))].

Lemma gate_row_spec run : gate_row run
  = if gate_fits run then Ok (gate_cells run) else Err (backend "ledger value does not fit in i64").
Proof. unfold gate_row, gate_fits, u_to_i. repeat (case_match; cbn [result_bind andb]; [|done]). done. Qed.

Definition gate_plus (r s : GateRunRollup) : GateRunRollup :=
  {| gu_pass := gu_pass r + gu_pass s; gu_fail := gu_fail r + gu_fail s; gu_error := gu_error r + gu_error s;
     gu_duration_ms := gu_duration_ms r + gu_duration_ms s; gu_cost_usd_micros := gu_cost_usd_micros r + gu_cost_usd_micros s |}.

Definition gate_rollup_fits (r : GateRunRollup) : bool :=
  fits64 (gu_pass r) && fits64 (gu_fail r) && fits64 (gu_error r) && fits64 (gu_duration_ms r) && fits64 (gu_cost_usd_micros r).

(** How many runs have that verdict. *)
Definition verdicts (name : string) (l : list GateRun) : N :=
  len (List.filter (fun run => verdict_name (gr_verdict run) == name) l).

Lemma verdicts_nil name : verdicts name [] = 0%N.
Proof. done. Qed.

Lemma verdicts_cons name run l :
  verdicts name (run :: l) = ((if verdict_name (gr_verdict run) == name then 1 else 0) + verdicts name l)%N.
Proof. unfold verdicts, len. cbn [List.filter]. case_bool_decide; cbn [length]; lia. Qed.

Definition gate_totals (l : list GateRun) : GateRunRollup :=
  {| gu_pass := verdicts "pass" l; gu_fail := verdicts "fail" l; gu_error := verdicts "error" l;
     gu_duration_ms := total gr_duration_ms l; gu_cost_usd_micros := total gr_cost_usd_micros l |}.

Definition gate_entry (run : GateRun) : GateRunRollup := gate_totals [run].

Lemma gate_fits_plus r s : gate_rollup_fits (gate_plus r s) = true → gate_rollup_fits r = true.
Proof. unfold gate_rollup_fits, fits64. cbn. rewrite !andb_true_iff, !N.leb_le. lia. Qed.

(** A literal name compared with another. *)
Ltac reduce_names :=
  repeat match goal with |- context [@bool_decide (?a = ?b) ?d] =>
    let v := eval vm_compute in (@bool_decide (a = b) d) in
    replace (@bool_decide (a = b) d) with v by (vm_compute; reflexivity) end;
  cbn iota.

Lemma gate_add_spec r run : gate_rollup_fits r = true → gate_add r (gate_cells run)
  = if gate_rollup_fits (gate_plus r (gate_entry run)) then Ok (gate_plus r (gate_entry run)) else Err rollup_overflow.
Proof.
  unfold gate_rollup_fits, fits64. rewrite !andb_true_iff. intros [[[[Hp Hf] He] _] _].
  unfold gate_add, gate_cells, gate_plus, gate_entry, gate_totals, cell, count_verdict.
  cbn [nth gu_pass gu_fail gu_error gu_duration_ms gu_cost_usd_micros ]. rewrite !total_one, !verdicts_cons, !verdicts_nil.
  destruct (gr_verdict run); cbn [verdict_name]; reduce_names; rewrite incr_spec;
    rewrite ?N.add_0_r, ?Hp, ?Hf, ?He, ?andb_true_l, ?andb_true_r;
    (destruct (_ + 1 <=? _)%N; cbn [result_bind andb gu_pass gu_fail gu_error gu_duration_ms gu_cost_usd_micros]; [|done]);
    rewrite !add_cell_spec; repeat (destruct (_ <=? _)%N; cbn [result_bind andb]; [|done]); done.
Qed.

Lemma gate_fold l : ∀ r, foldl (fun r run => gate_plus r (gate_entry run)) r l = gate_plus r (gate_totals l).
Proof.
  induction l as [|run l IH]; intros r; cbn [foldl].
  - destruct r. unfold gate_plus. cbn. by rewrite !N.add_0_r.
  - rewrite IH. unfold gate_plus, gate_entry, gate_totals. cbn [gu_pass gu_fail gu_error gu_duration_ms gu_cost_usd_micros]. rewrite !verdicts_cons, !total_cons, !N.add_assoc.
    by change (total gr_duration_ms []) with 0%N; change (total gr_cost_usd_micros []) with 0%N;
      rewrite !verdicts_nil, !N.add_0_r.
Qed.

Section GateTheorems.
Context `{Engine}.

(** The gate-run rollup counts the runs of the gate, or of all, by their
    verdict and adds up their time and cost, exactly. *)
Theorem gate_run_rollup_exact runs gate :
  (len runs ≤ u64_max)%N → Forall (fun run => text (gr_gate run)) runs →
  Forall (fun run => (estimated_decode_bytes gate_columns [gate_cells run] ≤ MAX_DECODE_BYTES)%N) runs →
  gate_run_rollup runs gate =
    if forallb gate_fits runs
    then let totals := gate_totals (chosen gr_gate gate runs) in
         if gate_rollup_fits totals then Ok totals else Err (backend "rollup overflow")
    else Err (backend "ledger value does not fit in i64").
Proof.
  intros Hn Ht Hl. unfold gate_run_rollup.
  rewrite (map_result_if gate_fits gate_cells (backend "ledger value does not fit in i64") _ _ gate_row_spec).
  destruct (forallb gate_fits runs) eqn:Ef; [|done]. cbn [result_bind].
  destruct (named_scan gate_columns "gate" gr_gate gate_cells) with (name := gate) (l := runs) as (scan&->&Hrows);
    [by eexists|by eexists| |apply Forall_map, Forall_true; repeat constructor|done|done|].
  - rewrite forallb_elem in Ef. rewrite Forall_forall in Ht |- *. intros run Hrun. specialize (Ef run Hrun). specialize (Ht run Hrun).
    unfold gate_fits in Ef. rewrite !andb_true_iff, !N.leb_le in Ef. unfold i64_max in Ef.
    repeat constructor; [done|destruct (gr_verdict run); reflexivity|cbn; unfold i64_half; lia..].
  - cbn [result_bind]. rewrite Hrows.
    rewrite (fold_total gate_plus gate_rollup_fits gate_entry gate_cells gate_add gate_fits_plus gate_add_spec) by done.
    by rewrite gate_fold.
Qed.
End GateTheorems.
