(* ===== verification/FlsSnapshot.v ===== *)
(** * Snapshots ([layout.rs], lines 456-857)

    A snapshot is one blob: a magic, a version, the sequence it was taken at,
    every document, then column tables (version 2) and vector collections
    (version 3), and a checksum. [encode_state_snapshot] of [mod.rs] chooses the
    oldest version that holds the state.

    The theorem is the round trip: a snapshot that was encoded decodes to the
    state it was taken of, in each of the three versions. *)

From S2P Require Import Prelude RustStr Ledger FlsBytes FlsCrc FlsModel FlsColumns FlsVector FlsGraph FlsIndex FlsValid FlsLayout.

Section Snapshot.
Context `{Engine}.

(** ** Writing *)

Definition write_doc (d : string * string * Value) : Result bytes StoreError :=
  let '(collection, id, doc) := d in
  let? c := write_str collection in
  let? i := write_str id in
  let? raw := write_json doc in
  Ok (c ++ i ++ raw).

(** Magic, version, sequence and the document section. *)
Definition snapshot_docs (version seq : N) (docs : Docs) : Result bytes StoreError :=
  let? count := ok_or (u32_try (docs_len docs)) (backend "snapshot has too many documents") in
  let? ds := write_many write_doc (docs_iter docs) in
  Ok (SNAP_MAGIC ++ u32_bytes version ++ u64_bytes seq ++ u32_bytes count ++ ds).

(** [let crc = crc32(&body); body.extend(crc)] *)
Definition seal (body : bytes) : bytes := body ++ u32_bytes (crc32 body).

Definition encode_snapshot (seq : N) (docs : Docs) : Result bytes StoreError :=
  let? body := snapshot_docs SNAPSHOT_VERSION_DOCS seq docs in
  Ok (seal body).

(** [write_column_table], which [encode_snapshot_v2] writes out in place *)
Definition write_column_table (t : string * ColumnTable) : Result bytes StoreError :=
  let '(name, table) := t in
  let? n := write_str name in
  let? cs := write_columns (tb_columns table) in
  let? count := ok_or (u32_try (len (tb_groups table))) (backend "too many row groups") in
  let? gs := write_many write_lp (tb_groups table) in
  Ok (n ++ cs ++ u32_bytes count ++ gs).

Definition write_tables (tables : Tables) : Result bytes StoreError :=
  let? count := ok_or (u32_try (len (btree_iter tables))) (backend "snapshot has too many column tables") in
  let? ts := write_many write_column_table (btree_iter tables) in
  Ok (u32_bytes count ++ ts).

Definition encode_snapshot_v2 (seq : N) (docs : Docs) (tables : Tables) : Result bytes StoreError :=
  let? body := snapshot_docs SNAPSHOT_VERSION_COLUMNAR seq docs in
  let? ts := write_tables tables in
  Ok (seal (body ++ ts)).

Definition write_vector (v : string * VectorRecord) : Result bytes StoreError :=
  let '(id, record) := v in
  let? i := write_str id in
  let? b := write_lp (vr_bytes record) in
  let? md := write_metadata (vr_metadata record) in
  Ok (i ++ b ++ md).

Definition write_neighbors (neighbors : list string) : Result bytes StoreError :=
  let? count := ok_or (u32_try (len neighbors)) (backend "too many vector neighbors") in
  let? ns := write_many write_str neighbors in
  Ok (u32_bytes count ++ ns).

Definition write_links (v : string * VectorRecord) : Result bytes StoreError :=
  let? ns := write_many write_neighbors (vr_neighbors v.2) in
  Ok (tag (vr_level v.2) ++ ns).

Definition write_entry (entry : option string) : Result bytes StoreError :=
  match entry with
  | None => Ok (tag 0)
  | Some id => let? i := write_str id in Ok (tag 1 ++ i)
  end.

Definition write_vector_collection (c : string * VectorCollection) : Result bytes StoreError :=
  let '(name, col) := c in
  let? n := write_str name in
  let? count := ok_or (u32_try (len (btree_iter (vc_vectors col)))) (backend "too many vectors in one collection") in
  let? vs := write_many write_vector (btree_iter (vc_vectors col)) in
  let? e := write_entry (vc_entry col) in
  let? ls := write_many write_links (btree_iter (vc_vectors col)) in
  Ok (n ++ u32_bytes (vc_dim col) ++ tag (storage_tag (vc_storage col)) ++ tag (metric_tag (vc_metric col))
      ++ u32_bytes (vc_m col) ++ u32_bytes (vc_ef_construction col) ++ u32_bytes (vc_ef_search col)
      ++ u32_bytes count ++ vs ++ e ++ ls).

Definition encode_snapshot_v3 (seq : N) (docs : Docs) (tables : Tables) (vectors : Vectors)
    : Result bytes StoreError :=
  if bool_decide (vectors = ∅) then Err (backend "snapshot has no vector collections")
  else
    let? _ := for_each (fun '(name, col) => validate_graph_full name col) (btree_iter vectors) in
    let? body := snapshot_docs SNAPSHOT_VERSION_VECTOR seq docs in
    let? ts := write_tables tables in
    let? count := ok_or (u32_try (len (btree_iter vectors))) (backend "snapshot has too many vector collections") in
    let? vs := write_many write_vector_collection (btree_iter vectors) in
    Ok (seal (body ++ ts ++ u32_bytes count ++ vs)).

(** [mod.rs]'s [encode_state_snapshot] *)
Definition encode_state_snapshot (state : DocState) : Result bytes StoreError :=
  if negb (bool_decide (st_vectors state = ∅))
  then encode_snapshot_v3 (st_last_seq state) (st_docs state) (st_tables state) (st_vectors state)
  else if bool_decide (st_tables state = ∅)
  then encode_snapshot (st_last_seq state) (st_docs state)
  else encode_snapshot_v2 (st_last_seq state) (st_docs state) (st_tables state).

(** ** Reading *)

(** A loop of reads that threads a value. *)
Fixpoint cur_loop {S} (n : nat) (step : S → Reader S) (s : S) : Reader S :=
  match n with
  | O => ret s
  | Datatypes.S n' => read s' := step s in cur_loop n' step s'
  end.

(** [nested.entry(collection).or_default().insert(id, doc)] *)
Definition doc_insert (nested : Docs) (collection id : string) (doc : Value) : Docs :=
  <[collection := <[id := doc]> (default ∅ (nested !! collection))]> nested.

Definition doc_get (docs : Docs) (collection id : string) : option Value :=
  docs !! collection ≫= (fun ds => ds !! id).

Definition cur_doc (nested : Docs) : Reader Docs :=
  read collection := cur_lp_str in
  read id := cur_lp_str in
  read doc := cur_json "snapshot document is not json" in
  if is_some (doc_get nested collection id) then fail (corrupt "snapshot repeats a document id")
  else ret (doc_insert nested collection id doc).

Definition cur_table (tables : Tables) : Reader Tables :=
  read name := cur_lp_str in
  read count := cur_count "snapshot column count exceeds the blob" in
  read columns := cur_many (N.to_nat count) cur_column in
  read count := cur_count "snapshot row-group count exceeds the blob" in
  read groups := cur_many (N.to_nat count) cur_lp in
  if is_some (tables !! name)
  then fail (corrupt ("snapshot repeats column table `" +:+ name +:+ "`"))
  else
    read _ := lift (check_new_table false name columns) in
    read _ := lift (for_each (validate_row_group columns) groups) in
    ret (<[name := {| tb_columns := columns; tb_groups := groups |}]> tables).

Definition decode_column_tables (require_nonempty : bool) : Reader Tables :=
  read count := cur_u32 in
  if require_nonempty && (count =? 0)%N then fail (corrupt "snapshot has no column tables")
  else
    read ahead := cur_remaining in
    if (ahead <? count)%N then fail (corrupt "snapshot table count exceeds the blob")
    else cur_loop (N.to_nat count) cur_table ∅.

Definition cur_vector (vectors : gmap string VectorRecord) : Reader (gmap string VectorRecord) :=
  read id := cur_lp_str in
  read b := cur_lp in
  read metadata := read_metadata in
  if is_some (vectors !! id) then fail (corrupt ("snapshot repeats vector id `" +:+ id +:+ "`"))
  else ret (<[id := {| vr_bytes := b; vr_metadata := metadata; vr_level := 0; vr_neighbors := [] |}]> vectors).

Definition cur_entry : Reader (option string) :=
  read flag := cur_u8 in
  match flag with
  | 0 => ret None
  | 1 => read id := cur_lp_str in ret (Some id)
  | _ => fail (corrupt ("unknown vector entry flag " +:+ pretty flag))
  end%N.

Definition cur_neighbors : Reader (list string) :=
  read count := cur_count "snapshot neighbor count exceeds the blob" in
  cur_many (N.to_nat count) cur_lp_str.

(** [for record in vectors.values_mut()]: levels and links, in id order. *)
Fixpoint cur_links (ids : list (string * VectorRecord)) (vectors : gmap string VectorRecord)
    : Reader (gmap string VectorRecord) :=
  match ids with
  | [] => ret vectors
  | (id, record) :: rest =>
      read level := cur_u8 in
      read ahead := cur_remaining in
      if (ahead <? level)%N then fail (corrupt "snapshot vector level exceeds the blob")
      else
        read neighbors := cur_many (N.to_nat level + 1) cur_neighbors in
        cur_links rest (<[id := {| vr_bytes := vr_bytes record; vr_metadata := vr_metadata record;
                                   vr_level := level; vr_neighbors := neighbors |}]> vectors)
  end.

Definition cur_collection (collections : Vectors) : Reader Vectors :=
  read name := cur_lp_str in
  read dim := cur_u32 in
  read st := cur_u8 in
  read storage := lift (storage_from_tag st) in
  read mt := cur_u8 in
  read metric := lift (metric_from_tag mt) in
  read m := cur_u32 in
  read ef_construction := cur_u32 in
  read ef_search := cur_u32 in
  read count := cur_count "snapshot vector count exceeds the blob" in
  read vectors := cur_loop (N.to_nat count) cur_vector ∅ in
  read entry := cur_entry in
  read vectors := cur_links (btree_iter vectors) vectors in
  if is_some (collections !! name)
  then fail (corrupt ("snapshot repeats vector collection `" +:+ name +:+ "`"))
  else
    let collection := {| vc_dim := dim; vc_storage := storage; vc_metric := metric; vc_m := m;
                         vc_ef_construction := ef_construction; vc_ef_search := ef_search;
                         vc_vectors := vectors; vc_entry := entry |} in
    read _ := lift (validate_graph name collection) in
    ret (<[name := collection]> collections).

Definition decode_vector_collections : Reader Vectors :=
  read count := cur_u32 in
  if (count =? 0)%N then fail (corrupt "snapshot has no vector collections")
  else
    read ahead := cur_remaining in
    if (ahead <? count)%N then fail (corrupt "snapshot vector count exceeds the blob")
    else cur_loop (N.to_nat count) cur_collection ∅.

(** The cursor part of [decode_snapshot]. *)
Definition snapshot_reader : Reader DocState :=
  read magic := cur_take 8 in
  if magic != SNAP_MAGIC then fail (corrupt "snapshot magic mismatch")
  else
    read version := cur_u32 in
    if negb (version =? SNAPSHOT_VERSION_DOCS)%N && negb (version =? SNAPSHOT_VERSION_COLUMNAR)%N
       && negb (version =? SNAPSHOT_VERSION_VECTOR)%N
    then fail (corrupt ("snapshot version " +:+ pretty version +:+ " is not supported"))
    else
      read seq := cur_u64 in
      read count := cur_count "snapshot count exceeds the blob" in
      read nested := cur_loop (N.to_nat count) cur_doc ∅ in
      let docs := from_nested nested in
      read tables := (if (version =? SNAPSHOT_VERSION_COLUMNAR)%N || (version =? SNAPSHOT_VERSION_VECTOR)%N
                      then decode_column_tables (version =? SNAPSHOT_VERSION_COLUMNAR)%N
                      else ret ∅) in
      read vectors := (if (version =? SNAPSHOT_VERSION_VECTOR)%N then decode_vector_collections
                       else ret ∅) in
      read _ := cur_finish in
      ret {| st_docs := docs; st_tables := tables; st_vectors := vectors; st_last_seq := seq |}.

(** [decode_snapshot]. The source's [Snapshot] has the fields of a [DocState]. *)
Definition decode_snapshot (buf : bytes) : Result DocState StoreError :=
  if length buf <? 4 then Err (corrupt "snapshot is shorter than its crc")
  else
    let split := length buf - 4 in
    let body := take split buf in
    let stored := le_value (drop split buf) in
    if negb (crc32 body =? stored)%N then Err (corrupt "snapshot crc mismatch")
    else if length body <? 24 then Err (corrupt "snapshot header is truncated")
    else let? (snap, _) := snapshot_reader body in Ok snap.
End Snapshot.
#[global] Arguments doc_get : simpl never.
#[global] Arguments doc_insert : simpl never.

(** ** Documents as a map of pairs *)

(** No empty collection, as [Docs] promises. *)
Definition canonical `{Json} (docs : Docs) : Prop := map_Forall (fun _ ds => ds ≠ ∅) docs.

Section Docs.
Context `{Json}.
Implicit Types docs : Docs.

Lemma doc_get_insert docs c i d c' i' :
  doc_get (doc_insert docs c i d) c' i' = if decide (c = c' ∧ i = i') then Some d else doc_get docs c' i'.
Proof.
  unfold doc_get, doc_insert. destruct (decide (c = c')) as [<-|Hc].
  - rewrite lookup_insert_eq. cbn. destruct (decide (i = i')) as [<-|Hi].
    + rewrite lookup_insert_eq, decide_True by done. done.
    + rewrite lookup_insert_ne, decide_False by naive_solver.
      destruct (docs !! c); cbn; [done|apply lookup_empty].
  - rewrite lookup_insert_ne, decide_False by (done || by intros [? _]). done.
Qed.

Lemma canonical_insert docs c i d : canonical docs → canonical (doc_insert docs c i d).
Proof. intros Hc. apply map_Forall_insert_2; [apply insert_non_empty|done]. Qed.

Lemma docs_ext docs docs' :
  canonical docs → canonical docs' → (∀ c i, doc_get docs c i = doc_get docs' c i) → docs = docs'.
Proof.
  assert (∀ a b c ds, canonical a → (∀ c i, doc_get a c i = doc_get b c i) →
    a !! c = Some ds → b !! c = Some ds) as Hle.
  { intros a b c ds Ha Hab E. pose proof (Ha _ _ E) as Hne.
    apply map_choose in Hne as (i&d&Ei). pose proof (Hab c i) as Hci. unfold doc_get in Hci.
    rewrite E in Hci. cbn in Hci. destruct (b !! c) as [ds'|] eqn:Eb; cbn in Hci; [|congruence].
    f_equal. apply map_eq. intros j. specialize (Hab c j). unfold doc_get in Hab.
    rewrite E, Eb in Hab. done. }
  intros H1 H2 Hg. apply map_eq. intros c. destruct (docs !! c) as [ds|] eqn:E.
  - symmetry. by apply (Hle docs docs').
  - destruct (docs' !! c) as [ds|] eqn:E'; [|done]. rewrite (Hle docs' docs c ds) in E; [done|done| |done]. intros; by rewrite Hg.
Qed.

Lemma docs_iter_elem docs c i d : (c, i, d) ∈ docs_iter docs ↔ doc_get docs c i = Some d.
Proof.
  unfold docs_iter, doc_get. rewrite list_elem_of_In, in_concat. setoid_rewrite in_map_iff. split.
  - intros (l & ((c' & ds) & <- & Hc) & Hl). apply in_map_iff in Hl as ((i' & d') & [= -> -> ->] & Hi).
    apply list_elem_of_In, btree_iter_elem in Hc, Hi. by rewrite Hc.
  - destruct (docs !! c) as [ds|] eqn:E; cbn; [|done]. intros Hi.
    eexists. split; [exists (c, ds); split; [reflexivity|]|].
    + by apply list_elem_of_In, btree_iter_elem.
    + apply in_map_iff. exists (i, d). split; [done|]. by apply list_elem_of_In, btree_iter_elem.
Qed.

Lemma docs_iter_NoDup docs : NoDup (map fst (docs_iter docs)).
Proof.
  unfold docs_iter. pose proof (btree_iter_NoDup docs) as Hn.
  induction (btree_iter docs) as [|[c ds] l IH]; cbn; [constructor|].
  rewrite map_app, map_map. apply NoDup_app. cbn in Hn. apply NoDup_cons in Hn as [Hc Hn]. split_and!.
  - rewrite (map_ext _ (fun x => (c, x.1))) by (by intros []).
    pose proof (btree_iter_NoDup ds) as Hd. rewrite <-(map_map fst (pair c)).
    by apply (NoDup_fmap_2 (pair c)).
  - intros [c' i'] Hx Hy. apply list_elem_of_In, in_map_iff in Hx as ([i d] & [= -> ->] & _).
    apply list_elem_of_In, in_map_iff in Hy as (((c'' & i'') & d'') & [= -> ->] & Hy).
    apply in_concat in Hy as (k & Hk & Hy). apply in_map_iff in Hk as ([c2 ds2] & <- & Hk).
    apply in_map_iff in Hy as ([i3 d3] & [= -> -> ->] & _). apply Hc.
    apply list_elem_of_In, in_map_iff. by exists (c', ds2).
  - by apply IH.
Qed.

Lemma docs_len_iter docs : docs_len docs = len (docs_iter docs).
Proof.
  unfold docs_len, docs_iter, len, sum_list_N. induction (btree_iter docs) as [|[c ds] l IH]; cbn; [done|].
  rewrite IH, length_app, length_map. lia.
Qed.

Definition doc_ins (docs : Docs) (x : string * string * Value) : Docs := doc_insert docs x.1.1 x.1.2 x.2.

Lemma doc_get_fold l : ∀ docs c i,
  NoDup (map fst l) →
  doc_get (foldl doc_ins docs l) c i = match list_find (fun x => x.1 = (c, i)) l with
                                       | Some (_, x) => Some x.2
                                       | None => doc_get docs c i
                                       end.
Proof.
  induction l as [|[[c0 i0] d0] l IH]; intros docs c i Hn; [done|].
  cbn [foldl list_find]. cbn in Hn. apply NoDup_cons in Hn as [Hx Hn]. rewrite IH by done.
  unfold doc_ins. cbn [fst snd]. rewrite doc_get_insert.
  destruct (decide ((c0, i0) = (c, i))) as [[= -> ->]|Hne].
  - destruct (list_find (fun x => x.1 = (c, i)) l) as [[j [k d]]|] eqn:E; cbn.
    + apply list_find_Some in E as (Hj & Hk & _). cbn in Hk. subst k. exfalso. apply Hx.
      apply list_elem_of_In, in_map_iff. exists (c, i, d). split; [done|].
      apply list_elem_of_In. by eapply list_elem_of_lookup_2.
    + by rewrite decide_True.
  - rewrite decide_False by naive_solver. destruct (list_find _ l) as [[j x]|]; cbn; done.
Qed.

Lemma docs_rebuild docs : canonical docs → foldl doc_ins ∅ (docs_iter docs) = docs.
Proof.
  intros Hc. apply docs_ext; [|done|].
  - assert (∀ l m, canonical m → canonical (foldl doc_ins m l)) as Hf.
    { induction l as [|x l IH]; intros m Hm; cbn; [done|]. apply IH. by apply canonical_insert. }
    apply Hf, map_Forall_empty.
  - intros c i. rewrite doc_get_fold by apply docs_iter_NoDup.
    destruct (list_find _ _) as [[j [[c' i'] d]]|] eqn:E.
    + apply list_find_Some in E as (Hj & [= -> ->] & _). symmetry. cbn.
      apply docs_iter_elem. by eapply list_elem_of_lookup_2.
    + apply list_find_None in E. destruct (doc_get docs c i) as [d|] eqn:Ed; [|done].
      apply docs_iter_elem in Ed. rewrite Forall_forall in E. by apply E in Ed.
Qed.

Lemma from_nested_canonical docs : canonical docs → from_nested docs = docs.
Proof. intros Hc. unfold from_nested. apply map_filter_id. intros c ds E. by apply (Hc c). Qed.
End Docs.

(** ** Round trip *)

Section Roundtrip.
Context `{Engine}.

(** A loop of reads over what a loop of writes wrote. *)
Lemma reads_loop {A S} (w : A → Result bytes StoreError) (step : S → Reader S) (g : S → A → S)
    (P : S → list A → Prop) :
  (∀ s a l b, P s (a :: l) → w a = Ok b → reads (step s) b (g s a) ∧ P (g s a) l) →
  ∀ l s bs, P s l → write_many w l = Ok bs → reads (cur_loop (length l) step s) bs (foldl g s l).
Proof.
  intros Hstep. induction l as [|a l IH]; intros s bs HP; cbn [write_many length cur_loop foldl].
  - intros <-%Ok_bytes. apply reads_ret.
  - destruct (w a) as [b|] eqn:Ea; cbn [result_bind]; [|done].
    destruct (write_many w l) as [rest|] eqn:El; cbn [result_bind]; [|done]. intros <-%Ok_bytes.
    destruct (Hstep s a l b HP Ea) as [Hr HP']. eapply reads_bind; [exact Hr|]. by apply IH.
Qed.

(** A map built from a list of fresh keys. *)
Lemma insert_fold {A} (l : list (string * A)) : ∀ m : gmap string A,
  NoDup (map fst l) → foldl (fun m x => <[x.1 := x.2]> m) m l = list_to_map l ∪ m.
Proof.
  induction l as [|[k a] l IH]; intros m Hn; cbn; [by rewrite (left_id_L ∅ (∪))|].
  cbn in Hn. apply NoDup_cons in Hn as [Hk Hn]. rewrite IH by done.
  rewrite <-insert_union_r; [by rewrite insert_union_l|]. by apply not_elem_of_list_to_map.
Qed.

Lemma btree_rebuild {A} (m : gmap string A) :
  foldl (fun m x => <[x.1 := x.2]> m) ∅ (btree_iter m) = m.
Proof.
  rewrite insert_fold by apply btree_iter_NoDup.
  rewrite btree_iter_of_list. apply (right_id_L ∅ (∪)).
Qed.

(** What is asked of a state beyond its Rust type: its strings are UTF-8 (as
    every Rust [String] is), its documents read back from their text, and its
    tables were accepted when they entered. *)
Definition table_ok (name : string) (t : ColumnTable) : Prop :=
  text name ∧ Forall (fun c => text (cd_name c)) (tb_columns t)
  ∧ check_new_table false name (tb_columns t) = Ok tt
  ∧ Forall (fun g => validate_row_group (tb_columns t) g = Ok tt) (tb_groups t).

Definition stable_opt (md : option Value) : Prop := match md with Some v => json_stable v | None => True end.

Definition vector_ok (id : string) (r : VectorRecord) : Prop :=
  text id ∧ stable_opt (vr_metadata r) ∧ Forall (Forall text) (vr_neighbors r).

(** A collection that the full check of the index accepts, apart from the number
    of vectors. *)
Definition collection_ok (name : string) (c : VectorCollection) : Prop :=
  text name ∧ params_ok name c ∧ graph_ok (fun _ => False) c
  ∧ map_Forall (fun id r => text id ∧ stable_opt (vr_metadata r)) (vc_vectors c).

Lemma collection_text name c : collection_ok name c →
  text name ∧ match vc_entry c with Some e => text e | None => True end ∧ map_Forall vector_ok (vc_vectors c).
Proof.
  intros (Hn&_&[He Hrec Ht]&Hv). split; [done|]. split.
  - rewrite He. destruct (canonical_entry _) as [e|] eqn:Ee; [|done].
    apply canonical_spec in Ee as (r&Hr&_). by destruct (Hv e r Hr).
  - intros id r Hr. destruct (Hv id r Hr) as [Hid Hs]. split_and!; [done..|].
    apply Forall_lookup. intros k l Hk. rewrite Forall_forall. intros y Hy.
    destruct (tidy_live _ _ k c id l y (Ht k)) as [_ [r' Hr']].
    { unfold slot. by rewrite Hr. }
    { exact Hy. }
    by destruct (Hv y r' Hr').
Qed.

Record state_ok (st : DocState) : Prop := {
  so_canonical : canonical (st_docs st);
  so_docs : ∀ c i d, doc_get (st_docs st) c i = Some d → text c ∧ text i ∧ json_stable d;
  so_tables : map_Forall table_ok (st_tables st);
  so_vectors : map_Forall collection_ok (st_vectors st);
  so_seq : (st_last_seq st ≤ u64_max)%N;
}.

(** *** Documents *)

Lemma write_doc_length d w : write_doc d = Ok w → 1 ≤ length w.
Proof.
  destruct d as [[c i] d]. cbn [write_doc]. intros Hw.
  destruct (write_str c) eqn:E; cbn [result_bind] in Hw; [|done].
  destruct (write_str i) eqn:E2; cbn [result_bind] in Hw; [|done].
  destruct (write_json d); cbn [result_bind] in Hw; [|done]. apply Ok_bytes in Hw as <-.
  apply write_str_length in E. rewrite length_app. lia.
Qed.

Lemma reads_docs docs w :
  canonical docs → (∀ c i d, doc_get docs c i = Some d → text c ∧ text i ∧ json_stable d) →
  write_many write_doc (docs_iter docs) = Ok w →
  reads (cur_loop (length (docs_iter docs)) cur_doc ∅) w docs.
Proof.
  intros Hc Hd Hw. rewrite <-(docs_rebuild docs Hc) at 2.
  eapply (reads_loop write_doc cur_doc doc_ins (fun m l =>
    NoDup (map fst l) ∧ Forall (fun x => doc_get m x.1.1 x.1.2 = None
      ∧ text x.1.1 ∧ text x.1.2 ∧ json_stable x.2) l)); [|split; [apply docs_iter_NoDup|]|done].
  - intros m [[c i] d] l b [Hn Hl] Hb. apply Forall_cons in Hl as [(Hg&Hct&Hit&Hds) Hl]. cbn in *.
    split.
    + destruct (write_str c) eqn:Ec; cbn [result_bind] in Hb; [|done].
      destruct (write_str i) eqn:Ei; cbn [result_bind] in Hb; [|done].
      destruct (write_json d) eqn:Ed; cbn [result_bind] in Hb; [|done]. apply Ok_bytes in Hb as <-.
      eapply reads_bind; [by eapply reads_str|]. eapply reads_bind; [by eapply reads_str|].
      rewrite <-(app_nil_r a1). eapply reads_bind; [by apply reads_json|]. rewrite Hg. apply reads_ret.
    + apply NoDup_cons in Hn as [Hx Hn]. split; [done|]. rewrite Forall_forall in *.
      intros [[c' i'] d'] Hin. destruct (Hl _ Hin) as (Hg'&?&?&?). cbn in *. split_and!; try done.
      unfold doc_ins. cbn [fst snd]. rewrite doc_get_insert, decide_False; [done|].
      intros [-> ->]. apply Hx. apply list_elem_of_In, in_map_iff. exists (c', i', d'). split; [done|].
      by apply list_elem_of_In.
  - rewrite Forall_forall. intros [[c i] d] Hin. apply docs_iter_elem, Hd in Hin. done.
Qed.

(** *** Column tables *)

Lemma lp_length b w : write_lp b = Ok w → 1 ≤ length w.
Proof. intros [_ ->]%write_lp_ok. rewrite length_app, length_u32. lia. Qed.

Lemma write_table_length t w : write_column_table t = Ok w → 1 ≤ length w.
Proof.
  destruct t as [name t]. cbn [write_column_table]. intros Hw.
  destruct (write_str name) eqn:E; cbn [result_bind] in Hw; [|done].
  destruct (write_columns _); cbn [result_bind] in Hw; [|done].
  destruct (ok_or _ _); cbn [result_bind] in Hw; [|done].
  destruct (write_many _ _); cbn [result_bind] in Hw; [|done]. apply Ok_bytes in Hw as <-.
  apply write_str_length in E. rewrite length_app. lia.
Qed.

Lemma for_each_all {A E} (f : A → Result unit E) l : Forall (fun a => f a = Ok tt) l → for_each f l = Ok tt.
Proof. induction 1 as [|a l Ha Hl IH]; cbn; [done|]. by rewrite Ha. Qed.

Lemma reads_table tables name t w :
  write_column_table (name, t) = Ok w → table_ok name t → tables !! name = None →
  reads (cur_table tables) w (<[name := t]> tables).
Proof.
  intros Hw (Ht&Hcols&Hcheck&Hgroups) Hfresh. cbn [write_column_table] in Hw.
  destruct (write_str name) as [n|] eqn:En; cbn [result_bind] in Hw; [|done].
  destruct (write_columns _) as [cs|] eqn:Ec; cbn [result_bind] in Hw; [|done].
  destruct (ok_or _ _) as [k|] eqn:Ek; cbn [result_bind] in Hw; [|done]. apply u32_try_ok in Ek as [-> Hk].
  destruct (write_many write_lp _) as [gs|] eqn:Eg; cbn [result_bind] in Hw; [|done]. apply Ok_bytes in Hw as <-.
  eapply reads_bind; [by eapply reads_str|]. eapply reads_columns; [done..|].
  pose proof (write_many_length _ _ _ lp_length Eg) as Hl. apply reads_count; [done..|].
  rewrite <-(app_nil_r gs). apply (reads_bind _ _ _ _ (tb_groups t)).
  - unfold len. rewrite Nat2N.id. rewrite <-(map_id (tb_groups t)) at 2.
    eapply reads_many; [|exact Eg]. intros g b _ Hb. by apply reads_lp.
  - rewrite Hfresh. cbn [is_some]. rewrite Hcheck.
    rewrite for_each_all by done. destruct t. apply reads_ret.
Qed.

Lemma reads_tables tables w : map_Forall table_ok tables →
  write_tables tables = Ok w →
  ∀ b, (b = true → tables ≠ ∅) → reads (decode_column_tables b) w tables.
Proof.
  intros Hok Hw b Hb. unfold write_tables in Hw.
  destruct (ok_or _ _) as [k|] eqn:Ek; cbn [result_bind] in Hw; [|done]. apply u32_try_ok in Ek as [-> Hk].
  destruct (write_many _ _) as [ts|] eqn:Et; cbn [result_bind] in Hw; [|done]. apply Ok_bytes in Hw as <-.
  pose proof (write_many_length _ _ _ write_table_length Et) as Hl.
  intros rest. unfold decode_column_tables, bind at 1. rewrite <-app_assoc, (reads_u32 _ Hk).
  assert (b && (len (btree_iter tables) =? 0)%N = false) as ->.
  { destruct b; [|done]. cbn. apply N.eqb_neq. unfold len. rewrite btree_iter_length.
    intros E. apply Hb; [done|]. apply map_size_empty_iff. lia. }
  unfold bind, cur_remaining. rewrite (proj2 (N.ltb_ge _ _)) by (unfold len in *; rewrite length_app; lia).
  unfold len. rewrite Nat2N.id. rewrite <-(btree_rebuild tables) at 2. revert rest.
  eapply (reads_loop write_column_table cur_table _ (fun m l =>
    NoDup (map fst l) ∧ Forall (fun x => m !! x.1 = None ∧ table_ok x.1 x.2) l));
    [|split; [apply btree_iter_NoDup|]|done].
  - intros m [name t] l bs [Hn HF] Hbs. apply Forall_cons in HF as [[Hm Ht] HF]. cbn in *.
    split; [by apply reads_table|]. apply NoDup_cons in Hn as [Hx Hn]. split; [done|].
    rewrite Forall_forall in *. intros [name' t'] Hin. destruct (HF _ Hin). cbn in *. split; [|done].
    rewrite lookup_insert_ne; [done|]. intros ->. apply Hx. apply list_elem_of_In, in_map_iff.
    exists (name', t'). split; [done|]. by apply list_elem_of_In.
  - rewrite Forall_forall. intros [name t] Hin. apply btree_iter_elem in Hin. split; [apply lookup_empty|].
    by apply Hok.
Qed.
End Roundtrip.

(** *** Vector collections *)

Section VectorRoundtrip.
Context `{Engine}.

Lemma check_create_bounds name dim storage m efc efs :
  check_create name dim storage m efc efs = Ok tt →
  (dim ≤ u32_max ∧ m ≤ u32_max ∧ efc ≤ u32_max ∧ efs ≤ u32_max)%N.
Proof.
  unfold check_create, stored_len, checked_mul, MAX_VECTOR_BYTES.
  destruct (check_name _ _); cbn [result_bind]; [|done].
  destruct (dim =? 0)%N; cbn [result_bind]; [done|].
  destruct (dim * bytes_per_value storage <=? u32_max)%N eqn:E; cbn [result_bind ok_or]; [|done].
  case_match; cbn [result_bind]; [done|]. repeat (case_match; [done|]). bool_prop.
  unfold u32_max in *. destruct storage; cbn [bytes_per_value] in *; lia.
Qed.

Lemma validate_graph_records name col :
  validate_graph name col = Ok tt →
  check_create name (vc_dim col) (vc_storage col) (vc_m col) (vc_ef_construction col) (vc_ef_search col) = Ok tt
  ∧ Forall (fun x => (vr_level x.2 ≤ 16)%N ∧ len (vr_neighbors x.2) = (vr_level x.2 + 1)%N)
      (btree_iter (vc_vectors col)).
Proof.
  intros (Hp&_&[_ Hrec _])%validate_graph_spec. split; [exact Hp|]. rewrite Forall_forall.
  intros [id r] Hin. apply btree_iter_elem, Hrec in Hin as (_&_&Hl&Hn). cbn. rewrite Hl in *.
  split; [apply level_max|]. unfold len. lia.
Qed.

Definition bare (r : VectorRecord) : VectorRecord :=
  {| vr_bytes := vr_bytes r; vr_metadata := vr_metadata r; vr_level := 0; vr_neighbors := [] |}.

Lemma write_vector_ok id r w : write_vector (id, r) = Ok w →
  ∃ i b md, write_str id = Ok i ∧ write_lp (vr_bytes r) = Ok b ∧ write_metadata (vr_metadata r) = Ok md
    ∧ w = i ++ b ++ md.
Proof.
  cbn [write_vector]. intros Hw.
  destruct (write_str id) eqn:E1; cbn [result_bind] in Hw; [|done].
  destruct (write_lp _) eqn:E2; cbn [result_bind] in Hw; [|done].
  destruct (write_metadata _) eqn:E3; cbn [result_bind] in Hw; [|done]. apply Ok_bytes in Hw as <-. eauto 10.
Qed.

Lemma write_vector_length v w : write_vector v = Ok w → 1 ≤ length w.
Proof.
  destruct v as [id r]. intros (i&b&md&E&_&_&->)%write_vector_ok.
  apply write_str_length in E. rewrite length_app. lia.
Qed.

(** Rebuilding a map in its own order, each value through [f]. *)
Lemma btree_rebuild_fmap {A B} (f : A → B) (m : gmap string A) :
  foldl (fun m x => <[x.1 := f x.2]> m) ∅ (btree_iter m) = f <$> m.
Proof.
  rewrite <-(btree_iter_of_list m) at 2. rewrite <-list_to_map_fmap.
  pose proof (btree_iter_NoDup m) as Hn. revert Hn. generalize (btree_iter m). intros l Hn.
  rewrite <-(right_id_L ∅ (∪) (list_to_map _)), <-insert_fold.
  - generalize (∅ : gmap string B). induction l as [|[k a] l IH]; intros m'; cbn; [done|].
    cbn in Hn. apply NoDup_cons in Hn as [_ Hn]. by apply IH.
  - rewrite map_map. exact Hn.
Qed.

Lemma reads_vectors vs w : map_Forall vector_ok vs →
  write_many write_vector (btree_iter vs) = Ok w →
  reads (cur_loop (length (btree_iter vs)) cur_vector ∅) w (bare <$> vs).
Proof.
  intros Hok Hw. rewrite <-btree_rebuild_fmap.
  eapply (reads_loop write_vector cur_vector (fun m x => <[x.1 := bare x.2]> m) (fun m l =>
    NoDup (map fst l) ∧ Forall (fun x => m !! x.1 = None ∧ vector_ok x.1 x.2) l));
    [|split; [apply btree_iter_NoDup|]|done].
  - intros m [id r] l b [Hn HF] Hb. apply Forall_cons in HF as [[Hm (Ht&Hmd&_)] HF]. cbn [fst snd] in *.
    apply write_vector_ok in Hb as (i&bs&md&E1&E2&E3&->). split.
    + eapply reads_bind; [by eapply reads_str|]. eapply reads_bind; [by apply reads_lp|].
      rewrite <-(app_nil_r md). eapply reads_bind; [by apply reads_metadata|]. rewrite Hm. apply reads_ret.
    + cbn in Hn. apply NoDup_cons in Hn as [Hx Hn]. split; [done|].
      rewrite Forall_forall in *. intros [id' r'] Hin. destruct (HF _ Hin). cbn in *. split; [|done].
      rewrite lookup_insert_ne; [done|]. intros ->. apply Hx. apply list_elem_of_In, in_map_iff.
      exists (id', r'). split; [done|]. by apply list_elem_of_In.
  - rewrite Forall_forall. intros [id r] Hin. apply btree_iter_elem in Hin. split; [apply lookup_empty|].
    by apply Hok.
Qed.

Lemma reads_neighbors ns w : write_neighbors ns = Ok w → Forall text ns → reads cur_neighbors w ns.
Proof.
  intros Hw Ht. unfold write_neighbors in Hw.
  destruct (ok_or _ _) as [k|] eqn:Ek; cbn [result_bind] in Hw; [|done]. apply u32_try_ok in Ek as [-> Hk].
  destruct (write_many _ _) as [b|] eqn:Eb; cbn [result_bind] in Hw; [|done]. apply Ok_bytes in Hw as <-.
  apply reads_count; [done| |].
  - eapply write_many_length; [|exact Eb]. intros s' b' Hs. apply write_str_length in Hs. lia.
  - unfold len. rewrite Nat2N.id. rewrite <-(map_id ns) at 2. eapply reads_many; [|exact Eb].
    intros s' b' Hin Hs. apply reads_str; [done|]. rewrite Forall_forall in Ht. by apply Ht.
Qed.

Lemma write_neighbors_length ns w : write_neighbors ns = Ok w → 1 ≤ length w.
Proof.
  unfold write_neighbors. destruct (ok_or _ _); cbn [result_bind]; [|done].
  destruct (write_many _ _); cbn [result_bind]; [|done]. intros <-%Ok_bytes.
  rewrite length_app, length_u32. lia.
Qed.

Definition records_ok (l : list (string * VectorRecord)) : Prop :=
  Forall (fun x => (vr_level x.2 ≤ 16)%N ∧ len (vr_neighbors x.2) = (vr_level x.2 + 1)%N
                   ∧ Forall (Forall text) (vr_neighbors x.2)) l.

(** The second pass: the links are put back into the records they belong to. *)
Lemma reads_links l : ∀ w (m : gmap string VectorRecord), records_ok l →
  write_many write_links l = Ok w →
  reads (cur_links (map (fun x => (x.1, bare x.2)) l) m) w (foldl (fun m x => <[x.1 := x.2]> m) m l).
Proof.
  induction l as [|[id r] l IH]; intros w m Hok; cbn [write_many map cur_links foldl].
  - intros <-%Ok_bytes. apply reads_ret.
  - apply Forall_cons in Hok as [(Hlev&Hlen&Ht) Hok]. cbn [fst snd] in *.
    unfold write_links at 1. cbn [snd].
    destruct (write_many write_neighbors _) as [ns|] eqn:En; cbn [result_bind]; [|done].
    destruct (write_many write_links l) as [rest|] eqn:El; cbn [result_bind]; [|done]. intros <-%Ok_bytes.
    rewrite <-app_assoc. eapply reads_bind; [apply reads_tag; lia|].
    pose proof (write_many_length _ _ _ write_neighbors_length En) as Hl.
    intros tail. unfold bind at 1, cur_remaining.
    rewrite (proj2 (N.ltb_ge _ _)) by (unfold len in *; rewrite !length_app; lia). revert tail.
    apply (reads_bind _ _ _ _ (vr_neighbors r)).
    + replace (N.to_nat (vr_level r) + 1) with (length (vr_neighbors r)) by (unfold len in Hlen; lia).
      rewrite <-(map_id (vr_neighbors r)) at 2. eapply reads_many; [|exact En].
      intros a b Hin Hb. apply reads_neighbors; [done|]. rewrite Forall_forall in Ht. by apply Ht.
    + destruct r. by apply IH.
Qed.

Lemma sort_by_keys {A B} (f : A → B) (l : list (string * A)) :
  sort_by key_leb (map (fun x => (x.1, f x.2)) l) = map (fun x => (x.1, f x.2)) (sort_by key_leb l).
Proof.
  induction l as [|[k a] l IH]; [done|]. cbn [map sort_by foldr] in *.
  unfold sort_by in *. cbn [foldr]. rewrite IH. clear IH.
  induction (foldr _ _ l) as [|[k' a'] l' IH]; cbn; [done|].
  change (key_leb (k, f a) (k', f a')) with (key_leb (k, a) (k', a')).
  destruct (key_leb _ _); cbn; [done|]. f_equal. exact IH.
Qed.

Lemma btree_iter_fmap {A B} (f : A → B) (m : gmap string A) :
  btree_iter (f <$> m) = map (fun x => (x.1, f x.2)) (btree_iter m).
Proof. unfold btree_iter. rewrite map_to_list_fmap. apply sort_by_keys. Qed.

Lemma reads_entry e w : write_entry e = Ok w → match e with Some s => text s | None => True end →
  reads cur_entry w e.
Proof.
  destruct e as [s|]; cbn [write_entry].
  - destruct (write_str s) as [b|] eqn:E; cbn [result_bind]; [|done]. intros <-%Ok_bytes Ht.
    eapply (reads_bind _ _ (tag 1)); [by apply reads_tag|]. by apply (reads_last _ Some), reads_str.
  - intros <-%Ok_bytes _. rewrite <-(app_nil_r (tag 0)). eapply reads_bind; [by apply reads_tag|]. apply reads_ret.
Qed.

Lemma overwrite_all {A} (f : A → A) (m : gmap string A) :
  foldl (fun m x => <[x.1 := x.2]> m) (f <$> m) (btree_iter m) = m.
Proof.
  rewrite insert_fold by apply btree_iter_NoDup. rewrite btree_iter_of_list. apply map_eq. intros k.
  rewrite lookup_union. destruct (m !! k) eqn:E; rewrite lookup_fmap, E; done.
Qed.

Lemma reads_collection collections name col w :
  write_vector_collection (name, col) = Ok w → collection_ok name col →
  validate_graph name col = Ok tt → collections !! name = None →
  reads (cur_collection collections) w (<[name := col]> collections).
Proof.
  intros Hw (Ht&He&Hv)%collection_text Hg Hfresh. destruct (validate_graph_records _ _ Hg) as [Hcc Hrec].
  apply check_create_bounds in Hcc as (Hdim&Hm&Hefc&Hefs). cbn [write_vector_collection] in Hw.
  destruct (write_str name) as [n|] eqn:En; cbn [result_bind] in Hw; [|done].
  destruct (ok_or _ _) as [k|] eqn:Ek; cbn [result_bind] in Hw; [|done]. apply u32_try_ok in Ek as [-> Hk].
  destruct (write_many write_vector _) as [vs|] eqn:Evs; cbn [result_bind] in Hw; [|done].
  destruct (write_entry _) as [e|] eqn:Ee; cbn [result_bind] in Hw; [|done].
  destruct (write_many write_links _) as [ls|] eqn:Els; cbn [result_bind] in Hw; [|done].
  apply Ok_bytes in Hw as <-. eapply reads_bind; [by eapply reads_str|].
  eapply reads_bind; [by apply reads_u32|]. eapply reads_bind; [apply reads_tag, storage_tag_lt|].
  rewrite <-(app_nil_l (tag _ ++ _)). eapply reads_bind; [apply reads_lift, storage_tag_inv|].
  eapply reads_bind; [apply reads_tag, metric_tag_lt|].
  rewrite <-(app_nil_l (u32_bytes (vc_m col) ++ _)). eapply reads_bind; [apply reads_lift, metric_tag_inv|].
  do 3 (eapply reads_bind; [by apply reads_u32|]).
  pose proof (write_many_length _ _ _ write_vector_length Evs) as Hl.
  apply reads_count; [done|unfold len in *; rewrite length_app; lia|].
  unfold len. rewrite Nat2N.id. eapply reads_bind; [by apply reads_vectors|].
  eapply reads_bind; [by apply reads_entry|]. rewrite <-(app_nil_r ls).
  apply (reads_bind _ _ _ _ (vc_vectors col)).
  - rewrite btree_iter_fmap. rewrite <-(overwrite_all bare (vc_vectors col)) at 3.
    apply reads_links; [|done]. unfold records_ok. rewrite Forall_forall in *. intros [id r] Hin.
    destruct (Hrec _ Hin) as [? ?]. apply btree_iter_elem in Hin. destruct (Hv _ _ Hin) as (_&_&?). done.
  - rewrite Hfresh. cbn [is_some]. cbv zeta. destruct col; cbn in *. rewrite Hg. apply reads_ret.
Qed.
End VectorRoundtrip.

(** ** The whole snapshot *)

Section SnapshotRoundtrip.
Context `{Engine}.

Lemma write_collection_length c w : write_vector_collection c = Ok w → 1 ≤ length w.
Proof.
  destruct c as [name col]. cbn [write_vector_collection]. intros Hw.
  destruct (write_str name) eqn:E; cbn [result_bind] in Hw; [|done].
  destruct (ok_or _ _); cbn [result_bind] in Hw; [|done].
  destruct (write_many write_vector _); cbn [result_bind] in Hw; [|done].
  destruct (write_entry _); cbn [result_bind] in Hw; [|done].
  destruct (write_many write_links _); cbn [result_bind] in Hw; [|done]. apply Ok_bytes in Hw as <-.
  apply write_str_length in E. rewrite length_app. lia.
Qed.

Lemma validate_graph_full_ok name col : validate_graph_full name col = Ok tt → validate_graph name col = Ok tt.
Proof. unfold validate_graph_full. by destruct (validate_graph name col) as [[]|]. Qed.

Lemma reads_collections vectors w (count : StoreError) : map_Forall collection_ok vectors → vectors ≠ ∅ →
  for_each (fun '(name, col) => validate_graph_full name col) (btree_iter vectors) = Ok tt →
  ok_or (u32_try (len (btree_iter vectors))) count = Ok (len (btree_iter vectors)) →
  write_many write_vector_collection (btree_iter vectors) = Ok w →
  reads decode_vector_collections (u32_bytes (len (btree_iter vectors)) ++ w) vectors.
Proof.
  intros Hok Hne Hg Ek Hw. apply u32_try_ok in Ek as [_ Hk].
  pose proof (write_many_length _ _ _ write_collection_length Hw) as Hl.
  intros rest. unfold decode_vector_collections, bind at 1. rewrite <-app_assoc, (reads_u32 _ Hk).
  rewrite (proj2 (N.eqb_neq _ _)).
  2: { unfold len. rewrite btree_iter_length. intros E. apply Hne, map_size_empty_iff. lia. }
  unfold bind, cur_remaining. rewrite (proj2 (N.ltb_ge _ _)) by (unfold len in *; rewrite length_app; lia).
  unfold len. rewrite Nat2N.id. rewrite <-(btree_rebuild vectors) at 2. revert rest.
  eapply (reads_loop write_vector_collection cur_collection _ (fun m l =>
    NoDup (map fst l) ∧ Forall (fun x => m !! x.1 = None ∧ collection_ok x.1 x.2
      ∧ validate_graph x.1 x.2 = Ok tt) l)); [|split; [apply btree_iter_NoDup|]|done].
  - intros m [name c] l bs [Hn HF] Hbs. apply Forall_cons in HF as [(Hm&Hc&Hv) HF]. cbn [fst snd map] in *.
    split; [by apply reads_collection|]. apply NoDup_cons in Hn as [Hx Hn]. split; [done|].
    rewrite Forall_forall in *. intros [name' c'] Hin. destruct (HF _ Hin) as (?&?&?). cbn [fst snd] in *.
    split_and!; [|done..].
    rewrite lookup_insert_ne; [done|]. intros ->. apply Hx. apply list_elem_of_In, in_map_iff.
    exists (name', c'). split; [done|]. by apply list_elem_of_In.
  - rewrite Forall_forall. intros [name c] Hin. split_and!; [apply lookup_empty| |].
    + apply btree_iter_elem in Hin. by apply Hok.
    + apply validate_graph_full_ok. revert Hin Hg. generalize (btree_iter vectors). clear. intros l Hin.
      induction Hin as [[]|[] [] l Hin IH]; cbn [for_each].
      * by destruct (validate_graph_full _ _) as [[]|].
      * destruct (validate_graph_full s0 _) as [[]|]; cbn [result_bind]; [done|discriminate].
Qed.

(** The document section is common to the versions; what follows it is read by
    the sections the version has. *)
Lemma decode_sealed version st body tb vb :
  version ∈ [SNAPSHOT_VERSION_DOCS; SNAPSHOT_VERSION_COLUMNAR; SNAPSHOT_VERSION_VECTOR] →
  state_ok st → snapshot_docs version (st_last_seq st) (st_docs st) = Ok body →
  reads (if (version =? SNAPSHOT_VERSION_COLUMNAR)%N || (version =? SNAPSHOT_VERSION_VECTOR)%N
         then decode_column_tables (version =? SNAPSHOT_VERSION_COLUMNAR)%N else ret ∅) tb (st_tables st) →
  reads (if (version =? SNAPSHOT_VERSION_VECTOR)%N then decode_vector_collections else ret ∅) vb (st_vectors st) →
  decode_snapshot (seal (body ++ tb ++ vb)) = Ok st.
Proof.
  intros Hver [Hcan Hdocs _ _ Hseq] Hb Ht Hv. unfold snapshot_docs in Hb.
  destruct (ok_or _ _) as [k|] eqn:Ek; cbn [result_bind] in Hb; [|done]. apply u32_try_ok in Ek as [-> Hk].
  destruct (write_many _ _) as [ds|] eqn:Ed; cbn [result_bind] in Hb; [|done]. apply Ok_bytes in Hb as <-.
  set (body := _ ++ tb ++ vb).
  assert (24 ≤ length body) as Hlen.
  { subst body. rewrite !length_app, !length_u32, length_u64. cbn. lia. }
  assert (snapshot_reader body = Ok (st, [])) as Hr.
  { subst body. rewrite <-!app_assoc. unfold snapshot_reader.
    eapply bind_end; [apply (reads_take SNAP_MAGIC)|]. rewrite bool_decide_true by done. cbn [negb].
    eapply bind_end; [apply reads_u32|].
    { rewrite !elem_of_cons in Hver. destruct Hver as [->|[->|[->|Hver]]]; [by vm_compute..|].
      by apply not_elem_of_nil in Hver. }
    match goal with |- (if ?b then _ else _) _ = _ => replace b with false end.
    2: { rewrite !elem_of_cons in Hver. destruct Hver as [->|[->|[->|Hver]]]; [by vm_compute..|].
         by apply not_elem_of_nil in Hver. }
    eapply bind_end; [by apply reads_u64|].
    pose proof (write_many_length _ _ _ write_doc_length Ed) as Hl. rewrite docs_len_iter in *.
    apply bind_count; [done|unfold len in *; rewrite length_app; lia|].
    unfold len. rewrite Nat2N.id. eapply bind_end; [by apply reads_docs|].
    rewrite from_nested_canonical by done. cbv zeta.
    eapply bind_end; [done|]. rewrite <-(app_nil_r vb). eapply bind_end; [done|]. by destruct st. }
  unfold decode_snapshot, seal. rewrite length_app, length_u32.
  rewrite (proj2 (Nat.ltb_ge _ _)) by lia. cbv zeta.
  replace (length body + 4 - 4) with (length body) by lia.
  rewrite take_app_length, drop_app_length, le_value_u32, N.eqb_refl by apply crc32_lt. cbn [negb].
  rewrite (proj2 (Nat.ltb_ge _ _)) by lia. by rewrite Hr.
Qed.

Lemma snapshot_reads_back st blob :
  state_ok st → encode_state_snapshot st = Ok blob → decode_snapshot blob = Ok st.
Proof.
  intros Hok. unfold encode_state_snapshot. case_bool_decide as Hv; cbn [negb].
  - case_bool_decide as Ht.
    + unfold encode_snapshot. destruct (snapshot_docs _ _ _) as [body|] eqn:Eb; cbn [result_bind]; [|done].
      intros <-%Ok_bytes. rewrite <-(app_nil_r body).
      apply (decode_sealed SNAPSHOT_VERSION_DOCS st body [] []); [set_solver|done|done| |];
        cbn [orb N.eqb]; [rewrite Ht|rewrite Hv]; apply reads_ret.
    + unfold encode_snapshot_v2. destruct (snapshot_docs _ _ _) as [body|] eqn:Eb; cbn [result_bind]; [|done].
      destruct (write_tables _) as [ts|] eqn:Et; cbn [result_bind]; [|done].
      intros <-%Ok_bytes. rewrite <-(app_nil_r ts).
      apply (decode_sealed SNAPSHOT_VERSION_COLUMNAR st body ts []); [set_solver|done|done| |].
      * apply reads_tables; [apply Hok|done..].
      * rewrite Hv. apply reads_ret.
  - unfold encode_snapshot_v3. rewrite bool_decide_false by done.
    destruct (for_each _ _) as [[]|] eqn:Eg; cbn [result_bind]; [|done].
    destruct (snapshot_docs _ _ _) as [body|] eqn:Eb; cbn [result_bind]; [|done].
    destruct (write_tables _) as [ts|] eqn:Et; cbn [result_bind]; [|done].
    destruct (ok_or _ _) as [k|] eqn:Ek; cbn [result_bind]; [|done]. pose proof (u32_try_ok _ _ _ Ek) as [-> _].
    destruct (write_many _ _) as [vs|] eqn:Evs; cbn [result_bind]; [|done]. intros <-%Ok_bytes.
    apply (decode_sealed SNAPSHOT_VERSION_VECTOR st body ts _); [set_solver|done|done| |].
    + apply reads_tables; [apply Hok|done..].
    + eapply reads_collections; [apply Hok|done..].
Qed.
(** (C8) A snapshot that was written reads back as the state it was taken of,
    whichever of the three versions the state needs: documents, column tables
    and vector collections with their graphs. *)
Theorem snapshot_roundtrip st blob :
  state_ok st → encode_state_snapshot st = Ok blob → decode_snapshot blob = Ok st.
Proof. apply snapshot_reads_back. Qed.
End SnapshotRoundtrip.
