(* ===== verification/FlsState.v ===== *)
(** * The state of a store and its commits ([state.rs], lines 34-160 and 187-673)

    A commit stages its operations over the current state in an [Overlay], which
    checks each against the merged view, and then applies the whole overlay at
    once. Opening a store takes the other path: the frames of the log are
    applied one operation at a time by [apply_op].

    The theorems show that the two agree on every sequence of operations, the
    errors included; that what is read through an overlay, one document or a
    whole collection in order, is what the state holds once it is applied; that
    the frames of a run of commits replay to the state the run ended in; and
    that a commit keeps a state one the snapshot can hold.

    [Arc] copies are not modelled: a value is its contents. A failed vector
    operation leaves no overlay, as its caller drops it. *)

From Stdlib Require Import OrderedTypeEx.
From S2P Require Import Prelude RustStr Ledger FlsBytes FlsModel FlsColumns FlsVector FlsGraph FlsIndex FlsValid FlsLayout FlsSnapshot.

(** ** Documents *)

Section Documents.
Context `{Json}.

(** [Docs::in_collection] *)
Definition in_collection (docs : Docs) (collection : string) : list (string * Value) :=
  match docs !! collection with
  | Some ds => btree_iter ds
  | None => []
  end.

(** [Docs::remove] *)
Definition doc_remove (docs : Docs) (collection id : string) : Docs :=
  match docs !! collection with
  | None => docs
  | Some ds =>
      if is_none (ds !! id) then docs
      else
        let ds := delete id ds in
        if bool_decide (ds = ∅) then delete collection docs else <[collection := ds]> docs
  end.

Definition DocChanges : Type := list (string * option Value).

Definition change_doc (ds : gmap string Value) (change : string * option Value) : gmap string Value :=
  match change.2 with
  | Some doc => <[change.1 := doc]> ds
  | None => delete change.1 ds
  end.

Definition apply_collection (docs : Docs) (collection : string) (changes : DocChanges) : Docs :=
  let held := docs !! collection in
  let changes_something :=
    existsb (fun '(id, doc) => is_some doc || match held with
                                              | Some ds => is_some (ds !! id)
                                              | None => false
                                              end) changes in
  if negb changes_something then docs
  else
    let ds := foldl change_doc (default ∅ held) changes in
    if bool_decide (ds = ∅) then delete collection (<[collection := ds]> docs)
    else <[collection := ds]> docs.
End Documents.

(** ** Overlays *)

Record TableStage := { ts_created : option (list ColumnDef); ts_groups : list bytes }.

Record Overlay `{Json} := {
  ov_docs : gmap (string * string) (option Value);
  ov_tables : gmap string TableStage;
  ov_vectors : Vectors;
}.

(** Keys of [BTreeMap<(String, String), _>]: lexicographic. *)
Definition pair_leb {A} (a b : string * string * A) : bool :=
  if String.eqb a.1.1 b.1.1 then str_leb a.1.2 b.1.2 else str_leb a.1.1 b.1.1.

Fixpoint skip_while {A} (p : A → bool) (l : list A) : list A :=
  match l with
  | [] => []
  | x :: l' => if p x then skip_while p l' else l
  end.

Fixpoint take_while {A} (p : A → bool) (l : list A) : list A :=
  match l with
  | [] => []
  | x :: l' => if p x then x :: take_while p l' else []
  end.

Section Overlays.
Context `{Engine}.
Implicit Types (o : Overlay) (base state : DocState).

Definition Overlay_default : Overlay := {| ov_docs := ∅; ov_tables := ∅; ov_vectors := ∅ |}.

Definition overlay_doc o base (collection id : string) : option Value :=
  if bool_decide (ov_docs o = ∅) then doc_get (st_docs base) collection id
  else match ov_docs o !! (collection, id) with
       | Some staged => staged
       | None => doc_get (st_docs base) collection id
       end.

Definition staged_doc o (collection id : string) : option (option Value) :=
  if bool_decide (ov_docs o = ∅) then None else ov_docs o !! (collection, id).

Definition staged_iter o : list (string * string * option Value) := sort_by pair_leb (map_to_list (ov_docs o)).

(** [range((collection, "")..).take_while(..)] *)
Definition staged_in o (collection : string) : list (string * option Value) :=
  map (fun x => (x.1.2, x.2))
    (take_while (fun x => bool_decide (x.1.1 = collection))
       (skip_while (fun x => negb (pair_leb (collection, EmptyString, x.2) x)) (staged_iter o))).

(** What [visit_over] calls its function with, in order. *)
Definition emit (id : string) (doc : option Value) (rest : list (string * Value)) : list (string * Value) :=
  match doc with Some d => (id, d) :: rest | None => rest end.

Fixpoint visit_merge (held : list (string * Value)) : list (string * option Value) → list (string * Value) :=
  match held with
  | [] => fix drain staged :=
      match staged with
      | [] => []
      | (id, doc) :: rest => emit id doc (drain rest)
      end
  | (base_id, base_doc) :: others => fix merge staged :=
      match staged with
      | [] => (base_id, base_doc) :: visit_merge others []
      | (id, doc) :: rest =>
          if str_leb id base_id
          then if bool_decide (base_id = id) then emit id doc (visit_merge others rest)
               else emit id doc (merge rest)
          else (base_id, base_doc) :: visit_merge others staged
      end
  end.

Definition visit_over o (collection : string) (held : list (string * Value)) : list (string * Value) :=
  visit_merge held (staged_in o collection).

Definition visit o base (collection : string) : list (string * Value) :=
  visit_over o collection (in_collection (st_docs base) collection).

Definition overlay_put o (collection id : string) (doc : Value) : Overlay :=
  {| ov_docs := <[(collection, id) := Some doc]> (ov_docs o);
     ov_tables := ov_tables o; ov_vectors := ov_vectors o |}.

Definition overlay_delete o (collection id : string) : Overlay :=
  {| ov_docs := <[(collection, id) := None]> (ov_docs o);
     ov_tables := ov_tables o; ov_vectors := ov_vectors o |}.

Definition created_columns o (name : string) : option (list ColumnDef) :=
  ov_tables o !! name ≫= ts_created.

Definition table_columns o base (name : string) : option (list ColumnDef) :=
  match created_columns o name with
  | Some created => Some created
  | None => tb_columns <$> st_tables base !! name
  end.

Definition set_tables o (tables : gmap string TableStage) : Overlay :=
  {| ov_docs := ov_docs o; ov_tables := tables; ov_vectors := ov_vectors o |}.

Definition set_vectors o (vectors : Vectors) : Overlay :=
  {| ov_docs := ov_docs o; ov_tables := ov_tables o; ov_vectors := vectors |}.

Definition record_table_create o (name : string) (columns : list ColumnDef) : Overlay :=
  set_tables o (<[name := {| ts_created := Some columns; ts_groups := [] |}]> (ov_tables o)).

(** [entry(name).or_insert_with(..).groups.push(bytes)] *)
Definition record_table_append o (name : string) (group : bytes) : Overlay :=
  let held := default {| ts_created := None; ts_groups := [] |} (ov_tables o !! name) in
  set_tables o (<[name := {| ts_created := ts_created held; ts_groups := ts_groups held ++ [group] |}]>
                  (ov_tables o)).

Definition overlay_vector o base (name : string) : option VectorCollection :=
  match ov_vectors o !! name with
  | Some col => Some col
  | None => st_vectors base !! name
  end.

Definition creates_table o : bool :=
  existsb (fun x => is_some (ts_created x.2)) (map_to_list (ov_tables o)).

Definition has_tables o base : bool := negb (bool_decide (st_tables base = ∅)) || creates_table o.

Definition has_vectors o base : bool :=
  negb (bool_decide (st_vectors base = ∅)) || negb (bool_decide (ov_vectors o = ∅)).

(** [staged_vectors]: the overlay's own copy of a collection. The second
    lookup of the source finds what the first branch put there. *)
Definition staged_vectors o base (collection : string) : Result (Overlay * VectorCollection) StoreError :=
  let missing := backend ("no vector collection `" +:+ collection +:+ "`") in
  let? o := (if is_none (ov_vectors o !! collection)
             then match st_vectors base !! collection with
                  | None => Err missing
                  | Some held => Ok (set_vectors o (<[collection := held]> (ov_vectors o)))
                  end
             else Ok o) in
  match ov_vectors o !! collection with
  | None => Err missing
  | Some staged => Ok (o, staged)
  end.

Definition stage o base (op : Op) : Result Overlay StoreError :=
  match op with
  | Put collection id doc => Ok (overlay_put o collection id doc)
  | Delete collection id => Ok (overlay_delete o collection id)
  | CreateColumnTable name columns =>
      let taken := is_some (table_columns o base name) in
      let? _ := check_new_table taken name columns in
      Ok (set_tables o (<[name := {| ts_created := Some columns; ts_groups := [] |}]> (ov_tables o)))
  | AppendColumnGroup name group =>
      match table_columns o base name with
      | None => Err (corrupt ("append to missing column table `" +:+ name +:+ "`"))
      | Some columns =>
          let? _ := validate_row_group columns group in
          let held := default {| ts_created := None; ts_groups := [] |} (ov_tables o !! name) in
          Ok (set_tables o (<[name := {| ts_created := ts_created held;
                                         ts_groups := ts_groups held ++ [group] |}]> (ov_tables o)))
      end
  | CreateVectorCollection name dim storage metric m ef_construction ef_search =>
      let? _ := check_create name dim storage m ef_construction ef_search in
      if is_some (overlay_vector o base name)
      then Err (backend ("vector collection `" +:+ name +:+ "` already exists"))
      else Ok (set_vectors o (<[name := VectorCollection_empty dim storage metric m ef_construction ef_search]>
                                (ov_vectors o)))
  | UpsertVector collection id b metadata =>
      let? (o, col) := staged_vectors o base collection in
      let? col := vc_upsert col id b metadata in
      Ok (set_vectors o (<[collection := col]> (ov_vectors o)))
  | DeleteVector collection id =>
      let? (o, col) := staged_vectors o base collection in
      let? col := vc_delete_id col id in
      Ok (set_vectors o (<[collection := col]> (ov_vectors o)))
  end.

(** The loop of [Overlay::apply] over the staged documents: consecutive changes
    of one collection are handed over together. *)
Definition flush (docs : Docs) (pending : option (string * DocChanges)) : Docs :=
  match pending with
  | Some (current, changes) => apply_collection docs current changes
  | None => docs
  end.

Fixpoint apply_docs (docs : Docs) (pending : option (string * DocChanges))
    (staged : list (string * string * option Value)) : Docs :=
  match staged with
  | [] => flush docs pending
  | (collection, id, doc) :: rest =>
      match pending with
      | Some (current, changes) =>
          if bool_decide (current = collection)
          then apply_docs docs (Some (current, changes ++ [(id, doc)])) rest
          else apply_docs (apply_collection docs current changes) (Some (collection, [(id, doc)])) rest
      | None => apply_docs docs (Some (collection, [(id, doc)])) rest
      end
  end.

Definition apply_table (tables : Tables) (x : string * TableStage) : Tables :=
  let '(name, stage) := x in
  match ts_created stage with
  | Some columns => <[name := {| tb_columns := columns; tb_groups := ts_groups stage |}]> tables
  | None =>
      match tables !! name with
      | Some table => <[name := {| tb_columns := tb_columns table;
                                   tb_groups := tb_groups table ++ ts_groups stage |}]> tables
      | None => tables
      end
  end.

(** [Overlay::apply] *)
Definition overlay_apply o state : DocState :=
  {| st_docs := apply_docs (st_docs state) None (staged_iter o);
     st_tables := foldl apply_table (st_tables state) (btree_iter (ov_tables o));
     st_vectors := foldl (fun vs x => <[x.1 := x.2]> vs) (st_vectors state) (btree_iter (ov_vectors o));
     st_last_seq := st_last_seq state |}.

(** ** Commits *)

Definition set_last_seq state (seq : N) : DocState :=
  {| st_docs := st_docs state; st_tables := st_tables state; st_vectors := st_vectors state;
     st_last_seq := seq |}.

Definition stage_ops state (ops : list Op) : Result (Overlay * N) StoreError :=
  let? seq := ok_or (checked_add64 (st_last_seq state) 1) (backend "transaction sequence overflow") in
  let? overlay := for_fold (fun o op => stage o state op) Overlay_default ops in
  Ok (overlay, seq).

Definition publish_overlay state (overlay : Overlay) (seq : N) : DocState :=
  set_last_seq (overlay_apply overlay state) seq.

Definition commit_ops state (ops : list Op) : Result DocState StoreError :=
  match ops with
  | [] => Ok state
  | _ => let? (overlay, seq) := stage_ops state ops in
         Ok (publish_overlay state overlay seq)
  end.

Definition apply_commit state (op : Op) : Result DocState StoreError := commit_ops state [op].

(** ** Replay *)

Definition set_docs state (docs : Docs) : DocState :=
  {| st_docs := docs; st_tables := st_tables state; st_vectors := st_vectors state;
     st_last_seq := st_last_seq state |}.

Definition with_tables state (tables : Tables) : DocState :=
  {| st_docs := st_docs state; st_tables := tables; st_vectors := st_vectors state;
     st_last_seq := st_last_seq state |}.

Definition with_vectors state (vectors : Vectors) : DocState :=
  {| st_docs := st_docs state; st_tables := st_tables state; st_vectors := vectors;
     st_last_seq := st_last_seq state |}.

Definition apply_op state (op : Op) : Result DocState StoreError :=
  match op with
  | Put collection id doc => Ok (set_docs state (doc_insert (st_docs state) collection id doc))
  | Delete collection id => Ok (set_docs state (doc_remove (st_docs state) collection id))
  | CreateColumnTable name columns =>
      let? _ := check_new_table (is_some (st_tables state !! name)) name columns in
      Ok (with_tables state (<[name := {| tb_columns := columns; tb_groups := [] |}]> (st_tables state)))
  | AppendColumnGroup name group =>
      match st_tables state !! name with
      | None => Err (corrupt ("append to missing column table `" +:+ name +:+ "`"))
      | Some table =>
          let? _ := validate_row_group (tb_columns table) group in
          Ok (with_tables state (<[name := {| tb_columns := tb_columns table;
                                              tb_groups := tb_groups table ++ [group] |}]> (st_tables state)))
      end
  | CreateVectorCollection name dim storage metric m ef_construction ef_search =>
      let? _ := check_create name dim storage m ef_construction ef_search in
      if is_some (st_vectors state !! name)
      then Err (backend ("vector collection `" +:+ name +:+ "` already exists"))
      else Ok (with_vectors state
                 (<[name := VectorCollection_empty dim storage metric m ef_construction ef_search]>
                    (st_vectors state)))
  | UpsertVector collection id b metadata =>
      match st_vectors state !! collection with
      | None => Err (backend ("no vector collection `" +:+ collection +:+ "`"))
      | Some col => let? col := vc_upsert col id b metadata in
                    Ok (with_vectors state (<[collection := col]> (st_vectors state)))
      end
  | DeleteVector collection id =>
      match st_vectors state !! collection with
      | None => Err (backend ("no vector collection `" +:+ collection +:+ "`"))
      | Some col => let? col := vc_delete_id col id in
                    Ok (with_vectors state (<[collection := col]> (st_vectors state)))
      end
  end.

(** The first loop of [apply_frames], over [previous] and [expect]: the sequences
    are sound before anything is applied. *)
Definition check_frame (snapshot_seq : N) (s : option N * N) (frame : N * list Op)
    : Result (option N * N) StoreError :=
  let '(previous, expect) := s in
  let seq := frame.1 in
  if (seq =? 0)%N then Err (corrupt "wal sequence is zero")
  else
    let? _ := match previous with
              | Some prev =>
                  if (seq <=? prev)%N
                  then Err (corrupt ("wal sequence is not strictly increasing: previous " +:+ pretty prev
                                     +:+ ", found " +:+ pretty seq))
                  else Ok tt
              | None => Ok tt
              end in
    if (seq <=? snapshot_seq)%N then Ok (Some seq, expect)
    else
      let? expect := ok_or (checked_add64 expect 1) (corrupt "transaction sequence overflow") in
      if negb (seq =? expect)%N
      then Err (corrupt ("wal sequence gap or duplicate: expected " +:+ pretty expect +:+ ", found "
                         +:+ pretty seq))
      else Ok (Some seq, expect).

Definition apply_frame (snapshot_seq : N) state (frame : N * list Op) : Result DocState StoreError :=
  let '(seq, ops) := frame in
  if (seq <=? snapshot_seq)%N then Ok state
  else let? state := for_fold apply_op state ops in Ok (set_last_seq state seq).

Definition apply_frames state (snapshot_seq : N) (frames : list (N * list Op)) : Result DocState StoreError :=
  let? _ := for_fold (check_frame snapshot_seq) (None, snapshot_seq) frames in
  for_fold (apply_frame snapshot_seq) state frames.
End Overlays.

(** ** Applying an overlay *)

Section Apply.
Context `{Engine}.
Implicit Types (docs : Docs) (o : Overlay) (base state : DocState).

(** One staged change. *)
Definition doc_set docs (collection id : string) (doc : option Value) : Docs :=
  match doc with
  | Some d => doc_insert docs collection id d
  | None => doc_remove docs collection id
  end.

Lemma doc_get_remove docs c i c' i' :
  doc_get (doc_remove docs c i) c' i' = if decide (c = c' ∧ i = i') then None else doc_get docs c' i'.
Proof.
  unfold doc_remove. destruct (docs !! c) as [ds|] eqn:E.
  2: { case_decide as Hc; [|done]. destruct Hc as [<- <-]. unfold doc_get. by rewrite E. }
  destruct (ds !! i) as [d|] eqn:Ei; cbn [is_none is_some negb].
  2: { case_decide as Hc; [|done]. destruct Hc as [<- <-]. unfold doc_get. rewrite E. exact Ei. }
  assert (∀ ds', doc_get (<[c := ds']> docs) c' i' = if decide (c = c') then ds' !! i' else doc_get docs c' i') as Hset.
  { intros ds'. unfold doc_get. case_decide as Hc; [subst; by rewrite lookup_insert_eq|].
    by rewrite lookup_insert_ne. }
  assert (doc_get (<[c := delete i ds]> docs) c' i' = if decide (c = c' ∧ i = i') then None else doc_get docs c' i') as Hdel.
  { rewrite Hset. case_decide as Hc; [|by rewrite decide_False by naive_solver]. subst c'.
    destruct (decide (i = i')) as [<-|Hi]; [rewrite decide_True by done; apply lookup_delete_eq|].
    rewrite decide_False by naive_solver. rewrite lookup_delete_ne by done. unfold doc_get. by rewrite E. }
  cbv zeta. case_bool_decide as He; [|done]. rewrite <-Hdel. unfold doc_get.
  destruct (decide (c = c')) as [<-|Hc].
  - rewrite lookup_delete_eq, lookup_insert_eq. cbn. by rewrite He, lookup_empty.
  - by rewrite lookup_delete_ne, lookup_insert_ne.
Qed.

Lemma canonical_remove docs c i : canonical docs → canonical (doc_remove docs c i).
Proof.
  intros Hc. unfold doc_remove. repeat case_match; try done.
  - by apply map_Forall_delete.
  - apply map_Forall_insert_2; [|done]. by bool_prop.
Qed.

Lemma doc_get_set docs c i od c' i' :
  doc_get (doc_set docs c i od) c' i' = if decide (c = c' ∧ i = i') then od else doc_get docs c' i'.
Proof. destruct od; [apply doc_get_insert|apply doc_get_remove]. Qed.

Lemma canonical_set docs c i od : canonical docs → canonical (doc_set docs c i od).
Proof. destruct od; [apply canonical_insert|apply canonical_remove]. Qed.

Definition set_doc docs (x : string * string * option Value) : Docs := doc_set docs x.1.1 x.1.2 x.2.

Lemma canonical_set_all l : ∀ docs, canonical docs → canonical (foldl set_doc docs l).
Proof. induction l as [|x l IH]; intros docs Hc; cbn; [done|]. by apply IH, canonical_set. Qed.

Lemma change_lookup changes c : ∀ docs ds, (∀ i, doc_get docs c i = ds !! i) →
  ∀ c' i, doc_get (foldl (fun docs x => doc_set docs c x.1 x.2) docs changes) c' i
  = if decide (c = c') then foldl change_doc ds changes !! i else doc_get docs c' i.
Proof.
  induction changes as [|[j od] changes IH]; intros docs ds Hds c' i; cbn.
  - case_decide; [subst; by apply Hds|done].
  - rewrite (IH _ (change_doc ds (j, od))).
    + case_decide; [done|]. rewrite doc_get_set, decide_False by naive_solver. done.
    + intros i'. rewrite doc_get_set. destruct (decide (j = i')) as [<-|Hj].
      * rewrite decide_True by done. destruct od; cbn; [by rewrite lookup_insert_eq|by rewrite lookup_delete_eq].
      * rewrite decide_False by naive_solver. rewrite Hds.
        destruct od; cbn; [by rewrite lookup_insert_ne|by rewrite lookup_delete_ne].
Qed.

Lemma apply_collection_get docs c changes c' i :
  doc_get (apply_collection docs c changes) c' i
  = if decide (c = c') then foldl change_doc (default ∅ (docs !! c)) changes !! i else doc_get docs c' i.
Proof.
  unfold apply_collection. set (ds := foldl _ _ _). destruct (existsb _ _) eqn:Ex; cbn [negb]; cbv zeta.
  - case_bool_decide as He; unfold doc_get; case_decide as Hc; subst.
    + rewrite lookup_delete_eq, He. cbn. by rewrite lookup_empty.
    + by rewrite lookup_delete_ne, lookup_insert_ne.
    + by rewrite lookup_insert_eq.
    + by rewrite lookup_insert_ne.
  - case_decide as Hc; [subst c'|done].
    assert (ds = default ∅ (docs !! c)) as ->; [|by unfold doc_get; destruct (docs !! c)].
    subst ds. clear i. induction changes as [|[i od] changes IH]; cbn; [done|]. cbn in Ex. bool_prop.
    destruct od; [done|]. unfold change_doc at 2. cbn.
    assert (delete i (default ∅ (docs !! c)) = default ∅ (docs !! c)) as ->; [|auto].
    apply delete_id. destruct (docs !! c) as [ds|] eqn:E; [|apply lookup_empty]. cbn in *. by destruct (ds !! i).
Qed.

Lemma canonical_apply_collection docs c changes : canonical docs → canonical (apply_collection docs c changes).
Proof.
  intros Hc. unfold apply_collection. destruct (existsb _ _); cbn [negb]; [|done].
  cbv zeta. case_bool_decide.
  - rewrite delete_insert_eq. by apply map_Forall_delete.
  - by apply map_Forall_insert_2.
Qed.

Lemma apply_collection_set docs c changes : canonical docs →
  apply_collection docs c changes = foldl (fun docs x => doc_set docs c x.1 x.2) docs changes.
Proof.
  intros Hc. apply docs_ext; [by apply canonical_apply_collection| |].
  - clear -Hc. revert docs Hc. induction changes; intros; cbn; [done|]. by apply IHchanges, canonical_set.
  - intros c' i. rewrite apply_collection_get. symmetry. apply change_lookup.
    intros i'. unfold doc_get. destruct (docs !! c); cbn; [done|]. by rewrite lookup_empty.
Qed.

(** Grouping the changes by collection changes nothing. *)
Lemma apply_docs_set l : ∀ docs pending, canonical docs →
  apply_docs docs pending l = foldl set_doc (flush docs pending) l.
Proof.
  induction l as [|[[c i] od] l IH]; intros docs pending Hc; cbn [apply_docs foldl]; [done|].
  destruct pending as [[current changes]|]; [case_bool_decide as He|]; rewrite IH; try done; cbn [flush];
    rewrite ?apply_collection_set; try done; try by apply canonical_apply_collection.
  - by rewrite foldl_app, He.
  - rewrite <-apply_collection_set by done. by apply canonical_apply_collection.
Qed.

Lemma set_all_get l : ∀ docs c i, NoDup l.*1 →
  doc_get (foldl set_doc docs l) c i
  = match (list_to_map l : gmap (string * string) (option Value)) !! (c, i) with
    | Some od => od
    | None => doc_get docs c i
    end.
Proof.
  induction l as [|[[c' i'] od] l IH]; intros docs c i Hn; cbn; [by rewrite lookup_empty|].
  cbn in Hn. apply NoDup_cons in Hn as [Hx Hn]. rewrite IH by done. unfold set_doc. cbn. rewrite doc_get_set.
  destruct (decide (c' = c ∧ i' = i)) as [[-> ->]|Hne].
  - rewrite lookup_insert_eq. rewrite (not_elem_of_list_to_map_1 l) by done. done.
  - rewrite lookup_insert_ne; [done|]. intros [= -> ->]. by apply Hne.
Qed.

Lemma staged_iter_NoDup o : NoDup (staged_iter o).*1.
Proof. unfold staged_iter. rewrite sort_by_perm. apply NoDup_fst_map_to_list. Qed.

Lemma staged_iter_map o : list_to_map (staged_iter o) = ov_docs o.
Proof.
  rewrite <-(list_to_map_to_list (ov_docs o)). apply list_to_map_proper; [apply staged_iter_NoDup|].
  apply sort_by_perm.
Qed.

Lemma applied_doc o base c i : canonical (st_docs base) →
  doc_get (st_docs (overlay_apply o base)) c i
  = match ov_docs o !! (c, i) with Some od => od | None => doc_get (st_docs base) c i end.
Proof.
  intros Hc. cbn. rewrite apply_docs_set by done. cbn [flush].
  rewrite set_all_get by apply staged_iter_NoDup. by rewrite staged_iter_map.
Qed.

Lemma applied_canonical o base : canonical (st_docs base) → canonical (st_docs (overlay_apply o base)).
Proof. intros Hc. cbn. rewrite apply_docs_set by done. by apply canonical_set_all. Qed.

(** What a staged table becomes over the table it was staged over. *)
Definition staged_table (stage : option TableStage) (held : option ColumnTable) : option ColumnTable :=
  match stage with
  | None => held
  | Some s =>
      match ts_created s with
      | Some columns => Some {| tb_columns := columns; tb_groups := ts_groups s |}
      | None => (fun t => {| tb_columns := tb_columns t; tb_groups := tb_groups t ++ ts_groups s |}) <$> held
      end
  end.

Lemma apply_table_lookup tables x name :
  apply_table tables x !! name
  = if decide (x.1 = name) then staged_table (Some x.2) (tables !! name) else tables !! name.
Proof.
  destruct x as [n s]. cbn. case_decide as Hn; [subst|]; destruct (ts_created s).
  - by rewrite lookup_insert_eq.
  - destruct (tables !! name) eqn:E; cbn; [by rewrite lookup_insert_eq|done].
  - by rewrite lookup_insert_ne.
  - destruct (tables !! n); [by rewrite lookup_insert_ne|done].
Qed.

Lemma apply_tables_lookup l : ∀ tables name, NoDup (map fst l) →
  foldl apply_table tables l !! name
  = staged_table ((list_to_map l : gmap string TableStage) !! name) (tables !! name).
Proof.
  induction l as [|[n s] l IH]; intros tables name Hn; cbn [foldl]; [done|].
  cbn in Hn. apply NoDup_cons in Hn as [Hx Hn]. rewrite IH by done. rewrite apply_table_lookup. cbn [fst snd].
  destruct (decide (n = name)) as [->|Hne].
  - cbn. rewrite lookup_insert_eq. by rewrite (not_elem_of_list_to_map_1 l).
  - cbn. by rewrite lookup_insert_ne.
Qed.

Lemma applied_table o base name :
  st_tables (overlay_apply o base) !! name = staged_table (ov_tables o !! name) (st_tables base !! name).
Proof. cbn. rewrite apply_tables_lookup by apply btree_iter_NoDup. by rewrite btree_iter_of_list. Qed.

Lemma applied_vectors o base : st_vectors (overlay_apply o base) = ov_vectors o ∪ st_vectors base.
Proof. cbn. rewrite insert_fold by apply btree_iter_NoDup. by rewrite btree_iter_of_list. Qed.

Lemma applied_vector o base name :
  st_vectors (overlay_apply o base) !! name = overlay_vector o base name.
Proof.
  rewrite applied_vectors. unfold overlay_vector. destruct (ov_vectors o !! name) eqn:E.
  - by rewrite (lookup_union_Some_l _ _ _ _ E).
  - by rewrite lookup_union_r.
Qed.

Lemma applied_seq o base : st_last_seq (overlay_apply o base) = st_last_seq base.
Proof. done. Qed.
End Apply.
#[global] Opaque overlay_apply.

(** ** Staging is applying, seen from the base *)

Section Simulation.
Context `{Engine}.
Implicit Types (docs : Docs) (o : Overlay) (base state : DocState).

Lemma state_ext s1 s2 :
  canonical (st_docs s1) → canonical (st_docs s2) →
  (∀ c i, doc_get (st_docs s1) c i = doc_get (st_docs s2) c i) →
  (∀ n, st_tables s1 !! n = st_tables s2 !! n) → (∀ n, st_vectors s1 !! n = st_vectors s2 !! n) →
  st_last_seq s1 = st_last_seq s2 → s1 = s2.
Proof.
  destruct s1, s2; cbn. intros H1 H2 Hd Ht Hv ->. f_equal; [by apply docs_ext|by apply map_eq..].
Qed.

(** A table the overlay only appends to is one of the base. *)
Definition overlay_ok o base : Prop :=
  ∀ name s, ov_tables o !! name = Some s → ts_created s = None → is_Some (st_tables base !! name).

Lemma overlay_default_ok base : overlay_ok Overlay_default base.
Proof. intros name s Hs. cbn in Hs. by rewrite lookup_empty in Hs. Qed.

Lemma overlay_apply_default base : canonical (st_docs base) → overlay_apply Overlay_default base = base.
Proof.
  intros Hc. by apply state_ext.
Qed.

Lemma table_columns_applied o base name : overlay_ok o base →
  table_columns o base name = tb_columns <$> st_tables (overlay_apply o base) !! name.
Proof.
  intros Ho. rewrite applied_table. unfold table_columns, created_columns, staged_table.
  destruct (ov_tables o !! name) as [s|]; cbn; [|done].
  destruct (ts_created s); cbn; [done|]. by destruct (st_tables base !! name).
Qed.

Lemma doc_set_applied o base c i od : canonical (st_docs base) →
  overlay_apply {| ov_docs := <[(c, i) := od]> (ov_docs o); ov_tables := ov_tables o;
                   ov_vectors := ov_vectors o |} base
  = set_docs (overlay_apply o base) (doc_set (st_docs (overlay_apply o base)) c i od).
Proof.
  intros Hc. apply state_ext.
  - by apply applied_canonical.
  - by apply canonical_set, applied_canonical.
  - intros c' i'. cbn [st_docs set_docs]. rewrite doc_get_set, !applied_doc by done. cbn [ov_docs].
    destruct (decide (c = c' ∧ i = i')) as [[<- <-]|Hne]; [by rewrite lookup_insert_eq|].
    rewrite lookup_insert_ne; [done|]. intros [= -> ->]. by apply Hne.
  - intros n. cbn [st_tables set_docs]. by rewrite !applied_table.
  - intros n. cbn [st_vectors set_docs]. by rewrite !applied_vector.
  - done.
Qed.

Lemma tables_set_applied o base name s t : canonical (st_docs base) →
  staged_table (Some s) (st_tables base !! name) = Some t →
  overlay_apply (set_tables o (<[name := s]> (ov_tables o))) base
  = with_tables (overlay_apply o base) (<[name := t]> (st_tables (overlay_apply o base))).
Proof.
  intros Hc Ht. apply state_ext; cbn [with_tables st_docs st_tables st_vectors].
  - by apply applied_canonical.
  - by apply applied_canonical.
  - intros c' i'. by rewrite !applied_doc.
  - intros n. rewrite applied_table. cbn [set_tables ov_tables]. destruct (decide (name = n)) as [<-|Hne].
    + by rewrite !lookup_insert_eq.
    + rewrite !lookup_insert_ne by done. by rewrite applied_table.
  - intros n. by rewrite !applied_vector.
  - done.
Qed.

Lemma vectors_set_applied o base name col : canonical (st_docs base) →
  overlay_apply (set_vectors o (<[name := col]> (ov_vectors o))) base
  = with_vectors (overlay_apply o base) (<[name := col]> (st_vectors (overlay_apply o base))).
Proof.
  intros Hc. apply state_ext; cbn [with_vectors st_docs st_tables st_vectors].
  - by apply applied_canonical.
  - by apply applied_canonical.
  - intros c' i'. by rewrite !applied_doc.
  - intros n. by rewrite !applied_table.
  - intros n. rewrite applied_vector. unfold overlay_vector. cbn [set_vectors ov_vectors].
    destruct (decide (name = n)) as [<-|Hne]; [by rewrite !lookup_insert_eq|].
    rewrite !lookup_insert_ne by done. by rewrite applied_vector.
  - done.
Qed.

(** The overlay's copy of a collection is the collection seen through it, and
    making it changes no view. *)
Lemma staged_vectors_view o base name :
  match staged_vectors o base name with
  | Ok (o', col) => overlay_vector o base name = Some col ∧ ov_docs o' = ov_docs o ∧ ov_tables o' = ov_tables o
                    ∧ (∀ col', <[name := col']> (ov_vectors o') = <[name := col']> (ov_vectors o))
  | Err e => overlay_vector o base name = None ∧ e = backend ("no vector collection `" +:+ name +:+ "`")
  end.
Proof.
  unfold staged_vectors, overlay_vector. cbv zeta. destruct (ov_vectors o !! name) as [col|] eqn:E.
  - cbn [is_none is_some negb result_bind]. by rewrite E.
  - cbn [is_none is_some negb]. destruct (st_vectors base !! name) as [col|]; cbn [result_bind]; [|done].
    cbn [set_vectors ov_vectors ov_docs ov_tables]. rewrite lookup_insert_eq. split_and!; try done.
    intros. apply insert_insert_eq.
Qed.

Lemma set_vectors_eq o o' vs : ov_docs o' = ov_docs o → ov_tables o' = ov_tables o → set_vectors o' vs = set_vectors o vs.
Proof. unfold set_vectors. by intros -> ->. Qed.

Lemma stage_simulates o base op : canonical (st_docs base) → overlay_ok o base →
  match stage o base op with
  | Ok o' => overlay_ok o' base ∧ apply_op (overlay_apply o base) op = Ok (overlay_apply o' base)
  | Err e => apply_op (overlay_apply o base) op = Err e
  end.
Proof.
  intros Hc Ho. destruct op as [c i d|c i|name columns|name group|name dim s mt m efc efs|c i b md|c i];
    cbn [stage apply_op].
  - split; [done|]. unfold overlay_put. rewrite (doc_set_applied _ _ _ _ (Some d)) by done. done.
  - split; [done|]. unfold overlay_delete. rewrite (doc_set_applied _ _ _ _ None) by done. done.
  - rewrite (table_columns_applied _ _ _ Ho).
    replace (is_some (tb_columns <$> st_tables (overlay_apply o base) !! name))
      with (is_some (st_tables (overlay_apply o base) !! name)) by (by destruct (st_tables _ !! name)).
    destruct (check_new_table _ _ _); cbn [result_bind]; [|done]. split.
    + intros n s'. cbn [set_tables ov_tables]. destruct (decide (name = n)) as [<-|Hne].
      * rewrite lookup_insert_eq. by intros [= <-].
      * rewrite lookup_insert_ne by done. apply Ho.
    + by erewrite tables_set_applied.
  - rewrite (table_columns_applied _ _ _ Ho). pose proof (applied_table o base name) as Hat.
    destruct (st_tables (overlay_apply o base) !! name) as [t|] eqn:Et; cbn [fmap option_fmap option_map]; [|done].
    destruct (validate_row_group _ _); cbn [result_bind]; [|done].
    set (held := default _ _).
    assert (staged_table (Some held) (st_tables base !! name) = Some t) as Hh.
    { subst held. destruct (ov_tables o !! name) as [s'|]; cbn [default]; [done|]. cbn in Hat |- *.
      rewrite <-Hat. cbn. rewrite app_nil_r. by destruct t. }
    split.
    + intros n s'. cbn [set_tables ov_tables]. destruct (decide (name = n)) as [<-|Hne].
      * rewrite lookup_insert_eq. intros [= <-]. cbn [ts_created]. intros Hcr. cbn in Hh. rewrite Hcr in Hh.
        by destruct (st_tables base !! name).
      * rewrite lookup_insert_ne by done. apply Ho.
    + erewrite tables_set_applied; [done|done|]. cbn in *. destruct (ts_created held).
      * injection Hh as <-. done.
      * destruct (st_tables base !! name) as [bt|]; [|done]. injection Hh as <-. cbn. by rewrite app_assoc.
  - rewrite applied_vector. destruct (check_create _ _ _ _ _ _); cbn [result_bind]; [|done].
    destruct (overlay_vector o base name); cbn [is_some]; [done|]. split; [done|].
    by rewrite vectors_set_applied.
  - rewrite applied_vector. pose proof (staged_vectors_view o base c) as Hv.
    destruct (staged_vectors o base c) as [[o' col]|e]; cbn [result_bind].
    + destruct Hv as (->&Hd&Ht&Hi). destruct (vc_upsert _ _ _ _); cbn [result_bind]; [|done].
      rewrite Hi, (set_vectors_eq o o') by done. split; [done|]. by rewrite vectors_set_applied.
    + by destruct Hv as [-> ->].
  - rewrite applied_vector. pose proof (staged_vectors_view o base c) as Hv.
    destruct (staged_vectors o base c) as [[o' col]|e]; cbn [result_bind].
    + destruct Hv as (->&Hd&Ht&Hi). destruct (vc_delete_id _ _); cbn [result_bind]; [|done].
      rewrite Hi, (set_vectors_eq o o') by done. split; [done|]. by rewrite vectors_set_applied.
    + by destruct Hv as [-> ->].
Qed.

Lemma stage_all_simulates base ops : canonical (st_docs base) → ∀ o, overlay_ok o base →
  match for_fold (fun o op => stage o base op) o ops with
  | Ok o' => for_fold apply_op (overlay_apply o base) ops = Ok (overlay_apply o' base)
  | Err e => for_fold apply_op (overlay_apply o base) ops = Err e
  end.
Proof.
  intros Hc. induction ops as [|op ops IH]; intros o Ho; cbn [for_fold]; [done|].
  pose proof (stage_simulates o base op Hc Ho) as Hs. destruct (stage o base op) as [o'|e].
  - destruct Hs as [Ho' ->]. cbn [result_bind]. by apply IH.
  - by rewrite Hs.
Qed.

(** A commit does to the state what replay does one operation at a time, error
    for error, and numbers the result. *)
Lemma commit_ops_replay state ops : canonical (st_docs state) → ops ≠ [] →
  commit_ops state ops
  = (let? seq := ok_or (checked_add64 (st_last_seq state) 1) (backend "transaction sequence overflow") in
     let? state' := for_fold apply_op state ops in
     Ok (set_last_seq state' seq)).
Proof.
  intros Hc Hne. destruct ops as [|op ops]; [done|]. unfold commit_ops, stage_ops.
  destruct (ok_or _ _); cbn [result_bind]; [|done].
  pose proof (stage_all_simulates state (op :: ops) Hc _ (overlay_default_ok state)) as Hs.
  rewrite overlay_apply_default in Hs by done.
  destruct (for_fold (fun o op => stage o state op) _ _); rewrite Hs; done.
Qed.
End Simulation.

(** ** Reading a collection through an overlay *)

Abbreviation key_lt := (fun a b => String_as_OT.lt a.1 b.1).

Lemma pair_leb_total {A} (x y : string * string * A) : pair_leb x y = true ∨ pair_leb y x = true.
Proof.
  unfold pair_leb. destruct (String.eqb_spec x.1.1 y.1.1) as [->|Hne].
  - rewrite String.eqb_refl. apply str_leb_total.
  - destruct (String.eqb_spec y.1.1 x.1.1) as [|_]; [congruence|]. apply str_leb_total.
Qed.

Lemma pair_leb_alt {A} (x y : string * string * A) :
  pair_leb x y = true ↔ String_as_OT.lt x.1.1 y.1.1 ∨ (x.1.1 = y.1.1 ∧ str_leb x.1.2 y.1.2 = true).
Proof.
  unfold pair_leb. destruct (String.eqb_spec x.1.1 y.1.1) as [->|Hne].
  - split; [naive_solver|]. intros [Hl|[_ Hl]]; [|done]. by apply str_lt_irrefl in Hl.
  - rewrite str_leb_alt. naive_solver.
Qed.

Lemma pair_leb_trans {A} (x y z : string * string * A) :
  pair_leb x y = true → pair_leb y z = true → pair_leb x z = true.
Proof.
  rewrite !pair_leb_alt. intros [H1|[E1 H1]] [H2|[E2 H2]].
  - left. by eapply String_as_OT.lt_trans.
  - left. by rewrite <-E2.
  - left. by rewrite E1.
  - right. split; [congruence|]. by eapply str_leb_trans.
Qed.

(** A list sorted by key, without repeats, is strictly sorted. *)
Lemma sorted_strict {A} (l : list (string * A)) :
  StronglySorted key_leb l → NoDup l.*1 → StronglySorted key_lt l.
Proof.
  induction l as [|x l IH]; [constructor|]. intros [Hx Hs]%StronglySorted_cons. cbn. intros [Hn Hd]%NoDup_cons.
  apply StronglySorted_cons. split; [|by apply IH]. rewrite Forall_forall in *. intros y Hy.
  apply str_leb_lt; [by apply Is_true_true, Hx|]. intros E. apply Hn. rewrite E. by apply list_elem_of_fmap_2.
Qed.

Lemma sorted_strict_NoDup {A} (l : list (string * A)) : StronglySorted key_lt l → NoDup l.
Proof.
  induction l as [|x l IH]; [constructor|]. intros [Hx Hs]%StronglySorted_cons. constructor; [|by apply IH].
  intros Hin. rewrite Forall_forall in Hx. by eapply str_lt_irrefl, Hx.
Qed.

(** Two strictly sorted lists with the same elements are the same. *)
Lemma sorted_strict_eq {A} (l k : list (string * A)) :
  StronglySorted key_lt l → StronglySorted key_lt k → (∀ x, x ∈ l ↔ x ∈ k) → l = k.
Proof.
  intros Hl Hk He. apply (StronglySorted_unique_strong key_lt); [|done|done|].
  - intros x y _ _ H1 H2. exfalso. eapply str_lt_irrefl. by eapply String_as_OT.lt_trans.
  - apply NoDup_Permutation; [by apply sorted_strict_NoDup..|done].
Qed.

Lemma btree_iter_sorted {A} (m : gmap string A) : StronglySorted key_lt (btree_iter m).
Proof.
  apply sorted_strict; [|apply btree_iter_NoDup].
  apply sort_by_sorted; [apply key_leb_total|apply key_leb_trans].
Qed.

Section Visit.
Context `{Engine}.
Implicit Types (o : Overlay) (base : DocState).

(** The range scan finds the keys of one collection. *)
Lemma staged_prefix {A} c (l : list (string * string * A)) :
  StronglySorted pair_leb l → Forall (fun x => x.1.1 = c ∨ String_as_OT.lt c x.1.1) l →
  take_while (fun x => bool_decide (x.1.1 = c)) l = List.filter (fun x => bool_decide (x.1.1 = c)) l.
Proof.
  induction l as [|x l IH]; [done|]. intros [Hx Hs]%StronglySorted_cons [Hc HF]%Forall_cons. cbn.
  case_bool_decide as He; [by rewrite IH|]. symmetry. destruct Hc as [|Hc]; [done|].
  assert (Forall (fun y : string * string * A => String_as_OT.lt c y.1.1) l) as Hgt.
  { eapply Forall_impl; [exact Hx|]. intros y Hy%Is_true_true%pair_leb_alt.
    destruct Hy as [Hy|[Hy _]]; [by eapply String_as_OT.lt_trans|by rewrite <-Hy]. }
  clear -Hgt. induction Hgt as [|y l Hy _ IH]; cbn; [done|]. rewrite bool_decide_false; [done|].
  intros E. rewrite E in Hy. by apply str_lt_irrefl in Hy.
Qed.

Lemma staged_range {A} c (l : list (string * string * A)) :
  StronglySorted pair_leb l →
  take_while (fun x => bool_decide (x.1.1 = c)) (skip_while (fun x => negb (pair_leb (c, EmptyString, x.2) x)) l)
  = List.filter (fun x => bool_decide (x.1.1 = c)) l.
Proof.
  induction l as [|x l IH]; [done|]. intros Hs. cbn [skip_while].
  destruct (pair_leb (c, EmptyString, x.2) x) eqn:E; cbn [negb].
  - apply staged_prefix; [done|]. apply StronglySorted_cons in Hs as [Hx _].
    assert (∀ y : string * string * A, pair_leb (c, EmptyString, y.2) y = true → y.1.1 = c ∨ String_as_OT.lt c y.1.1) as Hge.
    { intros y [Hy|[Hy _]]%pair_leb_alt; cbn in *; auto. }
    constructor; [by apply Hge|]. eapply Forall_impl; [exact Hx|]. intros y Hy%Is_true_true.
    apply Hge. apply pair_leb_alt in E, Hy. apply pair_leb_alt. cbn in *.
    destruct E as [E|[E _]], Hy as [Hy|[Hy _]]; rewrite ?E, <-?Hy; auto using str_leb_empty.
    left. by eapply String_as_OT.lt_trans.
  - apply StronglySorted_cons in Hs as [_ Hs]. rewrite IH by done. cbn. rewrite bool_decide_false; [done|].
    intros Hx. apply not_true_iff_false in E. apply E, pair_leb_alt. right. split; [done|]. apply str_leb_empty.
Qed.

Lemma staged_in_elem o c i od : (i, od) ∈ staged_in o c ↔ ov_docs o !! (c, i) = Some od.
Proof.
  unfold staged_in. rewrite staged_range by (apply sort_by_sorted; [apply pair_leb_total|apply pair_leb_trans]).
  rewrite list_elem_of_In, in_map_iff. setoid_rewrite filter_In. unfold staged_iter. split.
  - intros (((c'&i')&od')&[= -> ->]&Hin&Hc%bool_decide_eq_true). cbn in Hc. subst c'.
    apply list_elem_of_In, sort_by_elem, elem_of_map_to_list in Hin. done.
  - intros Hl. exists (c, i, od). split_and!; [done| |by apply bool_decide_eq_true].
    by apply list_elem_of_In, sort_by_elem, elem_of_map_to_list.
Qed.

Lemma staged_in_sorted o c : StronglySorted key_lt (staged_in o c).
Proof.
  assert (StronglySorted pair_leb (staged_iter o)) as Hs.
  { apply sort_by_sorted; [apply pair_leb_total|apply pair_leb_trans]. }
  unfold staged_in. rewrite staged_range by done. pose proof (staged_iter_NoDup o) as Hn. revert Hs Hn.
  induction (staged_iter o) as [|x l IH]; cbn; [constructor|].
  intros [Hx Hs]%StronglySorted_cons [Hd Hn]%NoDup_cons. case_bool_decide as Hc; [|by apply IH]. cbn.
  apply StronglySorted_cons. split; [|by apply IH]. rewrite Forall_forall in Hx. apply Forall_forall. intros y Hy.
  apply list_elem_of_In, in_map_iff in Hy as (z&<-&Hz). apply filter_In in Hz as [Hz Hzc%bool_decide_eq_true].
  apply list_elem_of_In in Hz. pose proof (Hx z Hz) as Hle. apply Is_true_true, pair_leb_alt in Hle. cbn.
  rewrite Hc, Hzc in Hle. destruct Hle as [Hle|[_ Hle]]; [by apply str_lt_irrefl in Hle|].
  apply str_leb_lt; [done|]. intros E. apply Hd. destruct x as [[]], z as [[]]. cbn in *. subst.
  apply list_elem_of_fmap. by eexists (_, _, _).
Qed.

Lemma emit_elem id od rest (x : string * Value) : x ∈ emit id od rest ↔ (x.1 = id ∧ od = Some x.2) ∨ x ∈ rest.
Proof.
  destruct od as [d|]; cbn [emit]; [rewrite elem_of_cons|naive_solver]. destruct x; cbn. naive_solver.
Qed.

Lemma merge_elem held : ∀ staged x, StronglySorted key_lt held → StronglySorted key_lt staged →
  x ∈ visit_merge held staged ↔ (x.1, Some x.2) ∈ staged ∨ (x ∈ held ∧ x.1 ∉ staged.*1).
Proof.
  induction held as [|[bid bd] held IH]; intros staged x Hh Hs.
  - cbn [visit_merge]. clear Hh. induction staged as [|[id od] staged IHs]; [set_solver|].
    apply StronglySorted_cons in Hs as [_ Hs]. rewrite emit_elem, IHs by done. rewrite elem_of_cons. set_solver.
  - apply StronglySorted_cons in Hh as [Hb Hh]. rewrite Forall_forall in Hb.
    induction staged as [|[id od] staged IHs]; cbn [visit_merge].
    + rewrite elem_of_cons, IH by (done || constructor). set_solver.
    + pose proof Hs as Hs0. apply StronglySorted_cons in Hs as [Hi Hs]. rewrite Forall_forall in Hi.
      destruct (str_leb id bid) eqn:El; [case_bool_decide as Heq|].
      * subst bid. rewrite emit_elem, IH by done. rewrite !elem_of_cons, fmap_cons, not_elem_of_cons. cbn [fst].
        assert (x ∈ held → x.1 ≠ id). { intros Hx%Hb E. cbn in Hx. rewrite E in Hx. by apply str_lt_irrefl in Hx. }
        assert (x = (id, bd) → x.1 = id) by naive_solver. destruct x; cbn in *. naive_solver.
      * apply str_leb_lt in El; [|congruence]. rewrite emit_elem.
        change (_ ∈ _) with (x ∈ visit_merge ((bid, bd) :: held) staged) at 1. rewrite IHs by done.
        rewrite !elem_of_cons, fmap_cons, not_elem_of_cons. cbn [fst].
        assert (x = (bid, bd) ∨ x ∈ held → x.1 ≠ id).
        { intros [->|Hx%Hb] E; cbn in *; subst; [by apply str_lt_irrefl in El|].
          eapply str_lt_irrefl. by eapply String_as_OT.lt_trans. }
        destruct x; cbn in *. naive_solver.
      * apply str_leb_false in El. rewrite elem_of_cons, IH by done.
        rewrite !elem_of_cons, fmap_cons, not_elem_of_cons. cbn [fst].
        assert (x = (bid, bd) → x.1 ≠ id ∧ x.1 ∉ staged.*1) as Hx.
        { intros ->. cbn. split; [intros ->; by apply str_lt_irrefl in El|].
          intros ([id' od']&->&Hin)%list_elem_of_fmap. specialize (Hi _ Hin). cbn in *.
          eapply str_lt_irrefl. by eapply String_as_OT.lt_trans. }
        destruct x; cbn in *. naive_solver.
Qed.

Lemma emit_sorted id od rest : StronglySorted key_lt rest →
  (∀ x, x ∈ rest → String_as_OT.lt id x.1) → StronglySorted key_lt (emit id od rest).
Proof.
  intros Hs Hx. destruct od; cbn [emit]; [|done]. apply StronglySorted_cons. split; [|done].
  by apply Forall_forall.
Qed.

(** A key below both lists is below their merge. *)
Lemma merge_below k held staged : StronglySorted key_lt held → StronglySorted key_lt staged →
  (∀ x, x ∈ held → String_as_OT.lt k x.1) → (∀ x, x ∈ staged → String_as_OT.lt k x.1) →
  ∀ x, x ∈ visit_merge held staged → String_as_OT.lt k x.1.
Proof. intros Hh Hs H1 H2 x [Hx|[Hx _]]%merge_elem; [by apply (H2 (x.1, Some x.2))|by apply H1|done..]. Qed.

Lemma merge_sorted held : ∀ staged, StronglySorted key_lt held → StronglySorted key_lt staged →
  StronglySorted key_lt (visit_merge held staged).
Proof.
  induction held as [|[bid bd] held IH]; intros staged Hh Hs.
  - induction staged as [|[id od] staged IHs]; [constructor|].
    apply StronglySorted_cons in Hs as [Hi Hs]. rewrite Forall_forall in Hi.
    change (StronglySorted key_lt (emit id od (visit_merge [] staged))).
    apply emit_sorted; [by apply IHs|]. apply merge_below; [done..|set_solver|done].
  - pose proof Hh as Hh0. apply StronglySorted_cons in Hh as [Hb Hh]. rewrite Forall_forall in Hb.
    induction staged as [|[id od] staged IHs]; cbn [visit_merge].
    + apply (emit_sorted bid (Some bd)); [by apply IH|]. apply merge_below; [done..|set_solver].
    + pose proof Hs as Hs0. apply StronglySorted_cons in Hs as [Hi Hs]. rewrite Forall_forall in Hi.
      destruct (str_leb id bid) eqn:El; [case_bool_decide as Heq|].
      * subst bid. apply emit_sorted; [by apply IH|]. by apply merge_below.
      * apply str_leb_lt in El; [|congruence].
        change (StronglySorted key_lt (emit id od (visit_merge ((bid, bd) :: held) staged))).
        apply emit_sorted; [by apply IHs|]. apply merge_below; [done..| |done].
        intros x [->|Hx]%elem_of_cons; [done|]. eapply String_as_OT.lt_trans; [exact El|by apply Hb].
      * apply str_leb_false in El. apply (emit_sorted bid (Some bd)); [by apply IH|].
        apply merge_below; [done..|]. intros x [->|Hx]%elem_of_cons; [done|].
        eapply String_as_OT.lt_trans; [exact El|by apply Hi].
Qed.

Lemma in_collection_elem docs c i d : (i, d) ∈ in_collection docs c ↔ doc_get docs c i = Some d.
Proof.
  unfold in_collection, doc_get. destruct (docs !! c); cbn; [apply btree_iter_elem|]. set_solver.
Qed.

Lemma in_collection_sorted docs c : StronglySorted key_lt (in_collection docs c).
Proof. unfold in_collection. destruct (docs !! c); [apply btree_iter_sorted|constructor]. Qed.

Lemma overlay_doc_applied o base c i : canonical (st_docs base) →
  overlay_doc o base c i = doc_get (st_docs (overlay_apply o base)) c i.
Proof.
  intros Hc. rewrite applied_doc by done. unfold overlay_doc. case_bool_decide as He; [|done].
  by rewrite He, lookup_empty.
Qed.

Lemma visit_applied o base c : canonical (st_docs base) →
  visit o base c = in_collection (st_docs (overlay_apply o base)) c.
Proof.
  intros Hc. apply sorted_strict_eq.
  - apply merge_sorted; [apply in_collection_sorted|apply staged_in_sorted].
  - apply in_collection_sorted.
  - intros [i d]. unfold visit, visit_over.
    rewrite merge_elem by (apply in_collection_sorted || apply staged_in_sorted). cbn [fst snd].
    rewrite staged_in_elem, !in_collection_elem, applied_doc by done.
    assert (i ∉ (staged_in o c).*1 ↔ ov_docs o !! (c, i) = None) as Hn.
    { rewrite list_elem_of_fmap. split.
      - intros Hn. destruct (ov_docs o !! (c, i)) as [od|] eqn:E; [|done]. destruct Hn. exists (i, od).
        split; [done|]. by apply staged_in_elem.
      - intros E ([i' od]&->&Hin). apply staged_in_elem in Hin. cbn in E. congruence. }
    rewrite Hn. destruct (ov_docs o !! (c, i)) as [od|]; naive_solver.
Qed.

Lemma has_tables_applied o base : overlay_ok o base →
  has_tables o base = negb (bool_decide (st_tables (overlay_apply o base) = ∅)).
Proof.
  intros Ho. unfold has_tables, creates_table. apply Bool.eq_iff_eq_true.
  rewrite orb_true_iff, !negb_true_iff, !bool_decide_eq_false, existsb_exists.
  assert (∀ m : Tables, m ≠ ∅ ↔ ∃ n, is_Some (m !! n)) as Hne.
  { intros m. split; [intros (n&t&Hn)%map_choose; by exists n|]. intros (n&t&Hn) ->. by rewrite lookup_empty in Hn. }
  rewrite !Hne. setoid_rewrite applied_table. split.
  - intros [(n&t&Hn)|([n s]&Hin&Hs)]; exists n.
    + rewrite Hn. destruct (ov_tables o !! n) as [s|]; cbn; [|done]. by destruct (ts_created s).
    + apply list_elem_of_In, elem_of_map_to_list in Hin. rewrite Hin. cbn in *. by destruct (ts_created s).
  - intros (n&t&Hn). destruct (ov_tables o !! n) as [s|] eqn:E; cbn in Hn; [|left; by exists n, t].
    destruct (ts_created s) eqn:Ec; [right; exists (n, s)|left; exists n; by eapply Ho].
    split; [by apply list_elem_of_In, elem_of_map_to_list|]. cbn. by rewrite Ec.
Qed.

Lemma has_vectors_applied o base :
  has_vectors o base = negb (bool_decide (st_vectors (overlay_apply o base) = ∅)).
Proof.
  unfold has_vectors. apply Bool.eq_iff_eq_true.
  rewrite orb_true_iff, !negb_true_iff, !bool_decide_eq_false, applied_vectors.
  assert (∀ a b : Vectors, a ∪ b = ∅ ↔ a = ∅ ∧ b = ∅) as Hu.
  { intros a b. split; [|intros [-> ->]; apply (left_id_L ∅ (∪))]. intros E. split.
    - by apply map_positive_l in E.
    - apply map_positive_l in E as Ea. rewrite Ea in E. by rewrite (left_id_L ∅ (∪)) in E. }
  rewrite Hu. destruct (decide (ov_vectors o = ∅)), (decide (st_vectors base = ∅)); naive_solver.
Qed.

Lemma stage_all_ok base ops : canonical (st_docs base) → ∀ o o', overlay_ok o base →
  for_fold (fun o op => stage o base op) o ops = Ok o' → overlay_ok o' base.
Proof.
  intros Hc. induction ops as [|op ops IH]; intros o o' Ho; cbn [for_fold]; [by intros [= <-]|].
  pose proof (stage_simulates o base op Hc Ho) as Hs. destruct (stage o base op) as [o1|e]; cbn [result_bind]; [|done].
  destruct Hs as [Ho1 _]. by apply IH.
Qed.

(** (C7) Staging operations over a base is running them: it fails with the error
    the direct run gives, or everything read through the overlay is what the
    run's state holds (one document, a collection in order, a table's columns,
    a vector collection, whether there are tables or vectors at all), and
    applying the overlay to the base gives that state. *)
Theorem overlay_is_replay base ops : canonical (st_docs base) →
  match for_fold (fun o op => stage o base op) Overlay_default ops with
  | Err e => for_fold apply_op base ops = Err e
  | Ok o =>
      ∃ st, for_fold apply_op base ops = Ok st ∧ overlay_apply o base = st
        ∧ (∀ c i, overlay_doc o base c i = doc_get (st_docs st) c i)
        ∧ (∀ c, visit o base c = in_collection (st_docs st) c)
        ∧ (∀ n, table_columns o base n = tb_columns <$> st_tables st !! n)
        ∧ (∀ n, overlay_vector o base n = st_vectors st !! n)
        ∧ has_tables o base = negb (bool_decide (st_tables st = ∅))
        ∧ has_vectors o base = negb (bool_decide (st_vectors st = ∅))
  end.
Proof.
  intros Hc. pose proof (stage_all_simulates base ops Hc _ (overlay_default_ok base)) as Hs.
  pose proof (fun o => stage_all_ok base ops Hc _ o (overlay_default_ok base)) as Hok.
  rewrite overlay_apply_default in Hs by done. destruct (for_fold _ _ _) as [o|e]; [|done].
  specialize (Hok o eq_refl). exists (overlay_apply o base). split_and!; try done.
  - intros. by apply overlay_doc_applied.
  - intros. by apply visit_applied.
  - intros. by apply table_columns_applied.
  - intros. by rewrite applied_vector.
  - by apply has_tables_applied.
  - by apply has_vectors_applied.
Qed.
End Visit.

(** ** A run of commits and its log *)

Lemma for_fold_app {A S E} (f : S → A → Result S E) l k : ∀ s,
  for_fold f s (l ++ k) = (let? s' := for_fold f s l in for_fold f s' k).
Proof. induction l as [|a l IH]; intros s; cbn [app for_fold]; [done|]. destruct (f s a); cbn; auto. Qed.

Section Log.
Context `{Engine}.
Implicit Types (st : DocState) (batches : list (list Op)).

(** The frames a run of commits writes: one each, numbered from the sequence it
    started at. *)
Fixpoint number (from : N) batches : list (N * list Op) :=
  match batches with
  | [] => []
  | ops :: rest => ((from + 1)%N, ops) :: number (from + 1) rest
  end.

Lemma number_app from b1 b2 : number from (b1 ++ b2) = number from b1 ++ number (from + len b1) b2.
Proof.
  revert from. induction b1 as [|ops b1 IH]; intros from; cbn [number app]; [by rewrite N.add_0_r|].
  rewrite IH. do 3 f_equal. unfold len. cbn. lia.
Qed.

Lemma apply_op_canonical st op st' : canonical (st_docs st) → apply_op st op = Ok st' → canonical (st_docs st').
Proof.
  intros Hc Ha. destruct op; cbn [apply_op] in Ha; step_in Ha; cbn [st_docs set_docs with_tables with_vectors];
    auto using canonical_insert, canonical_remove.
Qed.

Lemma apply_ops_canonical ops : ∀ st st', canonical (st_docs st) → for_fold apply_op st ops = Ok st' → canonical (st_docs st').
Proof.
  induction ops as [|op ops IH]; intros st st' Hc; cbn; [by intros [= <-]|].
  destruct (apply_op st op) as [s1|] eqn:E; cbn; [|done]. apply IH. by eapply apply_op_canonical.
Qed.

Lemma commit_ops_inv st ops st' : canonical (st_docs st) → ops ≠ [] → commit_ops st ops = Ok st' →
  (st_last_seq st < u64_max)%N ∧ canonical (st_docs st') ∧ st_last_seq st' = (st_last_seq st + 1)%N
  ∧ ∃ s, for_fold apply_op st ops = Ok s ∧ st' = set_last_seq s (st_last_seq st + 1).
Proof.
  intros Hc Hne. rewrite commit_ops_replay by done. unfold checked_add.
  destruct (st_last_seq st + 1 <=? u64_max)%N eqn:E; cbn [ok_or result_bind]; [|done].
  destruct (for_fold _ _ _) as [s|] eqn:Es; cbn [result_bind]; [|done]. intros [= <-]. bool_prop.
  split_and!; [lia| |done|by exists s]. exact (apply_ops_canonical _ _ _ Hc Es).
Qed.

(** Each commit of a run is the frame it wrote, applied. *)
Lemma commits_frames batches : ∀ st st' k, canonical (st_docs st) → Forall (λ ops, ops ≠ []) batches →
  (k ≤ st_last_seq st)%N → for_fold commit_ops st batches = Ok st' →
  for_fold (apply_frame k) st (number (st_last_seq st) batches) = Ok st'
  ∧ canonical (st_docs st') ∧ st_last_seq st' = (st_last_seq st + len batches)%N
  ∧ (batches ≠ [] → st_last_seq st' ≤ u64_max)%N.
Proof.
  induction batches as [|ops batches IH]; intros st st' k Hc Hne Hk Hrun; cbn in Hrun.
  - injection Hrun as <-. split_and!; try done. unfold len; cbn; lia.
  - apply Forall_cons in Hne as [Ho Hne]. destruct (commit_ops st ops) as [s1|] eqn:E; cbn in Hrun; [|done].
    apply commit_ops_inv in E as (Hlt&Hc1&Hs1&s&Hs&->); [|done..]. cbn [st_last_seq set_last_seq] in *.
    destruct (IH _ st' k Hc1 Hne) as (Hf&Hc'&Hl&Hm); [cbn; lia|done|]. cbn [st_last_seq set_last_seq] in *.
    split_and!; [|done|unfold len in *; cbn; lia|].
    + cbn [number for_fold apply_frame]. rewrite (proj2 (N.leb_gt _ _)) by lia. rewrite Hs. cbn [result_bind]. done.
    + intros _. destruct batches; [unfold len in Hl; cbn in Hl; lia|]. by apply Hm.
Qed.

(** A frame numbered above its predecessor reaches the gap test. *)
Lemma check_frame_next k prev expect from ops : match prev with Some p => p ≤ from | None => True end%N →
  (from + 1 ≤ k ∨ (expect = from ∧ k ≤ from ∧ from < u64_max))%N →
  check_frame k (prev, expect) ((from + 1)%N, ops)
  = Ok (Some (from + 1)%N, if (from + 1 <=? k)%N then expect else (from + 1)%N).
Proof.
  intros Hp Hk. unfold check_frame. cbn [fst]. rewrite (proj2 (N.eqb_neq _ _)) by lia.
  replace (match prev with Some _ => _ | None => _ end) with (@Ok unit StoreError tt).
  2: { destruct prev as [p|]; [|done]. by rewrite (proj2 (N.leb_gt _ _)) by lia. }
  cbn [result_bind]. destruct (N.leb_spec (from + 1) k); [done|].
  destruct Hk as [|(->&_&Hlt)]; [lia|]. unfold checked_add. rewrite (proj2 (N.leb_le _ _)) by lia.
  cbn [ok_or result_bind]. by rewrite N.eqb_refl.
Qed.

(** Frames up to the snapshot pass the check and are skipped. *)
Lemma check_covered k expect batches : ∀ from prev, (from + len batches ≤ k)%N →
  match prev with Some p => p ≤ from | None => True end%N →
  ∃ prev', for_fold (check_frame k) (prev, expect) (number from batches) = Ok (prev', expect)
    ∧ match prev' with Some p => p ≤ from + len batches | None => True end%N.
Proof.
  induction batches as [|ops batches IH]; intros from prev Hk Hp; cbn [number for_fold].
  - exists prev. split; [done|]. unfold len. cbn. by rewrite N.add_0_r.
  - unfold len in Hk. cbn in Hk. rewrite check_frame_next by (done || (left; lia)). cbn [result_bind].
    rewrite (proj2 (N.leb_le _ _)) by lia.
    destruct (IH (from + 1)%N (Some (from + 1)%N)) as (prev'&->&Hp'); [unfold len; lia|lia|].
    exists prev'. split; [done|]. replace (from + len (ops :: batches))%N with (from + 1 + len batches)%N; [done|].
    unfold len. cbn. lia.
Qed.

Lemma check_numbered k batches : ∀ from prev, (k ≤ from)%N → (batches ≠ [] → from + len batches ≤ u64_max)%N →
  match prev with Some p => p ≤ from | None => True end%N →
  ∃ s, for_fold (check_frame k) (prev, from) (number from batches) = Ok s.
Proof.
  induction batches as [|ops batches IH]; intros from prev Hk Hm Hp; cbn [number for_fold]; [by eexists|].
  specialize (Hm ltac:(done)). unfold len in Hm. cbn in Hm.
  rewrite check_frame_next by (done || (right; lia)). cbn [result_bind]. rewrite (proj2 (N.leb_gt _ _)) by lia.
  apply IH; [lia| |lia]. intros _. unfold len. lia.
Qed.

Lemma run_replays st0 st1 st2 before after :
  canonical (st_docs st0) → Forall (λ ops, ops ≠ []) (before ++ after) →
  for_fold commit_ops st0 before = Ok st1 → for_fold commit_ops st1 after = Ok st2 →
  apply_frames st1 (st_last_seq st1) (number (st_last_seq st0) (before ++ after)) = Ok st2.
Proof.
  intros Hc [Hb Ha]%Forall_app H1 H2.
  destruct (commits_frames before st0 st1 0 Hc Hb ltac:(lia) H1) as (_&Hc1&Hl1&_).
  destruct (commits_frames after st1 st2 (st_last_seq st1) Hc1 Ha ltac:(lia) H2) as (Hf&_&Hl2&Hm).
  unfold apply_frames. rewrite number_app, <-Hl1, for_fold_app.
  destruct (check_covered (st_last_seq st1) (st_last_seq st1) before (st_last_seq st0) None) as (prev&->&Hp);
    [lia|done|]. cbn [result_bind].
  destruct (check_numbered (st_last_seq st1) after (st_last_seq st1) prev) as [s ->];
    [lia|intros; rewrite <-Hl2; auto|by rewrite Hl1|]. cbn [result_bind].
  rewrite for_fold_app. assert (for_fold (apply_frame (st_last_seq st1)) st1 (number (st_last_seq st0) before) = Ok st1) as ->;
    [|done].
  rewrite Hl1. clear. revert st0 st1. enough (∀ from k st, (from + len before ≤ k)%N →
    for_fold (apply_frame k) st (number from before) = Ok st) as Hskip by (intros; apply Hskip; lia).
  induction before as [|ops before IH]; intros from k st Hk; cbn [number for_fold]; [done|].
  unfold len in Hk. cbn in Hk. cbn [apply_frame]. rewrite (proj2 (N.leb_le _ _)) by lia. cbn [result_bind].
  apply IH. unfold len. lia.
Qed.
(** The log of a run of commits replays onto a snapshot taken at any point of
    the run: the frames the snapshot covers are skipped, the others are applied,
    and the result is the state the run ended in. *)
Theorem log_replays st0 st1 st2 before after :
  canonical (st_docs st0) → Forall (λ ops, ops ≠ []) (before ++ after) →
  for_fold commit_ops st0 before = Ok st1 → for_fold commit_ops st1 after = Ok st2 →
  apply_frames st1 (st_last_seq st1) (number (st_last_seq st0) (before ++ after)) = Ok st2.
Proof. apply run_replays. Qed.
End Log.

(** ** A commit keeps the state one that a snapshot can hold *)

Section Preservation.
Context `{Engine}.
Implicit Types (st : DocState).

Lemma check_new_table_free taken name columns :
  check_new_table taken name columns = Ok tt → check_new_table false name columns = Ok tt.
Proof. unfold check_new_table. destruct (check_name _ _); cbn; [|done]. by destruct taken. Qed.

(** *** The vector index *)

Lemma contents_lookup c id r : vc_vectors c !! id = Some r → contents c !! id = Some (vr_bytes r, vr_metadata r).
Proof. intros Hr. unfold contents. by rewrite lookup_fmap, Hr. Qed.

Lemma contents_inv c id b md : contents c !! id = Some (b, md) → ∃ r, vc_vectors c !! id = Some r ∧ vr_metadata r = md.
Proof. unfold contents. rewrite lookup_fmap, fmap_Some. intros (r&Hr&[= -> ->]). by exists r. Qed.

(** A collection with the parameters of [c] whose ids and metadata are those of
    [c], or given. *)
Lemma collection_step name c c' id md : collection_ok name c → same_params c c' → graph_ok (fun _ => False) c' →
  text id → stable_opt md →
  (∀ x v, contents c' !! x = Some v → x = id ∧ v.2 = md ∨ contents c !! x = Some v) → collection_ok name c'.
Proof.
  intros (Hn&Hp&_&Hv) Hs Hg Hid Hmd Hc. split_and!; [done|by eapply same_params_ok|done|].
  intros x r Hx. destruct (Hc x _ (contents_lookup _ _ _ Hx)) as [[-> Hm]|Ho]; [cbn in Hm; by rewrite Hm|].
  apply contents_inv in Ho as (r0&Hr0&<-). by apply Hv.
Qed.

Lemma upsert_ok name c id b md c' : collection_ok name c → text id → stable_opt md →
  vc_upsert c id b md = Ok c' → collection_ok name c'.
Proof.
  intros Hc Hid Hmd He.
  assert (check_vector_id id = Ok tt ∧ check_stored (vc_storage c) (vc_dim c) b = Ok tt) as [Hck Hst].
  { unfold vc_upsert in He. destruct (check_vector_id id) as [[]|]; [|done].
    destruct (check_stored _ _ _) as [[]|]; done. }
  destruct (upsert_graph c id b md) as (c1&He1&Hg&Hp&Hcon); [by apply Hc|done..|].
  rewrite He in He1. injection He1 as <-. eapply collection_step; [done..|].
  intros x v. rewrite Hcon, lookup_insert. case_decide as Hx; [|by right]. intros [= <-]. by left.
Qed.

Lemma delete_id_ok name c id c' : collection_ok name c → text id →
  vc_delete_id c id = Ok c' → collection_ok name c'.
Proof.
  intros Hc Hid He.
  assert (check_vector_id id = Ok tt) as Hck.
  { unfold vc_delete_id in He. by destruct (check_vector_id id) as [[]|]. }
  destruct (delete_graph c id) as (c1&He1&Hg&Hp&Hcon); [by apply Hc|done|].
  rewrite He in He1. injection He1 as <-. eapply (collection_step _ _ _ id None); [done..|].
  intros x v. rewrite Hcon, lookup_delete. case_decide; [done|]. by right.
Qed.

Lemma empty_ok name dim s mt m efc efs : text name → check_create name dim s m efc efs = Ok tt →
  collection_ok name (VectorCollection_empty dim s mt m efc efs).
Proof.
  intros Hn Hp. split_and!; [done..| |apply map_Forall_empty]. split; [done|apply map_Forall_empty|].
  intros k x l. unfold slot. cbn. by rewrite lookup_empty.
Qed.

Lemma apply_op_ok st op st' : state_ok st → op_ok op → apply_op st op = Ok st' → state_ok st'.
Proof.
  intros [Hc Hd Ht Hv Hs] Hop Ha.
  destruct op as [c i d|c i|name columns|name group|name dim s mt m efc efs|c i b md|c i]; cbn [apply_op op_ok] in *.
  - injection Ha as <-. split; cbn; try done; [by apply canonical_insert|].
    intros c' i' d'. rewrite doc_get_insert. case_decide as Hx; [|apply Hd]. destruct Hx as [<- <-].
    intros [= <-]. done.
  - injection Ha as <-. split; cbn; try done; [by apply canonical_remove|].
    intros c' i' d'. rewrite doc_get_remove. case_decide; [done|apply Hd].
  - destruct (check_new_table _ _ _) as [[]|] eqn:Ec; cbn in Ha; [|done]. injection Ha as <-.
    split; cbn; try done. apply map_Forall_insert_2; [|done]. destruct Hop as [Hn Hcs].
    split_and!; cbn; [done..| |constructor]. by eapply check_new_table_free.
  - destruct (st_tables st !! name) as [t|] eqn:Et; [|done].
    destruct (validate_row_group _ _) as [[]|] eqn:Eg; cbn in Ha; [|done]. injection Ha as <-.
    split; cbn; try done. apply map_Forall_insert_2; [|done]. destruct (Ht _ _ Et) as (?&?&?&?).
    split_and!; cbn; [done..|]. apply Forall_app. split; [done|]. by constructor.
  - destruct (check_create _ _ _ _ _ _) as [[]|] eqn:Ec; cbn in Ha; [|done]. case_match; [done|]. injection Ha as <-.
    split; cbn; try done. apply map_Forall_insert_2; [|done]. by apply empty_ok; [apply Hop|].
  - destruct (st_vectors st !! c) as [col|] eqn:Ec; [|done]. destruct (vc_upsert _ _ _ _) eqn:Eu; cbn in Ha; [|done].
    injection Ha as <-. destruct Hop as (?&?&?). split; cbn; try done. apply map_Forall_insert_2; [|done].
    eapply upsert_ok; [by apply Hv|done..].
  - destruct (st_vectors st !! c) as [col|] eqn:Ec; [|done]. destruct (vc_delete_id _ _) eqn:Eu; cbn in Ha; [|done].
    injection Ha as <-. destruct Hop as (?&?). split; cbn; try done. apply map_Forall_insert_2; [|done].
    eapply delete_id_ok; [by apply Hv|done..].
Qed.

Lemma apply_ops_ok ops : ∀ st st', state_ok st → Forall op_ok ops → for_fold apply_op st ops = Ok st' → state_ok st'.
Proof.
  induction ops as [|op ops IH]; intros st st' Hok Hops; cbn; [by intros [= <-]|].
  apply Forall_cons in Hops as [Hop Hops].
  destruct (apply_op st op) as [s1|] eqn:E; cbn; [|done]. apply IH; [|done]. by eapply apply_op_ok.
Qed.

Lemma set_last_seq_ok st seq : state_ok st → (seq ≤ u64_max)%N → state_ok (set_last_seq st seq).
Proof. intros [] ?. by split. Qed.

Lemma commit_ops_ok st ops st' : state_ok st → Forall op_ok ops → commit_ops st ops = Ok st' → state_ok st'.
Proof.
  intros Hok Hops Hc. destruct (decide (ops = [])) as [->|Hne]; [by injection Hc as <-|].
  apply commit_ops_inv in Hc as (Hlt&_&_&s&Hs&->); [|apply Hok|done].
  apply set_last_seq_ok; [|lia]. by eapply apply_ops_ok.
Qed.
End Preservation.
