(* ===== verification/FlsDisk.v ===== *)
(** * The container file and its writer

    The disk side of the store: [mod.rs] lines 363-951 and 4729-5178 (the
    poison, the cache, publishing, checkpoints, first use, loading) over one
    open container file, and [crash_sim.rs] lines 131-221, 482-550 and 754-867
    (the file, and what of it a power cut leaves).

    [Io] is the code's use of [ContainerIo] through one handle: it threads the
    [Disk] and may fail. Every operation on the file consumes one entry of
    [d_faults], which says whether it fails and with what error; a power cut is
    a list whose entries fail from some point on.

    One description of one file is modelled: the path keeps naming it (no
    compaction swaps it), and the other processes that would hold its lock are
    not there. Reading and writing are sequential, as the write mutex and the
    lock make them. *)

From S2P Require Import Prelude RustStr Ledger FlsBytes FlsCrc FlsModel FlsVector FlsLayout FlsSnapshot FlsState.

(** ** What a power cut leaves ([crash_sim.rs]) *)

Definition SECTOR : N := 512.

Inductive DataOp :=
| Write (offset : N) (data : bytes)
| SetLen (n : N).

(** [Vec::resize(n, 0)] *)
Definition vec_resize (b : bytes) (n : nat) : bytes := take n b ++ zeros (n - length b).

Definition write_into (b : bytes) (offset : N) (data : bytes) : bytes :=
  let start := N.to_nat offset in
  let end_ := start + length data in
  let b := if length b <? end_ then vec_resize b end_ else b in
  copy_at b start data.

Definition apply_data (b : bytes) (op : DataOp) : bytes :=
  match op with
  | Write offset data => write_into b offset data
  | SetLen n => vec_resize b (N.to_nat n)
  end.

(** The loop of [tear_points]; [end_ - at_] bytes hold fewer boundaries than the
    fuel. *)
Fixpoint tear_loop (fuel : nat) (at_ end_ : N) : list N :=
  match fuel with
  | O => []
  | S fuel => if (at_ <? end_)%N then at_ :: tear_loop fuel (at_ + SECTOR) end_ else []
  end.

Definition tear_points (offset n : N) : list N :=
  tear_loop (N.to_nat n) ((offset / SECTOR + 1) * SECTOR) (offset + n).

Record Inode := { ino_live : bytes; ino_durable : bytes; ino_pending : list DataOp }.

(** One pending operation under its fate: 0 dropped, 1 kept, [2 + k] torn at
    the [k]th boundary. [None] is the harness's panic. *)
Definition survive (image : bytes) (op : DataOp) (fate : nat) : option bytes :=
  match fate, op with
  | O, _ => Some image
  | S O, op => Some (apply_data image op)
  | S (S k), Write offset data =>
      cut ← tear_points offset (len data) !! k;
      Some (write_into image offset (take (N.to_nat (cut - offset)) data))
  | S (S _), SetLen _ => None
  end.

Fixpoint survive_all (image : bytes) (pending : list DataOp) (fates : list nat) : option bytes :=
  match pending, fates with
  | [], [] => Some image
  | op :: pending, fate :: fates => image ← survive image op fate; survive_all image pending fates
  | _, _ => None
  end.

(** [SimFs::survivor] of one file: the image left when each pending operation
    has the fate it is given. *)
Definition survivor (i : Inode) (fates : list nat) : option bytes :=
  survive_all (ino_durable i) (ino_pending i) fates.

(** [SimFs::new] on one file *)
Definition Inode_new (image : bytes) : Inode :=
  {| ino_live := image; ino_durable := image; ino_pending := [] |}.

(** ** A handle *)

Definition FileId : Type := N * N.

Record DiskCache `{Json} := {
  dc_file_id : FileId;
  dc_sb : Superblock;
  dc_state : DocState;
  dc_wal_applied : N;
}.

(** The handle and the file under it. [d_name_durable] is the write
    descriptor's, [d_poison] and [d_path] are [Poison]'s. *)
Record Disk `{Json} := {
  d_file : Inode;
  d_faults : list (option string);
  d_id : FileId;
  d_path : string;
  d_name_durable : bool;
  d_cache : option DiskCache;
  d_poison : bool;
  d_checkpoint_failed_at : N;
  d_compact_failed_at : N;
}.

Section Handle.
Context `{Engine}.

Definition set_file (d : Disk) (f : Inode) : Disk :=
  {| d_file := f; d_faults := d_faults d; d_id := d_id d; d_path := d_path d;
     d_name_durable := d_name_durable d; d_cache := d_cache d; d_poison := d_poison d;
     d_checkpoint_failed_at := d_checkpoint_failed_at d; d_compact_failed_at := d_compact_failed_at d |}.

Definition set_faults (d : Disk) (l : list (option string)) : Disk :=
  {| d_file := d_file d; d_faults := l; d_id := d_id d; d_path := d_path d;
     d_name_durable := d_name_durable d; d_cache := d_cache d; d_poison := d_poison d;
     d_checkpoint_failed_at := d_checkpoint_failed_at d; d_compact_failed_at := d_compact_failed_at d |}.

Definition set_cache (d : Disk) (c : option DiskCache) : Disk :=
  {| d_file := d_file d; d_faults := d_faults d; d_id := d_id d; d_path := d_path d;
     d_name_durable := d_name_durable d; d_cache := c; d_poison := d_poison d;
     d_checkpoint_failed_at := d_checkpoint_failed_at d; d_compact_failed_at := d_compact_failed_at d |}.

(** [Poison::mark] *)
Definition mark (d : Disk) : Disk :=
  {| d_file := d_file d; d_faults := d_faults d; d_id := d_id d; d_path := d_path d;
     d_name_durable := d_name_durable d; d_cache := d_cache d; d_poison := true;
     d_checkpoint_failed_at := d_checkpoint_failed_at d; d_compact_failed_at := d_compact_failed_at d |}.

Definition set_name_durable (d : Disk) : Disk :=
  {| d_file := d_file d; d_faults := d_faults d; d_id := d_id d; d_path := d_path d;
     d_name_durable := true; d_cache := d_cache d; d_poison := d_poison d;
     d_checkpoint_failed_at := d_checkpoint_failed_at d; d_compact_failed_at := d_compact_failed_at d |}.

Definition set_checkpoint_failed_at (d : Disk) (n : N) : Disk :=
  {| d_file := d_file d; d_faults := d_faults d; d_id := d_id d; d_path := d_path d;
     d_name_durable := d_name_durable d; d_cache := d_cache d; d_poison := d_poison d;
     d_checkpoint_failed_at := n; d_compact_failed_at := d_compact_failed_at d |}.

(** ** Programs over a handle *)

Definition Io (A : Type) : Type := Disk → Result A StoreError * Disk.

Definition io_ret {A} (a : A) : Io A := fun d => (Ok a, d).
Definition io_fail {A} (e : StoreError) : Io A := fun d => (Err e, d).
Definition io_bind {A B} (m : Io A) (k : A → Io B) : Io B := fun d =>
  match m d with
  | (Ok a, d') => k a d'
  | (Err e, d') => (Err e, d')
  end.
Definition io_get : Io Disk := fun d => (Ok d, d).
Definition io_modify (f : Disk → Disk) : Io unit := fun d => (Ok tt, f d).
Definition io_lift {A} (r : Result A StoreError) : Io A := fun d => (r, d).

(** [inspect_err] *)
Definition io_inspect_err {A} (m : Io A) (f : Disk → Disk) : Io A := fun d =>
  match m d with
  | (Ok a, d') => (Ok a, d')
  | (Err e, d') => (Err e, f d')
  end.

(** The result as a value: the code goes on whatever it is. *)
Definition io_try {A} (m : Io A) : Io (Result A StoreError) := fun d =>
  let '(r, d') := m d in (Ok r, d').
End Handle.
#[global] Arguments io_ret : simpl never.
#[global] Arguments io_bind : simpl never.

Notation "'io' x := m 'in' k" := (io_bind m (fun x => k))
  (at level 10, x binder, m at level 100, k at level 200) : stdpp_scope.

Section Device.
Context `{Engine}.

(** *** The file *)

(** [Sim::step]: the next fault, or none *)
Definition next_fault (d : Disk) : option string * Disk :=
  match d_faults d with
  | [] => (None, d)
  | fault :: rest => (fault, set_faults d rest)
  end.

(** One operation, its error as [io_err] makes it. *)
Definition io_step : Io unit := fun d =>
  match next_fault d with
  | (None, d') => (Ok tt, d')
  | (Some err, d') => (Err (backend err), d')
  end.

Definition file_len : Io N :=
  io _ := io_step in io d := io_get in io_ret (len (ino_live (d_file d))).

Definition read_at (n : nat) (offset : N) : Io bytes :=
  io _ := io_step in
  io d := io_get in
  match get_range (ino_live (d_file d)) (N.to_nat offset) n with
  | Some b => io_ret b
  | None => io_fail (backend "failed to fill whole buffer")
  end.

Definition push_data (op : DataOp) (d : Disk) : Disk :=
  let f := d_file d in
  set_file d {| ino_live := apply_data (ino_live f) op; ino_durable := ino_durable f;
                ino_pending := ino_pending f ++ [op] |}.

Definition write_at (buf : bytes) (offset : N) : Io unit :=
  io _ := io_step in io_modify (push_data (Write offset buf)).

Definition set_len (n : N) : Io unit := io _ := io_step in io_modify (push_data (SetLen n)).

(** [sync_data] and [sync_all] *)
Definition flush_file (d : Disk) : Disk := set_file d (Inode_new (ino_live (d_file d))).
Definition sync : Io unit := io _ := io_step in io_modify flush_file.

(** *** Poison *)

Definition poison_check : Io unit :=
  io d := io_get in
  if d_poison d
  then io_fail (backend ("FerroStore handle poisoned after a failed fsync at " +:+ d_path d
                         +:+ ": reopen the store"))
  else io_ret tt.

Definition poison_sync_data : Io unit := io_inspect_err sync mark.

(** [Disk::lock_current], while the path names the file: the lock, the [stat],
    and the directory sync before the first write through a description. *)
Definition lock_current : Io unit :=
  io _ := io_step in
  io _ := io_step in
  io d := io_get in
  if d_name_durable d then io_ret tt
  else
    io _ := (fun d => match next_fault d with
                      | (None, d') => (Ok tt, d')
                      | (Some err, d') =>
                          (Err (backend (d_path d +:+ " was not written: its directory entry could not be made "
                             +:+ "durable before the first write through this handle, so a "
                             +:+ "crash could lose the write: " +:+ err)), mark d')
                      end) in
    io_modify set_name_durable.

(** *** Reading *)

Definition slot_offset (index : nat) : N := N.of_nat index * N.of_nat SLOT_LEN.

Definition write_slot (index : nat) (sb : Superblock) : Io unit :=
  if 1 <? index then io_fail (backend "superblock slot out of range")
  else write_at (encode_superblock sb) (slot_offset index).

(** [usize] is 64 bits wide: its conversions do not fail. *)
Definition read_range (offset length : N) : Io bytes :=
  if (length =? 0)%N then io_ret []
  else
    io flen := file_len in
    io end_ := io_lift (ok_or (checked_add64 offset length) (corrupt "extent range overflows")) in
    if (flen <? end_)%N then io_fail (corrupt "extent extends past the end of the file")
    else read_at (N.to_nat length) offset.

(** One turn of the loop of [parsed_superblock]. *)
Definition parse_slot (flen : N) (best : option (nat * Superblock)) (index : nat)
    : Io (option (nat * Superblock)) :=
  let offset := slot_offset index in
  if (flen <? offset + N.of_nat SLOT_LEN)%N then io_ret best
  else
    io buf := read_at SLOT_LEN offset in
    match parse_superblock buf with
    | Valid sb =>
        match best with
        | Some (_, current) =>
            if (sb_epoch sb <? sb_epoch current)%N then io_ret best
            else if (sb_epoch sb =? sb_epoch current)%N
            then io_fail (corrupt "two valid superblocks share an epoch")
            else io_ret (Some (index, sb))
        | None => io_ret (Some (index, sb))
        end
    | Invalid => io_ret best
    | Newer version engine incompat =>
        io_fail (SContainerFormat EmptyString version engine (unknown_incompat incompat) FORMAT_VERSION)
    end.

Definition parsed_superblock : Io (option (nat * Superblock)) :=
  io flen := file_len in
  io best := parse_slot flen None 0 in
  parse_slot flen best 1.

Definition latest_superblock : Io (nat * Superblock) :=
  io found := parsed_superblock in
  io_lift (ok_or found (backend "no valid FerroStore superblock")).

(** [DocState::at_seq] *)
Definition at_seq (seq : N) : DocState :=
  {| st_docs := ∅; st_tables := ∅; st_vectors := ∅; st_last_seq := seq |}.

Definition load_state (sb : Superblock) : Io (DocState * N) :=
  io state := (if (sb_snapshot_length sb =? 0)%N then io_ret (at_seq (sb_snapshot_seq sb))
               else
                 io b := read_range (sb_snapshot_offset sb) (sb_snapshot_length sb) in
                 io snap := io_lift (decode_snapshot b) in
                 if negb (st_last_seq snap =? sb_snapshot_seq sb)%N
                 then io_fail (corrupt "snapshot sequence does not match the superblock")
                 else io_ret snap) in
  io wal := read_range (sb_wal_offset sb) (sb_wal_length sb) in
  io x := io_lift (decode_wal_prefix wal) in
  io state := io_lift (apply_frames state (sb_snapshot_seq sb) x.1) in
  io_ret (state, x.2).

Definition load_full (file_id : FileId) (sb : Superblock) : Io DiskCache :=
  io x := load_state sb in
  io_ret {| dc_file_id := file_id; dc_sb := sb; dc_state := x.1; dc_wal_applied := x.2 |}.

Definition tail_follows (cached : DiskCache) (sb : Superblock) : bool :=
  let held := dc_sb cached in
  (dc_wal_applied cached =? sb_wal_length held)%N
  && (sb_epoch held <? sb_epoch sb)%N
  && (sb_snapshot_offset sb =? sb_snapshot_offset held)%N
  && (sb_snapshot_length sb =? sb_snapshot_length held)%N
  && (sb_snapshot_seq sb =? sb_snapshot_seq held)%N
  && (sb_wal_offset sb =? sb_wal_offset held)%N
  && (sb_wal_length held <? sb_wal_length sb)%N.

(** The loop of [replay_tail]. *)
Fixpoint replay_frames (state : DocState) (frames : list (N * list Op))
    : Result (option DocState) StoreError :=
  match frames with
  | [] => Ok (Some state)
  | (seq, ops) :: rest =>
      if checked_add64 (st_last_seq state) 1 != Some seq then Ok None
      else
        let? (overlay, next) := stage_ops state ops in
        replay_frames (publish_overlay state overlay next) rest
  end.

(** The cache entry after a tail of [n] bytes. *)
Definition extended (cached : DiskCache) (sb : Superblock) (n : N) (state : DocState) : DiskCache :=
  {| dc_file_id := dc_file_id cached; dc_sb := sb; dc_state := state;
     dc_wal_applied := dc_wal_applied cached + n |}.

(** [replay_tail]; the subtraction is under [tail_follows]. *)
Definition replay_tail (cached : DiskCache) (sb : Superblock) : Io (option DiskCache) :=
  io start := io_lift (ok_or (checked_add64 (sb_wal_offset sb) (dc_wal_applied cached))
                             (corrupt "wal offset overflow")) in
  io b := read_range start (sb_wal_length sb - dc_wal_applied cached) in
  io x := io_lift (decode_wal_prefix b) in
  io state := io_lift (replay_frames (dc_state cached) x.1) in
  io_ret (extended cached sb x.2 <$> state).

Definition install_newer (slot : option DiskCache) (fresh : DiskCache) (current : FileId)
    : option DiskCache :=
  let replace := match slot with
                 | None => true
                 | Some held =>
                     if bool_decide (dc_file_id held = dc_file_id fresh)
                     then (sb_epoch (dc_sb held) <? sb_epoch (dc_sb fresh))%N
                     else if bool_decide (dc_file_id fresh = current) then true
                     else if bool_decide (dc_file_id held = current) then false
                     else (sb_epoch (dc_sb held) <? sb_epoch (dc_sb fresh))%N
                 end in
  if replace then Some fresh else slot.

Definition advance (file_id : FileId) (cached : option DiskCache) (sb : Superblock) : Io DiskCache :=
  let load := load_full file_id sb in
  let install fresh :=
    io d := io_get in
    match d_poison d, d_cache d with
    | true, Some held => io_ret held
    | _, _ => io _ := io_modify (fun d => set_cache d (install_newer (d_cache d) fresh (d_id d))) in
              io_ret fresh
    end in
  match cached with
  | Some held =>
      if bool_decide (dc_file_id held = file_id) && bool_decide (dc_sb held = sb) then io_ret held
      else if bool_decide (dc_file_id held = file_id) && tail_follows held sb then
        io tail := io_try (replay_tail held sb) in
        io fresh := match tail with
                    | Ok (Some next) => io_ret next
                    | Ok None | Err _ => load
                    end in
        install fresh
      else io fresh := load in install fresh
  | None => io fresh := load in install fresh
  end.

Definition refresh : Io (nat * DiskCache) :=
  io d := io_get in
  io x := latest_superblock in
  io held := advance (d_id d) (d_cache d) x.2 in
  io_ret (x.1, held).

(** [refresh_read]; the [stat] of [current_read] finds the same file. *)
Definition refresh_read : Io DiskCache :=
  io d := io_get in
  match d_poison d, d_cache d with
  | true, Some held => io_ret held
  | _, cached =>
      io _ := io_step in
      io x := latest_superblock in
      match cached with
      | Some held =>
          if bool_decide (dc_file_id held = d_id d) && (sb_epoch x.2 <? sb_epoch (dc_sb held))%N
          then io_ret held
          else advance (d_id d) cached x.2
      | None => advance (d_id d) cached x.2
      end
  end.

(** *** Publishing *)

Definition settle_failed_publish (acknowledged : DiskCache) (d : Disk) : Disk :=
  if negb (d_poison d) then d
  else
    let newer := match d_cache d with
                 | None => true
                 | Some held => bool_decide (dc_file_id held = dc_file_id acknowledged)
                                && (sb_epoch (dc_sb acknowledged) <? sb_epoch (dc_sb held))%N
                 end in
    if newer then set_cache d (Some acknowledged) else d.

(** The first loop of [publish_frames]: where each frame goes, the next offset
    and the new length. *)
Fixpoint plan_writes (frames : list bytes) (at_ wal_length : N)
    : Result (list (bytes * N) * N) StoreError :=
  match frames with
  | [] => Ok ([], wal_length)
  | frame :: rest =>
      let? next := ok_or (checked_add64 at_ (len frame)) (backend "wal offset overflow") in
      let? wal_length := ok_or (checked_add64 wal_length (len frame)) (backend "wal length overflow") in
      let? (writes, wal_length) := plan_writes rest next wal_length in
      Ok ((frame, at_) :: writes, wal_length)
  end.

Fixpoint write_each (writes : list (bytes * N)) : Io unit :=
  match writes with
  | [] => io_ret tt
  | (frame, offset) :: rest => io _ := write_at frame offset in write_each rest
  end.

(** [index ^ 1] *)
Definition other_slot (index : nat) : nat := Nat.lxor index 1.

Definition publish_frames (index : nat) (sb : Superblock) (frames : list bytes) : Io (option Superblock) :=
  match frames with
  | [] => io_ret None
  | _ =>
      io _ := poison_check in
      io at_ := io_lift (ok_or (checked_add64 (sb_wal_offset sb) (sb_wal_length sb))
                               (backend "wal offset overflow")) in
      io x := io_lift (plan_writes frames at_ (sb_wal_length sb)) in
      io epoch := io_lift (ok_or (checked_add64 (sb_epoch sb) 1) (backend "epoch overflow")) in
      io _ := write_each x.1 in
      io _ := poison_sync_data in
      let new_sb := {| sb_epoch := epoch;
                       sb_snapshot_offset := sb_snapshot_offset sb;
                       sb_snapshot_length := sb_snapshot_length sb;
                       sb_wal_offset := sb_wal_offset sb;
                       sb_wal_length := x.2;
                       sb_snapshot_seq := sb_snapshot_seq sb |} in
      io _ := write_slot (other_slot index) new_sb in
      io _ := poison_sync_data in
      io_ret (Some new_sb)
  end.

Definition publish_or_settle (index : nat) (base : DiskCache) (frames : list bytes) : Io (option Superblock) :=
  io_inspect_err (publish_frames index (dc_sb base) frames) (settle_failed_publish base).

Inductive Change :=
| COverlay (overlay : Overlay) (seq : N)
| CState (state : DocState).

(** [install_commit]. Taking the entry out when the cache still holds [base]
    only spares a copy: its epoch is the older one, so it is replaced. *)
Definition install_commit (base : DiskCache) (new_sb : Superblock) (change : Change) : Io DiskCache :=
  let torn := negb (dc_wal_applied base =? sb_wal_length (dc_sb base))%N in
  let wal_applied := if torn then dc_wal_applied base else sb_wal_length new_sb in
  let state := match change with
               | COverlay overlay seq => publish_overlay (dc_state base) overlay seq
               | CState state => state
               end in
  let entry := {| dc_file_id := dc_file_id base; dc_sb := new_sb; dc_state := state;
                  dc_wal_applied := wal_applied |} in
  io _ := io_modify (fun d => if torn then d
                              else set_cache d (install_newer (d_cache d) entry (dc_file_id base))) in
  io_ret entry.

Definition install_checkpoint (base : DiskCache) (new_sb : Superblock) : Io unit :=
  let entry := {| dc_file_id := dc_file_id base; dc_sb := new_sb; dc_state := dc_state base;
                  dc_wal_applied := 0 |} in
  io_modify (fun d => set_cache d (install_newer (d_cache d) entry (dc_file_id entry))).

(** *** Checkpoints *)

Definition allocate_extent (sb : Superblock) (n : N) : Io N :=
  io flen := file_len in
  let live_end := N.max (N.max (sat_add64 (sb_snapshot_offset sb) (sb_snapshot_length sb))
                               (sat_add64 (sb_wal_offset sb) (sb_wal_length sb))) HEADER_BYTES in
  let offset := N.max flen live_end in
  if is_none (checked_add64 offset n) then io_fail (backend "extent offset overflow")
  else io_ret offset.

Definition write_checkpoint (index : nat) (base : DiskCache) : Io Superblock :=
  let sb := dc_sb base in
  io blob := io_lift (encode_state_snapshot (dc_state base)) in
  io offset := allocate_extent sb (len blob) in
  io _ := write_at blob offset in
  io _ := poison_sync_data in
  io epoch := io_lift (ok_or (checked_add64 (sb_epoch sb) 1) (backend "epoch overflow")) in
  io wal_offset := io_lift (ok_or (checked_add64 offset (len blob)) (backend "wal offset overflow")) in
  let new_sb := {| sb_epoch := epoch; sb_snapshot_offset := offset; sb_snapshot_length := len blob;
                   sb_wal_offset := wal_offset; sb_wal_length := 0;
                   sb_snapshot_seq := st_last_seq (dc_state base) |} in
  io _ := write_slot (other_slot index) new_sb in
  io _ := poison_sync_data in
  io_ret new_sb.

Definition AUTO_CHECKPOINT_BYTES : N := N.shiftl 4 20.
Definition AUTO_COMPACT_BYTES : N := N.shiftl 64 20.

Definition live_bytes (sb : Superblock) : N :=
  sat_add64 (sat_add64 HEADER_BYTES (sb_snapshot_length sb)) (sb_wal_length sb).

Definition dead_bytes (flen : N) (sb : Superblock) : N := sat_sub flen (live_bytes sb).

(** The back-off both thresholds share. *)
Definition due_again (measure failed_at threshold : N) : bool :=
  (failed_at =? 0)%N || (measure <? failed_at)%N || (threshold <? measure - failed_at)%N.

Definition compact_due (d : Disk) (flen : N) (sb : Superblock) : bool :=
  let dead := dead_bytes flen sb in
  let threshold := N.max (live_bytes sb) AUTO_COMPACT_BYTES in
  if (dead <=? threshold)%N then false else due_again dead (d_compact_failed_at d) threshold.

Definition checkpoint_due (d : Disk) (base : DiskCache) : bool :=
  let wal := sb_wal_length (dc_sb base) in
  let threshold := N.max (sb_snapshot_length (dc_sb base)) AUTO_CHECKPOINT_BYTES in
  if negb (dc_wal_applied base =? wal)%N || (wal <=? threshold)%N then false
  else due_again wal (d_checkpoint_failed_at d) threshold.

Definition checkpoint_locked (index : nat) (base : DiskCache) : Io bool :=
  io _ := poison_check in
  io new_sb := io_inspect_err (write_checkpoint index base) (settle_failed_publish base) in
  io _ := install_checkpoint base new_sb in
  io _ := io_modify (fun d => set_checkpoint_failed_at d 0) in
  let flen := sat_add64 (sb_snapshot_offset new_sb) (sb_snapshot_length new_sb) in
  io d := io_get in
  io_ret (compact_due d flen new_sb).

(** [checkpoint_disk] up to the compaction it may start: whether one is due. *)
Definition checkpoint_disk : Io bool :=
  io _ := poison_check in
  io _ := lock_current in
  io x := refresh in
  checkpoint_locked x.1 x.2.

(** [auto_checkpoint] up to the compaction it may start: whether one is due, and
    whether the failure is reported. *)
Definition auto_checkpoint : Io (bool * bool) :=
  io d := io_get in
  if d_poison d then io_ret (false, false)
  else
    io start := io_try (io _ := lock_current in refresh) in
    match start with
    | Err _ => io_ret (false, false)
    | Ok x =>
        io d := io_get in
        if negb (checkpoint_due d x.2) then io_ret (false, false)
        else
          io result := io_try (checkpoint_locked x.1 x.2) in
          match result with
          | Ok due => io_ret (due, false)
          | Err _ =>
              io d := io_get in
              let first := (d_checkpoint_failed_at d =? 0)%N in
              io _ := io_modify (fun d => set_checkpoint_failed_at d (N.max (sb_wal_length (dc_sb x.2)) 1)) in
              io_ret (false, first)
          end
    end.

(** *** First use *)

Definition FORMAT_WITH_WORKFLOW : N := 8.

Definition new_store_docs : Docs := doc_insert ∅ "__meta" "schema_version" (json_num FORMAT_WITH_WORKFLOW).

Definition init_empty : Io unit :=
  io blob := io_lift (encode_snapshot 0 new_store_docs) in
  io _ := set_len HEADER_BYTES in
  io _ := write_at blob HEADER_BYTES in
  io _ := sync in
  let sb := {| sb_epoch := 1; sb_snapshot_offset := HEADER_BYTES; sb_snapshot_length := len blob;
               sb_wal_offset := HEADER_BYTES + len blob; sb_wal_length := 0; sb_snapshot_seq := 0 |} in
  io _ := write_slot 0 sb in
  sync.

Definition ensure_superblock : Io bool :=
  io found := parsed_superblock in
  if is_some found then io_ret false
  else
    io _ := io_step in
    io found := parsed_superblock in
    if is_some found then io_ret false
    else
      io flen := file_len in
      if (flen =? 0)%N then io _ := init_empty in io_ret true
      else
        io buf := read_at (N.to_nat (N.min flen HEADER_BYTES)) 0 in
        if existsb (fun b => b != zero) buf then io_ret false
        else if (HEADER_BYTES <? flen)%N then
          io blob := io_lift (encode_snapshot 0 new_store_docs) in
          let tail := N.to_nat (flen - HEADER_BYTES) in
          if length blob <? tail then io_ret false
          else
            io held := read_at tail HEADER_BYTES in
            if held != take tail blob then io_ret false
            else io _ := init_empty in io_ret true
        else io _ := init_empty in io_ret true.

(** The part of [open_with] that touches the container, from the open
    description on: the superblock, the whole state, and the directory entry
    when this open made it. The check of the schema version of the documents,
    which only refuses, is left out. *)
Definition open_container (created : bool) : Io unit :=
  io initialized := ensure_superblock in
  io x := latest_superblock in
  io d := io_get in
  io seed := load_full (d_id d) x.2 in
  io _ := (if created || initialized
           then io _ := io_step in io_modify set_name_durable
           else io_ret tt) in
  io_modify (fun d => set_cache d (Some seed)).
End Device.
