(* ===== verification/FlsCrash.v ===== *)
(** * Crash consistency of the container

    What a store file holds once a state was acknowledged, and what a power cut
    at any point, with any pending operation lost, kept or torn, leaves of it.

    [good] is a file that names a state: one slot is current, the other is older
    or unused, and the extents of the current one hold a snapshot and the
    frames of the commits made since. The whole argument is that the writer
    touches nothing of it but the slot that is not current, and that slot only
    once the bytes it will name are durable; and that a slot, whose fields all
    lie in its first sector, is written by a torn write or not at all. *)

From S2P Require Import Prelude RustStr Ledger FlsBytes FlsCrc FlsModel FlsVector FlsLayout FlsSnapshot FlsState FlsDisk.

(** ** Byte ranges *)

Lemma get_range_Some (b : bytes) i n r : get_range b i n = Some r ↔ i + n ≤ length b ∧ r = take n (drop i b).
Proof. unfold get_range. case_decide; naive_solver. Qed.

(** Two files that agree on their first [n] bytes. *)
Definition agree (n : nat) (a b : bytes) : Prop := n ≤ length a ∧ n ≤ length b ∧ take n a = take n b.

Lemma agree_refl n a : n ≤ length a → agree n a a.
Proof. done. Qed.

Lemma agree_trans n a b c : agree n a b → agree n b c → agree n a c.
Proof. intros (?&?&?) (?&?&?). split_and!; [done..|]. congruence. Qed.

Lemma agree_range n a b i k : agree n a b → i + k ≤ n → get_range a i k = get_range b i k.
Proof.
  intros (Ha&Hb&E) Hk. unfold get_range. rewrite !decide_True by lia. f_equal.
  assert (∀ l : bytes, take k (drop i l) = take k (drop i (take n l))) as Hr.
  { intros l. rewrite !take_drop_commute, take_take. by replace ((i + k) `min` n) with (i + k) by lia. }
  by rewrite (Hr a), (Hr b), E.
Qed.

Lemma take_write_far b offset data n :
  n ≤ length b → n ≤ N.to_nat offset → agree n b (write_into b offset data).
Proof.
  intros Hn Ho. unfold write_into. set (e := N.to_nat offset + length data). cbv zeta.
  set (b' := if length b <? e then vec_resize b e else b).
  assert (n ≤ length b' ∧ take n b' = take n b ∧ e ≤ length b') as (H1&H2&H3).
  { subst b'. destruct (Nat.ltb_spec (length b) e); [|done]. unfold vec_resize.
    rewrite take_ge by lia. rewrite length_app. unfold zeros. rewrite length_replicate.
    split_and!; [lia| |lia]. by rewrite take_app_le. }
  unfold agree, copy_at. rewrite !length_app, length_take, length_drop. split_and!; [done|lia|].
  rewrite take_app_le by (rewrite length_take; lia). rewrite take_take.
  replace (n `min` N.to_nat offset) with n by lia. done.
Qed.

(** A write inside the file is a copy. *)
Lemma write_into_inside b offset data :
  N.to_nat offset + length data ≤ length b → write_into b offset data = copy_at b (N.to_nat offset) data.
Proof. intros Hl. unfold write_into. cbv zeta. by rewrite (proj2 (Nat.ltb_ge _ _)) by lia. Qed.

Lemma write_into_length b offset data : length b ≤ length (write_into b offset data).
Proof.
  unfold write_into. cbv zeta. set (e := N.to_nat offset + length data).
  destruct (Nat.ltb_spec (length b) e).
  - unfold vec_resize. rewrite length_copy_at; rewrite length_app, take_ge by lia; unfold zeros; rewrite length_replicate; lia.
  - by rewrite length_copy_at by (subst e; lia).
Qed.

(** What was written is read. *)
Lemma write_into_read b offset data :
  get_range (write_into b offset data) (N.to_nat offset) (length data) = Some data.
Proof.
  unfold write_into. cbv zeta. set (e := N.to_nat offset + length data).
  set (b' := if length b <? e then vec_resize b e else b).
  assert (e ≤ length b') as He.
  { subst b'. destruct (Nat.ltb_spec (length b) e); [|done]. unfold vec_resize.
    rewrite take_ge by lia. rewrite length_app. unfold zeros. rewrite length_replicate. lia. }
  apply get_range_Some. rewrite length_copy_at by lia. split; [lia|]. unfold copy_at.
  rewrite drop_app_length' by (rewrite length_take; lia). by rewrite take_app_length.
Qed.

(** A range before or after a write inside the file is not touched. *)
Lemma copy_at_other b o data i n : o + length data ≤ length b → i + n ≤ o ∨ o + length data ≤ i →
  get_range (copy_at b o data) i n = get_range b i n.
Proof.
  intros Hl Hd. unfold get_range. rewrite length_copy_at by done. case_decide as Hi; [|done]. f_equal.
  unfold copy_at. destruct Hd as [Hd|Hd].
  - rewrite drop_app_le by (rewrite length_take; lia). rewrite take_app_le by (rewrite length_drop, length_take; lia).
    rewrite !take_drop_commute, take_take. by replace ((i + n) `min` o) with (i + n) by lia.
  - rewrite app_assoc, drop_app_ge by (rewrite length_app, length_take; lia). rewrite drop_drop, length_app, length_take.
    f_equal. f_equal. lia.
Qed.

Lemma get_range_split b i n k x y : get_range b i n = Some x → get_range b (i + n) k = Some y →
  get_range b i (n + k) = Some (x ++ y).
Proof.
  rewrite !get_range_Some. intros [H1 ->] [H2 ->]. split; [lia|].
  by rewrite <-drop_drop, take_take_drop.
Qed.

(** ** Torn writes *)

Lemma tear_loop_ge fuel : ∀ at_ end_ k cut, tear_loop fuel at_ end_ !! k = Some cut → (at_ ≤ cut < end_)%N.
Proof.
  induction fuel as [|fuel IH]; intros at_ end_ k cut; cbn; [done|].
  destruct (N.ltb_spec at_ end_); [|done]. destruct k as [|k]; cbn; [intros [= <-]; lia|].
  intros Hk%IH. unfold SECTOR in Hk. lia.
Qed.

(** A boundary inside a write leaves at least the rest of its first sector. *)
Lemma tear_points_ge offset n k cut : tear_points offset n !! k = Some cut →
  (offset < cut < offset + n ∧ (offset mod SECTOR = 0 → offset + SECTOR ≤ cut))%N.
Proof.
  intros Hk%tear_loop_ge. unfold SECTOR in *. pose proof (N.div_mod offset 512 ltac:(done)).
  pose proof (N.mod_lt offset 512 ltac:(done)). split; [lia|]. intros Hm. lia.
Qed.

(** Writes past [n]. *)
Definition beyond (n : nat) (op : DataOp) : Prop :=
  match op with Write offset _ => n ≤ N.to_nat offset | SetLen _ => False end.

Lemma survive_beyond n img op fate img' : beyond n op → n ≤ length img →
  survive img op fate = Some img' → agree n img img'.
Proof.
  destruct op as [offset data|]; [|done]. intros Hb Hn. destruct fate as [|[|k]]; cbn.
  - intros [= <-]. by apply agree_refl.
  - intros [= <-]. by apply take_write_far.
  - destruct (tear_points _ _ !! k); cbn; [|done]. intros [= <-]. by apply take_write_far.
Qed.

Lemma survive_all_beyond n pending : ∀ img fates img', Forall (beyond n) pending → n ≤ length img →
  survive_all img pending fates = Some img' → agree n img img'.
Proof.
  induction pending as [|op pending IH]; intros img fates img' Hb Hn; destruct fates as [|fate fates]; cbn; try done.
  - intros [= <-]. by apply agree_refl.
  - apply Forall_cons in Hb as [Hop Hb]. destruct (survive img op fate) as [i1|] eqn:E; cbn; [|done]. intros Hr.
    pose proof (survive_beyond n img op fate i1 Hop Hn E) as Ha. eapply agree_trans; [exact Ha|].
    eapply IH; [done| |exact Hr]. apply Ha.
Qed.

(** The live image is the survivor that lost nothing. *)
Lemma survive_all_kept pending img :
  survive_all img pending (replicate (length pending) 1) = Some (foldl apply_data img pending).
Proof. revert img. induction pending as [|op pending IH]; intros img; cbn; [done|]. apply IH. Qed.

(** ** Slots *)

Definition slot_of (img : bytes) (index : nat) : option bytes := get_range img (index * SLOT_LEN) SLOT_LEN.

Lemma slot_offset_nat index : N.to_nat (slot_offset index) = index * SLOT_LEN.
Proof. unfold slot_offset. lia. Qed.

Lemma zeros_add a b : zeros (a + b) = zeros a ++ zeros b.
Proof. apply replicate_add. Qed.

Lemma drop_zeros a b : drop a (zeros b) = zeros (b - a).
Proof. unfold zeros. apply drop_replicate. Qed.

(** Everything after the first sector of an encoded slot is zero. *)
Lemma encode_superblock_tail sb : drop 512 (encode_superblock sb) = zeros (SLOT_LEN - 512).
Proof.
  rewrite encode_superblock_layout. rewrite drop_app_ge; rewrite slot_head_length by apply length_u32; [|unfold HEAD; lia].
  unfold slot_rest. by rewrite drop_zeros.
Qed.

Lemma get_range_length' b i n s : get_range b i n = Some s → length s = n.
Proof. rewrite get_range_Some. intros [Hl ->]. rewrite length_take, length_drop. lia. Qed.

(** A slot write torn at a sector boundary is the whole write: the bytes it loses
    are zeros over zeros. *)
Lemma torn_slot img index s sb keep :
  slot_of img index = Some s → drop 512 s = zeros (SLOT_LEN - 512) → 512 ≤ keep ≤ SLOT_LEN →
  write_into img (slot_offset index) (take keep (encode_superblock sb))
  = write_into img (slot_offset index) (encode_superblock sb).
Proof.
  intros Hs Hz Hk. pose proof (encode_superblock_length sb) as Hl. pose proof (encode_superblock_tail sb) as Ht.
  unfold slot_of in Hs. apply get_range_Some in Hs as [Hlen Hs].
  rewrite !write_into_inside by (rewrite slot_offset_nat, ?length_take, ?Hl; lia).
  rewrite slot_offset_nat. set (o := index * SLOT_LEN) in *. unfold copy_at. f_equal.
  rewrite length_take, Hl. replace (keep `min` SLOT_LEN) with keep by lia.
  rewrite <-(take_drop keep (encode_superblock sb)) at 2. rewrite <-app_assoc. f_equal.
  assert (∀ l : bytes, length l = SLOT_LEN → drop 512 l = zeros (SLOT_LEN - 512) → drop keep l = zeros (SLOT_LEN - keep)) as Hdrop.
  { intros l _ Hd. replace keep with (512 + (keep - 512)) at 1 by lia. rewrite <-drop_drop, Hd, drop_zeros. f_equal. lia. }
  rewrite Hdrop by done. assert (length s = SLOT_LEN) as Hsl by (rewrite Hs, length_take, length_drop; lia).
  rewrite <-(Hdrop s Hsl Hz), Hs.
  assert (drop keep (take SLOT_LEN (drop o img)) = take (SLOT_LEN - keep) (drop (o + keep) img)) as ->.
  { rewrite <-drop_drop, (take_drop_commute (drop o img)). by replace (keep + (SLOT_LEN - keep)) with SLOT_LEN by lia. }
  rewrite <-(take_drop (SLOT_LEN - keep) (drop (o + keep) img)) at 1. f_equal.
  rewrite drop_drop. f_equal. lia.
Qed.

Lemma survive_slot img index s sb fate img' :
  slot_of img index = Some s → drop 512 s = zeros (SLOT_LEN - 512) →
  survive img (Write (slot_offset index) (encode_superblock sb)) fate = Some img' →
  img' = img ∨ img' = write_into img (slot_offset index) (encode_superblock sb).
Proof.
  intros Hs Hz. destruct fate as [|[|k]]; cbn.
  - intros [= <-]. by left.
  - intros [= <-]. by right.
  - destruct (tear_points _ _ !! k) as [cut|] eqn:Ec; cbn; [|done]. intros [= <-]. right.
    apply tear_points_ge in Ec as [Hc Hm]. unfold len in Hc. rewrite encode_superblock_length in Hc.
    eapply torn_slot; [done..|]. assert (slot_offset index mod SECTOR = 0)%N as H0.
    { unfold slot_offset, SECTOR. change (N.of_nat SLOT_LEN) with (8 * 512)%N.
      rewrite N.mul_assoc. apply N.Div0.mod_mul. }
    specialize (Hm H0). unfold SECTOR in Hm. lia.
Qed.

(** ** Programs that only read

    Under faults a read-only program fails or returns what it returns of the
    live image without any; it changes nothing but the faults it met. *)

Section Reads.
Context `{Engine}.

Abbreviation live d := (ino_live (d_file d)).

Definition pure_read {A} (m : Io A) (p : bytes → Result A StoreError) : Prop := ∀ d, ∃ l,
  (m d = (p (live d), set_faults d l) ∨ ∃ e, m d = (Err e, set_faults d l))
  ∧ (d_faults d = [] → m d = (p (live d), d)).

Lemma set_faults_id d : set_faults d (d_faults d) = d.
Proof. by destruct d. Qed.

Lemma pure_ret {A} (a : A) : pure_read (io_ret a) (fun _ => Ok a).
Proof. intros d. exists (d_faults d). rewrite set_faults_id. auto. Qed.

Lemma pure_lift {A} (r : Result A StoreError) : pure_read (io_lift r) (fun _ => r).
Proof. intros d. exists (d_faults d). rewrite set_faults_id. auto. Qed.

Lemma pure_fail {A} e : pure_read (A := A) (io_fail e) (fun _ => Err e).
Proof. intros d. exists (d_faults d). rewrite set_faults_id. auto. Qed.

Lemma pure_bind {A B} (m : Io A) (k : A → Io B) p q :
  pure_read m p → (∀ a, pure_read (k a) (q a)) →
  pure_read (io_bind m k) (fun img => let? a := p img in q a img).
Proof.
  intros Hm Hk d. unfold io_bind. destruct (Hm d) as (l&Hd&Hnf). destruct Hd as [Hd|[e Hd]]; rewrite Hd.
  - destruct (p (live d)) as [a|e] eqn:Ep; cbn [result_bind].
    + destruct (Hk a (set_faults d l)) as (l'&Hd'&Hnf'). exists l'. split.
      * destruct Hd' as [->|[e ->]]; [by left|right; by eexists].
      * intros Hf. specialize (Hnf Hf). assert (set_faults d l = d) as Hx by congruence.
        rewrite Hx in Hnf' |- *. by apply Hnf'.
    + exists l. split; [by left|]. intros Hf. specialize (Hnf Hf). congruence.
  - exists l. split; [right; by eexists|]. intros Hf. specialize (Hnf Hf). rewrite Hd in Hnf.
    injection Hnf as Hp Hnf. rewrite <-Hp. cbn [result_bind]. by rewrite Hnf.
Qed.

Lemma pure_ext {A} (m : Io A) p q : pure_read m p → (∀ img, p img = q img) → pure_read m q.
Proof. intros Hm Hq d. destruct (Hm d) as (l&Hd&Hnf). exists l. rewrite <-!Hq. done. Qed.

(** A program that meets one fault and then looks at the image. *)
Lemma pure_step : pure_read io_step (fun _ => Ok tt).
Proof.
  intros d. unfold io_step, next_fault. destruct (d_faults d) as [|[err|] rest] eqn:Ef.
  - exists []. rewrite <-Ef, set_faults_id. auto.
  - exists rest. split; [|done]. right. by eexists.
  - exists rest. split; [by left|done].
Qed.

Lemma pure_get {A} (k : Disk → Io A) (q : bytes → bytes → Result A StoreError) :
  (∀ d0, pure_read (k d0) (q (live d0))) → pure_read (io_bind io_get k) (fun img => q img img).
Proof.
  intros Hk d. unfold io_bind, io_get. apply Hk.
Qed.

Lemma pure_len : pure_read file_len (fun img => Ok (len img)).
Proof.
  refine (pure_bind _ _ _ (fun _ img => Ok (len img)) pure_step _). intros [].
  refine (pure_get _ (fun img _ => Ok (len img)) _). intros d0. apply pure_ret.
Qed.

Definition img_at (n : nat) (offset : N) (img : bytes) : Result bytes StoreError :=
  match get_range img (N.to_nat offset) n with
  | Some b => Ok b
  | None => Err (backend "failed to fill whole buffer")
  end.

Lemma pure_read_at n offset : pure_read (read_at n offset) (img_at n offset).
Proof.
  refine (pure_bind _ _ _ (fun _ => img_at n offset) pure_step _). intros [].
  refine (pure_get _ (fun img _ => img_at n offset img) _). intros d0. unfold img_at.
  destruct (get_range _ _ _); [apply pure_ret|apply pure_fail].
Qed.

(** What [read_range] reads of an image. *)
Definition img_range (offset length : N) (img : bytes) : Result bytes StoreError :=
  if (length =? 0)%N then Ok []
  else
    let? end_ := ok_or (checked_add64 offset length) (corrupt "extent range overflows") in
    if (len img <? end_)%N then Err (corrupt "extent extends past the end of the file")
    else img_at (N.to_nat length) offset img.

Lemma pure_read_range offset length : pure_read (read_range offset length) (img_range offset length).
Proof.
  unfold read_range, img_range. destruct (length =? 0)%N; [apply pure_ret|].
  refine (pure_bind _ _ _ (fun flen img =>
    let? end_ := ok_or (checked_add64 offset length) (corrupt "extent range overflows") in
    if (flen <? end_)%N then Err (corrupt "extent extends past the end of the file")
    else img_at (N.to_nat length) offset img) pure_len _). intros flen.
  refine (pure_bind _ _ _ (fun end_ img =>
    if (flen <? end_)%N then Err (corrupt "extent extends past the end of the file")
    else img_at (N.to_nat length) offset img) (pure_lift _) _). intros end_.
  destruct (flen <? end_)%N; [apply pure_fail|apply pure_read_at].
Qed.

(** One slot as the loop sees it. *)
Definition pick_slot (best : option (nat * Superblock)) (index : nat) (buf : bytes)
    : Result (option (nat * Superblock)) StoreError :=
  match parse_superblock buf with
  | Valid sb =>
      match best with
      | Some (_, current) =>
          if (sb_epoch sb <? sb_epoch current)%N then Ok best
          else if (sb_epoch sb =? sb_epoch current)%N
          then Err (corrupt "two valid superblocks share an epoch")
          else Ok (Some (index, sb))
      | None => Ok (Some (index, sb))
      end
  | Invalid => Ok best
  | Newer version engine incompat =>
      Err (SContainerFormat EmptyString version engine (unknown_incompat incompat) FORMAT_VERSION)
  end.

Definition img_slot (flen : N) (best : option (nat * Superblock)) (index : nat) (img : bytes)
    : Result (option (nat * Superblock)) StoreError :=
  if (flen <? slot_offset index + N.of_nat SLOT_LEN)%N then Ok best
  else let? buf := img_at SLOT_LEN (slot_offset index) img in pick_slot best index buf.

Definition img_superblock (img : bytes) : Result (option (nat * Superblock)) StoreError :=
  let? best := img_slot (len img) None 0 img in img_slot (len img) best 1 img.

Lemma pure_parse_slot flen best index : pure_read (parse_slot flen best index) (img_slot flen best index).
Proof.
  unfold parse_slot, img_slot. cbv zeta. destruct (flen <? _)%N; [apply pure_ret|].
  refine (pure_bind _ _ _ (fun buf _ => pick_slot best index buf) (pure_read_at _ _) _). intros buf. unfold pick_slot.
  destruct (parse_superblock buf); [|apply pure_ret|apply pure_fail].
  destruct best as [[i c]|]; [|apply pure_ret]. destruct (_ <? _)%N; [apply pure_ret|].
  destruct (_ =? _)%N; [apply pure_fail|apply pure_ret].
Qed.

Lemma pure_superblock : pure_read parsed_superblock img_superblock.
Proof.
  refine (pure_bind _ _ _ (fun flen img => let? best := img_slot flen None 0 img in img_slot flen best 1 img)
    pure_len _). intros flen.
  refine (pure_bind _ _ _ (fun best => img_slot flen best 1) (pure_parse_slot _ _ _) _). intros best.
  apply pure_parse_slot.
Qed.

Definition img_latest (img : bytes) : Result (nat * Superblock) StoreError :=
  let? found := img_superblock img in ok_or found (backend "no valid FerroStore superblock").

Lemma pure_latest : pure_read latest_superblock img_latest.
Proof.
  refine (pure_bind _ _ _ (fun found _ => ok_or found (backend "no valid FerroStore superblock")) pure_superblock _).
  intros found. apply pure_lift.
Qed.

Definition img_snapshot (sb : Superblock) (img : bytes) : Result DocState StoreError :=
  if (sb_snapshot_length sb =? 0)%N then Ok (at_seq (sb_snapshot_seq sb))
  else
    let? b := img_range (sb_snapshot_offset sb) (sb_snapshot_length sb) img in
    let? snap := decode_snapshot b in
    if negb (st_last_seq snap =? sb_snapshot_seq sb)%N
    then Err (corrupt "snapshot sequence does not match the superblock")
    else Ok snap.

Definition img_state (sb : Superblock) (img : bytes) : Result (DocState * N) StoreError :=
  let? state := img_snapshot sb img in
  let? wal := img_range (sb_wal_offset sb) (sb_wal_length sb) img in
  let? x := decode_wal_prefix wal in
  let? state := apply_frames state (sb_snapshot_seq sb) x.1 in
  Ok (state, x.2).

Lemma pure_load_state sb : pure_read (load_state sb) (img_state sb).
Proof.
  unfold load_state, img_state.
  refine (pure_bind _ _ (img_snapshot sb) (fun state img =>
    let? wal := img_range (sb_wal_offset sb) (sb_wal_length sb) img in
    let? x := decode_wal_prefix wal in
    let? state := apply_frames state (sb_snapshot_seq sb) x.1 in
    Ok (state, x.2)) _ _).
  - unfold img_snapshot. destruct (_ =? 0)%N; [apply pure_ret|].
    refine (pure_bind _ _ _ (fun b _ => let? snap := decode_snapshot b in
      if negb (st_last_seq snap =? sb_snapshot_seq sb)%N
      then Err (corrupt "snapshot sequence does not match the superblock")
      else Ok snap) (pure_read_range _ _) _). intros b.
    refine (pure_bind _ _ _ (fun snap _ => if negb (st_last_seq snap =? sb_snapshot_seq sb)%N
      then Err (corrupt "snapshot sequence does not match the superblock")
      else Ok snap) (pure_lift _) _). intros snap. destruct (negb _); [apply pure_fail|apply pure_ret].
  - intros state. refine (pure_bind _ _ _ (fun wal _ => let? x := decode_wal_prefix wal in
      let? state := apply_frames state (sb_snapshot_seq sb) x.1 in Ok (state, x.2)) (pure_read_range _ _) _). intros wal.
    refine (pure_bind _ _ _ (fun x _ => let? state := apply_frames state (sb_snapshot_seq sb) x.1 in Ok (state, x.2))
      (pure_lift _) _). intros x.
    refine (pure_bind _ _ _ (fun state _ => Ok (state, x.2)) (pure_lift _) _). intros state'. apply pure_ret.
Qed.

Lemma pure_load_full id sb : pure_read (load_full id sb)
  (fun img => let? x := img_state sb img in
    Ok {| dc_file_id := id; dc_sb := sb; dc_state := x.1; dc_wal_applied := x.2 |}).
Proof.
  refine (pure_bind _ _ _ (fun x _ => Ok {| dc_file_id := id; dc_sb := sb; dc_state := x.1; dc_wal_applied := x.2 |})
    (pure_load_state sb) _). intros x. apply pure_ret.
Qed.

Definition img_tail (cached : DiskCache) (sb : Superblock) (img : bytes) : Result (option DiskCache) StoreError :=
  let? start := ok_or (checked_add64 (sb_wal_offset sb) (dc_wal_applied cached)) (corrupt "wal offset overflow") in
  let? b := img_range start (sb_wal_length sb - dc_wal_applied cached) img in
  let? x := decode_wal_prefix b in
  let? state := replay_frames (dc_state cached) x.1 in
  Ok (extended cached sb x.2 <$> state).

Lemma pure_replay_tail cached sb : pure_read (replay_tail cached sb) (img_tail cached sb).
Proof.
  unfold replay_tail, img_tail.
  refine (pure_bind _ _ _ (fun start img => let? b := img_range start (sb_wal_length sb - dc_wal_applied cached) img in
    let? x := decode_wal_prefix b in
    let? state := replay_frames (dc_state cached) x.1 in Ok (extended cached sb x.2 <$> state)) (pure_lift _) _). intros start.
  refine (pure_bind _ _ _ (fun b _ => let? x := decode_wal_prefix b in
    let? state := replay_frames (dc_state cached) x.1 in Ok (extended cached sb x.2 <$> state)) (pure_read_range _ _) _). intros b.
  refine (pure_bind _ _ _ (fun x _ => let? state := replay_frames (dc_state cached) x.1 in Ok (extended cached sb x.2 <$> state))
    (pure_lift _) _). intros x.
  refine (pure_bind _ _ _ (fun state _ => Ok (extended cached sb x.2 <$> state)) (pure_lift _) _). intros state. apply pure_ret.
Qed.
End Reads.

(** ** A file that names a state *)

Section Good.
Context `{Engine}.

Definition wal_end (sb : Superblock) : nat := N.to_nat (sb_wal_offset sb + sb_wal_length sb).

(** The extents of a superblock hold a snapshot of a state and the frames of the
    commits that lead from it to [st]. *)
Record holds (img : bytes) (sb : Superblock) (st : DocState) : Prop := {
  hd_sb : sb_ok sb;
  hd_order : (sb_snapshot_offset sb + sb_snapshot_length sb ≤ sb_wal_offset sb)%N;
  hd_content : ∃ st0 blob batches ws,
    state_ok st0 ∧ encode_state_snapshot st0 = Ok blob ∧ st_last_seq st0 = sb_snapshot_seq sb
    ∧ get_range img (N.to_nat (sb_snapshot_offset sb)) (N.to_nat (sb_snapshot_length sb)) = Some blob
    ∧ Forall (λ ops, ops ≠ []) batches
    ∧ Forall2 frame_of (number (sb_snapshot_seq sb) batches) ws
    ∧ get_range img (N.to_nat (sb_wal_offset sb)) (N.to_nat (sb_wal_length sb)) = Some (concat ws)
    ∧ for_fold commit_ops st0 batches = Ok st;
}.

(** A slot that is no rival of an epoch: unused, or older. *)
Definition outdated (epoch : N) (buf : bytes) : Prop :=
  parse_superblock buf = Invalid ∨ ∃ sb, parse_superblock buf = Valid sb ∧ (sb_epoch sb < epoch)%N.

Definition clean (buf : bytes) : Prop := drop 512 buf = zeros (SLOT_LEN - 512).

Record good (img : bytes) (index : nat) (sb : Superblock) (st : DocState) : Prop := {
  gd_index : index < 2;
  gd_slot : ∃ buf, slot_of img index = Some buf ∧ parse_superblock buf = Valid sb ∧ clean buf;
  gd_other : ∃ buf, slot_of img (other_slot index) = Some buf ∧ outdated (sb_epoch sb) buf ∧ clean buf;
  gd_holds : holds img sb st;
}.

Lemma holds_len img sb st : holds img sb st → wal_end sb ≤ length img.
Proof.
  intros [_ _ (st0&blob&batches&ws&_&_&_&_&_&_&Hw&_)]. apply get_range_Some in Hw as [Hl _]. unfold wal_end. lia.
Qed.

Lemma holds_header img sb st : holds img sb st → 2 * SLOT_LEN ≤ wal_end sb.
Proof. intros [[_ _ [Hw _] _] _ _]. unfold wal_end, HEADER_BYTES, SLOT_LEN in *. lia. Qed.

Lemma other_slot_lt index : index < 2 → other_slot index < 2.
Proof. intros Hi. destruct index as [|[|]]; cbn; lia. Qed.

Lemma other_slot_other index : index < 2 → other_slot (other_slot index) = index ∧ other_slot index ≠ index.
Proof. intros Hi. destruct index as [|[|]]; cbn; [by split..|lia]. Qed.

Lemma holds_agree a b sb st : holds a sb st → agree (wal_end sb) a b → holds b sb st.
Proof.
  intros Hh Ha. pose proof Hh as [Hsb Ho (st0&blob&batches&ws&H1&H2&H3&H4&H5&H6&H7&H8)].
  split; [done|done|]. exists st0, blob, batches, ws. unfold wal_end in Ha.
  rewrite <-!(agree_range _ a b _ _ Ha) by lia. done.
Qed.

Lemma good_agree a b index sb st : good a index sb st → agree (wal_end sb) a b → good b index sb st.
Proof.
  intros [Hi Hs Ho Hh] Ha. pose proof (holds_header _ _ _ Hh) as Hhdr.
  assert (∀ i, i < 2 → slot_of b i = slot_of a i) as Hslot.
  { intros i Hi'. symmetry. apply (agree_range _ _ _ _ _ Ha). destruct i as [|[|]]; lia. }
  split; [done|by rewrite Hslot|rewrite Hslot by (by apply other_slot_lt); done|by eapply holds_agree].
Qed.

(** Reading it back. *)
Lemma img_at_slot img index : img_at SLOT_LEN (slot_offset index) img
  = match slot_of img index with Some b => Ok b | None => Err (backend "failed to fill whole buffer") end.
Proof. unfold img_at, slot_of. by rewrite slot_offset_nat. Qed.

Lemma img_slot_in img best index buf : slot_of img index = Some buf →
  img_slot (len img) best index img = pick_slot best index buf.
Proof.
  intros Hs. unfold img_slot. rewrite img_at_slot, Hs. cbn [result_bind]. unfold slot_of in Hs.
  apply get_range_Some in Hs as [Hl _]. rewrite (proj2 (N.ltb_ge _ _)); [done|].
  unfold slot_offset, len. lia.
Qed.

Lemma good_latest img index sb st : good img index sb st → img_superblock img = Ok (Some (index, sb)).
Proof.
  intros [Hi (buf&Hs&Hv&_) (buf'&Ho&Hold&_) _]. unfold img_superblock.
  destruct index as [|[|]]; [| |lia]; cbn in Ho.
  - rewrite (img_slot_in _ _ _ _ Hs). unfold pick_slot at 1. rewrite Hv. cbn [result_bind].
    rewrite (img_slot_in _ _ _ _ Ho). unfold pick_slot. destruct Hold as [->|(sb'&->&Hlt)]; [done|].
    by rewrite (proj2 (N.ltb_lt _ _)).
  - rewrite (img_slot_in _ _ _ _ Ho). unfold pick_slot at 1. destruct Hold as [->|(sb'&->&Hlt)]; cbn [result_bind];
      rewrite (img_slot_in _ _ _ _ Hs); unfold pick_slot; rewrite Hv; [done|].
    by rewrite (proj2 (N.ltb_ge _ _)), (proj2 (N.eqb_neq _ _)) by lia.
Qed.

Lemma img_range_get img o n b : (o + n ≤ u64_max)%N →
  get_range img (N.to_nat o) (N.to_nat n) = Some b → img_range o n img = Ok b.
Proof.
  intros Ho Hg. unfold img_range. destruct (N.eqb_spec n 0) as [->|Hn].
  - apply get_range_Some in Hg as [_ ->]. done.
  - unfold checked_add. rewrite (proj2 (N.leb_le _ _)) by done. cbn [ok_or result_bind].
    unfold img_at. rewrite Hg. apply get_range_Some in Hg as [Hl _].
    rewrite (proj2 (N.ltb_ge _ _)); [done|]. unfold len. lia.
Qed.

Lemma encode_snapshot_nonempty st blob : encode_state_snapshot st = Ok blob → blob ≠ [].
Proof.
  unfold encode_state_snapshot, encode_snapshot_v3, encode_snapshot, encode_snapshot_v2. intros Hb ->. revert Hb.
  assert (∀ body, seal body ≠ []) as Hseal.
  { intros body E. apply (f_equal length) in E. unfold seal in E. rewrite length_app, length_u32 in E. cbn in E. lia. }
  repeat case_match; intros Hb; step_in Hb; try (by eapply Hseal); done.
Qed.

Lemma holds_load img sb st : holds img sb st → img_state sb img = Ok (st, sb_wal_length sb).
Proof.
  intros [[_ [_ Hs] [_ Hw] _] _ (st0&blob&batches&ws&Hok&Hb&Hseq&Hsnap&Hne&Hf&Hwal&Hrun)].
  unfold img_state, img_snapshot.
  rewrite (img_range_get _ _ _ _ Hs Hsnap), (img_range_get _ _ _ _ Hw Hwal).
  destruct (N.eqb_spec (sb_snapshot_length sb) 0) as [E|_].
  { rewrite E in Hsnap. apply get_range_Some in Hsnap as [_ ->]. by apply encode_snapshot_nonempty in Hb. }
  cbn [result_bind]. rewrite (snapshot_reads_back st0 blob) by done. cbn [result_bind].
  rewrite Hseq, N.eqb_refl. cbn [negb result_bind]. rewrite (wal_whole _ _ Hf). cbn [result_bind fst snd].
  pose proof (run_replays st0 st0 st [] batches) as Hr. cbn [app] in Hr. rewrite Hseq in Hr.
  rewrite Hr; [|apply Hok|done..]. cbn [result_bind]. do 2 f_equal.
  apply get_range_length in Hwal. unfold len. lia.
Qed.

Lemma good_reopens img index sb st : good img index sb st →
  (let? x := img_latest img in img_state x.2 img) = Ok (st, sb_wal_length sb).
Proof.
  intros Hg. unfold img_latest. rewrite (good_latest _ _ _ _ Hg). cbn [result_bind ok_or snd].
  apply holds_load, Hg.
Qed.
End Good.

(** ** Publishing a slot *)

Section Publish.
Context `{Engine}.

Lemma slot_range_far img target data i n : target < 2 → length data = SLOT_LEN →
  is_Some (slot_of img target) → 2 * SLOT_LEN ≤ i →
  get_range (copy_at img (target * SLOT_LEN) data) i n = get_range img i n.
Proof.
  intros Ht Hl [s Hs] Hge. apply get_range_Some in Hs as [Hlen _].
  apply copy_at_other; rewrite Hl; [lia|right; destruct target as [|[|]]; lia].
Qed.

(** A slot written over a file whose other slot is no rival becomes current. *)
Lemma write_target_good img target new_sb st' :
  target < 2 → is_Some (slot_of img target) →
  (∃ buf, slot_of img (other_slot target) = Some buf ∧ outdated (sb_epoch new_sb) buf ∧ clean buf) →
  holds img new_sb st' →
  good (write_into img (slot_offset target) (encode_superblock new_sb)) target new_sb st'.
Proof.
  intros Ht Hs (buf&Hb&Hold&Hc) Hh. pose proof (encode_superblock_length new_sb) as Hel.
  pose proof Hs as [s0 Hs0]. pose proof Hs0 as Hlen. apply get_range_Some in Hlen as [Hlen _].
  rewrite write_into_inside by (rewrite slot_offset_nat, Hel; done). rewrite slot_offset_nat.
  split; [done| | |].
  - exists (encode_superblock new_sb). split_and!.
    + unfold slot_of. pose proof (write_into_read img (slot_offset target) (encode_superblock new_sb)) as Hr.
      rewrite write_into_inside in Hr by (rewrite slot_offset_nat, Hel; done).
      by rewrite slot_offset_nat, Hel in Hr.
    + apply superblock_roundtrip, Hh.
    + apply encode_superblock_tail.
  - exists buf. split_and!; [|done|done]. unfold slot_of. rewrite copy_at_other.
    + done.
    + rewrite Hel. lia.
    + rewrite Hel. destruct target as [|[|]]; [right|left|lia]; [change (other_slot 0) with 1|change (other_slot 1) with 0]; lia.
  - pose proof Hh as [[? [Hso ?] [Hwo ?] ?] Hord (st0&blob&batches&ws&?&?&?&?&?&?&?&?)].
    unfold HEADER_BYTES in *. split; [apply Hh|done|]. exists st0, blob, batches, ws.
    rewrite !slot_range_far by (done || (unfold SLOT_LEN; lia)). done.
Qed.

Lemma write_slot_good img index sb st new_sb st' :
  good img index sb st → holds img new_sb st' → (sb_epoch sb < sb_epoch new_sb)%N →
  good (write_into img (slot_offset (other_slot index)) (encode_superblock new_sb)) (other_slot index) new_sb st'.
Proof.
  intros [Hi (buf&Hs&Hv&Hc) (buf'&Ho&_&_) _] Hh He. destruct (other_slot_other _ Hi) as [Hoo _].
  apply write_target_good; [by apply other_slot_lt|by eexists| |done].
  rewrite Hoo. exists buf. split_and!; [done|right; by exists sb|done].
Qed.

(** The frames of further commits, at the end of the log, extend what the file
    holds. *)
Lemma holds_extend img sb st epoch batches ws st' n :
  holds img sb st → (0 < epoch ≤ u64_max)%N → n = len (concat ws) →
  (sb_wal_offset sb + (sb_wal_length sb + n) ≤ u64_max)%N →
  get_range img (wal_end sb) (N.to_nat n) = Some (concat ws) →
  Forall (λ ops, ops ≠ []) batches → Forall2 frame_of (number (st_last_seq st) batches) ws →
  for_fold commit_ops st batches = Ok st' →
  holds img {| sb_epoch := epoch; sb_snapshot_offset := sb_snapshot_offset sb;
               sb_snapshot_length := sb_snapshot_length sb; sb_wal_offset := sb_wal_offset sb;
               sb_wal_length := sb_wal_length sb + n; sb_snapshot_seq := sb_snapshot_seq sb |} st'.
Proof.
  intros [[_ Hs [Hw _] Hq] Ho (st0&blob&b0&w0&Hok&Hb&Hseq&Hsnap&Hne0&Hf0&Hwal&Hrun)] He Hn Hmax Hget Hne Hf Hrun'.
  split; [by split|done|]. exists st0, blob, (b0 ++ batches), (w0 ++ ws). cbn. split_and!; try done.
  - by apply Forall_app.
  - rewrite number_app. apply Forall2_app; [done|].
    destruct (commits_frames b0 st0 st 0 (so_canonical _ Hok) Hne0 ltac:(lia) Hrun) as (_&_&Hl&_).
    by rewrite <-Hseq, <-Hl.
  - rewrite concat_app, N2Nat.inj_add. apply get_range_split; [done|].
    unfold wal_end in Hget. by rewrite N2Nat.inj_add in Hget.
  - by rewrite for_fold_app, Hrun.
Qed.

(** Where the frames of one publish go. *)
Fixpoint laid (frames : list bytes) (at_ : N) : list (bytes * N) :=
  match frames with
  | [] => []
  | frame :: rest => (frame, at_) :: laid rest (at_ + len frame)
  end.

Lemma plan_writes_laid frames : ∀ at_ wal_length writes wal_length',
  plan_writes frames at_ wal_length = Ok (writes, wal_length') →
  writes = laid frames at_ ∧ wal_length' = (wal_length + len (concat frames))%N
  ∧ (at_ ≤ u64_max → at_ + len (concat frames) ≤ u64_max)%N.
Proof.
  induction frames as [|f frames IH]; intros at_ wl writes wl'; cbn [plan_writes].
  - intros [= <- <-]. split_and!; [done|unfold len; cbn; lia|unfold len; cbn; lia].
  - unfold checked_add. destruct (N.leb_spec (at_ + len f) u64_max); cbn [ok_or result_bind]; [|done].
    destruct (N.leb_spec (wl + len f) u64_max); cbn [ok_or result_bind]; [|done].
    destruct (plan_writes frames _ _) as [[ws wl1]|] eqn:E; cbn [result_bind]; [|done]. intros [= <- <-].
    apply IH in E as (->&->&Hm). split_and!; [done| |].
    + unfold len. cbn. rewrite length_app. lia.
    + intros _. specialize (Hm ltac:(lia)). unfold len in *. cbn. rewrite length_app. lia.
Qed.

Definition as_write (x : bytes * N) : DataOp := Write x.2 x.1.

Lemma laid_beyond n frames : ∀ at_, n ≤ N.to_nat at_ → Forall (beyond n) (map as_write (laid frames at_)).
Proof.
  induction frames as [|f frames IH]; intros at_ Hn; cbn; constructor; [done|]. apply IH. lia.
Qed.

(** After them, the bytes of all the frames stand in a row. *)
Lemma laid_read frames : ∀ b at_, N.to_nat at_ ≤ length b →
  let b' := foldl apply_data b (map as_write (laid frames at_)) in
  agree (N.to_nat at_) b b' ∧ get_range b' (N.to_nat at_) (length (concat frames)) = Some (concat frames).
Proof.
  induction frames as [|f frames IH]; intros b at_ Hl; cbn [laid map foldl concat].
  - split; [by apply agree_refl|]. apply get_range_Some. cbn. split; [lia|done].
  - change (apply_data b (as_write (f, at_))) with (write_into b at_ f).
    pose proof (take_write_far b at_ f (N.to_nat at_) Hl ltac:(lia)) as Ha.
    pose proof (write_into_read b at_ f) as Hr. pose proof (proj1 (get_range_Some _ _ _ _) Hr) as [Hl1 _].
    destruct (IH (write_into b at_ f) (at_ + len f)%N) as [Ha' Hr']; [unfold len; lia|].
    replace (N.to_nat (at_ + len f)) with (N.to_nat at_ + length f) in * by (unfold len; lia). split.
    + eapply agree_trans; [exact Ha|]. destruct Ha' as (H1&H2&H3). split_and!; [lia..|].
      apply (f_equal (take (N.to_nat at_))) in H3. rewrite !take_take in H3.
      by replace (N.to_nat at_ `min` (N.to_nat at_ + length f)) with (N.to_nat at_) in H3 by lia.
    + rewrite length_app. apply get_range_split; [|done]. rewrite <-Hr. symmetry. by eapply agree_range.
Qed.
End Publish.

(** ** Programs with faults *)

Section Wp.
Context `{Engine}.

(** Whatever [m] returns and leaves of the handle satisfies [Q]. *)
Definition wp {A} (m : Io A) (d : Disk) (Q : Result A StoreError → Disk → Prop) : Prop :=
  Q (m d).1 (m d).2.

Lemma wp_bind {A B} (m : Io A) (k : A → Io B) d Q :
  wp m d (fun r d' => match r with Ok a => wp (k a) d' Q | Err e => Q (Err e) d' end) → wp (io_bind m k) d Q.
Proof. unfold wp, io_bind. by destruct (m d) as [[a|e] d']. Qed.

Lemma wp_mono {A} (m : Io A) d (Q Q' : Result A StoreError → Disk → Prop) :
  wp m d Q → (∀ r d', Q r d' → Q' r d') → wp m d Q'.
Proof. unfold wp. auto. Qed.

Lemma wp_pure {A} (m : Io A) p d (Q : Result A StoreError → Disk → Prop) : pure_read m p →
  (∀ l, Q (p (ino_live (d_file d))) (set_faults d l)) → (∀ e l, Q (Err e) (set_faults d l)) → wp m d Q.
Proof. intros Hm H1 H2. unfold wp. destruct (Hm d) as (l&[->|[e ->]]&_); cbn; auto. Qed.

Lemma wp_lift {A} (r : Result A StoreError) d (Q : Result A StoreError → Disk → Prop) : Q r d → wp (io_lift r) d Q.
Proof. done. Qed.

Lemma wp_write buf offset d (Q : Result unit StoreError → Disk → Prop) :
  (∀ l, Q (Ok tt) (push_data (Write offset buf) (set_faults d l))) → (∀ e l, Q (Err e) (set_faults d l)) →
  wp (write_at buf offset) d Q.
Proof. intros H1 H2. apply wp_bind. eapply wp_pure; [apply pure_step|apply H1|apply H2]. Qed.

Lemma wp_sync d (Q : Result unit StoreError → Disk → Prop) :
  (∀ l, Q (Ok tt) (flush_file (set_faults d l))) → (∀ e l, Q (Err e) (set_faults d l)) → wp sync d Q.
Proof. intros H1 H2. apply wp_bind. eapply wp_pure; [apply pure_step|apply H1|apply H2]. Qed.

Lemma wp_inspect_err {A} (m : Io A) f d (Q : Result A StoreError → Disk → Prop) :
  wp m d (fun r d' => match r with Ok a => Q (Ok a) d' | Err e => Q (Err e) (f d') end) →
  wp (io_inspect_err m f) d Q.
Proof. unfold wp, io_inspect_err. by destruct (m d) as [[a|e] d']. Qed.

Lemma wp_poison_sync d (Q : Result unit StoreError → Disk → Prop) :
  (∀ l, Q (Ok tt) (flush_file (set_faults d l))) → (∀ e l, Q (Err e) (mark (set_faults d l))) →
  wp poison_sync_data d Q.
Proof. intros H1 H2. apply wp_inspect_err, wp_sync; auto. Qed.

Lemma wp_poison_check d (Q : Result unit StoreError → Disk → Prop) :
  d_poison d = false → Q (Ok tt) d → wp poison_check d Q.
Proof. intros Hp HQ. unfold poison_check. apply wp_bind. unfold wp. cbn. by rewrite Hp. Qed.
End Wp.

(** ** The handle between operations *)

Section Handle.
Context `{Engine}.

(** Durable and current; only bytes past the log are pending. *)
Record quiet (f : Inode) (index : nat) (sb : Superblock) (st : DocState) : Prop := {
  qt_good : good (ino_durable f) index sb st;
  qt_pending : Forall (beyond (wal_end sb)) (ino_pending f);
  qt_live : ino_live f = foldl apply_data (ino_durable f) (ino_pending f);
}.

(** Whatever a cut leaves names one of two states. *)
Definition in_doubt (f : Inode) (st st' : DocState) : Prop := ∀ fates img,
  survivor f fates = Some img → ∃ index sb x, good img index sb x ∧ (x = st ∨ x = st').

Definition entry (id : FileId) (sb : Superblock) (st : DocState) : DiskCache :=
  {| dc_file_id := id; dc_sb := sb; dc_state := st; dc_wal_applied := sb_wal_length sb |}.

(** A handle that can write: its file and its cache agree on the state. *)
Record healthy (d : Disk) (index : nat) (sb : Superblock) (st : DocState) : Prop := {
  hl_file : quiet (d_file d) index sb st;
  hl_poison : d_poison d = false;
  hl_cache : ∀ c, d_cache d = Some c → c = entry (d_id d) sb st;
  hl_state : state_ok st;
}.

(** A poisoned handle: [st] was acknowledged, [st'] may be what the disk has. *)
Record stopped (d : Disk) (st st' : DocState) : Prop := {
  sp_poison : d_poison d = true;
  sp_doubt : in_doubt (d_file d) st st';
  sp_cache : ∀ c, d_cache d = Some c → dc_state c = st;
}.

Lemma good_len img index sb st : good img index sb st → wal_end sb ≤ length img.
Proof. intros Hg. by eapply holds_len, gd_holds. Qed.

Lemma quiet_survivor f index sb st fates img :
  quiet f index sb st → survivor f fates = Some img → good img index sb st.
Proof.
  intros [Hg Hp _] Hs. eapply good_agree; [exact Hg|]. eapply survive_all_beyond; [exact Hp| |exact Hs].
  by eapply good_len.
Qed.

Lemma quiet_live f index sb st : quiet f index sb st → good (ino_live f) index sb st.
Proof.
  intros Hq. eapply quiet_survivor; [exact Hq|]. rewrite (qt_live _ _ _ _ Hq). apply survive_all_kept.
Qed.

Lemma quiet_in_doubt f index sb st st' : quiet f index sb st → in_doubt f st st'.
Proof. intros Hq fates img Hs. exists index, sb, st. split; [by eapply quiet_survivor|by left]. Qed.

Lemma quiet_push d index sb st op : quiet (d_file d) index sb st → beyond (wal_end sb) op →
  quiet (d_file (push_data op d)) index sb st.
Proof.
  intros [Hg Hp Hl] Hb. split; cbn; [done| |].
  - apply Forall_app. by split; [|constructor].
  - by rewrite foldl_app, <-Hl.
Qed.

Lemma quiet_new img index sb st : good img index sb st → quiet (Inode_new img) index sb st.
Proof. intros Hg. by split; [|constructor|]. Qed.

Lemma healthy_faults d index sb st l : healthy d index sb st → healthy (set_faults d l) index sb st.
Proof. intros []. by split. Qed.

Lemma healthy_push d index sb st op : healthy d index sb st → beyond (wal_end sb) op → healthy (push_data op d) index sb st.
Proof. intros [] Hb. split; [by apply quiet_push|done..]. Qed.

Lemma healthy_flush d index sb st : healthy d index sb st → healthy (flush_file d) index sb st.
Proof. intros []. split; [by apply quiet_new, quiet_live|done..]. Qed.

(** A failed sync of writes past the log stops the handle; nothing is in doubt. *)
Lemma healthy_stopped d index sb st st' : healthy d index sb st → stopped (mark d) st st'.
Proof.
  intros [Hq Hp Hc _]. split; [done|by eapply quiet_in_doubt|]. cbn. intros c Hd. by rewrite (Hc c Hd).
Qed.

Lemma settle_healthy base d index sb st : healthy d index sb st → settle_failed_publish base d = d.
Proof. intros Hh. unfold settle_failed_publish. by rewrite (hl_poison _ _ _ _ Hh). Qed.

Lemma settle_stopped id sb d st st' : stopped d st st' → stopped (settle_failed_publish (entry id sb st) d) st st'.
Proof.
  intros Hs. destruct Hs as [Hp Hd Hc]. unfold settle_failed_publish. rewrite Hp. cbn [negb]. cbv zeta.
  case_match; [|by split]. split; [done|done|]. cbn. by intros c [= <-].
Qed.

(** The slot write and its sync: the last two steps of a publish. *)
Definition slot_written (d : Disk) (index : nat) (new_sb : Superblock) (st : DocState) (d' : Disk) : Prop :=
  quiet (d_file d') (other_slot index) new_sb st ∧ ino_pending (d_file d') = [] ∧ d_poison d' = false
  ∧ d_cache d' = d_cache d ∧ d_id d' = d_id d.

Lemma wp_write_slot {A} (a : A) d index sb st new_sb st' (Q : Result A StoreError → Disk → Prop) :
  healthy d index sb st → ino_pending (d_file d) = [] →
  holds (ino_durable (d_file d)) new_sb st' → (sb_epoch sb < sb_epoch new_sb)%N →
  (∀ d', slot_written d index new_sb st' d' → Q (Ok a) d') →
  (∀ e d', healthy d' index sb st → Q (Err e) d') →
  (∀ e d', stopped d' st st' → Q (Err e) d') →
  wp (io _ := write_slot (other_slot index) new_sb in io _ := poison_sync_data in io_ret a) d Q.
Proof.
  intros Hh Hpend Hholds He Hok Hsame Hstop. pose proof (gd_index _ _ _ _ (qt_good _ _ _ _ (hl_file _ _ _ _ Hh))) as Hi.
  pose proof (other_slot_lt _ Hi) as Hi'. pose proof (qt_good _ _ _ _ (hl_file _ _ _ _ Hh)) as Hg.
  pose proof (write_slot_good _ _ _ _ _ _ Hg Hholds He) as Hnew.
  apply wp_bind. unfold write_slot. rewrite (proj2 (Nat.ltb_ge _ _)) by lia.
  apply wp_write; [|intros; by apply Hsame, healthy_faults]. intros l.
  assert (ino_live (d_file d) = ino_durable (d_file d)) as Hlive.
  { rewrite (qt_live _ _ _ _ (hl_file _ _ _ _ Hh)), Hpend. done. }
  apply wp_bind. apply wp_poison_sync.
  - intros l'. apply Hok. split_and!; [|done|apply Hh|done|done].
    apply (quiet_new (write_into (ino_live (d_file d)) _ _)). by rewrite Hlive.
  - intros e l'. apply Hstop. split; [done| |].
    + intros fates img Hs. unfold survivor in Hs.
      change (survive_all (ino_durable (d_file d)) (ino_pending (d_file d) ++ [Write (slot_offset (other_slot index))
        (encode_superblock new_sb)]) fates = Some img) in Hs. rewrite Hpend in Hs. cbn [app] in Hs.
      destruct fates as [|fate [|]]; cbn [survive_all] in Hs; [done| |by destruct (survive _ _ _)].
      destruct (survive _ _ _) as [i|] eqn:Es; cbn [mbind option_bind] in Hs; [|done]. injection Hs as <-.
      destruct (gd_other _ _ _ _ Hg) as (buf&Hb&_&Hc).
      destruct (survive_slot _ _ _ _ _ _ Hb Hc Es) as [->| ->]; [exists index, sb, st|exists (other_slot index), new_sb, st']; auto.
    + intros c Hd. by rewrite (hl_cache _ _ _ _ Hh c Hd).
Qed.

Lemma wp_write_each d index sb st (Q : Result unit StoreError → Disk → Prop) frames : ∀ at_,
  healthy d index sb st → wal_end sb ≤ N.to_nat at_ →
  (∀ d', healthy d' index sb st → d_cache d' = d_cache d → d_id d' = d_id d →
     ino_live (d_file d') = foldl apply_data (ino_live (d_file d)) (map as_write (laid frames at_)) → Q (Ok tt) d') →
  (∀ e d', healthy d' index sb st → Q (Err e) d') →
  wp (write_each (laid frames at_)) d Q.
Proof.
  revert d. induction frames as [|f frames IH]; intros d at_ Hh Ha Hok Herr; cbn [laid write_each map foldl].
  - apply (Hok d); done.
  - apply wp_bind, wp_write; [|intros; by apply Herr, healthy_faults]. intros l.
    apply IH; [by apply healthy_push; [apply healthy_faults|]|lia| |done].
    intros d' Hd' Hc Hid Hl. apply Hok; done.
Qed.
End Handle.

(** ** Publishing and checkpointing *)

Section Writer.
Context `{Engine}.

(** What a publish that should lead to [st'] does to a healthy handle. *)
Definition published (d : Disk) (index : nat) (sb : Superblock) (st st' : DocState) {A} (new : A → option Superblock)
    (r : Result A StoreError) (d' : Disk) : Prop :=
  match r with
  | Ok a => ∃ new_sb, new a = Some new_sb ∧ sb_epoch new_sb = (sb_epoch sb + 1)%N ∧ slot_written d index new_sb st' d'
  | Err _ => healthy d' index sb st ∨ stopped d' st st'
  end.

Lemma wp_settle {A} (m : Io A) d index sb st st' (new : A → option Superblock) :
  wp m d (published d index sb st st' new) →
  wp (io_inspect_err m (settle_failed_publish (entry (d_id d) sb st))) d (published d index sb st st' new).
Proof.
  intros Hm. apply wp_inspect_err. eapply wp_mono; [exact Hm|]. intros [a|e] d' Hr; [done|].
  destruct Hr as [Hh|Hs]; [left; by rewrite (settle_healthy _ _ _ _ _ Hh)|right; by apply settle_stopped].
Qed.

Lemma wp_publish d index sb st batches ws st' :
  healthy d index sb st → batches ≠ [] → Forall (λ ops, ops ≠ []) batches →
  Forall2 frame_of (number (st_last_seq st) batches) ws → for_fold commit_ops st batches = Ok st' →
  wp (publish_or_settle index (entry (d_id d) sb st) ws) d (published d index sb st st' id).
Proof.
  intros Hh Hb Hne Hf Hrun. apply wp_settle. unfold publish_frames. cbn [dc_sb entry].
  destruct ws as [|w ws]; [apply Forall2_length in Hf; by destruct batches|]. set (frames := w :: ws) in *.
  pose proof (qt_good _ _ _ _ (hl_file _ _ _ _ Hh)) as Hg. pose proof (gd_holds _ _ _ _ Hg) as Hholds.
  apply wp_bind, wp_poison_check; [apply Hh|].
  pose proof (hd_sb _ _ _ Hholds) as [Hep _ [_ Hwal] _].
  apply wp_bind, wp_lift. unfold checked_add at 1. rewrite (proj2 (N.leb_le _ _)) by done. cbn [ok_or].
  apply wp_bind, wp_lift. destruct (plan_writes _ _ _) as [[writes wl]|e] eqn:Ep; [|by left].
  apply plan_writes_laid in Ep as (->&->&Hmax). specialize (Hmax Hwal).
  apply wp_bind, wp_lift. unfold checked_add.
  destruct (N.leb_spec (sb_epoch sb + 1) u64_max) as [Hep'|_]; cbn [ok_or]; [|by left].
  apply wp_bind. cbn [fst snd]. eapply wp_write_each; [exact Hh|unfold wal_end; lia| |by left].
  intros d1 Hd1 Hc1 Hid1 Hlive1. apply wp_bind, wp_poison_sync.
  2: { intros e l. right. by eapply healthy_stopped, healthy_faults. }
  intros l. cbv zeta. pose proof (quiet_live _ _ _ _ (hl_file _ _ _ _ Hh)) as Hgl.
  destruct (laid_read frames (ino_live (d_file d)) (sb_wal_offset sb + sb_wal_length sb)) as [_ Hread].
  { eapply good_len in Hgl. exact Hgl. }
  rewrite <-Hlive1 in Hread.
  eapply wp_write_slot; [by apply healthy_flush, healthy_faults|done| | | | |].
  - cbn [d_file flush_file set_file Inode_new ino_durable set_faults]. eapply holds_extend.
    + eapply gd_holds, quiet_live, Hd1.
    + lia.
    + reflexivity.
    + lia.
    + unfold wal_end, len. rewrite Nat2N.id. exact Hread.
    + done.
    + exact Hf.
    + exact Hrun.
  - cbn. lia.
  - intros d' (Hq&Hp&Hpo&Hc&Hid). eexists. split; [done|]. split; [done|]. split_and!; try done; cbn in *; congruence.
  - intros e d' Hd'. by left.
  - intros e d' Hd'. by right.
Qed.

(** The cache entry of a publish takes the place of the one it was made from. *)
Lemma wp_install d0 index sb st new_sb st' d change (Q : Result DiskCache StoreError → Disk → Prop) :
  healthy d0 index sb st → slot_written d0 index new_sb st' d → (sb_epoch sb < sb_epoch new_sb)%N → state_ok st' →
  match change with COverlay o seq => publish_overlay st o seq | CState s => s end = st' →
  (∀ d', healthy d' (other_slot index) new_sb st' → d_id d' = d_id d → Q (Ok (entry (d_id d) new_sb st')) d') →
  wp (install_commit (entry (d_id d) sb st) new_sb change) d Q.
Proof.
  intros Hh (Hq&_&Hpo&Hc&Hid) He Hok Hst HQ. unfold install_commit. cbn [dc_wal_applied entry dc_sb dc_state dc_file_id].
  rewrite N.eqb_refl. cbn [negb]. cbv zeta. rewrite Hst. apply wp_bind. unfold wp. cbn. apply HQ; [|done].
  split; cbn; [done|done| |done]. intros c. rewrite Hc. unfold install_newer. destruct (d_cache d0) as [held|] eqn:Ed.
  - rewrite (hl_cache _ _ _ _ Hh _ Ed). cbn [dc_file_id entry dc_sb]. rewrite bool_decide_true by congruence.
    rewrite (proj2 (N.ltb_lt _ _)) by done. by intros [= <-].
  - by intros [= <-].
Qed.

Lemma holds_checkpoint img epoch offset st blob :
  state_ok st → encode_state_snapshot st = Ok blob → (0 < epoch ≤ u64_max)%N →
  (HEADER_BYTES ≤ offset)%N → (offset + len blob ≤ u64_max)%N →
  get_range img (N.to_nat offset) (length blob) = Some blob →
  holds img {| sb_epoch := epoch; sb_snapshot_offset := offset; sb_snapshot_length := len blob;
               sb_wal_offset := offset + len blob; sb_wal_length := 0; sb_snapshot_seq := st_last_seq st |} st.
Proof.
  intros Hok Hb He Ho Hmax Hget. pose proof (proj1 (get_range_Some _ _ _ _) Hget) as [Hl _]. split; cbn.
  - split; cbn; [done|by split|split; lia|apply Hok].
  - lia.
  - exists st, blob, [], []. split_and!; try done.
    + unfold len. by rewrite Nat2N.id.
    + apply get_range_Some. split; [unfold len; lia|done].
Qed.

(** A checkpoint's superblock has an empty log. *)
Definition fresh_log (sb : Superblock) : option Superblock :=
  if (sb_wal_length sb =? 0)%N then Some sb else None.

Lemma wp_checkpoint d index sb st : healthy d index sb st →
  wp (write_checkpoint index (entry (d_id d) sb st)) d (published d index sb st st fresh_log).
Proof.
  intros Hh. unfold write_checkpoint. cbn [dc_sb entry dc_state]. cbv zeta.
  pose proof (qt_good _ _ _ _ (hl_file _ _ _ _ Hh)) as Hg. pose proof (gd_holds _ _ _ _ Hg) as Hholds.
  pose proof (hd_sb _ _ _ Hholds) as [Hep _ [_ Hwal] _].
  apply wp_bind, wp_lift. destruct (encode_state_snapshot st) as [blob|e] eqn:Eb; [|by left].
  apply wp_bind. unfold allocate_extent. apply wp_bind.
  eapply wp_pure; [apply pure_len| |intros; left; by apply healthy_faults]. intros l. cbv beta iota zeta.
  set (offset := N.max (len (ino_live (d_file d))) _).
  assert (wal_end sb ≤ N.to_nat offset ∧ (HEADER_BYTES ≤ offset)%N) as [Ho Hhdr].
  { subst offset. unfold wal_end, sat_add64. lia. }
  unfold checked_add at 1. destruct (N.leb_spec (offset + len blob) u64_max) as [Hmax|_]; cbn [is_none is_some negb];
    [|left; by apply healthy_faults].
  change (wp (io_ret offset) ?dd ?QQ) with (QQ (Ok offset) dd). cbv beta iota.
  apply wp_bind, wp_write; [|intros; left; by apply healthy_faults, healthy_faults]. intros l1.
  apply wp_bind, wp_poison_sync.
  2: { intros e l2. right. eapply healthy_stopped, healthy_faults, healthy_push; [by apply healthy_faults, healthy_faults|done]. }
  intros l2. assert (healthy (push_data (Write offset blob) (set_faults (set_faults d l) l1)) index sb st) as Hd1.
  { apply healthy_push; [by apply healthy_faults, healthy_faults|done]. }
  apply wp_bind, wp_lift. unfold checked_add at 1.
  destruct (N.leb_spec (sb_epoch sb + 1) u64_max) as [Hep'|_]; cbn [ok_or]; [|left; by apply healthy_flush, healthy_faults].
  apply wp_bind, wp_lift. unfold checked_add. rewrite (proj2 (N.leb_le _ _)) by done. cbn [ok_or].
  eapply wp_write_slot; [by apply healthy_flush, healthy_faults|done| | | | |].
  - apply holds_checkpoint; [apply Hh|done|lia|done|done|]. apply write_into_read.
  - cbn. lia.
  - intros d' (Hq&Hp&Hpo&Hc&Hid). eexists. split; [done|]. split; [done|]. split_and!; done.
  - intros e d' Hd'. by left.
  - intros e d' Hd'. by right.
Qed.
End Writer.

(** ** Whole operations *)

Section Operations.
Context `{Engine}.

Lemma wp_step d (Q : Result unit StoreError → Disk → Prop) :
  (∀ l, Q (Ok tt) (set_faults d l)) → (∀ e l, Q (Err e) (set_faults d l)) → wp io_step d Q.
Proof. intros H1' H2'. eapply wp_pure; [apply pure_step|done..]. Qed.

Lemma wp_try {A} (m : Io A) d (Q : Result (Result A StoreError) StoreError → Disk → Prop) :
  wp m d (fun r d' => Q (Ok r) d') → wp (io_try m) d Q.
Proof. unfold wp, io_try. by destruct (m d). Qed.

Lemma wp_get {A} (k : Disk → Io A) d Q : wp (k d) d Q → wp (io_bind io_get k) d Q.
Proof. intros Hk. by apply wp_bind. Qed.

Lemma wp_ret {A} (a : A) d (Q : Result A StoreError → Disk → Prop) : Q (Ok a) d → wp (io_ret a) d Q.
Proof. done. Qed.

Lemma wp_modify f d (Q : Result unit StoreError → Disk → Prop) : Q (Ok tt) (f d) → wp (io_modify f) d Q.
Proof. done. Qed.

Lemma healthy_name d index sb st : healthy d index sb st → healthy (set_name_durable d) index sb st.
Proof. intros []. by split. Qed.

Lemma healthy_failed_at d index sb st n : healthy d index sb st → healthy (set_checkpoint_failed_at d n) index sb st.
Proof. intros []. by split. Qed.

Lemma wp_lock_current d index sb st : healthy d index sb st →
  wp lock_current d (fun r d' => match r with
    | Ok _ => healthy d' index sb st ∧ d_id d' = d_id d
    | Err _ => healthy d' index sb st ∨ stopped d' st st
    end).
Proof.
  intros Hh. unfold lock_current. do 2 (apply wp_bind, wp_step; [intros ?|intros; left; by repeat apply healthy_faults]).
  apply wp_get. cbn [d_name_durable set_faults]. destruct (d_name_durable d).
  - split; [by repeat apply healthy_faults|done].
  - apply wp_bind. unfold wp, next_fault. cbn [d_faults set_faults].
    destruct l0 as [|[err|] rest]; cbn.
    + split; [by apply healthy_name; repeat apply healthy_faults|done].
    + right. eapply healthy_stopped. by repeat apply healthy_faults.
    + split; [by apply healthy_name; repeat apply healthy_faults|done].
Qed.

Lemma wp_refresh d index sb st : healthy d index sb st →
  wp refresh d (fun r d' => healthy d' index sb st ∧ d_id d' = d_id d
    ∧ match r with Ok x => x = (index, entry (d_id d) sb st) | Err _ => True end).
Proof.
  intros Hh. unfold refresh. apply wp_get, wp_bind.
  pose proof (quiet_live _ _ _ _ (hl_file _ _ _ _ Hh)) as Hg.
  eapply wp_pure; [apply pure_latest| |intros; by split_and!; [apply healthy_faults| |]]. intros l.
  unfold img_latest. rewrite (good_latest _ _ _ _ Hg). cbn [result_bind ok_or].
  apply wp_bind. cbn [snd fst]. unfold advance. cbv zeta. destruct (d_cache d) as [held|] eqn:Ed.
  - rewrite (hl_cache _ _ _ _ Hh _ Ed). cbn [dc_file_id entry dc_sb]. rewrite !bool_decide_true by done. cbn [andb].
    unfold wp. cbn. split_and!; [by apply healthy_faults|done|done].
  - apply wp_bind. eapply wp_pure; [apply pure_load_full| |]; cbn [set_faults d_file].
    + intros l'. rewrite (holds_load _ _ _ (gd_holds _ _ _ _ Hg)). cbn [result_bind fst snd]. apply wp_get.
      cbn [d_poison set_faults]. rewrite (hl_poison _ _ _ _ Hh). apply wp_bind. unfold wp. cbn.
      rewrite Ed. cbn. split_and!; [|done|done]. split; cbn; [apply Hh|apply Hh| |apply Hh]. by intros c [= <-].
    + intros e l'. split_and!; [by repeat apply healthy_faults|done|done].
Qed.

(** A handle that goes on, or one that stopped, around [st]. *)
Definition steady (d : Disk) (st : DocState) : Prop := ∃ index sb, healthy d index sb st.

Lemma wp_checkpoint_locked d index sb st : healthy d index sb st →
  wp (checkpoint_locked index (entry (d_id d) sb st)) d (fun r d' => match r with
    | Ok _ => steady d' st
    | Err _ => steady d' st ∨ stopped d' st st
    end).
Proof.
  intros Hh. unfold checkpoint_locked. apply wp_bind, wp_poison_check; [apply Hh|].
  apply wp_bind. eapply wp_mono; [by apply wp_settle, wp_checkpoint|]. intros [new_sb|e] d1 Hr.
  - destruct Hr as (sb'&Hnew&He&Hq&Hp&Hpo&Hc&Hid). unfold fresh_log in Hnew.
    destruct (N.eqb_spec (sb_wal_length new_sb) 0) as [Hw0|]; [|done]. injection Hnew as <-.
    apply wp_bind. unfold install_checkpoint. apply wp_modify, wp_bind, wp_modify, wp_get, wp_ret.
    exists (other_slot index), new_sb. split; cbn; [done|done| |apply Hh]. intros c. rewrite Hc.
    unfold install_newer. destruct (d_cache d) as [held|] eqn:Ed.
    + rewrite (hl_cache _ _ _ _ Hh _ Ed). cbn [dc_file_id entry dc_sb]. rewrite bool_decide_true by done.
      rewrite (proj2 (N.ltb_lt _ _)) by lia. intros [= <-]. unfold entry. rewrite Hw0. cbn. by rewrite Hid.
    + intros [= <-]. unfold entry. rewrite Hw0. cbn. by rewrite Hid.
  - destruct Hr as [Hr|Hr]; [left; by exists index, sb|by right].
Qed.

Lemma wp_checkpoint_disk d st : steady d st →
  wp checkpoint_disk d (fun r d' => match r with
    | Ok _ => steady d' st
    | Err _ => steady d' st ∨ stopped d' st st
    end).
Proof.
  intros (index&sb&Hh). unfold checkpoint_disk. apply wp_bind, wp_poison_check; [apply Hh|].
  apply wp_bind. eapply wp_mono; [by apply wp_lock_current|]. intros [[]|e] d1 Hr.
  2: { destruct Hr as [Hr|Hr]; [left; by exists index, sb|by right]. }
  destruct Hr as [Hh1 _]. apply wp_bind. eapply wp_mono; [by apply wp_refresh|]. intros [x|e] d2 (Hh2&Hid&Hx).
  - subst x. cbn [fst snd]. rewrite <-Hid. by apply wp_checkpoint_locked.
  - left. by exists index, sb.
Qed.

Lemma wp_auto_checkpoint d st : steady d st →
  wp auto_checkpoint d (fun r d' => (∃ x, r = Ok x) ∧ (steady d' st ∨ stopped d' st st)).
Proof.
  intros (index&sb&Hh). unfold auto_checkpoint. apply wp_get. rewrite (hl_poison _ _ _ _ Hh).
  apply wp_bind, wp_try, wp_bind. eapply wp_mono; [by apply wp_lock_current|]. intros [[]|e] d1 Hr.
  2: { apply wp_ret. split; [by eexists|]. destruct Hr as [Hr|Hr]; [left; by exists index, sb|by right]. }
  destruct Hr as [Hh1 _]. eapply wp_mono; [by apply wp_refresh|]. intros [x|e] d2 (Hh2&Hid&Hx); cbv beta iota.
  2: { apply wp_ret. split; [by eexists|]. left. by exists index, sb. }
  subst x. cbn [fst snd]. apply wp_get. destruct (checkpoint_due _ _); cbn [negb].
  2: { apply wp_ret. split; [by eexists|]. left. by exists index, sb. }
  apply wp_bind, wp_try. rewrite <-Hid. eapply wp_mono; [by apply wp_checkpoint_locked|]. intros [due|e] d3 Hr.
  - apply wp_ret. split; [by eexists|]. left. exact Hr.
  - apply wp_get. cbv zeta. apply wp_bind, wp_modify, wp_ret. split; [by eexists|]. destruct Hr as [(i&s&Hr)|Hr].
    + left. exists i, s. by apply healthy_failed_at.
    + right. destruct Hr. by split.
Qed.

(** A stopped handle writes nothing and reads nothing from the file. *)
Lemma stopped_checkpoint d st st' : stopped d st st' →
  (∃ e, checkpoint_disk d = (Err e, d)) ∧ auto_checkpoint d = (Ok (false, false), d).
Proof.
  intros Hs. unfold checkpoint_disk, auto_checkpoint, poison_check, io_bind, io_get. rewrite (sp_poison _ _ _ Hs).
  split; [by eexists|done].
Qed.

Lemma stopped_read d st st' c : stopped d st st' → d_cache d = Some c →
  refresh_read d = (Ok c, d) ∧ dc_state c = st.
Proof.
  intros Hs Hc. unfold refresh_read, io_bind, io_get. rewrite (sp_poison _ _ _ Hs), Hc. split; [done|].
  by apply (sp_cache _ _ _ Hs).
Qed.
End Operations.
