(* ===== verification/FlsOpen.v ===== *)
(** * First use and opening ([mod.rs], lines 1874-1893 and 4931-5063)

    [open_container] on whatever an earlier run left: a file that names a state,
    or a first use that was cut short. It gives a handle on that state, and a
    cut or a failure during it leaves a file that opens to the same state. A file
    that is neither is not written. *)

From S2P Require Import Prelude RustStr Ledger FlsBytes FlsCrc FlsModel FlsVector FlsLayout FlsSnapshot FlsState FlsDisk FlsCrash.

(** ** First use *)

Lemma copy_at_parts (b : bytes) n data : n ≤ length b →
  take n (copy_at b n data) = take n b ∧ drop n (copy_at b n data) = data ++ drop (length data) (drop n b).
Proof.
  intros Hl. unfold copy_at. rewrite drop_drop. split.
  - apply take_app_length'. rewrite length_take. lia.
  - apply drop_app_length'. rewrite length_take. lia.
Qed.

(** A file of [n] zeros, or fewer, and a prefix of [blob] after them stays one
    under a write of a prefix of [blob] at [n]. *)
Lemma prefix_write (blob img : bytes) o k :
  let n := N.to_nat o in
  Forall (λ b, b = zero) (take n img) ∧ drop n img `prefix_of` blob →
  Forall (λ b, b = zero) (take n (write_into img o (take k blob)))
  ∧ drop n (write_into img o (take k blob)) `prefix_of` blob.
Proof.
  intros n [Hz [rest Hp]]. unfold write_into. fold n. cbv zeta. clearbody n.
  set (e := n + length (take k blob)).
  destruct (Nat.ltb_spec (length img) e) as [Hlt|Hge].
  - assert (vec_resize img e = img ++ zeros (e - length img)) as -> by (unfold vec_resize; by rewrite take_ge by lia).
    assert (length (img ++ zeros (e - length img)) = e) as Hlen.
    { rewrite length_app. unfold zeros. rewrite length_replicate. lia. }
    destruct (copy_at_parts (img ++ zeros (e - length img)) n (take k blob)) as [-> ->]; [subst e; lia|]. split.
    + rewrite take_app. apply Forall_app. split; [done|]. unfold zeros. rewrite take_replicate. by apply Forall_replicate.
    + rewrite drop_drop, drop_ge by lia. rewrite app_nil_r. apply prefix_take.
  - destruct (copy_at_parts img n (take k blob)) as [-> ->]; [subst e; lia|]. split; [done|].
    assert (length (take k blob) ≤ length (drop n img)) as Hlen by (rewrite length_drop; subst e; lia).
    exists rest. rewrite <-app_assoc, <-drop_app_le, <-Hp by done.
    rewrite length_take. rewrite <-(take_drop k blob) at 1. f_equal.
    destruct (Nat.le_gt_cases k (length blob)); [by replace (k `min` length blob) with k by lia|].
    by rewrite !drop_ge by lia.
Qed.

Section FirstUse.
Context `{Engine}.
Context (blob : bytes) (Hblob : encode_snapshot 0 new_store_docs = Ok blob).
Context (schema_stable : json_stable (json_num FORMAT_WITH_WORKFLOW)).

Abbreviation HB := (N.to_nat HEADER_BYTES).

(** The state of a new store. *)
Definition new_store : DocState :=
  {| st_docs := new_store_docs; st_tables := ∅; st_vectors := ∅; st_last_seq := 0 |}.

(** An [init_empty] cut short: the header is zero as far as it goes, and what
    follows it is a prefix of the first snapshot. *)
Definition blank (img : bytes) : Prop :=
  Forall (λ b, b = zero) (take HB img) ∧ drop HB img `prefix_of` blob.

Lemma new_store_snapshot : encode_state_snapshot new_store = Ok blob.
Proof. exact Hblob. Qed.

Lemma new_store_ok : state_ok new_store.
Proof.
  split; cbn.
  - apply canonical_insert, map_Forall_empty.
  - intros c i d. unfold new_store_docs. rewrite doc_get_insert. case_decide as Hd.
    + destruct Hd as [<- <-]. intros [= <-]. split_and!; [reflexivity..|apply schema_stable].
    + unfold doc_get. by rewrite lookup_empty.
  - apply map_Forall_empty.
  - apply map_Forall_empty.
  - done.
Qed.

Lemma all_zero_eq (l : bytes) : Forall (λ b, b = zero) l → l = zeros (length l).
Proof. induction 1 as [|b l -> _ IH]; cbn; [done|]. by rewrite IH at 1. Qed.

Lemma blank_slot img i s : blank img → i < 2 → slot_of img i = Some s → s = zeros SLOT_LEN.
Proof.
  intros [Hz _] Hi Hs. apply get_range_Some in Hs as [Hl ->].
  rewrite <-(take_drop HB img), drop_app_le by (rewrite length_take; unfold HEADER_BYTES, SLOT_LEN in *; lia).
  rewrite take_app_le by (rewrite length_drop, length_take; unfold HEADER_BYTES, SLOT_LEN in *; lia).
  rewrite (all_zero_eq _ Hz), drop_zeros. unfold zeros at 1. rewrite take_replicate. unfold zeros. f_equal.
  rewrite length_take. unfold HEADER_BYTES, SLOT_LEN in *. lia.
Qed.

Lemma zeros_invalid : parse_superblock (zeros SLOT_LEN) = Invalid.
Proof. vm_compute. reflexivity. Qed.

Lemma blank_unused img : blank img → img_superblock img = Ok None.
Proof.
  intros Hb. unfold img_superblock.
  assert (∀ i, i < 2 → img_slot (len img) None i img = Ok None) as Hs.
  { intros i Hi. unfold img_slot. destruct (N.ltb_spec (len img) (slot_offset i + N.of_nat SLOT_LEN)) as [|Hl]; [done|].
    rewrite img_at_slot. destruct (slot_of img i) as [s|] eqn:Es.
    - cbn [result_bind]. rewrite (blank_slot _ _ _ Hb Hi Es). unfold pick_slot. by rewrite zeros_invalid.
    - exfalso. unfold slot_of, get_range in Es. case_decide; [done|]. unfold slot_offset, len in Hl. lia. }
  rewrite !Hs by lia. cbn [result_bind]. by apply Hs; lia.
Qed.

(** ** What a cut of [init_empty] leaves *)

Lemma blank_resize img : blank img → vec_resize img HB = zeros HB.
Proof.
  intros [Hz _]. unfold vec_resize. rewrite (all_zero_eq _ Hz), <-zeros_add. f_equal. rewrite length_take. lia.
Qed.

Lemma blank_zeros : blank (zeros HB).
Proof.
  split; [unfold zeros; rewrite take_replicate; apply Forall_replicate; done|].
  rewrite drop_zeros, Nat.sub_diag. apply prefix_nil.
Qed.

Lemma blank_write img k : blank img → blank (write_into img HEADER_BYTES (take k blob)).
Proof. apply prefix_write. Qed.

Lemma btree_iter_singleton {A} k (a : A) : btree_iter (<[k := a]> ∅) = [(k, a)].
Proof. unfold btree_iter. by rewrite insert_empty, map_to_list_singleton. Qed.

(** A snapshot of one document is far from the end of the address space. *)
Lemma one_doc_len seq docs c i v b : docs_iter docs = [(c, i, v)] → encode_snapshot seq docs = Ok b →
  (len b ≤ 3 * u32_max + 64)%N.
Proof.
  intros Hd. unfold encode_snapshot, snapshot_docs. rewrite Hd. generalize (u32_try (docs_len docs)). intros [n|]; [|done].
  cbn [ok_or result_bind write_many write_doc].
  destruct (write_str c) as [w1|] eqn:E1; cbn [result_bind]; [|done].
  destruct (write_str i) as [w2|] eqn:E2; cbn [result_bind]; [|done].
  destruct (write_json v) as [w3|] eqn:E3; cbn [result_bind]; [|done]. intros <-%Ok_bytes.
  assert (∀ b w, write_lp b = Ok w → (len w ≤ 4 + u32_max)%N) as Hlp.
  { intros b w [Hl ->]%write_lp_ok. unfold len in *. rewrite length_app, length_u32. lia. }
  assert (len w3 ≤ 4 + u32_max)%N as H3.
  { unfold write_json, json_bytes in E3. destruct (to_vec v); cbn in E3; [by eapply Hlp|done]. }
  apply Hlp in E1, E2. unfold seal, len in *. rewrite !length_app, !length_u32, length_u64.
  change (length SNAP_MAGIC) with 8. cbn [length]. lia.
Qed.

Lemma first_blob_len : (HEADER_BYTES + len blob ≤ u64_max)%N.
Proof.
  assert (len blob ≤ 3 * u32_max + 64)%N as Hl; [|unfold HEADER_BYTES, u64_max, u32_max in *; lia].
  eapply one_doc_len; [|exact Hblob]. unfold docs_iter, new_store_docs, doc_insert. rewrite lookup_empty. cbn [default].
  rewrite btree_iter_singleton. cbn [map concat]. rewrite btree_iter_singleton. cbn [map app]. reflexivity.
Qed.

Lemma survive_set_len img fate img' : blank img → survive img (SetLen HEADER_BYTES) fate = Some img' → blank img'.
Proof.
  intros Hb. destruct fate as [|[|k]]; cbn [survive apply_data]; [by intros [= <-]| |done].
  rewrite blank_resize by done. intros [= <-]. apply blank_zeros.
Qed.

Lemma survive_blob img fate img' : blank img → survive img (Write HEADER_BYTES blob) fate = Some img' → blank img'.
Proof.
  intros Hb. destruct fate as [|[|k]]; cbn [survive apply_data]; [by intros [= <-]| |].
  - intros [= <-]. rewrite <-(take_ge blob (length blob)) by done. by apply blank_write.
  - destruct (tear_points _ _ !! k); cbn [mbind option_bind]; [|done]. intros [= <-]. by apply blank_write.
Qed.

(** The file of a first use that has not finished. *)
Definition unfinished (f : Inode) : Prop := ∀ fates img, survivor f fates = Some img →
  blank img ∨ ∃ sb, good img 0 sb new_store.

Lemma unfinished_pending img pending live : blank img →
  pending `prefix_of` [SetLen HEADER_BYTES; Write HEADER_BYTES blob] →
  unfinished {| ino_live := live; ino_durable := img; ino_pending := pending |}.
Proof.
  intros Hb Hp fates img' Hs. left. unfold survivor in Hs. cbn [ino_durable ino_pending] in Hs.
  destruct pending as [|op pending]; [destruct fates; [by injection Hs as <-|done]|].
  apply prefix_cons_inv_1 in Hp as Ho. apply prefix_cons_inv_2 in Hp. subst op.
  destruct fates as [|fate fates]; [done|]. cbn [survive_all] in Hs.
  destruct (survive img _ fate) as [i1|] eqn:E1; cbn [mbind option_bind] in Hs; [|done].
  apply survive_set_len in E1; [|done].
  destruct pending as [|op pending]; [destruct fates; [by injection Hs as <-|done]|].
  apply prefix_cons_inv_1 in Hp as Ho. apply prefix_cons_inv_2, prefix_nil_inv in Hp. subst op pending.
  destruct fates as [|fate2 fates]; [done|]. cbn [survive_all] in Hs.
  destruct (survive i1 _ fate2) as [i2|] eqn:E2; cbn [mbind option_bind] in Hs; [|done].
  destruct fates; [|done]. injection Hs as <-. by eapply survive_blob.
Qed.

Definition first_sb : Superblock :=
  {| sb_epoch := 1; sb_snapshot_offset := HEADER_BYTES; sb_snapshot_length := len blob;
     sb_wal_offset := HEADER_BYTES + len blob; sb_wal_length := 0; sb_snapshot_seq := 0 |}.

Abbreviation first_image := (write_into (zeros HB) HEADER_BYTES blob).

Lemma first_image_blank : blank first_image.
Proof. rewrite <-(take_ge blob (length blob)) at 1 by done. apply blank_write, blank_zeros. Qed.

Lemma first_image_slot i : i < 2 → slot_of first_image i = Some (zeros SLOT_LEN).
Proof.
  intros Hi. destruct (slot_of first_image i) as [s|] eqn:Es.
  - f_equal. by eapply blank_slot; [apply first_image_blank| |].
  - exfalso. unfold slot_of, get_range in Es. case_decide as Hc; [done|]. apply Hc.
    assert (HB ≤ length first_image) as Hl.
    { etransitivity; [|exact (write_into_length (zeros HB) HEADER_BYTES blob)]. unfold zeros. by rewrite length_replicate. }
    unfold HEADER_BYTES, SLOT_LEN in *. lia.
Qed.

Lemma first_image_holds : holds first_image first_sb new_store.
Proof.
  refine (holds_checkpoint first_image 1 HEADER_BYTES new_store blob new_store_ok new_store_snapshot _ _ first_blob_len _).
  - unfold u64_max. lia.
  - apply N.le_refl.
  - exact (write_into_read (zeros HB) HEADER_BYTES blob).
Qed.

Lemma first_image_good :
  good (write_into first_image (slot_offset 0) (encode_superblock first_sb)) 0 first_sb new_store.
Proof.
  apply write_target_good; [lia|rewrite first_image_slot by lia; by eexists| |apply first_image_holds].
  exists (zeros SLOT_LEN). split_and!.
  - apply first_image_slot. cbn. lia.
  - left. apply zeros_invalid.
  - apply drop_zeros.
Qed.

Lemma zeros_clean : clean (zeros SLOT_LEN).
Proof. apply drop_zeros. Qed.

#[local] Opaque write_into vec_resize.

(** What the rest of the handle keeps through a first use. *)
Definition same_handle (d d' : Disk) : Prop :=
  d_cache d' = d_cache d ∧ d_id d' = d_id d ∧ d_poison d' = d_poison d ∧ d_name_durable d' = d_name_durable d.

Lemma wp_set_len n d (Q : Result unit StoreError → Disk → Prop) :
  (∀ l, Q (Ok tt) (push_data (SetLen n) (set_faults d l))) → (∀ e l, Q (Err e) (set_faults d l)) → wp (set_len n) d Q.
Proof. intros H1' H2'. apply wp_bind, wp_step; [apply H1'|apply H2']. Qed.

Ltac same := unfold same_handle; repeat split.

Lemma wp_first_slot d : d_file d = Inode_new first_image →
  wp (io _ := write_slot 0 first_sb in sync) d (fun r d' => same_handle d d' ∧ match r with
    | Ok _ => quiet (d_file d') 0 first_sb new_store
    | Err _ => unfinished (d_file d')
    end).
Proof.
  intros Hf. apply wp_bind. unfold write_slot. cbn [Nat.ltb Nat.leb]. apply wp_write.
  2: { intros e l. split; [same|]. cbn [set_faults d_file]. rewrite Hf.
       apply unfinished_pending; [apply first_image_blank|apply prefix_nil]. }
  intros l4. apply wp_sync.
  - intros l5. split; [same|]. cbn [flush_file set_faults d_file push_data set_file ino_live]. rewrite Hf.
    apply quiet_new, first_image_good.
  - intros e l5. split; [same|]. cbn [set_faults d_file push_data set_file]. rewrite Hf. intros fates img' Hs.
    unfold survivor in Hs. cbn [Inode_new ino_durable ino_pending app] in Hs.
    destruct fates as [|fate [|]]; cbn [survive_all] in Hs; [done| |by destruct (survive _ _ _)].
    destruct (survive _ _ _) as [i|] eqn:Es; cbn [mbind option_bind] in Hs; [|done]. injection Hs as <-.
    destruct (survive_slot _ 0 _ _ _ _ (first_image_slot 0 ltac:(lia)) zeros_clean Es) as [->| ->].
    + left. apply first_image_blank.
    + right. exists first_sb. apply first_image_good.
Qed.

Lemma wp_init_empty d img : d_file d = Inode_new img → blank img →
  wp init_empty d (fun r d' => same_handle d d' ∧ match r with
    | Ok _ => quiet (d_file d') 0 first_sb new_store
    | Err _ => unfinished (d_file d')
    end).
Proof.
  intros Hf Hb. unfold init_empty. apply wp_bind, wp_lift. rewrite Hblob.
  assert (∀ pending live, pending `prefix_of` [SetLen HEADER_BYTES; Write HEADER_BYTES blob] →
    unfinished {| ino_live := live; ino_durable := img; ino_pending := pending |}) as Hun.
  { intros pending live Hp. by apply unfinished_pending. }
  apply wp_bind, wp_set_len.
  2: { intros e l. split; [same|]. cbn [set_faults d_file]. rewrite Hf. apply Hun, prefix_nil. }
  intros l1. apply wp_bind, wp_write.
  2: { intros e l. split; [same|]. cbn [set_faults d_file push_data set_file]. rewrite Hf. apply Hun.
       by exists [Write HEADER_BYTES blob]. }
  intros l2. apply wp_bind, wp_sync.
  2: { intros e l. split; [same|]. cbn [set_faults d_file push_data set_file]. rewrite Hf. by apply Hun. }
  intros l3. cbv zeta. fold first_sb. set (d3 := flush_file _).
  assert (d_file d3 = Inode_new first_image) as Hf3.
  { subst d3. cbn [flush_file set_faults d_file push_data set_file ino_live]. rewrite Hf. cbn [Inode_new ino_live apply_data].
    rewrite blank_resize by exact Hb. reflexivity. }
  assert (same_handle d d3) as Hsame by same. clearbody d3.
  eapply wp_mono; [by apply wp_first_slot|]. intros r d' [(E1&E2&E3&E4) Hr]. split; [|exact Hr].
  destruct Hsame as (F1&F2&F3&F4). unfold same_handle. rewrite E1, E2, E3, E4. auto.
Qed.

(** First use writes only a file that an interrupted first use could have left. *)
Lemma wp_ensure d (Q : Result bool StoreError → Disk → Prop) img : d_file d = Inode_new img →
  (∀ r l, (blank img → r ≠ Ok false) → r ≠ Ok true → Q r (set_faults d l)) →
  (∀ r d', blank img → same_handle d d' →
     match r with Ok b => b = true ∧ quiet (d_file d') 0 first_sb new_store | Err _ => unfinished (d_file d') end → Q r d') →
  wp ensure_superblock d Q.
Proof.
  intros Hf Hkeep Hinit. unfold ensure_superblock.
  assert (ino_live (d_file d) = img) as Hlive by (by rewrite Hf).
  assert (∀ l, blank img → wp (io _ := init_empty in io_ret true) (set_faults d l) Q) as Hrun.
  { intros l Hb. apply wp_bind. eapply wp_mono; [apply (wp_init_empty _ img); [exact Hf|exact Hb]|].
    intros [[]|e] d' [Hs Hr]; [apply wp_ret|]; apply Hinit; [exact Hb|exact Hs|by split|exact Hb|exact Hs|exact Hr]. }
  assert (∀ e l, Q (Err e) (set_faults d l)) as Herr by (intros; apply Hkeep; discriminate).
  apply wp_bind. eapply wp_pure; [apply pure_superblock| |intros; apply Herr]. intros l. rewrite Hlive.
  destruct (img_superblock img) as [found|e] eqn:Efound; [|apply Herr].
  destruct found as [x|]; cbn [is_some].
  { apply wp_ret, Hkeep; [|discriminate]. intros Hb. rewrite (blank_unused _ Hb) in Efound. done. }
  apply wp_bind, wp_step; [|intros; apply Herr]. intros l1.
  apply wp_bind. eapply wp_pure; [apply pure_superblock| |intros; apply Herr]. intros l2.
  cbn [set_faults d_file]. rewrite Hlive, Efound. cbn [is_some].
  apply wp_bind. eapply wp_pure; [apply pure_len| |intros; apply Herr]. intros l3.
  cbn [set_faults d_file]. rewrite Hlive. destruct (N.eqb_spec (len img) 0) as [E0|E0].
  { apply Hrun. destruct img; [split; [by rewrite take_nil|rewrite drop_nil; apply prefix_nil]|]. unfold len in E0. cbn in E0. lia. }
  apply wp_bind. eapply wp_pure; [apply pure_read_at| |intros; apply Herr]. intros l4.
  cbn [set_faults d_file]. rewrite Hlive. unfold img_at.
  assert (get_range img (N.to_nat 0) (N.to_nat (N.min (len img) HEADER_BYTES)) = Some (take HB img)) as ->.
  { apply get_range_Some. unfold len. change (N.to_nat 0) with 0. rewrite drop_0. split; [lia|].
    destruct (N.min_spec (N.of_nat (length img)) HEADER_BYTES) as [[Hlt ->]|[_ ->]]; [|done].
    rewrite !take_ge by lia. done. }
  destruct (existsb _ (take HB img)) eqn:Ez.
  { apply wp_ret, Hkeep; [|discriminate]. intros [Hz _]. exfalso. apply existsb_exists in Ez as (b&Hin%list_elem_of_In&Hb).
    rewrite Forall_forall in Hz. rewrite (Hz b Hin) in Hb. by rewrite bool_decide_true in Hb. }
  assert (Forall (λ b, b = zero) (take HB img)) as Hz.
  { apply Forall_forall. intros b Hin. destruct (decide (b = zero)) as [|Hne]; [done|]. exfalso.
    apply not_true_iff_false in Ez. apply Ez, existsb_exists. exists b. split; [by apply list_elem_of_In|].
    by rewrite bool_decide_false. }
  destruct (N.ltb_spec HEADER_BYTES (len img)) as [Hlong|Hshort].
  2: { apply Hrun. split; [exact Hz|]. rewrite drop_ge by (unfold len in Hshort; lia). apply prefix_nil. }
  apply wp_bind, wp_lift. rewrite Hblob. cbv zeta.
  assert (N.to_nat (len img - HEADER_BYTES) = length (drop HB img)) as Htail by (rewrite length_drop; unfold len; lia).
  rewrite Htail. destruct (Nat.ltb_spec (length blob) (length (drop HB img))) as [Hlt|Hge].
  { apply wp_ret, Hkeep; [|discriminate]. intros [_ Hp%prefix_length]. exfalso. lia. }
  apply wp_bind. eapply wp_pure; [apply pure_read_at| |intros; apply Herr]. intros l5.
  cbn [set_faults d_file]. rewrite Hlive. unfold img_at.
  assert (get_range img HB (length (drop HB img)) = Some (drop HB img)) as ->.
  { apply get_range_Some. split; [unfold len in *; lia|]. by rewrite take_ge. }
  case_bool_decide as Hheld; cbn [negb].
  - apply Hrun. split; [exact Hz|]. rewrite Hheld. apply prefix_take.
  - apply wp_ret, Hkeep; [|discriminate]. intros [_ [rest Hp]]. exfalso. apply Hheld. rewrite Hp. by rewrite take_app_length.
Qed.
End FirstUse.

Lemma blank_nil `{Json} blob : blank blob [].
Proof. unfold blank. rewrite take_nil, drop_nil. split; [constructor|apply prefix_nil]. Qed.

(** A file whose first byte is not zero was used for something. *)
Lemma not_blank `{Json} blob (b : ascii) img : b ≠ zero → ¬ blank blob (b :: img).
Proof.
  intros Hb [Hz _]. destruct (N.to_nat HEADER_BYTES) as [|n] eqn:E; [unfold HEADER_BYTES in E; lia|].
  cbn [take] in Hz. apply Forall_cons in Hz as [Hz _]. done.
Qed.
#[global] Opaque blank.

(** ** Opening *)

Section Open.
Context `{Engine}.
Context (blob : bytes) (Hblob : encode_snapshot 0 new_store_docs = Ok blob).
Context (schema_stable : json_stable (json_num FORMAT_WITH_WORKFLOW)).

Lemma number_ops batches : ∀ from ws, Forall2 frame_of (number from batches) ws → Forall (Forall op_ok) batches.
Proof.
  induction batches as [|ops batches IH]; intros from ws; cbn [number]; [constructor|].
  intros (w&ws'&(_&_&Hops)&Hf&->)%Forall2_cons_inv_l. constructor; [exact Hops|]. by eapply IH.
Qed.

Lemma commits_ok batches : ∀ st st', state_ok st → Forall (Forall op_ok) batches →
  for_fold commit_ops st batches = Ok st' → state_ok st'.
Proof.
  induction batches as [|ops batches IH]; intros st st' Hok Hops; cbn [for_fold]; [by intros [= <-]|].
  apply Forall_cons in Hops as [Hop Hops]. destruct (commit_ops st ops) as [s1|] eqn:E; cbn [result_bind]; [|done].
  apply IH; [|done]. by eapply commit_ops_ok.
Qed.

Lemma good_state_ok img index sb st : good img index sb st → state_ok st.
Proof.
  intros [_ _ _ [_ _ (st0&b&batches&ws&Hok&_&_&_&_&Hf&_&Hrun)]]. eapply commits_ok; [exact Hok| |exact Hrun].
  by eapply number_ops.
Qed.

(** What an earlier run left: the state an open will find. *)
Definition names_state (img : bytes) (st : DocState) : Prop :=
  (blank blob img ∧ st = new_store) ∨ ∃ index sb, good img index sb st.

Definition recoverable (f : Inode) (st : DocState) : Prop :=
  ∀ fates img, survivor f fates = Some img → names_state img st.

Lemma quiet_recoverable f index sb st : quiet f index sb st → recoverable f st.
Proof. intros Hq fates img Hs. right. exists index, sb. by eapply quiet_survivor. Qed.

Lemma new_recoverable img st : names_state img st → recoverable (Inode_new img) st.
Proof. intros Hn fates img' Hs. destruct fates; [by injection Hs as <-|done]. Qed.

(** From the superblock on, opening only reads. *)
Lemma wp_open_rest d index sb st created initialized : quiet (d_file d) index sb st → d_poison d = false →
  wp (io x := latest_superblock in
      io d := io_get in
      io seed := load_full (d_id d) x.2 in
      io _ := (if created || initialized then io _ := io_step in io_modify set_name_durable else io_ret tt) in
      io_modify (fun d => set_cache d (Some seed))) d
    (fun r d' => match r with Ok _ => steady d' st | Err _ => recoverable (d_file d') st end).
Proof.
  intros Hq Hp. pose proof (quiet_live _ _ _ _ Hq) as Hg. pose proof (quiet_recoverable _ _ _ _ Hq) as Hrec.
  apply wp_bind. eapply wp_pure; [apply pure_latest| |intros; exact Hrec]. intros l1.
  unfold img_latest. rewrite (good_latest _ _ _ _ Hg). cbn [result_bind ok_or]. apply wp_get.
  apply wp_bind. eapply wp_pure; [apply pure_load_full| |intros; exact Hrec]. intros l2. cbn [set_faults d_file snd d_id].
  rewrite (holds_load _ _ _ (gd_holds _ _ _ _ Hg)). cbn [result_bind fst snd].
  assert (∀ d', d_file d' = d_file d → d_poison d' = d_poison d → d_id d' = d_id d →
    steady (set_cache d' (Some (entry (d_id d) sb st))) st) as Hend.
  { intros d' E1 E2 E3. exists index, sb. split; cbn [set_cache d_file d_poison d_cache d_id].
    - by rewrite E1.
    - by rewrite E2.
    - intros c [= <-]. by rewrite E3.
    - by eapply good_state_ok. }
  apply wp_bind. destruct (created || initialized).
  - apply wp_bind, wp_step; [|intros; exact Hrec]. intros l3. apply wp_modify, wp_modify, Hend; reflexivity.
  - apply wp_ret, wp_modify, Hend; reflexivity.
Qed.

(** (C6) Opening a store finds the state an earlier run left, whether the file
    names one or its first use was cut short; and whatever fails or is cut while
    it opens, the file still opens to that state. *)
Theorem open_recovers d img st created :
  d_file d = Inode_new img → d_poison d = false → names_state img st →
  match open_container created d with
  | (Ok _, d') => steady d' st
  | (Err _, d') => recoverable (d_file d') st
  end.
Proof.
  intros Hf Hp Hn. enough (wp (open_container created) d (fun r d' =>
    match r with Ok _ => steady d' st | Err _ => recoverable (d_file d') st end)) as Hw.
  { unfold wp in Hw. by destruct (open_container created d) as [[]]. }
  apply wp_bind. eapply wp_ensure; [exact Hblob|exact schema_stable|exact Hf| |].
  - intros r l Hb Ht. destruct r as [b|e].
    + destruct b; [exfalso; by apply Ht|]. destruct Hn as [[Hbl _]|(index&sb&Hg)]; [exfalso; by apply (Hb Hbl)|].
      apply (wp_open_rest _ index sb); [|exact Hp]. cbn [set_faults d_file]. rewrite Hf. by apply quiet_new.
    + cbn [set_faults d_file]. rewrite Hf. by apply new_recoverable.
  - intros r d' Hbl (_&_&Hp'&_) Hr.
    assert (st = new_store) as ->.
    { destruct Hn as [[_ ->]|(index&sb&Hg)]; [done|]. apply good_latest in Hg. rewrite (blank_unused blob) in Hg by done. done. }
    destruct r as [b|e].
    + destruct Hr as [-> Hq]. eapply wp_open_rest; [exact Hq|congruence].
    + intros fates img' Hs. destruct (Hr fates img' Hs) as [Hb|[sb Hg]]; [left; by split|right; by exists 0, sb].
Qed.

(** Opening writes to a file only when it is what an interrupted first use
    leaves (a header that is zero as far as it goes, then a prefix of the first
    snapshot): any other file is left as it is, byte for byte, read or refused. *)
Theorem open_never_overwrites d img created :
  d_file d = Inode_new img → ¬ blank blob img → d_file (open_container created d).2 = Inode_new img.
Proof.
  intros Hf Hnb. change (wp (open_container created) d (fun _ d' => d_file d' = Inode_new img)).
  assert (∀ r d', d_file d' = Inode_new img →
    wp (io x := latest_superblock in
      io d := io_get in
      io seed := load_full (d_id d) x.2 in
      io _ := (if created || r then io _ := io_step in io_modify set_name_durable else io_ret tt) in
      io_modify (fun d => set_cache d (Some seed))) d' (fun _ d' => d_file d' = Inode_new img)) as Hrest.
  { intros r d' Hd'. apply wp_bind. eapply wp_pure; [apply pure_latest| |intros; exact Hd']. intros l1.
    destruct (img_latest _); [|exact Hd']. apply wp_get, wp_bind.
    eapply wp_pure; [apply pure_load_full| |intros; exact Hd']. intros l2.
    cbv beta. match goal with |- match ?r with Ok _ => _ | Err _ => _ end => destruct r; [|exact Hd'] end. apply wp_bind. destruct (created || r).
    - apply wp_bind, wp_step; [|intros; exact Hd']. intros l3. apply wp_modify, wp_modify. exact Hd'.
    - apply wp_ret, wp_modify. exact Hd'. }
  apply wp_bind. eapply wp_ensure; [exact Hblob|exact schema_stable|exact Hf| |intros; exfalso; by apply Hnb].
  intros r l _ _. destruct r; [apply Hrest; exact Hf|exact Hf].
Qed.
End Open.
