(* ===== verification/FlsGroup.v ===== *)
(** * Group commit ([group.rs])

    Writers on one handle queue; the leader takes what is queued, runs each
    member's body in turn against the group's running state, and publishes the
    frames of the members that wrote, in publishes of at most [GROUP_BYTES].

    A member is its body: what it stages over the state it is given, or an
    error (a panic is one). The threads, their condition variables and the
    adapter's deliveries are not modelled: a body runs when it is its turn, and
    an acknowledged member is its result.

    The theorem is what a member's result means for the disk: a member that was
    acknowledged is in every state a power cut can leave, whatever failed since;
    one that was not acknowledged is in none, or was in the last publish. *)

From S2P Require Import Prelude RustStr Ledger FlsBytes FlsCrc FlsModel FlsVector FlsLayout FlsSnapshot FlsState FlsDisk FlsCrash FlsOpen.

Definition GROUP_BYTES : N := N.shiftl 4 20.
Definition GROUP_MEMBERS : nat := 64.

(** [Leadership::results]: the sequence a member took, if it wrote. *)
Abbreviation Results := (list (option (Result (option N) StoreError))).

Section Group.
Context `{Engine}.

Record Staged := { sg_ops : list Op; sg_overlay : Overlay }.

(** A member's body. *)
Definition Body : Type := DocState → Result (option Staged) StoreError.

Record Running := {
  rn_index : nat;
  rn_base : DiskCache;
  rn_published : bool;
  rn_first : option (Overlay * N);
  rn_state : option DocState;
}.

Definition running_last_seq (r : Running) : N :=
  match rn_first r, rn_state r with
  | Some (_, seq), _ => seq
  | None, Some state => st_last_seq state
  | None, None => st_last_seq (dc_state (rn_base r))
  end.

Definition set_changes (r : Running) (first : option (Overlay * N)) (state : option DocState) : Running :=
  {| rn_index := rn_index r; rn_base := rn_base r; rn_published := rn_published r;
     rn_first := first; rn_state := state |}.

Definition turn_state (r : Running) : Running * DocState :=
  let r := match rn_first r with
           | Some (overlay, seq) =>
               set_changes r None (Some (publish_overlay (dc_state (rn_base r)) overlay seq))
           | None => r
           end in
  (r, default (dc_state (rn_base r)) (rn_state r)).

(** [Running::add] *)
Definition running_add (r : Running) (overlay : Overlay) (seq : N) : Running :=
  match rn_state r with
  | Some state => set_changes r (rn_first r) (Some (publish_overlay state overlay seq))
  | None => set_changes r (Some (overlay, seq)) None
  end.

Definition take_change (r : Running) : option Change :=
  match rn_first r, rn_state r with
  | Some (overlay, seq), _ => Some (COverlay overlay seq)
  | None, Some state => Some (CState state)
  | None, None => None
  end.

Record Pending := {
  pd_frames : list bytes;
  pd_bytes : N;
  pd_committed : list (nat * N);
  pd_readers : list nat;
}.

Definition Pending_default : Pending := {| pd_frames := []; pd_bytes := 0; pd_committed := []; pd_readers := [] |}.

Definition copy_error (err : StoreError) : StoreError :=
  match err with
  | SBackend detail => SBackend detail
  | SContainerFormat store found engine unknown newest => SContainerFormat store found engine unknown newest
  | SFormatVersion found oldest newest => SFormatVersion found oldest newest
  | other => SBackend (store_display other)
  end.

Definition fail_rest (results : Results) (err : StoreError) : Results :=
  map (fun r => match r with None => Some (Err (copy_error err)) | Some _ => r end) results.

(** The two loops of [publish] over the members it carries. *)
Definition acknowledge (pending : Pending) (results : Results) : Results :=
  let results := foldl (fun rs x => <[x.1 := Some (Ok (Some x.2))]> rs) results (pd_committed pending) in
  foldl (fun rs pos => <[pos := Some (Ok None)]> rs) results (pd_readers pending).

Definition publish (r : Running) (pending : Pending) (results : Results) : Io (Running * Results) :=
  io published := publish_or_settle (rn_index r) (rn_base r) (pd_frames pending) in
  io r := match published with
          | None => io_ret r
          | Some new_sb =>
              io change := io_lift (ok_or (take_change r) (backend "a publish with frames has no change")) in
              io base := install_commit (rn_base r) new_sb change in
              io_ret {| rn_index := other_slot (rn_index r); rn_base := base; rn_published := true;
                        rn_first := None; rn_state := None |}
          end in
  io_ret (r, acknowledge pending results).

(** The sequence and the frame of what a body staged. *)
Definition framed (last_seq : N) (staged : Staged) : Result (N * bytes) StoreError :=
  let? seq := ok_or (checked_add64 last_seq 1) (backend "transaction sequence overflow") in
  let? frame := encode_frame seq (sg_ops staged) in
  Ok (seq, frame).

(** [run_group]: the loop over the members, then the last publish. The running
    state is [None] when a publish failed. *)
Fixpoint run_members (members : list Body) (pos : nat) (r : Running) (pending : Pending) (results : Results)
    : Io (option Running * Results) :=
  match members with
  | [] =>
      io done_ := io_try (publish r pending results) in
      match done_ with
      | Ok (r, results) => io_ret (Some r, results)
      | Err err => io_ret (None, fail_rest results err)
      end
  | body :: rest =>
      let '(r, state) := turn_state r in
      match body state with
      | Ok None =>
          run_members rest (S pos) r
            {| pd_frames := pd_frames pending; pd_bytes := pd_bytes pending;
               pd_committed := pd_committed pending; pd_readers := pd_readers pending ++ [pos] |} results
      | Err err => run_members rest (S pos) r pending (<[pos := Some (Err err)]> results)
      | Ok (Some staged) =>
          match framed (running_last_seq r) staged with
          | Err err => run_members rest (S pos) r pending (<[pos := Some (Err err)]> results)
          | Ok (seq, frame) =>
              io room := (if negb (bool_decide (pd_frames pending = []))
                             && (GROUP_BYTES <? pd_bytes pending + len frame)%N
                          then
                            io next := io_try (publish r pending results) in
                            io_ret (let? (r, results) := next in Ok (r, Pending_default, results))
                          else io_ret (Ok (r, pending, results))) in
              match room with
              | Err err => io_ret (None, fail_rest results err)
              | Ok (r, pending, results) =>
                  run_members rest (S pos) (running_add r (sg_overlay staged) seq)
                    {| pd_frames := pd_frames pending ++ [frame]; pd_bytes := pd_bytes pending + len frame;
                       pd_committed := pd_committed pending ++ [(pos, seq)]; pd_readers := pd_readers pending |}
                    results
              end
          end
      end
  end.

(** [lead_group] on what is queued; the flag is whether a checkpoint is due. *)
Definition lead_group (queue : list Body) : Io (bool * Results) :=
  io locked := io_try (io _ := poison_check in io _ := lock_current in refresh) in
  let members := take GROUP_MEMBERS queue in
  let results := replicate (length members) None in
  match locked with
  | Err err => io_ret (false, fail_rest results err)
  | Ok (index, base) =>
      io x := run_members members 0 {| rn_index := index; rn_base := base; rn_published := false;
                                       rn_first := None; rn_state := None |} Pending_default results in
      io d := io_get in
      io_ret (match x.1 with
              | Some r => rn_published r && checkpoint_due d (rn_base r)
              | None => false
              end, x.2)
  end.

(** A leader's [group_write]: its group, then the checkpoint that is due. *)
Definition group_round (queue : list Body) : Io Results :=
  io x := lead_group queue in
  io _ := (if x.1 then io _ := auto_checkpoint in io_ret tt else io_ret tt) in
  io_ret x.2.
End Group.

(** ** What a result means for the disk *)

Section GroupProof.
Context `{Engine}.

(** A body as a transaction makes it: its overlay is its operations, staged over
    the state it was given. *)
Definition body_ok (b : Body) : Prop := ∀ st staged, b st = Ok (Some staged) →
  sg_ops staged ≠ [] ∧ Forall op_ok (sg_ops staged)
  ∧ for_fold (fun o op => stage o st op) Overlay_default (sg_ops staged) = Ok (sg_overlay staged).

(** The state one member leaves, and the first [k]. *)
Definition member_step (st : DocState) (b : Body) : DocState :=
  match b st with
  | Ok (Some staged) =>
      match framed (st_last_seq st) staged with
      | Ok (seq, _) => publish_overlay st (sg_overlay staged) seq
      | Err _ => st
      end
  | _ => st
  end.

Definition after (st : DocState) (bodies : list Body) (k : nat) : DocState :=
  foldl member_step st (take k bodies).

Lemma after_S st bodies k b : bodies !! k = Some b → after st bodies (S k) = member_step (after st bodies k) b.
Proof. intros Hb. unfold after. by rewrite (take_S_r _ _ _ Hb), foldl_app. Qed.

Lemma framed_ok st staged seq frame : framed (st_last_seq st) staged = Ok (seq, frame) →
  seq = (st_last_seq st + 1)%N ∧ (seq ≤ u64_max)%N ∧ encode_frame seq (sg_ops staged) = Ok frame.
Proof.
  unfold framed, checked_add. destruct (N.leb_spec (st_last_seq st + 1) u64_max); cbn [ok_or result_bind]; [|done].
  destruct (encode_frame _ _) eqn:E; cbn [result_bind]; [|done]. by intros [= <- <-].
Qed.

Lemma staged_commits b st staged seq frame : body_ok b → b st = Ok (Some staged) →
  framed (st_last_seq st) staged = Ok (seq, frame) →
  commit_ops st (sg_ops staged) = Ok (publish_overlay st (sg_overlay staged) seq).
Proof.
  intros Hb Hst Hf. destruct (Hb _ _ Hst) as (Hne&_&Hov). apply framed_ok in Hf as (->&Hmax&_).
  unfold commit_ops. destruct (sg_ops staged) as [|op ops]; [done|]. unfold stage_ops, checked_add.
  rewrite (proj2 (N.leb_le _ _)) by done. cbn [ok_or result_bind]. rewrite Hov. done.
Qed.

Lemma member_step_ok st b : body_ok b → state_ok st → state_ok (member_step st b).
Proof.
  intros Hb Hok. unfold member_step. destruct (b st) as [[staged|]|] eqn:Est; [|done..].
  destruct (framed _ _) as [[seq frame]|] eqn:Ef; [|done]. eapply commit_ops_ok; [exact Hok| |].
  - by apply (Hb _ _ Est).
  - by eapply staged_commits.
Qed.

Lemma after_ok st bodies k : Forall body_ok bodies → state_ok st → state_ok (after st bodies k).
Proof.
  intros Hb Hok. unfold after. assert (Forall body_ok (take k bodies)) as Hk by (by apply Forall_take).
  revert st Hok. induction Hk as [|b l Hbl _ IH]; intros st Hok; cbn; [done|]. by apply IH, member_step_ok.
Qed.

(** *** The frames gathered since the last publish *)

Record gathered (base cur : DocState) (r : Running) (p : Pending) : Prop := {
  ga_state : match rn_first r, rn_state r with
             | Some (o, seq), None => publish_overlay base o seq = cur
             | None, Some s => s = cur
             | None, None => cur = base
             | Some _, Some _ => False
             end;
  ga_frames : ∃ batches, Forall (λ ops, ops ≠ []) batches
    ∧ Forall2 frame_of (number (st_last_seq base) batches) (pd_frames p)
    ∧ for_fold commit_ops base batches = Ok cur;
}.

Lemma gathered_turn base cur r p : dc_state (rn_base r) = base → gathered base cur r p →
  ∃ r', turn_state r = (r', cur) ∧ gathered base cur r' p ∧ rn_base r' = rn_base r ∧ rn_index r' = rn_index r
    ∧ rn_first r' = None ∧ running_last_seq r' = st_last_seq cur.
Proof.
  intros Hb [Hs Hf]. unfold turn_state. destruct (rn_first r) as [[o seq]|] eqn:E1, (rn_state r) as [s|] eqn:E2; [done|..].
  - eexists. split_and!; [cbn; by rewrite Hb, Hs| |done..|].
    + by split.
    + done.
  - eexists. split_and!; [cbn; rewrite ?E2; cbn; by rewrite Hs| |done..|].
    + split; [by rewrite E1, E2|done].
    + unfold running_last_seq. rewrite E1, E2. by rewrite Hs.
  - eexists. split_and!; [cbn; rewrite ?E2; cbn; by rewrite Hb, Hs| |done..|].
    + split; [by rewrite E1, E2|done].
    + unfold running_last_seq. rewrite E1, E2. by rewrite Hb, Hs.
Qed.

(** A running state that has run its turn takes one more commit. *)
Lemma gathered_add base cur r p b staged seq frame n c rs : canonical (st_docs base) → dc_state (rn_base r) = base →
  body_ok b → gathered base cur r p → rn_first r = None → b cur = Ok (Some staged) →
  framed (st_last_seq cur) staged = Ok (seq, frame) →
  gathered base (member_step cur b) (running_add r (sg_overlay staged) seq)
    {| pd_frames := pd_frames p ++ [frame]; pd_bytes := n; pd_committed := c; pd_readers := rs |}.
Proof.
  intros Hcan Hb Hbody [Hs (batches&Hne&Hf&Hrun)] Hr1 Hst Hfr. unfold member_step. rewrite Hst, Hfr. split.
  - unfold running_add. rewrite Hr1 in Hs. destruct (rn_state r) as [s|] eqn:E; cbn.
    + by rewrite Hr1, Hs.
    + by rewrite Hs.
  - destruct (Hbody _ _ Hst) as (Hops&Hok&_).
    destruct (commits_frames batches base cur 0 Hcan Hne ltac:(lia) Hrun) as (_&_&Hl&_).
    pose proof (framed_ok _ _ _ _ Hfr) as (Hseq&Hmax&Henc).
    exists (batches ++ [sg_ops staged]). split_and!.
    + apply Forall_app. by split; [|constructor].
    + rewrite number_app. cbn [pd_frames number]. apply Forall2_app; [done|]. constructor; [|constructor].
      rewrite <-Hl, <-Hseq. by split_and!.
    + rewrite for_fold_app, Hrun. cbn [result_bind for_fold]. by rewrite (staged_commits b cur staged seq frame).
Qed.

Lemma wp_publish_group d index sb base cur r p results : healthy d index sb base → state_ok cur →
  rn_base r = entry (d_id d) sb base → rn_index r = index → gathered base cur r p →
  wp (publish r p results) d (fun res d' => match res with
    | Ok (r', results') => results' = acknowledge p results ∧ ∃ index' sb', healthy d' index' sb' cur
        ∧ rn_base r' = entry (d_id d') sb' cur ∧ rn_index r' = index' ∧ gathered cur cur r' Pending_default
        ∧ (rn_first r = None → rn_first r' = None)
    | Err _ => healthy d' index sb base ∨ stopped d' base cur
    end).
Proof.
  intros Hh Hok Hb Hi [Hs (batches&Hne&Hf&Hrun)]. unfold publish. rewrite Hb, Hi. apply wp_bind.
  pose proof (hl_state _ _ _ _ Hh) as Hbase.
  destruct (commits_frames batches base cur 0 (so_canonical _ Hbase) Hne ltac:(lia) Hrun) as (_&_&Hl&_).
  destruct (decide (batches = [])) as [->|Hbne].
  - cbn in Hrun, Hf. injection Hrun as <-. apply Forall2_nil_inv_l in Hf. rewrite Hf. unfold wp at 1. cbn.
    apply wp_bind, wp_ret, wp_ret. split; [done|]. exists index, sb. split_and!; try done.
    split; [done|]. exists []. by split_and!; [constructor..|].
  - eapply wp_mono; [by eapply wp_publish|]. intros [o|e] d1 Hr; [|exact Hr].
    destruct Hr as (new_sb&Ho&He&Hsl). cbn in Ho. subst o.
    assert (∃ change, take_change r = Some change
      ∧ match change with COverlay o seq => publish_overlay base o seq | CState s => s end = cur) as (change&Hch&Hcur).
    { unfold take_change. destruct (rn_first r) as [[o seq]|], (rn_state r) as [s|]; [done|by eexists..|].
      exfalso. subst cur. destruct batches; [done|]. unfold len in Hl. cbn in Hl. lia. }
    apply wp_bind, wp_bind, wp_lift. rewrite Hch. cbn [ok_or]. apply wp_bind.
    assert (d_id d1 = d_id d) as Hid by apply Hsl. rewrite <-Hid.
    eapply wp_install; [exact Hh|exact Hsl|lia|exact Hok|exact Hcur|].
    intros d2 Hd2 Hid2. apply wp_ret, wp_ret. split; [done|]. exists (other_slot index), new_sb.
    split_and!; [done|cbn; by rewrite Hid2|done| |done]. split; [done|]. exists []. by split_and!; [constructor..|].
Qed.
End GroupProof.

(** *** The members' results *)

Section Answers.
Context `{Engine}.
Implicit Types (results : Results) (bodies : list Body).

Lemma insert_all_lookup {A} (l : list (nat * A)) : ∀ (rs : list A), NoDup l.*1 →
  length (foldl (fun rs x => <[x.1 := x.2]> rs) rs l) = length rs
  ∧ (∀ i v, (i, v) ∈ l → i < length rs → foldl (fun rs x => <[x.1 := x.2]> rs) rs l !! i = Some v)
  ∧ (∀ i, i ∉ l.*1 → foldl (fun rs x => <[x.1 := x.2]> rs) rs l !! i = rs !! i).
Proof.
  induction l as [|[j w] l IH]; intros rs Hn; [split_and!; [done|set_solver|done]|].
  cbn in Hn. apply NoDup_cons in Hn as [Hj Hn]. destruct (IH (<[j := w]> rs) Hn) as (H1'&H2'&H3'). cbn. split_and!.
  - by rewrite H1', length_insert.
  - intros i v [[= -> ->]|Hin]%elem_of_cons Hl.
    + rewrite H3' by done. by apply list_lookup_insert_eq.
    + apply H2'; [done|]. by rewrite length_insert.
  - intros i Hi. rewrite not_elem_of_cons in Hi. destruct Hi as [Hne Hi]. rewrite H3' by done.
    by apply list_lookup_insert_ne.
Qed.

(** Who a publish acknowledges. *)
Definition acks (p : Pending) : list (nat * option (Result (option N) StoreError)) :=
  map (fun x => (x.1, Some (Ok (Some x.2)))) (pd_committed p) ++ map (fun i => (i, Some (Ok None))) (pd_readers p).

Lemma foldl_map' {A B C} (f : C → B → C) (g : A → B) l : ∀ c, foldl f c (map g l) = foldl (fun c a => f c (g a)) c l.
Proof. induction l as [|a l IH]; intros c; cbn; [done|apply IH]. Qed.

Lemma acknowledge_acks p results : acknowledge p results = foldl (fun rs x => <[x.1 := x.2]> rs) results (acks p).
Proof. unfold acknowledge, acks. by rewrite foldl_app, !foldl_map'. Qed.

(** What the result of member [i] may be when the first [k] are durable. *)
Definition answer (st : DocState) bodies (k i : nat) (r : Result (option N) StoreError) : Prop :=
  match r with
  | Ok (Some seq) => i < k ∧ seq = st_last_seq (after st bodies (S i))
  | Ok None => i < k ∧ after st bodies (S i) = after st bodies i
  | Err _ => k ≤ i ∨ after st bodies (S i) = after st bodies i
  end.

(** The results while member [p] is next: an answer, or waiting for a publish. *)
Record answers (st : DocState) bodies (k p : nat) (pending : Pending) results : Prop := {
  an_len : length results = length bodies;
  an_le : k ≤ p ≤ length bodies;
  an_done : ∀ i r, results !! i = Some (Some r) → i < p ∧ answer st bodies k i r;
  an_wait : ∀ i, i < p → results !! i = Some None → i ∈ (acks pending).*1;
  an_acks : NoDup (acks pending).*1;
  an_ack : ∀ i v, (i, v) ∈ acks pending → k ≤ i < p ∧ ∃ r, v = Some r ∧ answer st bodies p i r;
}.

Lemma answer_mono st bodies k k' i r : k ≤ k' → answer st bodies k i r → (∀ e, r = Err e → i < k ∨ k' ≤ i ∨ after st bodies (S i) = after st bodies i) →
  answer st bodies k' i r.
Proof.
  intros Hk. destruct r as [[seq|]|e]; cbn; [intros [? ?] _; split; [lia|done]..|].
  intros [Hi|Hi] He; [|by right]. destruct (He e eq_refl) as [|[?|?]]; [lia|by left|by right].
Qed.

(** While the group goes on, only bodies that failed have an error. *)
Definition clean_errors (st : DocState) bodies results : Prop :=
  ∀ i e, results !! i = Some (Some (Err e)) → after st bodies (S i) = after st bodies i.

Lemma answers_publish st bodies k p pending results : answers st bodies k p pending results →
  clean_errors st bodies results →
  answers st bodies p p Pending_default (acknowledge pending results)
  ∧ clean_errors st bodies (acknowledge pending results)
  ∧ (∀ i, i < p → ∃ r, acknowledge pending results !! i = Some (Some r)).
Proof.
  intros [Hlen Hle Hdone Hwait Hnd Hack] Hclean. rewrite acknowledge_acks.
  destruct (insert_all_lookup (acks pending) results Hnd) as (Hl&Hin&Hout).
  set (results' := foldl _ _ _) in *.
  assert (∀ i v, results' !! i = Some v → (i, v) ∈ acks pending ∨ ((i ∉ (acks pending).*1) ∧ results !! i = Some v)) as Hcase.
  { intros i v Hv. destruct (decide (i ∈ (acks pending).*1)) as [Hi|Hi].
    - apply list_elem_of_fmap in Hi as ([j w]&Hj&Hjw). cbn in Hj. subst j. left.
      rewrite (Hin _ _ Hjw) in Hv; [by injection Hv as <-|]. destruct (Hack _ _ Hjw) as [? _]. lia.
    - right. by rewrite <-Hout. }
  split_and!.
  - split.
    + by rewrite Hl.
    + lia.
    + intros i r [Hi|[_ Hi]]%Hcase.
      * destruct (Hack _ _ Hi) as (?&r'&[= <-]&Ha). split; [lia|done].
      * destruct (Hdone _ _ Hi) as [Hip Ha]. split; [done|]. eapply answer_mono; [|exact Ha|]; [lia|].
        intros e ->. right. right. by eapply Hclean.
    + intros i Hi [Hv|[Hn Hv]]%Hcase.
      * destruct (Hack _ _ Hv) as (_&r'&?&_). done.
      * destruct Hn. by apply Hwait.
    + constructor.
    + intros i v Hv. cbn in Hv. set_solver.
  - intros i e [Hi|[_ Hi]]%Hcase; [|by eapply Hclean].
    destruct (Hack _ _ Hi) as (Hk&r'&[= <-]&Ha). cbn in Ha. destruct Ha; [lia|done].
  - intros i Hi. destruct (lookup_lt_is_Some_2 results' i) as [v Hv]; [lia|].
    destruct (Hcase _ _ Hv) as [Hi'|[Hn Hi']].
    + destruct (Hack _ _ Hi') as (_&r'&->&_). by exists r'.
    + destruct v as [r|]; [by exists r|]. destruct Hn. by apply Hwait.
Qed.

(** Failing the rest answers everyone. *)
Lemma answers_fail st bodies k p pending results err : answers st bodies k p pending results →
  length (fail_rest results err) = length bodies
  ∧ (∀ i, i < length bodies → ∃ r, fail_rest results err !! i = Some (Some r) ∧ answer st bodies k i r).
Proof.
  intros [Hlen Hle Hdone Hwait Hnd Hack]. unfold fail_rest. rewrite length_map. split; [done|]. intros i Hi.
  destruct (lookup_lt_is_Some_2 results i) as [[r|] Hv]; [lia|..].
  - exists r. split; [exact (list_lookup_fmap_Some_2 _ _ _ _ Hv)|]. by apply Hdone.
  - eexists. split; [exact (list_lookup_fmap_Some_2 _ _ _ _ Hv)|]. cbn. destruct (decide (i < p)) as [Hp|Hp]; [|left; lia].
    apply Hwait in Hv; [|done]. apply list_elem_of_fmap in Hv as ([j w]&->&Hj). apply Hack in Hj as [? _]. left. cbn in *. lia.
Qed.
End Answers.

(** *** The group *)

Section Round.
Context `{Engine}.
Implicit Types (results : Results) (bodies : list Body).

(** The end of a round: everyone has an answer, the first [k] members are
    durable, and a failed publish carried at most the members before [k']. *)
Definition settled (st : DocState) bodies (results : Results) (d : Disk) : Prop := ∃ k k',
  k ≤ k' ≤ length bodies ∧ length results = length bodies
  ∧ (∀ i, i < length bodies → ∃ r, results !! i = Some (Some r) ∧ answer st bodies k i r)
  ∧ (steady d (after st bodies k) ∨ stopped d (after st bodies k) (after st bodies k')).

Lemma settled_fail st bodies k p pending results err d : answers st bodies k p pending results →
  (∃ index sb, healthy d index sb (after st bodies k)) ∨ stopped d (after st bodies k) (after st bodies p) →
  settled st bodies (fail_rest results err) d.
Proof.
  intros Ha Hd. destruct (answers_fail _ _ _ _ _ _ err Ha) as [Hl Hr]. exists k, p. split_and!; try done; apply Ha.
Qed.

(** One more member that wrote nothing now. *)
Lemma answers_skip st bodies k p pending results b :
  answers st bodies k p pending results → bodies !! p = Some b →
  (∀ err, after st bodies (S p) = after st bodies p →
     answers st bodies k (S p) pending (<[p := Some (Err err)]> results))
  ∧ (after st bodies (S p) = after st bodies p →
     answers st bodies k (S p) {| pd_frames := pd_frames pending; pd_bytes := pd_bytes pending;
       pd_committed := pd_committed pending; pd_readers := pd_readers pending ++ [p] |} results)
  ∧ (∀ seq frames n, seq = st_last_seq (after st bodies (S p)) →
     answers st bodies k (S p) {| pd_frames := frames; pd_bytes := n;
       pd_committed := pd_committed pending ++ [(p, seq)]; pd_readers := pd_readers pending |} results).
Proof.
  intros Ha Hb. apply lookup_lt_Some in Hb as Hp. destruct Ha as [Hlen Hle Hdone Hwait Hnd Hack].
  assert (∀ i v, (i, v) ∈ acks pending → k ≤ i < S p ∧ ∃ r, v = Some r ∧ answer st bodies (S p) i r) as Hack'.
  { intros i v Hi. destruct (Hack _ _ Hi) as (Hk&r&->&Hr). split; [lia|]. exists r. split; [done|].
    eapply answer_mono; [|exact Hr|]; [lia|]. intros e ->. left. lia. }
  assert (p ∉ (acks pending).*1) as Hfresh.
  { intros ([j w]&->&Hj)%list_elem_of_fmap. apply Hack in Hj as [? _]. cbn in *. lia. }
  assert (results !! p = Some None) as Hnone.
  { destruct (lookup_lt_is_Some_2 results p) as [[r|] Hr]; [lia| |done]. apply Hdone in Hr as [? _]. lia. }
  split_and!.
  - intros err Hsame. split; [by rewrite length_insert|lia| | |done|done].
    + intros i r Hr. destruct (decide (i = p)) as [->|Hne].
      * rewrite list_lookup_insert_eq in Hr by lia. injection Hr as <-. split; [lia|]. by right.
      * rewrite list_lookup_insert_ne in Hr by done. destruct (Hdone _ _ Hr). split; [lia|done].
    + intros i Hi Hr. destruct (decide (i = p)) as [->|Hne]; [by rewrite list_lookup_insert_eq in Hr by lia|].
      rewrite list_lookup_insert_ne in Hr by done. apply Hwait; [lia|done].
  - intros Hsame. assert (acks {| pd_frames := pd_frames pending; pd_bytes := pd_bytes pending;
       pd_committed := pd_committed pending; pd_readers := pd_readers pending ++ [p] |} = acks pending ++ [(p, Some (Ok None))]) as Hx.
    { unfold acks. cbn. by rewrite map_app, app_assoc. }
    split; rewrite ?Hx; [done|lia| | | |].
    + intros i r Hr. destruct (Hdone _ _ Hr). split; [lia|done].
    + intros i Hi Hr. rewrite fmap_app, elem_of_app. destruct (decide (i = p)) as [->|Hne]; [right; set_solver|].
      left. apply Hwait; [lia|done].
    + rewrite fmap_app. apply NoDup_app. split_and!; [done|set_solver|apply NoDup_singleton].
    + intros i v [Hi|Hi]%elem_of_app; [by apply Hack'|]. apply list_elem_of_singleton in Hi as [= -> ->].
      split; [lia|]. eexists. split; [done|]. cbn. split; [lia|done].
  - intros seq frames n ->. set (p' := {| pd_frames := frames |}).
    assert (acks p' ≡ₚ acks pending ++ [(p, Some (Ok (Some (st_last_seq (after st bodies (S p))))))]) as Hx.
    { unfold acks, p'. cbn. rewrite map_app, <-!app_assoc. apply Permutation_app_head. cbn. apply Permutation_cons_append. }
    assert ((acks p').*1 ≡ₚ (acks pending).*1 ++ [p]) as Hx1 by (by rewrite Hx, fmap_app).
    split; [done|lia| | | |].
    + intros i r Hr. destruct (Hdone _ _ Hr). split; [lia|done].
    + intros i Hi Hr. rewrite Hx1, elem_of_app. destruct (decide (i = p)) as [->|Hne]; [right; set_solver|].
      left. apply Hwait; [lia|done].
    + rewrite Hx1. apply NoDup_app. split_and!; [done|set_solver|apply NoDup_singleton].
    + intros i v. rewrite Hx. intros [Hi|Hi]%elem_of_app; [by apply Hack'|]. apply list_elem_of_singleton in Hi as [= -> ->].
      split; [lia|]. eexists. split; [done|]. cbn. split; [lia|done].
Qed.

Lemma clean_insert st bodies results p err : clean_errors st bodies results →
  after st bodies (S p) = after st bodies p → clean_errors st bodies (<[p := Some (Err err)]> results).
Proof.
  intros Hc Hs i e Hi. destruct (decide (i = p)) as [->|Hne]; [done|].
  rewrite list_lookup_insert_ne in Hi by done. by eapply Hc.
Qed.

(** A group that published to the end. *)
Definition all_answered (st : DocState) bodies results : Prop := length results = length bodies
  ∧ (∀ i, i < length bodies → ∃ r, results !! i = Some (Some r) ∧ answer st bodies (length bodies) i r).

(** The loop of the leader, from any member on. *)
Lemma wp_run_members st bodies : Forall body_ok bodies → state_ok st →
  ∀ rest p k r pending results d index sb,
  bodies = take p bodies ++ rest → length (take p bodies) = p →
  healthy d index sb (after st bodies k) → rn_base r = entry (d_id d) sb (after st bodies k) → rn_index r = index →
  gathered (after st bodies k) (after st bodies p) r pending →
  answers st bodies k p pending results → clean_errors st bodies results →
  wp (run_members rest p r pending results) d (fun res d' => ∃ o results', res = Ok (o, results')
    ∧ settled st bodies results' d'
    ∧ match o with Some _ => all_answered st bodies results' ∧ steady d' (after st bodies (length bodies)) | None => True end).
Proof.
  intros Hbodies Hst. induction rest as [|b rest IH]; intros p k r pending results d index sb Hsplit Hp Hh Hbase Hidx Hga Ha Hcl;
    cbn [run_members].
  - rewrite app_nil_r in Hsplit. assert (p = length bodies) as ->.
    { rewrite <-Hp at 1. by rewrite <-Hsplit. }
    apply wp_bind, wp_try. eapply wp_mono; [eapply wp_publish_group; [exact Hh|by apply after_ok|done..]|].
    intros [[r' results']|err] d' Hr; cbv beta iota.
    + destruct Hr as (->&index'&sb'&Hh'&_). apply wp_ret. eexists _, _. split; [done|].
      destruct (answers_publish _ _ _ _ _ _ Ha Hcl) as (Ha'&_&Hall).
      assert (all_answered st bodies (acknowledge pending results)) as Hfull.
      { split; [apply Ha'|]. intros i Hi. destruct (Hall i Hi) as [a Hr']. exists a. split; [done|].
        by apply (an_done _ _ _ _ _ _ Ha'). }
      split; [|split; [done|by exists index', sb']]. exists (length bodies), (length bodies).
      split_and!; [lia..|apply Hfull|apply Hfull|left; by exists index', sb'].
    + apply wp_ret. eexists _, _. split; [done|]. split; [|done]. eapply settled_fail; [exact Ha|].
      destruct Hr as [Hr|Hr]; [left; by exists index, sb|by right].
  - assert (bodies !! p = Some b) as Hb.
    { rewrite Hsplit, <-Hp at 1. rewrite lookup_app_r, Hp, Nat.sub_diag by lia. done. }
    assert (bodies = take (S p) bodies ++ rest ∧ length (take (S p) bodies) = S p) as [Hsplit' Hp'].
    { rewrite (take_S_r _ _ _ Hb), <-app_assoc. split; [done|]. rewrite length_app, Hp. cbn. lia. }
    assert (body_ok b) as Hbok by (rewrite Forall_forall in Hbodies; by eapply Hbodies, list_elem_of_lookup_2).
    destruct (gathered_turn _ _ _ _ ltac:(by rewrite Hbase) Hga) as (r1&->&Hga1&Hb1&Hi1&Hf1&Hls).
    rewrite <-Hb1 in Hbase. rewrite <-Hi1 in Hidx.
    destruct (answers_skip _ _ _ _ _ _ _ Ha Hb) as (Hskip&Hread&Hcommit).
    pose proof (after_S st bodies p b Hb) as HS. unfold member_step in HS.
    destruct (b (after st bodies p)) as [[staged|]|err] eqn:Est.
    + rewrite Hls. destruct (framed _ staged) as [[seq frame]|err] eqn:Ef.
      2: { eapply (IH (S p) k); try done; [by rewrite HS|by apply Hskip|by apply clean_insert]. }
      assert (st_last_seq (after st bodies (S p)) = seq) as Hseq by (by rewrite HS).
      assert (∀ k' r' pending' results' d' index' sb', healthy d' index' sb' (after st bodies k') →
        rn_base r' = entry (d_id d') sb' (after st bodies k') → rn_index r' = index' → rn_first r' = None →
        gathered (after st bodies k') (after st bodies p) r' pending' → answers st bodies k' p pending' results' →
        clean_errors st bodies results' →
        wp (run_members rest (S p) (running_add r' (sg_overlay staged) seq)
              {| pd_frames := pd_frames pending' ++ [frame]; pd_bytes := pd_bytes pending' + len frame;
                 pd_committed := pd_committed pending' ++ [(p, seq)]; pd_readers := pd_readers pending' |} results') d'
          (fun res d' => ∃ o results', res = Ok (o, results') ∧ settled st bodies results' d'
            ∧ match o with
              | Some _ => all_answered st bodies results' ∧ steady d' (after st bodies (length bodies))
              | None => True
              end)) as Hgo.
      { intros k' r' pending' results' d' index' sb' Hh' Hbase' Hidx' Hf' Hga' Ha' Hcl'.
        destruct (answers_skip _ _ _ _ _ _ _ Ha' Hb) as (_&_&Hc').
        eapply (IH (S p) k'); [done|done|exact Hh'| | | |by apply Hc'|done].
        - unfold running_add. by destruct (rn_state r').
        - unfold running_add. by destruct (rn_state r').
        - rewrite (after_S _ _ _ _ Hb). eapply gathered_add; try done; [apply Hh'|by rewrite Hbase']. }
      apply wp_bind. destruct (_ && _).
      * apply wp_bind, wp_try. eapply wp_mono; [eapply wp_publish_group; [exact Hh|by apply after_ok|done..]|].
        intros [[r2 results2]|err] d2 Hr; cbv beta iota.
        -- destruct Hr as (->&index2&sb2&Hh2&Hbase2&Hidx2&Hga2&Hf2). apply wp_ret. cbn [result_bind].
           destruct (answers_publish _ _ _ _ _ _ Ha Hcl) as (Ha2&Hcl2&_).
           eapply (Hgo p r2 Pending_default); [exact Hh2|exact Hbase2|exact Hidx2|by apply Hf2|exact Hga2|exact Ha2|exact Hcl2].
        -- apply wp_ret. cbn [result_bind]. apply wp_ret. eexists _, _. split; [done|]. split; [|done].
           eapply settled_fail; [exact Ha|]. destruct Hr as [Hr|Hr]; [left; by exists index, sb|by right].
      * apply wp_ret. by eapply (Hgo k).
    + eapply (IH (S p) k); try done; [|by apply Hread].
      destruct Hga1 as [? Hf]. split; [by rewrite HS|]. by rewrite HS.
    + eapply (IH (S p) k); try done; [by rewrite HS|by apply Hskip|by apply clean_insert].
Qed.
End Round.

(** ** A round, a cut, and the next open *)

Section Crash.
Context `{Engine}.
Implicit Types (results : Results) (queue : list Body).

Lemma answers_start st bodies : answers st bodies 0 0 Pending_default (replicate (length bodies) None).
Proof.
  split; [apply length_replicate|lia| |lia|constructor|intros ? ? []%not_elem_of_nil].
  intros i r Hr. apply lookup_replicate in Hr as [? _]. done.
Qed.

Lemma wp_lead_group d st queue : steady d st → Forall body_ok queue →
  let bodies := take GROUP_MEMBERS queue in
  wp (lead_group queue) d (fun r d' => ∃ due results, r = Ok (due, results) ∧ settled st bodies results d'
    ∧ (due = true → all_answered st bodies results ∧ steady d' (after st bodies (length bodies)))).
Proof.
  intros (index&sb&Hh) Hq bodies. assert (Forall body_ok bodies) as Hb by by apply Forall_take.
  assert (∀ err d', steady d' st ∨ stopped d' st st → settled st bodies (fail_rest (replicate (length bodies) None) err) d') as Hfail.
  { intros err d' Hd. eapply (settled_fail _ _ 0 0); [apply answers_start|]. exact Hd. }
  unfold lead_group. apply wp_bind, wp_try, wp_bind, wp_poison_check; [apply Hh|].
  apply wp_bind. eapply wp_mono; [by apply wp_lock_current|]. intros [[]|e] d1 Hr.
  2: { apply wp_ret. eexists _, _. split; [done|]. split; [|done]. apply Hfail.
       destruct Hr as [Hr|Hr]; [left; by exists index, sb|by right]. }
  destruct Hr as [Hh1 _]. eapply wp_mono; [by apply wp_refresh|]. intros [x|e] d2 (Hh2&Hid&Hx); cbv beta iota zeta.
  2: { apply wp_ret. eexists _, _. split; [done|]. split; [|done]. apply Hfail. left. by exists index, sb. }
  subst x. apply wp_bind. fold bodies. eapply wp_mono.
  - eapply (wp_run_members st bodies Hb (hl_state _ _ _ _ Hh) bodies 0 0); [done|done|exact Hh2|by rewrite <-Hid|done| | |].
    + split; [done|]. exists []. by split_and!; [constructor..|].
    + apply answers_start.
    + intros i e Hi. by apply lookup_replicate in Hi as [? _].
  - intros res d3 (o&results&->&Hset&Ho). apply wp_get, wp_ret. eexists _, _. split; [done|]. split; [done|].
    cbn [fst]. destruct o; [|done]. intros _. exact Ho.
Qed.

Lemma wp_group_round d st queue : steady d st → Forall body_ok queue →
  wp (group_round queue) d (fun r d' => ∃ results, r = Ok results ∧ settled st (take GROUP_MEMBERS queue) results d').
Proof.
  intros Hd Hq. unfold group_round. apply wp_bind. eapply wp_mono; [by apply wp_lead_group|].
  intros r d1 (due&results&->&Hset&Hdue). apply wp_bind. cbn [fst snd]. destruct due.
  - destruct (Hdue eq_refl) as [[Hl Ha] Hs]. apply wp_bind. eapply wp_mono; [by apply wp_auto_checkpoint|].
    intros r d2 [[x ->] Hd2].
    apply wp_ret, wp_ret. exists results. split; [done|]. eexists _, _. split_and!; [..|exact Hd2]; [lia|lia|done|done].
  - apply wp_ret, wp_ret. by exists results.
Qed.

Lemma pure_quiet {A} (m : Io A) p d : pure_read m p → d_faults d = [] → m d = (p (ino_live (d_file d)), d).
Proof. intros Hm Hf. destruct (Hm d) as (l&_&Hnf). by apply Hnf. Qed.

(** With nothing failing, a file that names a state opens to it. *)
Lemma open_clean d index sb st : d_faults d = [] → good (ino_live (d_file d)) index sb st →
  open_container false d = (Ok tt, set_cache d (Some (entry (d_id d) sb st))).
Proof.
  intros Hf Hg. unfold open_container, ensure_superblock, io_bind at 1 2.
  rewrite (pure_quiet _ _ _ pure_superblock Hf), (good_latest _ _ _ _ Hg). cbn [is_some].
  change (io_ret false d) with (Ok (E := StoreError) false, d). cbv beta iota. unfold io_bind at 1.
  rewrite (pure_quiet _ _ _ pure_latest Hf). unfold img_latest. rewrite (good_latest _ _ _ _ Hg). cbn [result_bind ok_or].
  unfold io_bind at 1, io_get. unfold io_bind at 1. rewrite (pure_quiet _ _ _ (pure_load_full _ _) Hf). cbn [snd].
  rewrite (holds_load _ _ _ (gd_holds _ _ _ _ Hg)). reflexivity.
Qed.

(** (C2) A commit that was acknowledged is there after a power cut. A leader's
    round runs against a healthy handle, whatever input and output fails and
    whenever the power goes; of what was not yet synced, any part may be lost,
    kept or torn. The file that is left opens to the state after the first [j]
    members of the group, each whole; every member that was told it committed,
    with the sequence it was told, is among them, and so is what every reader
    that was answered saw. *)
Theorem acknowledged_survives d st queue results d' fates img fresh :
  steady d st → Forall body_ok queue → group_round queue d = (Ok results, d') →
  survivor (d_file d') fates = Some img →
  d_file fresh = Inode_new img → d_faults fresh = [] → d_poison fresh = false →
  let members := take GROUP_MEMBERS queue in
  ∃ j d3, open_container false fresh = (Ok tt, d3) ∧ steady d3 (after st members j) ∧ j ≤ length members
    ∧ (∀ i, i < length members → ∃ r, results !! i = Some (Some r))
    ∧ (∀ i seq, results !! i = Some (Some (Ok (Some seq))) → i < j ∧ seq = st_last_seq (after st members (S i)))
    ∧ (∀ i, results !! i = Some (Some (Ok None)) → i < j).
Proof.
  intros Hd Hq Hrun Hs Hf Hnf Hp members. pose proof (wp_group_round d st queue Hd Hq) as Hw. unfold wp in Hw.
  rewrite Hrun in Hw. cbn [fst snd] in Hw. destruct Hw as (rs&[= <-]&k&k'&Hk&Hlen&Hans&Hend). fold members in Hk, Hlen, Hans, Hend.
  assert (∃ j index sb, good img index sb (after st members j) ∧ k ≤ j ≤ length members) as (j&index&sb&Hg&Hj).
  { destruct Hend as [(index&sb&Hh)|Hst].
    - exists k, index, sb. split; [|lia]. eapply quiet_survivor; [apply Hh|exact Hs].
    - destruct (sp_doubt _ _ _ Hst _ _ Hs) as (index&sb&x&Hg&[->| ->]); [exists k|exists k']; exists index, sb; (split; [done|lia]). }
  exists j, (set_cache fresh (Some (entry (d_id fresh) sb (after st members j)))). split_and!.
  - apply (open_clean _ index); [done|]. by rewrite Hf.
  - exists index, sb. split; cbn; [rewrite Hf; by apply quiet_new|done|by intros c [= <-]|by eapply good_state_ok].
  - lia.
  - intros i Hi. destruct (Hans i Hi) as (r&Hr&_). by exists r.
  - intros i seq Hi. apply lookup_lt_Some in Hi as Hl. destruct (Hans i ltac:(lia)) as (r&Hr&Ha).
    rewrite Hi in Hr. injection Hr as <-. cbn in Ha. destruct Ha. split; [lia|done].
  - intros i Hi. apply lookup_lt_Some in Hi as Hl. destruct (Hans i ltac:(lia)) as (r&Hr&Ha).
    rewrite Hi in Hr. injection Hr as <-. cbn in Ha. destruct Ha. lia.
Qed.

(** A round that ends with the handle healthy left exactly what it
    acknowledged: nothing of a member that was told of an error is in the state
    the handle goes on from. *)
Theorem healthy_round_exact d st queue results d' :
  steady d st → Forall body_ok queue → group_round queue d = (Ok results, d') → d_poison d' = false →
  let members := take GROUP_MEMBERS queue in
  ∃ k, steady d' (after st members k) ∧ k ≤ length members
    ∧ (∀ i e, results !! i = Some (Some (Err e)) → k ≤ i ∨ after st members (S i) = after st members i)
    ∧ (∀ i seq, results !! i = Some (Some (Ok (Some seq))) → i < k).
Proof.
  intros Hd Hq Hrun Hp members. pose proof (wp_group_round d st queue Hd Hq) as Hw. unfold wp in Hw.
  rewrite Hrun in Hw. cbn [fst snd] in Hw. destruct Hw as (rs&[= <-]&k&k'&Hk&Hlen&Hans&Hend). fold members in Hk, Hlen, Hans, Hend.
  exists k. split_and!; [|lia| |].
  - destruct Hend as [|Hst]; [done|]. by rewrite (sp_poison _ _ _ Hst) in Hp.
  - intros i e Hi. apply lookup_lt_Some in Hi as Hl. destruct (Hans i ltac:(lia)) as (r&Hr&Ha).
    rewrite Hi in Hr. injection Hr as <-. exact Ha.
  - intros i seq Hi. apply lookup_lt_Some in Hi as Hl. destruct (Hans i ltac:(lia)) as (r&Hr&Ha).
    rewrite Hi in Hr. injection Hr as <-. by destruct Ha.
Qed.

(** (C40) A checkpoint changes no state: whatever fails or is cut during it, every
    file it can leave opens to the state it was taken of. *)
Theorem checkpoint_keeps_state d st r d' fates img fresh :
  steady d st → checkpoint_disk d = (r, d') → survivor (d_file d') fates = Some img →
  d_file fresh = Inode_new img → d_faults fresh = [] →
  ∃ sb, open_container false fresh = (Ok tt, set_cache fresh (Some (entry (d_id fresh) sb st))).
Proof.
  intros Hd Hrun Hs Hf Hnf. pose proof (wp_checkpoint_disk d st Hd) as Hw. unfold wp in Hw. rewrite Hrun in Hw.
  cbn [fst snd] in Hw. assert (steady d' st ∨ stopped d' st st) as Hend by (destruct r; auto).
  assert (∃ index sb, good img index sb st) as (index&sb&Hg).
  { destruct Hend as [(index&sb&Hh)|Hst].
    - exists index, sb. eapply quiet_survivor; [apply Hh|exact Hs].
    - destruct (sp_doubt _ _ _ Hst _ _ Hs) as (index&sb&x&Hg&[->| ->]); by exists index, sb. }
  exists sb. apply (open_clean _ index); [done|]. by rewrite Hf.
Qed.

(** A handle whose sync failed writes nothing more: a round fails every
    member, a checkpoint fails, neither touches the file, and reads go on from
    the cache, at the state that was acknowledged. *)
Theorem poisoned_handle_frozen d st st' queue : stopped d st st' →
  (∃ results, group_round queue d = (Ok results, d)
     ∧ ∀ i r, results !! i = Some (Some r) → ∃ e, r = Err e)
  ∧ (∃ e, checkpoint_disk d = (Err e, d))
  ∧ (∀ c, d_cache d = Some c → refresh_read d = (Ok c, d) ∧ dc_state c = st).
Proof.
  intros Hs. split_and!.
  - unfold group_round, lead_group, poison_check, io_try, io_bind, io_get. rewrite (sp_poison _ _ _ Hs). cbn.
    eexists. split; [reflexivity|]. intros i r Hr. unfold fail_rest in Hr.
    apply list_lookup_fmap_Some_1 in Hr as (x&Hx&Hlk). apply lookup_replicate in Hlk as [-> _].
    injection Hx as ->. by eexists.
  - by apply stopped_checkpoint in Hs as [? _].
  - intros c Hc. by eapply stopped_read.
Qed.
End Crash.
