(* ===== verification/FlsCache.v ===== *)
(** * The cache and the file ([mod.rs], lines 446-675 and 893-951)

    A handle that finds its cached superblock extended reads only the new bytes
    of the log and replays them over the cached state. The theorem is that this
    gives what a full load of the file gives: whatever [advance] returns, from
    the cache, from the tail or from a load, is the state the superblock names. *)

From S2P Require Import Prelude RustStr Ledger FlsBytes FlsCrc FlsModel FlsVector FlsLayout FlsSnapshot FlsState FlsDisk FlsCrash FlsOpen.

Section Wal.
Context `{Engine}.

Lemma wal_loop_shift turns : ∀ buf offset frames,
  decode_wal_loop turns buf offset frames
  = (let? (fs, n) := decode_wal_loop turns buf 0 [] in Ok (frames ++ fs, (offset + n)%N)).
Proof.
  induction turns as [|turns IH]; intros buf offset frames; cbn [decode_wal_loop].
  - cbn. by rewrite app_nil_r, N.add_0_r.
  - destruct (length buf <? 8); [cbn; by rewrite app_nil_r, N.add_0_r|].
    destruct (u32_at buf 0) as [n|]; [|cbn; by rewrite app_nil_r, N.add_0_r].
    destruct (u32_at buf 4) as [stored|]; [|cbn; by rewrite app_nil_r, N.add_0_r]. cbv zeta.
    case_bool_decide; [cbn; by rewrite app_nil_r, N.add_0_r|].
    destruct (negb _).
    + destruct (_ || _); cbn; [by rewrite app_nil_r, N.add_0_r|done].
    + destruct (decode_payload _) as [frame|]; cbn [result_bind]; [|done].
      rewrite (IH _ (offset + 8 + n)%N), (IH _ (0 + 8 + n)%N).
      destruct (decode_wal_loop turns _ 0 []) as [[fs k]|]; cbn [result_bind]; [|done].
      rewrite <-app_assoc. cbn. do 2 f_equal. lia.
Qed.

Lemma wal_loop_fuel turns : ∀ turns' buf offset frames, length buf ≤ turns → length buf ≤ turns' →
  decode_wal_loop turns buf offset frames = decode_wal_loop turns' buf offset frames.
Proof.
  assert (∀ t (buf : bytes) offset frames, length buf = 0 → decode_wal_loop t buf offset frames = Ok (frames, offset)) as H0'.
  { intros [|t] buf offset frames Hl; cbn [decode_wal_loop]; [done|]. by rewrite Hl. }
  induction turns as [|turns IH]; intros turns' buf offset frames Hl Hl'.
  - rewrite !H0' by lia. done.
  - destruct turns' as [|turns']; [rewrite !H0' by lia; done|]. cbn [decode_wal_loop].
    destruct (length buf <? 8) eqn:E8; [done|]. apply Nat.ltb_ge in E8.
    destruct (u32_at buf 0) as [n|]; [|done]. destruct (u32_at buf 4); [|done]. cbv zeta.
    case_bool_decide; [done|]. destruct (negb _); [done|]. destruct (decode_payload _); cbn [result_bind]; [|done].
    apply IH; rewrite length_drop; lia.
Qed.

(** A log that decodes to its end decodes the same with more after it. *)
Lemma wal_extend turns : ∀ w1 w2 f1, length w1 ≤ turns → decode_wal_loop turns w1 0 [] = Ok (f1, len w1) →
  decode_wal_prefix (w1 ++ w2) = (let? (f2, n) := decode_wal_prefix w2 in Ok (f1 ++ f2, (len w1 + n)%N)).
Proof.
  assert (∀ (w1 w2 : bytes) f1, @Ok (list (N * list Op) * N) StoreError ([], 0%N) = Ok (f1, len w1) →
    decode_wal_prefix (w1 ++ w2) = (let? (f2, n) := decode_wal_prefix w2 in Ok (f1 ++ f2, (len w1 + n)%N))) as Hend.
  { intros w1 w2 f1 [= <- Hl]. destruct w1 as [|b w1]; [|discriminate Hl].
    cbn [app]. by destruct (decode_wal_prefix w2) as [[f2 n]|]. }
  induction turns as [|turns IH]; intros w1 w2 f1 Hl Hd; cbn [decode_wal_loop] in Hd; [by apply Hend|].
  destruct (length w1 <? 8) eqn:E8; [by apply Hend|]. apply Nat.ltb_ge in E8.
  destruct (u32_at w1 0) as [n|] eqn:En; [|by apply Hend]. destruct (u32_at w1 4) as [stored|] eqn:Es; [|by apply Hend].
  cbv zeta in Hd. case_bool_decide as Hfit; [by apply Hend|].
  destruct (negb (crc32 _ =? stored)%N) eqn:Ec; [destruct (_ || _); [by apply Hend|done]|].
  destruct (decode_payload _) as [frame|] eqn:Ep; cbn [result_bind] in Hd; [|done].
  rewrite wal_loop_shift in Hd. destruct (decode_wal_loop turns _ 0 []) as [[fs k]|] eqn:Ed; cbn [result_bind] in Hd; [|done].
  injection Hd as <- Hk. set (rest := drop (8 + N.to_nat n) w1) in *.
  assert (len w1 = (8 + n + len rest)%N) as Hw1 by (subst rest; unfold len; rewrite length_drop; lia).
  assert (k = len rest) as -> by lia.
  unfold decode_wal_prefix at 1. rewrite length_app.
  destruct (length w1 + length w2) as [|t] eqn:Et; [lia|]. cbn [decode_wal_loop].
  rewrite (proj2 (Nat.ltb_ge _ _)) by (rewrite length_app; lia).
  assert (∀ i, i + 4 ≤ length w1 → u32_at (w1 ++ w2) i = u32_at w1 i) as Hat.
  { intros i Hi. unfold u32_at. by rewrite get_range_app_l. }
  rewrite !Hat, En, Es by lia. cbv zeta. rewrite bool_decide_false by (rewrite length_app; lia).
  rewrite (drop_app_le w1 w2 8) by lia. rewrite (take_app_le (drop 8 w1)) by (rewrite length_drop; lia).
  rewrite Ec, Ep. cbn [result_bind]. rewrite (drop_app_le w1 w2 (8 + N.to_nat n)) by lia. fold rest.
  rewrite wal_loop_shift. rewrite (wal_loop_fuel t (length (rest ++ w2))).
  2, 3: rewrite length_app; subst rest; rewrite ?length_drop; lia.
  fold (decode_wal_prefix (rest ++ w2)). rewrite (IH rest w2 fs).
  - destruct (decode_wal_prefix w2) as [[f2 m]|]; cbn [result_bind]; [|done]. cbn [app]. do 2 f_equal. lia.
  - subst rest. rewrite length_drop. lia.
  - exact Ed.
Qed.
End Wal.

Section Tail.
Context `{Engine}.
Implicit Types (st : DocState).

(** ** Replaying a tail *)

Lemma check_applied k frames : ∀ st prev prev' e e' st',
  for_fold (check_frame k) (prev, e) frames = Ok (prev', e') → for_fold (apply_frame k) st frames = Ok st' →
  st_last_seq st = e → (k ≤ e)%N → match prev with Some p => p ≤ e | None => True end%N →
  st_last_seq st' = e' ∧ (k ≤ e')%N ∧ match prev' with Some p => p ≤ e' | None => True end%N.
Proof.
  induction frames as [|[seq ops] frames IH]; intros st prev prev' e e' st' Hc Ha Hs Hk Hp; cbn [for_fold] in *.
  - injection Hc as <- <-. injection Ha as <-. done.
  - destruct (check_frame k (prev, e) (seq, ops)) as [[p1 e1]|] eqn:E1; cbn [result_bind] in Hc; [|done].
    destruct (apply_frame k st (seq, ops)) as [s1|] eqn:E2; cbn [result_bind] in Ha; [|done].
    apply (IH s1 p1 prev' e1 e' st' Hc Ha); clear IH Hc Ha; unfold check_frame in E1; cbn [fst apply_frame] in *.
    all: destruct (seq =? 0)%N; [done|]; destruct (match prev with Some _ => _ | None => _ end); cbn [result_bind] in E1; [|done].
    all: destruct (N.leb_spec seq k).
    all: try (injection E1 as <- <-; injection E2 as <-; lia).
    all: unfold checked_add in E1; destruct (N.leb_spec (e + 1) u64_max); cbn [ok_or result_bind] in E1; [|done];
      destruct (N.eqb_spec seq (e + 1)); cbn [negb] in E1; [|done]; injection E1 as <- <-;
      destruct (for_fold apply_op st ops); cbn [result_bind] in E2; [|done]; injection E2 as <-; cbn; lia.
Qed.

(** Replaying through overlays is applying the frames, with the numbering they
    must have. *)
Lemma replay_applied k frames : ∀ st st' prev, canonical (st_docs st) → (k ≤ st_last_seq st)%N →
  match prev with Some p => p ≤ st_last_seq st | None => True end%N →
  replay_frames st frames = Ok (Some st') →
  (∃ s, for_fold (check_frame k) (prev, st_last_seq st) frames = Ok s) ∧ for_fold (apply_frame k) st frames = Ok st'.
Proof.
  induction frames as [|[seq ops] frames IH]; intros st st' prev Hc Hk Hp Hr; cbn [replay_frames for_fold] in *.
  - injection Hr as <-. split; [by eexists|done].
  - unfold checked_add in Hr. destruct (N.leb_spec (st_last_seq st + 1) u64_max); [|by rewrite bool_decide_false in Hr].
    case_bool_decide as Hseq; cbn [negb] in Hr; [|done]. injection Hseq as <-.
    unfold stage_ops, checked_add in Hr. rewrite (proj2 (N.leb_le _ _)) in Hr by done. cbn [ok_or result_bind] in Hr.
    pose proof (stage_all_simulates st ops Hc _ (overlay_default_ok st)) as Hs.
    destruct (for_fold (fun o op => stage o st op) _ _) as [o|]; cbn [result_bind] in Hr; [|done].
    rewrite overlay_apply_default in Hs by done. unfold publish_overlay in Hr.
    assert (canonical (st_docs (overlay_apply o st))) as Hc' by (by apply applied_canonical).
    destruct (IH (set_last_seq (overlay_apply o st) (st_last_seq st + 1)) st' (Some (st_last_seq st + 1)%N)) as [[s Hs1] Hs2];
      [done|cbn; lia|cbn; lia|done|]. split.
    + exists s. rewrite check_frame_next by (done || (right; lia)). cbn [result_bind].
      rewrite (proj2 (N.leb_gt _ _)) by lia. done.
    + cbn [apply_frame]. rewrite (proj2 (N.leb_gt _ _)) by lia. rewrite Hs. done.
Qed.

Lemma from_nested_is_canonical (nested : Docs) : canonical (from_nested nested).
Proof. intros c ds Hc. unfold from_nested in Hc. apply map_lookup_filter_Some in Hc as [_ Hc]. done. Qed.

Lemma bind_inv {A B} (r : Reader A) (k : A → Reader B) b x rest :
  bind r k b = Ok (x, rest) → ∃ a b', r b = Ok (a, b') ∧ k a b' = Ok (x, rest).
Proof. unfold bind. destruct (r b) as [[a b']|] eqn:E; [|done]. eauto. Qed.

Lemma decode_snapshot_canonical b st : decode_snapshot b = Ok st → canonical (st_docs st).
Proof.
  unfold decode_snapshot. destruct (length b <? 4); [done|]. cbv zeta. destruct (negb _); [done|].
  destruct (_ <? 24); [done|]. generalize (take (length b - 4) b). intros body.
  destruct (snapshot_reader body) as [[snap rest]|] eqn:Es; cbn [result_bind]; [|done]. intros [= <-].
  unfold snapshot_reader in Es. apply bind_inv in Es as (magic&b1&_&Es). destruct (negb _); [done|].
  apply bind_inv in Es as (version&b2&_&Es). destruct (_ && _); [done|].
  apply bind_inv in Es as (seq&b3&_&Es). apply bind_inv in Es as (count&b4&_&Es).
  apply bind_inv in Es as (nested&b5&_&Es). cbv zeta in Es. apply bind_inv in Es as (tables&b6&_&Es).
  apply bind_inv in Es as (vectors&b7&_&Es). apply bind_inv in Es as (u&b8&_&Es).
  injection Es as <- _. cbn [st_docs]. apply from_nested_is_canonical.
Qed.

Lemma img_snapshot_ok sb img st : img_snapshot sb img = Ok st →
  canonical (st_docs st) ∧ st_last_seq st = sb_snapshot_seq sb.
Proof.
  unfold img_snapshot. destruct (_ =? 0)%N; [intros [= <-]; split; [apply map_Forall_empty|done]|].
  destruct (img_range _ _ _); cbn [result_bind]; [|done].
  destruct (decode_snapshot _) as [snap|] eqn:Ed; cbn [result_bind]; [|done].
  destruct (N.eqb_spec (st_last_seq snap) (sb_snapshot_seq sb)); cbn [negb]; [|done]. intros [= <-].
  split; [by eapply decode_snapshot_canonical|done].
Qed.

Lemma apply_frame_canonical k frames : ∀ st st', canonical (st_docs st) → for_fold (apply_frame k) st frames = Ok st' →
  canonical (st_docs st').
Proof.
  induction frames as [|[seq ops] frames IH]; intros st st' Hc; cbn [for_fold apply_frame]; [by intros [= <-]|].
  destruct (_ <=? _)%N; cbn [result_bind]; [by apply IH|].
  destruct (for_fold apply_op st ops) as [s|] eqn:E; cbn [result_bind]; [|done].
  apply IH. cbn. by eapply apply_ops_canonical.
Qed.

Lemma img_range_inv o n img b : img_range o n img = Ok b →
  len b = n ∧ (n ≠ 0%N → (o + n ≤ u64_max)%N ∧ get_range img (N.to_nat o) (N.to_nat n) = Some b).
Proof.
  unfold img_range. destruct (N.eqb_spec n 0) as [->|Hn]; [by intros [= <-]|]. unfold checked_add.
  destruct (N.leb_spec (o + n) u64_max); cbn [ok_or result_bind]; [|done]. destruct (_ <? _)%N; [done|].
  unfold img_at. destruct (get_range _ _ _) as [r|] eqn:E; [|done]. intros [= <-].
  split; [|done]. apply get_range_length in E. unfold len. lia.
Qed.

(** Two adjacent ranges read as one. *)
Lemma img_range_app o n k img x y : k ≠ 0%N → img_range o n img = Ok x → img_range (o + n) k img = Ok y →
  img_range o (n + k) img = Ok (x ++ y).
Proof.
  intros Hk Hx Hy. apply img_range_inv in Hx as [Hlx Hx]. apply img_range_inv in Hy as [Hly Hy].
  destruct (Hy Hk) as [Hm Hgy]. apply img_range_get; [lia|]. rewrite N2Nat.inj_add in Hgy |- *.
  apply get_range_split; [|done]. destruct (decide (n = 0%N)) as [->|Hn]; [|by apply Hx].
  destruct x; [|done]. apply get_range_Some in Hgy as [Hl _]. apply get_range_Some. split; [lia|done].
Qed.

(** The cache holds what a load of its superblock gives. *)
Definition coherent (img : bytes) (c : DiskCache) : Prop :=
  img_state (dc_sb c) img = Ok (dc_state c, dc_wal_applied c).

Lemma tail_is_load img c sb c' : coherent img c → tail_follows c sb = true → img_tail c sb img = Ok (Some c') →
  dc_file_id c' = dc_file_id c ∧ dc_sb c' = sb ∧ coherent img c'.
Proof.
  intros Hco Htf Ht. unfold tail_follows in Htf. cbv zeta in Htf. bool_prop.
  destruct c as [id held st applied]. cbn [dc_file_id dc_sb dc_state dc_wal_applied] in *. subst applied.
  unfold coherent in *. cbn [dc_sb dc_state dc_wal_applied] in Hco. unfold img_state in *.
  assert (img_snapshot sb img = img_snapshot held img) as Hsnap.
  { unfold img_snapshot. by repeat match goal with E : _ = _ held |- _ => rewrite !E; clear E end. }
  unfold img_tail in Ht. cbn [dc_wal_applied dc_state] in Ht.
  destruct (ok_or (checked_add64 (sb_wal_offset sb) _) _) as [start|] eqn:Estart; cbn [result_bind] in Ht; [|done].
  assert (start = sb_wal_offset sb + sb_wal_length held)%N as Hstart.
  { unfold checked_add in Estart. destruct (N.leb_spec (sb_wal_offset sb + sb_wal_length held) u64_max); [|done]. by injection Estart. }
  destruct (img_range start _ img) as [w2|] eqn:Ew2; cbn [result_bind] in Ht; [|done].
  destruct (decode_wal_prefix w2) as [[f2 n2]|] eqn:Ef2; cbn [result_bind fst snd] in Ht; [|done].
  destruct (replay_frames st f2) as [[st'|]|] eqn:Er; cbn in Ht; [|done..]. injection Ht as <-.
  split; [done|]. split; [done|]. cbn [dc_sb dc_state dc_wal_applied extended].
  rewrite Hsnap. destruct (img_snapshot held img) as [st0|] eqn:Es; cbn [result_bind] in Hco |- *; [|done].
  destruct (img_range (sb_wal_offset held) _ img) as [w1|] eqn:Ew1; cbn [result_bind] in Hco; [|done].
  destruct (decode_wal_prefix w1) as [[f1 n1]|] eqn:Ef1; cbn [result_bind fst snd] in Hco; [|done].
  destruct (apply_frames st0 _ f1) as [st1|] eqn:Ea; cbn [result_bind] in Hco; [|done]. injection Hco as -> Hn1.
  assert (img_range (sb_wal_offset sb) (sb_wal_length sb) img = Ok (w1 ++ w2) ∧ len w1 = sb_wal_length held) as [Hrange Hlen1].
  { destruct (img_range_inv _ _ _ _ Ew1) as [Hl1 _]. split; [|done].
    replace (sb_wal_length sb) with (sb_wal_length held + (sb_wal_length sb - sb_wal_length held))%N by lia.
    apply img_range_app; [lia|congruence|]. by rewrite <-Hstart. }
  rewrite Hrange. cbn [result_bind]. assert (decode_wal_prefix (w1 ++ w2) = Ok (f1 ++ f2, (len w1 + n2)%N)) as ->.
  { rewrite (wal_extend (length w1) w1 w2 f1), Ef2; [done|done|]. fold (decode_wal_prefix w1). by rewrite Ef1, Hn1, Hlen1. }
  cbn [result_bind fst snd]. apply img_snapshot_ok in Es as [Hcan Hseq0]. unfold apply_frames in Ea |- *.
  destruct (for_fold (check_frame _) _ f1) as [[prev expect]|] eqn:Ec; cbn [result_bind] in Ea; [|done].
  destruct (check_applied _ _ _ _ _ _ _ _ Ec Ea Hseq0 ltac:(lia) I) as (He&Hk&Hprev).
  pose proof (apply_frame_canonical _ _ _ _ Hcan Ea) as Hcan1.
  rewrite <-He in *. destruct (replay_applied _ _ _ _ prev Hcan1 Hk Hprev Er) as [[s Hs] Happ].
  match goal with E : sb_snapshot_seq sb = sb_snapshot_seq held |- _ => rewrite E end.
  rewrite !for_fold_app, Ec. cbn [result_bind]. rewrite Hs. cbn [result_bind]. rewrite Ea. cbn [result_bind]. rewrite Happ.
  cbn [result_bind]. by rewrite Hlen1.
Qed.
End Tail.

Section Advance.
Context `{Engine}.
Implicit Types (d : Disk) (c : DiskCache).

(** What a full load gives of the file as it stands, with no fault on the way. *)
Definition full_load (id : FileId) (sb : Superblock) (d : Disk) : Result DiskCache StoreError :=
  (load_full id sb (set_faults d [])).1.

Lemma full_load_img id sb d : full_load id sb d
  = (let? x := img_state sb (ino_live (d_file d)) in
     Ok {| dc_file_id := id; dc_sb := sb; dc_state := x.1; dc_wal_applied := x.2 |}).
Proof. unfold full_load. destruct (pure_load_full id sb (set_faults d [])) as (l&_&Hnf). by rewrite Hnf. Qed.

Lemma full_load_coherent c d : full_load (dc_file_id c) (dc_sb c) d = Ok c ↔ coherent (ino_live (d_file d)) c.
Proof.
  rewrite full_load_img. unfold coherent. destruct (img_state _ _) as [[st n]|]; cbn [result_bind fst snd]; [|done].
  destruct c as [i b st' n']; cbn. split; congruence.
Qed.

(** The answer is the full load's, or, under a fault, an error. *)
Definition loads_as {A} (full : Result A StoreError) (m : Io A) (d : Disk) : Prop :=
  ((m d).1 = full ∨ ∃ e, (m d).1 = Err e) ∧ (d_faults d = [] → (m d).1 = full) ∧ d_file (m d).2 = d_file d.

Lemma load_loads id sb d : loads_as (full_load id sb d) (load_full id sb) d.
Proof.
  rewrite full_load_img. destruct (pure_load_full id sb d) as (l&Hd&Hnf). split.
  - destruct Hd as [->|[e ->]]; [by left|right; by eexists].
  - split; [by intros ->%Hnf|]. by destruct Hd as [->|[e ->]].
Qed.

(** Keeping the fresh cache changes no answer on a handle that is not poisoned. *)
Lemma install_loads d (m : Io DiskCache) (full : Result DiskCache StoreError) :
  d_poison d = false → (∃ l, (m d).2 = set_faults d l) → loads_as full m d →
  loads_as full (io fresh := m in io d := io_get in
    match d_poison d, d_cache d with
    | true, Some held => io_ret held
    | _, _ => io _ := io_modify (fun d => set_cache d (install_newer (d_cache d) fresh (d_id d))) in io_ret fresh
    end) d.
Proof.
  intros Hp [l Hl] Hm. unfold loads_as, io_bind, io_get, io_modify, io_ret in *.
  destruct (m d) as [[fresh|e] d']; cbn in Hl |- *; [|done]. subst d'. cbn. by rewrite Hp.
Qed.

Lemma load_state_kept id sb d : ∃ l, (load_full id sb d).2 = set_faults d l.
Proof. destruct (pure_load_full id sb d) as (l&[->|[e ->]]&_); by exists l. Qed.

(** Trying the tail and falling back on a load. *)
Definition tail_or_load (held : DiskCache) (sb : Superblock) : Io DiskCache :=
  io tail := io_try (replay_tail held sb) in
  match tail with Ok (Some next) => io_ret next | Ok None | Err _ => load_full (dc_file_id held) sb end.

Lemma tail_or_load_loads held sb d : full_load (dc_file_id held) (dc_sb held) d = Ok held → tail_follows held sb = true →
  (∃ l, (tail_or_load held sb d).2 = set_faults d l)
  ∧ loads_as (full_load (dc_file_id held) sb d) (tail_or_load held sb) d.
Proof.
  intros Hh Ht. unfold loads_as, tail_or_load, io_bind, io_try.
  assert (∀ l, (∃ l', (load_full (dc_file_id held) sb (set_faults d l)).2 = set_faults d l')
    ∧ ((load_full (dc_file_id held) sb (set_faults d l)).1 = full_load (dc_file_id held) sb d
       ∨ ∃ e, (load_full (dc_file_id held) sb (set_faults d l)).1 = Err e)
    ∧ (l = [] → (load_full (dc_file_id held) sb (set_faults d l)).1 = full_load (dc_file_id held) sb d)) as Hload.
  { intros l. destruct (load_state_kept (dc_file_id held) sb (set_faults d l)) as [l' Hl'].
    destruct (load_loads (dc_file_id held) sb (set_faults d l)) as (H1&H2&_).
    split; [by exists l'|]. split; [exact H1|exact H2]. }
  destruct (pure_replay_tail held sb d) as (l&Hd&Hnf).
  assert (d_faults d = [] → set_faults d l = d ∧ (replay_tail held sb d).1 = img_tail held sb (ino_live (d_file d))) as Hnf'.
  { intros Hf. rewrite (Hnf Hf). split; [|done]. rewrite (Hnf Hf) in Hd.
    destruct Hd as [Hd|[e Hd]]; injection Hd; congruence. }
  destruct Hd as [Hd|[e Hd]]; rewrite Hd in Hnf' |- *; cbn [fst snd] in *.
  - destruct (img_tail held sb _) as [[next|]|] eqn:Et.
    2,3: destruct (Hload l) as ([l' Hl']&H1&H2); split; [by exists l'|]; split; [exact H1|]; rewrite Hl'; split; [|done];
      intros Hf; destruct (Hnf' Hf) as [Hl _]; apply H2; rewrite <-Hl in Hf; exact Hf.
    unfold io_ret. cbn [fst snd]. split; [by exists l|].
    apply full_load_coherent in Hh. destruct (tail_is_load _ _ _ _ Hh Ht Et) as (Hid&Hsb&Hco).
    apply full_load_coherent in Hco. rewrite Hid, Hsb in Hco. rewrite Hco. by split; [left|].
  - destruct (Hload l) as ([l' Hl']&H1&H2). split; [by exists l'|]. split; [exact H1|]. rewrite Hl'. split; [|done].
    intros Hf. destruct (Hnf' Hf) as [Hl _]. apply H2. by rewrite <-Hl in Hf.
Qed.

(** (C39) On a handle that is not poisoned, over a cache that holds what a full
    load of its own superblock gives, [advance] to any superblock answers what a
    full load of that superblock answers: the state, the log length and the
    errors. The cached state, the tail replayed over it and the load agree. A
    fault on the way can only make it an error, and the file is not written. *)
Theorem advance_is_load id cached sb d : d_poison d = false →
  (∀ held, cached = Some held → full_load (dc_file_id held) (dc_sb held) d = Ok held) →
  loads_as (full_load id sb d) (advance id cached sb) d.
Proof.
  intros Hp Hh. unfold advance. cbv zeta.
  destruct cached as [held|]; [|by apply install_loads; [|apply load_state_kept|apply load_loads]].
  specialize (Hh held eq_refl).
  destruct (decide (dc_file_id held = id)) as [<-|Hid].
  2:{ rewrite (bool_decide_false _ Hid). cbn [andb]. by apply install_loads; [|apply load_state_kept|apply load_loads]. }
  rewrite (bool_decide_true (dc_file_id held = dc_file_id held)) by done. cbn [andb]. case_bool_decide as Hsb.
  { subst sb. rewrite Hh. unfold loads_as, io_ret. cbn. auto. }
  destruct (tail_follows held sb) eqn:Ht; [|by apply install_loads; [|apply load_state_kept|apply load_loads]].
  destruct (tail_or_load_loads held sb d Hh Ht) as [Hl Hm].
  pose proof (install_loads d _ _ Hp Hl Hm) as Hi. revert Hi. unfold loads_as, tail_or_load, io_bind, io_try.
  by destruct (replay_tail held sb d) as [[[?|]|] ?].
Qed.
End Advance.
