(* ===== verification/FlsDemo.v ===== *)
(** * The container at work

    One concrete instance of the parameters of the container's model (documents
    that are their own bytes, a digest and a logarithm that give the vectors levels), a store that was just
    created with it, and the container's theorems applied there. *)

From S2P Require Import Prelude RustStr Model Ledger FlsBytes FlsCrc FlsFloat FlsModel FlsVector FlsGraph FlsIndex FlsValid FlsColumns FlsRowGroup FlsEncode FlsScan FlsRollup FlsLayout FlsSnapshot FlsState FlsDisk FlsCrash FlsOpen FlsGroup FlsCache.

Module Demo.

(** ** The parameters *)

#[local] Instance json : Json :=
  {| Value := bytes; to_vec v := Ok v; from_slice raw := Some raw; json_num n := le_bytes 8 n |}.

#[local] Instance engine : Engine :=
  {| debug_str s := s;
     size_of_value := 32;
     size_of_row := 24;
     sha256 b := zeros 7 ++ b ++ zeros 32;
     f64_ln x := f64_div (f64_sub x (f64_of_Z 1)) x |}.

Lemma stable (v : Value) : json_stable v.
Proof. intros raw [= <-]. done. Qed.

(** ** A log, a state, a run *)

Definition run_put : Op := Put "runs" "r1" (chars "doc").
Definition run_delete : Op := Delete "runs" "r1".

Lemma run_put_ok : op_ok run_put.
Proof. split_and!; [vm_compute; reflexivity..|apply stable]. Qed.

Definition frame1 : bytes := match encode_frame 1 [run_put] with Ok w => w | Err _ => [] end.
Definition frame2 : bytes := match encode_frame 2 [run_delete] with Ok w => w | Err _ => [] end.

Lemma frame1_of : frame_of (1%N, [run_put]) frame1.
Proof. split_and!; [vm_compute; reflexivity|vm_compute; discriminate|]. constructor; [apply run_put_ok|constructor]. Qed.

Lemma frame2_of : frame_of (2%N, [run_delete]) frame2.
Proof. split_and!; [vm_compute; reflexivity|vm_compute; discriminate|]. constructor; [by split|constructor]. Qed.

(** A frame cut at its tenth byte. *)
Lemma wal_torn_tail_dropped_witness :
  decode_wal_prefix (concat [frame1] ++ take 10 frame2) = Ok ([(1%N, [run_put])], len (concat [frame1])).
Proof.
  apply (wal_torn_tail_dropped [(1%N, [run_put])] [frame1] (2%N, [run_delete]) (take 10 frame2) (drop 10 frame2)).
  - constructor; [apply frame1_of|constructor].
  - rewrite take_drop. apply frame2_of.
  - vm_compute. discriminate.
Defined.

Definition one_doc : DocState :=
  {| st_docs := doc_insert ∅ "runs" "r1" (chars "doc"); st_tables := ∅; st_vectors := ∅; st_last_seq := 1 |}.

Lemma one_doc_ok : state_ok one_doc.
Proof.
  refine (apply_op_ok {| st_docs := ∅; st_tables := ∅; st_vectors := ∅; st_last_seq := 1 |} run_put one_doc _ run_put_ok _).
  - split; cbn; [apply map_Forall_empty|intros c i d Hd; discriminate Hd|apply map_Forall_empty..|unfold u64_max; lia].
  - reflexivity.
Qed.

Definition one_doc_blob : bytes := match encode_state_snapshot one_doc with Ok b => b | Err _ => [] end.

Lemma snapshot_roundtrip_witness : decode_snapshot one_doc_blob = Ok one_doc ∧ one_doc_blob ≠ [].
Proof.
  split; [|vm_compute; discriminate].
  apply (snapshot_roundtrip one_doc one_doc_blob); [apply one_doc_ok|vm_compute; reflexivity].
Defined.

(** A put, a delete and a put over a state that has the document. *)
Definition staged_ops : list Op := [run_put; run_delete; Put "runs" "r2" (chars "other")].

Definition is_ok {A E} (r : Result A E) : bool := match r with Ok _ => true | Err _ => false end.

Lemma is_ok_get {A E} (r : Result A E) : is_ok r = true → ∃ a, r = Ok a.
Proof. destruct r; [eauto|discriminate]. Qed.

Lemma overlay_is_replay_witness :
  ∃ o st, for_fold (fun o op => stage o one_doc op) Overlay_default staged_ops = Ok o
    ∧ for_fold apply_op one_doc staged_ops = Ok st
    ∧ overlay_doc o one_doc "runs" "r1" = doc_get (st_docs st) "runs" "r1"
    ∧ overlay_doc o one_doc "runs" "r2" = doc_get (st_docs st) "runs" "r2".
Proof.
  pose proof (overlay_is_replay one_doc staged_ops (so_canonical _ one_doc_ok)) as Hw.
  destruct (is_ok_get (for_fold (fun o op => stage o one_doc op) Overlay_default staged_ops)) as [o E];
    [vm_compute; reflexivity|]. rewrite E in Hw.
  destruct Hw as (st&Hst&_&Hdoc&_). exists o, st. split; [exact E|]. split; [exact Hst|]. split; apply Hdoc.
Defined.

(** Two commits after a snapshot, the first of them in the snapshot. *)
Lemma log_replays_witness :
  ∃ st1 st2, for_fold commit_ops one_doc [[run_delete]] = Ok st1 ∧ for_fold commit_ops st1 [[run_put]] = Ok st2
    ∧ apply_frames st1 (st_last_seq st1) (number (st_last_seq one_doc) ([[run_delete]] ++ [[run_put]])) = Ok st2.
Proof.
  destruct (is_ok_get (let? st1 := for_fold commit_ops one_doc [[run_delete]] in for_fold commit_ops st1 [[run_put]]))
    as [st2 E2]; [vm_compute; reflexivity|].
  destruct (for_fold commit_ops one_doc [[run_delete]]) as [st1|] eqn:E1; [|discriminate E2]. cbn [result_bind] in E2.
  exists st1, st2. split; [reflexivity|]. split; [exact E2|].
  apply (log_replays one_doc st1 st2 [[run_delete]] [[run_put]]).
  - apply one_doc_ok.
  - by repeat constructor.
  - exact E1.
  - exact E2.
Defined.

(** ** A vector collection *)

Definition one (x : N) : bytes := u32_bytes x.
Definition index_ops : list Op :=
  [CreateVectorCollection "v" 1 F32 L2 2 4 4;
   UpsertVector "v" "0" (one 1065353216) None; UpsertVector "v" "a" (one 1073741824) None;
   UpsertVector "v" "b" (one 1077936128) None; UpsertVector "v" "z" (one 1082130432) None;
   UpsertVector "v" "y" (one 1084227584) None; UpsertVector "v" "a" (one 1092616192) None].

(** One-dimensional vectors, 2 links a list, and a replacement. *)
Definition index : VectorCollection :=
  match for_fold apply_op {| st_docs := ∅; st_tables := ∅; st_vectors := ∅; st_last_seq := 0 |} index_ops with
  | Ok st => default (VectorCollection_empty 1 F32 L2 2 4 4) (st_vectors st !! "v")
  | Err _ => VectorCollection_empty 1 F32 L2 2 4 4
  end.

Example index_levels : map (fun x => (x.1, vr_level x.2)) (btree_iter (vc_vectors index))
  = [("0", 8); ("a", 3); ("b", 3); ("y", 2); ("z", 2)]%N.
Proof. vm_compute. reflexivity. Qed.

Example index_links : map (fun x => nth 0 (vr_neighbors x.2) []) (btree_iter (vc_vectors index))
  = [["b"; "z"; "y"; "a"]; ["y"; "z"; "b"; "0"]; ["z"; "0"; "y"; "a"]; ["z"; "b"; "0"; "a"]; ["b"; "y"; "0"; "a"]].
Proof. vm_compute. reflexivity. Qed.

Lemma index_keeps_graph_witness :
  (∃ c', vc_upsert index "c" (one 1086324736) None = Ok c' ∧ validate_graph_full "v" c' = Ok tt)
  ∧ ∃ c', vc_delete_id index "z" = Ok c' ∧ validate_graph_full "v" c' = Ok tt.
Proof.
  split.
  - destruct (index_keeps_graph "v" index "c" (one 1086324736) None) as [(c'&He&Hv&_) _];
      [vm_compute; reflexivity..|]. exists c'. split; [exact He|exact Hv].
  - destruct (index_keeps_graph "v" index "z" (one 1086324736) None) as [_ (c'&He&Hv&_)];
      [vm_compute; reflexivity..|]. exists c'. split; [exact He|exact Hv].
Defined.

Lemma search_answers_witness :
  ∃ hits, vector_search index [1077936128%N] 3 None = Ok hits ∧ map fst hits = ["b"; "z"; "0"]
    ∧ StronglySorted hit_leb hits.
Proof.
  destruct (is_ok_get (prepare_query index [1077936128%N])) as [query Hq]; [vm_compute; reflexivity|].
  pose proof (search_answers "v" index [1077936128%N] query 3 None) as Hs.
  destruct (is_ok_get (vector_search index [1077936128%N] 3 None)) as [hits Hh]; [vm_compute; reflexivity|].
  exists hits. split; [exact Hh|]. split.
  - assert ((match vector_search index [1077936128%N] 3 None with Ok hs => map fst hs | Err _ => [] end) = ["b"; "z"; "0"])
      as Hids by (vm_compute; reflexivity). rewrite Hh in Hids. exact Hids.
  - rewrite Hh in Hs. destruct Hs as (_&_&Hsort&_); [vm_compute; reflexivity|exact Hq|exact Hsort].
Defined.

(** ** A new store *)

Definition blob : bytes := match encode_snapshot 0 new_store_docs with Ok b => b | Err _ => [] end.

Lemma blob_ok : encode_snapshot 0 new_store_docs = Ok blob.
Proof. vm_compute. reflexivity. Qed.

Definition store_image : bytes := write_into (write_into (zeros (N.to_nat HEADER_BYTES)) HEADER_BYTES blob) (slot_offset 0) (encode_superblock (first_sb blob)).

Definition disk (img : bytes) : Disk :=
  {| d_file := Inode_new img; d_faults := []; d_id := (7%N, 9%N); d_path := "store.fls"; d_name_durable := true;
     d_cache := None; d_poison := false; d_checkpoint_failed_at := 0; d_compact_failed_at := 0 |}.

Lemma store_good : good store_image 0 (first_sb blob) new_store.
Proof. exact (first_image_good blob blob_ok (stable _)). Qed.

Lemma disk_steady : steady (disk store_image) new_store.
Proof.
  exists 0, (first_sb blob). split; cbn [disk d_file d_poison d_cache].
  - apply quiet_new, store_good.
  - reflexivity.
  - discriminate.
  - by eapply good_state_ok, store_good.
Qed.

(** An empty file is opened as a new store. *)
Lemma open_recovers_witness :
  ∃ d, open_container true (disk []) = (Ok tt, d) ∧ steady d new_store.
Proof.
  pose proof (open_recovers blob blob_ok (stable _) (disk []) [] new_store true eq_refl eq_refl
    (or_introl (conj (blank_nil blob) eq_refl))) as Hw.
  assert (is_ok (open_container true (disk [])).1 = true) as Hok by (vm_compute; reflexivity).
  destruct (open_container true (disk [])) as [[[]|e] d]; [|discriminate Hok].
  exists d. split; [reflexivity|exact Hw].
Defined.

(** A file that starts with another program's bytes is refused and left. *)
Lemma open_never_overwrites_witness :
  d_file (open_container true (disk (chars "PK"))).2 = Inode_new (chars "PK").
Proof.
  apply (open_never_overwrites blob blob_ok (stable _)); [reflexivity|]. by apply not_blank.
Defined.

(** ** A group of two members: one commits, one only reads *)

Definition put_body : Body := fun st =>
  let? o := for_fold (fun o op => stage o st op) Overlay_default [run_put] in
  Ok (Some {| sg_ops := [run_put]; sg_overlay := o |}).
Definition read_body : Body := fun _ => Ok None.
Definition queue : list Body := [put_body; read_body].

Lemma queue_ok : Forall body_ok queue.
Proof.
  constructor; [|constructor; [by intros st staged|constructor]]. intros st staged. unfold put_body.
  destruct (for_fold _ _ [run_put]) as [o|] eqn:E; cbn [result_bind]; [|done]. intros [= <-]. cbn.
  split_and!; [done|constructor; [apply run_put_ok|constructor]|exact E].
Qed.

Definition round : Result Results StoreError * Disk := group_round queue (disk store_image).
Definition answers : Results := [Some (Ok (Some 1%N)); Some (Ok None)].

Lemma round_answers : round = (Ok answers, round.2).
Proof.
  transitivity (round.1, round.2); [apply surjective_pairing|].
  apply (f_equal (fun r => (r, round.2))). vm_compute. reflexivity.
Qed.

Definition kept : list nat := replicate (length (ino_pending (d_file round.2))) 1.
Definition left_over : bytes := foldl apply_data (ino_durable (d_file round.2)) (ino_pending (d_file round.2)).

Lemma round_survivor : survivor (d_file round.2) kept = Some left_over.
Proof. apply survive_all_kept. Qed.

(** The commit was acknowledged with sequence 1, so it is in what opens. *)
Lemma acknowledged_survives_witness :
  ∃ j d3, open_container false (disk left_over) = (Ok tt, d3) ∧ steady d3 (after new_store queue j) ∧ 0 < j.
Proof.
  destruct (acknowledged_survives (disk store_image) new_store queue answers round.2 kept left_over (disk left_over)
    disk_steady queue_ok round_answers round_survivor eq_refl eq_refl eq_refl) as (j&d3&Ho&Hs&_&_&Hc&_).
  exists j, d3. split; [exact Ho|]. split; [exact Hs|]. destruct (Hc 0 1%N eq_refl) as [Hj _]. exact Hj.
Defined.

Lemma healthy_round_exact_witness : ∃ k, steady round.2 (after new_store queue k) ∧ 0 < k.
Proof.
  destruct (healthy_round_exact (disk store_image) new_store queue answers round.2
    disk_steady queue_ok round_answers) as (k&Hs&_&_&Hc); [vm_compute; reflexivity|].
  exists k. split; [exact Hs|]. exact (Hc 0 1%N eq_refl).
Defined.

(** A checkpoint whose first sync fails; what it wrote is still pending. *)
Definition failing : Disk := set_faults (disk store_image) (replicate 9 None ++ [Some "EIO"]).
Definition checkpointed : Result bool StoreError * Disk := checkpoint_disk failing.
Definition cut_image : bytes :=
  foldl apply_data (ino_durable (d_file checkpointed.2)) (ino_pending (d_file checkpointed.2)).

Example checkpoint_failed : is_ok checkpointed.1 = false ∧ d_poison checkpointed.2 = true.
Proof. split; vm_compute; reflexivity. Qed.

Lemma checkpoint_keeps_state_witness :
  ∃ sb, open_container false (disk cut_image)
    = (Ok tt, set_cache (disk cut_image) (Some (entry (7%N, 9%N) sb new_store))).
Proof.
  apply (checkpoint_keeps_state failing new_store checkpointed.1 checkpointed.2
    (replicate (length (ino_pending (d_file checkpointed.2))) 1) cut_image (disk cut_image)).
  - destruct disk_steady as (index&sb&Hh). exists index, sb. by apply healthy_faults.
  - apply surjective_pairing.
  - apply survive_all_kept.
  - reflexivity.
  - reflexivity.
Defined.

Lemma poisoned_handle_frozen_witness :
  ∃ e, checkpoint_disk (mark (disk store_image)) = (Err e, mark (disk store_image)).
Proof.
  destruct disk_steady as (index&sb&Hh).
  destruct (poisoned_handle_frozen (mark (disk store_image)) new_store new_store queue
    (healthy_stopped _ _ _ _ _ Hh)) as (_&Hc&_). exact Hc.
Defined.

(** The log of the new store, extended by one frame, under a superblock that
    names the frame: the handle that holds the old superblock replays the tail. *)
Definition longer_image : bytes := store_image ++ frame1.
Definition longer_sb : Superblock :=
  {| sb_epoch := 2; sb_snapshot_offset := HEADER_BYTES; sb_snapshot_length := len blob;
     sb_wal_offset := HEADER_BYTES + len blob; sb_wal_length := len frame1; sb_snapshot_seq := 0 |}.

Lemma longer_good : good longer_image 0 (first_sb blob) new_store.
Proof.
  apply (good_agree _ _ _ _ _ store_good). pose proof (good_len _ _ _ _ store_good) as Hl. unfold longer_image. split_and!.
  - exact Hl.
  - rewrite length_app. lia.
  - by rewrite take_app_le.
Qed.

Definition held : DiskCache := entry (7%N, 9%N) (first_sb blob) new_store.

Lemma advance_is_load_witness :
  tail_follows held longer_sb = true ∧ is_ok (advance (7%N, 9%N) (Some held) longer_sb (disk longer_image)).1 = true
  ∧ loads_as (full_load (7%N, 9%N) longer_sb (disk longer_image)) (advance (7%N, 9%N) (Some held) longer_sb)
      (disk longer_image).
Proof.
  split; [vm_compute; reflexivity|]. split; [vm_compute; reflexivity|].
  apply advance_is_load; [reflexivity|]. intros c [= <-]. apply full_load_coherent.
  exact (holds_load _ _ _ (gd_holds _ _ _ _ longer_good)).
Defined.

(** ** A column table *)

Definition demo_columns : list ColumnDef :=
  [{| cd_name := "tokens"; cd_ty := CInt64 |}; {| cd_name := "gate"; cd_ty := CUtf8 |}; {| cd_name := "cost"; cd_ty := CFloat64 |}].

(** An integer that runs, a text with a null, and a float that is not a number. *)
Definition demo_rows : list (list ColumnValue) :=
  [[VInt64 5; VUtf8 "build"; VFloat64 4607182418800017408]; [VInt64 7; VUtf8 "test"; VNull];
   [VInt64 9; VNull; VFloat64 9221120237041090561]; [VInt64 (-11); VUtf8 "test"; VNull]].

Definition demo_filters (n : Z) : list ColumnFilter :=
  [{| cf_column := "tokens"; cf_predicate := PGe (VInt64 n) |}; {| cf_column := "gate"; cf_predicate := PEq (VUtf8 "test") |}].

Lemma demo_rows_ok : rows_ok demo_columns demo_rows.
Proof. repeat constructor. Qed.

Lemma demo_rows_fit : Forall (Forall value_fits) demo_rows.
Proof. repeat constructor; vm_compute; done. Qed.

Definition demo_group : bytes := match encode_row_group demo_columns demo_rows with Ok b => b | Err _ => [] end.

Lemma demo_group_accepted : validate_row_group demo_columns demo_group = Ok tt.
Proof. vm_compute. reflexivity. Qed.

Lemma row_group_roundtrip_witness :
  ∃ b, encode_row_group demo_columns demo_rows = Ok b ∧ read_group demo_columns b Limits_DEFAULT = Ok demo_rows.
Proof.
  apply (proj2 (row_group_roundtrip demo_columns demo_rows ltac:(discriminate) demo_rows_fit)).
  split; [exact demo_rows_ok|]. split; vm_compute; discriminate.
Defined.

Lemma accepted_group_typed_witness :
  ∃ g rows, index_group demo_group demo_columns = Ok g ∧ decode_indexed demo_columns g = Ok rows
    ∧ (1 ≤ len rows ≤ MAX_ROWS_PER_GROUP)%N
    ∧ Forall (Forall2 (fun c v => cell_matches (cd_ty c) v = true ∧ value_fits v) demo_columns) rows
    ∧ map ic_zone (ig_columns g) = map (fun i => zone_map (column_values rows i)) (seq 0 (length demo_columns)).
Proof. apply (accepted_group_typed demo_columns demo_group). exact demo_group_accepted. Defined.

(** The first group is read, and its last row does not match; the second is
    skipped by a zone map. *)
Definition demo_late : bytes :=
  match encode_row_group demo_columns (take 2 demo_rows) with Ok b => b | Err _ => [] end.

Lemma scan_is_filter_witness : ∃ decoded skipped,
  Forall2 (fun b rows => read_group demo_columns b Limits_DEFAULT = Ok rows) [demo_group; demo_late] decoded
  ∧ scan_groups demo_columns [demo_group; demo_late] (demo_filters 8)
    = Ok {| cs_rows := List.filter (row_matches [(0, PGe (VInt64 8)); (1, PEq (VUtf8 "test"))]) (concat decoded);
            cs_total := 2; cs_skipped := skipped |}
  ∧ (skipped ≤ 2)%N.
Proof.
  refine (scan_is_filter demo_columns [demo_group; demo_late] (demo_filters 8) _ _); [vm_compute; discriminate|].
  constructor; [exact demo_group_accepted|]. constructor; [vm_compute; reflexivity|constructor].
Defined.

Example demo_scan : scan_groups demo_columns [demo_group; demo_late] (demo_filters 8)
  = Ok {| cs_rows := []; cs_total := 2; cs_skipped := 1 |}.
Proof. vm_compute. reflexivity. Qed.

Lemma scan_projected_is_filter_witness : ∃ total skipped,
  scan_projected demo_columns demo_rows (demo_filters 6)
    = Ok {| cs_rows := [[VInt64 7; VUtf8 "test"; VNull]]; cs_total := total; cs_skipped := skipped |}
  ∧ (skipped ≤ total ≤ 4)%N.
Proof.
  refine (scan_projected_is_filter demo_columns demo_rows (demo_filters 6) demo_rows_fit demo_rows_ok _ _);
    [vm_compute; discriminate|]. repeat constructor; vm_compute; discriminate.
Defined.

Definition demo_attempt (project : string) (cost duration : N) : Attempt :=
  {| at_id := None; at_at := None; at_project := project; at_record := "r1"; at_adapter := "claude"; at_status := ACompleted;
     at_duration_ms := duration; at_tokens_in := 10; at_tokens_out := 3; at_cost_usd_micros := cost;
     at_paths_touched := Counted 1; at_output_excerpt := None |}.

Definition demo_attempts : list Attempt :=
  [demo_attempt "p" 5 100; demo_attempt "q" 70 1; demo_attempt "p" 9223372036854775807 200].

Lemma attempt_rollup_exact_witness :
  attempt_rollup demo_attempts (Some "p")
  = Ok {| ar_count := 2; ar_cost_usd_micros := 9223372036854775812; ar_tokens_in := 20; ar_tokens_out := 6;
          ar_duration_ms := 300 |}.
Proof.
  refine (attempt_rollup_exact demo_attempts (Some "p") _ _ _); [vm_compute; discriminate|..];
    repeat constructor; vm_compute; discriminate.
Defined.
End Demo.
